(* ===== verification/_CoqProject ===== *)
-Q . S2P
Prelude.v
GoStd.v
Platform.v
Permission.v
PermCache.v
PermInvalidate.v
PermWitness.v
Presence.v
Validate.v
Config.v
Tokens.v
Jwt.v
Session.v
Publisher.v
Proc.v
Domain.v
Postgres.v
Frames.v
GuildTables.v
GuildRepo.v
Http.v
MemberApi.v
GuildSpec.v
ApiLogic.v
MemberProofs.v
UserDB.v
UserInv.v
Base64.v
AuthCrypto.v
AuthService.v
AuthProofs.v
Gateway.v
GatewayInv.v
GatewayDelivery.v
GatewayWitness.v
GuildStore.v
ResolverFrame.v
JoinApi.v
JoinSpec.v
JoinProofs.v
Routes.v
Cookies.v
AuthApi.v
AccountProofs.v
AccountSessions.v
AuthWitness.v
Bootstrap.v
GuildHistory.v
FirstRun.v
MemberList.v
GuildWitness.v
ChatTables.v
DmTables.v
ChatRepo.v
ChatModel.v
MessageApi.v
DmApi.v
ChatLogic.v
RouteGate.v
ChatSpec.v
ChatInv.v
ChatHistory.v
ChatWrites.v
ChatProofs.v
DmWrites.v
DmProofs.v
ChatRoutes.v
ChatGate.v
ChatReads.v
ChatWitness.v
Database.v
ChannelTables.v
ChannelRepos.v
ChannelApi.v
ChannelSpec.v
ChannelProofs.v
SearchApi.v
ChannelRoutes.v
ChannelReads.v
ChannelWitness.v
