(* ===== verification/Prelude.v ===== *)
(** * Uncord server: a verification development

    The Go server of a self-hosted chat system.  The files translate its code definition by
    definition and prove what makes each part, and the parts together, correct.  This file
    holds the vocabulary all others share: Go errors, the state-and-error monad [M] in which
    effectful code is written, its inversion rules and tactics.

    ** Layers, and where they are

    - Standard library and environment.  GoStd.v computes strconv, UTF-8, strings and 64-bit
      wrap-around; Base64.v is encoding/base64; Platform.v, Jwt.v, AuthCrypto.v and Postgres.v
      state as classes what third-party packages and servers do: uuid, the protocol's
      permission bits, Valkey (commands, pipelines, scripts, SCAN), JSON, clock, identifiers,
      JWT, Argon2, AES-GCM, TOTP, pgx.  Each class of laws has an instance that the witnesses
      use.  Frames.v says that Valkey and PostgreSQL are separate systems.
    - internal/config: Config.v.  Validators of the domain packages: Validate.v.  Domain
      structs and their protocol form: Domain.v.
    - internal/permission: Permission.v (store.go, resolver.go), PermCache.v (cache.go),
      PermInvalidate.v (invalidate.go).  The [Store] and [Cache] interfaces are classes with
      laws; the resolver is proved against them, PermCache.v and GuildStore.v discharge them
      for ValkeyCache and PGStore.
    - internal/presence: Presence.v.
    - internal/auth: Tokens.v (refresh.go, gateway_ticket.go, mfa_ticket.go, mfa_pending.go),
      Jwt.v (jwt.go), AuthCrypto.v (password.go, hmac.go, mfa_crypto.go), AuthService.v
      (service.go); theorems in AuthProofs.v.
    - internal/user/repository.go: UserDB.v, a program per SQL statement on the tables it
      writes, with the abstract step of every operation; theorems in UserInv.v.
    - internal/gateway: Session.v (session.go), Publisher.v (publisher.go), Gateway.v (hub.go,
      client.go, frame.go) as goroutines of Proc.v; theorems in GatewayInv.v for every
      interleaving and GatewayDelivery.v for what a method does undisturbed.
    - The server itself.  GuildTables.v has the tables of members, roles, bans, overrides,
      invites and onboarding and the SQL on them; GuildRepo.v the repositories
      (internal/member, role, invite, onboarding, server, permission/pg_store.go); Http.v
      internal/httputil and the middleware; MemberApi.v internal/api/member.go and role.go;
      JoinApi.v internal/api/invite.go, permission.go, onboarding.go and
      internal/onboarding/documents.go; Routes.v their part of cmd/uncord/routes.go;
      Bootstrap.v internal/bootstrap/init.go.
    - The conversations.  ChatTables.v and DmTables.v have the tables of messages, threads,
      attachments, reactions, emoji, read states, direct conversations and device keys and the
      SQL on them; ChatRepo.v the repositories (internal/message, thread, attachment, reaction,
      emoji, readstate, dm, e2ee); ChatModel.v the protocol models and their conversions;
      MessageApi.v internal/api/message.go, pin.go, thread.go, reaction.go, readstate.go and
      typing.go; DmApi.v dm.go and e2ee.go; ChatRoutes.v their part of cmd/uncord/routes.go.
    - Channels, categories and search.  Database.v puts the tables above and those of channels
      and categories into one database: a [lens] turns its connection into one to a part, with
      the same laws, so the repositories above work on it unchanged.  ChannelTables.v has the
      SQL, the cascades and the triggers; ChannelRepos.v internal/channel and
      internal/category; ChannelApi.v internal/api/channel.go and category.go; SearchApi.v
      internal/search/search.go and internal/api/search.go; ChannelRoutes.v their part of
      cmd/uncord/routes.go.
    - Accounts.  Cookies.v is internal/auth/cookie.go, with what fiber and a browser do with a
      cookie as classes; AuthApi.v internal/api/auth.go, mfa.go and user.go and
      internal/page/verify.go, over the service of AuthService.v, and their part of
      cmd/uncord/routes.go.
    - Files named ...Witness.v apply each property with hypotheses to concrete data.

    A definition carries the name of the Go function it translates; where that is a Rocq
    keyword or taken, it ends in an underscore.  A handler takes the request and its decoded
    body; a method of a struct takes the struct's configuration.  A body of a loop or a test
    that several handlers share is one definition.

    ** What the theorems show

    - Permissions.  [Permission.Resolve_correct]: from a coherent cache the resolver answers
      exactly the specification [effective], bit by bit, and leaves the cache coherent whatever
      fails; bulk filters agree with it; [PermInvalidate.dispatch_restores_coherence]: handling
      the message a handler publishes makes the cache coherent with the changed database.  A
      cache is coherent when each live entry is what the tables say now.  Requests exist that do
      not restore this (moving a channel, deleting a category), so who may make a request is
      proved for any cache: the permission is in the caller's entry when the request arrives or in
      what the tables give ([answer_at]), and what the tables give when the cache is coherent.
      Answers that must equal a reference (member and channel lists, search, channel events) are
      proved for a coherent cache.  The nil id, under which the server permissions are cached, is
      no channel's; a request that names it is let in by these ([ChatWitness.nil_channel_post]).
    - Authentication and accounts.  [AccountSessions.login_request_sound]: what a login request
      is answered; second factors and refreshes issue tokens to nobody else; a rotated refresh
      token is consumed; revocation is complete; deleted accounts stay deleted.
      [UserDB.PGRepository_refines]: every repository operation is one abstract step on the
      tables or nothing; [UserInv.tables_sound] is the invariant of its histories.
      AccountProofs.v gives every operation, method and handler its footprint in the tables:
      [AccountProofs.account_requests_confined], no request changes two accounts, and a private
      one changes its caller's, with the password where the route asks for it.  AccountSessions.v
      also follows the cookies through a browser: in development they bring the session back,
      outside it every browser rejects them, a defect of the program.
    - Gateway.  [GatewayInv.registry_invariant] under every interleaving;
      event delivery, confidentiality of channel events, resume, unregister.  The publisher is
      a transition system of enqueuers, workers and Run: its ledger of jobs holds in every
      execution, shutting down drains the queue and ends ([Publisher.Run_drains]), and an enqueue
      caught between its two operations sends on a closed channel.
    - The server.  GuildSpec.v and JoinSpec.v are abstract machines: the steps a caller may
      make, with their conditions.  MemberProofs.v and JoinProofs.v show that each handler is
      such a step or an error that changes nothing (the rules are in ApiLogic.v);
      [Routes.api_routes_authorised] adds what the middleware of each route asks for.
      GuildHistory.v and FirstRun.v lift that to whole histories: the tables stay sound, the
      hierarchy is respected, and two defects of the program hold in every history: on a
      fresh server nobody outranks anybody until the owner configures an automatic role, and a
      member who leaves can never rejoin.
      MemberList.v: the paged, filtered member list is the filtered whole list.
    - The conversations.  ChatSpec.v is the abstract machine: the steps a caller may make, and
      the invariant of the tables.  ChatInv.v and ChatHistory.v show that the steps keep it and
      what they leave of a message and of the keys; ChatWrites.v and DmWrites.v that every
      repository operation is such a change or none; ChatProofs.v and DmProofs.v that every
      handler is, against the interface [Gatekeeper] (the resolver's answers are true and
      telling others changes no table; the rules are in ChatLogic.v).  ChatRoutes.v adds the
      middleware and ChatGate.v assembles the server with PGStore and the Valkey cache and
      discharges the interface: [ChatGate.chat_requests_authorised], the invariant, and who may
      change a message.  DmProofs.v: key bundles and one-time pre-keys; and that PostgreSQL's
      refusal of a locked count makes two endpoints fail always.  ChatReads.v: pages, walks and
      reaction tallies.
    - Channels, categories and search.  ChannelSpec.v: the steps and the invariant of the one
      database, deletions with all that refers to the channel included; ChannelProofs.v: every
      handler takes one step or none.  ResolverFrame.v: asking the resolver changes no table;
      RouteGate.v: the middleware, once for all tables.  ChannelRoutes.v: who may make which
      request, and that the invariant holds after any.  ChannelReads.v: the channel list is the
      reference list, and search through Typesense shows nothing the caller may not view, from
      what Typesense documents of its filters ([TypesenseFilters] of SearchApi.v).

    ** Bounds, fuel and atomicity

    Integers are Z with the program's wrap-around written out where it can happen; columns of
    type integer refuse what they cannot hold.  The SCAN loop of the cache gets as much fuel
    as the server can still answer ([vk_rank]), the purge loops one round per row and one more,
    the member list one round per member and two more; each is proved enough, so none of the
    theorems is about running out.  A Lua script, a Valkey command, a SQL statement and a
    committed transaction are atomic; transactions are isolated from one another.  In [served]
    (GuildHistory.v) and [chat_history] (ChatSpec.v) requests are handled one after another, with
    arbitrary changes by the rest of the program in between; races between two handlers are not
    in its histories.  In
    Gateway.v a critical section, a channel operation or a call to a service is one action and
    everything else interleaves.  The order in which Go iterates a map is left open.

    ** Not modelled

    Logging, metrics and the wiring of cmd/uncord/main.go; connecting to and migrating the
    database; SMTP, the Typesense client and file or object storage (I/O in third-party
    packages); image decoding; rate limiting, request decoding and HTML templates (the web
    framework and its libraries).  The handlers of the server, emoji and uploads, which stream
    images; settings and reading the audit log, whose tables nothing else uses.  Ties in ORDER BY
    created_at alone are broken by the row's key. *)
From stdpp Require Export prelude gmap strings list.

Declare Scope go_scope.
Delimit Scope go_scope with go.

(** ** Errors

    [Sentinel] is a package-level [errors.New] variable, compared by identity, so it carries
    the qualified Go name of the variable.  [Plain] is an error nobody compares with
    ([fmt.Errorf] without [%w], or an error built by a library).  [Wrap] is
    [fmt.Errorf("ctx: %w", cause)]. *)
Inductive error : Type :=
| Sentinel (name : string)
| Plain (text : string)
| Wrap (ctx : string) (cause : error).

#[global] Instance error_eq_dec : EqDecision error.
Proof. solve_decision. Defined.

(** [errors.Is(e, target)]: walk the chain of wrapped errors. *)
Fixpoint errors_Is (e target : error) : bool :=
  bool_decide (e = target) ||
  match e with
  | Wrap _ cause => errors_Is cause target
  | _ => false
  end.

(** ** Results and the effect monad

    A Go function [f(ctx, x) (A, error)] that reads and writes the world [W] is a function
    [x -> M W A].  A function that returns no error is a plain state transformer. *)
Inductive res (A : Type) : Type :=
| Ok (a : A)
| Err (e : error).
Arguments Ok {A} a.
Arguments Err {A} e.

#[global] Instance res_eq_dec {A} `{EqDecision A} : EqDecision (res A).
Proof. solve_decision. Defined.

Definition M (W A : Type) : Type := W → res A * W.

Section monad.
Context {W : Type}.

#[global] Instance M_ret : MRet (M W) := λ A a w, (Ok a, w).
#[global] Instance M_bind : MBind (M W) := λ A B k m w,
  match m w with
  | (Ok a, w') => k a w'
  | (Err e, w') => (Err e, w')
  end.

Definition fail {A} (e : error) : M W A := λ w, (Err e, w).

(** [v, err := m] when the caller inspects [err] itself. *)
Definition try {A} (m : M W A) : M W (res A) := λ w,
  let '(r, w') := m w in (Ok r, w').

(** [if err := m; err != nil { log }]: the error is logged and dropped. *)
Definition best_effort {A} (m : M W A) : M W unit := λ w, (Ok tt, (m w).2).

(** [if err != nil { return fmt.Errorf("ctx: %w", err) }]. *)
Definition wrap {A} (ctx : string) (m : M W A) : M W A := λ w,
  match m w with
  | (Err e, w') => (Err (Wrap ctx e), w')
  | r => r
  end.

Definition of_res {A} (r : res A) : M W A := λ w, (r, w).

Definition gets {A} (f : W → A) : M W A := λ w, (Ok (f w), w).
Definition modify (f : W → W) : M W unit := λ w, (Ok tt, f w).

(** A loop over a slice that stops at the first error. *)
Fixpoint for_each {A} (l : list A) (body : A → M W unit) : M W unit :=
  match l with
  | [] => mret tt
  | x :: xs => body x ;; for_each xs body
  end.

(** The loop [for i, x := range l { acc = body(acc, x) }]. *)
Fixpoint foldM {A B} (body : B → A → M W B) (l : list A) (acc : B) : M W B :=
  match l with
  | [] => mret acc
  | x :: xs => acc' ← body acc x; foldM body xs acc'
  end.
End monad.

(** ** Reasoning about monadic code *)
Section monad_lemmas.
Context {W : Type}.
Implicit Types w : W.

Lemma bind_Ok {A B} (m : M W A) (k : A → M W B) w a w' :
  m w = (Ok a, w') → (m ≫= k) w = k a w'.
Proof. intros H. unfold mbind, M_bind. by rewrite H. Qed.

Lemma bind_Err {A B} (m : M W A) (k : A → M W B) w e w' :
  m w = (Err e, w') → (m ≫= k) w = (Err e, w').
Proof. intros H. unfold mbind, M_bind. by rewrite H. Qed.

Lemma bind_Ok_inv {A B} (m : M W A) (k : A → M W B) w b w'' :
  (m ≫= k) w = (Ok b, w'') → ∃ a w', m w = (Ok a, w') ∧ k a w' = (Ok b, w'').
Proof. unfold mbind, M_bind. destruct (m w) as [[a|e] w'] eqn:E; naive_solver. Qed.

Lemma bind_inv {A B} (m : M W A) (k : A → M W B) w r w'' :
  (m ≫= k) w = (r, w'') →
  (∃ a w', m w = (Ok a, w') ∧ k a w' = (r, w'')) ∨
  (∃ e, m w = (Err e, w'') ∧ r = Err e).
Proof. unfold mbind, M_bind. destruct (m w) as [[a|e] w'] eqn:E; naive_solver. Qed.

Lemma wrap_Ok_inv {A} ctx (m : M W A) w a w' :
  wrap ctx m w = (Ok a, w') → m w = (Ok a, w').
Proof. unfold wrap. destruct (m w) as [[|] ?]; naive_solver. Qed.

Lemma wrap_inv {A} ctx (m : M W A) w r w' :
  wrap ctx m w = (r, w') →
  ∃ r0, m w = (r0, w') ∧
        r = match r0 with Ok a => Ok a | Err e => Err (Wrap ctx e) end.
Proof. unfold wrap. destruct (m w) as [[|] ?]; naive_solver. Qed.

Lemma wrap_Ok {A} ctx (m : M W A) w a w' :
  m w = (Ok a, w') → wrap ctx m w = (Ok a, w').
Proof. unfold wrap. by intros ->. Qed.

(** To evaluate a program on a concrete world it is enough to compute its result. *)
Lemma run_eq {A} (m : M W A) w r : (m w).1 = r → m w = (r, (m w).2).
Proof. intros <-. by destruct (m w). Qed.

Lemma try_eq {A} (m : M W A) w : try m w = (Ok (m w).1, (m w).2).
Proof. unfold try. by destruct (m w). Qed.

Lemma try_inv {A} (m : M W A) w r w' :
  try m w = (r, w') → ∃ r0, r = Ok r0 ∧ m w = (r0, w').
Proof. unfold try. destruct (m w) as [r0 w0]. naive_solver. Qed.

Lemma best_effort_inv {A} (m : M W A) w r w' :
  best_effort m w = (r, w') → r = Ok tt ∧ ∃ r0, m w = (r0, w').
Proof. unfold best_effort. destruct (m w) as [r0 w0]; simpl. naive_solver. Qed.

Lemma foldM_app {A B} (body : B → A → M W B) l1 l2 acc w :
  foldM body (l1 ++ l2) acc w = (foldM body l1 acc ≫= λ a, foldM body l2 a) w.
Proof.
  revert acc w. induction l1 as [|x l1 IH]; intros acc w; simpl; [done|].
  unfold mbind, M_bind. destruct (body acc x w) as [[a|e] w']; [|done]. apply IH.
Qed.
End monad_lemmas.

Create HintDb go.
Create Rewrite HintDb go.
#[export] Hint Resolve bind_Ok bind_Err wrap_Ok : go.

(** [go_inv] turns an equation [prog w = (r, w')] into the equations of its steps, one
    branch per success or error of each step. *)
Ltac go_inv_step :=
  match goal with
  | H : (?m ≫= ?k) ?w = (Ok _, _) |- _ =>
      apply bind_Ok_inv in H as (? & ? & ? & H)
  | H : (?m ≫= ?k) ?w = (_, _) |- _ =>
      apply bind_inv in H as [(? & ? & ? & H)|(? & H & ?)]
  | H : wrap _ _ _ = (_, _) |- _ => apply wrap_inv in H as (? & H & ?)
  | H : try _ _ = (_, _) |- _ => apply try_inv in H as (? & ? & H)
  | H : best_effort _ _ = (_, _) |- _ => apply best_effort_inv in H as (? & ? & H)
  | H : mret _ _ = (_, _) |- _ => unfold mret, M_ret in H
  | H : fail _ _ = (_, _) |- _ => unfold fail in H
  | H : gets _ _ = (_, _) |- _ => unfold gets in H
  | H : modify _ _ = (_, _) |- _ => unfold modify in H
  | H : of_res _ _ = (_, _) |- _ => unfold of_res in H
  | H : (_, _) = (_, _) |- _ => progress simplify_eq
  | H : Ok _ = Ok _ |- _ => progress simplify_eq
  | H : Err _ = Err _ |- _ => progress simplify_eq
  | H : Ok _ = Err _ |- _ => discriminate H
  | H : Err _ = Ok _ |- _ => discriminate H
  | x : res _, H : Ok _ = match ?x with _ => _ end |- _ => destruct x
  | x : res _, H : Err _ = match ?x with _ => _ end |- _ => destruct x
  end.
Ltac go_inv := repeat (go_inv_step; try progress simplify_eq/=).

(** [unwrap_res Hr]: decide which of [Ok]/[Err] a wrapped call returned, from
    [Hr : r = match r0 with Ok a => Ok a | Err e => Err (Wrap ctx e) end]. *)
Ltac unwrap_res Hr :=
  match type of Hr with
  | _ = match ?r0 with _ => _ end =>
      destruct r0; try discriminate Hr; injection Hr as <-
  end.

(** ** Generic lemmas *)
Lemma bool_eq_iff (a b : bool) : (a = true ↔ b = true) → a = b.
Proof. destruct a, b; naive_solver. Qed.

Lemma alter_Some `{Countable K} {A} (f : A → A) (m : gmap K A) i x :
  m !! i = Some x → alter f i m = <[i := f x]> m.
Proof.
  intros E. apply map_eq. intros j. destruct (decide (i = j)) as [<-|Hne].
  - by rewrite lookup_alter_eq, lookup_insert_eq, E.
  - by rewrite lookup_alter_ne, lookup_insert_ne.
Qed.

Lemma errors_Is_eq e target :
  errors_Is e target =
  bool_decide (e = target) || match e with Wrap _ c => errors_Is c target | _ => false end.
Proof. by destruct e. Qed.

Lemma errors_Is_refl e : errors_Is e e = true.
Proof. rewrite errors_Is_eq. by rewrite bool_decide_eq_true_2. Qed.

Lemma errors_Is_wrap ctx e target :
  errors_Is e target = true → errors_Is (Wrap ctx e) target = true.
Proof. intros H. rewrite errors_Is_eq, H. apply orb_true_r. Qed.

Lemma errors_Is_Sentinel_iff e n :
  errors_Is e (Sentinel n) = true ↔
  e = Sentinel n ∨ ∃ c e', e = Wrap c e' ∧ errors_Is e' (Sentinel n) = true.
Proof.
  rewrite errors_Is_eq, orb_true_iff, bool_decide_eq_true.
  destruct e as [m|t|c e']; naive_solver.
Qed.
#[export] Hint Resolve errors_Is_refl errors_Is_wrap : go.
