(* ===== verification/GoStd.v ===== *)
(** * The parts of Go's standard library the program computes with

    [strconv.FormatInt]/[ParseInt] in base 10, UTF-8 decoding and encoding
    ([unicode/utf8]), [strings.TrimSpace], [strings.ToLower], [strings.SplitN] at one
    separator, and 64-bit wrap-around.  A Go string is a sequence of bytes: a Rocq [string]
    whose characters are bytes, handled as [list Z] where bytes are inspected. *)
From S2P Require Import Prelude.
From Stdlib Require Import Ascii.
Open Scope Z_scope.

(** ** Machine integers *)
Definition int64_min : Z := -2^63.
Definition int64_max : Z := 2^63 - 1.
Definition in_int64 (n : Z) : Prop := int64_min ≤ n ≤ int64_max.

(** Two's complement wrap-around of a 64-bit signed operation. *)
Definition wrap64 (n : Z) : Z := (n + 2^63) mod 2^64 - 2^63.

Lemma wrap64_small n : in_int64 n → wrap64 n = n.
Proof.
  unfold in_int64, int64_min, int64_max, wrap64. intros H.
  rewrite Z.mod_small; lia.
Qed.

Lemma wrap64_range n : in_int64 (wrap64 n).
Proof.
  unfold in_int64, int64_min, int64_max, wrap64.
  pose proof (Z.mod_pos_bound (n + 2^63) (2^64) ltac:(lia)). lia.
Qed.

(** 64-bit values are closed under the bit operations. *)
Lemma in_int64_shiftr n : in_int64 n ↔ Z.shiftr n 63 = 0 ∨ Z.shiftr n 63 = -1.
Proof.
  unfold in_int64, int64_min, int64_max. rewrite Z.shiftr_div_pow2 by lia.
  pose proof (Z.div_mod n (2^63) ltac:(lia)). pose proof (Z.mod_pos_bound n (2^63) ltac:(lia)).
  split; intros; nia.
Qed.

Lemma in_int64_lor a b : in_int64 a → in_int64 b → in_int64 (Z.lor a b).
Proof. rewrite !in_int64_shiftr, Z.shiftr_lor. intros [-> | ->] [-> | ->]; simpl; auto. Qed.

Lemma in_int64_ldiff a b : in_int64 a → in_int64 b → in_int64 (Z.ldiff a b).
Proof. rewrite !in_int64_shiftr, Z.shiftr_ldiff. intros [-> | ->] [-> | ->]; simpl; auto. Qed.

(** ** Bytes of a string *)
Definition byte_of (c : ascii) : Z := Z.of_N (N_of_ascii c).
Definition ascii_of (b : Z) : ascii := ascii_of_N (Z.to_N b).
Definition bytes_of (s : string) : list Z := byte_of <$> String.list_ascii_of_string s.
Definition string_of (l : list Z) : string := String.string_of_list_ascii (ascii_of <$> l).

Lemma ascii_byte c : ascii_of (byte_of c) = c.
Proof. unfold ascii_of, byte_of. rewrite N2Z.id. apply ascii_N_embedding. Qed.

Lemma byte_range c : 0 ≤ byte_of c < 256.
Proof. unfold byte_of. pose proof (N_ascii_bounded c). lia. Qed.

Lemma byte_ascii b : 0 ≤ b < 256 → byte_of (ascii_of b) = b.
Proof.
  intros H. unfold ascii_of, byte_of. rewrite N_ascii_embedding by lia. lia.
Qed.

Lemma string_of_bytes s : string_of (bytes_of s) = s.
Proof.
  unfold string_of, bytes_of. rewrite <-list_fmap_compose.
  rewrite (list_fmap_ext _ id) by (intros; apply ascii_byte).
  rewrite list_fmap_id. apply String.string_of_list_ascii_of_string.
Qed.

Lemma bytes_of_string l : Forall (λ b, 0 ≤ b < 256) l → bytes_of (string_of l) = l.
Proof.
  intros H. unfold string_of, bytes_of. rewrite String.list_ascii_of_string_of_list_ascii.
  induction H as [|b l Hb _ IH]; [done|]. csimpl. by rewrite IH, byte_ascii.
Qed.

Lemma bytes_of_range s : Forall (λ b, 0 ≤ b < 256) (bytes_of s).
Proof. unfold bytes_of. apply Forall_fmap, Forall_forall. intros c _. apply byte_range. Qed.

Lemma bytes_of_app s1 s2 : bytes_of (s1 +:+ s2) = bytes_of s1 ++ bytes_of s2.
Proof.
  unfold bytes_of. rewrite <-fmap_app. f_equal. induction s1 as [|c s1 IH]; simpl; [done|].
  by f_equal.
Qed.

Lemma bytes_of_inj s1 s2 : bytes_of s1 = bytes_of s2 → s1 = s2.
Proof. intros E. by rewrite <-(string_of_bytes s1), E, string_of_bytes. Qed.

(** [len(s)]: the number of bytes. *)
Definition len (s : string) : Z := Z.of_nat (length (bytes_of s)).

(** ** [strconv] *)
Definition ErrSyntax : error := Sentinel "strconv.ErrSyntax".
Definition ErrRange : error := Sentinel "strconv.ErrRange".
Definition max_uint64 : Z := 2^64 - 1.

(** The digit loop of [strconv.ParseUint(s, 10, 64)]. *)
Fixpoint parse_digits (acc : Z) (l : list Z) : res Z :=
  match l with
  | [] => Ok acc
  | c :: l' =>
      if negb ((48 <=? c) && (c <=? 57)) then Err ErrSyntax
      else if max_uint64 <? acc * 10 + (c - 48) then Err ErrRange
      else parse_digits (acc * 10 + (c - 48)) l'
  end.

Definition ParseUint10 (l : list Z) : res Z :=
  match l with [] => Err ErrSyntax | _ => parse_digits 0 l end.

(** [strconv.ParseInt(s, 10, 64)]. *)
Definition ParseInt (s : string) : res Z :=
  let '(neg, ds) :=
    match bytes_of s with
    | c :: l => if c =? 45 then (true, l) else if c =? 43 then (false, l) else (false, c :: l)
    | [] => (false, [])
    end in
  match ParseUint10 ds with
  | Err e => Err e
  | Ok un =>
      if negb neg && (2^63 <=? un) then Err ErrRange
      else if neg && (2^63 <? un) then Err ErrRange
      else Ok (if neg then - un else un)
  end.

(** The digit loop of [strconv.FormatInt(n, 10)]; 20 digits are enough for 64 bits. *)
Fixpoint format_digits (fuel : nat) (n : Z) (acc : list Z) : list Z :=
  match fuel with
  | O => acc
  | S fuel' =>
      let acc' := (48 + n mod 10) :: acc in
      if n <? 10 then acc' else format_digits fuel' (n / 10) acc'
  end.

Definition FormatInt (n : Z) : string :=
  string_of (if n <? 0 then 45 :: format_digits 20 (- n) [] else format_digits 20 n []).

Lemma format_digits_bytes fuel n acc :
  Forall (λ b, 48 ≤ b < 58) acc → Forall (λ b, 48 ≤ b < 58) (format_digits fuel n acc).
Proof.
  revert n acc. induction fuel as [|fuel IH]; intros n acc H; simpl; [done|].
  pose proof (Z.mod_pos_bound n 10 ltac:(lia)).
  case_match; [|apply IH]; constructor; auto; lia.
Qed.

Lemma parse_format_digits fuel n acc :
  0 ≤ n < 10 ^ Z.of_nat fuel → n ≤ max_uint64 → (0 < fuel)%nat →
  parse_digits 0 (format_digits fuel n acc) = parse_digits n acc.
Proof.
  revert n acc. induction fuel as [|fuel IH]; intros n acc Hn Hmax Hf; [lia|].
  pose proof (Z.mod_pos_bound n 10 ltac:(lia)) as Hm.
  pose proof (Z.div_mod n 10 ltac:(lia)) as Hd.
  assert (Hstep : ∀ a, a * 10 + n mod 10 = n →
            parse_digits a ((48 + n mod 10) :: acc) = parse_digits n acc).
  { intros a Ha. cbn [parse_digits].
    rewrite (proj2 (Z.leb_le 48 _)), (proj2 (Z.leb_le _ 57)) by lia; cbn [negb andb].
    replace (a * 10 + (48 + n mod 10 - 48)) with n by lia.
    by rewrite (proj2 (Z.ltb_ge _ _)) by lia. }
  cbn [format_digits]. destruct (Z.ltb_spec n 10) as [Hlt|Hge].
  - apply Hstep. rewrite Z.mod_small; lia.
  - rewrite Nat2Z.inj_succ, Z.pow_succ_r in Hn by lia.
    assert (0 ≤ n / 10 < 10 ^ Z.of_nat fuel).
    { split; [apply Z.div_pos; lia|apply Z.div_lt_upper_bound; lia]. }
    destruct fuel as [|fuel]; [simpl in *; lia|].
    rewrite IH by lia. apply Hstep. lia.
Qed.

Lemma format_digits_cons fuel n acc :
  (0 < fuel)%nat → ∃ b l, format_digits fuel n acc = b :: l.
Proof.
  revert n acc. induction fuel as [|fuel IH]; intros n acc Hf; [lia|]. simpl.
  case_match; [eauto|]. destruct fuel; simpl; [eauto|]. apply IH. lia.
Qed.

Lemma ParseUint10_format n :
  0 ≤ n ≤ max_uint64 → ParseUint10 (format_digits 20 n []) = Ok n.
Proof.
  intros Hn. unfold ParseUint10.
  destruct (format_digits_cons 20 n []) as (b & l & E); [lia|].
  rewrite E, <-E. unfold max_uint64 in *.
  by rewrite parse_format_digits by (unfold max_uint64; lia).
Qed.

(** Formatting a 64-bit integer and parsing it back gives the integer. *)
Lemma ParseInt_FormatInt n : in_int64 n → ParseInt (FormatInt n) = Ok n.
Proof.
  unfold in_int64, int64_min, int64_max, ParseInt, FormatInt. intros Hn.
  assert (Hb : ∀ m, Forall (λ b, 0 ≤ b < 256) (format_digits 20 m [])).
  { intros m. eapply Forall_impl; [apply format_digits_bytes; constructor|]. simpl; lia. }
  destruct (Z.ltb_spec n 0) as [Hneg|Hpos].
  - rewrite bytes_of_string by (constructor; [lia|apply Hb]).
    cbn -[format_digits Z.pow ParseUint10]. rewrite ParseUint10_format by (unfold max_uint64; lia).
    cbn -[Z.pow]. rewrite (proj2 (Z.ltb_ge _ _)) by lia. f_equal. lia.
  - rewrite bytes_of_string by apply Hb.
    destruct (format_digits_cons 20 n []) as (b & l & E); [lia|].
    pose proof (format_digits_bytes 20 n [] (Forall_nil_2 _)) as Hd. rewrite E in Hd.
    apply Forall_cons in Hd as [Hd _]. rewrite E.
    rewrite (proj2 (Z.eqb_neq b 45)), (proj2 (Z.eqb_neq b 43)) by lia.
    rewrite <-E, ParseUint10_format by (unfold max_uint64; lia).
    cbn -[Z.pow]. by rewrite (proj2 (Z.leb_gt _ _)) by lia.
Qed.

Lemma parse_digits_range acc l n :
  0 ≤ acc ≤ max_uint64 → parse_digits acc l = Ok n → 0 ≤ n ≤ max_uint64.
Proof.
  revert acc. induction l as [|c l IH]; intros acc Ha; simpl; [naive_solver|].
  destruct (Z.leb_spec 48 c), (Z.leb_spec c 57); simpl; try done.
  destruct (Z.ltb_spec max_uint64 (acc * 10 + (c - 48))); [done|]. apply IH. lia.
Qed.

(** Whatever [ParseInt] accepts fits in 64 bits. *)
Lemma ParseInt_range s n : ParseInt s = Ok n → in_int64 n.
Proof.
  unfold ParseInt, in_int64, int64_min, int64_max.
  destruct (match bytes_of s with [] => _ | _ => _ end) as [neg ds].
  destruct (ParseUint10 ds) as [un|e] eqn:E; [|done].
  assert (0 ≤ un) as Hun.
  { unfold ParseUint10 in E. destruct ds; [done|].
    apply parse_digits_range in E; unfold max_uint64 in *; lia. }
  destruct neg; cbn -[Z.pow].
  - destruct (Z.ltb_spec (2^63) un); [done|]. intros [= <-]. lia.
  - destruct (Z.leb_spec (2^63) un); [done|]. intros [= <-]. lia.
Qed.

(** ** [encoding/hex]: two digits per byte, lower case when encoding *)
Definition hex_digit (n : Z) : Z := if n <? 10 then 48 + n else 87 + n.
Definition hex_value (b : Z) : option Z :=
  if (48 <=? b) && (b <=? 57) then Some (b - 48)
  else if (97 <=? b) && (b <=? 102) then Some (b - 87)
  else if (65 <=? b) && (b <=? 70) then Some (b - 55)
  else None.
Fixpoint hex_encode (l : list Z) : list Z :=
  match l with
  | [] => []
  | b :: l' => hex_digit (b / 16) :: hex_digit (b mod 16) :: hex_encode l'
  end.
Fixpoint hex_decode (l : list Z) : option (list Z) :=
  match l with
  | [] => Some []
  | [_] => None
  | h :: lo :: l' =>
      a ← hex_value h; b ← hex_value lo; r ← hex_decode l'; Some ((16 * a + b) :: r)
  end.
Definition hex_EncodeToString (l : list Z) : string := string_of (hex_encode l).
Definition hex_DecodeString (s : string) : res (list Z) :=
  match hex_decode (bytes_of s) with
  | Some l => Ok l
  | None => Err (Plain "encoding/hex: invalid byte or odd length")
  end.

Lemma hex_value_digit n : 0 ≤ n < 16 → hex_value (hex_digit n) = Some n.
Proof.
  intros Hn. unfold hex_value, hex_digit. destruct (Z.ltb_spec n 10).
  - rewrite (proj2 (Z.leb_le 48 _)), (proj2 (Z.leb_le _ 57)) by lia. simpl. f_equal. lia.
  - rewrite (proj2 (Z.leb_gt _ 57)), andb_false_r by lia.
    rewrite (proj2 (Z.leb_le 97 _)), (proj2 (Z.leb_le _ 102)) by lia. simpl. f_equal. lia.
Qed.

(** Decoding an encoded byte sequence gives it back. *)
Lemma hex_round_trip l :
  Forall (λ b, 0 ≤ b < 256) l → hex_DecodeString (hex_EncodeToString l) = Ok l.
Proof.
  intros Hl. unfold hex_DecodeString, hex_EncodeToString.
  assert (Hhalf : ∀ b, 0 ≤ b < 256 → 0 ≤ b / 16 < 16 ∧ 0 ≤ b mod 16 < 16).
  { intros b Hb. pose proof (Z.mod_pos_bound b 16 ltac:(lia)).
    split; [split; [apply Z.div_pos; lia|apply Z.div_lt_upper_bound; lia]|done]. }
  rewrite bytes_of_string.
  - assert (hex_decode (hex_encode l) = Some l) as ->; [|done].
    induction Hl as [|b l Hb _ IH]; [done|]. cbn [hex_encode hex_decode].
    destruct (Hhalf b Hb) as [H1 H2].
    rewrite (hex_value_digit _ H1), (hex_value_digit _ H2), IH.
    cbn -[Z.div Z.modulo Z.mul Z.add]. do 2 f_equal.
    pose proof (Z.div_mod b 16 ltac:(lia)). lia.
  - assert (∀ n, 0 ≤ n < 16 → 0 ≤ hex_digit n < 256) as Hd.
    { intros n Hn. unfold hex_digit. case_match; lia. }
    induction Hl as [|b l Hb _ IH]; cbn [hex_encode]; [constructor|].
    destruct (Hhalf b Hb). repeat (constructor; [by apply Hd|]). exact IH.
Qed.

(** ** UTF-8 ([unicode/utf8])

    [DecodeRune] follows the package's acceptance table: the first byte fixes the length
    and the range allowed for the second byte; anything else is [RuneError], width 1. *)
Definition RuneError : Z := 65533.

Definition is_cont (b : Z) : bool := (128 <=? b) && (b <=? 191).

(** For a lead byte: number of bytes and the accepted range of the second byte. *)
Definition lead_info (b : Z) : option (nat * Z * Z) :=
  if (194 <=? b) && (b <=? 223) then Some (2%nat, 128, 191)
  else if b =? 224 then Some (3%nat, 160, 191)
  else if b =? 237 then Some (3%nat, 128, 159)
  else if (225 <=? b) && (b <=? 239) then Some (3%nat, 128, 191)
  else if b =? 240 then Some (4%nat, 144, 191)
  else if (241 <=? b) && (b <=? 243) then Some (4%nat, 128, 191)
  else if b =? 244 then Some (4%nat, 128, 143)
  else None.

(** [utf8.DecodeRuneInString]: the rune and its width; width 0 only on the empty string. *)
Definition DecodeRune (l : list Z) : Z * nat :=
  match l with
  | [] => (RuneError, 0%nat)
  | b0 :: r =>
      if b0 <? 128 then (b0, 1%nat)
      else match lead_info b0 with
           | None => (RuneError, 1%nat)
           | Some (n, lo, hi) =>
               match n, r with
               | 2%nat, b1 :: _ =>
                   if (lo <=? b1) && (b1 <=? hi)
                   then (Z.lor (Z.shiftl (Z.land b0 31) 6) (Z.land b1 63), 2%nat)
                   else (RuneError, 1%nat)
               | 3%nat, b1 :: b2 :: _ =>
                   if (lo <=? b1) && (b1 <=? hi) && is_cont b2
                   then (Z.lor (Z.shiftl (Z.land b0 15) 12)
                           (Z.lor (Z.shiftl (Z.land b1 63) 6) (Z.land b2 63)), 3%nat)
                   else (RuneError, 1%nat)
               | 4%nat, b1 :: b2 :: b3 :: _ =>
                   if (lo <=? b1) && (b1 <=? hi) && is_cont b2 && is_cont b3
                   then (Z.lor (Z.shiftl (Z.land b0 7) 18)
                           (Z.lor (Z.shiftl (Z.land b1 63) 12)
                              (Z.lor (Z.shiftl (Z.land b2 63) 6) (Z.land b3 63))), 4%nat)
                   else (RuneError, 1%nat)
               | _, _ => (RuneError, 1%nat)
               end
           end
  end.

(** The runes [for _, r := range s] visits; one unit of fuel per byte is enough. *)
Fixpoint runes_go (fuel : nat) (l : list Z) : list Z :=
  match fuel, l with
  | S fuel', _ :: _ => let '(r, n) := DecodeRune l in r :: runes_go fuel' (drop n l)
  | _, _ => []
  end.
Definition runes (l : list Z) : list Z := runes_go (length l) l.

(** [utf8.RuneCountInString]. *)
Definition RuneCountInString (s : string) : Z := Z.of_nat (length (runes (bytes_of s))).

Definition RuneStart (b : Z) : bool := negb (is_cont b).

(** [utf8.DecodeLastRuneInString] on the reversed bytes: the start of the last rune is
    looked for at most four bytes back. *)
Fixpoint last_start (k : nat) (fuel : nat) (rl : list Z) : nat :=
  match fuel, rl with
  | S fuel', b :: rl' => if RuneStart b then k else last_start (S k) fuel' rl'
  | _, _ => k
  end.

Definition DecodeLastRune (rl : list Z) : Z * nat :=
  match rl with
  | [] => (RuneError, 0%nat)
  | b :: _ =>
      if b <? 128 then (b, 1%nat)
      else let k := last_start 1 4 rl in
           let '(r, n) := DecodeRune (rev (take k rl)) in
           if Nat.eqb n k then (r, n) else (RuneError, 1%nat)
  end.

(** [unicode.IsSpace]: the White_Space property. *)
Definition IsSpace (r : Z) : bool :=
  ((9 <=? r) && (r <=? 13)) || (r =? 32) || (r =? 133) || (r =? 160) || (r =? 5760) ||
  ((8192 <=? r) && (r <=? 8202)) || (r =? 8232) || (r =? 8233) || (r =? 8239) ||
  (r =? 8287) || (r =? 12288).

Fixpoint trim_left (fuel : nat) (l : list Z) : list Z :=
  match fuel, l with
  | S fuel', _ :: _ =>
      let '(r, n) := DecodeRune l in
      if IsSpace r then trim_left fuel' (drop n l) else l
  | _, _ => l
  end.

Fixpoint trim_right_rev (fuel : nat) (rl : list Z) : list Z :=
  match fuel, rl with
  | S fuel', _ :: _ =>
      let '(r, n) := DecodeLastRune rl in
      if IsSpace r then trim_right_rev fuel' (drop n rl) else rl
  | _, _ => rl
  end.

(** [strings.TrimSpace]: leading, then trailing white space removed. *)
Definition trim_bytes (l : list Z) : list Z :=
  let l1 := trim_left (length l) l in
  rev (trim_right_rev (length l1) (rev l1)).
Definition TrimSpace (s : string) : string := string_of (trim_bytes (bytes_of s)).

(** [utf8.AppendRune]. *)
Definition EncodeRune (r : Z) : list Z :=
  if r <? 0 then [239; 191; 189]
  else if r <? 128 then [r]
  else if r <? 2048 then [Z.lor 192 (Z.shiftr r 6); Z.lor 128 (Z.land r 63)]
  else if (1114111 <? r) || ((55296 <=? r) && (r <=? 57343)) then [239; 191; 189]
  else if r <? 65536 then
    [Z.lor 224 (Z.shiftr r 12); Z.lor 128 (Z.land (Z.shiftr r 6) 63); Z.lor 128 (Z.land r 63)]
  else
    [Z.lor 240 (Z.shiftr r 18); Z.lor 128 (Z.land (Z.shiftr r 12) 63);
     Z.lor 128 (Z.land (Z.shiftr r 6) 63); Z.lor 128 (Z.land r 63)].

(** [strings.ToLower]: a byte mapping on ASCII strings, [strings.Map(unicode.ToLower, s)]
    otherwise.  The case tables of package [unicode] are the parameter [unicode_ToLower]. *)
Definition ascii_lower (b : Z) : Z := if (65 <=? b) && (b <=? 90) then b + 32 else b.
Definition is_ascii (l : list Z) : bool := forallb (λ b, b <? 128) l.
Definition ToLower (unicode_ToLower : Z → Z) (s : string) : string :=
  let l := bytes_of s in
  string_of (if is_ascii l then ascii_lower <$> l
             else concat (EncodeRune ∘ unicode_ToLower <$> runes l)).

(** [strings.SplitN(s, sep, 2)] for a one-byte separator: the part before the first
    separator and, when there is one, the rest. *)
Fixpoint split_at (sep : Z) (l : list Z) : list Z * option (list Z) :=
  match l with
  | [] => ([], None)
  | b :: l' =>
      if b =? sep then ([], Some l')
      else let '(p, q) := split_at sep l' in (b :: p, q)
  end.
Definition SplitN2 (sep : Z) (s : string) : string * option string :=
  let '(p, q) := split_at sep (bytes_of s) in (string_of p, string_of <$> q).

(** *** Facts used by the components *)
Lemma DecodeRune_width b l : (1 ≤ (DecodeRune (b :: l)).2 ≤ 4)%nat.
Proof. unfold DecodeRune. repeat case_match; simpl; lia. Qed.

Lemma length_runes_go fuel l : (length (runes_go fuel l) ≤ length l)%nat.
Proof.
  revert l. induction fuel as [|fuel IH]; intros [|b l]; [simpl; lia..|].
  cbn [runes_go]. pose proof (DecodeRune_width b l) as Hw.
  destruct (DecodeRune (b :: l)) as [r n]; simpl in Hw.
  specialize (IH (drop n (b :: l))). rewrite length_drop in IH. simpl in *. lia.
Qed.

Lemma RuneCount_le_len s : RuneCountInString s ≤ len s.
Proof.
  unfold RuneCountInString, len, runes.
  pose proof (length_runes_go (length (bytes_of s)) (bytes_of s)). lia.
Qed.

Lemma runes_ascii l : Forall (λ b, b < 128) l → runes l = l.
Proof.
  unfold runes. intros H. assert (∀ fuel, (length l ≤ fuel)%nat → runes_go fuel l = l) as Hg.
  { induction H as [|b l Hb _ IH]; intros [|fuel] Hf; simpl in Hf; try done; [lia|].
    simpl. rewrite (proj2 (Z.ltb_lt _ _)) by lia. simpl. rewrite drop_0, IH by lia. done. }
  by apply Hg.
Qed.

(** On ASCII strings the rune count is the byte length. *)
Lemma RuneCount_ascii s :
  Forall (λ b, b < 128) (bytes_of s) → RuneCountInString s = len s.
Proof. intros H. unfold RuneCountInString, len. by rewrite runes_ascii. Qed.

(** *** [TrimSpace] is idempotent and leaves no space at either end *)
Definition starts_space (l : list Z) : bool :=
  match l with [] => false | _ => IsSpace (DecodeRune l).1 end.
Definition ends_space (l : list Z) : bool :=
  match rev l with [] => false | rl => IsSpace (DecodeLastRune rl).1 end.

(** A decoded rune depends only on the bytes it spans. *)
Lemma DecodeRune_prefix t u :
  t ≠ [] → DecodeRune t = (RuneError, 1%nat) ∨ DecodeRune (t ++ u) = DecodeRune t.
Proof.
  destruct t as [|b0 [|b1 [|b2 [|b3 t]]]]; [done|..]; intros _; simpl;
    (destruct (b0 <? 128); [by right|]);
    (destruct (lead_info b0) as [[[n lo] hi]|]; [|by left]);
    destruct n as [|[|[|[|[|n]]]]]; auto.
Qed.

Lemma starts_space_prefix t u : starts_space t = true → starts_space (t ++ u) = true.
Proof.
  unfold starts_space. destruct t as [|b t]; [done|]. intros H.
  destruct (DecodeRune_prefix (b :: t) u) as [E|E]; [done| |].
  - rewrite E in H. done.
  - simpl app in *. by rewrite E.
Qed.

Lemma trim_left_spec fuel l :
  (length l ≤ fuel)%nat →
  starts_space (trim_left fuel l) = false ∧ ∃ p, l = p ++ trim_left fuel l.
Proof.
  revert l. induction fuel as [|fuel IH]; intros [|b l] Hf; simpl in Hf;
    try lia; try (by split; [done|by exists []]).
  cbn [trim_left]. pose proof (DecodeRune_width b l) as Hw.
  destruct (DecodeRune (b :: l)) as [r n] eqn:E; simpl in Hw.
  destruct (IsSpace r) eqn:Hs.
  - destruct (IH (drop n (b :: l))) as (H1 & p & H2).
    { rewrite length_drop. simpl. lia. }
    split; [done|]. exists (take n (b :: l) ++ p).
    rewrite <-app_assoc, <-H2. by rewrite take_drop.
  - split; [|by exists []]. unfold starts_space. by rewrite E.
Qed.

Lemma trim_left_id fuel l : starts_space l = false → trim_left fuel l = l.
Proof.
  unfold starts_space. destruct fuel, l as [|b l]; try done. cbn [trim_left].
  intros H. destruct (DecodeRune (b :: l)) as [r n]. simpl in H. by rewrite H.
Qed.

Lemma last_start_pos k fuel rl : (k ≤ last_start k fuel rl)%nat.
Proof.
  revert k rl. induction fuel as [|fuel IH]; intros k [|b rl]; simpl; try lia.
  case_match; [lia|]. specialize (IH (S k) rl). lia.
Qed.

Lemma DecodeLastRune_width b rl : (1 ≤ (DecodeLastRune (b :: rl)).2)%nat.
Proof.
  unfold DecodeLastRune. pose proof (last_start_pos 1 4 (b :: rl)).
  case_match; [simpl; lia|]. destruct (DecodeRune _) as [r n].
  destruct (Nat.eqb_spec n (last_start 1 4 (b :: rl))); simpl; lia.
Qed.

Lemma trim_right_rev_spec fuel rl :
  (length rl ≤ fuel)%nat →
  ends_space (rev (trim_right_rev fuel rl)) = false ∧
  ∃ p, rl = p ++ trim_right_rev fuel rl.
Proof.
  revert rl. induction fuel as [|fuel IH]; intros [|b rl] Hf; simpl in Hf;
    try lia; try (by split; [done|by exists []]).
  cbn [trim_right_rev]. pose proof (DecodeLastRune_width b rl) as Hw.
  destruct (DecodeLastRune (b :: rl)) as [r n] eqn:E; simpl in Hw.
  destruct (IsSpace r) eqn:Hs.
  - destruct (IH (drop n (b :: rl))) as (H1 & p & H2).
    { rewrite length_drop. simpl. lia. }
    split; [done|]. exists (take n (b :: rl) ++ p).
    rewrite <-app_assoc, <-H2. by rewrite take_drop.
  - split; [|by exists []]. unfold ends_space. rewrite rev_involutive. by rewrite E.
Qed.

Lemma trim_right_rev_id fuel rl :
  ends_space (rev rl) = false → trim_right_rev fuel rl = rl.
Proof.
  unfold ends_space. rewrite rev_involutive.
  destruct fuel, rl as [|b rl]; try done. cbn [trim_right_rev].
  intros H. destruct (DecodeLastRune (b :: rl)) as [r n]. simpl in H. by rewrite H.
Qed.

Lemma trim_bytes_spec l :
  starts_space (trim_bytes l) = false ∧ ends_space (trim_bytes l) = false ∧
  ∃ p q, l = p ++ trim_bytes l ++ q.
Proof.
  unfold trim_bytes.
  destruct (trim_left_spec (length l) l) as (Hs & p & Hp); [done|].
  set (l1 := trim_left (length l) l) in *.
  destruct (trim_right_rev_spec (length l1) (rev l1)) as (He & q & Hq).
  { by rewrite length_rev. }
  set (t := trim_right_rev (length l1) (rev l1)) in *.
  assert (l1 = rev t ++ rev q) as Hl1.
  { rewrite <-rev_app_distr, <-Hq. by rewrite rev_involutive. }
  split_and!; [|done|].
  - destruct (starts_space (rev t)) eqn:E; [|done].
    apply (starts_space_prefix _ (rev q)) in E. congruence.
  - exists p, (rev q). by rewrite Hp at 1; rewrite Hl1 at 1.
Qed.

Lemma trim_bytes_id l : starts_space l = false → ends_space l = false → trim_bytes l = l.
Proof.
  intros Hs He. unfold trim_bytes. rewrite trim_left_id by done.
  rewrite trim_right_rev_id by (by rewrite rev_involutive). apply rev_involutive.
Qed.

Lemma trim_bytes_range l :
  Forall (λ b, 0 ≤ b < 256) l → Forall (λ b, 0 ≤ b < 256) (trim_bytes l).
Proof.
  destruct (trim_bytes_spec l) as (_ & _ & p & q & E). rewrite E at 1.
  rewrite !Forall_app. naive_solver.
Qed.

Lemma bytes_of_TrimSpace s : bytes_of (TrimSpace s) = trim_bytes (bytes_of s).
Proof. apply bytes_of_string, trim_bytes_range, bytes_of_range. Qed.

Lemma TrimSpace_idempotent s : TrimSpace (TrimSpace s) = TrimSpace s.
Proof.
  unfold TrimSpace at 1. rewrite bytes_of_TrimSpace.
  destruct (trim_bytes_spec (bytes_of s)) as (H1 & H2 & _).
  by rewrite trim_bytes_id.
Qed.

Lemma len_TrimSpace_le s : len (TrimSpace s) ≤ len s.
Proof.
  unfold len. rewrite bytes_of_TrimSpace.
  destruct (trim_bytes_spec (bytes_of s)) as (_ & _ & p & q & E).
  rewrite E at 2. rewrite !length_app. lia.
Qed.

(** A trimmed text neither starts nor ends with white space. *)
Lemma TrimSpace_trimmed s :
  starts_space (bytes_of (TrimSpace s)) = false ∧ ends_space (bytes_of (TrimSpace s)) = false.
Proof.
  rewrite bytes_of_TrimSpace. by destruct (trim_bytes_spec (bytes_of s)) as (H1 & H2 & _).
Qed.

(** A text without runes is empty. *)
Lemma RuneCount_pos s : s ≠ ""%string → 1 ≤ RuneCountInString s.
Proof.
  intros Hs. unfold RuneCountInString, runes.
  destruct (bytes_of s) as [|b l] eqn:E; [by destruct Hs; apply (bytes_of_inj s "")|].
  cbn [length runes_go]. destruct (DecodeRune (b :: l)). simpl. lia.
Qed.

(** What [strings.SplitN(s, sep, 2)] returns when there is a separator. *)
Lemma split_at_Some sep l p q : split_at sep l = (p, Some q) → l = p ++ sep :: q ∧ sep ∉ p.
Proof.
  revert p. induction l as [|b l IH]; simpl; intros p; [done|].
  destruct (Z.eqb_spec b sep) as [->|Hne].
  - intros [= <- <-]. split; [done|set_solver].
  - destruct (split_at sep l) as [p' q'] eqn:E. intros [= <- ->].
    destruct (IH _ eq_refl) as [-> Hp]. split; [done|set_solver].
Qed.

Lemma SplitN2_Some sep s p q :
  SplitN2 sep s = (p, Some q) →
  bytes_of s = bytes_of p ++ sep :: bytes_of q ∧ sep ∉ bytes_of p.
Proof.
  unfold SplitN2. destruct (split_at sep (bytes_of s)) as [p0 [q0|]] eqn:E; [|done].
  intros [= <- <-]. apply split_at_Some in E as [E Hn].
  pose proof (bytes_of_range s) as Hr. rewrite E in Hr.
  apply Forall_app in Hr as [Hp Hq]. apply Forall_cons in Hq as [_ Hq].
  by rewrite !bytes_of_string.
Qed.

#[export] Hint Resolve TrimSpace_idempotent ParseInt_FormatInt : go.
#[export] Hint Rewrite TrimSpace_idempotent : go.

Example FormatInt_ex : FormatInt (-2048) = "-2048"%string.
Proof. vm_compute. reflexivity. Qed.
Example ParseInt_ex :
  ParseInt "9223372036854775808" = Err ErrRange ∧ ParseInt "-9223372036854775808" = Ok (-2^63).
Proof. vm_compute. auto. Qed.
Example TrimSpace_ex : TrimSpace "  general chat	 "%string = "general chat"%string.
Proof. vm_compute. reflexivity. Qed.
