(* ===== verification/Platform.v ===== *)
(** * The environment: third-party packages and services, as interfaces

    Nothing here is code of the repository.  Each package or service the program calls is a
    class of operations (so that the program's definitions take it as a parameter) with a
    second class stating the documented behaviour the theorems rely on:
    [UUIDLib] for github.com/google/uuid, [PermissionLib] for the protocol's permission
    bitfields, [Valkey] for the Valkey server reached through go-redis, [Codec] for
    encoding/json at one type, [Clock] and [IdGen] for the time and the random
    identifiers.  The last part gives the concrete instances the witnesses use. *)
From S2P Require Import Prelude GoStd.
From Stdlib Require Import Ascii.
Open Scope Z_scope.

(** ** github.com/google/uuid *)
Class UUIDLib (U : Type) : Type := {
  uuid_eq_dec :: EqDecision U;
  uuid_countable :: Countable U;
  uuid_Nil : U;
  uuid_String : U → string;
  uuid_Parse : string → res U;
}.

(** The canonical textual form: 36 characters, hexadecimal digits and hyphens. *)
Definition uuid_char (b : Z) : bool :=
  ((48 <=? b) && (b <=? 57)) || ((97 <=? b) && (b <=? 102)) || (b =? 45).

Class UUIDLaws (U : Type) `{UUIDLib U} : Prop := {
  uuid_Parse_String : ∀ u, uuid_Parse (uuid_String u) = Ok u;
  uuid_String_length : ∀ u, length (bytes_of (uuid_String u)) = 36%nat;
  uuid_String_chars : ∀ u, Forall (λ b, uuid_char b = true) (bytes_of (uuid_String u));
}.

Lemma uuid_String_inj `{UUIDLaws U} (u v : U) : uuid_String u = uuid_String v → u = v.
Proof.
  intros E. pose proof (uuid_Parse_String u) as Hu. rewrite E, uuid_Parse_String in Hu.
  congruence.
Qed.

(** [uuid.New()]: a fresh identifier; it never fails. *)
Class IdGen (U W : Type) : Type := { uuid_New : W → U * W }.
Definition new_uuid {U W} `{IdGen U W} : M W U := λ w, let '(u, w') := uuid_New w in (Ok u, w').

(** ** github.com/uncord-chat/uncord-protocol/permissions

    A permission set is a bitfield of 64-bit integer type. *)
Class PermissionLib : Type := {
  perm_Has : Z → Z → bool;
  perm_Add : Z → Z → Z;
  perm_Remove : Z → Z → Z;
  AllPermissions : Z;
  ManageServer : Z;
  ViewChannels : Z;
}.

Class PermissionLaws `{PermissionLib} : Prop := {
  perm_Has_spec : ∀ p q, perm_Has p q = bool_decide (Z.land p q = q);
  perm_Add_spec : ∀ p q, perm_Add p q = Z.lor p q;
  perm_Remove_spec : ∀ p q, perm_Remove p q = Z.ldiff p q;
  AllPermissions_nonneg : 0 ≤ AllPermissions < 2^63;
  AllPermissions_ManageServer : Z.land AllPermissions ManageServer = ManageServer;
  AllPermissions_ViewChannels : Z.land AllPermissions ViewChannels = ViewChannels;
}.

Lemma perm_Has_bits `{PermissionLaws} p q :
  perm_Has p q = true ↔ ∀ i, Z.testbit q i = true → Z.testbit p i = true.
Proof.
  rewrite perm_Has_spec, bool_decide_eq_true. split.
  - intros E i Hi. rewrite <-E, Z.land_spec in Hi. by apply andb_true_iff in Hi as [? _].
  - intros Hb. apply Z.bits_inj'. intros i _. rewrite Z.land_spec.
    specialize (Hb i). destruct (Z.testbit q i), (Z.testbit p i); naive_solver.
Qed.

(** ** time and encoding/json *)
Class Clock (W : Type) : Type := { time_Now : W → Z }.

Class Codec (A : Type) : Type := {
  json_Marshal : A → res string;
  json_Unmarshal : string → res A;
}.

Class CodecLaws (A : Type) `{Codec A} : Prop := {
  json_round_trip : ∀ (a : A) s, json_Marshal a = Ok s → json_Unmarshal s = Ok a;
}.

Definition Second : Z := 1000000000.
Definition Minute : Z := 60 * Second.

(** ** Valkey

    [keyspace] is what the server holds at one instant: the live keys with their values and
    the instants they expire at, and the messages published so far. *)
Inductive vval : Type :=
| VStr (s : string)
| VList (l : list string)
| VSet (s : gset string).

Record entry := Entry { e_val : vval; e_exp : option Z }.

Record keyspace := Keyspace {
  ks_now : Z;
  ks_map : gmap string entry;
  ks_pub : list (string * string);
}.

Definition ks_upd (f : gmap string entry → gmap string entry) (k : keyspace) : keyspace :=
  Keyspace (ks_now k) (f (ks_map k)) (ks_pub k).

Definition ks_lookup (k : keyspace) (key : string) : option vval := e_val <$> ks_map k !! key.

(** Time passes between commands: keys whose instant has come are gone. *)
Definition alive (t : Z) (e : entry) : bool :=
  match e_exp e with Some d => t <? d | None => true end.
Definition ks_advance (d : Z) (k : keyspace) : keyspace :=
  Keyspace (ks_now k + d)
    (filter (λ p, alive (ks_now k + d) p.2 = true) (ks_map k))
    (ks_pub k).

Inductive command : Type :=
| GET (k : string)
| SET (k v : string) (ttl : Z)
| SETNX (k v : string) (ttl : Z)
| GETDEL (k : string)
| DEL (ks : list string)
| MGET (ks : list string)
| EXPIRE (k : string) (ttl : Z)
| EXISTS (k : string)
| INCR (k : string)
| RPUSH (k v : string)
| LTRIM (k : string) (start stop : Z)
| LRANGE (k : string) (start stop : Z)
| SADD (k v : string)
| SREM (k : string) (vs : list string)
| SMEMBERS (k : string)
| PUBLISH (ch msg : string).

Inductive reply : Type :=
| RStatus
| RInt (n : Z)
| RBulk (s : option string)
| RMulti (l : list (option string))
| RWrongType.

Definition deadline (now ttl : Z) : option Z := if 0 <? ttl then Some (now + ttl) else None.

(** Redis list indices: negative ones count from the end. *)
Definition list_index (n i : Z) : Z := if i <? 0 then n + i else i.
Definition list_range {A} (l : list A) (start stop : Z) : list A :=
  let n := Z.of_nat (length l) in
  let a := Z.max 0 (list_index n start) in
  let b := Z.min (n - 1) (list_index n stop) in
  if b <? a then [] else take (Z.to_nat (b - a + 1)) (drop (Z.to_nat a) l).

Definition as_str (k : keyspace) (key : string) : option (option string) :=
  match ks_lookup k key with
  | None => Some None
  | Some (VStr s) => Some (Some s)
  | Some _ => None
  end.
Definition as_list (k : keyspace) (key : string) : option (list string) :=
  match ks_lookup k key with
  | None => Some []
  | Some (VList l) => Some l
  | Some _ => None
  end.
Definition as_set (k : keyspace) (key : string) : option (gset string) :=
  match ks_lookup k key with
  | None => Some ∅
  | Some (VSet s) => Some s
  | Some _ => None
  end.

(** Overwriting a value keeps the key's expiry; an empty collection removes the key. *)
Definition put_val (key : string) (v : vval) (m : gmap string entry) : gmap string entry :=
  <[key := Entry v (m !! key ≫= e_exp)]> m.
Definition put_list (key : string) (l : list string) (m : gmap string entry) :=
  match l with [] => delete key m | _ => put_val key (VList l) m end.
Definition put_set (key : string) (s : gset string) (m : gmap string entry) :=
  if decide (s = ∅) then delete key m else put_val key (VSet s) m.

Definition count_present (k : keyspace) (keys : list string) : Z :=
  Z.of_nat (size (filter (λ key, is_Some (ks_map k !! key)) (list_to_set keys : gset string))).

Lemma count_present_one k key :
  count_present k [key] = if bool_decide (is_Some (ks_map k !! key)) then 1 else 0.
Proof.
  unfold count_present. simpl. rewrite (right_id_L ∅ (∪)).
  case_bool_decide as Hs.
  - assert (filter (λ key, is_Some (ks_map k !! key)) ({[key]} : gset string) = {[key]}) as ->
      by (apply set_eq; intros x; rewrite elem_of_filter, elem_of_singleton; naive_solver).
    by rewrite size_singleton.
  - assert (filter (λ key, is_Some (ks_map k !! key)) ({[key]} : gset string) = ∅) as ->
      by (apply set_eq; intros x; rewrite elem_of_filter, elem_of_singleton; set_solver).
    by rewrite size_empty.
Qed.

(** The documented effect and reply of each command. *)
Definition run_cmd (c : command) (k : keyspace) : reply * keyspace :=
  match c with
  | GET key =>
      match as_str k key with Some r => (RBulk r, k) | None => (RWrongType, k) end
  | SET key v ttl => (RStatus, ks_upd <[key := Entry (VStr v) (deadline (ks_now k) ttl)]> k)
  | SETNX key v ttl =>
      match ks_map k !! key with
      | Some _ => (RInt 0, k)
      | None => (RInt 1, ks_upd <[key := Entry (VStr v) (deadline (ks_now k) ttl)]> k)
      end
  | GETDEL key =>
      match as_str k key with
      | Some r => (RBulk r, ks_upd (delete key) k)
      | None => (RWrongType, k)
      end
  | DEL keys =>
      (RInt (count_present k keys), ks_upd (λ m, foldr delete m keys) k)
  | MGET keys =>
      (RMulti ((λ key, match as_str k key with Some r => r | None => None end) <$> keys), k)
  | EXPIRE key ttl =>
      match ks_map k !! key with
      | None => (RInt 0, k)
      | Some e =>
          (RInt 1, if 0 <? ttl then ks_upd <[key := Entry (e_val e) (Some (ks_now k + ttl))]> k
                   else ks_upd (delete key) k)
      end
  | EXISTS key => (RInt (if decide (is_Some (ks_map k !! key)) then 1 else 0), k)
  | INCR key =>
      match as_str k key with
      | Some (Some s) =>
          match ParseInt s with
          | Ok n => if n + 1 <=? int64_max
                    then (RInt (n + 1), ks_upd (put_val key (VStr (FormatInt (n + 1)))) k)
                    else (RWrongType, k)
          | Err _ => (RWrongType, k)
          end
      | Some None => (RInt 1, ks_upd (put_val key (VStr (FormatInt 1))) k)
      | None => (RWrongType, k)
      end
  | RPUSH key v =>
      match as_list k key with
      | Some l => (RInt (Z.of_nat (length l) + 1), ks_upd (put_list key (l ++ [v])) k)
      | None => (RWrongType, k)
      end
  | LTRIM key a b =>
      match as_list k key with
      | Some l => (RStatus, ks_upd (put_list key (list_range l a b)) k)
      | None => (RWrongType, k)
      end
  | LRANGE key a b =>
      match as_list k key with
      | Some l => (RMulti (Some <$> list_range l a b), k)
      | None => (RWrongType, k)
      end
  | SADD key v =>
      match as_set k key with
      | Some s => (RInt (if decide (v ∈ s) then 0 else 1), ks_upd (put_set key ({[v]} ∪ s)) k)
      | None => (RWrongType, k)
      end
  | SREM key vs =>
      match as_set k key with
      | Some s => (RInt (Z.of_nat (size (s ∩ list_to_set vs))),
                   ks_upd (put_set key (s ∖ list_to_set vs)) k)
      | None => (RWrongType, k)
      end
  | SMEMBERS key =>
      match as_set k key with
      | Some s => (RMulti (Some <$> elements s), k)
      | None => (RWrongType, k)
      end
  | PUBLISH ch msg => (RInt 0, Keyspace (ks_now k) (ks_map k) (ks_pub k ++ [(ch, msg)]))
  end.

Fixpoint run_cmds (cs : list command) (k : keyspace) : list reply * keyspace :=
  match cs with
  | [] => ([], k)
  | c :: cs' =>
      let '(r, k1) := run_cmd c k in
      let '(rs, k2) := run_cmds cs' k1 in (r :: rs, k2)
  end.

(** The keys a command may change. *)
Definition cmd_keys (c : command) : list string :=
  match c with
  | SET k _ _ | SETNX k _ _ | GETDEL k | EXPIRE k _ | INCR k | RPUSH k _ | LTRIM k _ _
  | SADD k _ | SREM k _ => [k]
  | DEL ks => ks
  | GET _ | MGET _ | EXISTS _ | LRANGE _ _ _ | SMEMBERS _ | PUBLISH _ _ => []
  end.

Lemma put_list_other k l m key : key ≠ k → put_list k l m !! key = m !! key.
Proof.
  intros Hne. destruct l; [by apply lookup_delete_ne|by apply lookup_insert_ne].
Qed.
Lemma put_set_other k s m key : key ≠ k → put_set k s m !! key = m !! key.
Proof.
  intros Hne. unfold put_set. case_decide; [by apply lookup_delete_ne|by apply lookup_insert_ne].
Qed.
Lemma foldr_delete_other ks (m : gmap string entry) key :
  key ∉ ks → foldr delete m ks !! key = m !! key.
Proof.
  induction ks as [|k ks IH]; intros Hk; simpl; [done|].
  rewrite lookup_delete_ne; [apply IH|]; set_solver.
Qed.

Lemma run_cmd_other c k key :
  key ∉ cmd_keys c → ks_map (run_cmd c k).2 !! key = ks_map k !! key.
Proof.
  intros Hk. destruct c; simpl in *; repeat case_match; simpl; try done;
    (try by apply foldr_delete_other);
    (try by rewrite lookup_insert_ne by set_solver);
    (try by rewrite lookup_delete_ne by set_solver);
    (try by (unfold put_val; rewrite lookup_insert_ne by set_solver));
    (try by rewrite put_list_other by set_solver);
    (try by rewrite put_set_other by set_solver).
Qed.

Lemma run_cmds_other cs k key :
  (∀ c, c ∈ cs → key ∉ cmd_keys c) → ks_map (run_cmds cs k).2 !! key = ks_map k !! key.
Proof.
  revert k. induction cs as [|c cs IH]; intros k Hk; [done|]. simpl.
  pose proof (run_cmd_other c k key (Hk c (list_elem_of_here c cs))) as E.
  destruct (run_cmd c k) as [r k1]. simpl in E.
  pose proof (IH k1 (λ c' Hc, Hk c' (list_elem_of_further c' c cs Hc))) as E'.
  destruct (run_cmds cs k1) as [rs k2]. simpl in *. congruence.
Qed.

(** Glob patterns of SCAN, for the patterns the program builds (literals and [*]). *)
Fixpoint glob (fuel : nat) (p s : list Z) : bool :=
  match fuel with
  | O => false
  | S f =>
      match p, s with
      | [], [] => true
      | [], _ :: _ => false
      | b :: p', _ =>
          if b =? 42
          then glob f p' s || match s with [] => false | _ :: s' => glob f p s' end
          else match s with [] => false | c :: s' => (b =? c) && glob f p' s' end
      end
  end.
Definition glob_match (pattern key : string) : bool :=
  let p := bytes_of pattern in let s := bytes_of key in
  glob (S (length p + length s)) p s.

(** What the patterns mean: a literal matches itself, [*] any sequence of bytes. *)
Inductive glob_matches : list Z → list Z → Prop :=
| gm_nil : glob_matches [] []
| gm_star p m s : glob_matches p s → glob_matches (42 :: p) (m ++ s)
| gm_lit b p s : b ≠ 42 → glob_matches p s → glob_matches (b :: p) (b :: s).

Lemma glob_sound fuel p s : glob fuel p s = true → glob_matches p s.
Proof.
  revert p s. induction fuel as [|f IH]; intros p s; simpl; [done|].
  destruct p as [|b p]; [destruct s; [constructor|done]|].
  destruct (Z.eqb_spec b 42) as [->|Hb].
  - rewrite orb_true_iff. intros [H|H]; [by apply (gm_star p []), IH|].
    destruct s as [|c s]; [done|]. apply IH in H. inversion H as [|? m s'|]; subst; [|congruence].
    by apply (gm_star p (c :: m)).
  - destruct s as [|c s]; [done|]. rewrite andb_true_iff, Z.eqb_eq. intros [-> H].
    constructor; auto.
Qed.

Lemma glob_complete p s :
  glob_matches p s → ∀ fuel, (length p + length s < fuel)%nat → glob fuel p s = true.
Proof.
  induction 1 as [|p m s Hm IH|b p s Hb Hm IH]; intros [|f] Hf; simpl in *; try lia.
  - revert f Hf. induction m as [|c m IHm]; intros f Hf; simpl in *.
    + rewrite IH by lia. done.
    + destruct f as [|f]; [lia|]. rewrite orb_true_iff. right. simpl. apply IHm. lia.
  - rewrite (proj2 (Z.eqb_neq b 42)) by done. rewrite Z.eqb_refl. simpl. apply IH. lia.
Qed.

Lemma glob_match_iff pattern key :
  glob_match pattern key = true ↔ glob_matches (bytes_of pattern) (bytes_of key).
Proof. unfold glob_match. split; [apply glob_sound|]. intros H. apply glob_complete; [done|lia]. Qed.

Lemma glob_matches_lit l p s :
  Forall (λ b, b ≠ 42) l → glob_matches (l ++ p) s ↔ ∃ s', s = l ++ s' ∧ glob_matches p s'.
Proof.
  intros Hl. revert s. induction Hl as [|b l Hb _ IH]; intros s; simpl; [naive_solver|].
  split.
  - intros H. inversion H as [| |? ? s' ? H']; subst; [congruence|].
    apply IH in H' as (s1 & -> & H'). eauto.
  - intros (s' & -> & H). constructor; [done|]. apply IH. eauto.
Qed.

Lemma glob_matches_star p s : glob_matches (42 :: p) s ↔ ∃ m s', s = m ++ s' ∧ glob_matches p s'.
Proof.
  split.
  - intros H. inversion H as [|? m s'|]; subst; [eauto|congruence].
  - intros (m & s' & -> & H). by constructor.
Qed.

(** The server as seen by the program.  [vk_exec] sends a pipeline (one command is a
    pipeline of length one), [vk_eval] runs a Lua script atomically, [vk_scan] is one SCAN
    call.  [vk_pending w c] are the keys a full iteration continued from cursor [c] still
    has to return, [vk_rank] how long the iteration can still go on. *)
Class Valkey (W : Type) : Type := {
  vk_view : W → keyspace;
  vk_exec : list command → M W (list reply);
  vk_eval : (keyspace → reply * keyspace) → M W reply;
  vk_scan : Z → string → Z → M W (list string * Z);
  vk_pending : W → Z → gset string;
  vk_rank : W → Z → nat;
}.

(** [redis.Nil] is the error of a read that finds no key. *)
Definition redis_Nil : error := Sentinel "redis.Nil".
Definition redis_WrongType : error := Plain "WRONGTYPE".

(** Documented behaviour.  A failed call (the connection broke) may have run a prefix of
    the pipeline, or the script, or nothing. *)
Class ValkeyLaws (W : Type) `{Valkey W} : Prop := {
  vk_exec_ok : ∀ cs w rs w',
    vk_exec cs w = (Ok rs, w') → run_cmds cs (vk_view w) = (rs, vk_view w');
  vk_exec_err : ∀ cs w e w',
    vk_exec cs w = (Err e, w') →
    errors_Is e redis_Nil = false ∧
    ∃ n, vk_view w' = (run_cmds (take n cs) (vk_view w)).2;
  vk_eval_ok : ∀ f w r w', vk_eval f w = (Ok r, w') → f (vk_view w) = (r, vk_view w');
  vk_eval_err : ∀ f w e w',
    vk_eval f w = (Err e, w') →
    errors_Is e redis_Nil = false ∧
    (vk_view w' = vk_view w ∨ vk_view w' = (f (vk_view w)).2);
  vk_scan_view : ∀ c p n w r w', vk_scan c p n w = (r, w') → vk_view w' = vk_view w;
  vk_pending_start : ∀ w, vk_pending w 0 = dom (ks_map (vk_view w));
  vk_scan_ok : ∀ c p n w keys next w',
    vk_scan c p n w = (Ok (keys, next), w') →
    (∀ k, k ∈ keys → glob_match p k = true ∧ k ∈ dom (ks_map (vk_view w))) ∧
    (∀ k, k ∈ vk_pending w c → glob_match p k = true →
          k ∈ keys ∨ (next ≠ 0 ∧ k ∈ vk_pending w' next)) ∧
    (next ≠ 0 → (vk_rank w' next < vk_rank w c)%nat);
  vk_del_pending : ∀ ks w r w' c,
    vk_exec [DEL ks] w = (r, w') →
    (∀ k, k ∈ vk_pending w c → k ∈ ks ∨ k ∈ vk_pending w' c) ∧
    (vk_rank w' c ≤ vk_rank w c)%nat;
}.

(** *** The go-redis client: typed calls *)
Section client.
Context {W : Type} `{Valkey W}.

Definition one (c : command) : M W reply :=
  rs ← vk_exec [c];
  match rs with [r] => mret r | _ => fail (Plain "redis: protocol error") end.

Definition expect_bulk (r : reply) : M W string :=
  match r with
  | RBulk (Some s) => mret s
  | RBulk None => fail redis_Nil
  | _ => fail redis_WrongType
  end.
Definition expect_int (r : reply) : M W Z :=
  match r with RInt n => mret n | _ => fail redis_WrongType end.
Definition expect_multi (r : reply) : M W (list (option string)) :=
  match r with RMulti l => mret l | _ => fail redis_WrongType end.
Definition expect_ok (r : reply) : M W unit :=
  match r with RWrongType => fail redis_WrongType | _ => mret tt end.

Definition rdb_Get (k : string) : M W string := one (GET k) ≫= expect_bulk.
Definition rdb_GetDel (k : string) : M W string := one (GETDEL k) ≫= expect_bulk.
Definition rdb_Set (k v : string) (ttl : Z) : M W unit := one (SET k v ttl) ≫= expect_ok.
Definition rdb_SetNX (k v : string) (ttl : Z) : M W bool :=
  n ← one (SETNX k v ttl) ≫= expect_int; mret (n =? 1).
Definition rdb_Del (ks : list string) : M W Z := one (DEL ks) ≫= expect_int.
Definition rdb_Expire (k : string) (ttl : Z) : M W unit := one (EXPIRE k ttl) ≫= expect_ok.
Definition rdb_MGet (ks : list string) : M W (list (option string)) :=
  one (MGET ks) ≫= expect_multi.
Definition rdb_LRange (k : string) (a b : Z) : M W (list string) :=
  l ← one (LRANGE k a b) ≫= expect_multi; mret (omap id l).
Definition rdb_Publish (ch msg : string) : M W unit := one (PUBLISH ch msg) ≫= expect_ok.

(** [pipe.Exec]: the first reply that is an error is the error of the pipeline. *)
Definition pipe_Exec (cs : list command) : M W unit :=
  rs ← vk_exec cs; for_each rs expect_ok.
End client.

(** Effect of the typed calls on the server's view. *)
Section client_lemmas.
Context {W : Type} `{ValkeyLaws W}.
Implicit Types w : W.

(** One command: it ran and replied, or the call failed and it ran or did not. *)
Lemma one_Ok c w rep w' : one c w = (Ok rep, w') → run_cmd c (vk_view w) = (rep, vk_view w').
Proof.
  unfold one. intros E. apply bind_Ok_inv in E as (rs & w1 & E1 & E2).
  apply vk_exec_ok in E1. simpl in E1.
  destruct (run_cmd c (vk_view w)) as [rep1 k1] eqn:Ec. simplify_eq. by go_inv.
Qed.

Lemma one_Err c w e w' :
  one c w = (Err e, w') →
  errors_Is e redis_Nil = false ∧
  (vk_view w' = vk_view w ∨ vk_view w' = (run_cmd c (vk_view w)).2).
Proof.
  unfold one. intros E. apply bind_inv in E as [(rs & w1 & E1 & E2)|(e' & E1 & [= ->])].
  - apply vk_exec_ok in E1. simpl in E1.
    destruct (run_cmd c (vk_view w)) as [rep k1]. by simplify_eq; go_inv.
  - apply vk_exec_err in E1 as (Hn & [|n] & E1); simpl in E1; (split; [done|]); [by left|right].
    destruct (run_cmd c (vk_view w)) as [rep k1]; simpl in *. by destruct n.
Qed.

(** A command followed by the decoding of its reply: the decoding does not touch the
    server, and both branches are covered. *)
Lemma call_inv {A} c (dec : reply → M W A) w r w' :
  (∀ rep w1, (dec rep w1).2 = w1) →
  (one c ≫= dec) w = (r, w') →
  (∃ rep, run_cmd c (vk_view w) = (rep, vk_view w') ∧ r = (dec rep w').1) ∨
  (∃ e, r = Err e ∧ errors_Is e redis_Nil = false ∧
        (vk_view w' = vk_view w ∨ vk_view w' = (run_cmd c (vk_view w)).2)).
Proof.
  intros Hdec E. apply bind_inv in E as [(rep & w1 & E1 & E2)|(e & E1 & ->)].
  - left. apply one_Ok in E1. specialize (Hdec rep w1). rewrite E2 in Hdec. simpl in Hdec.
    subst w1. exists rep. by rewrite E2.
  - right. apply one_Err in E1. eauto.
Qed.

Lemma expect_bulk_pure rep w : (expect_bulk rep w).2 = w.
Proof. by destruct rep as [| |[]| |]. Qed.
Lemma expect_int_pure rep w : (expect_int rep w).2 = w.
Proof. by destruct rep. Qed.
Lemma expect_multi_pure rep w : (expect_multi rep w).2 = w.
Proof. by destruct rep. Qed.
Lemma expect_ok_pure rep w : (expect_ok rep w).2 = w.
Proof. by destruct rep. Qed.
Hint Resolve expect_bulk_pure expect_int_pure expect_multi_pure expect_ok_pure : core.

Lemma rdb_Get_Ok k w s w' :
  rdb_Get k w = (Ok s, w') →
  ks_lookup (vk_view w) k = Some (VStr s) ∧ vk_view w' = vk_view w.
Proof.
  intros E. apply call_inv in E as [(rep & E1 & E2)|(e & ? & _)]; [|done|auto].
  simpl in E1. unfold as_str in E1.
  destruct (ks_lookup (vk_view w) k) as [[]|]; simplify_eq/=; naive_solver.
Qed.

Lemma rdb_Get_Err k w e w' :
  rdb_Get k w = (Err e, w') →
  vk_view w' = vk_view w ∧
  (errors_Is e redis_Nil = true → ks_lookup (vk_view w) k = None).
Proof.
  intros E. apply call_inv in E as [(rep & E1 & E2)|(e' & ? & Hn & E1)]; [| |auto].
  - simpl in E1. unfold as_str in E1.
    destruct (ks_lookup (vk_view w) k) as [[]|]; simplify_eq/=; naive_solver.
  - simpl in E1. unfold as_str in E1. simplify_eq.
    split; [|congruence]. by destruct (ks_lookup (vk_view w) k) as [[]|], E1.
Qed.

Lemma rdb_GetDel_Ok k w s w' :
  rdb_GetDel k w = (Ok s, w') →
  ks_lookup (vk_view w) k = Some (VStr s) ∧ vk_view w' = ks_upd (delete k) (vk_view w).
Proof.
  intros E. apply call_inv in E as [(rep & E1 & E2)|(e & ? & _)]; [|done|auto].
  simpl in E1. unfold as_str in E1.
  destruct (ks_lookup (vk_view w) k) as [[]|]; simplify_eq/=; naive_solver.
Qed.

Lemma rdb_GetDel_Err k w e w' :
  rdb_GetDel k w = (Err e, w') →
  (vk_view w' = vk_view w ∨ vk_view w' = ks_upd (delete k) (vk_view w)) ∧
  (errors_Is e redis_Nil = true → ks_lookup (vk_view w) k = None).
Proof.
  intros E. apply call_inv in E as [(rep & E1 & E2)|(e' & ? & Hn & E1)]; [| |auto];
    simpl in E1; unfold as_str in E1;
    destruct (ks_lookup (vk_view w) k) as [[]|]; simplify_eq/=;
    (split; [intuition congruence|]); intros; first [done|congruence].
Qed.

Lemma rdb_Set_Ok k v ttl w w' :
  rdb_Set k v ttl w = (Ok tt, w') →
  vk_view w' = ks_upd <[k := Entry (VStr v) (deadline (ks_now (vk_view w)) ttl)]> (vk_view w).
Proof.
  intros E. apply call_inv in E as [(rep & E1 & E2)|(e & ? & _)]; [|done|auto].
  simpl in E1. by simplify_eq.
Qed.

Lemma rdb_Set_Err k v ttl w e w' :
  rdb_Set k v ttl w = (Err e, w') →
  errors_Is e redis_Nil = false ∧
  (vk_view w' = vk_view w ∨
   vk_view w' = ks_upd <[k := Entry (VStr v) (deadline (ks_now (vk_view w)) ttl)]> (vk_view w)).
Proof.
  intros E. apply call_inv in E as [(rep & E1 & E2)|(e' & ? & Hn & E1)]; [| |auto].
  - simpl in E1. by simplify_eq.
  - by simplify_eq.
Qed.

Lemma rdb_Del_inv ks w r w' :
  rdb_Del ks w = (r, w') →
  (∃ n, r = Ok n ∧ n = count_present (vk_view w) ks ∧
        vk_view w' = ks_upd (λ m, foldr delete m ks) (vk_view w)) ∨
  (∃ e, r = Err e ∧ errors_Is e redis_Nil = false ∧
        (vk_view w' = vk_view w ∨ vk_view w' = ks_upd (λ m, foldr delete m ks) (vk_view w))).
Proof.
  intros E. apply call_inv in E as [(rep & E1 & E2)|(e' & ? & Hn & E1)]; [| |auto].
  - left. simpl in E1. simplify_eq/=. eauto.
  - right. eauto.
Qed.

Lemma rdb_MGet_inv ks w r w' :
  rdb_MGet ks w = (r, w') →
  vk_view w' = vk_view w ∧
  ∀ l, r = Ok l →
    l = (λ key, match ks_lookup (vk_view w) key with Some (VStr s) => Some s | _ => None end)
          <$> ks.
Proof.
  intros E. apply call_inv in E as [(rep & E1 & E2)|(e' & ? & Hn & E1)]; [| |auto].
  - simpl in E1. simplify_eq/=. split; [done|]. intros l [= <-].
    apply list_fmap_ext. intros _ key _. unfold as_str.
    by destruct (ks_lookup (vk_view w) key) as [[]|].
  - simpl in E1. naive_solver.
Qed.

Lemma for_each_expect_ok rs w r w' :
  for_each rs expect_ok w = (r, w') →
  w' = w ∧ (r = Ok tt → Forall (λ rep, rep ≠ RWrongType) rs).
Proof.
  revert w. induction rs as [|rep rs IH]; intros w E; simpl in E; [by go_inv|].
  apply bind_inv in E as [([] & w2 & E1 & E2)|(e & E1 & ->)];
    pose proof (expect_ok_pure rep w) as Hp; rewrite E1 in Hp; simpl in Hp; subst.
  - apply IH in E2 as [-> Hok]. split; [done|]. intros Hr. constructor; [|auto].
    by destruct rep.
  - done.
Qed.

(** A pipeline that succeeded ran entirely and no command refused its key's type; one that
    failed ran a prefix. *)
(** A pipeline changes only the keys its commands name, also when it fails half way. *)
Lemma pipe_Exec_other cs w r w' key :
  pipe_Exec cs w = (r, w') → (∀ c, c ∈ cs → key ∉ cmd_keys c) →
  ks_map (vk_view w') !! key = ks_map (vk_view w) !! key.
Proof.
  intros E Hk.
  assert (∃ r1, vk_exec cs w = (r1, w')) as [[rs|e] E1].
  { unfold pipe_Exec in E. apply bind_inv in E as [(rs & w1 & E1 & E2)|(e & E1 & _)]; [|eauto].
    assert (w' = w1) as ->; [|eauto]. clear E1. revert r E2.
    induction rs as [|rep rs IH]; intros r E2; simpl in E2; [by go_inv|].
    apply bind_inv in E2 as [(? & w2 & E2 & E3)|(e & E2 & _)];
      destruct rep; simpl in E2; go_inv; eauto. }
  - apply vk_exec_ok in E1. rewrite <-(run_cmds_other cs (vk_view w) key Hk). by rewrite E1.
  - apply vk_exec_err in E1 as (_ & n & ->). apply run_cmds_other.
    intros c Hc. apply Hk. eapply elem_of_take in Hc. naive_solver eauto using list_elem_of_lookup_2.
Qed.

Lemma pipe_Exec_Ok cs w w' :
  pipe_Exec cs w = (Ok tt, w') →
  ∃ rs, run_cmds cs (vk_view w) = (rs, vk_view w') ∧ Forall (λ rep, rep ≠ RWrongType) rs.
Proof.
  unfold pipe_Exec. intros E. apply bind_Ok_inv in E as (rs & w1 & E1 & E2).
  apply for_each_expect_ok in E2 as [-> Hok]. apply vk_exec_ok in E1. eauto.
Qed.

Lemma rdb_LRange_Ok k a b w l w' :
  rdb_LRange k a b w = (Ok l, w') →
  vk_view w' = vk_view w ∧
  ∃ full, as_list (vk_view w) k = Some full ∧ l = list_range full a b.
Proof.
  unfold rdb_LRange. intros E. apply bind_Ok_inv in E as (m & w1 & E1 & E2).
  apply call_inv in E1 as [(rep & E1 & Hr)|(e & Hr & _)]; [|done|auto].
  simpl in E1. destruct (as_list (vk_view w) k) as [full|]; simplify_eq/=. go_inv.
  split; [done|]. exists full. split; [done|].
  generalize (list_range full a b). intros l'. induction l' as [|x l' IH]; [done|].
  csimpl. by rewrite IH.
Qed.
End client_lemmas.

#[export] Hint Resolve expect_bulk_pure expect_int_pure expect_multi_pure expect_ok_pure : go.

(** ** Concrete instances for the witnesses

    An in-memory server that never fails, canonical UUID strings, and the usual bit
    operations.  Theorems are proved against the classes above; these instances only show
    that the hypotheses can hold. *)
Class HasKeyspace (W : Type) : Type := {
  ks_of : W → keyspace;
  ks_put : keyspace → W → W;
  ks_of_put : ∀ k w, ks_of (ks_put k w) = k;
}.

#[export] Instance keyspace_self : HasKeyspace keyspace :=
  {| ks_of := id; ks_put := λ k _, k; ks_of_put := λ _ _, eq_refl |}.

Section memory_server.
Context {W : Type} `{HasKeyspace W}.

Definition mem_Valkey : Valkey W := {|
  vk_view := ks_of;
  vk_exec := λ cs w, let '(rs, k) := run_cmds cs (ks_of w) in (Ok rs, ks_put k w);
  vk_eval := λ f w, let '(r, k) := f (ks_of w) in (Ok r, ks_put k w);
  vk_scan := λ c p n w,
    (Ok (filter (λ k, glob_match p k = true) (elements (dom (ks_map (ks_of w)))), 0), w);
  vk_pending := λ w _, dom (ks_map (ks_of w));
  vk_rank := λ _ _, 0%nat;
|}.

Lemma dom_foldr_delete (m : gmap string entry) ks k :
  k ∈ dom m → k ∈ ks ∨ k ∈ dom (foldr delete m ks).
Proof.
  intros Hk. induction ks as [|k1 ks IH]; simpl; [by right|].
  rewrite dom_delete_L. destruct (decide (k = k1)); set_solver.
Qed.

Lemma mem_ValkeyLaws : ValkeyLaws W (H := mem_Valkey).
Proof.
  constructor; simpl.
  - intros cs w rs w'. destruct (run_cmds cs (ks_of w)) as [rs0 k0] eqn:E.
    intros [= <- <-]. by rewrite ks_of_put.
  - intros cs w e w'. by destruct (run_cmds cs (ks_of w)).
  - intros f w r w'. destruct (f (ks_of w)) as [r0 k0]. intros [= <- <-]. by rewrite ks_of_put.
  - intros f w e w'. by destruct (f (ks_of w)).
  - intros. by simplify_eq.
  - done.
  - intros c p n w keys next w' [= <- <- <-]. split_and!; [| |done].
    + intros k. rewrite list_elem_of_filter, elem_of_elements. done.
    + intros k Hk Hg. left. rewrite list_elem_of_filter, elem_of_elements. done.
  - intros ks w r w' c [= <- <-]. rewrite ks_of_put. split; [|lia].
    intros k Hk. by apply dom_foldr_delete.
Qed.
End memory_server.

(** The canonical form of RFC 4122, and the UUIDs in that form. *)
Definition canonical (s : string) : bool :=
  let l := bytes_of s in
  Nat.eqb (length l) 36 && forallb uuid_char l.

Definition cuuid : Type := { s : string | canonical s = true }.

#[export] Instance cuuid_UUIDLib : UUIDLib cuuid := {|
  uuid_eq_dec := _;
  uuid_countable := _;
  uuid_Nil := "00000000-0000-0000-0000-000000000000"%string ↾ eq_refl;
  uuid_String := proj1_sig;
  uuid_Parse := λ s,
    match decide (canonical s = true) with
    | left Hc => Ok (s ↾ Hc)
    | right _ => Err (Plain "invalid UUID")
    end;
|}.

#[export] Instance cuuid_UUIDLaws : UUIDLaws cuuid.
Proof.
  constructor.
  - intros [s Hs]; simpl. destruct (decide (canonical s = true)) as [Hc|]; [|done].
    f_equal. by apply (sig_eq_pi _).
  - intros [s Hs]; simpl. unfold canonical in Hs. by apply andb_true_iff in Hs as [Hs%Nat.eqb_eq _].
  - intros [s Hs]; simpl. unfold canonical in Hs. apply andb_true_iff in Hs as [_ Hs].
    apply Forall_forall. intros b Hb. rewrite forallb_forall in Hs.
    apply Hs. by apply list_elem_of_In.
Qed.

Definition bits_PermissionLib : PermissionLib := {|
  perm_Has := λ p q, bool_decide (Z.land p q = q);
  perm_Add := Z.lor;
  perm_Remove := Z.ldiff;
  AllPermissions := 2^31 - 1;
  ManageServer := 32;
  ViewChannels := 1;
|}.

Lemma bits_PermissionLaws : PermissionLaws (H := bits_PermissionLib).
Proof. by constructor. Qed.

(** A codec for any countable type: the bits of its code. *)
Fixpoint bits (p : positive) : string :=
  match p with
  | xH => ""
  | xO p => String "0"%char (bits p)
  | xI p => String "1"%char (bits p)
  end.
Fixpoint unbits (s : string) : positive :=
  match s with
  | EmptyString => xH
  | String c s' => if Ascii.eqb c "0"%char then xO (unbits s') else xI (unbits s')
  end.
Lemma unbits_bits p : unbits (bits p) = p.
Proof. induction p as [p IH|p IH|]; simpl; congruence. Qed.

Definition countable_Codec {A} `{Countable A} : Codec A := {|
  json_Marshal := λ a, Ok (bits (encode a));
  json_Unmarshal := λ s,
    match decode (unbits s) with Some a => Ok a | None => Err (Plain "invalid JSON") end;
|}.

Lemma countable_CodecLaws {A} `{Countable A} : CodecLaws A (H := countable_Codec).
Proof. constructor. intros a s [= <-]. simpl. by rewrite unbits_bits, decode_encode. Qed.
