(* ===== verification/Permission.v ===== *)
(** * Effective permissions: internal/permission/resolver.go, store.go

    The data of the permission store, the [Store] and [Cache] interfaces of the package as
    classes, and every operation of [Resolver].  The specification is bit by bit
    ([effective]): which principal grants or denies a permission bit at which level.  The
    theorems show that [compute] implements it, that a coherent cache stays coherent
    whatever fails, and that the bulk operations agree with the single ones. *)
From S2P Require Import Prelude GoStd Platform.
Open Scope Z_scope.

(** ** Data (store.go) *)
Definition TargetChannel : string := "channel".
Definition TargetCategory : string := "category".
Definition PrincipalRole : string := "role".
Definition PrincipalUser : string := "user".

Definition ErrOverrideNotFound : error := Sentinel "permission.ErrOverrideNotFound".
Definition ErrChannelNotFound : error := Sentinel "permission.ErrChannelNotFound".

Record Override (U : Type) := mkOverride {
  PrincipalType : string;
  PrincipalID : U;
  Allow : Z;
  Deny : Z;
}.
Arguments mkOverride {U}. Arguments PrincipalType {U}. Arguments PrincipalID {U}.
Arguments Allow {U}. Arguments Deny {U}.

Record ChannelInfo (U : Type) := mkChannelInfo { ci_ID : U; CategoryID : option U }.
Arguments mkChannelInfo {U}. Arguments ci_ID {U}. Arguments CategoryID {U}.

Record RolePermEntry (U : Type) := mkRolePermEntry { RoleID : U; Permissions : Z }.
Arguments mkRolePermEntry {U}. Arguments RoleID {U}. Arguments Permissions {U}.

(** ** The two interfaces the resolver is written against *)
Class Store (U W : Type) : Type := {
  store_IsOwner : U → M W bool;
  store_RolePermissions : U → M W (list (RolePermEntry U));
  store_ChannelInfo : U → M W (ChannelInfo U);
  store_Overrides : string → U → M W (list (Override U));
}.

(** [Get] returns [Ok (Some p)] for (p, true, nil), [Ok None] for a miss. *)
Class Cache (U W : Type) `{UUIDLib U} : Type := {
  cache_Get : U → U → M W (option Z);
  cache_Set : U → U → Z → M W unit;
  cache_GetMany : U → list U → M W (gmap U Z);
  cache_SetMany : U → gmap U Z → M W unit;
  cache_GetManyUsers : list U → U → M W (gmap U Z);
  cache_SetManyUsers : U → gmap U Z → M W unit;
  cache_DeleteByUser : U → M W unit;
  cache_DeleteByChannel : U → M W unit;
  cache_DeleteExact : U → U → M W unit;
  cache_DeleteAll : M W unit;
}.

Section resolver.
Context {U W : Type} `{UUIDLib U} `{PermissionLib} `{Store U W} `{Cache U W}.

(** ** Pure part *)
Record baseResult := mkBase { br_perm : Z; br_roleIDs : gset U; br_admin : bool }.

(** The loop state of [applyOverrides]: roleAllow, roleDeny, userOverride. *)
Definition applyOverrides_step (userRoles : gset U) (userID : U)
    (st : Z * Z * option (Override U)) (o : Override U) : Z * Z * option (Override U) :=
  let '(roleAllow, roleDeny, userOverride) := st in
  if bool_decide (PrincipalType o = PrincipalUser) && bool_decide (PrincipalID o = userID)
  then (roleAllow, roleDeny, Some o)
  else if bool_decide (PrincipalType o = PrincipalRole) then
    if bool_decide (PrincipalID o ∈ userRoles)
    then (perm_Add roleAllow (Allow o), perm_Add roleDeny (Deny o), userOverride)
    else st
  else st.

Definition applyOverrides (base : Z) (overrides : list (Override U)) (userRoles : gset U)
    (userID : U) : Z :=
  let '(roleAllow, roleDeny, userOverride) :=
    foldl (applyOverrides_step userRoles userID) (0, 0, None) overrides in
  let base := perm_Add base roleAllow in
  let base := perm_Remove base roleDeny in
  match userOverride with
  | Some o => perm_Remove (perm_Add base (Allow o)) (Deny o)
  | None => base
  end.

(** ** Operations *)
Definition basePermissions (userID : U) : M W baseResult :=
  isOwner ← wrap "check owner" (store_IsOwner userID);
  if (isOwner : bool) then mret (mkBase AllPermissions ∅ true) else
  roleEntries ← wrap "get role permissions" (store_RolePermissions userID);
  let '(base, roleIDs) :=
    foldl (λ '(base, ids) entry, (perm_Add base (Permissions entry), {[RoleID entry]} ∪ ids))
      (0, (∅ : gset U)) roleEntries in
  if perm_Has base ManageServer then mret (mkBase AllPermissions ∅ true)
  else mret (mkBase base roleIDs false).

Definition channelOverrides (base : Z) (roleIDs : gset U) (userID channelID : U) : M W Z :=
  chanInfo ← wrap "get channel info" (store_ChannelInfo channelID);
  base ← match CategoryID chanInfo with
         | Some categoryID =>
             catOverrides ← wrap "get category overrides"
                              (store_Overrides TargetCategory categoryID);
             mret (applyOverrides base catOverrides roleIDs userID)
         | None => mret base
         end;
  chanOverrides ← wrap "get channel overrides" (store_Overrides TargetChannel channelID);
  mret (applyOverrides base chanOverrides roleIDs userID).

Definition compute (userID channelID : U) : M W Z :=
  br ← basePermissions userID;
  if br_admin br then mret (br_perm br)
  else channelOverrides (br_perm br) (br_roleIDs br) userID channelID.

(** Read through the cache; every cache error is logged and dropped. *)
Definition Resolve (userID channelID : U) : M W Z :=
  cached ← try (cache_Get userID channelID);
  match cached with
  | Ok (Some perm) => mret perm
  | _ =>
      perm ← compute userID channelID;
      best_effort (cache_Set userID channelID perm) ;;
      mret perm
  end.

Definition HasPermission (userID channelID : U) (perm : Z) : M W bool :=
  effective ← Resolve userID channelID; mret (perm_Has effective perm).

Definition serverPermKey : U := uuid_Nil.

Definition ResolveServer (userID : U) : M W Z :=
  cached ← try (cache_Get userID serverPermKey);
  match cached with
  | Ok (Some perm) => mret perm
  | _ =>
      br ← basePermissions userID;
      best_effort (cache_Set userID serverPermKey (br_perm br)) ;;
      mret (br_perm br)
  end.

Definition HasServerPermission (userID : U) (perm : Z) : M W bool :=
  effective ← ResolveServer userID; mret (perm_Has effective perm).

(** The loop over the requested ids shared by the two bulk operations: cached answers are
    used, the others computed and collected for the bulk write. *)
Definition filter_step (cached : gmap U Z) (miss : U → M W Z) (perm : Z)
    (acc : list bool * gmap U Z) (id : U) : M W (list bool * gmap U Z) :=
  let '(result, toCache) := acc in
  match cached !! id with
  | Some effective => mret (result ++ [perm_Has effective perm], toCache)
  | None =>
      effective ← miss id;
      mret (result ++ [perm_Has effective perm], <[id := effective]> toCache)
  end.

Definition FilterPermitted (userID : U) (channelIDs : list U) (perm : Z) : M W (list bool) :=
  br ← basePermissions userID;
  if br_admin br then mret (replicate (length channelIDs) true) else
  cached ← try (cache_GetMany userID channelIDs);
  let cached := match cached with Ok m => m | Err _ => ∅ end in
  r ← foldM (filter_step cached
               (channelOverrides (br_perm br) (br_roleIDs br) userID) perm)
        channelIDs ([], ∅);
  (if bool_decide (r.2 = ∅) then mret tt else best_effort (cache_SetMany userID r.2)) ;;
  mret r.1.

Definition FilterUsersPermitted (userIDs : list U) (channelID : U) (perm : Z)
    : M W (list bool) :=
  cached ← try (cache_GetManyUsers userIDs channelID);
  let cached := match cached with Ok m => m | Err _ => ∅ end in
  r ← foldM (filter_step cached (λ uid, compute uid channelID) perm) userIDs ([], ∅);
  (if bool_decide (r.2 = ∅) then mret tt else best_effort (cache_SetManyUsers channelID r.2)) ;;
  mret r.1.
End resolver.

(** ** Specification *)

(** A snapshot of the database the resolver reads. *)
Record permdb (U : Type) := mkPermdb {
  db_owner : option U;
  db_roles : U → list (RolePermEntry U);
  db_chan : U → option (option U);
  db_over : string → U → list (Override U);
}.
Arguments mkPermdb {U}. Arguments db_owner {U}. Arguments db_roles {U}.
Arguments db_chan {U}. Arguments db_over {U}.

Section spec.
Context {U : Type} `{UUIDLib U} `{PermissionLib}.
Implicit Types (d : permdb U) (u c : U) (i : Z).

(** Server level: some role of the user grants the bit. *)
Definition base_bit d u i : bool :=
  existsb (λ e, Z.testbit (Permissions e) i) (db_roles d u).
Definition held_roles d u : gset U := list_to_set (RoleID <$> db_roles d u).

Definition is_admin d u : Prop :=
  db_owner d = Some u ∨ ∀ i, Z.testbit ManageServer i = true → base_bit d u i = true.

(** One level of overrides: among the roles held deny beats allow, both beat the level
    below, and the user's own override (the last one listed) beats the roles. *)
Definition role_override (roles : gset U) u (o : Override U) : bool :=
  negb (bool_decide (PrincipalType o = PrincipalUser) && bool_decide (PrincipalID o = u)) &&
  bool_decide (PrincipalType o = PrincipalRole) && bool_decide (PrincipalID o ∈ roles).
Definition user_override u (o : Override U) : bool :=
  bool_decide (PrincipalType o = PrincipalUser) && bool_decide (PrincipalID o = u).

Definition level_bit (allow deny below : bool) : bool := if deny then false else allow || below.

Definition override_bit (l : list (Override U)) (roles : gset U) u i (below : bool) : bool :=
  let ro := List.filter (role_override roles u) l in
  let role_level := level_bit (existsb (λ o, Z.testbit (Allow o) i) ro)
                              (existsb (λ o, Z.testbit (Deny o) i) ro) below in
  match last (List.filter (user_override u) l) with
  | Some o => level_bit (Z.testbit (Allow o) i) (Z.testbit (Deny o) i) role_level
  | None => role_level
  end.

Definition spec_bit d u c (cat : option U) i : bool :=
  let b := base_bit d u i in
  let b := match cat with
           | Some k => override_bit (db_over d TargetCategory k) (held_roles d u) u i b
           | None => b
           end in
  override_bit (db_over d TargetChannel c) (held_roles d u) u i b.

(** [p] is what user [u] may do in channel [c]. *)
Definition effective d u c (p : Z) : Prop :=
  (is_admin d u ∧ p = AllPermissions) ∨
  (¬ is_admin d u ∧ ∃ cat, db_chan d c = Some cat ∧ ∀ i, Z.testbit p i = spec_bit d u c cat i).

(** [p] is what user [u] may do on the server. *)
Definition server_effective d u (p : Z) : Prop :=
  (is_admin d u ∧ p = AllPermissions) ∨
  (¬ is_admin d u ∧ ∀ i, Z.testbit p i = base_bit d u i).

(** Every stored bitfield is a 64-bit integer, as its column type makes it. *)
Definition db_wf d : Prop :=
  (∀ u, Forall (λ e, in_int64 (Permissions e)) (db_roles d u)) ∧
  (∀ t c, Forall (λ o, in_int64 (Allow o) ∧ in_int64 (Deny o)) (db_over d t c)).

Lemma effective_unique d u c p q : effective d u c p → effective d u c q → p = q.
Proof.
  intros [[? ->]|[? (cat & Hc & Hp)]] [[? ->]|[? (cat' & Hc' & Hq)]]; try done.
  apply Z.bits_inj'. intros i _. rewrite Hp, Hq. congruence.
Qed.
End spec.

(** The ghost reading of the world, and what the interfaces promise. *)
Class PermWorld (U W : Type) `{UUIDLib U} : Type := {
  db_of : W → permdb U;
  cache_of : W → U * U → option Z;
}.

(** The database and the cache read the same. *)
Definition unchanged `{PermWorld U W} (w w' : W) : Prop :=
  db_of w' = db_of w ∧ ∀ k, cache_of w' k = cache_of w k.

#[export] Instance unchanged_preorder `{PermWorld U W} : PreOrder (unchanged (U := U) (W := W)).
Proof.
  split; [by split|]. intros w1 w2 w3 [Hd Hc] [Hd' Hc']. split; [congruence|].
  intros k. by rewrite Hc', Hc.
Qed.

Class StoreLaws (U W : Type) `{UUIDLib U} `{!Store U W} `{!PermWorld U W} : Prop := {
  store_IsOwner_spec : ∀ u w r w', store_IsOwner u w = (r, w') →
    unchanged w w' ∧
    ∀ b, r = Ok b → b = bool_decide (db_owner (db_of w) = Some u);
  store_RolePermissions_spec : ∀ u w r w', store_RolePermissions u w = (r, w') →
    unchanged w w' ∧
    ∀ l, r = Ok l → l = db_roles (db_of w) u;
  store_ChannelInfo_spec : ∀ c w r w', store_ChannelInfo c w = (r, w') →
    unchanged w w' ∧
    ∀ ci, r = Ok ci → db_chan (db_of w) c = Some (CategoryID ci);
  store_Overrides_spec : ∀ t c w r w', store_Overrides t c w = (r, w') →
    unchanged w w' ∧
    ∀ l, r = Ok l → l = db_over (db_of w) t c;
}.

(** A write may or may not have happened when it reports an error, and never touches the
    database or invents an entry. *)
Class CacheLaws (U W : Type) `{!UUIDLib U} `{!Cache U W} `{!PermWorld U W} : Prop := {
  cache_Get_spec : ∀ u c w r w', cache_Get u c w = (r, w') →
    unchanged w w' ∧
    ∀ o, r = Ok o → o = cache_of w (u, c);
  cache_Set_spec : ∀ u c p w r w', in_int64 p → cache_Set u c p w = (r, w') →
    db_of w' = db_of w ∧
    (∀ k, cache_of w' k = cache_of w k ∨ (k = (u, c) ∧ cache_of w' k = Some p)) ∧
    (r = Ok tt → cache_of w' (u, c) = Some p);
  cache_GetMany_spec : ∀ u cs w r w', cache_GetMany u cs w = (r, w') →
    unchanged w w' ∧
    ∀ m c p, r = Ok m → m !! c = Some p → cache_of w (u, c) = Some p;
  cache_SetMany_spec : ∀ u m w r w',
    map_Forall (λ _ p, in_int64 p) m → cache_SetMany u m w = (r, w') →
    db_of w' = db_of w ∧
    (∀ k, cache_of w' k = cache_of w k ∨
          ∃ c p, k = (u, c) ∧ m !! c = Some p ∧ cache_of w' k = Some p) ∧
    (r = Ok tt → ∀ c p, m !! c = Some p → cache_of w' (u, c) = Some p);
  cache_GetManyUsers_spec : ∀ us c w r w', cache_GetManyUsers us c w = (r, w') →
    unchanged w w' ∧
    ∀ m u p, r = Ok m → m !! u = Some p → cache_of w (u, c) = Some p;
  cache_SetManyUsers_spec : ∀ c m w r w',
    map_Forall (λ _ p, in_int64 p) m → cache_SetManyUsers c m w = (r, w') →
    db_of w' = db_of w ∧
    (∀ k, cache_of w' k = cache_of w k ∨
          ∃ u p, k = (u, c) ∧ m !! u = Some p ∧ cache_of w' k = Some p) ∧
    (r = Ok tt → ∀ u p, m !! u = Some p → cache_of w' (u, c) = Some p);
}.

(** ** The pure algorithm against its bits *)
Section pure.
Context {U : Type} `{UUIDLib U} `{PermissionLaws}.
Implicit Types (d : permdb U) (u c : U) (i : Z) (l : list (Override U)).

(** The step in terms of the two kinds of override. *)
Lemma applyOverrides_step_eq roles u ra rd uo (o : Override U) :
  applyOverrides_step roles u (ra, rd, uo) o =
  if user_override u o then (ra, rd, Some o)
  else if role_override roles u o
  then (perm_Add ra (Allow o), perm_Add rd (Deny o), uo) else (ra, rd, uo).
Proof.
  unfold applyOverrides_step, role_override, user_override.
  by repeat (case_match; simplify_eq/=).
Qed.

Lemma user_not_role roles u (o : Override U) :
  user_override u o = true → role_override roles u o = false.
Proof. unfold user_override, role_override. by intros ->. Qed.

Lemma applyOverrides_fold roles u i l ra rd uo :
  let '(ra', rd', uo') := foldl (applyOverrides_step roles u) (ra, rd, uo) l in
  let ro := List.filter (role_override roles u) l in
  Z.testbit ra' i = Z.testbit ra i || existsb (λ o, Z.testbit (Allow o) i) ro ∧
  Z.testbit rd' i = Z.testbit rd i || existsb (λ o, Z.testbit (Deny o) i) ro ∧
  uo' = match last (List.filter (user_override u) l) with Some o => Some o | None => uo end.
Proof.
  revert ra rd uo. induction l as [|o l IH]; intros ra rd uo.
  { simpl. by rewrite !orb_false_r. }
  cbn [foldl List.filter]. rewrite applyOverrides_step_eq.
  destruct (user_override u o) eqn:Eu; [rewrite (user_not_role _ _ _ Eu)|
    destruct (role_override roles u o) eqn:Er].
  all: match goal with |- context [foldl ?f (?a, ?b, ?c) ?l] =>
         specialize (IH a b c); destruct (foldl f (a, b, c) l) as [[ra' rd'] uo'] end.
  all: destruct IH as (-> & -> & ->); cbn [existsb];
    rewrite ?perm_Add_spec, ?Z.lor_spec, ?orb_assoc, ?last_cons; by case_match.
Qed.

(** Each bit of the overridden permissions is decided by the override level. *)
Lemma applyOverrides_testbit base l roles u i :
  Z.testbit (applyOverrides base l roles u) i = override_bit l roles u i (Z.testbit base i).
Proof.
  unfold applyOverrides, override_bit, level_bit.
  pose proof (applyOverrides_fold roles u i l 0 0 None) as Hf.
  destruct (foldl _ _ l) as [[ra rd] uo]. destruct Hf as (Ha & Hd & ->).
  rewrite Z.bits_0, orb_false_l in Ha, Hd.
  destruct (last _) as [o|]; rewrite ?perm_Remove_spec, ?perm_Add_spec, ?Z.ldiff_spec,
    ?Z.lor_spec, ?Ha, ?Hd, ?perm_Remove_spec, ?perm_Add_spec, ?Z.ldiff_spec,
    ?Z.lor_spec, ?Ha, ?Hd;
    repeat match goal with |- context [existsb ?f ?l] => destruct (existsb f l) end;
    repeat match goal with |- context [Z.testbit ?a i] => destruct (Z.testbit a i) end; done.
Qed.

Lemma applyOverrides_in_int64 base l roles u :
  in_int64 base → Forall (λ o, in_int64 (Allow o) ∧ in_int64 (Deny o)) l →
  in_int64 (applyOverrides base l roles u).
Proof.
  intros Hb Hl. unfold applyOverrides.
  assert (∀ st, in_int64 st.1.1 → in_int64 st.1.2 →
            (∀ o, st.2 = Some o → in_int64 (Allow o) ∧ in_int64 (Deny o)) →
            let st' := foldl (applyOverrides_step roles u) st l in
            in_int64 st'.1.1 ∧ in_int64 st'.1.2 ∧
            (∀ o, st'.2 = Some o → in_int64 (Allow o) ∧ in_int64 (Deny o))) as Hfold.
  { induction Hl as [|o l Ho _ IH]; intros [[a dn] uo] Ha Hdn Huo; [done|].
    destruct Ho. cbn [foldl]. rewrite applyOverrides_step_eq.
    destruct (user_override u o), (role_override roles u o); apply IH; simpl in *;
      rewrite ?perm_Add_spec; auto using in_int64_lor; intros ? [= <-]; auto. }
  specialize (Hfold (0, 0, None)). destruct (foldl _ _ l) as [[a dn] uo]; simpl in Hfold.
  destruct Hfold as (Ha & Hd & Ho); [done..|].
  case_match; rewrite ?perm_Remove_spec, ?perm_Add_spec;
    repeat first [apply in_int64_ldiff | apply in_int64_lor]; try done;
    by apply (Ho _ eq_refl).
Qed.

Lemma base_fold (entries : list (RolePermEntry U)) i base ids :
  let '(base', ids') :=
    foldl (λ '(base, ids) entry, (perm_Add base (Permissions entry), {[RoleID entry]} ∪ ids))
      (base, ids : gset U) entries in
  Z.testbit base' i = Z.testbit base i || existsb (λ e, Z.testbit (Permissions e) i) entries ∧
  ids' = list_to_set (RoleID <$> entries) ∪ ids ∧
  (in_int64 base → Forall (λ e, in_int64 (Permissions e)) entries → in_int64 base').
Proof.
  revert base ids. induction entries as [|e es IH]; intros base ids; simpl.
  { rewrite orb_false_r, (left_id_L ∅ (∪)). done. }
  specialize (IH (perm_Add base (Permissions e)) ({[RoleID e]} ∪ ids)).
  destruct (foldl _ _ es) as [base' ids']. destruct IH as (-> & -> & Hw).
  rewrite perm_Add_spec in *. rewrite Z.lor_spec, orb_assoc. split_and!; [done|set_solver|].
  intros Hb [He Hes]%Forall_cons. apply Hw; [|done]. by apply in_int64_lor.
Qed.
End pure.

(** ** The operations against the specification *)
Section correctness.
Context {U W : Type} `{UUIDLib U} `{PermissionLib}.
Context `{!Store U W} `{!Cache U W} `{!PermWorld U W}.

(** Each cached entry is what the database says now: channel permissions under a channel
    id, server permissions under the reserved nil id. *)
Definition coherent (w : W) : Prop :=
  ∀ u c p, cache_of w (u, c) = Some p →
    if decide (c = serverPermKey) then server_effective (db_of w) u p
    else effective (db_of w) u c p.

Context `{!PermissionLaws} `{!StoreLaws U W} `{!CacheLaws U W}.
Implicit Types w : W.

Lemma is_admin_spec d (u : U) base :
  (∀ i, Z.testbit base i = base_bit d u i) →
  perm_Has base ManageServer = true ∨ db_owner d = Some u ↔ is_admin d u.
Proof.
  intros Hb. unfold is_admin. rewrite perm_Has_bits. setoid_rewrite Hb. tauto.
Qed.

Lemma AllPermissions_in_int64 : in_int64 AllPermissions.
Proof. pose proof AllPermissions_nonneg. unfold in_int64, int64_min, int64_max. lia. Qed.

Definition base_ok (d : permdb U) (u : U) (br : baseResult (U := U)) : Prop :=
  (is_admin d u ∧ br = mkBase AllPermissions ∅ true) ∨
  (¬ is_admin d u ∧ br_admin br = false ∧ br_roleIDs br = held_roles d u ∧
   (∀ i, Z.testbit (br_perm br) i = base_bit d u i) ∧
   (db_wf d → in_int64 (br_perm br))).

Lemma basePermissions_spec u w r w' :
  basePermissions u w = (r, w') →
  unchanged w w' ∧ ∀ br, r = Ok br → base_ok (db_of w) u br.
Proof.
  unfold basePermissions, base_ok. intros E.
  apply bind_inv in E as [(b & w1 & E1 & E)|(e & E1 & ->)];
    apply wrap_inv in E1 as (r1 & E1 & Hr1); apply store_IsOwner_spec in E1 as (Hu1 & Hb);
    [|by split].
  unwrap_res Hr1. specialize (Hb _ eq_refl).
  destruct b.
  { go_inv. split; [done|]. intros br [= <-]. left. split; [|done]. left.
    by apply eq_sym, bool_decide_eq_true in Hb. }
  apply bind_inv in E as [(es & w2 & E2 & E)|(e & E2 & ->)];
    apply wrap_inv in E2 as (r2 & E2 & Hr2);
    apply store_RolePermissions_spec in E2 as (Hu2 & Hes); [|split; [by etrans|done]].
  unwrap_res Hr2. specialize (Hes _ eq_refl). rewrite (proj1 Hu1) in Hes. subst es.
  assert (Hf := λ i, base_fold (db_roles (db_of w) u) i 0 ∅).
  destruct (foldl _ _ _) as [base ids].
  assert (Hbits : ∀ i, Z.testbit base i = base_bit (db_of w) u i).
  { intros i. destruct (Hf i) as (-> & _). by rewrite Z.bits_0. }
  destruct (Hf 0) as (_ & -> & Hwf). clear Hf.
  apply eq_sym, bool_decide_eq_false in Hb.
  pose proof (is_admin_spec (db_of w) u base Hbits) as Hadm.
  destruct (perm_Has base ManageServer); go_inv;
    (split; [by etrans|]); intros br [= <-]; [left; tauto|right]; simpl.
  split_and!; [naive_solver|done|by rewrite (right_id_L ∅ (∪))|done|].
  intros [Hwf' _]. apply Hwf; [done|apply Hwf'].
Qed.

(** One level of overrides read from the store and applied. *)
Lemma level_spec ctx t k base roles u w r w' :
  (l ← wrap ctx (store_Overrides t k); mret (applyOverrides base l roles u)) w = (r, w') →
  unchanged w w' ∧
  ∀ p, r = Ok p →
    (∀ i, Z.testbit p i = override_bit (db_over (db_of w) t k) roles u i (Z.testbit base i)) ∧
    (db_wf (db_of w) → in_int64 base → in_int64 p).
Proof.
  intros E. apply bind_inv in E as [(l & w1 & E1 & E)|(e & E1 & ->)];
    apply wrap_inv in E1 as (r1 & E1 & Hr1);
    apply store_Overrides_spec in E1 as (Hu1 & Hl); go_inv; (split; [done|]); [|done].
  intros p [= <-]. rewrite (Hl _ eq_refl). split.
  - intros i. apply applyOverrides_testbit.
  - intros [_ Hwf] Hb. by apply applyOverrides_in_int64.
Qed.

Lemma channelOverrides_spec base u c w r w' :
  channelOverrides base (held_roles (db_of w) u) u c w = (r, w') →
  (∀ i, Z.testbit base i = base_bit (db_of w) u i) →
  unchanged w w' ∧
  ∀ p, r = Ok p →
    (∃ cat, db_chan (db_of w) c = Some cat ∧
            ∀ i, Z.testbit p i = spec_bit (db_of w) u c cat i) ∧
    (db_wf (db_of w) → in_int64 base → in_int64 p).
Proof.
  unfold channelOverrides. intros E Hbase.
  apply bind_inv in E as [(ci & w1 & E1 & E)|(e & E1 & ->)];
    apply wrap_inv in E1 as (r1 & E1 & Hr1);
    apply store_ChannelInfo_spec in E1 as (Hu1 & Hci);
    [unwrap_res Hr1; specialize (Hci _ eq_refl)|by split].
  apply bind_inv in E as [(b2 & w2 & E2 & E)|(e & E2 & ->)].
  - assert (unchanged w w2 ∧
            (∀ i, Z.testbit b2 i =
              match CategoryID ci with
              | Some k => override_bit (db_over (db_of w) TargetCategory k)
                            (held_roles (db_of w) u) u i (base_bit (db_of w) u i)
              | None => base_bit (db_of w) u i
              end) ∧ (db_wf (db_of w) → in_int64 base → in_int64 b2)) as (Hu2 & Hb2 & Hw2).
    { destruct (CategoryID ci) as [k|]; [|by go_inv].
      apply level_spec in E2 as (Hu2 & E2). destruct (E2 _ eq_refl) as [Hb Hw].
      rewrite (proj1 Hu1) in *. split; [by etrans|]. split; [|done].
      intros i. by rewrite Hb, Hbase. }
    apply level_spec in E as (Hu3 & E). rewrite (proj1 Hu2) in *.
    split; [by etrans|]. intros p ->. destruct (E _ eq_refl) as [Hb3 Hw3].
    split; [|by auto]. exists (CategoryID ci). split; [done|]. intros i.
    by rewrite Hb3, Hb2.
  - split; [|done]. destruct (CategoryID ci) as [k|]; [|by go_inv].
    apply level_spec in E2 as (Hu2 & _). by etrans.
Qed.

(** [compute] reads only, and what it returns is the specified permission set. *)
Lemma compute_spec u c w r w' :
  compute u c w = (r, w') →
  unchanged w w' ∧
  ∀ p, r = Ok p → effective (db_of w) u c p ∧ (db_wf (db_of w) → in_int64 p).
Proof.
  unfold compute. intros E.
  apply bind_inv in E as [(br & w1 & E1 & E)|(e & E1 & ->)];
    apply basePermissions_spec in E1 as (Hu1 & Hbr); [|by split].
  destruct (Hbr _ eq_refl) as [[Hadm ->]|(Hadm & Ha & Hr & Hbits & Hwf)].
  - simpl in E. go_inv. split; [done|]. intros p [= <-]. split; [by left|].
    intros _. apply AllPermissions_in_int64.
  - rewrite Ha, Hr in E. rewrite <-(proj1 Hu1) in E, Hbits.
    apply channelOverrides_spec in E as (Hu2 & Hp); [|done]. rewrite (proj1 Hu1) in *.
    split; [by etrans|]. intros p ->. destruct (Hp _ eq_refl) as [Hs Hw].
    split; [by right|]. auto.
Qed.

(** The answers of a bulk operation: one per id, in order, each from a permission set
    that satisfies [P]. *)
Definition answers (P : U → Z → Prop) (perm : Z) (ids : list U) (bs : list bool) : Prop :=
  Forall2 (λ id b, ∃ p, P id p ∧ b = perm_Has p perm) ids bs.

Definition collected (P : U → Z → Prop) (ids : list U) (tc0 tc : gmap U Z) : Prop :=
  ∀ id p, tc !! id = Some p → tc0 !! id = Some p ∨ (id ∈ ids ∧ P id p ∧ in_int64 p).

(** One iteration. *)
Lemma filter_step_spec cached miss perm (P : U → Z → Prop) (I : W → Prop) id :
  (∀ p, cached !! id = Some p → P id p) →
  (∀ w r w', miss id w = (r, w') → I w → I w' ∧ ∀ p, r = Ok p → P id p ∧ in_int64 p) →
  ∀ res0 tc0 w r w',
    filter_step cached miss perm (res0, tc0) id w = (r, w') → I w →
    I w' ∧ ∀ acc, r = Ok acc →
      ∃ p, P id p ∧ acc.1 = res0 ++ [perm_Has p perm] ∧ collected P [id] tc0 acc.2.
Proof.
  intros Hcached Hmiss res0 tc0 w r w' E HI. unfold filter_step, collected in *.
  destruct (cached !! id) as [p|].
  - go_inv. split; [done|]. intros ? [= <-]. exists p. simpl. auto.
  - apply bind_inv in E as [(p & w1 & E1 & E)|(e & E1 & ->)];
      apply Hmiss in E1 as [HI1 Hp]; try done. go_inv. split; [done|].
    intros ? [= <-]. destruct (Hp _ eq_refl). exists p. simpl. split_and!; [done..|].
    intros k q [[<- <-]|[? ?]]%lookup_insert_Some; set_solver.
Qed.

Lemma filter_loop cached miss perm (P : U → Z → Prop) (I : W → Prop) ids :
  (∀ id p, id ∈ ids → cached !! id = Some p → P id p) →
  (∀ id w r w', id ∈ ids → miss id w = (r, w') → I w →
     I w' ∧ ∀ p, r = Ok p → P id p ∧ in_int64 p) →
  ∀ res0 tc0 w r w',
    foldM (filter_step cached miss perm) ids (res0, tc0) w = (r, w') → I w →
    I w' ∧ ∀ res tc, r = Ok (res, tc) →
      ∃ bs, res = res0 ++ bs ∧ answers P perm ids bs ∧ collected P ids tc0 tc.
Proof.
  induction ids as [|id ids IH]; intros Hcached Hmiss res0 tc0 w r w' E HI.
  { simpl in E. go_inv. split; [done|]. intros res tc [= <- <-].
    exists []. rewrite app_nil_r. split_and!; [done|constructor|by left]. }
  assert (Hm : ∀ w r w', miss id w = (r, w') → I w →
            I w' ∧ ∀ p, r = Ok p → P id p ∧ in_int64 p)
    by (intros; eapply Hmiss; eauto; set_solver).
  pose proof (filter_step_spec cached miss perm P I id
    (λ p, Hcached id p (list_elem_of_here id ids)) Hm) as Hstep.
  specialize (IH (λ k p Hin, Hcached k p (list_elem_of_further k id ids Hin))
                 (λ k w r w' Hin, Hmiss k w r w' (list_elem_of_further k id ids Hin))).
  cbn [foldM] in E. apply bind_inv in E as [([res1 tc1] & w1 & E1 & E)|(e & E1 & ->)];
    apply Hstep in E1 as [HI1 Hacc]; try done.
  destruct (Hacc _ eq_refl) as (p & Hp & ? & Hc1); simplify_eq/=.
  apply IH in E as [HI2 Hr]; [|done].
  split; [done|]. intros res tc ->. destruct (Hr _ _ eq_refl) as (bs & -> & Hbs & Htc).
  exists (perm_Has p perm :: bs). rewrite <-app_assoc. split_and!; [done|constructor; eauto|].
  intros k q Hk. destruct (Htc k q Hk) as [Hk'|(? & ? & ?)]; [|set_solver].
  destruct (Hc1 k q Hk') as [?|(? & ? & ?)]; set_solver.
Qed.

(** Writing effective permissions back keeps the cache coherent, whichever of the writes
    happened. *)
Lemma coherent_writes w w' :
  coherent w → db_of w' = db_of w →
  (∀ k, cache_of w' k = cache_of w k ∨
        ∃ u c p, k = (u, c) ∧ c ≠ serverPermKey ∧ effective (db_of w) u c p ∧
                 cache_of w' k = Some p) →
  coherent w'.
Proof.
  intros Hco Hd Hw u c p Hl. rewrite Hd.
  destruct (Hw (u, c)) as [Hk|(u' & c' & p' & [= <- <-] & Hc & Hp & Hk)].
  - rewrite Hk in Hl. by apply Hco.
  - rewrite Hk in Hl. simplify_eq. by rewrite decide_False.
Qed.

Lemma coherent_unchanged w w' : coherent w → unchanged w w' → coherent w'.
Proof. intros Hco [Hd Hc] u c p. rewrite Hd, Hc. apply Hco. Qed.


(** The loop and the bulk write shared by the two bulk operations. *)
Lemma filter_tail w0 cached miss perm (P : U → Z → Prop) (write : gmap U Z → M W unit)
    ids w r w' :
  coherent w0 → unchanged w0 w →
  (∀ id p, id ∈ ids → cached !! id = Some p → P id p) →
  (∀ id w r w', id ∈ ids → miss id w = (r, w') → unchanged w0 w →
     unchanged w0 w' ∧ ∀ p, r = Ok p → P id p ∧ in_int64 p) →
  (∀ tc w (r : res unit) w', unchanged w0 w → collected P ids ∅ tc → write tc w = (r, w') →
     db_of w' = db_of w0 ∧ coherent w') →
  (r ← foldM (filter_step cached miss perm) ids ([], ∅);
   (if bool_decide (r.2 = ∅) then mret tt else best_effort (write r.2)) ;;
   mret r.1) w = (r, w') →
  db_of w' = db_of w0 ∧ coherent w' ∧ ∀ l, r = Ok l → answers P perm ids l.
Proof.
  intros Hco Hu Hcached Hmiss Hwrite E.
  apply bind_inv in E as [([res tc] & w3 & E3 & E)|(e & E3 & ->)];
    eapply (filter_loop _ _ _ P (unchanged w0)) in E3 as [Hu3 Hr]; try done.
  2: { split_and!; [apply Hu3|by eapply coherent_unchanged|done]. }
  destruct (Hr _ _ eq_refl) as (bs & -> & Hbs & Htc). simpl in E.
  case_bool_decide; go_inv.
  - split_and!; [apply Hu3|by eapply coherent_unchanged|by intros ? [= <-]].
  - match goal with Hs : write _ _ = _ |- _ => apply Hwrite in Hs as [? ?] end; try done.
    split_and!; [done..|by intros ? [= <-]].
Qed.

Lemma channel_filter_tail w0 u cached miss perm cs w r w' :
  coherent w0 → serverPermKey ∉ cs → unchanged w0 w →
  (∀ c p, c ∈ cs → cached !! c = Some p → effective (db_of w0) u c p) →
  (∀ c w r w', c ∈ cs → miss c w = (r, w') → unchanged w0 w →
     unchanged w0 w' ∧ ∀ p, r = Ok p → effective (db_of w0) u c p ∧ in_int64 p) →
  (r ← foldM (filter_step cached miss perm) cs ([], ∅);
   (if bool_decide (r.2 = ∅) then mret tt else best_effort (cache_SetMany u r.2)) ;;
   mret r.1) w = (r, w') →
  db_of w' = db_of w0 ∧ coherent w' ∧ ∀ l, r = Ok l → answers (effective (db_of w0) u) perm cs l.
Proof.
  intros Hco Hcs Hu Hcached Hmiss. apply filter_tail; try done.
  intros tc w1 r1 w1' [Hd Hc] Htc E. apply cache_SetMany_spec in E as (Hd1 & Hw & _).
  - split; [congruence|]. apply (coherent_writes w0); [done|congruence|].
    intros k. rewrite <-Hc. destruct (Hw k) as [?|(c & p & -> & Hp & ?)]; [by left|right].
    destruct (Htc _ _ Hp) as [?|(? & ? & _)]; [done|]. exists u, c, p. set_solver.
  - intros c p Hp. by destruct (Htc _ _ Hp) as [?|(_ & _ & ?)].
Qed.

Lemma user_filter_tail w0 c cached miss perm us w r w' :
  coherent w0 → c ≠ serverPermKey → unchanged w0 w →
  (∀ u p, u ∈ us → cached !! u = Some p → effective (db_of w0) u c p) →
  (∀ u w r w', u ∈ us → miss u w = (r, w') → unchanged w0 w →
     unchanged w0 w' ∧ ∀ p, r = Ok p → effective (db_of w0) u c p ∧ in_int64 p) →
  (r ← foldM (filter_step cached miss perm) us ([], ∅);
   (if bool_decide (r.2 = ∅) then mret tt else best_effort (cache_SetManyUsers c r.2)) ;;
   mret r.1) w = (r, w') →
  db_of w' = db_of w0 ∧ coherent w' ∧
  ∀ l, r = Ok l → answers (λ u, effective (db_of w0) u c) perm us l.
Proof.
  intros Hco Hcs Hu Hcached Hmiss.
  apply (filter_tail w0 _ _ _ (λ u, effective (db_of w0) u c)); try done.
  intros tc w1 r1 w1' [Hd Hc] Htc E. apply cache_SetManyUsers_spec in E as (Hd1 & Hw & _).
  - split; [congruence|]. apply (coherent_writes w0); [done|congruence|].
    intros k. rewrite <-Hc. destruct (Hw k) as [?|(u & p & -> & Hp & ?)]; [by left|right].
    destruct (Htc _ _ Hp) as [?|(? & ? & _)]; [done|]. exists u, c, p. set_solver.
  - intros u p Hp. by destruct (Htc _ _ Hp) as [?|(_ & _ & ?)].
Qed.
End correctness.

(** The properties of the resolver. *)
Section properties.
Context {U W : Type} `{UUIDLib U} `{PermissionLib}.
Context `{!Store U W} `{!Cache U W} `{!PermWorld U W}.
Context `{!PermissionLaws} `{!StoreLaws U W} `{!CacheLaws U W}.
Implicit Types w : W.

(** What a call of the resolver does to the cache, coherent or not, and where its answer comes
    from: the cache, or the database. *)
Lemma Resolve_effect u c w r w' :
  db_wf (db_of w) → Resolve u c w = (r, w') →
  db_of w' = db_of w ∧
  (∀ k, cache_of w' k = cache_of w k ∨
        ∃ p, k = (u, c) ∧ effective (db_of w) u c p ∧ cache_of w' k = Some p) ∧
  ∀ p, r = Ok p → cache_of w (u, c) = Some p ∨ effective (db_of w) u c p.
Proof.
  intros Hwf E. unfold Resolve in E.
  apply bind_inv in E as [(cached & w1 & E1 & E)|(e & E1 & ->)]; [|by go_inv].
  apply try_inv in E1 as (g & [= ->] & E1).
  apply cache_Get_spec in E1 as (Hu1 & Hg).
  destruct g as [[p|]|e].
  { go_inv. split_and!; [apply Hu1|left; apply Hu1|]. intros ? [= <-]. left. by rewrite (Hg _ eq_refl). }
  all: apply bind_inv in E as [(p & w2 & E2 & E)|(e2 & E2 & ->)];
    apply compute_spec in E2 as (Hu2 & Hp); pose proof (transitivity Hu1 Hu2) as Hu;
    [|split_and!; [apply Hu|left; apply Hu|done]].
  all: destruct (Hp _ eq_refl) as [Heff Hrange]; rewrite (proj1 Hu1) in Heff, Hrange.
  all: go_inv; match goal with Hs : cache_Set _ _ _ _ = _ |- _ =>
         apply cache_Set_spec in Hs as (Hd3 & Hw3 & _); [|by auto] end.
  all: rewrite (proj1 Hu) in Hd3; split_and!; [done| |by intros ? [= <-]; right].
  all: intros k; rewrite <-(proj2 Hu k); destruct (Hw3 k) as [?|[-> ?]]; [by left|right; by exists p].
Qed.
Lemma Resolve_spec u c w r w' :
  db_wf (db_of w) → coherent w → c ≠ serverPermKey →
  Resolve u c w = (r, w') →
  db_of w' = db_of w ∧ coherent w' ∧ ∀ p, r = Ok p → effective (db_of w) u c p.
Proof.
  intros Hwf Hco Hc E. destruct (Resolve_effect _ _ _ _ _ Hwf E) as (Hd & Hw & Hr). split_and!; [done|..].
  - apply (coherent_writes w); [done..|]. intros k. destruct (Hw k) as [?|(p & -> & ? & ?)]; [by left|right].
    by exists u, c, p.
  - intros p Hp. destruct (Hr p Hp) as [Hl%Hco|?]; [|done]. by rewrite decide_False in Hl.
Qed.

(** *** Answers from a cache that may be stale

    Under the nil id the cache keeps the server permissions, so that is what a resolution there
    may answer with as well: no channel has this id. *)
Definition resolved_at (d : permdb U) u c p : Prop :=
  effective d u c p ∨ (c = serverPermKey ∧ server_effective d u p).
(** What the resolver answers with: the live entry of the cache or what the database says. *)
Definition answer_at w u c p : Prop := cache_of w (u, c) = Some p ∨ resolved_at (db_of w) u c p.
(** The permission, in an answer that is the database's when the cache agrees with it. *)
Definition allowed_at w u c perm : Prop :=
  ∃ p, answer_at w u c p ∧ (coherent w → resolved_at (db_of w) u c p) ∧ perm_Has p perm = true.
Definition allowed_on w u perm : Prop :=
  ∃ p, (cache_of w (u, serverPermKey) = Some p ∨ server_effective (db_of w) u p) ∧
    (coherent w → server_effective (db_of w) u p) ∧ perm_Has p perm = true.

Lemma coherent_resolved w u c p : coherent w → answer_at w u c p → resolved_at (db_of w) u c p.
Proof.
  intros Hco [Hl%Hco|?]; [|done]. destruct (decide (c = serverPermKey)) as [->|?]; [by right|by left].
Qed.
Lemma answer_allowed w u c p perm : answer_at w u c p → perm_Has p perm = true → allowed_at w u c perm.
Proof. intros Ha Hp. exists p. split_and!; [done| |done]. intros Hco. by apply coherent_resolved. Qed.
Lemma server_answer_allowed w u p perm :
  cache_of w (u, serverPermKey) = Some p ∨ server_effective (db_of w) u p → perm_Has p perm = true →
  allowed_on w u perm.
Proof.
  intros Ha Hp. exists p. split_and!; [done| |done]. intros Hco. destruct Ha as [Hl%Hco|?]; [|done].
  by rewrite decide_True in Hl.
Qed.

(** A later world of the same request: the database is the same, and what the cache has gained
    since is right. *)
Definition trusts w0 w : Prop :=
  db_of w = db_of w0 ∧ ∀ u c p, cache_of w (u, c) = Some p → answer_at w0 u c p.
Lemma trusts_refl w : trusts w w.
Proof. split; [done|]. intros u c p Hl. by left. Qed.
Lemma trusts_writes w0 w w' :
  trusts w0 w → db_of w' = db_of w →
  (∀ k, cache_of w' k = cache_of w k ∨
        ∃ u c p, k = (u, c) ∧ resolved_at (db_of w) u c p ∧ cache_of w' k = Some p) →
  trusts w0 w'.
Proof.
  intros [Hd Ht] Hd' Hw. split; [congruence|]. intros u c p Hl.
  destruct (Hw (u, c)) as [Hk|(u' & c' & p' & [= <- <-] & Hr & Hk)]; rewrite Hk in Hl; [by apply Ht|].
  simplify_eq. right. by rewrite <-Hd.
Qed.
Lemma trusts_unchanged w0 w w' : trusts w0 w → unchanged w w' → trusts w0 w'.
Proof. intros Ht [Hd Hc]. apply (trusts_writes w0 w); [done..|]. intros k. by left. Qed.
Lemma Resolve_trusts w0 u c w r w' :
  db_wf (db_of w0) → trusts w0 w → Resolve u c w = (r, w') →
  trusts w0 w' ∧ ∀ p, r = Ok p → answer_at w0 u c p.
Proof.
  intros Hwf Ht E. pose proof Ht as [Hd0 Hl0]. rewrite <-Hd0 in Hwf.
  destruct (Resolve_effect _ _ _ _ _ Hwf E) as (Hd & Hw & Hr). split.
  - apply (trusts_writes w0 w); [done..|]. intros k. destruct (Hw k) as [?|(p & -> & ? & ?)]; [by left|right].
    exists u, c, p. split_and!; [done|by left|done].
  - intros p Hp. destruct (Hr p Hp) as [?|He]; [by apply Hl0|]. right. left. by rewrite <-Hd0.
Qed.

(** C1: Reading permissions through the cache is correct whatever fails: from a coherent
    cache, [Resolve] of a channel returns exactly the permissions the database gives the
    user there (owner and ManageServer bypass, role union, category then channel
    overrides with deny over allow and the user's override on top), it leaves the
    database alone, and the cache it leaves is coherent again, also when a cache read or
    write fails half way. *)
Theorem Resolve_correct u c w r w' :
  db_wf (db_of w) → coherent w → c ≠ serverPermKey →
  Resolve u c w = (r, w') →
  db_of w' = db_of w ∧ coherent w' ∧ ∀ p, r = Ok p → effective (db_of w) u c p.
Proof. apply Resolve_spec. Qed.

(** Bulk filtering over channels answers each channel as the single check would. *)
Lemma FilterPermitted_spec u cs perm w r w' :
  db_wf (db_of w) → coherent w → serverPermKey ∉ cs →
  perm_Has AllPermissions perm = true →
  FilterPermitted u cs perm w = (r, w') →
  db_of w' = db_of w ∧ coherent w' ∧
  ∀ l, r = Ok l → answers (effective (db_of w) u) perm cs l.
Proof.
  intros Hwf Hco Hcs Hperm E. unfold FilterPermitted in E.
  apply bind_inv in E as [(br & w1 & E1 & E)|(e & E1 & ->)];
    apply basePermissions_spec in E1 as (Hu1 & Hbr);
    [|split_and!; [apply Hu1|by eapply coherent_unchanged|done]].
  destruct (Hbr _ eq_refl) as [[Hadm ->]|(Hadm & Ha & Hr & Hbits & Hrange)].
  { simpl in E. go_inv. split_and!; [apply Hu1|by eapply coherent_unchanged|].
    intros l [= <-]. apply Forall2_replicate_r; [done|]. apply Forall_forall. intros c _.
    exists AllPermissions. split; [by left|done]. }
  rewrite Ha, Hr in E.
  apply bind_inv in E as [(cached & w2 & E2 & E)|(e & E2 & ->)]; [|by go_inv].
  apply try_inv in E2 as (g & [= ->] & E2).
  apply cache_GetMany_spec in E2 as (Hu0 & Hg).
  pose proof (transitivity Hu1 Hu0) as Hu2.
  eapply (channel_filter_tail w); try done.
  - intros c p Hin Hcp. destruct g as [m|]; [|done].
    pose proof (Hg _ _ _ eq_refl Hcp) as Hl. rewrite (proj2 Hu1) in Hl.
    apply Hco in Hl. rewrite decide_False in Hl; [done|set_solver].
  - intros c w3 r3 w4 Hin E3 Hu3. destruct (Hu3) as [Hd3 _]. rewrite <-Hd3 in E3, Hbits.
    apply channelOverrides_spec in E3 as (Hu4 & Hp); [|done].
    split; [by etrans|]. intros p ->. destruct (Hp _ eq_refl) as [Hs Hw].
    rewrite Hd3 in *. split; [by right|auto].
Qed.

(** Bulk filtering over channels answers each channel as the single check would:
    the i-th answer says whether the permissions the database gives the user in the i-th
    channel contain the requested one; the order and the length are those of the request,
    and the cache stays coherent. *)
Lemma FilterPermitted_correct u cs perm w r w' :
  db_wf (db_of w) → coherent w → serverPermKey ∉ cs →
  perm_Has AllPermissions perm = true →
  FilterPermitted u cs perm w = (r, w') →
  db_of w' = db_of w ∧ coherent w' ∧
  ∀ l, r = Ok l → answers (effective (db_of w) u) perm cs l.
Proof. apply FilterPermitted_spec. Qed.

(** Bulk filtering over users: the i-th answer is about the i-th user's permissions in
    the channel, and the cache stays coherent. *)
Lemma FilterUsersPermitted_spec us c perm w r w' :
  db_wf (db_of w) → coherent w → c ≠ serverPermKey →
  FilterUsersPermitted us c perm w = (r, w') →
  db_of w' = db_of w ∧ coherent w' ∧
  ∀ l, r = Ok l → answers (λ u, effective (db_of w) u c) perm us l.
Proof.
  intros Hwf Hco Hc E. unfold FilterUsersPermitted in E.
  apply bind_inv in E as [(cached & w2 & E2 & E)|(e & E2 & ->)]; [|by go_inv].
  apply try_inv in E2 as (g & [= ->] & E2).
  apply cache_GetManyUsers_spec in E2 as (Hu2 & Hg).
  eapply (user_filter_tail w); try done.
  - intros u p Hin Hp. destruct g as [m|]; [|done].
    pose proof (Hg _ _ _ eq_refl Hp) as Hl. apply Hco in Hl. by rewrite decide_False in Hl.
  - intros u w3 r3 w4 _ E3 Hu3. pose proof Hu3 as [Hd3 _].
    apply compute_spec in E3 as (Hu4 & Hp). split; [by etrans|].
    intros p ->. destruct (Hp _ eq_refl) as [Hs Hw]. rewrite Hd3 in *. auto.
Qed.

(** Server-level permissions: owner and ManageServer get everything, everybody else
    the union of their roles; cached under the reserved nil id, which never mixes with the
    entries of a channel. *)
Lemma ResolveServer_effect u w r w' :
  db_wf (db_of w) → ResolveServer u w = (r, w') →
  db_of w' = db_of w ∧
  (∀ k, cache_of w' k = cache_of w k ∨
        ∃ p, k = (u, serverPermKey) ∧ server_effective (db_of w) u p ∧ cache_of w' k = Some p) ∧
  ∀ p, r = Ok p → cache_of w (u, serverPermKey) = Some p ∨ server_effective (db_of w) u p.
Proof.
  intros Hwf E. unfold ResolveServer in E.
  apply bind_inv in E as [(cached & w1 & E1 & E)|(e & E1 & ->)]; [|by go_inv].
  apply try_inv in E1 as (g & [= ->] & E1).
  apply cache_Get_spec in E1 as (Hu1 & Hg).
  destruct g as [[p|]|e].
  { go_inv. split_and!; [apply Hu1|left; apply Hu1|]. intros ? [= <-]. left. by rewrite (Hg _ eq_refl). }
  all: apply bind_inv in E as [(br & w2 & E2 & E)|(e2 & E2 & ->)];
    apply basePermissions_spec in E2 as (Hu2 & Hbr); pose proof (transitivity Hu1 Hu2) as Hu;
    [|split_and!; [apply Hu|left; apply Hu|done]].
  all: specialize (Hbr _ eq_refl); rewrite (proj1 Hu1) in Hbr.
  all: assert (Heff : server_effective (db_of w) u (br_perm br) ∧ in_int64 (br_perm br))
    by (destruct Hbr as [[? ->]|(? & _ & _ & ? & ?)];
        [split; [by left|apply AllPermissions_in_int64]|split; [by right|auto]]).
  all: destruct Heff as [Heff Hrange].
  all: go_inv; match goal with Hs : cache_Set _ _ _ _ = _ |- _ =>
         apply cache_Set_spec in Hs as (Hd3 & Hw3 & _); [|done] end.
  all: rewrite (proj1 Hu) in Hd3; split_and!; [done| |by intros ? [= <-]; right].
  all: intros k; rewrite <-(proj2 Hu k); destruct (Hw3 k) as [?|[-> ?]]; [by left|right; by eexists].
Qed.
Lemma ResolveServer_spec u w r w' :
  db_wf (db_of w) → coherent w →
  ResolveServer u w = (r, w') →
  db_of w' = db_of w ∧ coherent w' ∧ ∀ p, r = Ok p → server_effective (db_of w) u p.
Proof.
  intros Hwf Hco E. destruct (ResolveServer_effect _ _ _ _ Hwf E) as (Hd & Hw & Hr). split_and!; [done|..].
  - intros u' c' p' Hl. rewrite Hd. destruct (Hw (u', c')) as [Hk|(p & [= -> ->] & ? & Hk)]; rewrite Hk in Hl;
      [by apply Hco|]. simplify_eq. by rewrite decide_True.
  - intros p Hp. destruct (Hr p Hp) as [Hl%Hco|?]; [|done]. by rewrite decide_True in Hl.
Qed.
Lemma ResolveServer_trusts w0 u w r w' :
  db_wf (db_of w0) → trusts w0 w → ResolveServer u w = (r, w') →
  trusts w0 w' ∧ ∀ p, r = Ok p → answer_at w0 u serverPermKey p.
Proof.
  intros Hwf Ht E. pose proof Ht as [Hd0 Hl0]. rewrite <-Hd0 in Hwf.
  destruct (ResolveServer_effect _ _ _ _ Hwf E) as (Hd & Hw & Hr). split.
  - apply (trusts_writes w0 w); [done..|]. intros k. destruct (Hw k) as [?|(p & -> & ? & ?)]; [by left|right].
    exists u, serverPermKey, p. split_and!; [done|by right|done].
  - intros p Hp. destruct (Hr p Hp) as [?|He]; [by apply Hl0|]. right. right. split; [done|]. by rewrite <-Hd0.
Qed.

(** What a store read reports when it fails, anywhere. *)
Definition store_error (e : error) : Prop :=
  ∃ w w', (∃ u, store_IsOwner u w = (Err e, w')) ∨
          (∃ u, store_RolePermissions u w = (Err e, w')) ∨
          (∃ c, store_ChannelInfo c w = (Err e, w')) ∨
          (∃ t c, store_Overrides t c w = (Err e, w')).

(** The cache is best effort: whatever the cache does, [Resolve] fails only when a
    read of the store failed, and then with that error wrapped once. *)
Lemma Resolve_error u c w e w' :
  Resolve u c w = (Err e, w') → ∃ ctx cause, e = Wrap ctx cause ∧ store_error cause.
Proof.
  intros E. unfold Resolve in E. unfold store_error.
  apply bind_inv in E as [(cached & w1 & E1 & E)|(e' & E1 & _)]; [|by go_inv].
  assert (Hc : ∃ w2, compute u c w1 = (Err e, w2)).
  { apply try_inv in E1 as (g & [= ->] & _). destruct g as [[p|]|e1]; [by go_inv|..];
      apply bind_inv in E as [(p & w2 & E2 & E)|(e2 & E2 & [= ->])]; [|eauto| |eauto];
      apply bind_inv in E as [(? & w3 & E3 & E)|(? & E3 & _)]; by go_inv. }
  destruct Hc as [w2 E2]. clear E E1. unfold compute, basePermissions, channelOverrides in E2.
  repeat match goal with
    | H : (_ ≫= _) _ = (Err _, _) |- _ => apply bind_inv in H as [(? & ? & ? & H)|(? & H & [= ->])]
    | H : wrap _ _ _ = (Err _, _) |- _ => apply wrap_inv in H as ([?|?] & H & [= ->]); eauto 15
    | H : (if ?b then _ else _) _ = (Err _, _) |- _ => destruct b
    | H : match ?o with _ => _ end _ = (Err _, _) |- _ => destruct o
    | H : (let '(_, _) := ?x in _) _ = (Err _, _) |- _ => destruct x
    | H : mret _ _ = (Err _, _) |- _ => by go_inv
    end.
Qed.
End properties.
