(* ===== verification/PermCache.v ===== *)
(** * The permission cache in Valkey: internal/permission/cache.go

    [ValkeyCache] over the typed client calls, as an instance of the [Cache] interface of
    Permission.v.  The refinement theorem shows that it keeps the promises [CacheLaws] the
    resolver is proved against; the deletion theorems show which entries an invalidation
    removes.  The SCAN loop gets one unit of fuel per call the server can still make
    ([vk_rank]), which is proved enough. *)
From S2P Require Import Prelude GoStd Platform Permission.
Open Scope Z_scope.

Definition CacheTTL : Z := 300 * Second.
Definition CachePrefix : string := "perms".
Definition InvalidateChannelName : string := "uncord.cache.invalidate".
Definition scanBatchSize : Z := 100.

Section cache.
Context {U W : Type} `{UUIDLib U} `{Valkey W}.

Definition cacheKey (userID channelID : U) : string :=
  CachePrefix +:+ ":" +:+ uuid_String userID +:+ ":" +:+ uuid_String channelID.

Definition Get (userID channelID : U) : M W (option Z) :=
  val ← try (rdb_Get (cacheKey userID channelID));
  match val with
  | Err e => if errors_Is e redis_Nil then mret None else fail (Wrap "cache get" e)
  | Ok val =>
      n ← wrap "parse cached permission" (of_res (ParseInt val));
      mret (Some n)
  end.

Definition Set_ (userID channelID : U) (perm : Z) : M W unit :=
  wrap "cache set" (rdb_Set (cacheKey userID channelID) (FormatInt perm) CacheTTL).

(** One element of the MGET reply: nil and corrupt values are skipped. *)
Definition collect_hit (result : gmap U Z) (idval : U * option string) : gmap U Z :=
  match idval.2 with
  | None => result
  | Some s => match ParseInt s with
              | Ok n => <[idval.1 := n]> result
              | Err _ => result
              end
  end.

Definition GetMany (userID : U) (channelIDs : list U) : M W (gmap U Z) :=
  match channelIDs with
  | [] => mret ∅
  | _ =>
      vals ← wrap "cache mget" (rdb_MGet (cacheKey userID <$> channelIDs));
      mret (foldl collect_hit ∅ (zip channelIDs vals))
  end.

Definition SetMany (userID : U) (perms : gmap U Z) : M W unit :=
  if bool_decide (perms = ∅) then mret tt else
  wrap "cache pipeline set"
    (pipe_Exec ((λ '(chID, perm), SET (cacheKey userID chID) (FormatInt perm) CacheTTL)
                  <$> map_to_list perms)).

Definition GetManyUsers (userIDs : list U) (channelID : U) : M W (gmap U Z) :=
  match userIDs with
  | [] => mret ∅
  | _ =>
      vals ← wrap "cache mget users" (rdb_MGet ((λ uid, cacheKey uid channelID) <$> userIDs));
      mret (foldl collect_hit ∅ (zip userIDs vals))
  end.

Definition SetManyUsers (channelID : U) (perms : gmap U Z) : M W unit :=
  if bool_decide (perms = ∅) then mret tt else
  wrap "cache pipeline set users"
    (pipe_Exec ((λ '(uid, perm), SET (cacheKey uid channelID) (FormatInt perm) CacheTTL)
                  <$> map_to_list perms)).

Definition out_of_fuel : error := Plain "out of fuel".

(** [if len(keys) > 0 { client.Del(keys...) }]. *)
Definition delete_batch (keys : list string) : M W unit :=
  match keys with
  | [] => mret tt
  | _ => _ ← wrap "delete keys" (rdb_Del keys); mret tt
  end.

(** The [for] loop of [scanAndDelete]: one SCAN, one DEL of what it returned, until the
    cursor comes back to 0. *)
Fixpoint scan_loop (fuel : nat) (pattern : string) (cursor : Z) : M W unit :=
  match fuel with
  | O => fail out_of_fuel
  | S fuel' =>
      r ← wrap ("scan keys " +:+ pattern) (vk_scan cursor pattern scanBatchSize);
      let '(keys, next) := r in
      delete_batch keys ;;
      if next =? 0 then mret tt else scan_loop fuel' pattern next
  end.

Definition scanAndDelete (pattern : string) : M W unit := λ w,
  scan_loop (S (vk_rank w 0)) pattern 0 w.

Definition DeleteByUser (userID : U) : M W unit :=
  scanAndDelete (CachePrefix +:+ ":" +:+ uuid_String userID +:+ ":*").
Definition DeleteByChannel (channelID : U) : M W unit :=
  scanAndDelete (CachePrefix +:+ ":*:" +:+ uuid_String channelID).
Definition DeleteExact (userID channelID : U) : M W unit :=
  _ ← rdb_Del [cacheKey userID channelID]; mret tt.
Definition DeleteAll : M W unit := scanAndDelete (CachePrefix +:+ ":*").

#[export] Instance ValkeyCache : Cache U W := {|
  cache_Get := Get; cache_Set := Set_; cache_GetMany := GetMany; cache_SetMany := SetMany;
  cache_GetManyUsers := GetManyUsers; cache_SetManyUsers := SetManyUsers;
  cache_DeleteByUser := DeleteByUser; cache_DeleteByChannel := DeleteByChannel;
  cache_DeleteExact := DeleteExact; cache_DeleteAll := DeleteAll;
|}.

(** What a cache key holds, as the readers decode it. *)
Definition decode_entry (v : option vval) : option Z :=
  match v with
  | Some (VStr s) => match ParseInt s with Ok n => Some n | Err _ => None end
  | _ => None
  end.
Definition cached_perm (w : W) (k : U * U) : option Z :=
  decode_entry (ks_lookup (vk_view w) (cacheKey k.1 k.2)).
End cache.

(** The database is another system: talking to Valkey does not change it. *)
Class DbFrame (U W : Type) `{Valkey W} : Type := {
  dbv : W → permdb U;
  dbv_exec : ∀ cs w r w', vk_exec cs w = (r, w') → dbv w' = dbv w;
}.

#[export] Instance valkey_PermWorld {U W} `{UUIDLib U} `{Valkey W} `{!DbFrame U W} :
  PermWorld U W := {| db_of := dbv; cache_of := cached_perm |}.

(** ** Keys *)
Section keys.
Context {U : Type} `{UUIDLaws U}.

Lemma cacheKey_bytes (u c : U) :
  bytes_of (cacheKey u c) =
  bytes_of "perms:" ++ bytes_of (uuid_String u) ++ bytes_of ":" ++ bytes_of (uuid_String c).
Proof. unfold cacheKey. by rewrite !bytes_of_app. Qed.

Lemma cacheKey_inj (u c u' c' : U) : cacheKey u c = cacheKey u' c' → u = u' ∧ c = c'.
Proof.
  intros E. assert (E' : bytes_of (cacheKey u c) = bytes_of (cacheKey u' c')) by congruence.
  rewrite !cacheKey_bytes in E'. apply app_inv_head in E'.
  apply app_inj_1 in E' as [E1 E2]; [|by rewrite !uuid_String_length].
  apply app_inv_head in E2. split; by apply uuid_String_inj, bytes_of_inj.
Qed.

Lemma uuid_no_star (u : U) : Forall (λ b, b ≠ 42) (bytes_of (uuid_String u)).
Proof.
  eapply Forall_impl; [apply uuid_String_chars|]. intros b Hb ->. done.
Qed.

Lemma user_pattern_iff (u : U) key :
  glob_match (CachePrefix +:+ ":" +:+ uuid_String u +:+ ":*") key = true ↔
  ∃ rest, bytes_of key = bytes_of "perms:" ++ bytes_of (uuid_String u) ++ bytes_of ":" ++ rest.
Proof.
  rewrite glob_match_iff, !bytes_of_app.
  replace (bytes_of ":*") with (bytes_of ":" ++ [42]) by done.
  replace (bytes_of CachePrefix ++ bytes_of ":" ++ bytes_of (uuid_String u) ++ bytes_of ":" ++ [42])
    with ((bytes_of "perms:" ++ bytes_of (uuid_String u) ++ bytes_of ":") ++ [42])
    by (rewrite <-!app_assoc; done).
  rewrite glob_matches_lit.
  2: { apply Forall_app; split; [by repeat constructor|]. apply Forall_app; split;
       [apply uuid_no_star|by repeat constructor]. }
  setoid_rewrite glob_matches_star. split.
  - intros (s' & -> & m & s & -> & Hs). inversion Hs; subst. exists m.
    by rewrite app_nil_r, <-!app_assoc.
  - intros (rest & ->). exists rest. rewrite <-!app_assoc. split; [done|].
    exists rest, []. rewrite app_nil_r. split; [done|constructor].
Qed.

Lemma channel_pattern_iff (c : U) key :
  glob_match (CachePrefix +:+ ":*:" +:+ uuid_String c) key = true ↔
  ∃ mid, bytes_of key = bytes_of "perms:" ++ mid ++ bytes_of ":" ++ bytes_of (uuid_String c).
Proof.
  rewrite glob_match_iff, !bytes_of_app.
  change (glob_matches (bytes_of "perms:" ++ 42 :: (bytes_of ":" ++ bytes_of (uuid_String c)))
            (bytes_of key) ↔
          ∃ mid, bytes_of key = bytes_of "perms:" ++ mid ++ bytes_of ":" ++ bytes_of (uuid_String c)).
  rewrite glob_matches_lit by (by repeat constructor).
  setoid_rewrite glob_matches_star. split.
  - intros (s' & -> & m & s & -> & Hs). exists m. repeat f_equal.
    rewrite <-(app_nil_r (bytes_of ":" ++ _)) in Hs. apply glob_matches_lit in Hs as (s1 & -> & Hs).
    + inversion Hs; subst. by rewrite app_nil_r.
    + apply Forall_app; split; [by repeat constructor|apply uuid_no_star].
  - intros (mid & ->). eexists. split; [done|]. eexists mid, _. split; [done|].
    rewrite <-(app_nil_r (bytes_of ":" ++ _)) at 1. apply glob_matches_lit.
    + apply Forall_app; split; [by repeat constructor|apply uuid_no_star].
    + exists []. rewrite app_nil_r. split; [done|constructor].
Qed.

Lemma user_pattern_cacheKey (u u' c' : U) :
  glob_match (CachePrefix +:+ ":" +:+ uuid_String u +:+ ":*") (cacheKey u' c') = true ↔ u' = u.
Proof.
  rewrite user_pattern_iff, cacheKey_bytes. split.
  - intros (rest & E). apply app_inv_head in E.
    apply app_inj_1 in E as [E _]; [|by rewrite !uuid_String_length].
    by apply uuid_String_inj, bytes_of_inj.
  - intros ->. eauto.
Qed.

Lemma channel_pattern_cacheKey (c u' c' : U) :
  glob_match (CachePrefix +:+ ":*:" +:+ uuid_String c) (cacheKey u' c') = true ↔ c' = c.
Proof.
  rewrite channel_pattern_iff, cacheKey_bytes. split.
  - intros (mid & E). apply app_inv_head in E. rewrite !app_assoc in E.
    apply app_inj_2 in E as [_ E]; [|by rewrite !uuid_String_length].
    by apply uuid_String_inj, bytes_of_inj.
  - intros ->. eauto.
Qed.
End keys.

(** ** Pipelines of SET *)
Section pipelines.
Context {K : Type} `{Countable K} (key : K → string) (ttl : Z).

Definition set_cmd : K * Z → command := λ '(id, perm), SET (key id) (FormatInt perm) ttl.

(** After any prefix of the pipeline a key holds what one of its commands wrote, or what
    it held before if none writes it. *)
Lemma run_set_cmds (l : list (K * Z)) k key' :
  let k' := (run_cmds (set_cmd <$> l) k).2 in
  (∃ id p, (id, p) ∈ l ∧ key' = key id ∧ ks_lookup k' key' = Some (VStr (FormatInt p))) ∨
  ((∀ id p, (id, p) ∈ l → key' ≠ key id) ∧ ks_lookup k' key' = ks_lookup k key').
Proof.
  revert k. induction l as [|[id p] l IH]; intros k; csimpl.
  { right. split; [set_solver|done]. }
  set (k1 := ks_upd _ k). specialize (IH k1). destruct (run_cmds (set_cmd <$> l) k1) as [rs k2].
  simpl in *. destruct IH as [(id' & p' & Hin & Hk & Hl)|[Hno Hl]].
  - left. exists id', p'. split_and!; [by apply list_elem_of_further|done|done].
  - rewrite Hl. unfold k1, ks_lookup, ks_upd; simpl.
    destruct (decide (key' = key id)) as [->|Hne].
    + left. exists id, p. rewrite lookup_insert_eq. split_and!; [apply list_elem_of_here|done|done].
    + right. rewrite lookup_insert_ne by done. split; [|done].
      intros id' p' [[= -> ->]|?]%elem_of_cons; eauto.
Qed.

Lemma fmap_take_cmds n (l : list (K * Z)) : take n (set_cmd <$> l) = set_cmd <$> take n l.
Proof. symmetry. apply fmap_take. Qed.
End pipelines.

(** ** The cache keeps the promises of its interface *)
Section refinement.
Context {U W : Type} `{UUIDLaws U} `{ValkeyLaws W} `{!DbFrame U W}.
Implicit Types w : W.

Lemma cached_perm_view w w' k : vk_view w' = vk_view w → cached_perm w' k = cached_perm (U := U) w k.
Proof. unfold cached_perm. by intros ->. Qed.

Lemma one_db c w r w' : one c w = (r, w') → dbv (U := U) w' = dbv w.
Proof.
  unfold one. intros E. apply bind_inv in E as [(rs & w1 & E1 & E2)|(e & E1 & _)];
    apply dbv_exec in E1; [|done].
  destruct rs as [|? [|]]; go_inv; congruence.
Qed.

Lemma call_db {A} c (dec : reply → M W A) w r w' :
  (∀ rep w1, (dec rep w1).2 = w1) → (one c ≫= dec) w = (r, w') → dbv (U := U) w' = dbv w.
Proof.
  intros Hdec E. apply bind_inv in E as [(rep & w1 & E1 & E2)|(e & E1 & _)];
    apply one_db in E1; [|done].
  specialize (Hdec rep w1). rewrite E2 in Hdec. simpl in Hdec. congruence.
Qed.

Lemma read_unchanged w w' :
  vk_view w' = vk_view w → dbv (U := U) w' = dbv w → unchanged (U := U) w w'.
Proof. intros Hv Hd. split; [done|]. intros k. by apply cached_perm_view. Qed.

Lemma Get_spec (u c : U) w r w' :
  Get u c w = (r, w') → unchanged (U := U) w w' ∧ ∀ o, r = Ok o → o = cached_perm w (u, c).
Proof.
  unfold Get. intros E. apply bind_inv in E as [(val & w1 & E1 & E)|(e & E1 & _)]; [|by go_inv].
  apply try_inv in E1 as (g & [= ->] & E1).
  pose proof (call_db _ _ _ _ _ expect_bulk_pure E1) as Hd.
  destruct g as [val|e].
  - apply rdb_Get_Ok in E1 as [Hl Hv].
    unfold cached_perm, decode_entry; simpl. rewrite Hl.
    unfold wrap, of_res, mbind, M_bind in E. destruct (ParseInt val) as [n|]; go_inv;
      (split; [by apply read_unchanged|]); [by intros ? [= <-]|done].
  - apply rdb_Get_Err in E1 as [Hv Hn].
    destruct (errors_Is e redis_Nil); go_inv; (split; [by apply read_unchanged|]); [|done].
    intros ? [= <-]. unfold cached_perm, decode_entry; simpl. by rewrite Hn.
Qed.

(** What a SET leaves in the cache, whether it reported success or not. *)
Lemma cached_perm_insert w w' (u c : U) p e :
  in_int64 p →
  vk_view w' = ks_upd <[cacheKey u c := Entry (VStr (FormatInt p)) e]> (vk_view w) →
  ∀ k, (cached_perm w' k = cached_perm w k ∨ k = (u, c) ∧ cached_perm w' k = Some p) ∧
       (k = (u, c) → cached_perm w' k = Some p).
Proof.
  intros Hp Hv [u' c']. unfold cached_perm, decode_entry, ks_lookup. rewrite Hv; simpl.
  destruct (decide (cacheKey u' c' = cacheKey u c)) as [Ek|Ek].
  - rewrite Ek, lookup_insert_eq; simpl. rewrite ParseInt_FormatInt by done.
    apply cacheKey_inj in Ek as [-> ->]. auto.
  - rewrite lookup_insert_ne by done. split; [by left|]. intros [= -> ->]. done.
Qed.

Lemma Set_spec (u c : U) p w r w' :
  in_int64 p → Set_ u c p w = (r, w') →
  dbv (U := U) w' = dbv w ∧
  (∀ k, cached_perm w' k = cached_perm w k ∨ k = (u, c) ∧ cached_perm w' k = Some p) ∧
  (r = Ok tt → cached_perm w' (u, c) = Some p).
Proof.
  unfold Set_. intros Hp E. apply wrap_inv in E as (r0 & E & ->).
  split; [eapply call_db; [apply expect_ok_pure|done]|].
  destruct r0 as [[]|e].
  - apply rdb_Set_Ok in E. pose proof (cached_perm_insert w w' u c p _ Hp E) as Hc.
    split; [apply Hc|]. intros _. by apply Hc.
  - apply rdb_Set_Err in E as (_ & [E|E]); (split; [|done]).
    + intros k. left. by apply cached_perm_view.
    + pose proof (cached_perm_insert w w' u c p _ Hp E) as Hc. apply Hc.
Qed.

Lemma collect_hits (ids : list U) (f : U → option string) m0 m :
  foldl collect_hit m0 (zip ids (f <$> ids)) = m →
  ∀ id p, m !! id = Some p → m0 !! id = Some p ∨
          (id ∈ ids ∧ ∃ s, f id = Some s ∧ ParseInt s = Ok p).
Proof.
  revert m0. induction ids as [|i ids IH]; intros m0 <- id p Hl; simpl in *; [by left|].
  destruct (IH _ eq_refl _ _ Hl) as [Hm|(? & ?)]; [|set_solver].
  unfold collect_hit in Hm; simpl in Hm.
  destruct (f i) as [s|] eqn:Hs; [|by left].
  destruct (ParseInt s) as [n|] eqn:Hn; [|by left].
  apply lookup_insert_Some in Hm as [[<- <-]|[_ ?]]; [right|by left].
  split; [set_solver|eauto].
Qed.

(** The MGET of a list of ids: only entries that are really cached are reported. *)
Lemma mget_spec (key : U → string) (ids : list U) ctx w r w' :
  (vals ← wrap ctx (rdb_MGet (key <$> ids)); mret (foldl collect_hit ∅ (zip ids vals))) w =
    (r, w') →
  unchanged (U := U) w w' ∧
  ∀ m id p, r = Ok m → m !! id = Some p →
    decode_entry (ks_lookup (vk_view w) (key id)) = Some p.
Proof.
  intros E. apply bind_inv in E as [(vals & w1 & E1 & E)|(e & E1 & ->)];
    apply wrap_inv in E1 as (r1 & E1 & Hr1); pose proof (call_db _ _ _ _ _ expect_multi_pure E1);
    apply rdb_MGet_inv in E1 as [Hv Hl]; [|split; [by apply read_unchanged|done]].
  unwrap_res Hr1. go_inv. split; [by apply read_unchanged|]. intros m id p [= <-] Hp.
  specialize (Hl _ eq_refl). rewrite <-list_fmap_compose in Hl. subst vals.
  eapply collect_hits in Hp as [Hp|(_ & s & Hs & Hn)];
    [by rewrite lookup_empty in Hp| |done].
  simpl in Hs. unfold decode_entry. repeat case_match; simplify_eq; congruence.
Qed.

Lemma pipe_Exec_inv cs w r w' :
  pipe_Exec cs w = (r, w') →
  dbv (U := U) w' = dbv w ∧
  (∃ n, vk_view w' = (run_cmds (take n cs) (vk_view w)).2) ∧
  (r = Ok tt → vk_view w' = (run_cmds cs (vk_view w)).2).
Proof.
  unfold pipe_Exec. intros E. apply bind_inv in E as [(rs & w1 & E1 & E)|(e & E1 & ->)];
    pose proof (dbv_exec _ _ _ _ E1) as Hd.
  - assert (w' = w1) as ->.
    { clear -E. revert E. induction rs as [|rep rs IH]; simpl; intros E; [by go_inv|].
      apply bind_inv in E as [([] & w2 & E1 & E2)|(e & E1 & _)];
        pose proof (expect_ok_pure rep w1) as Hp; rewrite E1 in Hp; simpl in Hp; subst; auto. }
    apply vk_exec_ok in E1. split; [done|]. rewrite E1. split; [|done].
    exists (length cs). by rewrite take_ge, E1.
  - apply vk_exec_err in E1 as (_ & n & E1). split_and!; [done|eauto|done].
Qed.

(** A pipeline of cache writes for the ids of a map. *)
Lemma set_many_spec (pair : U → U * U) (perms : gmap U Z) ctx w r w' :
  (∀ i j, pair i = pair j → i = j) →
  map_Forall (λ _ p, in_int64 p) perms →
  wrap ctx (pipe_Exec (set_cmd (λ i, cacheKey (pair i).1 (pair i).2) CacheTTL
                         <$> map_to_list perms)) w = (r, w') →
  dbv (U := U) w' = dbv w ∧
  (∀ k, cached_perm w' k = cached_perm w k ∨
        ∃ i p, k = pair i ∧ perms !! i = Some p ∧ cached_perm w' k = Some p) ∧
  (r = Ok tt → ∀ i p, perms !! i = Some p → cached_perm w' (pair i) = Some p).
Proof.
  intros Hinj Hp E. apply wrap_inv in E as (r0 & E & ->).
  set (key := λ i, cacheKey (pair i).1 (pair i).2) in E.
  assert (Hkey : ∀ i j, key i = key j → i = j).
  { intros i j [E1 E2]%cacheKey_inj. apply Hinj. destruct (pair i), (pair j); simpl in *; congruence. }
  assert (Hdec : ∀ i p, perms !! i = Some p → decode_entry (Some (VStr (FormatInt p))) = Some p).
  { intros i p Hi. simpl. by rewrite ParseInt_FormatInt by (by eapply Hp). }
  apply pipe_Exec_inv in E as (Hd & (n & Hn) & Hok). split; [done|]. split.
  - intros [u c]. unfold cached_perm; simpl. rewrite Hn, fmap_take_cmds.
    destruct (run_set_cmds key CacheTTL (take n (map_to_list perms)) (vk_view w) (cacheKey u c))
      as [(i & p & Hin & Hk & Hl)|[_ Hl]]; rewrite Hl; [right|by left].
    apply elem_of_take in Hin as (m & Hin & _).
    apply list_elem_of_lookup_2, elem_of_map_to_list in Hin.
    exists i, p. apply cacheKey_inj in Hk as [-> ->]. split_and!; [by destruct (pair i)|done|].
    by eapply Hdec.
  - intros Hr i p Hi. destruct r0 as [[]|]; [|done]. unfold cached_perm. rewrite (Hok eq_refl).
    destruct (run_set_cmds key CacheTTL (map_to_list perms) (vk_view w) (key i))
      as [(j & q & Hin & Hk & Hl)|[Hno _]].
    + change (cacheKey (pair i).1 (pair i).2) with (key i). rewrite Hl.
      apply elem_of_map_to_list in Hin. apply Hkey in Hk as <-. simplify_eq. by eapply Hdec.
    + exfalso. by eapply Hno; [apply elem_of_map_to_list|].
Qed.

(** The Valkey cache implements the interface the resolver is verified against. *)
#[export] Instance ValkeyCache_laws : CacheLaws U W.
Proof.
  assert (Hset : ∀ key (l : list (U * Z)),
    (λ '(i, p), SET (key i) (FormatInt p) CacheTTL) <$> l = set_cmd key CacheTTL <$> l) by done.
  constructor; simpl.
  - intros u c w r w' E. by apply Get_spec.
  - intros u c p w r w' Hp E. by apply Set_spec.
  - intros u cs w r w' E. unfold GetMany in E. destruct cs as [|c0 cs].
    { go_inv. split; [done|]. intros m c p [= <-] Hc. by rewrite lookup_empty in Hc. }
    apply (mget_spec (cacheKey u)) in E as [Hu Hm]. split; [done|]. intros m c p. apply Hm.
  - intros u m w r w' Hp E. unfold SetMany in E. case_bool_decide as Hm.
    { go_inv. split_and!; [done|by left|]. intros _ c p Hc. by rewrite lookup_empty in Hc. }
    rewrite Hset in E. by apply (set_many_spec (λ c, (u, c))) in E; [|congruence|].
  - intros us c w r w' E. unfold GetManyUsers in E. destruct us as [|u0 us].
    { go_inv. split; [done|]. intros m u p [= <-] Hu. by rewrite lookup_empty in Hu. }
    apply (mget_spec (λ u, cacheKey u c)) in E as [Hu Hm]. split; [done|]. intros m u p. apply Hm.
  - intros c m w r w' Hp E. unfold SetManyUsers in E. case_bool_decide as Hm.
    { go_inv. split_and!; [done|by left|]. intros _ u p Hu. by rewrite lookup_empty in Hu. }
    rewrite Hset in E. by apply (set_many_spec (λ u, (u, c))) in E; [|congruence|].
Qed.
End refinement.

(** ** Scan and delete *)
Section scan_delete.
Context {W : Type} `{ValkeyLaws W}.
Implicit Types w : W.

Definition live_keys (w : W) : gset string := dom (ks_map (vk_view w)).

(** Only keys the pattern matches disappear, and no key appears. *)
Definition only_removes (pattern : string) (w w' : W) : Prop :=
  ∀ k, ks_map (vk_view w') !! k = ks_map (vk_view w) !! k ∨
       (glob_match pattern k = true ∧ ks_map (vk_view w') !! k = None).

#[local] Instance only_removes_preorder pattern : PreOrder (only_removes pattern).
Proof.
  split; [by left|]. intros w1 w2 w3 H12 H23 k.
  destruct (H12 k) as [E1|[G1 E1]], (H23 k) as [E2|[G2 E2]]; [left|right|right|right]; naive_solver congruence.
Qed.

Lemma foldr_delete_lookup (m : gmap string entry) ks k :
  foldr delete m ks !! k = if decide (k ∈ ks) then None else m !! k.
Proof.
  induction ks as [|k1 ks IH]; cbn [foldr]; [by rewrite decide_False by set_solver|].
  destruct (decide (k = k1)) as [->|Hne].
  - by rewrite lookup_delete_eq, decide_True by apply list_elem_of_here.
  - rewrite lookup_delete_ne, IH by done.
    destruct (decide (k ∈ ks)), (decide (k ∈ k1 :: ks)); set_solver.
Qed.

Lemma del_spec pattern keys w r w' :
  (∀ k, k ∈ keys → glob_match pattern k = true) →
  rdb_Del keys w = (r, w') →
  only_removes pattern w w' ∧
  (∀ n, r = Ok n → ∀ k, k ∈ keys → k ∉ live_keys w') ∧
  (∀ k c, k ∈ vk_pending w c → k ∈ keys ∨ k ∈ vk_pending w' c) ∧
  (∀ c, (vk_rank w' c ≤ vk_rank w c)%nat).
Proof.
  intros Hmatch E.
  assert (Hdel : ∃ r1, vk_exec [DEL keys] w = (r1, w')).
  { unfold rdb_Del, one in E.
    apply bind_inv in E as [(rep & w1 & E1 & E2)|(e & E1 & _)].
    - pose proof (expect_int_pure rep w1) as Hp. rewrite E2 in Hp. simpl in Hp. subst w1.
      apply bind_Ok_inv in E1 as (rs & w2 & E1 & E3). exists (Ok rs).
      destruct rs as [|? [|]]; go_inv; done.
    - apply bind_inv in E1 as [(rs & w2 & E1 & E3)|(e' & E1 & _)]; [|eauto].
      exists (Ok rs). destruct rs as [|? [|]]; go_inv; done. }
  destruct Hdel as [r1 Hdel].
  assert (Hrem : vk_view w' = vk_view w ∨
                 vk_view w' = ks_upd (λ m, foldr delete m keys) (vk_view w)).
  { apply rdb_Del_inv in E as [(n & _ & _ & E)|(e & _ & _ & [E|E])]; auto. }
  split_and!.
  - intros k. destruct Hrem as [-> | ->]; [by left|]. simpl. rewrite foldr_delete_lookup.
    case_decide; [right; auto|by left].
  - intros n -> k Hk. apply rdb_Del_inv in E as [(n' & _ & _ & E)|(e & He & _)]; [|discriminate He].
    unfold live_keys. rewrite E, not_elem_of_dom. simpl. by rewrite foldr_delete_lookup, decide_True.
  - intros k c Hk. by apply (vk_del_pending _ _ _ _ c Hdel).
  - intros c. by apply (vk_del_pending _ _ _ _ c Hdel).
Qed.

(** The loop: it ends within its fuel, removes matching keys only, and when it succeeds
    every matching key the iteration still owed is gone. *)
Lemma scan_loop_spec fuel pattern c w r w' :
  scan_loop fuel pattern c w = (r, w') → (vk_rank w c < fuel)%nat →
  only_removes pattern w w' ∧
  (r = Ok tt → ∀ k, k ∈ vk_pending w c → glob_match pattern k = true → k ∉ live_keys w').
Proof.
  revert c w. induction fuel as [|fuel IH]; intros c w E Hf; [lia|]. cbn [scan_loop] in E.
  apply bind_inv in E as [([keys next] & w1 & E1 & E)|(e & E1 & ->)];
    apply wrap_inv in E1 as (r1 & E1 & Hr1); pose proof (vk_scan_view _ _ _ _ _ _ E1) as Hv1.
  2: { split; [|done]. intros k. left. by rewrite Hv1. }
  unwrap_res Hr1. apply vk_scan_ok in E1 as (Hkeys & Hpend & Hrank).
  assert (Hrem1 : only_removes pattern w w1) by (intros k; left; by rewrite Hv1).
  apply bind_inv in E as [([] & w2 & E2 & E)|(e & E2 & ->)].
  - assert (H12 : only_removes pattern w1 w2 ∧ (∀ k, k ∈ keys → k ∉ live_keys w2) ∧
              (∀ k c, k ∈ vk_pending w1 c → k ∈ keys ∨ k ∈ vk_pending w2 c) ∧
              (∀ c, (vk_rank w2 c ≤ vk_rank w1 c)%nat)).
    { unfold delete_batch in E2. destruct keys as [|k0 keys].
      - go_inv. split_and!; [done|set_solver|auto|done].
      - apply bind_Ok_inv in E2 as (n & w3 & E2 & E3). apply wrap_Ok_inv in E2.
        unfold mret, M_ret in E3. simplify_eq.
        apply (del_spec pattern) in E2 as (Hr & Hd & Hp & Hk); [|naive_solver].
        split_and!; try done. by eapply Hd. }
    destruct H12 as (Hrem2 & Hdel & Hp2 & Hk2).
    assert (Hrem : only_removes pattern w w2) by (by etrans).
    assert (Hgone : ∀ w3 k, only_removes pattern w2 w3 → k ∈ keys → k ∉ live_keys w3).
    { intros w3 k H23 Hk. specialize (Hdel k Hk). unfold live_keys in *.
      rewrite not_elem_of_dom in *. destruct (H23 k) as [->|[_ ->]]; done. }
    destruct (Z.eqb_spec next 0) as [->|Hnext].
    + go_inv. split; [done|]. intros _ k Hk Hg.
      destruct (Hpend k Hk Hg) as [?|[? _]]; [|done]. by apply (Hgone w').
    + apply IH in E as [Hrem3 Hr3]; [|specialize (Hrank Hnext); specialize (Hk2 next); lia].
      split; [by etrans|]. intros -> k Hk Hg.
      destruct (Hpend k Hk Hg) as [?|[_ Hk']]; [by apply (Hgone w')|].
      destruct (Hp2 k next Hk') as [?|?]; [by apply (Hgone w')|by apply Hr3].
  - split; [|done]. unfold delete_batch in E2. destruct keys as [|k0 keys]; [by go_inv|].
    apply bind_inv in E2 as [(n & w3 & E2 & E3)|(e' & E2 & _)]; [by go_inv|].
    apply wrap_inv in E2 as (r2 & E2 & _).
    apply (del_spec pattern) in E2 as (Hr & _); [|naive_solver]. by etrans.
Qed.

(** The fuel given by [scanAndDelete] is enough, and more fuel changes nothing. *)
Lemma scan_loop_fuel fuel1 fuel2 pattern c w :
  (vk_rank w c < fuel1)%nat → (vk_rank w c < fuel2)%nat →
  scan_loop fuel1 pattern c w = scan_loop fuel2 pattern c w.
Proof.
  revert fuel2 c w. induction fuel1 as [|f1 IH]; intros [|f2] c w H1 H2; try lia.
  cbn [scan_loop]. unfold mbind, M_bind.
  destruct (wrap _ _ w) as [[[keys next]|e] w1] eqn:E1; [|done].
  apply wrap_Ok_inv in E1. pose proof E1 as E1'. apply vk_scan_ok in E1' as (Hkeys & _ & Hrank).
  destruct (delete_batch keys w1) as [[[]|e] w2] eqn:E2; [|done].
  destruct (Z.eqb_spec next 0) as [->|Hnext]; [done|]. specialize (Hrank Hnext).
  assert (vk_rank w2 next ≤ vk_rank w1 next)%nat.
  { unfold delete_batch in E2. destruct keys as [|k0 keys]; [by go_inv|].
    apply bind_Ok_inv in E2 as (n & w3 & E2 & E3). apply wrap_Ok_inv in E2. go_inv.
    apply (del_spec pattern) in E2 as (_ & _ & _ & Hk); [done|naive_solver]. }
  apply IH; lia.
Qed.

(** The scan-and-delete loop ends.  However many keys match and whatever the server
    answers, the iterations an iteration from the start can still need are enough: running
    the loop longer gives the same result in the same world. *)
Lemma scan_terminates n pattern w :
  (vk_rank w 0 < n)%nat → scan_loop n pattern 0 w = scanAndDelete pattern w.
Proof. intros Hn. apply scan_loop_fuel; [done|lia]. Qed.

Lemma scanAndDelete_spec pattern w r w' :
  scanAndDelete pattern w = (r, w') →
  only_removes pattern w w' ∧
  (r = Ok tt → ∀ k, glob_match pattern k = true → k ∉ live_keys w').
Proof.
  unfold scanAndDelete. intros E. apply scan_loop_spec in E as [Hrem Hr]; [|lia].
  split; [done|]. intros -> k Hg Hk. apply (Hr eq_refl k) in Hg; [done|].
  rewrite vk_pending_start. unfold live_keys in Hk. apply elem_of_dom in Hk as [e He].
  apply elem_of_dom. destruct (Hrem k) as [E|[_ E]]; [rewrite <-E; eauto|congruence].
Qed.
End scan_delete.

(** ** What the four invalidations leave *)
Section deletions.
Context {U W : Type} `{UUIDLaws U} `{ValkeyLaws W}.
Implicit Types (w : W) (u c : U).

Lemma only_removes_cached pattern w w' u c :
  only_removes pattern w w' →
  cached_perm w' (u, c) = cached_perm w (u, c) ∨
  (glob_match pattern (cacheKey u c) = true ∧ cached_perm w' (u, c) = None).
Proof.
  intros Hr. unfold cached_perm, ks_lookup; simpl.
  destruct (Hr (cacheKey u c)) as [->|[Hg ->]]; [by left|by right].
Qed.

Lemma not_live_cached w u c : cacheKey u c ∉ live_keys w → cached_perm w (u, c) = None.
Proof.
  unfold live_keys. rewrite not_elem_of_dom. intros E. unfold cached_perm, ks_lookup; simpl.
  by rewrite E.
Qed.

(** One statement for the three pattern deletions: [target] says which (user, channel)
    pairs the pattern covers. *)
Lemma delete_pattern_spec pattern (target : U → U → Prop) w r w' :
  (∀ u c, glob_match pattern (cacheKey u c) = true ↔ target u c) →
  scanAndDelete pattern w = (r, w') →
  (∀ u c, ¬ target u c → cached_perm w' (u, c) = cached_perm w (u, c)) ∧
  (∀ u c, cached_perm w' (u, c) = cached_perm w (u, c) ∨ cached_perm w' (u, c) = None) ∧
  (r = Ok tt → ∀ u c, target u c → cached_perm w' (u, c) = None).
Proof.
  intros Ht E. apply scanAndDelete_spec in E as [Hrem Hok]. split_and!.
  - intros u c Hn. destruct (only_removes_cached _ _ _ u c Hrem) as [?|[Hg%Ht _]]; done.
  - intros u c. destruct (only_removes_cached _ _ _ u c Hrem) as [?|[_ ?]]; auto.
  - intros -> u c Hu%Ht. by apply not_live_cached, Hok.
Qed.

(** Invalidating a user: when [DeleteByUser] succeeds no cached permission of the user
    is left, in any channel and at server level, and the entries of all other users are
    exactly as before; when it fails half way it has only removed entries of that user. *)
Lemma DeleteByUser_correct u w r w' :
  DeleteByUser u w = (r, w') →
  (∀ u' c, u' ≠ u → cached_perm w' (u', c) = cached_perm w (u', c)) ∧
  (∀ c, cached_perm w' (u, c) = cached_perm w (u, c) ∨ cached_perm w' (u, c) = None) ∧
  (r = Ok tt → ∀ c, cached_perm w' (u, c) = None).
Proof.
  intros E. apply (delete_pattern_spec _ (λ u' _, u' = u)) in E as (H1' & H2' & H3');
    [|intros u' c; apply user_pattern_cacheKey].
  split_and!; [by eauto|by eauto|]. intros Hr c. by apply H3'.
Qed.

(** Invalidating a channel: the entries of the channel go, for every user, and only
    those. *)
Lemma DeleteByChannel_correct c w r w' :
  DeleteByChannel c w = (r, w') →
  (∀ u c', c' ≠ c → cached_perm w' (u, c') = cached_perm w (u, c')) ∧
  (∀ u, cached_perm w' (u, c) = cached_perm w (u, c) ∨ cached_perm w' (u, c) = None) ∧
  (r = Ok tt → ∀ u, cached_perm w' (u, c) = None).
Proof.
  intros E. apply (delete_pattern_spec _ (λ _ c', c' = c)) in E as (H1' & H2' & H3');
    [|intros u' c'; apply channel_pattern_cacheKey].
  split_and!; [by eauto|by eauto|]. intros Hr u. by apply H3'.
Qed.

Lemma all_pattern_cacheKey u c : glob_match (CachePrefix +:+ ":*") (cacheKey u c) = true.
Proof.
  rewrite glob_match_iff, cacheKey_bytes.
  change (glob_matches (bytes_of "perms:" ++ [42])
            (bytes_of "perms:" ++ bytes_of (uuid_String u) ++ bytes_of ":" ++
             bytes_of (uuid_String c))).
  apply glob_matches_lit; [by repeat constructor|]. eexists. split; [done|].
  rewrite <-(app_nil_r (bytes_of (uuid_String u) ++ _)). repeat constructor.
Qed.

Lemma DeleteAll_correct w r w' :
  DeleteAll w = (r, w') →
  (∀ u c, cached_perm w' (u, c) = cached_perm w (u, c) ∨ cached_perm w' (u, c) = None) ∧
  (r = Ok tt → ∀ u c, cached_perm (U := U) w' (u, c) = None).
Proof.
  intros E. apply (delete_pattern_spec _ (λ _ _, True)) in E as (_ & H2' & H3').
  - split; [done|]. intros Hr u c. by apply H3'.
  - intros u c. split; [done|]. intros _. apply all_pattern_cacheKey.
Qed.

Lemma DeleteExact_correct u c w r w' :
  DeleteExact u c w = (r, w') →
  (∀ u' c', (u', c') ≠ (u, c) → cached_perm w' (u', c') = cached_perm w (u', c')) ∧
  (cached_perm w' (u, c) = cached_perm w (u, c) ∨ cached_perm w' (u, c) = None) ∧
  (r = Ok tt → cached_perm w' (u, c) = None).
Proof.
  unfold DeleteExact. intros E.
  assert (Hdel : ∃ r0, rdb_Del [cacheKey u c] w = (r0, w') ∧ (r = Ok tt → ∃ n, r0 = Ok n)).
  { apply bind_inv in E as [(n & w1 & E1 & E2)|(e & E1 & ->)]; [go_inv|]; eauto.
    eexists. split; [done|]. done. }
  destruct Hdel as (r0 & E' & Hok). apply rdb_Del_inv in E'.
  assert (Hv : ∀ u' c', vk_view w' = ks_upd (λ m, foldr delete m [cacheKey u c]) (vk_view w) →
    cached_perm w' (u', c') = if decide ((u', c') = (u, c)) then None else cached_perm w (u', c')).
  { intros u' c' Hv. unfold cached_perm, ks_lookup; rewrite Hv; simpl.
    destruct (decide (cacheKey u' c' = cacheKey u c)) as [Ek|Ek].
    - rewrite Ek, lookup_delete_eq. apply cacheKey_inj in Ek as [-> ->]. by rewrite decide_True.
    - rewrite lookup_delete_ne by done. rewrite decide_False by congruence. done. }
  assert (Hsame : vk_view w' = vk_view w → ∀ k, cached_perm (U := U) w' k = cached_perm w k).
  { intros Hs k. unfold cached_perm. by rewrite Hs. }
  destruct E' as [(n & -> & _ & E')|(e & -> & _ & [E'|E'])].
  - split_and!; intros; rewrite Hv by done; [by rewrite decide_False|right|]; by rewrite decide_True.
  - split_and!; intros; rewrite ?Hsame by done; [done|by left|]. by destruct (Hok ltac:(done)).
  - split_and!; intros; rewrite Hv by done; [by rewrite decide_False|right|]; by rewrite decide_True.
Qed.
End deletions.
