(* ===== verification/PermInvalidate.v ===== *)
(** * Permission cache invalidation: internal/permission/invalidate.go

    The publisher's four operations and the subscriber's [handleMessage].  A change of the
    database followed by the handling of the message its handler publishes makes the cache
    coherent again with the new database; this is the end-to-end reading of the deletion
    theorems of PermCache.v. *)
From S2P Require Import Prelude GoStd Platform Permission PermCache.
Open Scope Z_scope.

Definition invalidationVersion : Z := 1.

Section invalidate.
Context {U W : Type} `{UUIDLib U} `{Valkey W}.

Record InvalidationMessage := mkInvalidation {
  im_Version : Z;
  im_UserID : option U;
  im_ChannelID : option U;
  im_All : bool;
}.

Context `{!Codec InvalidationMessage} `{!Cache U W}.

(** [publish] stamps the version, serialises and publishes. *)
Definition publish (msg : InvalidationMessage) : M W unit :=
  let msg := mkInvalidation invalidationVersion (im_UserID msg) (im_ChannelID msg) (im_All msg) in
  data ← wrap "marshal invalidation" (of_res (json_Marshal msg));
  rdb_Publish InvalidateChannelName data.

Definition InvalidateUser (userID : U) : M W unit :=
  publish (mkInvalidation 0 (Some userID) None false).
Definition InvalidateChannel (channelID : U) : M W unit :=
  publish (mkInvalidation 0 None (Some channelID) false).
Definition InvalidateUserChannel (userID channelID : U) : M W unit :=
  publish (mkInvalidation 0 (Some userID) (Some channelID) false).
Definition InvalidateAll : M W unit :=
  publish (mkInvalidation 0 None None true).

(** The [switch] of [handleMessage]. *)
Definition dispatch (msg : InvalidationMessage) : M W unit :=
  if im_All msg then cache_DeleteAll
  else match im_UserID msg, im_ChannelID msg with
       | Some userID, Some channelID => cache_DeleteExact userID channelID
       | Some userID, None => cache_DeleteByUser userID
       | None, Some channelID => cache_DeleteByChannel channelID
       | None, None => mret tt
       end.

(** Undecodable payloads and other versions are logged and skipped; a failed deletion is
    logged. *)
Definition handleMessage (payload : string) : M W unit :=
  match json_Unmarshal payload with
  | Err _ => mret tt
  | Ok msg =>
      if negb (im_Version msg =? invalidationVersion) then mret tt
      else best_effort (dispatch msg)
  end.
End invalidate.
Arguments InvalidationMessage U : clear implicits.

Section properties.
Context {U W : Type} `{UUIDLaws U} `{ValkeyLaws W}.
Context `{!Codec (InvalidationMessage U)} `{!CodecLaws (InvalidationMessage U)}.
Implicit Types (w : W) (u c : U).

Lemma publish_Ok msg w w' :
  publish (U := U) msg w = (Ok tt, w') →
  ∃ data,
    ks_pub (vk_view w') = ks_pub (vk_view w) ++ [(InvalidateChannelName, data)] ∧
    json_Unmarshal data =
      Ok (mkInvalidation invalidationVersion (im_UserID msg) (im_ChannelID msg) (im_All msg)).
Proof.
  unfold publish. intros E. apply bind_Ok_inv in E as (data & w1 & E1 & E).
  apply wrap_Ok_inv in E1. unfold of_res in E1. injection E1 as E1 ->.
  apply bind_Ok_inv in E as (rep & w2 & E2 & E3). apply one_Ok in E2. simpl in E2.
  simplify_eq. unfold mret, M_ret in E3. simpl in E3. exists data.
  split; [|by apply json_round_trip]. injection E3 as <-.
  by match goal with Hv : _ = vk_view w2 |- _ => rewrite <-Hv end.
Qed.

(** What is published is what the subscriber acts on: when [InvalidateUser] reports
    success, exactly one message was appended to the invalidation channel, and any
    subscriber that handles that payload runs the deletion of that user (and drops its
    error). *)
Lemma InvalidateUser_delivered `{!Cache U W} u w w' :
  InvalidateUser u w = (Ok tt, w') →
  ∃ payload,
    ks_pub (vk_view w') = ks_pub (vk_view w) ++ [(InvalidateChannelName, payload)] ∧
    ∀ w1 : W, handleMessage (U := U) payload w1 = best_effort (cache_DeleteByUser u) w1.
Proof.
  intros E. apply publish_Ok in E as (data & Hp & Hd). exists data. split; [done|].
  intros w1. unfold handleMessage. by rewrite Hd.
Qed.

(** A message of another schema version, or one that does not decode, changes nothing. *)
Lemma handleMessage_skips payload w :
  match json_Unmarshal payload with
  | Ok msg => im_Version (U := U) msg ≠ invalidationVersion
  | Err _ => True
  end → handleMessage (U := U) payload w = (Ok tt, w).
Proof.
  unfold handleMessage. destruct (json_Unmarshal payload) as [msg|e]; [|done].
  intros Hv. by rewrite (proj2 (Z.eqb_neq _ _) Hv).
Qed.
End properties.

(** ** Coherence is restored *)
Section coherence.
Context {U W : Type} `{UUIDLaws U} `{ValkeyLaws W} `{!DbFrame U W} `{PermissionLib}.
Context `{!Codec (InvalidationMessage U)}.
Implicit Types (w : W) (u c : U).

(** Every entry a predicate does not exempt is right for the database [d]. *)
Definition coherent_except (exempt : U → U → Prop) (d : permdb U) (w : W) : Prop :=
  ∀ u c p, ¬ exempt u c → cached_perm w (u, c) = Some p →
    if decide (c = serverPermKey) then server_effective d u p else effective d u c p.

(** [dispatch] covers the pairs the message names. *)
Definition covers (msg : InvalidationMessage U) u c : Prop :=
  im_All msg = true ∨
  match im_UserID msg, im_ChannelID msg with
  | Some u', Some c' => u = u' ∧ c = c'
  | Some u', None => u = u'
  | None, Some c' => c = c'
  | None, None => False
  end.

Lemma dispatch_spec msg w r w' :
  dispatch msg w = (r, w') →
  (∀ u c, cached_perm w' (u, c) = cached_perm w (u, c) ∨ cached_perm w' (u, c) = None) ∧
  (r = Ok tt → ∀ u c, covers msg u c → cached_perm w' (u, c) = None).
Proof.
  unfold dispatch, covers. destruct msg as [v ou oc []]; simpl; intros E.
  - apply DeleteAll_correct in E as [E1 E2]. split; [done|]. intros Hr u c _. by apply E2.
  - destruct ou as [u0|], oc as [c0|].
    + apply DeleteExact_correct in E as (E1 & E2 & E3). split.
      * intros u c. destruct (decide ((u, c) = (u0, c0))) as [[= -> ->]|]; auto.
      * intros Hr u c [?|[-> ->]]; [done|auto].
    + apply DeleteByUser_correct in E as (E1 & E2 & E3). split.
      * intros u c. destruct (decide (u = u0)) as [->|]; auto.
      * intros Hr u c [?| ->]; [done|auto].
    + apply DeleteByChannel_correct in E as (E1 & E2 & E3). split.
      * intros u c. destruct (decide (c = c0)) as [->|]; auto.
      * intros Hr u c [?| ->]; [done|auto].
    + go_inv. split; [by left|]. by intros _ u c [?|?].
Qed.

(** C33: Handling an invalidation restores coherence: if after a change of the database
    every cached entry outside the pairs a message covers is right for the new database,
    then once the deletion that message asks for has succeeded, the whole cache is
    right. *)
Theorem dispatch_restores_coherence msg d w w' :
  coherent_except (covers msg) d w →
  dispatch msg w = (Ok tt, w') →
  coherent_except (λ _ _, False) d w'.
Proof.
  intros Hco E. apply dispatch_spec in E as [Hrem Hgone]. intros u c p _ Hp.
  assert (Hn : ¬ covers msg u c) by (intros Hc; specialize (Hgone eq_refl u c Hc); congruence).
  apply (Hco u c p Hn). destruct (Hrem u c); congruence.
Qed.
End coherence.
