(* ===== verification/PermWitness.v ===== *)
(** * A concrete server on which the permission theorems apply

    One owner, one member holding a role, one channel inside a category, with overrides at
    both levels; the store reads a fixed database, the cache is [ValkeyCache] over the
    in-memory server, and the invalidation messages have a concrete encoding. *)
From S2P Require Import Prelude GoStd Platform Permission PermCache PermInvalidate.
Open Scope Z_scope.

Definition owner : cuuid := "00000000-0000-4000-8000-000000000001"%string ↾ eq_refl.
Definition alice : cuuid := "00000000-0000-4000-8000-000000000002"%string ↾ eq_refl.
Definition bob : cuuid := "00000000-0000-4000-8000-000000000003"%string ↾ eq_refl.
Definition member_role : cuuid := "00000000-0000-4000-8000-00000000000a"%string ↾ eq_refl.
Definition general : cuuid := "00000000-0000-4000-8000-0000000000c1"%string ↾ eq_refl.
Definition lobby : cuuid := "00000000-0000-4000-8000-0000000000c2"%string ↾ eq_refl.
Definition text_cat : cuuid := "00000000-0000-4000-8000-0000000000ca"%string ↾ eq_refl.

#[export] Existing Instance bits_PermissionLib.
#[export] Existing Instance bits_PermissionLaws.

Lemma cuuid_ne (u v : cuuid) : String.eqb (`u) (`v) = false → u ≠ v.
Proof. intros E ->. by rewrite String.eqb_refl in E. Qed.
Ltac uuid_ne := apply cuuid_ne; reflexivity.

(** The world: the server and the database. *)
Record psim := Psim { ps_ks : keyspace; ps_db : permdb cuuid }.

#[export] Instance psim_keyspace : HasKeyspace psim :=
  {| ks_of := ps_ks; ks_put := λ k w, Psim k (ps_db w); ks_of_put := λ _ _, eq_refl |}.
#[export] Instance psim_Valkey : Valkey psim := mem_Valkey.
#[export] Instance psim_ValkeyLaws : ValkeyLaws psim := mem_ValkeyLaws.

#[export] Instance psim_DbFrame : DbFrame cuuid psim.
Proof.
  refine {| dbv := ps_db |}. intros cs w r w'. simpl.
  destruct (run_cmds cs (ps_ks w)) as [rs k]. by intros [= _ <-].
Defined.

#[export] Instance psim_Store : Store cuuid psim := {|
  store_IsOwner := λ u w, (Ok (bool_decide (db_owner (ps_db w) = Some u)), w);
  store_RolePermissions := λ u w, (Ok (db_roles (ps_db w) u), w);
  store_ChannelInfo := λ c w,
    (match db_chan (ps_db w) c with
     | Some cat => Ok (mkChannelInfo c cat)
     | None => Err ErrChannelNotFound
     end, w);
  store_Overrides := λ t c w, (Ok (db_over (ps_db w) t c), w);
|}.

#[export] Instance psim_StoreLaws : StoreLaws cuuid psim.
Proof.
  constructor; simpl; intros; simplify_eq; (split; [done|]); intros; simplify_eq; try done.
  by destruct (db_chan (ps_db w') c); simplify_eq.
Qed.

(** Role: view and send (bits 0 and 1).  The category denies bit 1 to the role, the channel
    gives it back to alice. *)
Definition db0 : permdb cuuid := {|
  db_owner := Some owner;
  db_roles := λ u, if decide (u = alice) then [mkRolePermEntry member_role 3]
                   else if decide (u = bob) then [mkRolePermEntry member_role 3] else [];
  db_chan := λ c, if decide (c = general) then Some (Some text_cat)
                  else if decide (c = lobby) then Some None else None;
  db_over := λ t c,
    if decide (t = TargetCategory ∧ c = text_cat)
    then [mkOverride PrincipalRole member_role 0 2]
    else if decide (t = TargetChannel ∧ c = general)
    then [mkOverride PrincipalUser alice 2 0] else [];
|}.

Definition w0 : psim := Psim (Keyspace 0 ∅ []) db0.

Lemma db0_wf : db_wf db0.
Proof.
  unfold db_wf, in_int64, int64_min, int64_max. split; simpl.
  - intros u. repeat case_decide; repeat constructor; simpl; lia.
  - intros t c. repeat case_decide; repeat constructor; simpl; lia.
Qed.

Lemma w0_coherent : coherent w0.
Proof.
  intros u c p.
  change (decode_entry (e_val <$> (∅ : gmap string entry) !! cacheKey u c) = Some p →
    if decide (c = serverPermKey) then server_effective db0 u p else effective db0 u c p).
  by rewrite lookup_empty.
Qed.

(** A fixed-layout encoding of invalidation messages. *)
Definition enc_id (o : option cuuid) : list Z :=
  match o with None => [78] | Some u => 83 :: bytes_of (uuid_String u) end.
Definition dec_id (l : list Z) : option (option cuuid * list Z) :=
  match l with
  | b :: r =>
      if b =? 78 then Some (None, r)
      else match uuid_Parse (string_of (take 36 r)) with
           | Ok u => Some (Some u, drop 36 r)
           | Err _ => None
           end
  | [] => None
  end.

#[export] Instance invalidation_codec : Codec (InvalidationMessage cuuid) := {|
  json_Marshal := λ m,
    if decide (0 ≤ im_Version m < 256) then
      Ok (string_of ((if im_All m then 49 else 48) :: im_Version m ::
                       enc_id (im_UserID m) ++ enc_id (im_ChannelID m)))
    else Err (Plain "unsupported version");
  json_Unmarshal := λ s,
    match bytes_of s with
    | a :: v :: r =>
        match dec_id r with
        | Some (ou, r') =>
            match dec_id r' with
            | Some (oc, _) => Ok (mkInvalidation v ou oc (a =? 49))
            | None => Err (Plain "bad channel")
            end
        | None => Err (Plain "bad user")
        end
    | _ => Err (Plain "short")
    end;
|}.

Lemma dec_enc_id o l : dec_id (enc_id o ++ l) = Some (o, l).
Proof.
  destruct o as [u|]; [|done]. unfold enc_id, dec_id. cbn [app].
  change (83 =? 78) with false. cbv iota.
  rewrite take_app_le, take_ge, drop_app_ge, (uuid_String_length u) by (rewrite uuid_String_length; lia).
  by rewrite string_of_bytes, uuid_Parse_String.
Qed.

#[export] Instance invalidation_codec_laws : CodecLaws (InvalidationMessage cuuid).
Proof.
  constructor. intros [v ou oc a] s. simpl. case_decide as Hv; [|done]. intros [= <-].
  rewrite bytes_of_string.
  - rewrite dec_enc_id, <-(app_nil_r (enc_id oc)), dec_enc_id. by destruct a.
  - assert (Hid : ∀ o, Forall (λ b, 0 ≤ b < 256) (enc_id o)).
    { intros [u|]; [constructor; [lia|apply bytes_of_range]|by repeat constructor]. }
    constructor; [destruct a; lia|]. constructor; [done|]. by apply Forall_app.
Qed.

(** ** The witnesses *)
Lemma Resolve_correct_witness :
  ∃ w', Resolve alice general w0 = (Ok 3, w') ∧ effective db0 alice general 3 ∧ coherent w'.
Proof.
  exists (Resolve alice general w0).2.
  assert (E : Resolve alice general w0 = (Ok 3, (Resolve alice general w0).2))
    by (apply run_eq; vm_compute; reflexivity).
  edestruct (Resolve_correct alice general w0) as (_ & Hc & Hp);
    [exact db0_wf|exact w0_coherent|uuid_ne|exact E|].
  split; [exact E|]. split; [by apply Hp|exact Hc].
Defined.

Lemma FilterPermitted_correct_witness :
  ∃ w', FilterPermitted bob [general; lobby; general] 2 w0 = (Ok [false; true; false], w') ∧
        answers (effective db0 bob) 2 [general; lobby; general] [false; true; false].
Proof.
  exists (FilterPermitted bob [general; lobby; general] 2 w0).2.
  assert (E : FilterPermitted bob [general; lobby; general] 2 w0 =
              (Ok [false; true; false], (FilterPermitted bob [general; lobby; general] 2 w0).2))
    by (apply run_eq; vm_compute; reflexivity).
  edestruct (FilterPermitted_correct bob [general; lobby; general] 2 w0) as (_ & _ & Hp);
    [exact db0_wf|exact w0_coherent| |by vm_compute|exact E|].
  { intros Hin. repeat (apply elem_of_cons in Hin as [Hin|Hin]; [by revert Hin; uuid_ne|]).
    by apply elem_of_nil in Hin. }
  split; [exact E|by apply Hp].
Defined.

Lemma FilterUsersPermitted_spec_witness :
  ∃ w', FilterUsersPermitted [owner; alice; bob] general 2 w0 = (Ok [true; true; false], w') ∧
        answers (λ u, effective db0 u general) 2 [owner; alice; bob] [true; true; false].
Proof.
  exists (FilterUsersPermitted [owner; alice; bob] general 2 w0).2.
  assert (E : FilterUsersPermitted [owner; alice; bob] general 2 w0 =
              (Ok [true; true; false], (FilterUsersPermitted [owner; alice; bob] general 2 w0).2))
    by (apply run_eq; vm_compute; reflexivity).
  edestruct (FilterUsersPermitted_spec [owner; alice; bob] general 2 w0) as (_ & _ & Hp);
    [exact db0_wf|exact w0_coherent|uuid_ne|exact E|].
  split; [exact E|by apply Hp].
Defined.

Lemma ResolveServer_spec_witness :
  ∃ w', ResolveServer bob w0 = (Ok 3, w') ∧ server_effective db0 bob 3.
Proof.
  exists (ResolveServer bob w0).2.
  assert (E : ResolveServer bob w0 = (Ok 3, (ResolveServer bob w0).2))
    by (apply run_eq; vm_compute; reflexivity).
  edestruct (ResolveServer_spec bob w0) as (_ & _ & Hp);
    [exact db0_wf|exact w0_coherent|exact E|].
  split; [exact E|by apply Hp].
Defined.

(** A channel that does not exist: the only way to fail is the store. *)
Lemma Resolve_error_witness :
  ∃ ctx cause, Wrap "get channel info" ErrChannelNotFound = Wrap ctx cause ∧
               store_error (U := cuuid) (W := psim) cause.
Proof.
  apply (Resolve_error (U := cuuid) alice text_cat w0 _ (Resolve alice text_cat w0).2).
  apply run_eq. vm_compute. reflexivity.
Defined.

(** A cache holding an entry of alice and one of bob. *)
Definition w1 : psim := (Resolve bob general (Resolve alice general w0).2).2.

Lemma DeleteByUser_correct_witness :
  ∃ w', DeleteByUser alice w1 = (Ok tt, w') ∧
        cached_perm w1 (alice, general) = Some 3 ∧
        cached_perm w' (alice, general) = None ∧
        cached_perm w' (bob, general) = cached_perm w1 (bob, general).
Proof.
  exists (DeleteByUser alice w1).2.
  assert (E : DeleteByUser alice w1 = (Ok tt, (DeleteByUser alice w1).2))
    by (apply run_eq; vm_compute; reflexivity).
  destruct (DeleteByUser_correct alice w1 _ _ E) as (H1 & _ & H3).
  split; [exact E|]. split; [vm_compute; reflexivity|].
  split; [apply H3; reflexivity|apply H1; uuid_ne].
Defined.

Lemma scan_terminates_witness :
  scan_loop 7 (CachePrefix +:+ ":*") 0 w1 = scanAndDelete (CachePrefix +:+ ":*") w1.
Proof. apply (scan_terminates 7). vm_compute. lia. Defined.

Lemma DeleteByChannel_correct_witness :
  ∃ w', DeleteByChannel general w1 = (Ok tt, w') ∧ cached_perm w' (bob, general) = None.
Proof.
  exists (DeleteByChannel general w1).2.
  assert (E : DeleteByChannel general w1 = (Ok tt, (DeleteByChannel general w1).2))
    by (apply run_eq; vm_compute; reflexivity).
  destruct (DeleteByChannel_correct general w1 _ _ E) as (_ & _ & H3).
  split; [exact E|by apply H3].
Defined.

Lemma InvalidateUser_delivered_witness :
  ∃ payload, ks_pub (ps_ks (InvalidateUser alice w1).2) =
               [(InvalidateChannelName, payload)] ∧
             handleMessage (U := cuuid) payload w1 = best_effort (cache_DeleteByUser alice) w1.
Proof.
  assert (E : InvalidateUser alice w1 = (Ok tt, (InvalidateUser alice w1).2))
    by (apply run_eq; vm_compute; reflexivity).
  destruct (InvalidateUser_delivered alice w1 _ E) as (payload & Hp & Hh).
  exists payload. split; [exact Hp|apply Hh].
Defined.

(** Alice's own override is withdrawn; her entry is stale until her invalidation is
    handled. *)
Definition db1 : permdb cuuid := {|
  db_owner := db_owner db0; db_roles := db_roles db0; db_chan := db_chan db0;
  db_over := λ t c, if decide (t = TargetCategory ∧ c = text_cat)
                    then [mkOverride PrincipalRole member_role 0 2] else [];
|}.
Definition msg_alice : InvalidationMessage cuuid := mkInvalidation 1 (Some alice) None false.
Definition w2 : psim := (Resolve alice general w0).2.

Lemma dispatch_restores_coherence_witness :
  cached_perm w2 (alice, general) = Some 3 ∧
  coherent_except (λ _ _, False) db1 (dispatch msg_alice w2).2.
Proof.
  split; [vm_compute; reflexivity|].
  apply (dispatch_restores_coherence msg_alice db1 w2); [|apply run_eq; vm_compute; reflexivity].
  intros u c p Hn Hp. exfalso. apply Hn. right. simpl.
  unfold cached_perm, decode_entry in Hp. simpl fst in Hp; simpl snd in Hp.
  destruct (ks_lookup (vk_view w2) (cacheKey u c)) as [v|] eqn:El; [|done].
  unfold ks_lookup in El.
  assert (Em : ks_map (vk_view w2) =
    <[cacheKey alice general := Entry (VStr "3") (Some CacheTTL)]> ∅) by (vm_compute; reflexivity).
  rewrite Em in El.
  destruct (decide (cacheKey u c = cacheKey alice general)) as [Ek|Ek].
  - by apply cacheKey_inj in Ek as [-> _].
  - rewrite lookup_insert_ne in El by exact (not_eq_sym Ek).
    rewrite lookup_empty in El. discriminate El.
Defined.
