(* ===== verification/Presence.v ===== *)
(** * Presence and typing indicators: internal/presence/presence.go

    The ephemeral store: presence keys expire after two minutes unless refreshed, typing
    keys after ten seconds; [SetTyping] uses SET NX so that repeated keystrokes dispatch
    once. *)
From S2P Require Import Prelude GoStd Platform.
Open Scope Z_scope.

Definition presenceTTL : Z := 120 * Second.
Definition typingTTL : Z := 10 * Second.

Definition StatusOnline : string := "online".
Definition StatusIdle : string := "idle".
Definition StatusDND : string := "dnd".
Definition StatusInvisible : string := "invisible".
Definition StatusOffline : string := "offline".

(** models.PresenceState of the protocol: the user id in text and the status. *)
Record PresenceState := mkPresenceState { ps_UserID : string; ps_Status : string }.

#[export] Instance PresenceState_eq_dec : EqDecision PresenceState.
Proof. solve_decision. Defined.

Definition ValidStatus (status : string) : bool :=
  bool_decide (status ∈ [StatusOnline; StatusIdle; StatusDND; StatusInvisible]).

Section presence.
Context {U W : Type} `{UUIDLib U} `{Valkey W}.

Definition presenceKey (userID : U) : string := "presence:" +:+ uuid_String userID.
Definition typingKey (channelID userID : U) : string :=
  "typing:" +:+ uuid_String channelID +:+ ":" +:+ uuid_String userID.

Definition Set_ (userID : U) (status : string) : M W unit :=
  wrap ("set presence for " +:+ uuid_String userID)
    (rdb_Set (presenceKey userID) status presenceTTL).

Definition Get (userID : U) : M W string :=
  val ← try (rdb_Get (presenceKey userID));
  match val with
  | Ok v => mret v
  | Err e =>
      if errors_Is e redis_Nil then mret StatusOffline
      else fail (Wrap ("get presence for " +:+ uuid_String userID) e)
  end.

(** One element of the MGET reply. *)
Definition visible (idval : U * option string) : option PresenceState :=
  match idval.2 with
  | None => None
  | Some status =>
      if bool_decide (status = StatusInvisible) then None
      else Some (mkPresenceState (uuid_String idval.1) status)
  end.

Definition GetMany (userIDs : list U) : M W (list PresenceState) :=
  match userIDs with
  | [] => mret []
  | _ =>
      vals ← wrap "mget presence" (rdb_MGet (presenceKey <$> userIDs));
      mret (omap visible (zip userIDs vals))
  end.

Definition Refresh (userID : U) : M W unit :=
  wrap ("refresh presence for " +:+ uuid_String userID)
    (rdb_Expire (presenceKey userID) presenceTTL).

Definition Delete (userID : U) : M W unit :=
  wrap ("delete presence for " +:+ uuid_String userID)
    (_ ← rdb_Del [presenceKey userID]; mret tt).

Definition SetTyping (channelID userID : U) : M W bool :=
  wrap ("set typing for " +:+ uuid_String userID +:+ " in " +:+ uuid_String channelID)
    (rdb_SetNX (typingKey channelID userID) "1" typingTTL).

Definition ClearTyping (channelID userID : U) : M W bool :=
  wrap ("clear typing for " +:+ uuid_String userID +:+ " in " +:+ uuid_String channelID)
    (n ← rdb_Del [typingKey channelID userID]; mret (0 <? n)).

(** What the store holds for a user. *)
Definition stored_status (k : keyspace) (userID : U) : option string :=
  match ks_lookup k (presenceKey userID) with Some (VStr s) => Some s | _ => None end.
End presence.

Section properties.
Context {U W : Type} `{UUIDLaws U} `{ValkeyLaws W}.
Implicit Types (w : W) (u c : U).

Lemma presenceKey_inj u v : presenceKey u = presenceKey v → u = v.
Proof.
  unfold presenceKey. intros E%(f_equal bytes_of). rewrite !bytes_of_app in E.
  by apply app_inv_head, bytes_of_inj, uuid_String_inj in E.
Qed.

Lemma typingKey_inj c u c' u' : typingKey c u = typingKey c' u' → c = c' ∧ u = u'.
Proof.
  unfold typingKey. intros E%(f_equal bytes_of). rewrite !bytes_of_app in E.
  apply app_inv_head in E. apply app_inj_1 in E as [E1 E2]; [|by rewrite !uuid_String_length].
  apply app_inv_head in E2. split; by apply uuid_String_inj, bytes_of_inj.
Qed.

Lemma GetMany_eq us w r w' :
  GetMany us w = (r, w') →
  ∀ l, r = Ok l → l = omap (λ u, visible (u, stored_status (vk_view w) u)) us.
Proof.
  unfold GetMany. destruct us as [|u0 us]; [by intros E l ->; go_inv|].
  generalize (u0 :: us). intros ids E l ->.
  apply bind_Ok_inv in E as (vals & w1 & E1 & E). apply wrap_Ok_inv in E1.
  apply rdb_MGet_inv in E1 as [_ Hv]. specialize (Hv _ eq_refl). go_inv.
  induction ids as [|i ids IH]; [done|]. csimpl. rewrite IH. unfold stored_status.
  by destruct (ks_lookup (vk_view w) (presenceKey i)) as [[]|].
Qed.

(** A successful bulk read reports exactly the stored, visible statuses. *)
Lemma GetMany_elem us w l w' s :
  GetMany us w = (Ok l, w') →
  s ∈ l ↔ ∃ u status, u ∈ us ∧ stored_status (vk_view w) u = Some status ∧
                      status ≠ StatusInvisible ∧ s = mkPresenceState (uuid_String u) status.
Proof.
  intros E. rewrite (GetMany_eq _ _ _ _ E _ eq_refl), list_elem_of_omap. unfold visible; simpl.
  split.
  - intros (u & Hu & Hs). destruct (stored_status _ u) as [status|] eqn:Es; [|done].
    case_bool_decide; [done|]. simplify_eq. eauto 10.
  - intros (u & status & Hu & Hst & Hne & ->). exists u. rewrite Hst.
    by rewrite bool_decide_eq_false_2.
Qed.

Lemma rdb_SetNX_Ok k v ttl w b w' :
  rdb_SetNX k v ttl w = (Ok b, w') →
  (b = true ↔ ks_map (vk_view w) !! k = None) ∧
  vk_view w' = if b then ks_upd <[k := Entry (VStr v) (deadline (ks_now (vk_view w)) ttl)]> (vk_view w)
               else vk_view w.
Proof.
  unfold rdb_SetNX. intros E. apply bind_Ok_inv in E as (n & w1 & E1 & E2).
  apply call_inv in E1 as [(rep & E1 & Hr)|(e & Hr & _)]; [|done|apply expect_int_pure].
  simpl in E1. go_inv. destruct (ks_map (vk_view w) !! k) eqn:Ek; simplify_eq/=; done.
Qed.

(** Typing indicators are deduplicated: after a [SetTyping] that succeeded, a second
    one for the same channel and user before ten seconds have passed reports false, and
    one after at least ten seconds reports true again, provided the server answers. *)
Lemma SetTyping_dedup c u b w w1 d b2 w2 w3 :
  SetTyping c u w = (Ok b, w1) → b = true → 0 ≤ d →
  vk_view w2 = ks_advance d (vk_view w1) →
  SetTyping c u w2 = (Ok b2, w3) →
  b2 = bool_decide (typingTTL ≤ d).
Proof.
  unfold SetTyping. intros E1%wrap_Ok_inv -> Hd Hv E2%wrap_Ok_inv.
  apply rdb_SetNX_Ok in E1 as [_ E1]. apply rdb_SetNX_Ok in E2 as [E2 _].
  rewrite Hv, E1 in E2. unfold ks_advance, ks_upd in E2; simpl in E2.
  rewrite map_lookup_filter, lookup_insert_eq in E2. cbn in E2.
  unfold deadline in E2. change (0 <? typingTTL) with true in E2. cbn in E2.
  apply bool_eq_iff. rewrite E2, bool_decide_eq_true.
  set (now := ks_now (vk_view w)) in *.
  destruct (Z.ltb_spec (now + d) (now + typingTTL)).
  - rewrite option_guard_True by done. split; [done|lia].
  - rewrite option_guard_False by done. split; [lia|done].
Qed.

(** [ClearTyping] reports whether there was an indicator to stop, and a later keystroke
    is then dispatched. *)
Lemma ClearTyping_then_SetTyping c u w b w1 b2 w2 :
  ClearTyping c u w = (Ok b, w1) → SetTyping c u w1 = (Ok b2, w2) →
  b = bool_decide (is_Some (ks_map (vk_view w) !! typingKey c u)) ∧ b2 = true.
Proof.
  unfold ClearTyping, SetTyping. intros E1%wrap_Ok_inv E2%wrap_Ok_inv.
  apply bind_Ok_inv in E1 as (n & w3 & E1 & E3). go_inv.
  apply rdb_Del_inv in E1 as [(n' & [= <-] & Hn & Hv)|(e & Hr & _)]; [|done].
  apply rdb_SetNX_Ok in E2 as [E2 _]. split.
  - rewrite Hn, count_present_one. by case_bool_decide.
  - apply E2. rewrite Hv. simpl. apply lookup_delete_eq.
Qed.

(** The presence snapshot hides invisible users: no reported state is invisible, a
    user whose stored status is invisible (or who has none) is reported only if another
    requested user has the same textual id, that is never, and every other requested
    user is reported with the stored status. *)
Lemma GetMany_visibility us w l w' :
  GetMany us w = (Ok l, w') →
  (∀ s, s ∈ l → ps_Status s ≠ StatusInvisible) ∧
  (∀ u, stored_status (vk_view w) u = Some StatusInvisible ∨ stored_status (vk_view w) u = None →
        ∀ status, mkPresenceState (uuid_String u) status ∉ l) ∧
  (∀ u status, u ∈ us → stored_status (vk_view w) u = Some status →
        status ≠ StatusInvisible → mkPresenceState (uuid_String u) status ∈ l).
Proof.
  intros E. pose proof (λ s, GetMany_elem us w l w' s E) as Hl. split_and!.
  - intros s (u & st & _ & _ & Hne & ->)%Hl. done.
  - intros u Hst st (v & st' & _ & Hv & Hne & [= Huv ->])%Hl.
    apply uuid_String_inj in Huv as <-. destruct Hst; congruence.
  - intros u st Hu Hst Hne. apply Hl. eauto 10.
Qed.

(** A stored status is what [Get] reads back; a user without one is offline. *)
Lemma Set_Get u status w w1 r w2 :
  Set_ u status w = (Ok tt, w1) → Get u w1 = (Ok r, w2) → r = status.
Proof.
  unfold Set_, Get. intros E1%wrap_Ok_inv E2. apply rdb_Set_Ok in E1.
  apply bind_Ok_inv in E2 as (g & w3 & E2 & E3). apply try_inv in E2 as (g0 & [= ->] & E2).
  assert (Hl : ks_lookup (vk_view w1) (presenceKey u) = Some (VStr status)).
  { unfold ks_lookup. rewrite E1. simpl. by rewrite lookup_insert_eq. }
  destruct g0 as [v|e].
  - apply rdb_Get_Ok in E2 as [Hv _]. go_inv. congruence.
  - apply rdb_Get_Err in E2 as [_ Hn]. destruct (errors_Is e redis_Nil); [|by go_inv].
    rewrite Hn in Hl by done. done.
Qed.
End properties.

(** ** Witnesses *)
Module Witness.
#[local] Existing Instance mem_Valkey.
#[local] Existing Instance mem_ValkeyLaws.
Definition ks0 : keyspace := Keyspace 0 ∅ [].
Definition carol : cuuid := "00000000-0000-4000-8000-0000000000aa"%string ↾ eq_refl.
Definition dave : cuuid := "00000000-0000-4000-8000-0000000000bb"%string ↾ eq_refl.
Definition chan : cuuid := "00000000-0000-4000-8000-0000000000cc"%string ↾ eq_refl.

Definition typed : keyspace := (SetTyping chan carol ks0).2.

Lemma SetTyping_dedup_witness :
  (SetTyping chan carol (ks_advance (9 * Second) typed)).1 = Ok false ∧
  (SetTyping chan carol (ks_advance (10 * Second) typed)).1 = Ok true ∧
  false = bool_decide (typingTTL ≤ 9 * Second).
Proof.
  split; [vm_compute; reflexivity|]. split; [vm_compute; reflexivity|].
  apply (SetTyping_dedup chan carol true ks0 typed (9 * Second) false
           (ks_advance (9 * Second) typed)
           (SetTyping chan carol (ks_advance (9 * Second) typed)).2);
    [apply run_eq; vm_compute; reflexivity|reflexivity|vm_compute; discriminate|reflexivity|].
  apply run_eq. vm_compute. reflexivity.
Defined.

Definition present : keyspace := (Set_ dave StatusInvisible (Set_ carol StatusDND ks0).2).2.

Lemma GetMany_visibility_witness :
  (GetMany [carol; dave] present).1 = Ok [mkPresenceState (uuid_String carol) "dnd"] ∧
  (∀ status, mkPresenceState (uuid_String dave) status ∉
             [mkPresenceState (uuid_String carol) "dnd"]).
Proof.
  split; [vm_compute; reflexivity|].
  apply (GetMany_visibility [carol; dave] present _ (GetMany [carol; dave] present).2);
    [apply run_eq; vm_compute; reflexivity|left; vm_compute; reflexivity].
Defined.
End Witness.
