(* ===== verification/Validate.v ===== *)
(** * Input validation of the domain packages

    The validators of internal/role, channel, category, thread, message, member, user,
    server, invite, emoji, e2ee, settingsync, audit and auth, one Module per package.  A
    validator that writes the trimmed text back through its pointer returns the new pointee;
    [None] is the nil pointer.  An [int] is a 64-bit integer. *)
From S2P Require Import Prelude GoStd Platform.
Open Scope Z_scope.

(** ** Shapes shared by the packages *)

(** [if p == nil { return nil }; ... *p = trimmed]. *)
Definition opt_pointee {A} (f : A → res A) (p : option A) : res (option A) :=
  match p with
  | None => Ok None
  | Some x => match f x with Ok y => Ok (Some y) | Err e => Err e end
  end.

(** [if p == nil { return nil }; if the pointee is bad { return err }; return nil]. *)
Definition opt_check {A} (bad : A → bool) (err : error) (p : option A) : res unit :=
  match p with
  | None => Ok tt
  | Some x => if bad x then Err err else Ok tt
  end.

(** Trim, then require between [lo] and [hi] runes. *)
Definition trimmed_between (lo hi : Z) (err : error) (s : string) : res string :=
  let trimmed := TrimSpace s in
  if (RuneCountInString trimmed <? lo) || (hi <? RuneCountInString trimmed) then Err err
  else Ok trimmed.

Definition rune_len_outside (lo hi : Z) (s : string) : bool :=
  let n := RuneCountInString s in (n <? lo) || (hi <? n).

Definition alnum_underscore (b : Z) : bool :=
  ((97 <=? b) && (b <=? 122)) || ((65 <=? b) && (b <=? 90)) ||
  ((48 <=? b) && (b <=? 57)) || (b =? 95).

(** ** internal/role/role.go *)
Module Role.
Definition ErrNameLength : error := Sentinel "role.ErrNameLength".
Definition ErrInvalidPosition : error := Sentinel "role.ErrInvalidPosition".
Definition ErrInvalidPermissions : error := Sentinel "role.ErrInvalidPermissions".
Definition ErrInvalidColour : error := Sentinel "role.ErrInvalidColour".

Definition ValidateNameRequired (name : string) : res string :=
  trimmed_between 1 100 ErrNameLength name.
Definition ValidateName (name : option string) : res (option string) :=
  opt_pointee (trimmed_between 1 100 ErrNameLength) name.
Definition ValidatePosition (pos : option Z) : res unit :=
  opt_check (λ p, p <? 0) ErrInvalidPosition pos.
Definition ValidatePermissions `{PermissionLib} (perms : option Z) : res unit :=
  opt_check (λ p, (p <? 0) || negb (Z.land p (Z.lnot AllPermissions) =? 0))
    ErrInvalidPermissions perms.
Definition ValidateColour (colour : option Z) : res unit :=
  opt_check (λ c, (c <? 0) || (16777215 <? c)) ErrInvalidColour colour.
End Role.

(** ** internal/channel/channel.go; the names of the types are the protocol's *)
Class ChannelTypes : Type := {
  ChannelTypeText : string;
  ChannelTypeVoice : string;
  ChannelTypeAnnouncement : string;
  ChannelTypeForum : string;
  ChannelTypeStage : string;
}.

Module Channel.
Definition ErrNameLength : error := Sentinel "channel.ErrNameLength".
Definition ErrInvalidType : error := Sentinel "channel.ErrInvalidType".
Definition ErrTopicLength : error := Sentinel "channel.ErrTopicLength".
Definition ErrInvalidSlowmode : error := Sentinel "channel.ErrInvalidSlowmode".
Definition ErrInvalidPosition : error := Sentinel "channel.ErrInvalidPosition".

Definition validTypes `{ChannelTypes} : gset string :=
  {[ChannelTypeText; ChannelTypeVoice; ChannelTypeAnnouncement; ChannelTypeForum;
    ChannelTypeStage]}.

Definition ValidateName (name : option string) : res (option string) :=
  opt_pointee (trimmed_between 1 100 ErrNameLength) name.
Definition ValidateNameRequired (name : string) : res string :=
  trimmed_between 1 100 ErrNameLength name.
Definition ValidateType `{ChannelTypes} (t : string) : res unit :=
  if bool_decide (t ∈ validTypes) then Ok tt else Err ErrInvalidType.
Definition ValidateTopic (topic : option string) : res unit :=
  opt_check (λ t, 1024 <? RuneCountInString t) ErrTopicLength topic.
Definition ValidateSlowmode (seconds : option Z) : res unit :=
  opt_check (λ s, (s <? 0) || (21600 <? s)) ErrInvalidSlowmode seconds.
Definition ValidatePosition (pos : option Z) : res unit :=
  opt_check (λ p, p <? 0) ErrInvalidPosition pos.
End Channel.

(** ** internal/category/category.go *)
Module Category.
Definition ErrNameLength : error := Sentinel "category.ErrNameLength".
Definition ErrInvalidPosition : error := Sentinel "category.ErrInvalidPosition".

Definition ValidateName (name : option string) : res (option string) :=
  opt_pointee (trimmed_between 1 100 ErrNameLength) name.
Definition ValidateNameRequired (name : string) : res string :=
  trimmed_between 1 100 ErrNameLength name.
Definition ValidatePosition (pos : option Z) : res unit :=
  opt_check (λ p, p <? 0) ErrInvalidPosition pos.
End Category.

(** Page sizes: the same function in five packages, over the package's constants. *)
Definition clamp (DefaultLimit MaxLimit limit : Z) : Z :=
  if limit <=? 0 then DefaultLimit else if MaxLimit <? limit then MaxLimit else limit.

(** ** internal/thread/thread.go *)
Module Thread.
Definition ErrNameLength : error := Sentinel "thread.ErrNameLength".
Definition DefaultLimit : Z := 50.
Definition MaxLimit : Z := 100.

Definition ValidateNameRequired (name : string) : res string :=
  trimmed_between 1 100 ErrNameLength name.
Definition ValidateName (name : option string) : res (option string) :=
  opt_pointee (trimmed_between 1 100 ErrNameLength) name.
Definition ClampLimit (limit : Z) : Z := clamp DefaultLimit MaxLimit limit.
End Thread.

(** ** internal/message/message.go *)
Module Message.
Definition ErrContentTooLong : error := Sentinel "message.ErrContentTooLong".
Definition ErrEmptyContent : error := Sentinel "message.ErrEmptyContent".
Definition DefaultLimit : Z := 50.
Definition MaxLimit : Z := 100.

Definition ValidateContent (content : string) (maxLength : Z) : res string :=
  let trimmed := TrimSpace content in
  if bool_decide (trimmed = ""%string) then Err ErrEmptyContent
  else if maxLength <? RuneCountInString trimmed then Err ErrContentTooLong
  else Ok trimmed.
Definition ClampLimit (limit : Z) : Z := clamp DefaultLimit MaxLimit limit.
End Message.

(** ** internal/member/member.go *)
Module Member.
Definition ErrNicknameLength : error := Sentinel "member.ErrNicknameLength".
Definition DefaultLimit : Z := 50.
Definition MaxLimit : Z := 100.

Definition ValidateNickname (nickname : option string) : res (option string) :=
  opt_pointee (trimmed_between 1 32 ErrNicknameLength) nickname.
Definition ClampLimit (limit : Z) : Z := clamp DefaultLimit MaxLimit limit.
End Member.

(** ** internal/user/user.go *)
Module User.
Definition ErrDisplayNameLength : error := Sentinel "user.ErrDisplayNameLength".
Definition ErrPronounsLength : error := Sentinel "user.ErrPronounsLength".
Definition ErrAboutLength : error := Sentinel "user.ErrAboutLength".
Definition ErrThemeColourRange : error := Sentinel "user.ErrThemeColourRange".

Definition NormalizeDisplayName (name : option string) : option string := TrimSpace <$> name.
Definition ValidateDisplayName (name : option string) : res unit :=
  opt_check (rune_len_outside 1 32) ErrDisplayNameLength name.
Definition NormalizePronouns (p : option string) : option string := TrimSpace <$> p.
Definition ValidatePronouns (p : option string) : res unit :=
  opt_check (rune_len_outside 1 40) ErrPronounsLength p.
Definition NormalizeAbout (a : option string) : option string := TrimSpace <$> a.
Definition ValidateAbout (a : option string) : res unit :=
  opt_check (rune_len_outside 1 190) ErrAboutLength a.
Definition ValidateThemeColour (colour : option Z) : res unit :=
  opt_check (λ c, (c <? 0) || (16777215 <? c)) ErrThemeColourRange colour.
End User.

(** ** internal/server/server.go *)
Module Server.
Definition ErrNameLength : error := Sentinel "server.ErrNameLength".
Definition ErrDescriptionLength : error := Sentinel "server.ErrDescriptionLength".

Definition ValidateName (name : option string) : res (option string) :=
  opt_pointee (trimmed_between 1 100 ErrNameLength) name.
Definition ValidateDescription (desc : option string) : res unit :=
  opt_check (λ d, 1024 <? RuneCountInString d) ErrDescriptionLength desc.
End Server.

(** ** internal/invite/invite.go *)
Module Invite.
Definition ErrInvalidMaxUses : error := Sentinel "invite.ErrInvalidMaxUses".
Definition ErrInvalidMaxAge : error := Sentinel "invite.ErrInvalidMaxAge".
Definition ErrExpired : error := Sentinel "invite.ErrExpired".
Definition ErrMaxUsesReached : error := Sentinel "invite.ErrMaxUsesReached".
Definition DefaultLimit : Z := 50.
Definition MaxLimit : Z := 100.

(** Instants are nanoseconds. *)
Record Invite (U : Type) := mkInvite {
  ID : U;
  Code : string;
  ChannelID : U;
  CreatorID : U;
  MaxUses : option Z;
  UseCount : Z;
  MaxAgeSeconds : option Z;
  ExpiresAt : option Z;
  CreatedAt : Z;
}.
Arguments mkInvite {U}. Arguments ID {U}. Arguments Code {U}. Arguments ChannelID {U}.
Arguments CreatorID {U}. Arguments MaxUses {U}. Arguments UseCount {U}.
Arguments MaxAgeSeconds {U}. Arguments ExpiresAt {U}. Arguments CreatedAt {U}.

Definition ValidateMaxUses (v : option Z) : res unit :=
  opt_check (λ n, n <? 0) ErrInvalidMaxUses v.
Definition ValidateMaxAge (v : option Z) : res unit :=
  opt_check (λ n, n <? 0) ErrInvalidMaxAge v.
Definition Validate {U} (inv : Invite U) (now : Z) : res unit :=
  if match ExpiresAt inv with Some t => negb (now <? t) | None => false end then Err ErrExpired
  else if match MaxUses inv with Some m => m <=? UseCount inv | None => false end
  then Err ErrMaxUsesReached
  else Ok tt.
Definition ClampLimit (limit : Z) : Z := clamp DefaultLimit MaxLimit limit.
End Invite.

(** ** internal/emoji/emoji.go *)
Module Emoji.
Definition ErrInvalidName : error := Sentinel "emoji.ErrInvalidName".

(** [^[a-zA-Z0-9_]{2,32}$]. *)
Definition namePattern (name : string) : bool :=
  let l := bytes_of name in
  forallb alnum_underscore l && (2 <=? Z.of_nat (length l)) && (Z.of_nat (length l) <=? 32).
Definition ValidateName (name : string) : res unit :=
  if negb (namePattern name) then Err ErrInvalidName else Ok tt.
End Emoji.

(** ** internal/audit/audit.go *)
Module Audit.
Definition DefaultLimit : Z := 50.
Definition MaxLimit : Z := 100.
Definition ClampLimit (n : Z) : Z := clamp DefaultLimit MaxLimit n.
End Audit.

(** ** internal/e2ee/e2ee.go: keys are byte sequences, here strings *)
Module E2ee.
Definition ErrInvalidKeyLength : error := Sentinel "e2ee.ErrInvalidKeyLength".
Definition ErrInvalidSignature : error := Sentinel "e2ee.ErrInvalidSignature".
Definition ErrBatchTooLarge : error := Sentinel "e2ee.ErrBatchTooLarge".
Definition KeyLength : Z := 32.
Definition SignatureLength : Z := 64.
Definition MaxOPKBatch : Z := 100.

Record UploadOPKParams := mkUploadOPKParams { KeyID : Z; PublicKey : string }.

Definition ValidatePublicKey (key : string) : res unit :=
  if negb (len key =? KeyLength)
  then Err (Wrap ("got " +:+ FormatInt (len key) +:+ " bytes") ErrInvalidKeyLength)
  else Ok tt.
Definition ValidateSignature (sig : string) : res unit :=
  if negb (len sig =? SignatureLength)
  then Err (Wrap ("got " +:+ FormatInt (len sig) +:+ " bytes") ErrInvalidSignature)
  else Ok tt.

(** The loop over the keys, with the index of the current one. *)
Fixpoint validate_keys (i : Z) (keys : list UploadOPKParams) : res unit :=
  match keys with
  | [] => Ok tt
  | k :: keys' =>
      match ValidatePublicKey (PublicKey k) with
      | Err err => Err (Wrap ("key at index " +:+ FormatInt i) err)
      | Ok _ => validate_keys (i + 1) keys'
      end
  end.

Definition ValidateOPKBatch (keys : list UploadOPKParams) (maxBatch : Z) : res unit :=
  let n := Z.of_nat (length keys) in
  if n =? 0 then Err (Wrap "batch must not be empty" ErrBatchTooLarge)
  else if maxBatch <? n
  then Err (Wrap (FormatInt n +:+ " keys exceeds limit of " +:+ FormatInt maxBatch)
              ErrBatchTooLarge)
  else validate_keys 0 keys.
End E2ee.

(** ** internal/settingsync *)
Module Settingsync.
Definition ErrBlobEmpty : error := Sentinel "settingsync.ErrBlobEmpty".
Definition ErrBlobTooLarge : error := Sentinel "settingsync.ErrBlobTooLarge".
Definition ErrSaltLength : error := Sentinel "settingsync.ErrSaltLength".
Definition ErrNonceLength : error := Sentinel "settingsync.ErrNonceLength".
Definition ErrVersionInvalid : error := Sentinel "settingsync.ErrVersionInvalid".
Definition MaxBlobSize : Z := 65536.

Record UpsertParams := mkUpsertParams {
  EncryptedBlob : string; Salt : string; Nonce : string; BlobVersion : Z }.

Definition ValidateUpsertParams (params : UpsertParams) : res unit :=
  if len (EncryptedBlob params) =? 0 then Err ErrBlobEmpty
  else if MaxBlobSize <? len (EncryptedBlob params) then Err ErrBlobTooLarge
  else if negb (len (Salt params) =? 16) then Err ErrSaltLength
  else if negb (len (Nonce params) =? 12) then Err ErrNonceLength
  else if BlobVersion params <? 1 then Err ErrVersionInvalid
  else Ok tt.
End Settingsync.

(** ** internal/auth/validation.go

    [net/mail.ParseAddress] and the case table of [unicode] are parameters. *)
Class NetMail : Type := {
  mail_ParseAddress : string → res string;
  unicode_ToLower : Z → Z;
}.

Module Auth.
Definition ErrInvalidEmail : error := Sentinel "auth.ErrInvalidEmail".
Definition ErrUsernameLength : error := Sentinel "auth.ErrUsernameLength".
Definition ErrUsernameInvalidChars : error := Sentinel "auth.ErrUsernameInvalidChars".
Definition ErrPasswordTooShort : error := Sentinel "auth.ErrPasswordTooShort".
Definition ErrPasswordTooLong : error := Sentinel "auth.ErrPasswordTooLong".
Definition maxEmailLength : Z := 254.

(** Returns (normalised, domain); [addr.Address] is what the parser returns. *)
Definition ValidateEmail `{NetMail} (email : string) : res (string * string) :=
  match mail_ParseAddress email with
  | Err _ => Err ErrInvalidEmail
  | Ok address =>
      let normalised := ToLower unicode_ToLower address in
      if maxEmailLength <? len normalised then Err ErrInvalidEmail
      else match SplitN2 64 normalised with
           | (part0, Some part1) =>
               if bool_decide (part0 = ""%string) || bool_decide (part1 = ""%string)
               then Err ErrInvalidEmail
               else Ok (normalised, part1)
           | (_, None) => Err ErrInvalidEmail
           end
  end.

(** [^[a-zA-Z0-9_.]+$]. *)
Definition username_char (b : Z) : bool := alnum_underscore b || (b =? 46).
Definition usernameRegex (username : string) : bool :=
  let l := bytes_of username in negb (Nat.eqb (length l) 0) && forallb username_char l.

Definition ValidateUsername (username : string) : res unit :=
  if (len username <? 2) || (32 <? len username) then Err ErrUsernameLength
  else if negb (usernameRegex username) then Err ErrUsernameInvalidChars
  else Ok tt.

Definition ValidatePassword (password : string) : res unit :=
  let n := RuneCountInString password in
  if n <? 8 then Err ErrPasswordTooShort
  else if 128 <? n then Err ErrPasswordTooLong
  else Ok tt.
End Auth.

(** ** Properties *)
Ltac unfold_names :=
  unfold Role.ValidateNameRequired, Role.ValidateName, Channel.ValidateNameRequired,
    Channel.ValidateName, Category.ValidateNameRequired, Category.ValidateName,
    Thread.ValidateNameRequired, Thread.ValidateName.

Lemma trimmed_between_Ok lo hi err s t :
  trimmed_between lo hi err s = Ok t ↔ t = TrimSpace s ∧ lo ≤ RuneCountInString t ≤ hi.
Proof.
  unfold trimmed_between. destruct (Z.ltb_spec (RuneCountInString (TrimSpace s)) lo),
    (Z.ltb_spec hi (RuneCountInString (TrimSpace s))); simpl;
    (split; [intros E; first [discriminate E|injection E as <-; split; first [done|lia]]
            |intros (-> & ?); first [done|lia]]).
Qed.

(** A validated name validates again, to itself. *)
Lemma trimmed_between_idem lo hi err s t :
  trimmed_between lo hi err s = Ok t → trimmed_between lo hi err t = Ok t.
Proof.
  rewrite !trimmed_between_Ok. intros [-> ?]. split; [|done]. symmetry. apply TrimSpace_idempotent.
Qed.

Lemma trimmed_between_Err lo hi err s e :
  trimmed_between lo hi err s = Err e ↔
  e = err ∧ ¬ lo ≤ RuneCountInString (TrimSpace s) ≤ hi.
Proof.
  unfold trimmed_between. destruct (Z.ltb_spec (RuneCountInString (TrimSpace s)) lo),
    (Z.ltb_spec hi (RuneCountInString (TrimSpace s))); simpl;
    (split; [intros E; first [discriminate E|injection E as <-; split; first [done|lia]]
            |intros (-> & ?); first [done|lia]]).
Qed.

Lemma opt_check_Ok {A} (bad : A → bool) err p :
  opt_check bad err p = Ok tt ↔ ∀ x, p = Some x → bad x = false.
Proof.
  destruct p as [x|]; simpl; [|by split]. destruct (bad x) eqn:E; split; try done.
  - intros Hx. specialize (Hx x eq_refl). congruence.
  - by intros _ y [= <-].
Qed.

Lemma opt_check_Err {A} (bad : A → bool) err p e :
  opt_check bad err p = Err e ↔ e = err ∧ ∃ x, p = Some x ∧ bad x = true.
Proof.
  destruct p as [x|]; simpl; [|by split; [|intros (_ & ? & ? & _)]].
  destruct (bad x) eqn:E; split; try done.
  - intros [= <-]. eauto.
  - by intros [-> _].
  - intros (_ & y & [= <-] & Hy). congruence.
Qed.

Lemma clamp_range d m n : 1 ≤ d ≤ m → 1 ≤ clamp d m n ≤ m.
Proof. unfold clamp. intros. repeat case_match; lia. Qed.

(** No bit outside [all], for the complement form the code uses. *)
Lemma land_lnot_0 p all : Z.land p (Z.lnot all) = 0 ↔ Z.land p all = p.
Proof.
  rewrite <-Z.ldiff_land. split; intros E; apply Z.bits_inj'; intros i Hi;
    apply (f_equal (λ x, Z.testbit x i)) in E; revert E;
    rewrite ?Z.ldiff_spec, ?Z.land_spec, ?Z.bits_0;
    by destruct (Z.testbit p i), (Z.testbit all i).
Qed.

(** Names are stable under validation.  In every package the validator of a create
    request and the one of a patch accept the same names and store the same text; the text
    stored is trimmed, has 1 to 100 characters (1 to 32 for a nickname) and is accepted
    again unchanged, so that editing an object without touching its name never fails. *)
Lemma names_stable name stored :
  (∀ required patch, (required, patch) ∈
     [(Role.ValidateNameRequired, Role.ValidateName);
      (Channel.ValidateNameRequired, Channel.ValidateName);
      (Category.ValidateNameRequired, Category.ValidateName);
      (Thread.ValidateNameRequired, Thread.ValidateName)] →
   (required name = Ok stored ↔ patch (Some name) = Ok (Some stored)) ∧
   (required name = Ok stored →
    stored = TrimSpace name ∧ 1 ≤ RuneCountInString stored ≤ 100 ∧
    required stored = Ok stored ∧ patch (Some stored) = Ok (Some stored))) ∧
  (Member.ValidateNickname (Some name) = Ok (Some stored) →
   1 ≤ RuneCountInString stored ≤ 32 ∧
   Member.ValidateNickname (Some stored) = Ok (Some stored)).
Proof.
  assert (Hopt : ∀ lo hi err n t,
    opt_pointee (trimmed_between lo hi err) (Some n) = Ok (Some t) ↔
    trimmed_between lo hi err n = Ok t).
  { intros. unfold opt_pointee. by destruct (trimmed_between lo hi err n); split; intros [= ->]. }
  split.
  - intros required patch Hin. rewrite !elem_of_cons, elem_of_nil in Hin.
    destruct Hin as [[= -> ->]|[[= -> ->]|[[= -> ->]|[[= -> ->]|[]]]]]; unfold_names;
      (split; [by rewrite Hopt|]; intros E; pose proof (trimmed_between_idem _ _ _ _ _ E);
       apply trimmed_between_Ok in E as [-> ?]; by rewrite Hopt).
  - unfold Member.ValidateNickname. rewrite !Hopt. intros E.
    pose proof (trimmed_between_idem _ _ _ _ _ E). by apply trimmed_between_Ok in E as [-> ?].
Qed.

(** The permission bitfield of a role is accepted exactly when it grants nothing beyond
    the permissions the protocol defines: bit by bit, and so a negative value never. *)
Lemma ValidatePermissions_spec `{PermissionLaws} p :
  Role.ValidatePermissions (Some p) = Ok tt ↔
  ∀ i, Z.testbit p i = true → Z.testbit AllPermissions i = true.
Proof.
  unfold Role.ValidatePermissions. rewrite opt_check_Ok, <-perm_Has_bits, perm_Has_spec.
  rewrite bool_decide_eq_true, Z.land_comm. pose proof AllPermissions_nonneg as Hall. split.
  - intros Hp. specialize (Hp p eq_refl). apply orb_false_iff in Hp as [_ Hp].
    apply negb_false_iff, Z.eqb_eq in Hp. by apply land_lnot_0.
  - intros Hp x [= <-]. apply orb_false_iff. split.
    + apply Z.ltb_ge. rewrite <-Hp. apply Z.land_nonneg. lia.
    + apply negb_false_iff, Z.eqb_eq. by apply land_lnot_0.
Qed.

Lemma username_char_range b : Auth.username_char b = true → 0 ≤ b < 128.
Proof.
  unfold Auth.username_char, alnum_underscore.
  rewrite !orb_true_iff, !andb_true_iff, !Z.leb_le, !Z.eqb_eq. lia.
Qed.

Lemma ValidateUsername_Ok username :
  Auth.ValidateUsername username = Ok tt ↔
  2 ≤ len username ≤ 32 ∧ Forall (λ b, Auth.username_char b = true) (bytes_of username).
Proof.
  unfold Auth.ValidateUsername, Auth.usernameRegex.
  assert (Hf : forallb Auth.username_char (bytes_of username) = true ↔
               Forall (λ b, Auth.username_char b = true) (bytes_of username)).
  { rewrite forallb_forall, Forall_forall. setoid_rewrite list_elem_of_In. done. }
  rewrite <-Hf. unfold len.
  destruct (Z.ltb_spec (Z.of_nat (length (bytes_of username))) 2),
    (Z.ltb_spec 32 (Z.of_nat (length (bytes_of username)))); simpl;
    try (split; [done|lia]).
  destruct (Nat.eqb_spec (length (bytes_of username)) 0); [lia|].
  destruct (forallb _ _); simpl; split; [split; [lia|done]|done|done|by intros [_ ?]].
Qed.

(** An accepted username consists of letters, digits, underscores and periods only, so
    counting its bytes counted its characters: it has 2 to 32 of them.  Every such text is
    accepted. *)
Lemma ValidateUsername_spec username :
  Auth.ValidateUsername username = Ok tt ↔
  2 ≤ RuneCountInString username ≤ 32 ∧
  Forall (λ b, Auth.username_char b = true) (bytes_of username).
Proof.
  rewrite ValidateUsername_Ok.
  assert (Hr : Forall (λ b, Auth.username_char b = true) (bytes_of username) →
               RuneCountInString username = len username).
  { intros Hf. apply RuneCount_ascii. eapply Forall_impl; [exact Hf|].
    intros b Hb%username_char_range. lia. }
  split; intros [? Hf]; rewrite (Hr Hf) in *; auto.
Qed.

(** A normalised email address is local@domain with both parts non-empty, the local
    part without an at sign, at most 254 bytes long, and it is the lower-cased address the
    parser found; the domain returned is the part after the at sign. *)
Lemma ValidateEmail_normalised `{NetMail} email normalised domain :
  Auth.ValidateEmail email = Ok (normalised, domain) →
  ∃ address loc, mail_ParseAddress email = Ok address ∧
    normalised = ToLower unicode_ToLower address ∧
    bytes_of normalised = loc ++ 64 :: bytes_of domain ∧
    (64 ∉ loc) ∧ loc ≠ [] ∧ domain ≠ ""%string ∧ len normalised ≤ 254.
Proof.
  unfold Auth.ValidateEmail. destruct (mail_ParseAddress email) as [address|e]; [|done].
  set (n := ToLower unicode_ToLower address).
  destruct (Z.ltb_spec Auth.maxEmailLength (len n)) as [|Hlen]; [done|].
  destruct (SplitN2 64 n) as [p [q|]] eqn:E; [|done].
  apply SplitN2_Some in E as [E Hp].
  case_bool_decide as Hp0; [done|]. case_bool_decide as Hq0; [done|]. simpl. intros [= <- <-].
  exists address, (bytes_of p). split_and!; try done.
  intros Hb. by apply Hp0, bytes_of_inj.
Qed.

(** C40: A message is stored only with content: validated content is trimmed, has between 1
    and the configured number of characters, and validates again unchanged, as it does
    when the author edits the message without changing it. *)
Theorem ValidateContent_stored content maxLength stored :
  Message.ValidateContent content maxLength = Ok stored →
  stored = TrimSpace content ∧ 1 ≤ RuneCountInString stored ≤ maxLength ∧
  starts_space (bytes_of stored) = false ∧ ends_space (bytes_of stored) = false ∧
  Message.ValidateContent stored maxLength = Ok stored.
Proof.
  unfold Message.ValidateContent. case_bool_decide as Hne; [done|].
  destruct (Z.ltb_spec maxLength (RuneCountInString (TrimSpace content))); [done|].
  intros [= <-]. pose proof (RuneCount_pos _ Hne). destruct (TrimSpace_trimmed content).
  split_and!; try done; try lia. rewrite TrimSpace_idempotent.
  rewrite bool_decide_eq_false_2 by done. by rewrite (proj2 (Z.ltb_ge _ _)).
Qed.

(** *** One-time pre-keys *)
Definition key_ok (k : E2ee.UploadOPKParams) : Prop := len (E2ee.PublicKey k) = 32.

Lemma ValidatePublicKey_cases key :
  (len key = 32 ∧ E2ee.ValidatePublicKey key = Ok tt) ∨
  (len key ≠ 32 ∧ ∃ c, E2ee.ValidatePublicKey key = Err (Wrap c E2ee.ErrInvalidKeyLength)).
Proof.
  unfold E2ee.ValidatePublicKey, E2ee.KeyLength. destruct (Z.eqb_spec (len key) 32); eauto.
Qed.

Lemma validate_keys_cases i keys :
  (Forall key_ok keys ∧ E2ee.validate_keys i keys = Ok tt) ∨
  (∃ pre k post c, keys = pre ++ k :: post ∧ Forall key_ok pre ∧ ¬ key_ok k ∧
     E2ee.validate_keys i keys =
       Err (Wrap ("key at index " +:+ FormatInt (i + Z.of_nat (length pre)))
              (Wrap c E2ee.ErrInvalidKeyLength))).
Proof.
  revert i. induction keys as [|k keys IH]; intros i; simpl; [left; by split|].
  destruct (ValidatePublicKey_cases (E2ee.PublicKey k)) as [[Hk E]|[Hk [c E]]]; rewrite E.
  - destruct (IH (i + 1)) as [[Hf E']|(pre & k' & post & c & -> & Hpre & Hk' & E')].
    + left. split; [by constructor|done].
    + right. exists (k :: pre), k', post, c. split_and!; [done|by constructor|done|].
      rewrite E'. do 3 f_equal. simpl. f_equal. lia.
  - right. exists [], k, keys, c. split_and!; [done|constructor|done|].
    simpl. by rewrite Z.add_0_r.
Qed.

(** A batch of one-time pre-keys is accepted exactly when it holds 1 to [maxBatch] keys
    of 32 bytes each; a batch of the wrong size is the batch-size error, and otherwise the
    error names the index of the first key of the wrong length. *)
Lemma ValidateOPKBatch_spec keys maxBatch :
  let n := Z.of_nat (length keys) in
  (E2ee.ValidateOPKBatch keys maxBatch = Ok tt ↔ 1 ≤ n ≤ maxBatch ∧ Forall key_ok keys) ∧
  (¬ 1 ≤ n ≤ maxBatch ↔
   ∃ c, E2ee.ValidateOPKBatch keys maxBatch = Err (Wrap c E2ee.ErrBatchTooLarge)) ∧
  (1 ≤ n ≤ maxBatch → ∀ pre k post, keys = pre ++ k :: post → Forall key_ok pre → ¬ key_ok k →
   ∃ c, E2ee.ValidateOPKBatch keys maxBatch =
        Err (Wrap ("key at index " +:+ FormatInt (Z.of_nat (length pre)))
               (Wrap c E2ee.ErrInvalidKeyLength))).
Proof.
  intros n. unfold E2ee.ValidateOPKBatch. fold n.
  destruct (Z.eqb_spec n 0), (Z.ltb_spec maxBatch n); try lia;
    try (split_and!; [split; [done|lia]|split; [eauto|lia]|lia]).
  destruct (validate_keys_cases 0 keys) as [[Hf E]|(pre & k & post & c & -> & Hpre & Hk & E)];
    rewrite E; split_and!.
  - split; [intros _; split; [lia|done]|done].
  - split; [lia|by intros [? ?]].
  - intros _ pre k post -> _ Hk. apply Forall_app in Hf as [_ Hf].
    by apply Forall_cons in Hf as [? _].
  - split; [done|]. intros [_ Hf]. apply Forall_app in Hf as [_ Hf].
    by apply Forall_cons in Hf as [? _].
  - split; [lia|]. intros [c' [= Hc _]].
  - intros _ pre' k' post' Hsp Hpre' Hk'. exists c.
    assert (length pre' = length pre) as ->; [|done].
    destruct (lt_eq_lt_dec (length pre') (length pre)) as [[Hlt|He]|Hlt]; [|done|];
      exfalso.
    + apply Hk'. eapply Forall_lookup_1; [exact Hpre|].
      rewrite <-(lookup_app_l pre (k :: post)) by exact Hlt. rewrite Hsp.
      by apply list_lookup_middle.
    + apply Hk. eapply Forall_lookup_1; [exact Hpre'|].
      rewrite <-(lookup_app_l pre' (k' :: post')) by exact Hlt. rewrite <-Hsp.
      by apply list_lookup_middle.
Qed.

(** An invite can be used exactly when it has not expired and has uses left; when both
    fail it is the expiry that is reported. *)
Lemma Invite_Validate_spec {U} (inv : Invite.Invite U) now :
  let expired := ∃ t, Invite.ExpiresAt inv = Some t ∧ t ≤ now in
  let used_up := ∃ m, Invite.MaxUses inv = Some m ∧ m ≤ Invite.UseCount inv in
  (Invite.Validate inv now = Ok tt ↔ ¬ expired ∧ ¬ used_up) ∧
  (Invite.Validate inv now = Err Invite.ErrExpired ↔ expired) ∧
  (Invite.Validate inv now = Err Invite.ErrMaxUsesReached ↔ ¬ expired ∧ used_up).
Proof.
  intros expired used_up. unfold Invite.Validate.
  destruct (match Invite.ExpiresAt inv with Some _ => _ | None => _ end) eqn:Ee.
  - assert (expired); [|by split_and!; split; intuition].
    unfold expired. destruct (Invite.ExpiresAt inv) as [t|]; [|done].
    apply negb_true_iff, Z.ltb_ge in Ee. eauto.
  - assert (¬ expired) as Hne.
    { intros (t & Ht & Hle). rewrite Ht in Ee. apply negb_false_iff, Z.ltb_lt in Ee. lia. }
    destruct (match Invite.MaxUses inv with Some _ => _ | None => _ end) eqn:Em.
    + assert (used_up); [|by split_and!; split; intuition].
      unfold used_up. destruct (Invite.MaxUses inv) as [m|]; [|done].
      apply Z.leb_le in Em. eauto.
    + assert (¬ used_up); [|by split_and!; split; intuition].
      intros (m & Hm & Hle). rewrite Hm in Em. apply Z.leb_gt in Em. lia.
Qed.

(** An invite created with a use limit of zero passes creation and can never be used. *)
Lemma max_uses_zero {U} (inv : Invite.Invite U) now :
  Invite.MaxUses inv = Some 0 → 0 ≤ Invite.UseCount inv →
  Invite.ValidateMaxUses (Some 0) = Ok tt ∧ Invite.Validate inv now ≠ Ok tt.
Proof.
  intros Hm Hu. split; [done|]. unfold Invite.Validate. rewrite Hm.
  case_match; [done|]. by rewrite (proj2 (Z.leb_le _ _)).
Qed.

(** ** Witnesses *)
Module Witness.
Definition padded : string := "  general ".

Lemma names_stable_witness :
  Role.ValidateName (Some padded) = Ok (Some "general"%string) ∧
  Member.ValidateNickname (Some "general"%string) = Ok (Some "general"%string).
Proof.
  split; [vm_compute; reflexivity|].
  apply (names_stable padded "general"). vm_compute. reflexivity.
Defined.

#[local] Existing Instance bits_PermissionLib.
#[local] Existing Instance bits_PermissionLaws.
Lemma ValidatePermissions_spec_witness :
  Role.ValidatePermissions (Some (2^31)) = Err Role.ErrInvalidPermissions ∧
  Z.testbit AllPermissions 5 = true.
Proof.
  split; [vm_compute; reflexivity|].
  apply (ValidatePermissions_spec 33); [vm_compute; reflexivity|vm_compute; reflexivity].
Defined.

Definition plain_mail : NetMail :=
  {| mail_ParseAddress := λ s, if bool_decide (s = ""%string) then Err (Plain "mail: no address") else Ok s;
     unicode_ToLower := λ r, r |}.
#[local] Existing Instance plain_mail.
Lemma ValidateEmail_normalised_witness :
  Auth.ValidateEmail "Ann@Example.org" = Ok ("ann@example.org"%string, "example.org"%string) ∧
  len "ann@example.org" ≤ 254.
Proof.
  split; [vm_compute; reflexivity|].
  edestruct (ValidateEmail_normalised "Ann@Example.org" "ann@example.org" "example.org")
    as (address & loc & Hw); [vm_compute; reflexivity|apply Hw].
Defined.

Lemma ValidateContent_stored_witness :
  Message.ValidateContent " hi " 4000 = Ok "hi"%string ∧
  Message.ValidateContent "hi" 4000 = Ok "hi"%string.
Proof.
  split; [vm_compute; reflexivity|].
  apply (ValidateContent_stored " hi " 4000). vm_compute. reflexivity.
Defined.
End Witness.
