(* ===== verification/Tokens.v ===== *)
(** * Tokens kept in Valkey: internal/auth refresh.go, gateway_ticket.go, mfa_ticket.go,
      mfa_pending.go

    Refresh tokens are keys [refresh:token] naming their user, indexed by one set per user;
    the Lua scripts that create, rotate and revoke them run atomically in the server and are
    translated command by command.  Gateway and MFA tickets are consumed with GETDEL. *)
From S2P Require Import Prelude GoStd Platform.
Open Scope Z_scope.

Definition ErrInvalidToken : error := Sentinel "auth.ErrInvalidToken".
Definition ErrRefreshTokenNotFound : error := Sentinel "auth.ErrRefreshTokenNotFound".
Definition ErrRefreshTokenReused : error := Sentinel "auth.ErrRefreshTokenReused".

(** ** Lua scripts

    [redis.call] raises the server's error, which ends the script; the commands that ran
    before stay done.  A script is a program on the keyspace that returns a reply. *)
Definition redis_call (c : command) : M keyspace reply := λ k,
  let '(r, k') := run_cmd c k in
  match r with RWrongType => (Err redis_WrongType, k') | _ => (Ok r, k') end.

Definition lua_run (script : M keyspace reply) (k : keyspace) : reply * keyspace :=
  match script k with
  | (Ok r, k') => (r, k')
  | (Err _, k') => (RWrongType, k')
  end.

Definition call_members (key : string) : M keyspace (list string) :=
  r ← redis_call (SMEMBERS key);
  match r with RMulti l => mret (omap id l) | _ => mret [] end.
Definition call_exists (key : string) : M keyspace Z :=
  r ← redis_call (EXISTS key); match r with RInt n => mret n | _ => mret 0 end.

(** SET key value EX seconds: the server refuses an expiry that is not positive. *)
Definition call_set_ex (key v : string) (secs : Z) : M keyspace reply :=
  if secs <=? 0 then fail (Plain "ERR invalid expire time in 'set' command")
  else redis_call (SET key v (secs * Second)).

(** The loop that collects the members whose token key is gone, and their removal. *)
Definition collect_stale (members : list string) : M keyspace (list string) :=
  foldM (λ stale m, n ← call_exists ("refresh:" +:+ m);
                    mret (if n =? 0 then stale ++ [m] else stale)) members [].
Definition drop_stale (userSetKey : string) : M keyspace unit :=
  members ← call_members userSetKey;
  stale ← collect_stale members;
  match stale with
  | [] => mret tt
  | _ => redis_call (SREM userSetKey stale) ;; mret tt
  end.

Definition rotateScript (key1 arg1 arg2 : string) (arg3 : Z) : M keyspace reply :=
  r ← redis_call (GET key1);
  match r with
  | RBulk (Some userId) =>
      redis_call (DEL [key1]) ;;
      let userSetKey := "user_refresh:" +:+ userId in
      redis_call (SREM userSetKey [arg1]) ;;
      drop_stale userSetKey ;;
      let newKey := "refresh:" +:+ arg2 in
      call_set_ex newKey userId arg3 ;;
      redis_call (SADD userSetKey arg2) ;;
      redis_call (EXPIRE userSetKey (arg3 * Second)) ;;
      mret (RBulk (Some userId))
  | _ => mret (RBulk None)
  end.

Definition createScript (key1 key2 arg1 arg2 : string) (arg3 : Z) : M keyspace reply :=
  drop_stale key2 ;;
  call_set_ex key1 arg1 arg3 ;;
  redis_call (SADD key2 arg2) ;;
  redis_call (EXPIRE key2 (arg3 * Second)) ;;
  mret (RInt 1).

Definition revokeAllScript (key1 : string) : M keyspace reply :=
  tokens ← call_members key1;
  (match tokens with
   | [] => mret tt
   | _ => redis_call (DEL ((λ t, "refresh:" +:+ t) <$> tokens)) ;; mret tt
   end) ;;
  redis_call (DEL [key1]) ;;
  mret (RInt (Z.of_nat (length tokens))).

Definition incrWithTTL (key1 : string) (arg1 : Z) : M keyspace reply :=
  count ← redis_call (INCR key1);
  (if match count with RInt n => n =? 1 | _ => false end then redis_call (EXPIRE key1 (arg1 * Second)) ;; mret tt
   else mret tt) ;;
  mret count.

(** ** refresh.go *)
Definition refreshKey (token : string) : string := "refresh:" +:+ token.

Section tokens.
Context {U W : Type} `{UUIDLib U} `{Valkey W} `{IdGen U W}.

Definition userRefreshKey (userID : U) : string := "user_refresh:" +:+ uuid_String userID.

(** [Script.Run(...)] and the typed readings of its reply. *)
Definition script_Run (script : M keyspace reply) : M W reply := vk_eval (lua_run script).
Definition script_Result (script : M keyspace reply) : M W unit :=
  r ← script_Run script;
  match r with
  | RWrongType => fail redis_WrongType
  | RBulk None => fail redis_Nil
  | _ => mret tt
  end.
Definition script_Text (script : M keyspace reply) : M W string := script_Run script ≫= expect_bulk.
Definition script_Int64 (script : M keyspace reply) : M W Z := script_Run script ≫= expect_int.

(** [int(ttl.Seconds())]. *)
Definition whole_seconds (ttl : Z) : Z := Z.quot ttl Second.

Definition CreateRefreshToken (userID : U) (ttl : Z) : M W string :=
  id ← new_uuid (U := U);
  let token := uuid_String id in
  wrap "create refresh token"
    (script_Result (createScript (refreshKey token) (userRefreshKey userID)
                      (uuid_String userID) token (whole_seconds ttl))) ;;
  mret token.

Definition ValidateRefreshToken (token : string) : M W U :=
  val ← try (rdb_Get (refreshKey token));
  match val with
  | Err err =>
      if errors_Is err redis_Nil then fail ErrRefreshTokenNotFound
      else fail (Wrap "get refresh token" err)
  | Ok val => wrap "parse user ID from refresh token" (of_res (uuid_Parse val))
  end.

Definition RotateRefreshToken (oldToken : string) (ttl : Z) : M W (string * U) :=
  id ← new_uuid (U := U);
  let newToken := uuid_String id in
  result ← try (script_Text (rotateScript (refreshKey oldToken) oldToken newToken
                               (whole_seconds ttl)));
  match result with
  | Err err =>
      if errors_Is err redis_Nil then fail ErrRefreshTokenReused
      else fail (Wrap "rotate refresh token" err)
  | Ok result =>
      userID ← wrap "parse user ID from refresh token" (of_res (uuid_Parse result));
      mret (newToken, userID)
  end.

Definition RevokeAllRefreshTokens (userID : U) : M W unit :=
  r ← try (script_Result (revokeAllScript (userRefreshKey userID)));
  match r with
  | Err err => if negb (errors_Is err redis_Nil) then fail (Wrap "revoke refresh tokens" err)
               else mret tt
  | Ok _ => mret tt
  end.

(** ** gateway_ticket.go *)
Definition GatewayTicketTTL : Z := 30 * Second.
Definition gatewayTicketKey (ticket : string) : string := "gateway_ticket:" +:+ ticket.

(** The two kinds of ticket share their shape: a key that names a user, read with GETDEL. *)
Definition create_ticket (key : string → string) (userID : U) (ttl : Z) (ctx : string) : M W string :=
  id ← new_uuid (U := U);
  let ticket := uuid_String id in
  wrap ctx (rdb_Set (key ticket) (uuid_String userID) ttl) ;;
  mret ticket.
Definition consume_ticket (key : string) (ctx ctx_parse : string) : M W U :=
  val ← try (rdb_GetDel key);
  match val with
  | Err err => if errors_Is err redis_Nil then fail ErrInvalidToken else fail (Wrap ctx err)
  | Ok val => wrap ctx_parse (of_res (uuid_Parse val))
  end.

Definition CreateGatewayTicket (userID : U) : M W string :=
  create_ticket gatewayTicketKey userID GatewayTicketTTL "store gateway ticket".
Definition ConsumeGatewayTicket (ticket : string) : M W U :=
  consume_ticket (gatewayTicketKey ticket) "consume gateway ticket"
    "parse user ID from gateway ticket".

(** ** mfa_ticket.go *)
Definition mfaTicketKey (ticket : string) : string := "mfa_ticket:" +:+ ticket.
Definition CreateMFATicket (userID : U) (ttl : Z) : M W string :=
  create_ticket mfaTicketKey userID ttl "store MFA ticket".
Definition ConsumeMFATicket (ticket : string) : M W U :=
  consume_ticket (mfaTicketKey ticket) "consume MFA ticket" "parse user ID from MFA ticket".

(** ** mfa_pending.go *)
Definition pendingMFATTL : Z := 10 * Minute.
Definition maxMFASetupAttempts : Z := 5.
Definition mfaPendingKey (userID : U) : string := "mfa_pending:" +:+ uuid_String userID.
Definition mfaPendingAttemptsKey (userID : U) : string :=
  "mfa_pending_attempts:" +:+ uuid_String userID.

Definition StorePendingMFASecret (userID : U) (encryptedSecret : string) : M W unit :=
  wrap "store pending MFA secret" (rdb_Set (mfaPendingKey userID) encryptedSecret pendingMFATTL).

Definition ConsumePendingMFASecret (userID : U) : M W string :=
  val ← try (rdb_GetDel (mfaPendingKey userID));
  match val with
  | Err err =>
      if errors_Is err redis_Nil then fail ErrInvalidToken
      else fail (Wrap "consume pending MFA secret" err)
  | Ok val => mret val
  end.

Definition IncrementMFASetupAttempts (userID : U) : M W Z :=
  let key := mfaPendingAttemptsKey userID in
  let ttlSeconds := Z.quot pendingMFATTL Second in
  wrap "increment MFA setup attempts" (script_Int64 (incrWithTTL key ttlSeconds)).

Definition ResetMFASetupAttempts (userID : U) : M W unit :=
  wrap "reset MFA setup attempts" (_ ← rdb_Del [mfaPendingAttemptsKey userID]; mret tt).
End tokens.

(** ** The commands of the scripts, on the keys they touch *)
Section scripts.
Implicit Types k : keyspace.

(** Only [key] changed. *)
Definition touches (key : string) k k' : Prop :=
  ks_now k' = ks_now k ∧ ∀ key', key' ≠ key → ks_map k' !! key' = ks_map k !! key'.

Lemma touches_trans key k1 k2 k3 : touches key k1 k2 → touches key k2 k3 → touches key k1 k3.
Proof.
  intros [Hn1 H1] [Hn2 H2]. split; [congruence|]. intros key' Hne. by rewrite H2, H1.
Qed.

Lemma touches_upd key f k :
  (∀ m key', key' ≠ key → f m !! key' = m !! key') → touches key k (ks_upd f k).
Proof. intros Hf. split; [done|]. intros key' Hne. simpl. auto. Qed.

Lemma put_set_ne key s m key' : key' ≠ key → put_set key s m !! key' = m !! key'.
Proof.
  intros Hne. unfold put_set, put_val. case_decide; by rewrite ?lookup_delete_ne, ?lookup_insert_ne.
Qed.

Lemma as_set_put key s k : as_set (ks_upd (put_set key s) k) key = Some s.
Proof.
  unfold as_set, ks_lookup, put_set, put_val. simpl. case_decide as Hs.
  - by rewrite lookup_delete_eq, Hs.
  - by rewrite lookup_insert_eq.
Qed.

Lemma as_set_touches key key' k k' : touches key k k' → key' ≠ key → as_set k' key' = as_set k key'.
Proof. intros [_ Ht] Hne. unfold as_set, ks_lookup. by rewrite Ht. Qed.

Lemma call_SREM key vs k s :
  as_set k key = Some s →
  ∃ r k', redis_call (SREM key vs) k = (Ok r, k') ∧ touches key k k' ∧
          as_set k' key = Some (s ∖ list_to_set vs).
Proof.
  intros Hs. unfold redis_call. simpl. rewrite Hs. do 2 eexists. split; [reflexivity|].
  split; [apply touches_upd; intros; by apply put_set_ne|apply as_set_put].
Qed.

Lemma call_SADD key v k s :
  as_set k key = Some s →
  ∃ r k' e, redis_call (SADD key v) k = (Ok r, k') ∧ touches key k k' ∧
          ks_map k' !! key = Some e ∧ e_val e = VSet ({[v]} ∪ s).
Proof.
  intros Hs. unfold redis_call. simpl. rewrite Hs. do 3 eexists. split; [reflexivity|].
  split; [apply touches_upd; intros; by apply put_set_ne|]. simpl.
  unfold put_set. rewrite decide_False by set_solver. unfold put_val.
  by rewrite lookup_insert_eq.
Qed.

Lemma call_EXPIRE key ttl k e :
  ks_map k !! key = Some e → 0 < ttl →
  ∃ r k', redis_call (EXPIRE key ttl) k = (Ok r, k') ∧ touches key k k' ∧
          ks_map k' !! key = Some (Entry (e_val e) (Some (ks_now k + ttl))).
Proof.
  intros He Ht. unfold redis_call. simpl. rewrite He, (proj2 (Z.ltb_lt _ _)) by done.
  do 2 eexists. split; [reflexivity|]. split; [|by rewrite <-(lookup_insert_eq (ks_map k) key)].
  apply touches_upd. intros. by rewrite lookup_insert_ne.
Qed.

Lemma call_SET key v n k :
  0 < n →
  ∃ k', call_set_ex key v n k = (Ok RStatus, k') ∧ touches key k k' ∧
        ks_map k' !! key = Some (Entry (VStr v) (Some (ks_now k + n * Second))).
Proof.
  intros Hn. unfold call_set_ex. rewrite (proj2 (Z.leb_gt _ _)) by done.
  unfold redis_call. simpl. eexists. split; [reflexivity|]. split.
  - apply touches_upd. intros. by rewrite lookup_insert_ne.
  - simpl. rewrite lookup_insert_eq. unfold deadline.
    by rewrite (proj2 (Z.ltb_lt _ _)) by (unfold Second; lia).
Qed.

Lemma call_DEL1 key k :
  ∃ r k', redis_call (DEL [key]) k = (Ok r, k') ∧ touches key k k' ∧ ks_map k' !! key = None.
Proof.
  unfold redis_call. simpl. do 2 eexists. split; [reflexivity|].
  split; [|by simpl; rewrite lookup_delete_eq].
  apply touches_upd. intros. simpl. by rewrite lookup_delete_ne.
Qed.

Definition token_live k (t : string) : Prop := is_Some (ks_map k !! refreshKey t).

Lemma collect_stale_spec members k :
  ∃ stale, collect_stale members k = (Ok stale, k) ∧
           ∀ m, m ∈ stale ↔ m ∈ members ∧ ¬ token_live k m.
Proof.
  unfold collect_stale. assert (∀ acc, ∃ stale,
    foldM (λ stale m, n ← call_exists ("refresh:" +:+ m);
             mret (if n =? 0 then stale ++ [m] else stale)) members acc k = (Ok stale, k) ∧
    ∀ m, m ∈ stale ↔ m ∈ acc ∨ (m ∈ members ∧ ¬ token_live k m)) as Hg.
  { induction members as [|m ms IH]; intros acc.
    - exists acc. split; [done|]. set_solver.
    - cbn [foldM]. unfold call_exists, redis_call. unfold mbind, M_bind. cbn.
      unfold mret, M_ret. fold (refreshKey m).
      destruct (decide (is_Some (ks_map k !! refreshKey m))) as [Hl|Hl]; cbn.
      + destruct (IH acc) as (stale & E & Hs). exists stale. split; [exact E|].
        intros x. rewrite Hs, elem_of_cons. unfold token_live. naive_solver.
      + destruct (IH (acc ++ [m])) as (stale & E & Hs). exists stale. split; [exact E|].
        intros x. rewrite Hs, elem_of_cons, elem_of_app, list_elem_of_singleton.
        unfold token_live. naive_solver. }
  destruct (Hg []) as (stale & E & Hs). exists stale. split; [done|]. set_solver.
Qed.

Lemma call_members_spec key k s :
  as_set k key = Some s → call_members key k = (Ok (elements s), k).
Proof.
  intros Hs. unfold call_members, redis_call. unfold mbind, M_bind. simpl. rewrite Hs. cbn.
  unfold mret, M_ret. do 2 f_equal. induction (elements s) as [|x l IH]; [done|]. csimpl.
  by rewrite IH.
Qed.

(** Cleaning a user's set keeps every member whose token is live. *)
Lemma drop_stale_spec key k s :
  as_set k key = Some s →
  ∃ k' s', drop_stale key k = (Ok tt, k') ∧ touches key k k' ∧
    as_set k' key = Some s' ∧ s' ⊆ s ∧ ∀ m, m ∈ s → token_live k m → m ∈ s'.
Proof.
  intros Hs. unfold drop_stale. rewrite (bind_Ok _ _ _ _ _ (call_members_spec _ _ _ Hs)).
  destruct (collect_stale_spec (elements s) k) as (stale & E & Hst).
  rewrite (bind_Ok _ _ _ _ _ E). destruct stale as [|x stale].
  - exists k, s. by split_and!.
  - destruct (call_SREM key (x :: stale) k s Hs) as (r & k' & E' & Ht & Hs').
    rewrite (bind_Ok _ _ _ _ _ E'). do 2 eexists. split; [reflexivity|].
    split; [done|]. split; [exact Hs'|]. split; [set_solver|].
    intros m Hm Hl. apply elem_of_difference. split; [done|].
    rewrite elem_of_list_to_set, Hst. tauto.
Qed.
End scripts.

(** ** The index of refresh tokens

    Every live token names a user (in a form [ok] describes) and is in that user's set, which outlives it; no token
    lives longer than [T] from now. *)
Definition uset (uid : string) : string := "user_refresh:" +:+ uid.

Definition indexed (ok : string → Prop) (T : Z) (k : keyspace) : Prop :=
  (∀ t e, ks_map k !! refreshKey t = Some e →
     ∃ uid s d de, e = Entry (VStr uid) (Some d) ∧ ok uid ∧
       ks_map k !! uset uid = Some (Entry (VSet s) (Some de)) ∧ t ∈ s ∧ d ≤ de ∧
       d ≤ ks_now k + T) ∧
  (∀ uid e, ks_map k !! uset uid = Some e → ∃ s de, e = Entry (VSet s) (Some de)).

Section index.
Implicit Types (k : keyspace) (t uid : string).
Context (ok : string → Prop) (n : Z) (Hn : 0 < n).
Abbreviation T := (n * Second).

Lemma refresh_uset t uid : refreshKey t ≠ uset uid.
Proof. unfold refreshKey, uset. intros E. by inversion E. Qed.
Lemma refreshKey_inj t t' : refreshKey t = refreshKey t' → t = t'.
Proof. unfold refreshKey. intros E. by inversion E. Qed.
Lemma uset_inj uid uid' : uset uid = uset uid' → uid = uid'.
Proof. unfold uset. intros E. by inversion E. Qed.
Hint Resolve refresh_uset : core.

Lemma indexed_as_set k uid : indexed ok T k → ∃ s, as_set k (uset uid) = Some s.
Proof.
  intros [_ Hu]. unfold as_set, ks_lookup. destruct (ks_map k !! uset uid) as [e|] eqn:E; [|eauto].
  destruct (Hu _ _ E) as (s & de & ->). simpl. eauto.
Qed.

(** A token of [uid] is in the set of [uid]. *)
Lemma indexed_member k uid s t d :
  indexed ok T k → as_set k (uset uid) = Some s →
  ks_map k !! refreshKey t = Some (Entry (VStr uid) d) → t ∈ s.
Proof.
  intros [Ht _] Hs E. destruct (Ht _ _ E) as (uid' & s' & d' & de & [= <- ->] & _ & Hu & Hin & _).
  unfold as_set, ks_lookup in Hs. rewrite Hu in Hs. by simplify_eq/=.
Qed.

(** Rewriting one user's set and tokens keeps the index. *)
Lemma reindex k k' uid s' :
  indexed ok T k → ok uid → ks_now k' = ks_now k →
  (∀ uid', uid' ≠ uid → ks_map k' !! uset uid' = ks_map k !! uset uid') →
  ks_map k' !! uset uid = Some (Entry (VSet s') (Some (ks_now k + T))) →
  (∀ t e, ks_map k' !! refreshKey t = Some e →
     (e = Entry (VStr uid) (Some (ks_now k + T)) ∧ t ∈ s') ∨
     (ks_map k !! refreshKey t = Some e ∧ (e_val e = VStr uid → t ∈ s'))) →
  indexed ok T k'.
Proof.
  intros [Ht Hu] Hok Hnow Hother Hset Htok. split.
  - intros t e He. destruct (Htok _ _ He) as [[-> Hin]|[Hold Hin]].
    + exists uid, s', (ks_now k + T), (ks_now k + T). rewrite Hnow. split_and!; done || lia.
    + destruct (Ht _ _ Hold) as (uid0 & s & d & de & -> & Hok0 & Hs & Hm & Hd & Hdn).
      destruct (decide (uid0 = uid)) as [->|Hne].
      * exists uid, s', d, (ks_now k + T). rewrite Hnow. split_and!; try done. by apply Hin.
      * exists uid0, s, d, de. rewrite Hother, Hnow by done. by split_and!.
  - intros uid0 e He. destruct (decide (uid0 = uid)) as [->|Hne].
    + rewrite Hset in He. simplify_eq. eauto.
    + rewrite Hother in He by done. eauto.
Qed.

(** The tail shared by the two scripts that issue a token: SET, SADD, EXPIRE. *)
Lemma issue_spec (rep : reply) k uid t s :
  as_set k (uset uid) = Some s →
  ∃ k', (call_set_ex (refreshKey t) uid n ;; redis_call (SADD (uset uid) t) ;;
         redis_call (EXPIRE (uset uid) T) ;; mret rep) k = (Ok rep, k') ∧
    ks_now k' = ks_now k ∧
    ks_map k' !! refreshKey t = Some (Entry (VStr uid) (Some (ks_now k + T))) ∧
    ks_map k' !! uset uid = Some (Entry (VSet ({[t]} ∪ s)) (Some (ks_now k + T))) ∧
    ∀ key, key ≠ refreshKey t → key ≠ uset uid → ks_map k' !! key = ks_map k !! key.
Proof.
  intros Hs. destruct (call_SET (refreshKey t) uid n k Hn) as (k1 & E1 & [Hn1 H1] & Ht1).
  rewrite (bind_Ok _ _ _ _ _ E1).
  assert (as_set k1 (uset uid) = Some s) as Hs1.
  { rewrite <-Hs. eapply as_set_touches; [by split|]. by apply not_eq_sym. }
  destruct (call_SADD (uset uid) t k1 s Hs1) as (r & k2 & e & E2 & [Hn2 H2] & He & Hv).
  rewrite (bind_Ok _ _ _ _ _ E2).
  destruct (call_EXPIRE (uset uid) T k2 e He) as (r' & k3 & E3 & [Hn3 H3] & He3).
  { unfold Second. lia. }
  rewrite (bind_Ok _ _ _ _ _ E3). exists k3. split; [done|]. split; [congruence|].
  split; [by rewrite H3, H2|]. split; [by rewrite He3, Hv, Hn2, Hn1|].
  intros key Hk1 Hk2. by rewrite H3, H2, H1.
Qed.

(** [createScript] issues one token and changes no other. *)
Lemma create_spec k uid t :
  indexed ok T k → ok uid → ¬ token_live k t →
  ∃ k', createScript (refreshKey t) (uset uid) uid t n k = (Ok (RInt 1), k') ∧
    ks_now k' = ks_now k ∧ indexed ok T k' ∧
    ks_map k' !! refreshKey t = Some (Entry (VStr uid) (Some (ks_now k + T))) ∧
    ∀ t', t' ≠ t → ks_map k' !! refreshKey t' = ks_map k !! refreshKey t'.
Proof.
  intros Hi Hok Hfresh. destruct (indexed_as_set k uid Hi) as [s Hs]. unfold createScript.
  destruct (drop_stale_spec (uset uid) k s Hs) as (k1 & s1 & E1 & [Hn1 H1] & Hs1 & Hsub & Hkeep).
  rewrite (bind_Ok _ _ _ _ _ E1).
  destruct (issue_spec (RInt 1) k1 uid t s1 Hs1) as (k2 & E2 & Hn2 & Ht & Hu & Hother).
  rewrite Hn1 in *. exists k2. split; [exact E2|]. split; [done|].
  assert (∀ t', t' ≠ t → ks_map k2 !! refreshKey t' = ks_map k !! refreshKey t') as Htok.
  { intros t' Hne. rewrite Hother, H1; [done|auto..]. by intros ?%refreshKey_inj. }
  split; [|by split].
  apply (reindex k k2 uid ({[t]} ∪ s1)); [done|done|done| |done|].
  - intros uid' Hne. assert (uset uid' ≠ uset uid) by (by intros ?%uset_inj).
    rewrite Hother, H1; [done|done| |done]. by apply not_eq_sym.
  - intros t' e He. destruct (decide (t' = t)) as [->|Hne].
    + left. rewrite Ht in He. simplify_eq. split; [done|set_solver].
    + right. rewrite Htok in He by done. split; [done|]. intros Hv.
      destruct e as [v d]; simpl in Hv; subst v. apply elem_of_union_r, Hkeep.
      * by eapply indexed_member.
      * unfold token_live. rewrite He. eauto.
Qed.

(** [rotateScript] on a token that is not live reports nil and changes nothing; on a live
    one it consumes it and issues the new one for the same user. *)
Lemma rotate_absent_spec k t t' :
  ks_map k !! refreshKey t = None →
  rotateScript (refreshKey t) t t' n k = (Ok (RBulk None), k).
Proof.
  intros E. unfold rotateScript, redis_call, mbind, M_bind. cbn.
  unfold as_str, ks_lookup. rewrite E. done.
Qed.

Lemma rotate_spec k uid d t t' :
  indexed ok T k → ks_map k !! refreshKey t = Some (Entry (VStr uid) d) →
  t' ≠ t → ¬ token_live k t' →
  ∃ k', rotateScript (refreshKey t) t t' n k = (Ok (RBulk (Some uid)), k') ∧
    ks_now k' = ks_now k ∧ indexed ok T k' ∧
    ks_map k' !! refreshKey t = None ∧
    ks_map k' !! refreshKey t' = Some (Entry (VStr uid) (Some (ks_now k + T))) ∧
    ∀ x, x ≠ t → x ≠ t' → ks_map k' !! refreshKey x = ks_map k !! refreshKey x.
Proof.
  intros Hi E Hne Hfresh. unfold rotateScript.
  assert (redis_call (GET (refreshKey t)) k = (Ok (RBulk (Some uid)), k)) as E0.
  { unfold redis_call. cbn. unfold as_str, ks_lookup. by rewrite E. }
  rewrite (bind_Ok _ _ _ _ _ E0).
  destruct (indexed_as_set k uid Hi) as [s Hs].
  destruct (call_DEL1 (refreshKey t) k) as (r1 & k1 & E1 & [Hn1 H1] & Ht1).
  rewrite (bind_Ok _ _ _ _ _ E1). fold (uset uid).
  assert (as_set k1 (uset uid) = Some s) as Hs1.
  { rewrite <-Hs. eapply as_set_touches; [by split|]. by apply not_eq_sym. }
  destruct (call_SREM (uset uid) [t] k1 s Hs1) as (r2 & k2 & E2 & [Hn2 H2] & Hs2).
  rewrite (bind_Ok _ _ _ _ _ E2).
  destruct (drop_stale_spec (uset uid) k2 _ Hs2) as (k3 & s3 & E3 & [Hn3 H3] & Hs3 & Hsub & Hkeep).
  rewrite (bind_Ok _ _ _ _ _ E3).
  destruct (issue_spec (RBulk (Some uid)) k3 uid t' s3 Hs3) as (k4 & E4 & Hn4 & Ht4 & Hu4 & Hother).
  assert (ks_now k3 = ks_now k) as Hnow by congruence. rewrite Hnow in *.
  exists k4. split; [exact E4|]. split; [done|].
  assert (Htok : ∀ x, x ≠ t' → ks_map k4 !! refreshKey x = ks_map k1 !! refreshKey x).
  { intros x Hx. rewrite Hother, H3, H2; [done|auto..]. by intros ?%refreshKey_inj. }
  assert (Hx1 : ∀ x, x ≠ t → ks_map k1 !! refreshKey x = ks_map k !! refreshKey x).
  { intros x Hx. apply H1. by intros ?%refreshKey_inj. }
  split; [|split; [by rewrite Htok by done|split; [done|]]].
  2:{ intros x Hx1' Hx2. by rewrite Htok, Hx1. }
  apply (reindex k k4 uid ({[t']} ∪ s3)); [done| |done| |done|].
  { destruct (proj1 Hi _ _ E) as (? & ? & ? & ? & [= <- _] & ? & _). done. }
  - intros uid' Hu. assert (uset uid' ≠ uset uid) by (by intros ?%uset_inj).
    assert (∀ y, uset uid' ≠ refreshKey y) by (intros; by apply not_eq_sym).
    by rewrite Hother, H3, H2, H1.
  - intros x e He. destruct (decide (x = t')) as [->|Hxt'].
    { left. rewrite Ht4 in He. simplify_eq. split; [done|set_solver]. }
    destruct (decide (x = t)) as [->|Hxt]; [rewrite Htok, Ht1 in He by done; done|].
    right. rewrite Htok in He by done. pose proof He as He1. rewrite Hx1 in He by done.
    split; [done|]. intros Hv. destruct e as [v de]; simpl in Hv; subst v.
    apply elem_of_union_r, Hkeep.
    + apply elem_of_difference. split; [by eapply indexed_member|]. set_solver.
    + unfold token_live. rewrite H2, He1 by auto. eauto.
Qed.

(** [revokeAllScript] removes every token of its user and no other. *)
Lemma foldr_delete_key (ks : list string) (m : gmap string entry) key :
  foldr delete m ks !! key = if bool_decide (key ∈ ks) then None else m !! key.
Proof.
  induction ks as [|x ks IH]; simpl; [done|].
  destruct (decide (key = x)) as [->|Hx].
  - rewrite lookup_delete_eq, bool_decide_eq_true_2; [done|]. set_solver.
  - rewrite lookup_delete_ne, IH by done. repeat case_bool_decide; set_solver.
Qed.

Lemma revoke_spec k uid :
  indexed ok T k →
  ∃ r k', revokeAllScript (uset uid) k = (Ok r, k') ∧ r ≠ RBulk None ∧ r ≠ RWrongType ∧
    ks_now k' = ks_now k ∧ indexed ok T k' ∧
    (∀ t d, ks_map k' !! refreshKey t ≠ Some (Entry (VStr uid) d)) ∧
    ∀ t, (∀ d, ks_map k !! refreshKey t ≠ Some (Entry (VStr uid) d)) →
         (∀ s, as_set k (uset uid) = Some s → t ∉ s) →
         ks_map k' !! refreshKey t = ks_map k !! refreshKey t.
Proof.
  intros Hi. destruct (indexed_as_set k uid Hi) as [s Hs]. unfold revokeAllScript.
  rewrite (bind_Ok _ _ _ _ _ (call_members_spec _ _ _ Hs)).
  set (keys := refreshKey <$> elements s).
  assert (∃ k1, (match elements s with
            | [] => mret tt
            | _ => redis_call (DEL ((λ t, "refresh:" +:+ t) <$> elements s)) ;; mret tt
            end) k = (Ok tt, k1) ∧ ks_now k1 = ks_now k ∧
            ks_map k1 = foldr delete (ks_map k) keys) as (k1 & E1 & Hn1 & H1).
  { unfold keys. destruct (elements s) as [|x l]; [by exists k|]. eexists. by split. }
  rewrite (bind_Ok _ _ _ _ _ E1).
  destruct (call_DEL1 (uset uid) k1) as (r2 & k2 & E2 & [Hn2 H2] & Hu2).
  rewrite (bind_Ok _ _ _ _ _ E2). do 2 eexists. split; [reflexivity|].
  split; [done|]. split; [done|]. split; [congruence|].
  assert (Htok : ∀ t, ks_map k2 !! refreshKey t =
                      if bool_decide (t ∈ s) then None else ks_map k !! refreshKey t).
  { intros t. rewrite H2, H1, foldr_delete_key by auto. unfold keys.
    rewrite (bool_decide_ext _ (t ∈ s)); [done|].
    rewrite list_elem_of_fmap. setoid_rewrite elem_of_elements. split; [|eauto].
    by intros (x & ->%refreshKey_inj & Hx). }
  assert (Hus : ∀ uid', uid' ≠ uid → ks_map k2 !! uset uid' = ks_map k !! uset uid').
  { intros uid' Hne. rewrite H2 by (by intros ?%uset_inj). rewrite H1, foldr_delete_key.
    rewrite bool_decide_eq_false_2; [done|]. unfold keys.
    intros (x & Hx & _)%list_elem_of_fmap. by apply (refresh_uset x uid'). }
  pose proof Hi as [Ht Hu]. split; [split|split].
  - intros t e He. rewrite Htok in He. case_bool_decide as Hts; [done|].
    destruct (Ht _ _ He) as (uid0 & s0 & d & de & -> & Hok0 & Hs0 & Hm & Hd & Hdn).
    assert (uid0 ≠ uid) as Hne.
    { intros ->. apply Hts. by eapply indexed_member. }
    exists uid0, s0, d, de. rewrite Hus, Hn2, Hn1 by done. by split_and!.
  - intros uid0 e He. destruct (decide (uid0 = uid)) as [->|Hne]; [congruence|].
    rewrite Hus in He by done. eauto.
  - intros t d He. rewrite Htok in He. case_bool_decide as Hts; [done|].
    apply Hts. by eapply indexed_member.
  - intros t _ Hnin. rewrite Htok, bool_decide_eq_false_2; [done|]. by apply Hnin.
Qed.

(** Time only removes tokens, and a user's set outlives its tokens. *)
Lemma advance_indexed k d : indexed ok T k → 0 ≤ d → indexed ok T (ks_advance d k).
Proof.
  intros [Ht Hu] Hd. unfold ks_advance. split; simpl.
  - intros t e [E Hal]%map_lookup_filter_Some. simpl in Hal.
    destruct (Ht _ _ E) as (uid & s & dt & de & -> & Hok & Hs & Hm & Hle & Hdn).
    unfold alive in Hal. cbn in Hal. apply Z.ltb_lt in Hal.
    exists uid, s, dt, de. split; [done|]. split; [done|]. split; [|split_and!; done || lia].
    apply map_lookup_filter_Some. split; [done|]. cbn. apply Z.ltb_lt. lia.
  - intros uid e [E _]%map_lookup_filter_Some. eauto.
Qed.

(** Writing other keys keeps the index. *)
Lemma other_indexed k k' :
  indexed ok T k → ks_now k' = ks_now k →
  (∀ t, ks_map k' !! refreshKey t = ks_map k !! refreshKey t) →
  (∀ uid, ks_map k' !! uset uid = ks_map k !! uset uid) → indexed ok T k'.
Proof.
  intros [Ht Hu] Hn0 H1 H2. split.
  - intros t e. rewrite H1. intros He. destruct (Ht _ _ He) as (uid & s & d & de & ?).
    exists uid, s, d, de. by rewrite H2, Hn0.
  - intros uid e. rewrite H2. eauto.
Qed.
End index.

(** ** Properties of the Go functions *)

(** [uuid.New] does not talk to the server. *)
Class IdGenLaws (U W : Type) `{Valkey W} `{IdGen U W} : Prop := {
  uuid_New_view : ∀ w, vk_view (uuid_New (U := U) w).2 = vk_view w;
}.

Section properties.
Context {U W : Type} `{UUIDLaws U} `{ValkeyLaws W} `{IdGen U W} `{!IdGenLaws U W}.
Implicit Types (w : W) (u : U) (t : string).

(** The user a refresh token stands for. *)
Definition token_user (k : keyspace) t : option U :=
  match ks_lookup k (refreshKey t) with
  | Some (VStr s) => match uuid_Parse s with Ok u => Some u | Err _ => None end
  | _ => None
  end.

(** The values of the token keys are textual user identifiers. *)
Definition named (uid : string) : Prop := ∃ u : U, uid = uuid_String u.

(** The identifier the next [uuid.New] returns is not a live token. *)
Definition fresh_token w : Prop :=
  ¬ token_live (vk_view w) (uuid_String (uuid_New (U := U) w).1).

Lemma new_uuid_eq w : new_uuid (U := U) w = (Ok (uuid_New w).1, (uuid_New (U := U) w).2).
Proof. unfold new_uuid. by destruct (uuid_New w). Qed.

Lemma script_Result_inv script w r w' :
  script_Result script w = (r, w') →
  (∃ rep, lua_run script (vk_view w) = (rep, vk_view w') ∧
          r = match rep with
              | RWrongType => Err redis_WrongType | RBulk None => Err redis_Nil | _ => Ok tt
              end) ∨
  (∃ e, r = Err e ∧ errors_Is e redis_Nil = false ∧
        (vk_view w' = vk_view w ∨ vk_view w' = (lua_run script (vk_view w)).2)).
Proof.
  unfold script_Result, script_Run. intros E.
  apply bind_inv in E as [(rep & w1 & E1 & E)|(e & E1 & ->)].
  - left. apply vk_eval_ok in E1. exists rep. rewrite E1.
    destruct rep as [| |[]| |]; simpl in E; go_inv; done.
  - right. apply vk_eval_err in E1 as [? ?]. eauto.
Qed.

Lemma script_Text_inv script w r w' :
  script_Text script w = (r, w') →
  (∃ rep, lua_run script (vk_view w) = (rep, vk_view w') ∧
          r = match rep with
              | RBulk (Some s) => Ok s | RBulk None => Err redis_Nil | _ => Err redis_WrongType
              end) ∨
  (∃ e, r = Err e ∧ errors_Is e redis_Nil = false ∧
        (vk_view w' = vk_view w ∨ vk_view w' = (lua_run script (vk_view w)).2)).
Proof.
  unfold script_Text, script_Run. intros E.
  apply bind_inv in E as [(rep & w1 & E1 & E)|(e & E1 & ->)].
  - left. apply vk_eval_ok in E1. exists rep. rewrite E1.
    destruct rep as [| |[]| |]; simpl in E; go_inv; done.
  - right. apply vk_eval_err in E1 as [? ?]. eauto.
Qed.

Lemma lua_run_Ok script k r k' : script k = (Ok r, k') → lua_run script k = (r, k').
Proof. unfold lua_run. by intros ->. Qed.

Lemma whole_seconds_pos ttl : Second ≤ ttl → 0 < whole_seconds ttl.
Proof. intros Hl. unfold whole_seconds. apply Z.quot_str_pos. unfold Second in *. lia. Qed.

(** The server side of the three operations: the index is kept whatever the outcome. *)
Lemma CreateRefreshToken_indexed ttl u w r w' :
  Second ≤ ttl → fresh_token w → indexed named (whole_seconds ttl * Second) (vk_view w) →
  CreateRefreshToken u ttl w = (r, w') → indexed named (whole_seconds ttl * Second) (vk_view w').
Proof.
  intros Httl Hf Hi E. unfold CreateRefreshToken in E.
  rewrite (bind_Ok _ _ _ _ _ (new_uuid_eq w)) in E.
  destruct (uuid_New w) as [id w1] eqn:Eid. cbn in E.
  pose proof (uuid_New_view (U := U) w) as Hv. rewrite Eid in Hv. simpl in Hv.
  unfold fresh_token in Hf. rewrite Eid in Hf. simpl in Hf. rewrite <-Hv in Hi, Hf.
  pose proof (whole_seconds_pos ttl Httl) as Hp.
  assert (named (uuid_String u)) as Hname by (by exists u).
  destruct (create_spec _ _ Hp (vk_view w1) (uuid_String u) (uuid_String id) Hi Hname Hf)
    as (k' & Hrun & _ & Hi' & _). apply lua_run_Ok in Hrun.
  apply bind_inv in E as [([] & w2 & E2 & E)|(e & E2 & ->)].
  - unfold mret, M_ret in E. simplify_eq. apply wrap_Ok_inv in E2.
    apply script_Result_inv in E2 as [(rep & E2 & _)|(e & [=] & _)].
    unfold userRefreshKey in E2. fold (uset (uuid_String u)) in E2. rewrite Hrun in E2. congruence.
  - apply wrap_inv in E2 as (r0 & E2 & _). unfold userRefreshKey in E2.
    fold (uset (uuid_String u)) in E2.
    apply script_Result_inv in E2 as [(rep & E2 & _)|(e' & _ & _ & [->|E2])]; [|done|];
      rewrite Hrun in E2; simpl in E2; congruence.
Qed.

Lemma RotateRefreshToken_run ttl t w r w' :
  Second ≤ ttl → fresh_token w → indexed named (whole_seconds ttl * Second) (vk_view w) →
  t ≠ uuid_String (uuid_New (U := U) w).1 →
  RotateRefreshToken t ttl w = (r, w') →
  let t' := uuid_String (uuid_New (U := U) w).1 in
  indexed named (whole_seconds ttl * Second) (vk_view w') ∧
  match r with
  | Ok (t2, u) => t2 = t' ∧ token_user (vk_view w) t = Some u ∧
      token_user (vk_view w') t = None ∧ token_user (vk_view w') t' = Some u ∧
      ∀ x, x ≠ t → x ≠ t' → token_user (vk_view w') x = token_user (vk_view w) x
  | Err e => e = ErrRefreshTokenReused →
      token_user (vk_view w) t = None ∧ vk_view w' = vk_view w
  end.
Proof.
  intros Httl Hf Hi Hne E t'. unfold RotateRefreshToken in E.
  rewrite (bind_Ok _ _ _ _ _ (new_uuid_eq w)) in E.
  unfold fresh_token, t' in *. clear t'. destruct (uuid_New w) as [id w1] eqn:Eid. cbn in E.
  pose proof (uuid_New_view (U := U) w) as Hv. rewrite Eid in Hv. simpl in Hv, Hne, Hf |- *.
  rewrite <-Hv in *. clear Hv Eid w. set (t' := uuid_String id) in *.
  apply bind_inv in E as [(res0 & w2 & E2 & E)|(e & E2 & _)];
    apply try_inv in E2 as (r0 & Hr0 & E2); [|done]. injection Hr0 as ->.
  pose proof (whole_seconds_pos ttl Httl) as Hp. unfold token_user, ks_lookup.
  destruct (ks_map (vk_view w1) !! refreshKey t) as [e0|] eqn:Et.
  - destruct (proj1 Hi _ _ Et) as (uid & s & d & de & -> & _).
    destruct (rotate_spec _ _ Hp _ uid (Some d) t t' Hi Et (not_eq_sym Hne) Hf)
      as (k' & Hrun & Hnow & Hi' & Hold & Hnew & Hx). apply lua_run_Ok in Hrun.
    apply script_Text_inv in E2 as [(rep & E2 & ->)|(e & -> & Hnil & E2)].
    + rewrite Hrun in E2. injection E2 as <- E2. cbn in E |- *.
      apply bind_inv in E as [(u & w3 & E3 & E)|(e & E3 & ->)].
      * apply wrap_Ok_inv in E3. unfold of_res in E3. simplify_eq. go_inv.
        match goal with Hp : uuid_Parse uid = Ok _ |- _ => rewrite Hp end.
        split; [done|]. split; [done|]. split; [done|]. rewrite Hold, Hnew. cbn.
        match goal with Hp : uuid_Parse uid = Ok _ |- _ => rewrite Hp end.
        split; [done|]. split; [done|]. intros x Hx1 Hx2. by rewrite Hx.
      * apply wrap_inv in E3 as (r1 & E3 & Hr1). unfold of_res in E3. simplify_eq.
        split; [done|]. destruct (uuid_Parse uid); by simplify_eq.
    + rewrite Hnil in E. unfold fail in E. simplify_eq.
      split; [|done]. destruct E2 as [->|E2]; [done|]. rewrite E2, Hrun. done.
  - pose proof (lua_run_Ok _ _ _ _ (rotate_absent_spec (whole_seconds ttl) _ t t' Et)) as Hrun.
    apply script_Text_inv in E2 as [(rep & E2 & ->)|(e & -> & Hnil & E2)].
    + rewrite Hrun in E2. injection E2 as <- E2. rewrite errors_Is_refl in E. unfold fail in E.
      injection E as <- <-. by rewrite <-E2.
    + rewrite Hnil in E. unfold fail in E. simplify_eq.
      split; [|done]. by destruct E2 as [-> | ->]; rewrite ?Hrun.
Qed.

(** Rotating a token that is not live fails and changes nothing. *)
Lemma Rotate_absent ttl t w r w' :
  ks_map (vk_view w) !! refreshKey t = None → RotateRefreshToken (U := U) t ttl w = (r, w') →
  vk_view w' = vk_view w ∧ ∃ e, r = Err e.
Proof.
  intros Et E. unfold RotateRefreshToken in E.
  rewrite (bind_Ok _ _ _ _ _ (new_uuid_eq w)) in E.
  pose proof (uuid_New_view (U := U) w) as Hv. destruct (uuid_New w) as [id w1]. simpl in Hv.
  cbn [fst snd] in E. rewrite <-Hv in *.
  apply bind_inv in E as [(res0 & w2 & E2 & E)|(e & E2 & _)];
    apply try_inv in E2 as (r0 & Hr0 & E2); [|done]. injection Hr0 as ->.
  pose proof (lua_run_Ok _ _ _ _
    (rotate_absent_spec (whole_seconds ttl) _ t (uuid_String id) Et)) as Hrun.
  apply script_Text_inv in E2 as [(rep & E2 & ->)|(e & -> & Hnil & E2)].
  - rewrite Hrun in E2. injection E2 as <- E2. rewrite errors_Is_refl in E. unfold fail in E.
    injection E as <- <-. rewrite <-E2. eauto.
  - rewrite Hnil in E. unfold fail in E. simplify_eq.
    split; [|eauto]. by destruct E2 as [-> | ->]; rewrite ?Hrun.
Qed.

Lemma RevokeAll_run ttl u w r w' :
  Second ≤ ttl → indexed named (whole_seconds ttl * Second) (vk_view w) →
  RevokeAllRefreshTokens u w = (r, w') →
  indexed named (whole_seconds ttl * Second) (vk_view w') ∧
  (r = Ok tt → ∀ t d, ks_map (vk_view w') !! refreshKey t ≠ Some (Entry (VStr (uuid_String u)) d)).
Proof.
  intros Httl Hi E. unfold RevokeAllRefreshTokens, userRefreshKey in E.
  fold (uset (uuid_String u)) in E.
  pose proof (whole_seconds_pos ttl Httl) as Hp.
  destruct (revoke_spec _ _ Hp (vk_view w) (uuid_String u) Hi)
    as (rep & k' & Hrun & Hr1 & Hr2 & _ & Hi' & Hgone & _). apply lua_run_Ok in Hrun.
  apply bind_inv in E as [(r0 & w1 & E1 & E)|(e & E1 & _)];
    apply try_inv in E1 as (r1 & Hr & E1); [|done]. injection Hr as ->.
  apply script_Result_inv in E1 as [(rep' & E1 & ->)|(e & -> & Hnil & E1)].
  - rewrite Hrun in E1. injection E1 as <- ->.
    destruct rep as [| |[]| |]; simpl in E; try done; go_inv; by auto.
  - rewrite Hnil in E. simpl in E. unfold fail in E. simplify_eq.
    split; [|done]. destruct E1 as [-> | ->]; by rewrite ?Hrun.
Qed.

(** The life of the token store with the configured lifetime: tokens are created, rotated
    and revoked, with any outcome of the calls; time passes; other keys change.  The
    identifiers [uuid.New] returns are new. *)
Inductive token_history (ttl : Z) : W → Prop :=
| th_empty w : (∀ t, ks_map (vk_view w) !! refreshKey t = None) →
    (∀ uid, ks_map (vk_view w) !! uset uid = None) → token_history ttl w
| th_create w u r w' : token_history ttl w → fresh_token w →
    CreateRefreshToken u ttl w = (r, w') → token_history ttl w'
| th_rotate w t r w' : token_history ttl w → fresh_token w →
    t ≠ uuid_String (uuid_New (U := U) w).1 →
    RotateRefreshToken t ttl w = (r, w') → token_history ttl w'
| th_revoke w u r w' : token_history ttl w →
    RevokeAllRefreshTokens u w = (r, w') → token_history ttl w'
| th_wait w w' d : token_history ttl w → 0 ≤ d →
    vk_view w' = ks_advance d (vk_view w) → token_history ttl w'
| th_other w w' : token_history ttl w → ks_now (vk_view w') = ks_now (vk_view w) →
    (∀ t, ks_map (vk_view w') !! refreshKey t = ks_map (vk_view w) !! refreshKey t) →
    (∀ uid, ks_map (vk_view w') !! uset uid = ks_map (vk_view w) !! uset uid) →
    token_history ttl w'.

Lemma history_indexed ttl w :
  Second ≤ ttl → token_history ttl w →
  indexed named (whole_seconds ttl * Second) (vk_view w).
Proof.
  intros Httl. induction 1 as [w H1t H2t|w u r w' _ IH Hf E|w t r w' _ IH Hf Hne E
                             |w u r w' _ IH E|w w' d _ IH Hd Hv|w w' _ IH Hn Ht Hu].
  - split; [intros t e; by rewrite H1t|intros uid e; by rewrite H2t].
  - by eapply CreateRefreshToken_indexed.
  - by eapply RotateRefreshToken_run.
  - by eapply RevokeAll_run.
  - rewrite Hv. by apply advance_indexed.
  - by eapply other_indexed.
Qed.

(** Rotation.  A rotation that succeeds consumed a token of the user it returns: that
    token no longer stands for anyone, the new token stands for the same user, and no
    other token changed.  A rotation that reports reuse found no such token and changed
    nothing. *)
Lemma Rotate_correct ttl t w r w' :
  Second ≤ ttl → token_history ttl w → fresh_token w →
  t ≠ uuid_String (uuid_New (U := U) w).1 →
  RotateRefreshToken t ttl w = (r, w') →
  let t' := uuid_String (uuid_New (U := U) w).1 in
  match r with
  | Ok (t2, u) => t2 = t' ∧ token_user (vk_view w) t = Some u ∧
      token_user (vk_view w') t = None ∧ token_user (vk_view w') t' = Some u ∧
      ∀ x, x ≠ t → x ≠ t' → token_user (vk_view w') x = token_user (vk_view w) x
  | Err e => e = ErrRefreshTokenReused →
      token_user (vk_view w) t = None ∧ vk_view w' = vk_view w
  end.
Proof.
  intros Httl Hh Hf Hne E. eapply RotateRefreshToken_run; [done..| |done|exact E].
  by apply history_indexed.
Qed.

(** C20: Revocation is complete.  After a successful revocation of a user's tokens no
    token stands for that user, however the tokens were created, rotated and expired
    before: the per-user index never misses a live token. *)
Theorem RevokeAll_complete ttl u w w' :
  Second ≤ ttl → token_history ttl w →
  RevokeAllRefreshTokens u w = (Ok tt, w') →
  ∀ t, token_user (vk_view w') t ≠ Some u.
Proof.
  intros Httl Hh E t. apply (RevokeAll_run ttl) in E as [Hi Hgone]; [|done|by apply history_indexed].
  unfold token_user, ks_lookup. destruct (ks_map (vk_view w') !! refreshKey t) as [e|] eqn:Et; [|done].
  destruct (proj1 Hi _ _ Et) as (uid & s & d & de & -> & (u' & ->) & _). simpl.
  rewrite uuid_Parse_String. intros [= ->]. by apply (Hgone eq_refl t (Some d)).
Qed.

(** [ValidateRefreshToken] answers with the user a token stands for and changes nothing. *)
Lemma ValidateRefreshToken_spec t w r w' :
  ValidateRefreshToken t w = (r, w') →
  vk_view w' = vk_view w ∧
  match r with
  | Ok u => token_user (vk_view w) t = Some u
  | Err e => e = ErrRefreshTokenNotFound → token_user (vk_view w) t = None
  end.
Proof.
  unfold ValidateRefreshToken, token_user. intros E.
  apply bind_inv in E as [(r0 & w1 & E1 & E)|(e & E1 & _)];
    apply try_inv in E1 as (r1 & Hr & E1); [|done]. injection Hr as ->.
  destruct r1 as [v|e].
  - apply rdb_Get_Ok in E1 as [Hl Hv]. rewrite Hl.
    apply wrap_inv in E as (r2 & E & ->). unfold of_res in E. simplify_eq.
    split; [done|]. by destruct (uuid_Parse v).
  - apply rdb_Get_Err in E1 as [Hv Hn]. destruct (errors_Is e redis_Nil); unfold fail in E;
      simplify_eq; (split; [done|]); [|done]. intros _. by rewrite Hn.
Qed.

(** *** Tickets *)
Lemma create_ticket_run key u ttl ctx w tk w' :
  0 < ttl → create_ticket key u ttl ctx w = (Ok tk, w') →
  ks_map (vk_view w') !! key tk =
    Some (Entry (VStr (uuid_String u)) (Some (ks_now (vk_view w') + ttl))).
Proof.
  intros Ht E. unfold create_ticket in E. rewrite (bind_Ok _ _ _ _ _ (new_uuid_eq w)) in E.
  apply bind_Ok_inv in E as ([] & w1 & E1 & E). apply wrap_Ok_inv, rdb_Set_Ok in E1. go_inv.
  rewrite E1. cbn. rewrite lookup_insert_eq. unfold deadline. by rewrite (proj2 (Z.ltb_lt _ _)).
Qed.

Lemma consume_ticket_run key c1 c2 w r w' :
  consume_ticket key c1 c2 w = (r, w') →
  match r with
  | Ok u => (∃ s, ks_lookup (vk_view w) key = Some (VStr s) ∧ uuid_Parse s = Ok u) ∧
            ks_map (vk_view w') !! key = None
  | Err e => e = ErrInvalidToken → ks_lookup (vk_view w) key = None
  end.
Proof.
  unfold consume_ticket. intros E.
  apply bind_inv in E as [(r0 & w1 & E1 & E)|(e & E1 & _)];
    apply try_inv in E1 as (r1 & Hr & E1); [|done]. injection Hr as ->.
  destruct r1 as [v|e].
  - apply rdb_GetDel_Ok in E1 as [Hl Hv].
    apply wrap_inv in E as (r2 & E & ->). unfold of_res in E. simplify_eq.
    destruct (uuid_Parse v) eqn:Ep; [|done]. split; [eauto|]. rewrite Hv. simpl.
    apply lookup_delete_eq.
  - apply rdb_GetDel_Err in E1 as [_ Hn]. destruct (errors_Is e redis_Nil); unfold fail in E;
      simplify_eq; [auto|done].
Qed.

(** A gateway ticket identifies its user once and for thirty seconds.  A consumption
    that succeeds happens before the ticket expires and returns the user it was created
    for; every later one fails, whatever else happens to the other keys in between. *)
Lemma gateway_ticket_single_use u w tk w1 d w2 u' w3 w4 r w5 :
  CreateGatewayTicket u w = (Ok tk, w1) → 0 ≤ d →
  vk_view w2 = ks_advance d (vk_view w1) →
  ConsumeGatewayTicket tk w2 = (Ok u', w3) →
  ks_map (vk_view w4) !! gatewayTicketKey tk = ks_map (vk_view w3) !! gatewayTicketKey tk →
  ConsumeGatewayTicket tk w4 = (r, w5) →
  u' = u ∧ d < GatewayTicketTTL ∧ ∀ v, r ≠ Ok v.
Proof.
  intros Hc Hd Hv E1 Hsame E2. apply create_ticket_run in Hc; [|done].
  apply consume_ticket_run in E1 as ((s & Hs & Hp) & Hgone).
  unfold ks_lookup in Hs. rewrite Hv in Hs. simpl in Hs. rewrite map_lookup_filter, Hc in Hs.
  cbn in Hs. unfold alive in Hs. cbn in Hs.
  destruct (Z.ltb_spec (ks_now (vk_view w1) + d) (ks_now (vk_view w1) + GatewayTicketTTL)).
  - rewrite option_guard_True in Hs by done. cbn in Hs. injection Hs as <-.
    rewrite uuid_Parse_String in Hp. simplify_eq.
    split; [done|]. split; [lia|]. intros v ->.
    apply consume_ticket_run in E2 as ((s & Hs2 & _) & _). unfold ks_lookup in Hs2.
    by rewrite Hsame, Hgone in Hs2.
  - by rewrite option_guard_False in Hs.
Qed.
End properties.

(** ** Witnesses: a server with a counter that numbers the identifiers it hands out *)
Module Witness.
Record tsim := mkTsim { ts_ks : keyspace; ts_next : nat }.
#[local] Instance tsim_ks : HasKeyspace tsim :=
  {| ks_of := ts_ks; ks_put := λ k w, mkTsim k (ts_next w); ks_of_put := λ _ _, eq_refl |}.
#[local] Existing Instance mem_Valkey.
#[local] Existing Instance mem_ValkeyLaws.

(** The [n]-th identifier: its last digit counts up. *)
Definition num_uuid (n : nat) : cuuid :=
  match n with
  | 0%nat => "00000000-0000-4000-8000-0000000000f0"%string ↾ eq_refl
  | 1%nat => "00000000-0000-4000-8000-0000000000f1"%string ↾ eq_refl
  | 2%nat => "00000000-0000-4000-8000-0000000000f2"%string ↾ eq_refl
  | _ => "00000000-0000-4000-8000-0000000000f3"%string ↾ eq_refl
  end.
#[local] Instance tsim_ids : IdGen cuuid tsim :=
  {| uuid_New := λ w, (num_uuid (ts_next w), mkTsim (ts_ks w) (S (ts_next w))) |}.
#[local] Instance tsim_ids_laws : IdGenLaws cuuid tsim.
Proof. by constructor. Qed.

Definition ttl : Z := 3600 * Second.
Definition w0 : tsim := mkTsim (Keyspace 0 ∅ []) 0.
Definition frank : cuuid := "00000000-0000-4000-8000-0000000000a1"%string ↾ eq_refl.
Definition tok0 : string := uuid_String (num_uuid 0).
Definition tok1 : string := uuid_String (num_uuid 1).
Definition w1 : tsim := (CreateRefreshToken frank ttl w0).2.
Definition w2 : tsim := (RotateRefreshToken (U := cuuid) tok0 ttl w1).2.
Definition w3 : tsim := (RevokeAllRefreshTokens frank w2).2.

Lemma live_dec k t : bool_decide (is_Some (ks_map k !! refreshKey t)) = false → ¬ token_live k t.
Proof. intros E. by apply bool_decide_eq_false in E. Qed.

Lemma history_w1 : token_history (U := cuuid) ttl w1.
Proof.
  eapply (th_create ttl w0 frank (Ok tok0)); [|apply live_dec; vm_compute; reflexivity|].
  - refine (th_empty (U := cuuid) ttl w0 _ _); intros; exact (lookup_empty (M := gmap string) _).
  - apply run_eq. vm_compute. reflexivity.
Qed.

Lemma history_w2 : token_history (U := cuuid) ttl w2.
Proof.
  eapply (th_rotate ttl w1 tok0 (Ok (tok1, frank))); [apply history_w1| | |].
  - apply live_dec. vm_compute. reflexivity.
  - vm_compute. discriminate.
  - unfold w2. apply run_eq. vm_compute. reflexivity.
Qed.

Lemma Rotate_correct_witness :
  (RotateRefreshToken (U := cuuid) tok0 ttl w1).1 = Ok (tok1, frank) ∧
  (RotateRefreshToken (U := cuuid) tok0 ttl w2).1 = Err ErrRefreshTokenReused ∧
  token_user (U := cuuid) (vk_view w2) tok0 = None.
Proof.
  split; [vm_compute; reflexivity|]. split; [vm_compute; reflexivity|].
  edestruct (Rotate_correct (U := cuuid) ttl tok0 w1 (Ok (tok1, frank)) w2)
    as (_ & _ & Hold & _); [| | | | |exact Hold].
  - vm_compute. discriminate.
  - apply history_w1.
  - apply live_dec. vm_compute. reflexivity.
  - vm_compute. discriminate.
  - unfold w2. apply run_eq. vm_compute. reflexivity.
Defined.

Lemma RevokeAll_complete_witness :
  token_user (vk_view w2) tok1 = Some frank ∧ token_user (vk_view w3) tok1 ≠ Some frank.
Proof.
  split; [vm_compute; reflexivity|].
  apply (RevokeAll_complete ttl frank w2 w3); [vm_compute; discriminate|apply history_w2|].
  unfold w3. apply run_eq. vm_compute. reflexivity.
Defined.

Definition g1 : tsim := (CreateGatewayTicket frank w0).2.
Definition g2 : tsim := mkTsim (ks_advance (29 * Second) (ts_ks g1)) 1.
Definition g3 : tsim := (ConsumeGatewayTicket (U := cuuid) tok0 g2).2.
Lemma gateway_ticket_single_use_witness :
  (ConsumeGatewayTicket tok0 g2).1 = Ok frank ∧
  (ConsumeGatewayTicket (U := cuuid) tok0 g3).1 = Err ErrInvalidToken ∧
  29 * Second < GatewayTicketTTL.
Proof.
  split; [vm_compute; reflexivity|]. split; [vm_compute; reflexivity|].
  apply (gateway_ticket_single_use frank w0 tok0 g1 (29 * Second) g2 frank g3 g3
           (Err ErrInvalidToken) (ConsumeGatewayTicket (U := cuuid) tok0 g3).2);
    [unfold g1|discriminate|reflexivity|unfold g3|reflexivity|];
    apply run_eq; vm_compute; reflexivity.
Defined.
End Witness.
