(* ===== verification/Jwt.v ===== *)
(** * Access tokens: internal/auth/jwt.go

    github.com/golang-jwt/jwt signs and parses; the module decides what is signed and what a
    parsed token must satisfy.  Numeric dates are whole seconds. *)
From S2P Require Import Prelude GoStd Platform.
Open Scope Z_scope.

Record AccessClaims := mkAccessClaims {
  Subject : string;
  Issuer : string;
  IssuedAt : Z;
  ExpiresAt : Z;
  EmailVerified : bool;
}.

(** [jwt_Sign claims secret] is NewWithClaims(HS256, claims).SignedString(secret);
    [jwt_Parse token secret issuer now] is ParseWithClaims with the HMAC key function and the
    issuer option, at instant [now]. *)
Class JwtLib : Type := {
  jwt_Sign : AccessClaims → string → res string;
  jwt_Parse : string → string → string → Z → res AccessClaims;
}.

(** Documented: a token signed with the same key parses to its claims if and only if the
    issuer is the expected one and the expiry instant has not come. *)
Class JwtLaws `{JwtLib} : Prop := {
  jwt_Parse_signed : ∀ c secret tok issuer now,
    jwt_Sign c secret = Ok tok →
    (issuer = Issuer c ∧ now < ExpiresAt c * Second → jwt_Parse tok secret issuer now = Ok c) ∧
    (issuer ≠ Issuer c ∨ ExpiresAt c * Second ≤ now → ∃ e, jwt_Parse tok secret issuer now = Err e);
}.

Section jwt.
Context {U W : Type} `{UUIDLib U} `{JwtLib} `{Clock W}.

Definition NewNumericDate (t : Z) : Z := t / Second.

Definition NewAccessToken (userID : U) (secret : string) (ttl : Z) (issuer : string)
    (emailVerified : bool) : M W string :=
  if bool_decide (secret = ""%string) then fail (Plain "JWT secret must not be empty")
  else if bool_decide (issuer = ""%string) then fail (Plain "JWT issuer must not be empty")
  else
    now ← gets time_Now;
    let claims := mkAccessClaims (uuid_String userID) issuer (NewNumericDate now)
                    (NewNumericDate (now + ttl)) emailVerified in
    wrap "sign access token" (of_res (jwt_Sign claims secret)).

Definition ValidateAccessToken (tokenStr secret issuer : string) : M W AccessClaims :=
  if bool_decide (issuer = ""%string) then fail (Plain "JWT issuer must not be empty")
  else
    now ← gets time_Now;
    of_res (jwt_Parse tokenStr secret issuer now).
End jwt.

Section properties.
Context {U W : Type} `{UUIDLaws U} `{JwtLaws} `{Clock W}.
Implicit Types (w : W) (u : U).

(** An access token authenticates its user until it expires.  Presented with the same
    secret and issuer it validates, with its user as subject and the verification flag it
    was issued with, at every instant up to a second before [ttl] after it was issued, and
    never from [ttl] on; for another issuer it never validates. *)
Lemma access_token_lifetime u secret ttl issuer ver w tok w1 w2 r issuer2 w3 :
  NewAccessToken u secret ttl issuer ver w = (Ok tok, w1) →
  ValidateAccessToken tok secret issuer2 w2 = (r, w3) →
  (issuer2 = issuer → time_Now w2 + Second ≤ time_Now w + ttl →
     ∃ c, r = Ok c ∧ uuid_Parse (Subject c) = Ok u ∧ EmailVerified c = ver) ∧
  (issuer2 ≠ issuer ∨ time_Now w + ttl ≤ time_Now w2 → ∃ e, r = Err e).
Proof.
  unfold NewAccessToken, ValidateAccessToken. intros E1 E2.
  destruct (bool_decide_reflect (secret = ""%string)); [done|].
  destruct (bool_decide_reflect (issuer = ""%string)) as [|Hi]; [done|].
  unfold gets, mbind, M_bind in E1. cbn in E1.
  destruct (jwt_Sign _ secret) as [tok'|e] eqn:Es; [|done]. injection E1 as -> _.
  apply (jwt_Parse_signed _ _ _ issuer2 (time_Now w2)) in Es as [Hok Hbad]. simpl in *.
  unfold NewNumericDate in *. set (x := time_Now w + ttl) in *.
  unfold Second in *. pose proof (Z.div_mod x 1000000000 ltac:(done)).
  pose proof (Z.mod_pos_bound x 1000000000 ltac:(done)).
  destruct (bool_decide_reflect (issuer2 = ""%string)) as [->|Hi2].
  { unfold fail in E2. simplify_eq. split; [by intros <-|eauto]. }
  unfold gets, mbind, M_bind, of_res in E2. cbn in E2. injection E2 as <- _. split.
  - intros -> Hn. eexists. split; [apply Hok; split; [done|lia]|]. simpl.
    by rewrite uuid_Parse_String.
  - intros [Hne|Hn]; apply Hbad; [by left|right; lia].
Qed.
End properties.

(** ** Witness: a signature that keeps the claims and the key in the clear *)
Module Witness.
#[local] Instance claims_eq_dec : EqDecision AccessClaims.
Proof. solve_decision. Defined.
#[local] Instance claims_countable : Countable AccessClaims.
Proof.
  refine (inj_countable' (λ c, (Subject c, Issuer c, IssuedAt c, ExpiresAt c, EmailVerified c))
            (λ '(a, b, c, d, e), mkAccessClaims a b c d e) _). by intros [].
Defined.
Definition plain_JwtLib : JwtLib := {|
  jwt_Sign := λ c secret, Ok (bits (encode (c, secret)));
  jwt_Parse := λ tok secret issuer now,
    match decode (A := AccessClaims * string) (unbits tok) with
    | Some (c, k) =>
        if bool_decide (k = secret) && bool_decide (issuer = Issuer c) && (now <? ExpiresAt c * Second)
        then Ok c else Err (Plain "token is invalid")
    | None => Err (Plain "token is malformed")
    end |}.
Lemma plain_JwtLaws : JwtLaws (H := plain_JwtLib).
Proof.
  constructor. intros c secret tok issuer now [= <-]. cbn [jwt_Parse plain_JwtLib].
  rewrite unbits_bits, decode_encode, bool_decide_eq_true_2 by done.
  rewrite andb_true_l. split.
  - intros [-> Hn]. by rewrite bool_decide_eq_true_2, (proj2 (Z.ltb_lt _ _)).
  - intros [Hne|Hn].
    + rewrite bool_decide_eq_false_2 by done. eauto.
    + rewrite (proj2 (Z.ltb_ge _ _)), andb_false_r by done. eauto.
Qed.
#[local] Existing Instance plain_JwtLib.
#[local] Existing Instance plain_JwtLaws.
#[local] Instance z_clock : Clock Z := {| time_Now := id |}.

Definition gina : cuuid := "00000000-0000-4000-8000-0000000000b7"%string ↾ eq_refl.
Definition tok : string :=
  Eval vm_compute in
    match (NewAccessToken gina "secret" (900 * Second) "https://chat" true 5).1 with
    | Ok t => t | Err _ => ""%string
    end.

Lemma access_token_lifetime_witness :
  (∃ c, (ValidateAccessToken tok "secret" "https://chat" (899 * Second)).1 = Ok c ∧
        uuid_Parse (Subject c) = Ok gina ∧ EmailVerified c = true) ∧
  (∃ e, (ValidateAccessToken tok "secret" "https://chat" (900 * Second + 5)).1 = Err e).
Proof.
  split.
  - eapply (access_token_lifetime gina "secret" (900 * Second) "https://chat" true 5 tok 5
             (899 * Second) _ "https://chat"); [vm_compute; reflexivity| |done|vm_compute; discriminate].
    apply run_eq. reflexivity.
  - eapply (access_token_lifetime gina "secret" (900 * Second) "https://chat" true 5 tok 5
             (900 * Second + 5) _ "https://chat"); [vm_compute; reflexivity| |right; vm_compute; discriminate].
    apply run_eq. reflexivity.
Defined.
End Witness.
