(* ===== verification/Session.v ===== *)
(** * Resumable sessions: internal/gateway/session.go

    When a connection closes its session is saved for [ttl]; every sequenced event sent to
    it was appended to a replay buffer of at most [maxReplay] entries.  Both live in Valkey
    under keys derived from the session identifier. *)
From S2P Require Import Prelude GoStd Platform.
Open Scope Z_scope.

Record sessionData := mkSessionData {
  sd_UserID : string;
  sd_LastSeq : Z;
  sd_DisconnectedAt : Z;
}.

Record replayEntry := mkReplayEntry { re_Seq : Z; re_Payload : string }.

Record SessionStore := mkSessionStore { ss_ttl : Z; ss_maxReplay : Z }.

Record LoadedSession (U : Type) := mkLoadedSession { ls_UserID : U; ls_LastSeq : Z }.
Arguments mkLoadedSession {U}. Arguments ls_UserID {U}. Arguments ls_LastSeq {U}.

Definition ErrSessionNotFound : error := Sentinel "gateway.ErrSessionNotFound".

Definition sessionKey (sessionID : string) : string := "gwsession:" +:+ sessionID.
Definition replayKey (sessionID : string) : string := "gwreplay:" +:+ sessionID.

Section session.
Context {U W : Type} `{UUIDLib U} `{Valkey W} `{Clock W}.
Context `{Codec sessionData} `{Codec replayEntry}.

Definition Save (s : SessionStore) (sessionID : string) (userID : U) (lastSeq : Z) : M W unit :=
  now ← gets time_Now;
  data ← wrap "marshal session"
           (of_res (json_Marshal (mkSessionData (uuid_String userID) lastSeq (now / Second))));
  wrap "save session"
    (pipe_Exec [SET (sessionKey sessionID) data (ss_ttl s);
                EXPIRE (replayKey sessionID) (ss_ttl s)]).

Definition Load (s : SessionStore) (sessionID : string) : M W (LoadedSession U) :=
  raw ← try (rdb_Get (sessionKey sessionID));
  match raw with
  | Err err =>
      if errors_Is err redis_Nil then fail ErrSessionNotFound else fail (Wrap "load session" err)
  | Ok raw =>
      sd ← wrap "unmarshal session" (of_res (json_Unmarshal raw));
      userID ← wrap "parse session user ID" (of_res (uuid_Parse (sd_UserID sd)));
      mret (mkLoadedSession userID (sd_LastSeq sd))
  end.

Definition Delete (s : SessionStore) (sessionID : string) : M W unit :=
  wrap "delete session" (_ ← rdb_Del [sessionKey sessionID; replayKey sessionID]; mret tt).

Definition AppendReplay (s : SessionStore) (sessionID : string) (seq : Z) (payload : string)
    : M W unit :=
  entry ← wrap "marshal replay entry" (of_res (json_Marshal (mkReplayEntry seq payload)));
  let key := replayKey sessionID in
  wrap "append replay"
    (pipe_Exec [RPUSH key entry; LTRIM key (- ss_maxReplay s) (-1); EXPIRE key (ss_ttl s)]).

(** The loop of [Replay]: malformed entries are skipped. *)
Definition replay_item (afterSeq : Z) (item : string) : option string :=
  match json_Unmarshal item with
  | Ok entry => if afterSeq <? re_Seq entry then Some (re_Payload entry) else None
  | Err _ => None
  end.

Definition Replay (s : SessionStore) (sessionID : string) (afterSeq : Z) : M W (list string) :=
  raw ← wrap "read replay buffer" (rdb_LRange (replayKey sessionID) 0 (-1));
  mret (omap (replay_item afterSeq) raw).
End session.

(** ** Properties *)

(** The last [n] elements. *)
Definition last_n {A} (n : nat) (l : list A) : list A := drop (length l - n) l.

Lemma list_range_all {A} (l : list A) : list_range l 0 (-1) = l.
Proof.
  unfold list_range, list_index. simpl. destruct l as [|x l]; [done|].
  set (n := Z.of_nat (length (x :: l))). assert (1 ≤ n) by (unfold n; simpl; lia).
  rewrite (proj2 (Z.ltb_ge _ _)) by lia. rewrite drop_0, take_ge; [done|].
  replace (Z.to_nat _) with (length (x :: l)) by lia. lia.
Qed.

Lemma list_range_tail {A} (l : list A) m :
  1 ≤ m → list_range l (- m) (-1) = last_n (Z.to_nat m) l.
Proof.
  intros Hm. unfold list_range, list_index, last_n.
  rewrite (proj2 (Z.ltb_lt (- m) 0)) by lia. simpl.
  destruct (decide (l = [])) as [->|Hl].
  { by rewrite !drop_nil, take_nil; case_match. }
  assert (0 < length l)%nat by (destruct l; simpl; [done|lia]).
  rewrite (proj2 (Z.ltb_ge _ _)) by lia.
  replace (Z.to_nat (Z.max 0 (Z.of_nat (length l) + - m))) with (length l - Z.to_nat m)%nat by lia.
  rewrite take_ge; [done|]. rewrite length_drop. lia.
Qed.

Lemma last_n_snoc {A} n (l : list A) x :
  (1 ≤ n)%nat → last_n n (last_n n l ++ [x]) = last_n n (l ++ [x]).
Proof.
  intros Hn. unfold last_n. rewrite !length_app, length_drop. simpl.
  destruct (decide (n ≤ length l)%nat).
  - rewrite !drop_app_le by (rewrite ?length_drop; lia). rewrite drop_drop. do 2 f_equal. lia.
  - replace (length l - n)%nat with 0%nat by lia. rewrite drop_0, Nat.sub_0_r. done.
Qed.

Lemma last_n_fmap {A B} n (f : A → B) l : last_n n (f <$> l) = f <$> last_n n l.
Proof. unfold last_n. by rewrite length_fmap, fmap_drop. Qed.

Lemma Forall2_last_n {A B} (P : A → B → Prop) n l k :
  Forall2 P l k → Forall2 P (last_n n l) (last_n n k).
Proof.
  intros Hf. unfold last_n. rewrite (Forall2_length _ _ _ Hf). by apply Forall2_drop.
Qed.

Lemma last_n_ne {A} n (l : list A) x : (1 ≤ n)%nat → last_n n (l ++ [x]) ≠ [].
Proof.
  intros Hn E%(f_equal length). unfold last_n in E.
  rewrite length_drop, length_app in E. simpl in E. lia.
Qed.

(** Reading back a list written over a key. *)
Lemma put_list_ne k l : l ≠ [] → put_list k l = put_val k (VList l).
Proof. by destruct l. Qed.

Lemma as_list_put k l v : as_list (ks_upd (put_list k l) v) k = Some l.
Proof.
  unfold as_list, ks_lookup, ks_upd, put_list. destruct l; simpl.
  - by rewrite lookup_delete_eq.
  - unfold put_val. by rewrite lookup_insert_eq.
Qed.

Section frame.
Context {W : Type} `{ValkeyLaws W} `{Codec replayEntry}.

(** An append touches no other session's buffer, whatever its outcome. *)
Lemma AppendReplay_other s sid sid' q p w r w' :
  sid' ≠ sid → AppendReplay s sid q p w = (r, w') →
  ks_map (vk_view w') !! replayKey sid' = ks_map (vk_view w) !! replayKey sid'.
Proof.
  intros Hne E. unfold AppendReplay in E.
  apply bind_inv in E as [(item & w1 & E1 & E)|(e & E1 & _)]; apply wrap_inv in E1 as (? & E1 & _);
    unfold of_res in E1; simplify_eq; [|done].
  apply wrap_inv in E as (r1 & E & _). apply (pipe_Exec_other _ _ _ _ _ E).
  assert (replayKey sid' ≠ replayKey sid) by (unfold replayKey; by intros ?%(inj (String.append _))).
  intros c Hc. repeat (apply elem_of_cons in Hc as [->|Hc]; [simpl; set_solver|]). set_solver.
Qed.
End frame.

Section properties.
Context {U W : Type} `{UUIDLaws U} `{ValkeyLaws W} `{Clock W}.
Context `{CodecLaws sessionData} `{CodecLaws replayEntry}.
Context (s : SessionStore).
Implicit Types (w : W) (sid : string) (es : list (Z * string)).

(** The buffer of [sid] holds the encodings of [es] and expires at [d]. *)
Definition buffered w sid (es : list (Z * string)) (d : Z) : Prop :=
  ∃ items, ks_map (vk_view w) !! replayKey sid = Some (Entry (VList items) (Some d)) ∧
           Forall2 (λ item e, json_Unmarshal item = Ok (mkReplayEntry e.1 e.2)) items es.

(** The life of a replay buffer while its connection is open: events are appended, other
    keys change, and less than [ttl] passes between two events.  The last argument is the
    time since the last event. *)
Inductive replay_history sid : W → list (Z * string) → Z → Prop :=
| rh_new w : ks_map (vk_view w) !! replayKey sid = None → replay_history sid w [] 0
| rh_append w w' es a q p :
    replay_history sid w es a → AppendReplay s sid q p w = (Ok tt, w') →
    replay_history sid w' (es ++ [(q, p)]) 0
| rh_wait w w' es a d :
    replay_history sid w es a → 0 ≤ d → a + d < ss_ttl s →
    vk_view w' = ks_advance d (vk_view w) → replay_history sid w' es (a + d)
| rh_other w w' es a :
    replay_history sid w es a → ks_now (vk_view w') = ks_now (vk_view w) →
    ks_map (vk_view w') !! replayKey sid = ks_map (vk_view w) !! replayKey sid →
    replay_history sid w' es a.

(** What one append does to the buffer. *)
Lemma AppendReplay_run sid q p w w' :
  AppendReplay s sid q p w = (Ok tt, w') → 1 ≤ ss_maxReplay s → 0 < ss_ttl s →
  ∃ old item, as_list (vk_view w) (replayKey sid) = Some old ∧
    json_Marshal (mkReplayEntry q p) = Ok item ∧
    ks_now (vk_view w') = ks_now (vk_view w) ∧
    ks_map (vk_view w') !! replayKey sid =
      Some (Entry (VList (last_n (Z.to_nat (ss_maxReplay s)) (old ++ [item])))
              (Some (ks_now (vk_view w) + ss_ttl s))).
Proof.
  intros E Hm Ht. unfold AppendReplay in E.
  apply bind_Ok_inv in E as (item & w1 & E1 & E). apply wrap_Ok_inv in E1. go_inv.
  apply pipe_Exec_Ok in E as (rs & E & Hok).
  set (k := replayKey sid) in *. set (v := vk_view w1) in *.
  cbn [run_cmds run_cmd] in E.
  destruct (as_list v k) as [old|] eqn:Eold.
  2:{ rewrite ?Eold in E. repeat case_match; simplify_eq; by apply Forall_cons in Hok as [? _]. }
  exists old, item. rewrite as_list_put in E.
  assert (1 ≤ Z.to_nat (ss_maxReplay s))%nat as Hm' by lia.
  rewrite list_range_tail, (put_list_ne k (last_n _ _)) in E by (done || by apply last_n_ne).
  cbn [ks_upd ks_map ks_now] in E. unfold put_val in E at 1. rewrite lookup_insert_eq in E.
  cbn [e_val] in E. rewrite (proj2 (Z.ltb_lt _ _)) in E by done. injection E as _ E.
  rewrite <-E. cbn. by rewrite lookup_insert_eq.
Qed.

Lemma history_buffered sid w es a :
  1 ≤ ss_maxReplay s → 0 < ss_ttl s → replay_history sid w es a →
  0 ≤ a ∧
  ((es = [] ∧ ks_map (vk_view w) !! replayKey sid = None) ∨
   buffered w sid (last_n (Z.to_nat (ss_maxReplay s)) es) (ks_now (vk_view w) + ss_ttl s - a)).
Proof.
  intros Hm Ht. induction 1 as [w Hn|w w' es a q p Hh [IHa IH] E|w w' es a d Hh [IHa IH] Hd Had Hv
                               |w w' es a Hh [IHa IH] Hnow Hmap].
  - split; [done|by left].
  - split; [done|right].
    apply AppendReplay_run in E as (old & item & Hold & Hitem & Hnow & Hmap); [|done..].
    apply json_round_trip in Hitem.
    exists (last_n (Z.to_nat (ss_maxReplay s)) (old ++ [item])). rewrite Hmap, Hnow.
    split; [by rewrite Z.sub_0_r|].
    assert (Forall2 (λ item e, json_Unmarshal item = Ok (mkReplayEntry e.1 e.2))
              old (last_n (Z.to_nat (ss_maxReplay s)) es)) as Hf.
    { unfold as_list, ks_lookup in Hold.
      destruct IH as [[-> Hn]|(items & Hl & Hf)].
      - rewrite Hn in Hold. simplify_eq/=. constructor.
      - rewrite Hl in Hold. by simplify_eq/=. }
    rewrite <-(last_n_snoc _ es) by lia. apply Forall2_last_n, Forall2_app; [done|].
    by repeat constructor.
  - split; [lia|]. destruct IH as [[-> Hn]|(items & Hl & Hf)]; [left|right].
    + split; [done|]. rewrite Hv. simpl. by rewrite map_lookup_filter, Hn.
    + exists items. split; [|done]. rewrite Hv. simpl. rewrite map_lookup_filter, Hl. cbn.
      unfold alive. cbn. rewrite (proj2 (Z.ltb_lt _ _)) by lia.
      rewrite option_guard_True by done. do 2 f_equal. f_equal. lia.
  - split; [done|]. unfold buffered. by rewrite Hnow, Hmap.
Qed.

(** Replay is exact.  Whatever was appended to a session's buffer while its
    connection lived, [Replay] returns, in the order they were sent, the payloads of the
    last [maxReplay] events whose sequence number is greater than the one the client
    acknowledges; nothing is duplicated, reordered or resurrected. *)
Lemma Replay_window sid w es a after l w' :
  1 ≤ ss_maxReplay s → 0 < ss_ttl s → replay_history sid w es a →
  Replay s sid after w = (Ok l, w') →
  l = snd <$> filter (λ e, after < e.1) (last_n (Z.to_nat (ss_maxReplay s)) es).
Proof.
  intros Hm Ht Hh E. apply history_buffered in Hh as [_ Hb]; [|done..].
  unfold Replay in E. apply bind_Ok_inv in E as (raw & w1 & E & E1). apply wrap_Ok_inv in E.
  apply rdb_LRange_Ok in E as (_ & full & Hfull & ->). go_inv. rewrite list_range_all.
  unfold as_list, ks_lookup in Hfull. destruct Hb as [[-> Hn]|(items & Hl & Hf)].
  { rewrite Hn in Hfull. by simplify_eq/=. }
  rewrite Hl in Hfull. simplify_eq/=. clear Hl.
  induction Hf as [|item e items es' He Hf IH]; [done|]. csimpl. unfold replay_item at 1.
  rewrite He, filter_cons. cbn [re_Seq re_Payload]. rewrite IH.
  destruct (Z.ltb_spec after e.1), (decide (after < e.1)); try lia; done.
Qed.

Lemma session_replay_ne sid sid' : sessionKey sid ≠ replayKey sid'.
Proof. unfold sessionKey, replayKey. intros E. by inversion E. Qed.

(** The entry [Save] writes. *)
Lemma Save_run sid (u : U) seq w w1 :
  0 < ss_ttl s → Save s sid u seq w = (Ok tt, w1) →
  ∃ data at_, json_Unmarshal data = Ok (mkSessionData (uuid_String u) seq at_) ∧
    ks_map (vk_view w1) !! sessionKey sid =
      Some (Entry (VStr data) (Some (ks_now (vk_view w1) + ss_ttl s))).
Proof.
  intros Ht E. unfold Save in E. apply bind_Ok_inv in E as (now & w0 & E0 & E).
  unfold gets in E0. simplify_eq.
  apply bind_Ok_inv in E as (data & w2 & E1 & E). apply wrap_Ok_inv in E1, E.
  unfold of_res in E1. simplify_eq. apply pipe_Exec_Ok in E as (rs & E & _). cbn [run_cmds run_cmd ks_upd ks_map ks_now] in E.
  exists data, (time_Now w2 / Second). split; [by apply json_round_trip|].
  assert (∀ (m : gmap string entry) e,
    <[replayKey sid := e]> m !! sessionKey sid = m !! sessionKey sid) as Hins.
  { intros. apply lookup_insert_ne. by apply not_eq_sym, session_replay_ne. }
  rewrite lookup_insert_ne in E by apply session_replay_ne.
  rewrite (proj2 (Z.ltb_lt _ _)) in E by done.
  destruct (ks_map (vk_view w2) !! replayKey sid); injection E as _ E; rewrite <-E; cbn;
    rewrite ?Hins, lookup_insert_eq; unfold deadline; by rewrite (proj2 (Z.ltb_lt _ _)).
Qed.

(** What [Load] answers, from what the server holds. *)
Lemma Load_cases sid w r w' :
  Load (U := U) s sid w = (r, w') →
  (∃ e, r = Err (Wrap "load session" e) ∧ errors_Is e redis_Nil = false) ∨
  (r = Err ErrSessionNotFound ∧ ks_lookup (vk_view w) (sessionKey sid) = None) ∨
  (∃ raw, ks_lookup (vk_view w) (sessionKey sid) = Some (VStr raw) ∧
     ∀ sd u, json_Unmarshal raw = Ok sd → uuid_Parse (sd_UserID sd) = Ok u →
             r = Ok (mkLoadedSession u (sd_LastSeq sd))).
Proof.
  intros E. unfold Load in E. apply bind_inv in E as [(g & w1 & E1 & E)|(e & E1 & ->)].
  2:{ by apply try_inv in E1 as (? & [=] & _). }
  apply try_inv in E1 as (g0 & [= ->] & E1). destruct g0 as [raw|e].
  - apply rdb_Get_Ok in E1 as [Hl _]. right; right. exists raw. split; [done|].
    intros sd u Hsd Hu. rewrite Hsd in E. unfold wrap, of_res in E. cbn in E.
    unfold mbind, M_bind in E. cbn in E. rewrite Hu in E. by go_inv.
  - apply rdb_Get_Err in E1 as [_ Hn]. destruct (errors_Is e redis_Nil) eqn:He; go_inv.
    + right; left. auto.
    + left. eauto.
Qed.

(** A saved session can be resumed until its time to live has passed and no later:
    before that instant [Load] gives back the user and the last sequence number, from it
    on the session does not exist (unless the call to the server itself fails). *)
Lemma Save_Load sid (u : U) seq w w1 d w2 r w3 :
  0 < ss_ttl s → Save s sid u seq w = (Ok tt, w1) → 0 ≤ d →
  vk_view w2 = ks_advance d (vk_view w1) → Load s sid w2 = (r, w3) →
  (∃ e, r = Err (Wrap "load session" e) ∧ errors_Is e redis_Nil = false) ∨
  (r = if bool_decide (d < ss_ttl s) then Ok (mkLoadedSession u seq)
       else Err ErrSessionNotFound).
Proof.
  intros Ht Hs Hd Hv E. apply Save_run in Hs as (data & at_ & Hdata & Hm); [|done].
  assert (ks_lookup (vk_view w2) (sessionKey sid) =
          if bool_decide (d < ss_ttl s) then Some (VStr data) else None) as Hl.
  { unfold ks_lookup. rewrite Hv. simpl. rewrite map_lookup_filter, Hm. cbn.
    unfold alive. cbn. case_bool_decide.
    - rewrite option_guard_True; [done|]. apply Z.ltb_lt. lia.
    - rewrite option_guard_False; [done|]. intros Hx%Z.ltb_lt. lia. }
  apply Load_cases in E as [?|[[-> Hn]|(raw & Hraw & Hr)]]; [by left|right..];
    rewrite Hl in *; case_bool_decide; simplify_eq; [done|].
  apply (Hr _ u Hdata). apply uuid_Parse_String.
Qed.

(** A deleted session cannot be loaded again and its buffer is empty. *)
Lemma Delete_Load sid w w1 r w2 :
  Delete s sid w = (Ok tt, w1) → Load (U := U) s sid w1 = (r, w2) →
  r = Err ErrSessionNotFound ∨ ∃ e, r = Err (Wrap "load session" e).
Proof.
  unfold Delete. intros E1%wrap_Ok_inv E2.
  apply bind_Ok_inv in E1 as (n & w3 & E1 & E). go_inv.
  apply rdb_Del_inv in E1 as [(? & _ & _ & Hv)|(? & [=] & _)].
  apply Load_cases in E2 as [(e & -> & _)|[[-> _]|(raw & Hraw & _)]]; [eauto..|].
  unfold ks_lookup in Hraw. rewrite Hv in Hraw. simpl in Hraw.
  by rewrite lookup_delete_eq in Hraw.
Qed.
End properties.

(** ** Witnesses *)
Module Witness.
#[local] Existing Instance mem_Valkey.
#[local] Existing Instance mem_ValkeyLaws.
#[local] Instance ks_Clock : Clock keyspace := {| time_Now := ks_now |}.

#[local] Instance sessionData_eq_dec : EqDecision sessionData.
Proof. solve_decision. Defined.
#[local] Instance replayEntry_eq_dec : EqDecision replayEntry.
Proof. solve_decision. Defined.
#[local] Instance sessionData_countable : Countable sessionData.
Proof.
  refine (inj_countable' (λ d, (sd_UserID d, sd_LastSeq d, sd_DisconnectedAt d))
            (λ '(a, b, c), mkSessionData a b c) _). by intros [].
Defined.
#[local] Instance replayEntry_countable : Countable replayEntry.
Proof.
  refine (inj_countable' (λ e, (re_Seq e, re_Payload e)) (λ '(a, b), mkReplayEntry a b) _).
  by intros [].
Defined.
#[local] Instance sd_codec : Codec sessionData := countable_Codec.
#[local] Instance sd_laws : CodecLaws sessionData := countable_CodecLaws.
#[local] Instance re_codec : Codec replayEntry := countable_Codec.
#[local] Instance re_laws : CodecLaws replayEntry := countable_CodecLaws.

Definition ks0 : keyspace := Keyspace 0 ∅ [].
Definition store : SessionStore := mkSessionStore (300 * Second) 2.
Definition erin : cuuid := "00000000-0000-4000-8000-0000000000ee"%string ↾ eq_refl.

Definition ks1 : keyspace := (AppendReplay store "s1" 1 "ready" ks0).2.
Definition ks2 : keyspace := (AppendReplay store "s1" 2 "hello" ks1).2.
Definition ks3 : keyspace := (AppendReplay store "s1" 3 "world" (ks_advance (5 * Second) ks2)).2.

Lemma Replay_window_witness :
  (Replay store "s1" 2 ks3).1 = Ok ["world"%string] ∧
  (Replay store "s1" 0 ks3).1 = Ok ["hello"%string; "world"%string] ∧
  ["world"%string] = snd <$> filter (λ e, 2 < e.1)
     (last_n 2 (([] ++ [(1, "ready"%string)]) ++ [(2, "hello"%string)] ++ [(3, "world"%string)])).
Proof.
  split; [vm_compute; reflexivity|]. split; [vm_compute; reflexivity|].
  apply (Replay_window store "s1" ks3 _ 0 2 _ (Replay store "s1" 2 ks3).2).
  - done.
  - done.
  - change [(2, "hello"%string); (3, "world"%string)] with
      ([(2, "hello"%string)] ++ [(3, "world"%string)]).
    rewrite app_assoc. apply (rh_append _ _ (ks_advance (5 * Second) ks2) _ _ (0 + 5 * Second)).
    + apply (rh_wait _ _ ks2); [|done|done|done].
      apply (rh_append _ _ ks1 _ _ 0); [|apply run_eq; vm_compute; reflexivity].
      apply (rh_append _ _ ks0 _ _ 0); [|apply run_eq; vm_compute; reflexivity].
      by apply rh_new.
    + apply run_eq. vm_compute. reflexivity.
  - apply run_eq. vm_compute. reflexivity.
Defined.

Definition saved : keyspace := (Save store "s1" erin 7 ks0).2.
Lemma Save_Load_witness :
  (Load store "s1" (ks_advance (299 * Second) saved)).1 = Ok (mkLoadedSession erin 7) ∧
  ((∃ e, (Err ErrSessionNotFound : res (LoadedSession cuuid)) = Err (Wrap "load session" e) ∧
         errors_Is e redis_Nil = false) ∨
   (Err ErrSessionNotFound : res (LoadedSession cuuid)) =
     if bool_decide (300 * Second < ss_ttl store) then Ok (mkLoadedSession erin 7)
     else Err ErrSessionNotFound).
Proof.
  split; [vm_compute; reflexivity|].
  apply (Save_Load store "s1" erin 7 ks0 saved (300 * Second) (ks_advance (300 * Second) saved)
           _ (Load (U := cuuid) store "s1" (ks_advance (300 * Second) saved)).2).
  - done.
  - apply run_eq. vm_compute. reflexivity.
  - done.
  - done.
  - apply run_eq. vm_compute. reflexivity.
Defined.
End Witness.
