(* ===== verification/Publisher.v ===== *)
(** * The gateway publisher: internal/gateway/publisher.go

    Handlers enqueue jobs on a bounded channel; [workers] goroutines take them off and
    publish them on one Valkey channel; when its context is cancelled [Run] closes the queue,
    which the workers drain, and waits for them.  All this is an executable transition system
    over the atomic operations of the code, with one move per goroutine: enqueuers, workers and
    [Run] interleave freely, and [enqueue] is two operations, the test of the closed flag and the
    send.  A publication, which a timeout bounds, is one move of its worker. *)
From S2P Require Import Prelude GoStd Platform.
Open Scope Z_scope.

Definition eventsChannel : string := "uncord.gateway.events".

(** [any] is the type of an arbitrary Go value. *)
Record envelope (U any : Type) := mkEnvelope {
  env_Type : string;
  env_Data : any;
  env_Targets : list U;
}.
Arguments mkEnvelope {U any}. Arguments env_Type {U any}. Arguments env_Data {U any}.
Arguments env_Targets {U any}.

Record job (U any : Type) := mkJob { eventType : string; data : any; targets : list U }.
Arguments mkJob {U any}. Arguments eventType {U any}. Arguments data {U any}.
Arguments targets {U any}.

Record Publisher (U any : Type) := mkPublisher {
  queue : list (job U any);
  queueSize : Z;
  dropped : Z;
  closed : bool;
  chanClosed : bool;
}.
Arguments mkPublisher {U any}. Arguments queue {U any}. Arguments queueSize {U any}.
Arguments dropped {U any}. Arguments closed {U any}.
Arguments chanClosed {U any}.

Section publisher.
Context {U any W : Type} `{Valkey W} `{Codec (envelope U any)}.

Definition NewPublisher (size : Z) : Publisher U any := mkPublisher [] size 0 false false.

Definition add_dropped (p : Publisher U any) : Publisher U any :=
  mkPublisher (queue p) (queueSize p) (wrap64 (dropped p + 1)) (closed p) (chanClosed p).

(** [p.closed.Load()]: a closed publisher drops the job; otherwise [enqueue] goes on. *)
Definition enqueue_check (p : Publisher U any) : bool * Publisher U any :=
  if closed p then (false, add_dropped p) else (true, p).
(** The select with default: it never blocks; sending on a closed channel panics, which is
    [None]. *)
Definition enqueue_send (j : job U any) (p : Publisher U any) : option (Publisher U any) :=
  if chanClosed p then None
  else if Z.of_nat (length (queue p)) <? queueSize p
  then Some (mkPublisher (queue p ++ [j]) (queueSize p) (dropped p) (closed p) (chanClosed p))
  else Some (add_dropped p).
Definition enqueue (j : job U any) (p : Publisher U any) : option (Publisher U any) :=
  let '(go, p) := enqueue_check p in if go then enqueue_send j p else Some p.

Definition Enqueue (ev : string) (d : any) : Publisher U any → option (Publisher U any) :=
  enqueue (mkJob ev d []).
Definition EnqueueTargeted (ev : string) (d : any) (tg : list U) :
    Publisher U any → option (Publisher U any) :=
  enqueue (mkJob ev d tg).

Definition publish (ev : string) (d : any) (tg : list U) : M W unit :=
  payload ← wrap "marshal gateway event" (of_res (json_Marshal (mkEnvelope ev d tg)));
  wrap "publish gateway event" (rdb_Publish eventsChannel payload).

Definition Publish (ev : string) (d : any) : M W unit := publish ev d [].

Definition publishWithTimeout (j : job U any) : M W unit :=
  best_effort (publish (eventType j) (data j) (targets j)).

(** [Run]: a worker receives the oldest job; cancellation sets the flag, then closes the
    channel; a worker that finds the channel closed and empty stops. *)
Definition worker_receive (p : Publisher U any) : option (job U any * Publisher U any) :=
  match queue p with
  | j :: q => Some (j, mkPublisher q (queueSize p) (dropped p) (closed p) (chanClosed p))
  | [] => None
  end.
Definition cancel_flag (p : Publisher U any) : Publisher U any :=
  mkPublisher (queue p) (queueSize p) (dropped p) true (chanClosed p).
Definition cancel_close (p : Publisher U any) : Publisher U any :=
  mkPublisher (queue p) (queueSize p) (dropped p) (closed p) true.
Definition worker_stops (p : Publisher U any) : bool :=
  match queue p with [] => chanClosed p | _ => false end.

(** A worker ranges over the channel, is in [publishWithTimeout], or its loop has ended.  A
    range over an empty open channel blocks, which is [None]. *)
Inductive worker : Type := Ranging | Publishing (j : job U any) | Stopped.
Definition worker_step (wk : worker) (p : Publisher U any) : option (worker * Publisher U any) :=
  match wk with
  | Ranging =>
      match worker_receive p with
      | Some (j, p') => Some (Publishing j, p')
      | None => if worker_stops p then Some (Stopped, p) else None
      end
  | Publishing _ => Some (Ranging, p)
  | Stopped => None
  end.

(** The goroutine of [Run] itself, between the statements after the workers are started:
    [<-ctx.Done()] and the flag, [close(p.queue)], [wg.Wait()]. *)
Inductive run_state : Type := AwaitCancel | FlagSet | AwaitWorkers | Returned.
Definition has_stopped (wk : worker) : bool := match wk with Stopped => true | _ => false end.
Definition run_step (m : run_state) (ws : list worker) (p : Publisher U any) :
    option (run_state * Publisher U any) :=
  match m with
  | AwaitCancel => Some (FlagSet, cancel_flag p)
  | FlagSet => Some (AwaitWorkers, cancel_close p)
  | AwaitWorkers => if forallb has_stopped ws then Some (Returned, p) else None
  | Returned => None
  end.

(** The publisher with its goroutines, and the ghost history of the jobs: offered to
    [enqueue], between its two operations, accepted by the channel, handed to a worker,
    given to [publishWithTimeout] (which has returned), dropped, and those whose send
    panicked. *)
Record pub_sys := mkSys {
  pub : Publisher U any;
  running : run_state;
  crew : list worker;
  offered : list (job U any);
  pending : list (job U any);
  accepted : list (job U any);
  taken : list (job U any);
  published : list (job U any);
  lost : list (job U any);
  panicked : list (job U any);
}.

(** Who moves: a new [enqueue], the [i]th one that is between its two operations, the [i]th
    worker, or [Run]. *)
Inductive pub_move : Type := Offer (j : job U any) | Send (i : nat) | Work (i : nat) | RunOn.
Definition in_hand (wk : worker) : list (job U any) := match wk with Publishing j => [j] | _ => [] end.
Definition pub_step (l : pub_move) (s : pub_sys) : option pub_sys :=
  let '(mkSys p m ws o pe ac ta pu lo pa) := s in
  match l with
  | Offer j =>
      let '(go, p') := enqueue_check p in
      Some (if go then mkSys p' m ws (o ++ [j]) (pe ++ [j]) ac ta pu lo pa
            else mkSys p' m ws (o ++ [j]) pe ac ta pu (lo ++ [j]) pa)
  | Send i =>
      j ← pe !! i;
      Some match enqueue_send j p with
           | None => mkSys p m ws o (delete i pe) ac ta pu lo (pa ++ [j])
           | Some p' =>
               if Nat.eqb (length (queue p')) (length (queue p))
               then mkSys p' m ws o (delete i pe) ac ta pu (lo ++ [j]) pa
               else mkSys p' m ws o (delete i pe) (ac ++ [j]) ta pu lo pa
           end
  | Work i =>
      wk ← ws !! i;
      '(wk', p') ← worker_step wk p;
      Some (mkSys p' m (<[i := wk']> ws) o pe ac (ta ++ in_hand wk') (pu ++ in_hand wk) lo pa)
  | RunOn =>
      '(m', p') ← run_step m ws p;
      Some (mkSys p' m' ws o pe ac ta pu lo pa)
  end.
Fixpoint execute (ls : list pub_move) (s : pub_sys) : option pub_sys :=
  match ls with
  | [] => Some s
  | l :: ls => s' ← pub_step l s; execute ls s'
  end.

(** [Run] with so many workers has just started them. *)
Definition pub_start (size : Z) (workers : nat) : pub_sys :=
  mkSys (NewPublisher size) AwaitCancel (replicate workers Ranging) [] [] [] [] [] [] [].
Definition pub_reach (size : Z) (workers : nat) (s : pub_sys) : Prop :=
  ∃ ls, execute ls (pub_start size workers) = Some s.
End publisher.
Arguments worker : clear implicits.
Arguments pub_sys : clear implicits.
Arguments pub_move : clear implicits.

(** ** Properties *)
Section properties.
Context {U any : Type}.
Implicit Types (s : pub_sys U any) (l : pub_move U any) (p : Publisher U any) (j : job U any).

(** What holds of every reachable state: the ledger of the jobs, and where [Run] and its
    workers stand. *)
Record accounted (size : Z) (n : nat) s : Prop := {
  acc_size : queueSize (pub s) = size;
  acc_fifo : accepted s = taken s ++ queue (pub s);
  acc_taken : taken s ≡ₚ published s ++ (crew s ≫= in_hand);
  acc_offered : offered s ≡ₚ pending s ++ accepted s ++ lost s ++ panicked s;
  acc_dropped : dropped (pub s) = wrap64 (Z.of_nat (length (lost s)));
  acc_room : Z.of_nat (length (queue (pub s))) ≤ Z.max 0 size;
  acc_panicked : panicked s ≠ [] → chanClosed (pub s) = true;
  acc_flag : closed (pub s) = match running s with AwaitCancel => false | _ => true end;
  acc_chan : chanClosed (pub s) = match running s with AwaitCancel | FlagSet => false | _ => true end;
  acc_crew : length (crew s) = n;
  acc_stopped : ∀ i, crew s !! i = Some Stopped → queue (pub s) = [] ∧ chanClosed (pub s) = true;
  acc_returned : running s = Returned → Forall (λ wk, wk = Stopped) (crew s) }.

Lemma wrap64_succ x : wrap64 (wrap64 x + 1) = wrap64 (x + 1).
Proof.
  unfold wrap64. f_equal.
  replace ((x + 2^63) `mod` 2^64 - 2^63 + 1 + 2^63) with ((x + 2^63) `mod` 2^64 + 1) by lia.
  rewrite Zplus_mod_idemp_l. f_equal. lia.
Qed.
Lemma length_add_dropped p (l : list (job U any)) j :
  dropped p = wrap64 (Z.of_nat (length l)) →
  dropped (add_dropped p) = wrap64 (Z.of_nat (length (l ++ [j]))).
Proof. intros E. simpl. rewrite E, wrap64_succ, length_app. f_equal. simpl. lia. Qed.
Lemma forallb_stopped (ws : list (worker U any)) :
  forallb has_stopped ws = true ↔ Forall (λ wk, wk = Stopped) ws.
Proof.
  induction ws as [|wk ws IH]; simpl; [by split; [constructor|done]|]. rewrite andb_true_iff, Forall_cons, IH.
  destruct wk; naive_solver.
Qed.
(** What a worker holds passes from the queue to the published ones. *)
Lemma in_hand_insert (ws : list (worker U any)) i wk wk' :
  ws !! i = Some wk → (<[i := wk']> ws ≫= in_hand) ++ in_hand wk ≡ₚ (ws ≫= in_hand) ++ in_hand wk'.
Proof.
  revert i. induction ws as [|wk0 ws IH]; intros [|i] E; simplify_eq/=; [solve_Permutation|].
  rewrite <-!app_assoc, (IH i E). done.
Qed.

(** The select of [enqueue]. *)
Inductive sent j p : option (Publisher U any) → Prop :=
| sent_closed : chanClosed p = true → sent j p None
| sent_queued : chanClosed p = false → Z.of_nat (length (queue p)) < queueSize p →
    sent j p (Some (mkPublisher (queue p ++ [j]) (queueSize p) (dropped p) (closed p) (chanClosed p)))
| sent_full : chanClosed p = false → queueSize p ≤ Z.of_nat (length (queue p)) →
    sent j p (Some (add_dropped p)).
Lemma enqueue_sent j p : sent j p (enqueue_send j p).
Proof.
  unfold enqueue_send. destruct (chanClosed p) eqn:Ec; [by constructor|].
  destruct (Z.ltb_spec (Z.of_nat (length (queue p))) (queueSize p)); [rewrite <-Ec|]; by constructor.
Qed.

Lemma offer_accounted size n j s s' :
  accounted size n s → pub_step (Offer j) s = Some s' → accounted size n s'.
Proof.
  destruct s as [p m ws o pe ac ta pu lo pa]. intros [Hs Hf Ht Ho Hd Hq Hp Hc Hcc Hw Hst Hr] E.
  simpl in *. unfold enqueue_check in E. destruct (closed p) eqn:Ec; injection E as <-; split; simpl; rewrite ?Ec; try done.
  - rewrite Ho. solve_Permutation.
  - by apply length_add_dropped.
  - rewrite Ho. solve_Permutation.
Qed.
Lemma send_accounted size n i s s' :
  accounted size n s → pub_step (Send i) s = Some s' → accounted size n s'.
Proof.
  destruct s as [p m ws o pe ac ta pu lo pa]. intros [Hs Hf Ht Ho Hd Hq Hp Hc Hcc Hw Hst Hr] E.
  simpl in *. apply bind_Some in E as (j & Hj & E). rewrite (delete_Permutation _ _ _ Hj) in Ho.
  destruct (enqueue_sent j p) as [Hcl|Hop Hlt|Hop Hge].
  - injection E as <-. split; simpl; try done. rewrite Ho. solve_Permutation.
  - simpl in E. rewrite length_app, (proj2 (Nat.eqb_neq _ _)) in E by (simpl; lia). injection E as <-.
    split; simpl; try done.
    + by rewrite Hf, <-app_assoc.
    + rewrite Ho. solve_Permutation.
    + rewrite length_app. simpl. lia.
    + intros k Hk. destruct (Hst k Hk). congruence.
  - simpl in E. rewrite Nat.eqb_refl in E. injection E as <-. split; simpl; try done.
    + rewrite Ho. solve_Permutation.
    + by apply length_add_dropped.
Qed.
Lemma work_accounted size n i s s' :
  accounted size n s → pub_step (Work i) s = Some s' → accounted size n s'.
Proof.
  destruct s as [p m ws o pe ac ta pu lo pa]. intros [Hs Hf Ht Ho Hd Hq Hp Hc Hcc Hw Hst Hr] E.
  simpl in *. apply bind_Some in E as (wk & Hwk & E). apply bind_Some in E as ([wk' p'] & Hs' & E). injection E as <-.
  pose proof (in_hand_insert ws i wk wk' Hwk) as Hh.
  assert (Hr' : wk ≠ Stopped → m = Returned → Forall (λ wk, wk = Stopped) (<[i := wk']> ws)).
  { intros Hne Hm. apply Hr in Hm. by destruct Hne; eapply (Forall_lookup_1 _ _ _ _ Hm). }
  destruct wk as [|j|]; simpl in Hs'; [|injection Hs' as <- <-|done].
  - unfold worker_receive, worker_stops in Hs'. destruct (queue p) as [|j q] eqn:Eq.
    + destruct (chanClosed p) eqn:Ec; [|done]. injection Hs' as <- <-.
      split; simpl in *; rewrite ?Eq, ?Ec, ?app_nil_r in *; try done.
      * by rewrite Hh.
      * by rewrite length_insert.
      * by apply Hr'.
    + injection Hs' as <- <-. split; simpl in *; try done.
      * by rewrite <-app_assoc.
      * rewrite !app_nil_r in *. rewrite Hh, Ht. solve_Permutation.
      * lia.
      * by rewrite length_insert.
      * intros k [(_ & [=] & _)|[_ Hk]]%list_lookup_insert_Some. by destruct (Hst k Hk).
      * by apply Hr'.
  - split; simpl in *; rewrite ?app_nil_r in *; try done.
    + rewrite Ht, <-Hh. solve_Permutation.
    + by rewrite length_insert.
    + intros k [(_ & [=] & _)|[_ Hk]]%list_lookup_insert_Some. by destruct (Hst k Hk).
    + by apply Hr'.
Qed.
Lemma run_accounted size n s s' :
  accounted size n s → pub_step RunOn s = Some s' → accounted size n s'.
Proof.
  destruct s as [p m ws o pe ac ta pu lo pa]. intros [Hs Hf Ht Ho Hd Hq Hp Hc Hcc Hw Hst Hr] E.
  simpl in *. apply bind_Some in E as ([m' p'] & Hm & E). injection E as <-.
  destruct m; simpl in Hm; [injection Hm as <- <-..| |done]; [| |destruct (forallb _ _) eqn:Ef; [injection Hm as <- <-|done]];
    split; simpl; try done.
  - intros i Hi. by destruct (Hst i Hi).
  - intros _. by apply forallb_stopped.
Qed.
Lemma execute_accounted size n ls s s' :
  accounted size n s → execute ls s = Some s' → accounted size n s'.
Proof.
  revert s. induction ls as [|l ls IH]; intros s Ha E; [by injection E as <-|].
  apply bind_Some in E as (s1 & E1 & E). apply (IH s1); [|done].
  destruct l; eauto using offer_accounted, send_accounted, work_accounted, run_accounted.
Qed.
Lemma start_accounted size n : accounted size n (pub_start size n).
Proof.
  split; simpl; try done.
  - by induction n.
  - lia.
  - by rewrite length_replicate.
  - intros i Hi. by apply lookup_replicate in Hi as [[=] _].
Qed.

(** The queue loses nothing silently, keeps the order and never overflows, whatever the
    enqueuers, the workers and the cancellation do. *)
Lemma queue_accounts size n s : pub_reach size n s → accounted size n s.
Proof. intros [ls E]. exact (execute_accounted size n ls _ s (start_accounted size n) E). Qed.

(** [Enqueue] is not safe from any goroutine: a job whose [enqueue] has tested the
    closed flag before the cancellation, and sends after it, sends on a closed channel.
    For every queue size such an execution exists. *)
Lemma close_race_panics size n j :
  ∃ s, pub_reach size n s ∧ panicked s = [j] ∧ enqueue_send j (pub s) = None.
Proof.
  exists (mkSys (cancel_close (cancel_flag (NewPublisher size))) AwaitWorkers (replicate n Ranging)
            [j] [] [] [] [] [] [j]).
  split; [|done]. by exists [Offer j; RunOn; RunOn; Send 0%nat].
Qed.

(** *** Shutting down *)

(** The moves of [Run] and its workers, and how many of them are left once the flag is set. *)
Definition own l : bool := match l with Work _ | RunOn => true | _ => false end.
Definition left_of (wk : worker U any) : nat :=
  match wk with Ranging => 1 | Publishing _ => 2 | Stopped => 0 end.
Definition work_left s : nat :=
  2 * length (pending s) + 2 * length (queue (pub s)) + sum_list (left_of <$> crew s) +
  match running s with AwaitCancel => 3 | FlagSet => 2 | AwaitWorkers => 1 | Returned => 0 end.
Lemma sum_insert (ws : list (worker U any)) i wk wk' :
  ws !! i = Some wk →
  (sum_list (left_of <$> <[i := wk']> ws) + left_of wk = sum_list (left_of <$> ws) + left_of wk')%nat.
Proof.
  revert i. induction ws as [|wk0 ws IH]; intros [|i] E; simplify_eq/=; [lia|]. specialize (IH i E). lia.
Qed.
Lemma step_work_left l s s' :
  closed (pub s) = true → pub_step l s = Some s' →
  closed (pub s') = true ∧ ((if own l then 1 else 0) + work_left s' ≤ work_left s)%nat.
Proof.
  destruct s as [p m ws o pe ac ta pu lo pa]. intros Hc E. unfold work_left. destruct l as [j|i|i|]; simpl in *.
  - unfold enqueue_check in E. rewrite Hc in E. injection E as <-. simpl. split; [done|lia].
  - apply bind_Some in E as (j & Hj & E). pose proof (lookup_lt_Some _ _ _ Hj).
    destruct (enqueue_sent j p) as [Hcl|Hop Hlt|Hop Hge]; simpl in E.
    + injection E as <-. simpl. rewrite length_delete by eauto. split; [done|lia].
    + rewrite length_app in E. destruct (Nat.eqb_spec (length (queue p) + length [j]) (length (queue p)));
        [simpl in *; lia|]. injection E as <-. simpl. rewrite length_delete, length_app by eauto. simpl. split; [done|lia].
    + rewrite Nat.eqb_refl in E. injection E as <-. simpl. rewrite length_delete by eauto. split; [done|lia].
  - apply bind_Some in E as (wk & Hwk & E). apply bind_Some in E as ([wk' p'] & Hs' & E). injection E as <-.
    pose proof (sum_insert ws i wk wk' Hwk). simpl. destruct wk as [|j|]; simpl in Hs'; [|simplify_eq/=; split; [done|lia]|done].
    unfold worker_receive in Hs'. destruct (queue p) as [|j q] eqn:Eq.
    + destruct (worker_stops p); [|done]. simplify_eq/=. rewrite Eq. simpl. split; [done|lia].
    + simplify_eq/=. split; [done|lia].
  - apply bind_Some in E as ([m' p'] & Hm & E). injection E as <-.
    destruct m; simpl in Hm; [..|destruct (forallb _ _); [|done]|done]; injection Hm as <- <-; simpl; split; try done; lia.
Qed.
Lemma execute_work_left ls s s' :
  closed (pub s) = true → execute ls s = Some s' →
  (length (filter (λ l, own l = true) ls) + work_left s' ≤ work_left s)%nat.
Proof.
  revert s. induction ls as [|l ls IH]; intros s Hc E; [injection E as <-; simpl; lia|].
  apply bind_Some in E as (s1 & E1 & E). destruct (step_work_left l s s1 Hc E1) as [Hc1 Hl].
  specialize (IH s1 Hc1 E). rewrite filter_cons. destruct (own l); simpl; lia.
Qed.
Lemma step_accepted l s s' :
  chanClosed (pub s) = true → pub_step l s = Some s' → chanClosed (pub s') = true ∧ accepted s' = accepted s.
Proof.
  destruct s as [p m ws o pe ac ta pu lo pa]. intros Hc E. destruct l as [j|i|i|]; simpl in *.
  - unfold enqueue_check in E. destruct (closed p); by injection E as <-.
  - apply bind_Some in E as (j & Hj & E). destruct (enqueue_sent j p); [by injection E as <-|congruence..].
  - apply bind_Some in E as (wk & Hwk & E). apply bind_Some in E as ([wk' p'] & Hs' & E). injection E as <-. simpl.
    split; [|done]. destruct wk; simpl in Hs'; [|by simplify_eq|done].
    unfold worker_receive in Hs'. destruct (queue p); [destruct (worker_stops p); [|done]|]; by simplify_eq/=.
  - apply bind_Some in E as ([m' p'] & Hm & E). injection E as <-. simpl. split; [|done].
    destruct m; simpl in Hm; [..|destruct (forallb _ _); [|done]|done]; by injection Hm as <- <-.
Qed.
Lemma execute_accepted ls s s' :
  chanClosed (pub s) = true → execute ls s = Some s' → accepted s' = accepted s.
Proof.
  revert s. induction ls as [|l ls IH]; intros s Hc E; [by injection E as <-|].
  apply bind_Some in E as (s1 & E1 & E). apply step_accepted in E1 as [Hc1 <-]; [|done]. by apply IH.
Qed.
(** [Run] or one of its workers can go on until [Run] has returned. *)
Lemma own_move size n s :
  accounted size n s → running s ≠ Returned → ∃ l, own l = true ∧ is_Some (pub_step l s).
Proof.
  destruct s as [p m ws o pe ac ta pu lo pa]. intros [_ _ _ _ _ _ _ _ Hcc _ _ _] Hm. simpl in *.
  destruct m; [by exists RunOn; eauto..| |done].
  destruct (forallb has_stopped ws) eqn:Ef; [exists RunOn; simpl; rewrite Ef; eauto|].
  assert (∃ i wk, ws !! i = Some wk ∧ wk ≠ Stopped) as (i & wk & Hi & Hwk).
  { clear -Ef. induction ws as [|wk ws IH]; [done|]. simpl in Ef. destruct wk as [|j|] eqn:Ew.
    1, 2: by exists 0%nat, wk; subst.
    destruct (IH Ef) as (i & wk' & Hi & Hne). by exists (S i), wk'. }
  exists (Work i). split; [done|]. simpl. rewrite Hi. simpl.
  destruct wk as [|j|]; [|by eauto|done]. simpl. unfold worker_receive, worker_stops.
  destruct (queue p); [rewrite Hcc|]; simpl; eauto.
Qed.

(** C39: Shutting the publisher down: in every execution, however the enqueuers, the workers and
    the cancellation of [Run]'s context interleave, (1) once the queue channel is closed an
    [enqueue] that begins drops its job and counts it, since the flag was set before; (2) when
    [Run] returns, the queue is empty, all its workers have stopped, and the accepted jobs were
    handed out in the order of acceptance, each to one call of [publishWithTimeout]; (3) until it
    returns, [Run] or one of its workers can move; (4) from the cancellation on they make at
    most [work_left] moves, whatever is offered meanwhile, and once the channel is closed
    nothing more is accepted.  There is at least one worker, as the configuration demands. *)
Theorem Run_drains size n s :
  (0 < n)%nat → pub_reach size n s →
  (chanClosed (pub s) = true → ∀ j, enqueue j (pub s) = Some (add_dropped (pub s))) ∧
  (running s = Returned →
     queue (pub s) = [] ∧ Forall (λ wk, wk = Stopped) (crew s) ∧
     taken s = accepted s ∧ published s ≡ₚ accepted s) ∧
  (running s ≠ Returned → ∃ l, own l = true ∧ is_Some (pub_step l s)) ∧
  (∀ ls s', closed (pub s) = true → execute ls s = Some s' →
     (length (filter (λ l, own l = true) ls) ≤ work_left s)%nat ∧
     (chanClosed (pub s) = true → accepted s' = accepted s)).
Proof.
  intros Hn Hr. apply queue_accounts in Hr as Ha. split_and!.
  - intros Hc j. pose proof (acc_flag _ _ _ Ha) as Hf. rewrite (acc_chan _ _ _ Ha) in Hc.
    unfold enqueue, enqueue_check. by destruct (running s); simplify_eq; rewrite Hf.
  - intros Hm. apply (acc_returned _ _ _ Ha) in Hm as Hst.
    assert (Hq : queue (pub s) = []).
    { destruct (lookup_lt_is_Some_2 (crew s) 0) as [wk Hwk]; [by rewrite (acc_crew _ _ _ Ha)|].
      rewrite (Forall_lookup_1 _ _ _ _ Hst Hwk) in Hwk. by destruct (acc_stopped _ _ _ Ha _ Hwk). }
    assert (Hh : crew s ≫= in_hand = []) by (clear -Hst; by induction Hst as [|wk ws -> _ IH]).
    pose proof (acc_fifo _ _ _ Ha) as Hf. rewrite Hq, app_nil_r in Hf. split_and!; [done..|].
    by rewrite Hf, (acc_taken _ _ _ Ha), Hh, app_nil_r.
  - by eapply own_move.
  - intros ls s' Hc E. split; [|by intros Hcc; eapply execute_accepted].
    pose proof (execute_work_left ls s s' Hc E). lia.
Qed.
End properties.

Module Witness.
Definition jobs : list (job nat nat) := [mkJob "a" 1%nat []; mkJob "b" 2%nat []; mkJob "c" 3%nat []].
(** Three offers to a queue of two, of which the last is dropped, a receive, the cancellation,
    a late offer, and two workers that drain the queue and stop. *)
Definition moves : list (pub_move nat nat) :=
  [Offer (mkJob "a" 1%nat []); Send 0; Offer (mkJob "b" 2%nat []); Send 0; Offer (mkJob "c" 3%nat []); Send 0;
   Work 0; RunOn; RunOn; Offer (mkJob "d" 4%nat []); Work 1; Work 1; Work 0; Work 0; Work 1; RunOn]%nat.
Definition drained : pub_sys nat nat := default (pub_start 2 2) (execute moves (pub_start 2 2)).
Lemma Run_drains_witness :
  running drained = Returned ∧ dropped (pub drained) = 2 ∧ taken drained = take 2 jobs ∧
  published drained ≡ₚ accepted drained.
Proof.
  split; [vm_compute; reflexivity|]. split; [vm_compute; reflexivity|]. split; [vm_compute; reflexivity|].
  apply (Run_drains 2 2 drained); [lia|by exists moves|vm_compute; reflexivity].
Defined.
End Witness.
