(* ===== verification/Proc.v ===== *)
(** * Goroutines: programs made of atomic actions, and their interleavings

    A goroutine is a tree of atomic actions on the shared state [S]; an action is one
    critical section, one channel operation or one call to a service.  [run] executes a
    goroutine alone; a pool of goroutines takes actions in any order.  [hoare] is a triple
    that survives that interference: the state satisfies the invariant [Inv] at every point,
    every action of goroutine [t] stays within its guarantee [Guar t], and what is asserted
    between two actions is stable under the guarantees of the others. *)
From S2P Require Import Prelude.

Inductive proc (S A : Type) : Type :=
| Ret (a : A)
| Act (B : Type) (m : S → B * S) (k : B → proc S A).
Arguments Ret {S A} a.
Arguments Act {S A B} m k.

Fixpoint proc_bind {S A B} (p : proc S A) (k : A → proc S B) : proc S B :=
  match p with
  | Ret a => k a
  | Act m k' => Act m (λ b, proc_bind (k' b) k)
  end.

Declare Scope proc_scope.
Delimit Scope proc_scope with proc.
Notation "x <- p ;; k" := (proc_bind p (λ x, k))
  (at level 100, p at next level, right associativity) : proc_scope.
Notation "p ;;; k" := (proc_bind p (λ _, k))
  (at level 100, k at level 200, right associativity) : proc_scope.

Fixpoint run {S A} (p : proc S A) (s : S) : A * S :=
  match p with
  | Ret a => (a, s)
  | Act m k => let '(b, s') := m s in run (k b) s'
  end.

Lemma run_bind {S A B} (p : proc S A) (k : A → proc S B) s :
  run (proc_bind p k) s = let '(a, s') := run p s in run (k a) s'.
Proof.
  revert s. induction p as [a|C m k' IH]; intros s; simpl; [done|].
  destruct (m s) as [c s']. apply IH.
Qed.

Lemma run_pair {S A} (p : proc S A) s a : (run p s).1 = a → run p s = (a, (run p s).2).
Proof. intros <-. by destruct (run p s). Qed.

(** One atomic action. *)
Definition act {S A} (m : S → A * S) : proc S A := Act m Ret.
Definition read {S A} (f : S → A) : proc S A := act (λ s, (f s, s)).
Definition update {S} (f : S → S) : proc S unit := act (λ s, (tt, f s)).

(** A loop over a slice. *)
Fixpoint each {S A} (l : list A) (body : A → proc S unit) : proc S unit :=
  match l with
  | [] => Ret tt
  | x :: l' => proc_bind (body x) (λ _, each l' body)
  end.
Fixpoint each_fold {S A B} (body : B → A → proc S B) (l : list A) (acc : B) : proc S B :=
  match l with
  | [] => Ret acc
  | x :: l' => proc_bind (body acc x) (λ acc', each_fold body l' acc')
  end.

Lemma run_each_app {S A} (l1 l2 : list A) (body : A → proc S unit) s :
  run (each (l1 ++ l2) body) s = run (each l2 body) (run (each l1 body) s).2.
Proof.
  revert s. induction l1 as [|x l1 IH]; intros s; [done|]. simpl. rewrite !run_bind.
  destruct (run (body x) s) as [[] s']. apply IH.
Qed.

(** ** Interleavings *)
Section interleaving.
Context {S T : Type} `{Countable T}.

Abbreviation pool := (gmap T (proc S unit)).

(** Any goroutine takes its next action. *)
Inductive pstep : pool * S → pool * S → Prop :=
| pstep_act (ts : pool) t B (m : S → B * S) k s :
    ts !! t = Some (Act m k) →
    pstep (ts, s) (<[t := k (m s).1]> ts, (m s).2).

(** The same, as a function of the goroutine that runs next; [schedule] runs several. *)
Definition pstep_of (t : T) (c : pool * S) : pool * S :=
  match c.1 !! t with
  | Some (Act m k) => (<[t := k (m c.2).1]> c.1, (m c.2).2)
  | _ => c
  end.
Definition schedule (ts : list T) (c : pool * S) : pool * S := foldl (λ c t, pstep_of t c) c ts.

Lemma pstep_of_spec t c : pstep_of t c = c ∨ pstep c (pstep_of t c).
Proof.
  destruct c as [ts s]. unfold pstep_of. simpl. destruct (ts !! t) as [[a|B m k]|] eqn:E; auto.
  right. by constructor.
Qed.

Lemma schedule_None l c t : (schedule l c).1 !! t = None ↔ c.1 !! t = None.
Proof.
  revert c. induction l as [|t' l IH]; intros c; [done|]. simpl. rewrite IH. unfold pstep_of.
  destruct (c.1 !! t') as [[a|B m k]|] eqn:E; [done| |done]. simpl.
  destruct (decide (t' = t)) as [->|Hne].
  - rewrite lookup_insert_eq. split; congruence.
  - by rewrite lookup_insert_ne.
Qed.

(** ** Triples under interference *)
Context (Inv : S → Prop) (Guar : T → S → S → Prop).

Definition stable (t : T) (P : S → Prop) : Prop :=
  ∀ t' s s', t' ≠ t → Inv s → Inv s' → Guar t' s s' → P s → P s'.

Fixpoint hoare {A} (t : T) (Q : A → S → Prop) (P : S → Prop) (p : proc S A) : Prop :=
  match p with
  | Ret a => ∀ s, Inv s → P s → Q a s
  | Act m k => ∀ s, Inv s → P s → Inv (m s).2 ∧ Guar t s (m s).2 ∧
       ∃ R, stable t R ∧ R (m s).2 ∧ hoare t Q R (k (m s).1)
  end.

Lemma stable_True t : stable t (λ _, True).
Proof. by intros t' s s'. Qed.
Lemma stable_and t P Q : stable t P → stable t Q → stable t (λ s, P s ∧ Q s).
Proof.
  intros HP HQ t' s s' Hne Hi Hi' Hg [? ?].
  split; [by apply (HP t' s s')|by apply (HQ t' s s')].
Qed.
Lemma stable_pure t (P : Prop) : stable t (λ _, P).
Proof. by intros t' s s'. Qed.

Lemma h_weaken {A} t (Q Q' : A → S → Prop) (P P' : S → Prop) p :
  hoare t Q P p → (∀ s, Inv s → P' s → P s) → (∀ a s, Inv s → Q a s → Q' a s) →
  hoare t Q' P' p.
Proof.
  intros Hp HP HQ. revert P P' Hp HP.
  induction p as [a|B m k IH]; simpl; intros P P' Hp HP s Hi HP's; [by eauto|].
  destruct (Hp s Hi (HP s Hi HP's)) as (? & ? & R & HR & HRs & Hk).
  split; [done|]. split; [done|]. exists R. split; [done|]. split; [done|]. by eapply IH.
Qed.

(** Sequencing, when the intermediate assertion is stable. *)
Lemma h_bind {A B} t (R : A → S → Prop) (Q : B → S → Prop) P p k :
  hoare t R P p → (∀ a, hoare t Q (R a) (k a)) → hoare t Q P (proc_bind p k).
Proof.
  intros Hp Hk. revert P Hp. induction p as [a|C m k' IH]; simpl; intros P Hp.
  - eapply h_weaken; [apply Hk|exact Hp|done].
  - intros s Hi HPs. destruct (Hp s Hi HPs) as (? & ? & R' & ? & ? & ?).
    split; [done|]. split; [done|]. exists R'. auto.
Qed.

(** One action that keeps the invariant and the guarantee, and establishes a stable fact. *)
Lemma h_action {A} t (R : A → S → Prop) (P : S → Prop) (m : S → A * S) :
  (∀ a, stable t (R a)) →
  (∀ s, Inv s → P s → Inv (m s).2 ∧ Guar t s (m s).2 ∧ R (m s).1 (m s).2) →
  hoare t R P (act m).
Proof.
  intros Hst Hm s Hi HP. destruct (Hm s Hi HP) as (? & ? & ?).
  split; [done|]. split; [done|]. exists (R (m s).1). split; [done|]. split; [done|].
  by intros s' ? ?.
Qed.

Lemma h_each {A} t (P : S → Prop) (l : list A) body :
  (∀ x, x ∈ l → hoare t (λ _, P) P (body x)) → hoare t (λ _, P) P (each l body).
Proof.
  induction l as [|x l IH]; intros Hb; [by intros s ? ?|]. simpl.
  eapply h_bind; [apply Hb, list_elem_of_here|]. intros ?. apply IH.
  intros y Hy. by apply Hb, list_elem_of_further.
Qed.

Lemma h_each_fold {A B} t (P : S → Prop) (body : B → A → proc S B) l acc :
  (∀ x b, hoare t (λ _, P) P (body b x)) → hoare t (λ _, P) P (each_fold body l acc).
Proof.
  intros Hb. revert acc. induction l as [|x l IH]; intros acc; [by intros s ? ?|]. simpl.
  eapply h_bind; [apply Hb|]. intros b. apply IH.
Qed.

(** *** Soundness: a pool of proved goroutines keeps the invariant, whatever the schedule *)
Definition pool_ok (c : pool * S) : Prop :=
  Inv c.2 ∧ ∀ t p, c.1 !! t = Some p →
    ∃ P, stable t P ∧ P c.2 ∧ hoare t (λ _ _, True) P p.

Lemma pstep_ok c c' : pstep c c' → pool_ok c → pool_ok c'.
Proof.
  intros [ts t B m k s Ht] [Hi Hall]. simpl in *.
  destruct (Hall t _ Ht) as (P & HP & HPs & Hh).
  destruct (Hh s Hi HPs) as (Hi' & Hg & R & HR & HRs & Hk).
  split; [done|]. simpl. intros t' p. destruct (decide (t' = t)) as [->|Hne].
  - rewrite lookup_insert_eq. intros [= <-]. by exists R.
  - rewrite lookup_insert_ne by done. intros Hp.
    destruct (Hall t' p Hp) as (P' & HP' & HPs' & Hh'). exists P'.
    split; [done|]. split; [|done]. by apply (HP' t s (m s).2); [apply not_eq_sym|..].
Qed.

(** A goroutine that starts: its precondition must hold at that moment. *)
Lemma spawn_ok ts s t p P :
  pool_ok (ts, s) → stable t P → P s → hoare t (λ _ _, True) P p → pool_ok (<[t := p]> ts, s).
Proof.
  intros [Hi Hall] HP HPs Hh. split; [done|]. simpl. intros t' p'.
  destruct (decide (t' = t)) as [->|Hne].
  - rewrite lookup_insert_eq. intros [= <-]. by exists P.
  - rewrite lookup_insert_ne by done. apply Hall.
Qed.
End interleaving.
