(* ===== verification/Domain.v ===== *)
(** * Domain records and their protocol form

    The structs of internal/user, server, channel, role, member, readstate, onboarding and
    their conversions to the protocol's response types ([ToModel]).  The response types
    belong to the protocol module; their fields are the ones the conversions set.  Instants
    are nanoseconds; [time.Format(RFC3339)] is a parameter. *)
From S2P Require Import Prelude GoStd Platform.
Open Scope Z_scope.

Class TimeFormat : Type := { time_Format : Z → string }.

(** ** The protocol's response types *)
Module Models.
Record User := mkUser {
  User_ID : string; User_Email : string; User_Username : string;
  User_DisplayName : option string; User_AvatarKey : option string;
  User_Pronouns : option string; User_BannerKey : option string; User_About : option string;
  User_ThemeColourPrimary : option Z; User_ThemeColourSecondary : option Z;
  User_MFAEnabled : bool; User_EmailVerified : bool }.
Record UserProfile := mkUserProfile {
  Profile_ID : string; Profile_Username : string;
  Profile_DisplayName : option string; Profile_AvatarKey : option string;
  Profile_Pronouns : option string; Profile_BannerKey : option string;
  Profile_About : option string;
  Profile_ThemeColourPrimary : option Z; Profile_ThemeColourSecondary : option Z }.
Record ServerConfig := mkServerConfig {
  Server_ID : string; Server_Name : string; Server_Description : string;
  Server_IconKey : option string; Server_BannerKey : option string; Server_OwnerID : string;
  Server_CreatedAt : string; Server_UpdatedAt : string }.
Record Channel := mkChannel {
  Channel_ID : string; Channel_CategoryID : option string; Channel_CreatedBy : option string;
  Channel_Name : string; Channel_Type : string; Channel_Topic : string; Channel_Position : Z;
  Channel_SlowmodeSeconds : Z; Channel_NSFW : bool;
  Channel_CreatedAt : string; Channel_UpdatedAt : string }.
Record Role := mkRole {
  Role_ID : string; Role_Name : string; Role_Colour : Z; Role_Position : Z; Role_Hoist : bool;
  Role_Permissions : Z; Role_IsEveryone : bool;
  Role_CreatedAt : string; Role_UpdatedAt : string }.
Record MemberUser := mkMemberUser {
  MemberUser_ID : string; MemberUser_Username : string;
  MemberUser_DisplayName : option string; MemberUser_AvatarKey : option string }.
Record Member := mkMember {
  Member_User : MemberUser; Member_Nickname : option string; Member_JoinedAt : string;
  Member_Roles : list string; Member_Status : string; Member_TimeoutUntil : option string }.
Record ReadState := mkReadState {
  ReadState_ChannelID : string; ReadState_LastMessageID : option string;
  ReadState_MentionCount : Z }.
Record OnboardingDocument := mkOnboardingDocument {
  Doc_Slug : string; Doc_Title : string; Doc_Content : string; Doc_Position : Z;
  Doc_Required : bool }.
Record OnboardingConfig := mkOnboardingConfig {
  Onb_WelcomeChannelID : option string; Onb_RequireEmailVerification : bool;
  Onb_OpenJoin : bool; Onb_MinAccountAgeSeconds : Z; Onb_AutoRoles : list string;
  Onb_Documents : list OnboardingDocument }.
End Models.

(** ** internal/user/user.go *)
Module User.
Record User (U : Type) := mkUser {
  ID : U; Email : string; Username : string; DisplayName : option string;
  AvatarKey : option string; Pronouns : option string; BannerKey : option string;
  About : option string; ThemeColourPrimary : option Z; ThemeColourSecondary : option Z;
  MFAEnabled : bool; EmailVerified : bool; CreatedAt : Z }.
Arguments mkUser {U}. Arguments ID {U}. Arguments Email {U}. Arguments Username {U}.
Arguments DisplayName {U}. Arguments AvatarKey {U}. Arguments Pronouns {U}.
Arguments BannerKey {U}. Arguments About {U}. Arguments ThemeColourPrimary {U}.
Arguments ThemeColourSecondary {U}. Arguments MFAEnabled {U}. Arguments EmailVerified {U}.
Arguments CreatedAt {U}.

Definition ToModel `{UUIDLib U} (u : User U) : Models.User :=
  Models.mkUser (uuid_String (ID u)) (Email u) (Username u) (DisplayName u) (AvatarKey u)
    (Pronouns u) (BannerKey u) (About u) (ThemeColourPrimary u) (ThemeColourSecondary u)
    (MFAEnabled u) (EmailVerified u).
Definition ToProfileModel `{UUIDLib U} (u : User U) : Models.UserProfile :=
  Models.mkUserProfile (uuid_String (ID u)) (Username u) (DisplayName u) (AvatarKey u)
    (Pronouns u) (BannerKey u) (About u) (ThemeColourPrimary u) (ThemeColourSecondary u).

(** Credentials extends User with the password hash and the MFA secret. *)
Record Credentials (U : Type) := mkCredentials {
  cred_User : User U; PasswordHash : string; MFASecret : option string }.
Arguments mkCredentials {U}. Arguments cred_User {U}. Arguments PasswordHash {U}.
Arguments MFASecret {U}.

Record MFARecoveryCode (U : Type) := mkMFARecoveryCode { code_ID : U; CodeHash : string }.
Arguments mkMFARecoveryCode {U}. Arguments code_ID {U}. Arguments CodeHash {U}.

Record CreateParams := mkCreateParams {
  cp_Email : string; cp_Username : string; cp_PasswordHash : string; cp_VerifyToken : string;
  cp_VerifyExpiry : Z }.

Definition TombstoneEmail : string := "email".
Definition TombstoneUsername : string := "username".
Record Tombstone := mkTombstone { IdentifierType : string; HMACHash : string }.
End User.

(** ** internal/server/server.go *)
Module Server.
Record Config (U : Type) := mkConfig {
  ID : U; Name : string; Description : string; IconKey : option string;
  BannerKey : option string; OwnerID : U; CreatedAt : Z; UpdatedAt : Z }.
Arguments mkConfig {U}. Arguments ID {U}. Arguments Name {U}. Arguments Description {U}.
Arguments IconKey {U}. Arguments BannerKey {U}. Arguments OwnerID {U}.
Arguments CreatedAt {U}. Arguments UpdatedAt {U}.

Definition ToModel `{UUIDLib U} `{TimeFormat} (cfg : Config U) : Models.ServerConfig :=
  Models.mkServerConfig (uuid_String (ID cfg)) (Name cfg) (Description cfg) (IconKey cfg)
    (BannerKey cfg) (uuid_String (OwnerID cfg)) (time_Format (CreatedAt cfg))
    (time_Format (UpdatedAt cfg)).
End Server.

(** ** internal/channel/channel.go *)
Module Channel.
Record Channel (U : Type) := mkChannel {
  ID : U; CategoryID : option U; CreatedBy : option U; Name : string; Type_ : string;
  Topic : string; Position : Z; SlowmodeSeconds : Z; NSFW : bool; CreatedAt : Z;
  UpdatedAt : Z }.
Arguments mkChannel {U}. Arguments ID {U}. Arguments CategoryID {U}. Arguments CreatedBy {U}.
Arguments Name {U}. Arguments Type_ {U}. Arguments Topic {U}. Arguments Position {U}.
Arguments SlowmodeSeconds {U}. Arguments NSFW {U}. Arguments CreatedAt {U}.
Arguments UpdatedAt {U}.

Definition ToModel `{UUIDLib U} `{TimeFormat} (ch : Channel U) : Models.Channel :=
  Models.mkChannel (uuid_String (ID ch)) (uuid_String <$> CategoryID ch)
    (uuid_String <$> CreatedBy ch) (Name ch) (Type_ ch) (Topic ch) (Position ch)
    (SlowmodeSeconds ch) (NSFW ch) (time_Format (CreatedAt ch)) (time_Format (UpdatedAt ch)).
End Channel.

(** ** internal/role/role.go *)
Module Role.
Record Role (U : Type) := mkRole {
  ID : U; Name : string; Colour : Z; Position : Z; Hoist : bool; Permissions : Z;
  IsEveryone : bool; CreatedAt : Z; UpdatedAt : Z }.
Arguments mkRole {U}. Arguments ID {U}. Arguments Name {U}. Arguments Colour {U}.
Arguments Position {U}. Arguments Hoist {U}. Arguments Permissions {U}.
Arguments IsEveryone {U}. Arguments CreatedAt {U}. Arguments UpdatedAt {U}.

Definition ToModel `{UUIDLib U} `{TimeFormat} (r : Role U) : Models.Role :=
  Models.mkRole (uuid_String (ID r)) (Name r) (Colour r) (Position r) (Hoist r)
    (Permissions r) (IsEveryone r) (time_Format (CreatedAt r)) (time_Format (UpdatedAt r)).
End Role.

(** ** internal/member/member.go *)
Module Member.
Record WithProfile (U : Type) := mkWithProfile {
  UserID : U; Username : string; DisplayName : option string; AvatarKey : option string;
  Nickname : option string; Status : string; TimeoutUntil : option Z; JoinedAt : Z;
  RoleIDs : list U }.
Arguments mkWithProfile {U}. Arguments UserID {U}. Arguments Username {U}.
Arguments DisplayName {U}. Arguments AvatarKey {U}. Arguments Nickname {U}.
Arguments Status {U}. Arguments TimeoutUntil {U}. Arguments JoinedAt {U}. Arguments RoleIDs {U}.

Definition ToModel `{UUIDLib U} `{TimeFormat} (m : WithProfile U) : Models.Member :=
  Models.mkMember
    (Models.mkMemberUser (uuid_String (UserID m)) (Username m) (DisplayName m) (AvatarKey m))
    (Nickname m) (time_Format (JoinedAt m)) (uuid_String <$> RoleIDs m) (Status m)
    (time_Format <$> TimeoutUntil m).
End Member.

(** ** internal/readstate/readstate.go *)
Module ReadState.
Record ReadState (U : Type) := mkReadState {
  UserID : U; ChannelID : U; LastMessageID : option U; MentionCount : Z; UpdatedAt : Z }.
Arguments mkReadState {U}. Arguments UserID {U}. Arguments ChannelID {U}.
Arguments LastMessageID {U}. Arguments MentionCount {U}. Arguments UpdatedAt {U}.

Definition ToModel `{UUIDLib U} (rs : ReadState U) : Models.ReadState :=
  Models.mkReadState (uuid_String (ChannelID rs)) (uuid_String <$> LastMessageID rs)
    (MentionCount rs).
End ReadState.

(** ** internal/onboarding: onboarding.go and the store of documents.go *)
Module Onboarding.
Record Config (U : Type) := mkConfig {
  ID : U; WelcomeChannelID : option U; RequireEmailVerification : bool; OpenJoin : bool;
  MinAccountAgeSeconds : Z; RequirePhone : bool; RequireCaptcha : bool; AutoRoles : list U;
  CreatedAt : Z; UpdatedAt : Z }.
Arguments mkConfig {U}. Arguments ID {U}. Arguments WelcomeChannelID {U}.
Arguments RequireEmailVerification {U}. Arguments OpenJoin {U}.
Arguments MinAccountAgeSeconds {U}. Arguments RequirePhone {U}. Arguments RequireCaptcha {U}.
Arguments AutoRoles {U}. Arguments CreatedAt {U}. Arguments UpdatedAt {U}.

Definition ToModel `{UUIDLib U} (cfg : Config U) (docs : list Models.OnboardingDocument)
    : Models.OnboardingConfig :=
  Models.mkOnboardingConfig (uuid_String <$> WelcomeChannelID cfg)
    (RequireEmailVerification cfg) (OpenJoin cfg) (MinAccountAgeSeconds cfg)
    (uuid_String <$> AutoRoles cfg) docs.

Record Document := mkDocument {
  Slug : string; Title : string; Content : string; doc_Position : Z; Required : bool }.
Record DocumentStore := mkDocumentStore {
  docs : list Document; requiredSlugs : gset string }.

Definition ToModels (s : DocumentStore) : list Models.OnboardingDocument :=
  (λ doc, Models.mkOnboardingDocument (Slug doc) (Title doc) (Content doc) (doc_Position doc)
            (Required doc)) <$> docs s.
End Onboarding.
