(* ===== verification/Postgres.v ===== *)
(** * PostgreSQL through pgx, and transactions: internal/postgres

    The database server is a parameter: a class of operations (a statement outside a
    transaction, and Begin, statement, Commit, Rollback inside one) and a class of laws.  A
    statement is a program on the tables, of any type [DB].  Transactions are isolated: no
    other session writes between the statements of one.  [WithTx] is the program's; the
    refinement [atomic] says what a repository operation built from statements and [WithTx]
    amounts to: one step on the tables, all of it or nothing. *)
From S2P Require Import Prelude.

(** ** Errors *)
Definition ErrNoRows : error := Sentinel "pgx.ErrNoRows".
Definition codeUniqueViolation : string := "23505".
Definition codeForeignKeyViolation : string := "23503".
Definition PgError (code : string) : error := Sentinel ("SQLSTATE " +:+ code).

(** [errors.AsType] finds the server's error at the end of the chain. *)
Definition IsUniqueViolation (err : error) : bool := errors_Is err (PgError codeUniqueViolation).
Definition IsForeignKeyViolation (err : error) : bool :=
  errors_Is err (PgError codeForeignKeyViolation).

(** The cause at the end of a chain.  Errors of the driver (the connection broke, the context
    ended) are compared with nothing. *)
Fixpoint root (e : error) : error := match e with Wrap _ c => root c | _ => e end.
Definition from_driver (e : error) : Prop := ∃ t, root e = Plain t.

Lemma root_eq e : root e = match e with Wrap _ c => root c | _ => e end.
Proof. by destruct e. Qed.

Lemma from_driver_Is e n : from_driver e → errors_Is e (Sentinel n) = false.
Proof.
  intros [t Ht]. induction e as [m|x|c e IH]; [done|done|].
  rewrite errors_Is_eq, bool_decide_eq_false_2 by done. by apply IH.
Qed.
Lemma from_driver_wrap c e : from_driver e → from_driver (Wrap c e).
Proof. by intros [t Ht]; exists t. Qed.
#[export] Hint Resolve from_driver_Is from_driver_wrap : go.

(** [gen_random_uuid()]: the next of a supply of identifiers. *)
Class RandomUUID (U : Type) : Type := { gen_random_uuid : nat → U }.

(** ** The server *)
Class Postgres (DB W : Type) : Type := {
  pg_view : W → DB;
  pg_tx : W → option DB;
  pg_query : ∀ {A}, M DB A → M W A;
  tx_Begin : M W unit;
  tx_query : ∀ {A}, M DB A → M W A;
  tx_Commit : M W unit;
  tx_Rollback : M W unit;
}.

(** What a step [g] on the tables, done all or nothing, may have left: its result, or the
    driver's error with the step undone or done. *)
Definition atomic {DB W} `{Postgres DB W} {A} (g : M DB A) (w : W) (r : res A) (w' : W) : Prop :=
  (∃ d, g (pg_view w) = (r, d) ∧
        pg_view w' = match r with Ok _ => d | Err _ => pg_view w end) ∨
  (∃ e, r = Err e ∧ from_driver e ∧
        (pg_view w' = pg_view w ∨ ∃ a d, g (pg_view w) = (Ok a, d) ∧ pg_view w' = d)).

(** Documented: a statement is atomic; inside a transaction its effect is seen there only, and
    an error aborts the transaction; a failed COMMIT may have taken effect. *)
Class PostgresLaws (DB W : Type) `{Postgres DB W} : Prop := {
  pg_query_atomic : ∀ {A} (f : M DB A) (w : W) r w', pg_query f w = (r, w') → atomic f w r w';
  tx_Begin_ok : ∀ (w w' : W), tx_Begin (DB := DB) w = (Ok tt, w') →
    pg_view (DB := DB) w' = pg_view (DB := DB) w ∧ pg_tx (DB := DB) w' = Some (pg_view w);
  tx_Begin_err : ∀ (w : W) e w', tx_Begin (DB := DB) w = (Err e, w') → from_driver e ∧ pg_view (DB := DB) w' = pg_view (DB := DB) w;
  tx_query_run : ∀ {A} (f : M DB A) (w : W) r w', tx_query f w = (r, w') →
    pg_view (DB := DB) w' = pg_view (DB := DB) w ∧
    match pg_tx (DB := DB) w with
    | Some d => (∃ d', f d = (r, d') ∧
                       pg_tx (DB := DB) w' = match r with Ok _ => Some d' | Err _ => None end) ∨
                (∃ e, r = Err e ∧ from_driver e ∧ pg_tx (DB := DB) w' = None)
    | None => ∃ e, r = Err e ∧ pg_tx (DB := DB) w' = None
    end;
  tx_Commit_ok : ∀ (w w' : W), tx_Commit (DB := DB) w = (Ok tt, w') → pg_tx (DB := DB) w = Some (pg_view w');
  tx_Commit_err : ∀ (w : W) e w', tx_Commit (DB := DB) w = (Err e, w') →
    from_driver e ∧ (pg_view (DB := DB) w' = pg_view (DB := DB) w ∨ pg_tx (DB := DB) w = Some (pg_view w'));
  tx_Rollback_view : ∀ (w : W) r w', tx_Rollback (DB := DB) w = (r, w') → pg_view (DB := DB) w' = pg_view (DB := DB) w;
}.

(** ** Error handling of a call *)
Section map_err.
Context {W : Type}.

Definition map_err {A} (f : error → error) (m : M W A) : M W A := λ w,
  match m w with (Err e, w') => (Err (f e), w') | r => r end.

(** [if errors.Is(err, target) { return err' }; return fmt.Errorf("ctx: %w", err)] *)
Definition on_err (target err' : error) (ctx : string) (e : error) : error :=
  if errors_Is e target then err' else Wrap ctx e.

Lemma map_err_inv {A} f (m : M W A) w r w' :
  map_err f m w = (r, w') →
  ∃ r0, m w = (r0, w') ∧ r = match r0 with Ok a => Ok a | Err e => Err (f e) end.
Proof. unfold map_err. destruct (m w) as [[|] ?]; naive_solver. Qed.
Lemma wrap_map_err {A} ctx (m : M W A) w : wrap ctx m w = map_err (Wrap ctx) m w.
Proof. done. Qed.
End map_err.

Lemma on_err_driver n err' ctx e : from_driver e → from_driver (on_err (Sentinel n) err' ctx e).
Proof. intros He. unfold on_err. rewrite (from_driver_Is _ _ He). by apply from_driver_wrap. Qed.
#[export] Hint Resolve on_err_driver : go.

(** ** tx.go *)
Section with_tx.
Context {DB W : Type} `{Postgres DB W}.

Definition WithTx {A} (fn : M W A) : M W A :=
  wrap "begin transaction" (tx_Begin (DB := DB)) ;;
  r ← try (a ← fn; wrap "commit transaction" (tx_Commit (DB := DB)) ;; mret a);
  best_effort (tx_Rollback (DB := DB)) ;;
  of_res r.
End with_tx.
Arguments WithTx DB {W _ A} fn.

(** ** Refinement *)
Section refinement.
Context {DB W : Type} `{PostgresLaws DB W}.
Implicit Types w : W.

(** The body [fn] of a transaction computes what [g] computes on its tables. *)
Definition tx_body {A} (fn : M W A) (g : M DB A) : Prop := ∀ w d r w',
  pg_tx w = Some d → fn w = (r, w') →
  pg_view w' = pg_view w ∧
  ((∃ d', g d = (r, d') ∧ match r with Ok _ => pg_tx w' = Some d' | Err _ => True end) ∨
   (∃ e, r = Err e ∧ from_driver e)).

Lemma body_query {A} (f : M DB A) : tx_body (tx_query f) f.
Proof.
  intros w d r w' Hd E. apply tx_query_run in E as [Hv E]. rewrite Hd in E. split; [done|].
  destruct E as [(d' & E & Ht)|(e & -> & He & _)]; [left|right; eauto].
  exists d'. split; [done|]. by destruct r.
Qed.

Lemma body_ret {A} (a : A) : tx_body (mret a) (mret a).
Proof. intros w d r w' Hd [= <- <-]. split; [done|]. left. by exists d. Qed.

Lemma body_fail {A} e : tx_body (fail (A := A) e) (fail e).
Proof. intros w d r w' Hd [= <- <-]. split; [done|]. left. by exists d. Qed.

Lemma body_bind {A B} (fn : M W A) (k : A → M W B) g h :
  tx_body fn g → (∀ a, tx_body (k a) (h a)) → tx_body (fn ≫= k) (g ≫= h).
Proof.
  intros Hf Hk w d r w' Hd E. unfold mbind, M_bind in *.
  destruct (fn w) as [[a|e] w1] eqn:E1; destruct (Hf _ _ _ _ Hd E1) as [Hv Hr].
  - destruct Hr as [(d1 & -> & Ht)|(e & [=] & _)].
    destruct (Hk a _ _ _ _ Ht E) as [Hv' Hr]. split; [congruence|done].
  - simplify_eq. split; [done|]. destruct Hr as [(d1 & -> & _)|(e' & ? & ?)]; [left|right; naive_solver].
    by exists d1.
Qed.

Lemma body_map_err {A} f (fn : M W A) g :
  (∀ e, from_driver e → from_driver (f e)) → tx_body fn g →
  tx_body (map_err f fn) (map_err f g).
Proof.
  intros Hf Hb w d r w' Hd E. apply map_err_inv in E as (r0 & E & ->).
  destruct (Hb _ _ _ _ Hd E) as [Hv [(d' & Hg & Ht)|(e & -> & He)]]; (split; [done|]).
  - left. exists d'. unfold map_err. rewrite Hg. by destruct r0.
  - right. eauto.
Qed.

Lemma body_wrap {A} ctx (fn : M W A) g : tx_body fn g → tx_body (wrap ctx fn) (wrap ctx g).
Proof. apply (body_map_err (Wrap ctx)). intros e. apply from_driver_wrap. Qed.

Lemma body_for_each {A} (l : list A) (fn : A → M W unit) g :
  (∀ x, tx_body (fn x) (g x)) → tx_body (for_each l fn) (for_each l g).
Proof.
  intros Hb. induction l as [|x l IH]; [apply body_ret|]. simpl. by apply body_bind.
Qed.

Lemma body_ext {A} (fn : M W A) g g' : tx_body fn g → (∀ d, g d = g' d) → tx_body fn g'.
Proof. intros Hb Hg w d r w' Hd E. rewrite <-Hg. by apply Hb. Qed.

(** [WithTx] makes its body one atomic step. *)
Lemma WithTx_atomic {A} (fn : M W A) g w r w' :
  tx_body fn g → WithTx DB fn w = (r, w') → atomic g w r w'.
Proof.
  intros Hb E. unfold WithTx in E.
  apply bind_inv in E as [([] & w1 & E1 & E)|(e & E1 & ->)].
  2:{ apply wrap_inv in E1 as ([[]|e1] & E1 & [=]); subst. apply tx_Begin_err in E1 as [He Hv].
      right. eexists. eauto with go. }
  apply wrap_Ok_inv, tx_Begin_ok in E1 as [Hv1 Ht1].
  apply bind_inv in E as [(r0 & w2 & E2 & E)|(e & E2 & _)];
    apply try_inv in E2 as (r1 & Hr & E2); [|done]. injection Hr as ->.
  apply bind_inv in E as [([] & w3 & E3 & E)|(e & E3 & _)];
    apply best_effort_inv in E3 as (Hr & r3 & E3); [|done].
  unfold of_res in E. injection E as <- <-. apply tx_Rollback_view in E3 as Hv3.
  apply bind_inv in E2 as [(a & w4 & E2 & E4)|(e & E2 & ->)].
  - destruct (Hb _ _ _ _ Ht1 E2) as [Hv4 [(d & Hg & Ht4)|(e & [=] & _)]].
    apply bind_inv in E4 as [([] & w5 & E5 & E4)|(e & E5 & ->)].
    + unfold mret, M_ret in E4. injection E4 as <- <-. apply wrap_Ok_inv, tx_Commit_ok in E5.
      left. exists d. split; [done|]. congruence.
    + apply wrap_inv in E5 as ([[]|e5] & E5 & [=]); subst.
      apply tx_Commit_err in E5 as [He [Hv5|Ht5]]; right; eexists; (split; [done|]);
        (split; [by apply from_driver_wrap|]); [left; congruence|right].
      exists a, d. split; [done|]. congruence.
  - destruct (Hb _ _ _ _ Ht1 E2) as [Hv4 [(d & Hg & _)|(e' & [= <-] & He)]]; [left|right].
    + exists d. split; [done|]. congruence.
    + exists e. split_and!; [done..|]. left. congruence.
Qed.

Lemma atomic_map_err {A} f (g : M DB A) w r w' m :
  (∀ e, from_driver e → from_driver (f e)) →
  (∀ r0 w0, m w = (r0, w0) → atomic g w r0 w0) →
  map_err f m w = (r, w') → atomic (map_err f g) w r w'.
Proof.
  intros Hf Hm E. apply map_err_inv in E as (r0 & E & ->). destruct (Hm _ _ E) as [(d & Hg & Hv)|(e & -> & He & Hv)].
  - left. exists d. unfold map_err. rewrite Hg. by destruct r0.
  - right. eexists. split; [done|]. split; [by apply Hf|]. destruct Hv as [Hv|(a & d & Hg & Hv)]; [by left|right].
    exists a, d. unfold map_err. by rewrite Hg.
Qed.

Lemma atomic_query {A} f (g : M DB A) w r w' :
  (∀ e, from_driver e → from_driver (f e)) →
  map_err f (pg_query g) w = (r, w') → atomic (map_err f g) w r w'.
Proof. intros Hf. apply atomic_map_err; [done|]. intros r0 w0. apply pg_query_atomic. Qed.

(** A successful operation took its step; one that failed with an error of the program left
    the tables as they were. *)
Lemma atomic_Ok {A} (g : M DB A) w a w' :
  atomic g w (Ok a) w' → g (pg_view w) = (Ok a, pg_view w').
Proof. intros [(d & Hg & ->)|(e & [=] & _)]. done. Qed.
Lemma atomic_ext {A} (g g' : M DB A) w r w' :
  (∀ d, (g d).1 = (g' d).1) → (∀ d a, (g d).1 = Ok a → (g d).2 = (g' d).2) →
  atomic g w r w' → atomic g' w r w'.
Proof.
  intros H1 H2 [(d & Hg & Hv)|(e & -> & He & Hv)].
  - left. specialize (H1 (pg_view w)). rewrite Hg in H1. simpl in H1.
    destruct (g' (pg_view w)) as [r' d'] eqn:Hg'. simpl in H1. subst r'. exists d'.
    split; [done|]. destruct r as [a|]; [|done].
    specialize (H2 (pg_view w) a). rewrite Hg, Hg' in H2. rewrite Hv. auto.
  - right. exists e. split_and!; [done..|]. destruct Hv as [Hv|(a & d & Hg & Hv)]; [by left|right].
    specialize (H1 (pg_view w)). specialize (H2 (pg_view w) a). rewrite Hg in H1, H2. simpl in *.
    destruct (g' (pg_view w)) as [r' d'] eqn:Hg'. simpl in *. subst r'. exists a, d'.
    split; [done|]. rewrite Hv. auto.
Qed.
End refinement.
Create HintDb tx.
#[export] Hint Resolve body_query body_ret body_fail body_bind body_wrap body_for_each : tx.

(** ** What the statements leave alone

    [obs] sees a part of the world the database has no hand in. *)
Section frame.
Context {W V : Type} (obs : W → V).

Definition keeps {A} (m : M W A) : Prop := ∀ w, obs (m w).2 = obs w.

Lemma keeps_ret {A} (a : A) : keeps (mret a).
Proof. done. Qed.
Lemma keeps_fail {A} e : keeps (fail (A := A) e).
Proof. done. Qed.
Lemma keeps_of_res {A} (r : res A) : keeps (of_res r).
Proof. done. Qed.
Lemma keeps_gets {A} (f : W → A) : keeps (gets f).
Proof. done. Qed.
Lemma keeps_bind {A B} (m : M W A) (k : A → M W B) : keeps m → (∀ a, keeps (k a)) → keeps (m ≫= k).
Proof.
  intros Hm Hk w. unfold mbind, M_bind. specialize (Hm w). destruct (m w) as [[a|e] w1]; simpl in *; [|done].
  by rewrite (Hk a w1).
Qed.
Lemma keeps_map_err {A} f (m : M W A) : keeps m → keeps (map_err f m).
Proof. intros Hm w. unfold map_err. specialize (Hm w). by destruct (m w) as [[] ?]. Qed.
Lemma keeps_wrap {A} c (m : M W A) : keeps m → keeps (wrap c m).
Proof. apply keeps_map_err. Qed.
Lemma keeps_try {A} (m : M W A) : keeps m → keeps (try m).
Proof. intros Hm w. unfold try. specialize (Hm w). by destruct (m w). Qed.
Lemma keeps_best_effort {A} (m : M W A) : keeps m → keeps (best_effort m).
Proof. intros Hm w. apply Hm. Qed.
Lemma keeps_for_each {A} (l : list A) body : (∀ x, keeps (body x)) → keeps (for_each l body).
Proof. intros Hb. induction l; [apply keeps_ret|]. by apply keeps_bind. Qed.
Lemma keeps_run {A} (m : M W A) w r w' : keeps m → m w = (r, w') → obs w' = obs w.
Proof. intros Hm E. specialize (Hm w). by rewrite E in Hm. Qed.
End frame.
Create HintDb keeps.
#[export] Hint Resolve keeps_ret keeps_fail keeps_of_res keeps_gets : keeps.

(** Follow the structure of the program; what is left are its calls. *)
Ltac keeps_step :=
  match goal with
  | |- keeps _ (_ ≫= _) => apply keeps_bind; [|intros ?]
  | |- keeps _ (map_err _ _) => apply keeps_map_err
  | |- keeps _ (wrap _ _) => apply keeps_wrap
  | |- keeps _ (try _) => apply keeps_try
  | |- keeps _ (best_effort _) => apply keeps_best_effort
  | |- keeps _ (for_each _ _) => apply keeps_for_each; intros ?
  | |- keeps _ (match ?x with _ => _ end) => destruct x
  end.
Ltac keeps := repeat keeps_step; eauto with keeps.

Class PgFrame (DB : Type) {W V : Type} `{Postgres DB W} (obs : W → V) : Prop := {
  pg_query_keeps : ∀ {A} (f : M DB A), keeps obs (pg_query f);
  tx_query_keeps : ∀ {A} (f : M DB A), keeps obs (tx_query f);
  tx_Begin_keeps : keeps obs (tx_Begin (DB := DB));
  tx_Commit_keeps : keeps obs (tx_Commit (DB := DB));
  tx_Rollback_keeps : keeps obs (tx_Rollback (DB := DB));
}.
#[export] Hint Resolve pg_query_keeps tx_query_keeps tx_Begin_keeps tx_Commit_keeps
  tx_Rollback_keeps : keeps.

Lemma WithTx_keeps {DB W V} `{PgFrame DB W V obs} {A} (fn : M W A) :
  keeps obs fn → keeps obs (WithTx DB fn).
Proof. intros Hfn. unfold WithTx. by keeps. Qed.
#[export] Hint Resolve WithTx_keeps : keeps.

(** ** A repository operation as one step

    [m] does the step [g], whole or not at all, and leaves what [obs] sees alone. *)
Section implements.
Context {DB W V : Type} `{Postgres DB W} (obs : W → V).

Definition implements {A} (m : M W A) (g : M DB A) : Prop :=
  ∀ w r w', m w = (r, w') → atomic g w r w' ∧ obs w' = obs w.

Lemma implements_Ok {A} (m : M W A) g w a w' :
  implements m g → m w = (Ok a, w') → g (pg_view w) = (Ok a, pg_view w').
Proof. intros Hm E. by apply Hm in E as [E%atomic_Ok _]. Qed.
Lemma implements_keeps {A} (m : M W A) g : implements m g → keeps obs m.
Proof. intros Hm w. destruct (m w) as [r w'] eqn:E. by apply Hm in E as [_ E]. Qed.

(** A step that only reads leaves the tables as they are, whatever the call returned. *)
Lemma implements_read {A} (m : M W A) g w r w' :
  implements m g → (∀ d, (g d).2 = d) → m w = (r, w') →
  pg_view w' = pg_view w ∧ (g (pg_view w) = (r, pg_view w) ∨ ∃ e, r = Err e ∧ from_driver e).
Proof.
  intros Hm Hg E. apply Hm in E as [[(d & Hd & Hv)|(e & -> & He & Hv)] _].
  - specialize (Hg (pg_view w)). rewrite Hd in Hg. simpl in Hg. subst d.
    split; [by destruct r|by left].
  - split; [|right; eauto]. destruct Hv as [?|(a & d & Hd & ->)]; [done|].
    specialize (Hg (pg_view w)). by rewrite Hd in Hg.
Qed.

(** [g] and [g'] agree: same results, same tables on success. *)
Definition agree {A} (g g' : M DB A) : Prop := ∀ d,
  match g d, g' d with
  | (Ok a, d1), (Ok a', d1') => a = a' ∧ d1 = d1'
  | (Err e, _), (Err e', _) => e = e'
  | _, _ => False
  end.

Context `{!PostgresLaws DB W} `{!PgFrame DB obs}.

Lemma agree_atomic {A} (g g' : M DB A) w r w' : agree g g' → atomic g w r w' → atomic g' w r w'.
Proof.
  intros Ha. apply atomic_ext.
  - intros d. specialize (Ha d). destruct (g d) as [[] ?], (g' d) as [[] ?]; naive_solver.
  - intros d a. specialize (Ha d). destruct (g d) as [[] ?], (g' d) as [[] ?]; naive_solver.
Qed.

Lemma tx_implements {A} (fn : M W A) (g g' : M DB A) :
  tx_body fn g → keeps obs fn → agree g g' → implements (WithTx DB fn) g'.
Proof.
  intros Hb Hk Ha w r w' E. split.
  - eapply agree_atomic; [done|]. by eapply WithTx_atomic.
  - refine (keeps_run obs _ _ _ _ _ E). by apply WithTx_keeps.
Qed.

Lemma query_implements {A B} f (h : A → B) (q : M DB A) g' :
  (∀ e, from_driver e → from_driver (f e)) →
  agree (map_err f (a ← q; mret (h a))) g' →
  implements (map_err f (a ← pg_query q; mret (h a))) g'.
Proof.
  intros Hf Ha w r w' E. split.
  - eapply agree_atomic; [done|]. eapply atomic_map_err; [done| |exact E]. clear E r w'.
    intros r w' E. apply bind_inv in E as [(a & w1 & E1 & E)|(e & E1 & ->)];
      apply pg_query_atomic in E1 as [(d & Hq & Hv)|(e' & Hr & He & Hv)]; try discriminate Hr.
    + unfold mret, M_ret in E. simplify_eq. left. eexists. split; [|done].
      unfold mbind, M_bind. by rewrite Hq.
    + left. exists d. split; [|done]. unfold mbind, M_bind. by rewrite Hq.
    + injection Hr as ->. right. eexists. split_and!; [done..|].
      destruct Hv as [Hv|(a & d & Hq & Hv)]; [by left|right]. exists (h a), d.
      split; [|done]. unfold mbind, M_bind. by rewrite Hq.
  - refine (keeps_run obs _ _ _ _ _ E). by keeps.
Qed.

Lemma map_err_implements {A} f (q : M DB A) g' :
  (∀ e, from_driver e → from_driver (f e)) →
  agree (map_err f q) g' → implements (map_err f (pg_query q)) g'.
Proof.
  intros Hf Ha w r w' E. split.
  - eapply agree_atomic; [done|]. by eapply atomic_query.
  - refine (keeps_run obs _ _ _ _ _ E). by keeps.
Qed.

Lemma wrap_implements {A} c (q : M DB A) g' :
  agree (wrap c q) g' → implements (wrap c (pg_query q)) g'.
Proof. apply (map_err_implements (Wrap c)). intros e. apply from_driver_wrap. Qed.

Lemma body_if {A} (b : bool) (m1 m2 : M W A) (g1 g2 : M DB A) :
  tx_body m1 g1 → tx_body m2 g2 → tx_body (if b then m1 else m2) (if b then g1 else g2).
Proof. by destruct b. Qed.
End implements.

(** [by_tx] proves that a transaction is the step its statements compute; [tx_error] knows
    how the errors of the driver pass through the program's error handling. *)
Ltac tx_error := apply on_err_driver.
Ltac tx_step :=
  match goal with
  | |- tx_body (_ ≫= _) _ => eapply body_bind; [|intros ?]
  | |- tx_body (wrap _ _) _ => eapply body_wrap
  | |- tx_body (map_err _ _) _ => eapply body_map_err; [intros ?; tx_error|]
  | |- tx_body (for_each _ _) _ => eapply body_for_each; intros ?
  | |- tx_body (if _ then _ else _) _ => eapply body_if
  | |- tx_body (tx_query _) _ => apply body_query
  | |- tx_body (mret _) _ => apply body_ret
  | |- tx_body (fail _) _ => apply body_fail
  end.
Ltac by_tx := eapply tx_implements; [apply _..|repeat tx_step|by keeps|].
Ltac by_query :=
  first [eapply query_implements; [apply _..|intros ?; tx_error|]
        |eapply wrap_implements; [apply _..|]
        |eapply map_err_implements; [apply _..|intros ?; tx_error|]].

(** ** Instance for the witnesses: a server that never fails *)
Class HasTables (DB W : Type) : Type := {
  db_of : W → DB; tx_of : W → option DB;
  db_put : DB → W → W; tx_put : option DB → W → W;
  db_of_put : ∀ d w, db_of (db_put d w) = d;
  tx_of_put : ∀ t w, tx_of (tx_put t w) = t;
  db_of_tx_put : ∀ t w, db_of (tx_put t w) = db_of w;
}.

Section memory_db.
Context {DB W : Type} `{HasTables DB W}.

Definition mem_Postgres : Postgres DB W := {|
  pg_view := db_of;
  pg_tx := tx_of;
  pg_query := λ A f w, match f (db_of w) with
                       | (Ok a, d) => (Ok a, db_put d w)
                       | (Err e, _) => (Err e, w)
                       end;
  tx_Begin := λ w, (Ok tt, tx_put (Some (db_of w)) w);
  tx_query := λ A f w, match tx_of w with
                       | None => (Err (Plain "transaction aborted"), w)
                       | Some d => match f d with
                                   | (Ok a, d') => (Ok a, tx_put (Some d') w)
                                   | (Err e, _) => (Err e, tx_put None w)
                                   end
                       end;
  tx_Commit := λ w, match tx_of w with
                    | None => (Err (Plain "transaction aborted"), w)
                    | Some d => (Ok tt, tx_put None (db_put d w))
                    end;
  tx_Rollback := λ w, (Ok tt, tx_put None w);
|}.

Lemma mem_PostgresLaws : PostgresLaws DB W (H := mem_Postgres).
Proof.
  constructor; simpl.
  - intros A f w r w' E. left. destruct (f (db_of w)) as [[a|e] d] eqn:Ef; simplify_eq;
      exists d; simpl; by rewrite ?db_of_put.
  - intros w w' [= <-]. by rewrite db_of_tx_put, tx_of_put.
  - done.
  - intros A f w r w' E. destruct (tx_of w) as [d|] eqn:Et; [|naive_solver].
    destruct (f d) as [[a|e] d'] eqn:Ef; simplify_eq; rewrite db_of_tx_put, tx_of_put; eauto.
  - intros w w' E. destruct (tx_of w); simplify_eq. by rewrite db_of_tx_put, db_of_put.
  - intros w e w' E. destruct (tx_of w); simplify_eq. split; [by eexists|]. by left.
  - intros w r w' [= <- <-]. by rewrite db_of_tx_put.
Qed.
End memory_db.
