(* ===== verification/Frames.v ===== *)
(** * What talking to Valkey leaves alone

    Valkey is another system than the database: its commands and scripts do not touch what
    [obs] sees of the rest of the world.  The lemmas carry that to the calls of the client. *)
From S2P Require Import Prelude GoStd Platform Tokens Postgres.
Open Scope Z_scope.

Class ValkeyFrame {W V : Type} `{Valkey W} (obs : W → V) : Prop := {
  vk_exec_keeps : ∀ cs, keeps obs (vk_exec cs);
  vk_eval_keeps : ∀ f, keeps obs (vk_eval f);
}.
#[export] Hint Resolve vk_exec_keeps vk_eval_keeps : keeps.

Section frames.
Context {W V : Type} `{Valkey W} (obs : W → V) `{!ValkeyFrame obs}.

Lemma one_keeps c : keeps obs (one c).
Proof. unfold one. keeps. Qed.
#[local] Hint Resolve one_keeps : keeps.
Lemma expect_keeps rep :
  keeps obs (expect_bulk rep) ∧ keeps obs (expect_int rep) ∧ keeps obs (expect_ok rep).
Proof. split_and!; destruct rep as [| |[]| |]; simpl; keeps. Qed.
Lemma script_keeps script : keeps obs (script_Run script).
Proof. unfold script_Run. keeps. Qed.
Lemma script_Result_keeps script : keeps obs (script_Result script).
Proof. unfold script_Result, script_Run. keeps. Qed.
Lemma script_Text_keeps script : keeps obs (script_Text script).
Proof. unfold script_Text, script_Run. keeps. apply expect_keeps. Qed.
#[local] Hint Resolve script_keeps script_Result_keeps script_Text_keeps : keeps.
Lemma rdb_Set_keeps k v ttl : keeps obs (rdb_Set k v ttl).
Proof. unfold rdb_Set. keeps. apply expect_keeps. Qed.
Lemma rdb_Get_keeps k : keeps obs (rdb_Get k).
Proof. unfold rdb_Get. keeps. apply expect_keeps. Qed.
Lemma rdb_GetDel_keeps k : keeps obs (rdb_GetDel k).
Proof. unfold rdb_GetDel. keeps. apply expect_keeps. Qed.
Lemma rdb_Del_keeps ks : keeps obs (rdb_Del ks).
Proof. unfold rdb_Del. keeps. apply expect_keeps. Qed.
Lemma rdb_Publish_keeps c m : keeps obs (rdb_Publish c m).
Proof. unfold rdb_Publish. keeps. apply expect_keeps. Qed.
Lemma rdb_MGet_keeps ks : keeps obs (rdb_MGet ks).
Proof. unfold rdb_MGet. keeps. by match goal with r : reply |- _ => destruct r as [| | | |]; simpl; keeps end. Qed.
Lemma pipe_Exec_keeps cs : keeps obs (pipe_Exec cs).
Proof. unfold pipe_Exec. keeps. apply expect_keeps. Qed.
#[local] Hint Resolve rdb_Set_keeps rdb_Get_keeps rdb_GetDel_keeps rdb_Del_keeps rdb_Publish_keeps : keeps.

End frames.
#[export] Hint Resolve one_keeps script_keeps script_Result_keeps script_Text_keeps rdb_Set_keeps
  rdb_Get_keeps rdb_GetDel_keeps rdb_Del_keeps rdb_Publish_keeps rdb_MGet_keeps pipe_Exec_keeps : keeps.
