(* ===== verification/GuildTables.v ===== *)
(** * The tables of the server and the SQL on them

    members, roles, member_roles, bans, permission_overrides, invites, onboarding_config and
    document_acceptances of postgres/migrations/001_initial_schema.sql, and the statements of
    the role, member, permission, invite and onboarding repositories as programs on them,
    under the constraints of the schema.  The columns of users and channels that are joined
    or referenced are here too; UserDB.v has the statements that write users. *)
From stdpp Require Import sorting.
From S2P Require Import Prelude GoStd Platform Permission Validate Postgres Domain.
Open Scope Z_scope.

(** The status column, by the protocol's names. *)
Class MemberStatuses : Type := {
  MemberStatusPending : string; MemberStatusActive : string; MemberStatusTimedOut : string }.
Class MemberStatusLaws `{MemberStatuses} : Prop := {
  status_pending : MemberStatusPending = "pending"%string;
  status_active : MemberStatusActive = "active"%string;
  status_timed_out : MemberStatusTimedOut = "timed_out"%string }.

(** The order of the uuid type. *)
Class UUIDOrder (U : Type) : Type := {
  uuid_le : relation U;
  uuid_le_dec :: RelDecision uuid_le;
  uuid_le_po :: PartialOrder uuid_le;
  uuid_le_total :: Total uuid_le }.

(** ** Tables *)
Record member_row := mkMemberRow {
  m_nickname : option string; m_status : string; m_timeout : option Z; m_joined : Z;
  m_onboarded : option Z }.
Record ban_row (U : Type) := mkBanRow {
  b_reason : option string; b_by : option U; b_expires : option Z; b_created : Z }.
Arguments mkBanRow {U}. Arguments b_reason {U}. Arguments b_by {U}. Arguments b_expires {U}.
Arguments b_created {U}.
Record override_row (U : Type) := mkOverrideRow {
  o_id : U; o_allow : Z; o_deny : Z; o_created : Z; o_updated : Z }.
Arguments mkOverrideRow {U}. Arguments o_id {U}. Arguments o_allow {U}. Arguments o_deny {U}.
Arguments o_created {U}. Arguments o_updated {U}.

(** invite.CreateParams *)
Record invite_params (U : Type) := mkInviteParams {
  ip_ChannelID : U; ip_MaxUses : option Z; ip_MaxAgeSeconds : option Z }.
Arguments mkInviteParams {U}. Arguments ip_ChannelID {U}. Arguments ip_MaxUses {U}.
Arguments ip_MaxAgeSeconds {U}.

(** member.BanRecord *)
Record BanRecord (U : Type) := mkBanRecord {
  br_UserID : U; br_Username : string; br_DisplayName : option string; br_AvatarKey : option string;
  br_Reason : option string; br_BannedBy : option U; br_ExpiresAt : option Z; br_CreatedAt : Z }.
Arguments mkBanRecord {U}. Arguments br_UserID {U}. Arguments br_Username {U}.
Arguments br_DisplayName {U}. Arguments br_AvatarKey {U}. Arguments br_Reason {U}.
Arguments br_BannedBy {U}. Arguments br_ExpiresAt {U}. Arguments br_CreatedAt {U}.

(** permission.OverrideRow *)
Record OverrideRow (U : Type) := mkOverride_Row {
  or_ID : U; or_TargetType : string; or_TargetID : U; or_PrincipalType : string;
  or_PrincipalID : U; or_Allow : Z; or_Deny : Z; or_CreatedAt : Z; or_UpdatedAt : Z }.
Arguments mkOverride_Row {U}. Arguments or_ID {U}. Arguments or_TargetType {U}.
Arguments or_TargetID {U}. Arguments or_PrincipalType {U}. Arguments or_PrincipalID {U}.
Arguments or_Allow {U}. Arguments or_Deny {U}. Arguments or_CreatedAt {U}.
Arguments or_UpdatedAt {U}.

Section tables.
Context {U : Type} `{UUIDLib U} `{RandomUUID U}.

(** The four key columns of an override. *)
Definition override_key : Type := string * U * string * U.

Record guild := mkGuild {
  g_now : Z;
  g_seq : nat;
  g_users : gmap U (User.Credentials U);
  g_channels : gmap U (option U);
  g_server : option (Server.Config U);
  g_roles : gmap U (Role.Role U);
  g_members : gmap U member_row;
  g_member_roles : gset (U * U);
  g_bans : gmap U (ban_row U);
  g_overrides : gmap override_key (override_row U);
  g_invites : gmap U (Invite.Invite U);
  g_onboarding : option (Onboarding.Config U);
  g_acceptances : gmap (U * string) Z;
}.

Definition set_seq n (d : guild) : guild :=
  mkGuild (g_now d) n (g_users d) (g_channels d) (g_server d) (g_roles d) (g_members d)
    (g_member_roles d) (g_bans d) (g_overrides d) (g_invites d) (g_onboarding d) (g_acceptances d).
Definition set_roles f (d : guild) : guild :=
  mkGuild (g_now d) (g_seq d) (g_users d) (g_channels d) (g_server d) (f (g_roles d)) (g_members d)
    (g_member_roles d) (g_bans d) (g_overrides d) (g_invites d) (g_onboarding d) (g_acceptances d).
Definition set_members f (d : guild) : guild :=
  mkGuild (g_now d) (g_seq d) (g_users d) (g_channels d) (g_server d) (g_roles d) (f (g_members d))
    (g_member_roles d) (g_bans d) (g_overrides d) (g_invites d) (g_onboarding d) (g_acceptances d).
Definition set_member_roles f (d : guild) : guild :=
  mkGuild (g_now d) (g_seq d) (g_users d) (g_channels d) (g_server d) (g_roles d) (g_members d)
    (f (g_member_roles d)) (g_bans d) (g_overrides d) (g_invites d) (g_onboarding d) (g_acceptances d).
Definition set_bans f (d : guild) : guild :=
  mkGuild (g_now d) (g_seq d) (g_users d) (g_channels d) (g_server d) (g_roles d) (g_members d)
    (g_member_roles d) (f (g_bans d)) (g_overrides d) (g_invites d) (g_onboarding d) (g_acceptances d).
Definition set_overrides f (d : guild) : guild :=
  mkGuild (g_now d) (g_seq d) (g_users d) (g_channels d) (g_server d) (g_roles d) (g_members d)
    (g_member_roles d) (g_bans d) (f (g_overrides d)) (g_invites d) (g_onboarding d) (g_acceptances d).
Definition set_invites f (d : guild) : guild :=
  mkGuild (g_now d) (g_seq d) (g_users d) (g_channels d) (g_server d) (g_roles d) (g_members d)
    (g_member_roles d) (g_bans d) (g_overrides d) (f (g_invites d)) (g_onboarding d) (g_acceptances d).
Definition set_onboarding c (d : guild) : guild :=
  mkGuild (g_now d) (g_seq d) (g_users d) (g_channels d) (g_server d) (g_roles d) (g_members d)
    (g_member_roles d) (g_bans d) (g_overrides d) (g_invites d) c (g_acceptances d).
Definition set_acceptances f (d : guild) : guild :=
  mkGuild (g_now d) (g_seq d) (g_users d) (g_channels d) (g_server d) (g_roles d) (g_members d)
    (g_member_roles d) (g_bans d) (g_overrides d) (g_invites d) (g_onboarding d) (f (g_acceptances d)).

Definition next_id : M guild U := λ d, (Ok (gen_random_uuid (g_seq d)), set_seq (S (g_seq d)) d).
Definition row_or_none {A} (o : option A) : M guild A :=
  match o with Some a => mret a | None => fail ErrNoRows end.

(** ** Columns of type integer *)
Definition in_int4 (v : Z) : bool := (-2^31 <=? v) && (v <=? 2^31 - 1).
(** The driver refuses to send a value the column cannot hold. *)
Definition encode_int4 (v : option Z) : M guild unit :=
  if match v with Some n => in_int4 n | None => true end then mret tt
  else fail (Plain "unable to encode into int4").

(** ** roles *)
Definition by_position (a b : Role.Role U) : Prop := Role.Position a ≤ Role.Position b.
#[global] Instance by_position_dec : RelDecision by_position.
Proof. intros a b. unfold by_position. apply _. Defined.
Definition select_roles : M guild (list (Role.Role U)) :=
  gets (λ d, merge_sort by_position (map_to_list (g_roles d)).*2).
Definition select_role (id : U) : M guild (Role.Role U) := λ d, row_or_none (g_roles d !! id) d.
Definition count_roles : M guild Z := gets (λ d, Z.of_nat (size (g_roles d))).

(** Name and position are unique. *)
Definition role_taken (id : U) (name : string) (position : Z) (d : guild) : Prop :=
  map_Exists (λ i r, i ≠ id ∧ (Role.Name r = name ∨ Role.Position r = position)) (g_roles d).
#[global] Instance role_taken_dec id n p d : Decision (role_taken id n p d).
Proof. unfold role_taken. apply _. Defined.

(** COALESCE(MAX(position), -1) *)
Definition max_position (d : guild) : Z :=
  foldr (λ p acc, Z.max (Role.Position p.2) acc) (-1) (map_to_list (g_roles d)).
Definition insert_role (name : string) (colour : Z) (hoist : bool) (permissions : Z) :
    M guild (Role.Role U) :=
  encode_int4 (Some colour) ;;
  id ← next_id;
  d ← gets (λ d, d);
  let position := max_position d + 1 in
  if negb (in_int4 position) then fail (PgError "22003")
  else if bool_decide (is_Some (g_roles d !! id)) || bool_decide (role_taken id name position d)
  then fail (PgError codeUniqueViolation)
  else
    let r := Role.mkRole id name colour position hoist permissions false (g_now d) (g_now d) in
    modify (set_roles <[id := r]>) ;; mret r.

Definition coalesce {A} (p : option A) (v : A) : A := match p with Some x => x | None => v end.
Record role_params := mkRoleParams {
  rp_Name : option string; rp_Colour : option Z; rp_Position : option Z;
  rp_Permissions : option Z; rp_Hoist : option bool }.
Definition set_role (p : role_params) (now : Z) (r : Role.Role U) : Role.Role U :=
  Role.mkRole (Role.ID r) (coalesce (rp_Name p) (Role.Name r)) (coalesce (rp_Colour p) (Role.Colour r))
    (coalesce (rp_Position p) (Role.Position r)) (coalesce (rp_Hoist p) (Role.Hoist r))
    (coalesce (rp_Permissions p) (Role.Permissions r)) (Role.IsEveryone r) (Role.CreatedAt r) now.
Definition update_role (p : role_params) (id : U) : M guild (Role.Role U) :=
  encode_int4 (rp_Colour p) ;; encode_int4 (rp_Position p) ;;
  d ← gets (λ d, d);
  r ← row_or_none (g_roles d !! id);
  let r' := set_role p (g_now d) r in
  if bool_decide (role_taken id (Role.Name r') (Role.Position r') d)
  then fail (PgError codeUniqueViolation)
  else modify (set_roles <[id := r']>) ;; mret r'.

(** DELETE FROM roles: member_roles follow their role, and a trigger removes its overrides. *)
Definition drop_role (id : U) (d : guild) : guild :=
  set_roles (delete id)
    (set_member_roles (filter (λ p, p.2 ≠ id))
       (set_overrides (filter (λ p, ¬ (p.1.1.2 = PrincipalRole ∧ p.1.2 = id))) d)).
Definition delete_role (id : U) : M guild Z :=
  d ← gets (λ d, d);
  match g_roles d !! id with
  | Some r => if Role.IsEveryone r then mret 0 else modify (drop_role id) ;; mret 1
  | None => mret 0
  end.

(** The positions of the roles a user holds, the @everyone role excluded. *)
Definition held_positions (u : U) (d : guild) : list Z :=
  omap (λ p, if bool_decide ((u, p.1) ∈ g_member_roles d) && negb (Role.IsEveryone p.2)
             then Some (Role.Position p.2) else None) (map_to_list (g_roles d)).
Definition minimum (l : list Z) : option Z :=
  foldr (λ p acc, Some (match acc with Some q => Z.min p q | None => p end)) None l.
Definition select_highest (u : U) : M guild (option Z) := gets (λ d, minimum (held_positions u d)).

(** ** members *)
Definition statuses : list string := ["pending"; "active"; "timed_out"]%string.
Definition insert_member (u : U) (status : string) : M guild unit :=
  d ← gets (λ d, d);
  if bool_decide (status ∉ statuses) then fail (PgError "23514")
  else if bool_decide (is_Some (g_members d !! u)) then fail (PgError codeUniqueViolation)
  else if bool_decide (g_users d !! u = None) then fail (PgError codeForeignKeyViolation)
  else modify (set_members <[u := mkMemberRow None status None (g_now d) None]>).
(** UPDATE members SET ... WHERE user_id = $1 AND p: the number of rows changed. *)
Definition update_member (p : member_row → bool) (f : Z → member_row → member_row) (u : U) :
    M guild Z :=
  d ← gets (λ d, d);
  match g_members d !! u with
  | Some m =>
      if p m then
        if bool_decide (m_status (f (g_now d) m) ∉ statuses) then fail (PgError "23514")
        else modify (set_members <[u := f (g_now d) m]>) ;; mret 1
      else mret 0
  | None => mret 0
  end.
Definition set_nickname (n : option string) (m : member_row) : member_row :=
  mkMemberRow n (m_status m) (m_timeout m) (m_joined m) (m_onboarded m).
Definition set_status (status : string) (timeout : option Z) (m : member_row) : member_row :=
  mkMemberRow (m_nickname m) status timeout (m_joined m) (m_onboarded m).
Definition set_onboarded (status : string) (now : Z) (m : member_row) : member_row :=
  mkMemberRow (m_nickname m) status (m_timeout m) (m_joined m) (Some now).
(** No table references members: nothing follows the row. *)
Definition delete_member (u : U) : M guild Z :=
  d ← gets (λ d, d);
  match g_members d !! u with
  | Some _ => modify (set_members (delete u)) ;; mret 1
  | None => mret 0
  end.

(** The join of members, users and member_roles; the order of array_agg is open. *)
Definition role_ids (u : U) (d : guild) : list U :=
  (filter (λ p, p.1 = u) (elements (g_member_roles d))).*2.
Definition profile (u : U) (m : member_row) (d : guild) : option (Member.WithProfile U) :=
  (λ c, let x := User.cred_User c in
        Member.mkWithProfile u (User.Username x) (User.DisplayName x) (User.AvatarKey x)
          (m_nickname m) (m_status m) (m_timeout m) (m_joined m) (role_ids u d)) <$> g_users d !! u.
Definition find_member (u : U) (d : guild) : option (Member.WithProfile U) :=
  g_members d !! u ≫= λ m, profile u m d.
Definition select_member_any (u : U) : M guild (Member.WithProfile U) := λ d,
  row_or_none (find_member u d) d.
(** ... WHERE m.status != $1 *)
Definition select_member (hidden : string) (u : U) : M guild (Member.WithProfile U) := λ d,
  row_or_none (find_member u d ≫= λ m, if bool_decide (Member.Status m = hidden) then None else Some m) d.
Definition select_status (u : U) : M guild string := λ d,
  row_or_none (m_status <$> g_members d !! u) d.

(** ORDER BY joined_at, user_id *)
Context `{UUIDOrder U}.
Definition key : Type := Z * U.
Definition key_le (a b : key) : Prop := a.1 < b.1 ∨ (a.1 = b.1 ∧ uuid_le a.2 b.2).
#[global] Instance key_le_dec : RelDecision key_le.
Proof. intros a b. unfold key_le. apply _. Defined.
Definition member_key (m : Member.WithProfile U) : key := (Member.JoinedAt m, Member.UserID m).
Definition by_joined (a b : Member.WithProfile U) : Prop := key_le (member_key a) (member_key b).
#[global] Instance by_joined_dec : RelDecision by_joined.
Proof. intros a b. unfold by_joined. apply _. Defined.
Definition listed (hidden : string) (d : guild) : list (Member.WithProfile U) :=
  merge_sort by_joined
    (omap (λ p, if bool_decide (m_status p.2 = hidden) then None else profile p.1 p.2 d)
       (map_to_list (g_members d))).
(** The row comparison of the cursor; without a row for the cursor it is NULL. *)
Definition past (after : U) (d : guild) (k : key) : bool :=
  match g_members d !! after with
  | Some m => bool_decide (key_le (m_joined m, after) k ∧ k ≠ (m_joined m, after))
  | None => false
  end.
Definition select_members (hidden : string) (after : option U) (limit : Z) :
    M guild (list (Member.WithProfile U)) :=
  gets (λ d, take (Z.to_nat limit)
    match after with
    | None => listed hidden d
    | Some a => filter (λ m, past a d (member_key m) = true) (listed hidden d)
    end).

(** ** member_roles *)
Definition insert_member_role (u r : U) : M guild unit :=
  d ← gets (λ d, d);
  if bool_decide ((u, r) ∈ g_member_roles d) then fail (PgError codeUniqueViolation)
  else if bool_decide (g_users d !! u = None) || bool_decide (g_roles d !! r = None)
  then fail (PgError codeForeignKeyViolation)
  else modify (set_member_roles (union {[(u, r)]})).
(** ... ON CONFLICT DO NOTHING *)
Definition add_member_role (u r : U) : M guild unit :=
  d ← gets (λ d, d);
  if bool_decide ((u, r) ∈ g_member_roles d) then mret tt else insert_member_role u r.
Definition everyone_roles (d : guild) : list U :=
  (filter (λ p, Role.IsEveryone p.2 = true) (map_to_list (g_roles d))).*1.
(** INSERT ... SELECT $1, id FROM roles WHERE is_everyone = true *)
Definition insert_everyone_role (u : U) : M guild unit :=
  d ← gets (λ d, d); for_each (everyone_roles d) (insert_member_role u).
Definition delete_member_role (u r : U) : M guild Z :=
  d ← gets (λ d, d);
  if bool_decide ((u, r) ∈ g_member_roles d) then
    modify (set_member_roles (λ s, s ∖ {[(u, r)]})) ;; mret 1
  else mret 0.

(** ** bans *)
Definition insert_ban (u by_ : U) (reason : option string) (expires : option Z) : M guild unit :=
  d ← gets (λ d, d);
  if bool_decide (is_Some (g_bans d !! u)) then fail (PgError codeUniqueViolation)
  else if bool_decide (g_users d !! u = None) || bool_decide (g_users d !! by_ = None)
  then fail (PgError codeForeignKeyViolation)
  else modify (set_bans <[u := mkBanRow reason (Some by_) expires (g_now d)]>).
Definition delete_ban (u : U) : M guild Z :=
  d ← gets (λ d, d);
  match g_bans d !! u with
  | Some _ => modify (set_bans (delete u)) ;; mret 1
  | None => mret 0
  end.
Definition ban_exists (u : U) : M guild bool := gets (λ d, bool_decide (is_Some (g_bans d !! u))).

(** ORDER BY b.created_at DESC, b.user_id; the cursor compares (created_at, user_id) with <. *)
Definition ban_key (b : BanRecord U) : key := (br_CreatedAt b, br_UserID b).
Definition by_recent (a b : BanRecord U) : Prop :=
  key_le (- br_CreatedAt a, br_UserID a) (- br_CreatedAt b, br_UserID b).
#[global] Instance by_recent_dec : RelDecision by_recent.
Proof. intros a b. unfold by_recent. apply _. Defined.
Definition ban_record (u : U) (b : ban_row U) (d : guild) : option (BanRecord U) :=
  (λ c, let x := User.cred_User c in
        mkBanRecord u (User.Username x) (User.DisplayName x) (User.AvatarKey x) (b_reason b)
          (b_by b) (b_expires b) (b_created b)) <$> g_users d !! u.
Definition before_ban (after : U) (d : guild) (k : key) : bool :=
  match g_bans d !! after with
  | Some b => bool_decide (key_le k (b_created b, after) ∧ k ≠ (b_created b, after))
  | None => false
  end.
Definition select_bans (after : option U) (limit : Z) : M guild (list (BanRecord U)) :=
  gets (λ d,
    let all := merge_sort by_recent (omap (λ p, ban_record p.1 p.2 d) (map_to_list (g_bans d))) in
    take (Z.to_nat limit)
      match after with
      | None => all
      | Some a => filter (λ b, before_ban a d (ban_key b) = true) all
      end).

(** ** server_config, channels and permission_overrides, as the permission store reads them *)
Definition owner_exists (u : U) : M guild bool :=
  gets (λ d, bool_decide (Server.OwnerID <$> g_server d = Some u)).
(** The roles held and the @everyone role; UNION keeps one of equal rows. *)
Definition role_perms (u : U) (d : guild) : list (RolePermEntry U) :=
  omap (λ p, if bool_decide ((u, p.1) ∈ g_member_roles d) || Role.IsEveryone p.2
             then Some (mkRolePermEntry p.1 (Role.Permissions p.2)) else None)
    (map_to_list (g_roles d)).
Definition select_channel (c : U) : M guild (ChannelInfo U) := λ d,
  row_or_none (mkChannelInfo c <$> g_channels d !! c) d.
Definition overrides_of (type : string) (target : U) (d : guild) : list (Override U) :=
  omap (λ p, let '(ty, t, pt, pr) := p.1 in
             if bool_decide (ty = type) && bool_decide (t = target)
             then Some (mkOverride pt pr (o_allow p.2) (o_deny p.2)) else None)
    (map_to_list (g_overrides d)).
Definition override_of_row (k : override_key) (o : override_row U) : OverrideRow U :=
  let '(ty, t, pt, pr) := k in
  mkOverride_Row (o_id o) ty t pt pr (o_allow o) (o_deny o) (o_created o) (o_updated o).
(** INSERT ... ON CONFLICT (target, principal) DO UPDATE, under the two CHECKs. *)
Definition upsert_override (k : override_key) (allow deny : Z) : M guild (OverrideRow U) :=
  let '(ty, t, pt, pr) := k in
  id ← next_id;
  d ← gets (λ d, d);
  if bool_decide (ty ∉ [TargetChannel; TargetCategory]) || bool_decide (pt ∉ [PrincipalRole; PrincipalUser])
  then fail (PgError "23514")
  else
    let row := match g_overrides d !! k with
               | Some o => mkOverrideRow (o_id o) allow deny (o_created o) (g_now d)
               | None => mkOverrideRow id allow deny (g_now d) (g_now d)
               end in
    modify (set_overrides <[k := row]>) ;; mret (override_of_row k row).
Definition delete_override (k : override_key) : M guild Z :=
  d ← gets (λ d, d);
  match g_overrides d !! k with
  | Some _ => modify (set_overrides (delete k)) ;; mret 1
  | None => mret 0
  end.

(** ** invites: the code is unique *)
Definition find_invite (code : string) (d : guild) : option (Invite.Invite U) :=
  snd <$> head (map_to_list (filter (λ p, Invite.Code p.2 = code) (g_invites d))).
Definition select_invite (code : string) : M guild (Invite.Invite U) := λ d,
  row_or_none (find_invite code d) d.
Definition insert_invite (code : string) (creator : U) (p : invite_params U)
    (expires : option Z) : M guild (Invite.Invite U) :=
  encode_int4 (ip_MaxUses p) ;; encode_int4 (ip_MaxAgeSeconds p) ;;
  id ← next_id;
  d ← gets (λ d, d);
  if bool_decide (is_Some (g_invites d !! id)) || bool_decide (is_Some (find_invite code d))
  then fail (PgError codeUniqueViolation)
  else if bool_decide (g_channels d !! ip_ChannelID p = None)
          || bool_decide (g_users d !! creator = None)
  then fail (PgError codeForeignKeyViolation)
  else
    let i := Invite.mkInvite id code (ip_ChannelID p) creator (ip_MaxUses p) 0
               (ip_MaxAgeSeconds p) expires (g_now d) in
    modify (set_invites <[id := i]>) ;; mret i.
Definition used_once (i : Invite.Invite U) : Invite.Invite U :=
  Invite.mkInvite (Invite.ID i) (Invite.Code i) (Invite.ChannelID i) (Invite.CreatorID i)
    (Invite.MaxUses i) (Invite.UseCount i + 1) (Invite.MaxAgeSeconds i) (Invite.ExpiresAt i)
    (Invite.CreatedAt i).
Definition valid_at (now : Z) (i : Invite.Invite U) : bool :=
  match Invite.ExpiresAt i with None => true | Some e => now <? e end &&
  match Invite.MaxUses i with None => true | Some m => Invite.UseCount i <? m end.
Definition use_invite (code : string) : M guild (Invite.Invite U) :=
  d ← gets (λ d, d);
  i ← row_or_none (find_invite code d);
  if negb (valid_at (g_now d) i) then fail ErrNoRows
  else if negb (in_int4 (Invite.UseCount i + 1)) then fail (PgError "22003")
  else modify (set_invites <[Invite.ID i := used_once i]>) ;; mret (used_once i).
Definition delete_invite (code : string) : M guild Z :=
  d ← gets (λ d, d);
  match find_invite code d with
  | Some i => modify (set_invites (delete (Invite.ID i))) ;; mret 1
  | None => mret 0
  end.
Definition invite_key (i : Invite.Invite U) : key := (Invite.CreatedAt i, Invite.ID i).
Definition newer_invite (a b : Invite.Invite U) : Prop :=
  key_le (- Invite.CreatedAt a, Invite.ID a) (- Invite.CreatedAt b, Invite.ID b).
#[global] Instance newer_invite_dec : RelDecision newer_invite.
Proof. intros a b. unfold newer_invite. apply _. Defined.
Definition before_invite (after : U) (d : guild) (k : key) : bool :=
  match g_invites d !! after with
  | Some i => bool_decide (key_le k (invite_key i) ∧ k ≠ invite_key i)
  | None => false
  end.
Definition select_invites (after : option U) (limit : Z) : M guild (list (Invite.Invite U)) :=
  gets (λ d,
    let all := merge_sort newer_invite (map_to_list (g_invites d)).*2 in
    take (Z.to_nat limit)
      match after with
      | None => all
      | Some a => filter (λ i, before_invite a d (invite_key i) = true) all
      end).

(** ** onboarding_config (one row) and document_acceptances *)
Record onboarding_params := mkOnboardingParams {
  op_WelcomeChannelID : option U; op_SetWelcomeChannelNull : bool;
  op_RequireEmailVerification : option bool; op_OpenJoin : option bool;
  op_MinAccountAgeSeconds : option Z; op_AutoRoles : list U; op_SetAutoRoles : bool }.
Definition select_onboarding : M guild (Onboarding.Config U) := λ d, row_or_none (g_onboarding d) d.
Definition update_onboarding (p : onboarding_params) : M guild (Onboarding.Config U) :=
  encode_int4 (op_MinAccountAgeSeconds p) ;;
  d ← gets (λ d, d);
  c ← row_or_none (g_onboarding d);
  let welcome := if op_SetWelcomeChannelNull p then None
                 else coalesce (Some <$> op_WelcomeChannelID p) (Onboarding.WelcomeChannelID c) in
  if match welcome with Some ch => bool_decide (g_channels d !! ch = None) | None => false end
  then fail (PgError codeForeignKeyViolation)
  else
    let c' := Onboarding.mkConfig (Onboarding.ID c) welcome
                (coalesce (op_RequireEmailVerification p) (Onboarding.RequireEmailVerification c))
                (coalesce (op_OpenJoin p) (Onboarding.OpenJoin c))
                (coalesce (op_MinAccountAgeSeconds p) (Onboarding.MinAccountAgeSeconds c))
                (Onboarding.RequirePhone c) (Onboarding.RequireCaptcha c)
                (if op_SetAutoRoles p then op_AutoRoles p else Onboarding.AutoRoles c)
                (Onboarding.CreatedAt c) (g_now d) in
    modify (set_onboarding (Some c')) ;; mret c'.
Definition insert_acceptance (u : U) (slug : string) : M guild unit :=
  d ← gets (λ d, d);
  if bool_decide (is_Some (g_acceptances d !! (u, slug))) then mret tt
  else if bool_decide (g_users d !! u = None) then fail (PgError codeForeignKeyViolation)
  else modify (set_acceptances <[(u, slug) := g_now d]>).
Definition by_time (a b : string * Z) : Prop := a.2 ≤ b.2.
#[global] Instance by_time_dec : RelDecision by_time.
Proof. intros a b. unfold by_time. apply _. Defined.
(** ORDER BY accepted_at *)
Definition select_acceptances (u : U) : M guild (list (string * Z)) :=
  gets (λ d, merge_sort by_time
    (omap (λ p, if bool_decide (p.1.1 = u) then Some (p.1.2, p.2) else None)
       (map_to_list (g_acceptances d)))).
End tables.
Arguments guild U {_}.
Arguments onboarding_params U : clear implicits.
Arguments override_key U : clear implicits.
