(* ===== verification/GuildRepo.v ===== *)
(** * The repositories of the server: internal/role, member, permission (pg_store.go), invite,
    onboarding and server, repository.go of each

    One Module per package, one definition per method, over the statements of GuildTables.v.
    Two statements in a row outside a transaction are two calls of the driver. *)
From S2P Require Import Prelude GoStd Platform Permission Validate Postgres Domain GuildTables.
Open Scope Z_scope.

(** ** internal/role/repository.go *)
Module RoleRepo.
Definition ErrNotFound : error := Sentinel "role.ErrNotFound".
Definition ErrAlreadyExists : error := Sentinel "role.ErrAlreadyExists".
Definition ErrMaxRolesReached : error := Sentinel "role.ErrMaxRolesReached".
Definition ErrEveryoneImmutable : error := Sentinel "role.ErrEveryoneImmutable".

(** math.MaxInt of a 64-bit int. *)
Definition MaxInt : Z := int64_max.

Record CreateParams := mkCreateParams {
  cp_Name : string; cp_Colour : Z; cp_Permissions : Z; cp_Hoist : bool }.
(** Its fields are those of the statement. *)
Abbreviation UpdateParams := role_params.
Definition no_update (p : UpdateParams) : bool :=
  match p with mkRoleParams None None None None None => true | _ => false end.

Section repository.
Context {U W : Type} `{UUIDLib U} `{RandomUUID U} `{Postgres (guild U) W}.

Definition List : M W (list (Role.Role U)) :=
  wrap "query roles" (pg_query (select_roles (U := U))).

Definition GetByID (id : U) : M W (Role.Role U) :=
  map_err (λ e, on_err ErrNoRows ErrNotFound "query role by id" (Wrap "scan role" e))
    (pg_query (select_role id)).

Definition Create (params : CreateParams) (maxRoles : Z) : M W (Role.Role U) :=
  WithTx (guild U) (
    count ← wrap "count roles" (tx_query (count_roles (U := U)));
    if maxRoles <=? count then fail ErrMaxRolesReached
    else
      map_err (λ e, let err := Wrap "scan role" e in
                    if IsUniqueViolation err then ErrAlreadyExists else Wrap "insert role" err)
        (tx_query (insert_role (cp_Name params) (cp_Colour params) (cp_Hoist params)
                     (cp_Permissions params)))).

Definition update_error (e : error) : error :=
  let err := Wrap "scan role" e in
  if errors_Is err ErrNoRows then ErrNotFound
  else if IsUniqueViolation err then ErrAlreadyExists
  else Wrap "update role" err.
Definition Update (id : U) (params : UpdateParams) : M W (Role.Role U) :=
  if no_update params then GetByID id
  else map_err update_error (pg_query (update_role params id)).

Definition select_is_everyone (id : U) : M (guild U) bool := λ d,
  row_or_none (Role.IsEveryone <$> g_roles d !! id) d.
Definition Delete (id : U) : M W unit :=
  affected ← wrap "delete role" (pg_query (delete_role id));
  if affected =? 0 then
    r ← try (pg_query (select_is_everyone id));
    match r with
    | Err err => fail (on_err ErrNoRows ErrNotFound "check role existence" err)
    | Ok _ => fail ErrEveryoneImmutable
    end
  else mret tt.

Definition HighestPosition (userID : U) : M W Z :=
  pos ← wrap "query highest role position" (pg_query (select_highest userID));
  mret (match pos with None => MaxInt | Some p => p end).
End repository.
End RoleRepo.

(** ** internal/member/repository.go *)
Module MemberRepo.
Definition ErrNotFound : error := Sentinel "member.ErrNotFound".
Definition ErrBanNotFound : error := Sentinel "member.ErrBanNotFound".
Definition ErrAlreadyMember : error := Sentinel "member.ErrAlreadyMember".
Definition ErrAlreadyBanned : error := Sentinel "member.ErrAlreadyBanned".
Definition ErrEveryoneRole : error := Sentinel "member.ErrEveryoneRole".
Definition ErrTimeoutInPast : error := Sentinel "member.ErrTimeoutInPast".
Definition ErrNotPending : error := Sentinel "member.ErrNotPending".

Section repository.
Context {U W : Type} `{UUIDLib U} `{RandomUUID U} `{UUIDOrder U} `{MemberStatuses}.
Context `{Postgres (guild U) W} `{Clock W}.

Definition List (after : option U) (limit : Z) : M W (list (Member.WithProfile U)) :=
  wrap "query members" (pg_query (select_members MemberStatusPending after limit)).

Definition member_not_found (ctx : string) (e : error) : error :=
  on_err ErrNoRows ErrNotFound ctx (Wrap "scan member" e).
Definition GetByUserID (userID : U) : M W (Member.WithProfile U) :=
  map_err (member_not_found "query member by user id")
    (pg_query (select_member MemberStatusPending userID)).
Definition GetByUserIDAnyStatus (userID : U) : M W (Member.WithProfile U) :=
  map_err (member_not_found "query member by user id (any status)")
    (pg_query (select_member_any userID)).
Definition GetStatus (userID : U) : M W string :=
  map_err (on_err ErrNoRows ErrNotFound "query member status") (pg_query (select_status userID)).

(** [if tag.RowsAffected() == 0 { return err }] *)
Definition require_row (err : error) (affected : Z) : M W unit :=
  if affected =? 0 then fail err else mret tt.

Definition UpdateNickname (userID : U) (nickname : option string) : M W (Member.WithProfile U) :=
  n ← wrap "update nickname"
        (pg_query (update_member (λ _, true) (λ _, set_nickname nickname) userID));
  require_row ErrNotFound n ;;
  GetByUserID userID.

Definition Delete (userID : U) : M W unit :=
  n ← wrap "delete member" (pg_query (delete_member userID)); require_row ErrNotFound n.

Definition SetTimeout (userID : U) (until : Z) : M W (Member.WithProfile U) :=
  now ← gets time_Now;
  if negb (now <? until) then fail ErrTimeoutInPast
  else
    n ← wrap "set timeout"
          (pg_query (update_member (λ _, true) (λ _, set_status MemberStatusTimedOut (Some until)) userID));
    require_row ErrNotFound n ;;
    GetByUserID userID.

Definition ClearTimeout (userID : U) : M W (Member.WithProfile U) :=
  n ← wrap "clear timeout"
        (pg_query (update_member (λ _, true) (λ _, set_status MemberStatusActive None) userID));
  require_row ErrNotFound n ;;
  GetByUserID userID.

Definition Ban (userID bannedBy : U) (reason : option string) (expiresAt : option Z) : M W unit :=
  WithTx (guild U) (
    map_err (λ e, if IsUniqueViolation e then ErrAlreadyBanned else Wrap "insert ban" e)
      (tx_query (insert_ban userID bannedBy reason expiresAt)) ;;
    wrap "remove member on ban" (tx_query (delete_member userID)) ;;
    mret tt).

Definition Unban (userID : U) : M W unit :=
  n ← wrap "delete ban" (pg_query (delete_ban userID)); require_row ErrBanNotFound n.

Definition ListBans (after : option U) (limit : Z) : M W (list (BanRecord U)) :=
  wrap "query bans" (pg_query (select_bans after limit)).

Definition IsBanned (userID : U) : M W bool := wrap "check ban" (pg_query (ban_exists userID)).

Definition AssignRole (userID roleID : U) : M W unit :=
  map_err (λ e, if IsUniqueViolation e then ErrAlreadyMember else Wrap "assign role" e)
    (pg_query (insert_member_role userID roleID)).

Definition RemoveRole (userID roleID : U) : M W unit :=
  n ← wrap "remove role" (pg_query (delete_member_role userID roleID)); require_row ErrNotFound n.

Definition CreatePending (userID : U) : M W (Member.WithProfile U) :=
  WithTx (guild U) (
    map_err (λ e, if IsUniqueViolation e then ErrAlreadyMember else Wrap "insert pending member" e)
      (tx_query (insert_member userID MemberStatusPending)) ;;
    wrap "assign everyone role" (tx_query (insert_everyone_role userID))) ;;
  GetByUserIDAnyStatus userID.

Definition Activate (userID : U) (autoRoles : list U) : M W (Member.WithProfile U) :=
  WithTx (guild U) (
    n ← wrap "activate member"
          (tx_query (update_member (λ m, bool_decide (m_status m = MemberStatusPending))
                       (λ now, set_onboarded MemberStatusActive now) userID));
    require_row ErrNotPending n ;;
    for_each autoRoles (λ roleID, wrap "assign auto-role" (tx_query (add_member_role userID roleID)))) ;;
  GetByUserIDAnyStatus userID.
End repository.
End MemberRepo.

(** ** internal/permission/pg_store.go *)
Module PGStore.
Section store.
Context {U W : Type} `{UUIDLib U} `{RandomUUID U} `{Postgres (guild U) W}.

Definition IsOwner (userID : U) : M W bool := wrap "check owner" (pg_query (owner_exists userID)).
Definition RolePermissions (userID : U) : M W (list (RolePermEntry U)) :=
  wrap "query role permissions" (pg_query (gets (role_perms userID))).
Definition ChannelInfo (channelID : U) : M W (ChannelInfo U) :=
  map_err (on_err ErrNoRows ErrChannelNotFound "query channel info")
    (pg_query (select_channel channelID)).
Definition Overrides (targetType : string) (targetID : U) : M W (list (Override U)) :=
  wrap "query overrides" (pg_query (gets (overrides_of targetType targetID))).

Definition Set_ (targetType : string) (targetID : U) (principalType : string) (principalID : U)
    (allow deny : Z) : M W (OverrideRow U) :=
  wrap "upsert override"
    (pg_query (upsert_override (targetType, targetID, principalType, principalID) allow deny)).
Definition Delete (targetType : string) (targetID : U) (principalType : string) (principalID : U) :
    M W unit :=
  n ← wrap "delete override"
        (pg_query (delete_override (targetType, targetID, principalType, principalID)));
  if n =? 0 then fail ErrOverrideNotFound else mret tt.

Definition store : Store U W := {|
  store_IsOwner := IsOwner; store_RolePermissions := RolePermissions;
  store_ChannelInfo := ChannelInfo; store_Overrides := Overrides |}.
End store.
End PGStore.

(** ** internal/invite/repository.go *)

(** [rand.Int(rand.Reader, max)] of crypto/rand. *)
Class CryptoRand (W : Type) : Type := { rand_Int : Z → M W Z }.

Module InviteRepo.
Definition ErrNotFound : error := Sentinel "invite.ErrNotFound".
Definition ErrChannelNotFound : error := Sentinel "invite.ErrChannelNotFound".
Definition ErrCodeLength : error := Sentinel "invite.ErrCodeLength".

Definition codeLength : nat := 8.
Definition codeAlphabet : string := "ABCDEFGHIJKLMNOPQRSTUVWXYZabcdefghijklmnopqrstuvwxyz0123456789".
Definition maxCodeRetries : nat := 3.

Section repository.
Context {U W : Type} `{UUIDLib U} `{RandomUUID U} `{UUIDOrder U}.
Context `{Postgres (guild U) W} `{Clock W} `{CryptoRand W}.

Definition random_char : M W Ascii.ascii :=
  n ← wrap "crypto/rand" (rand_Int (len codeAlphabet));
  mret (default (ascii_of 65) (String.list_ascii_of_string codeAlphabet !! Z.to_nat n)).
Fixpoint random_chars (n : nat) : M W (list Ascii.ascii) :=
  match n with
  | O => mret []
  | S n' => c ← random_char; cs ← random_chars n'; mret (c :: cs)
  end.
Definition generateCode : M W string :=
  cs ← random_chars codeLength; mret (String.string_of_list_ascii cs).

(** The attempts left; the last one does not retry. *)
Fixpoint create_attempts (left_ : nat) (creatorID : U) (params : invite_params U)
    (expiresAt : option Z) : M W (Invite.Invite U) :=
  match left_ with
  | O => fail ErrCodeLength
  | S left' =>
      code ← wrap "generate invite code" generateCode;
      r ← try (wrap "scan invite" (pg_query (insert_invite code creatorID params expiresAt)));
      match r with
      | Ok inv => mret inv
      | Err err =>
          if IsForeignKeyViolation err then fail ErrChannelNotFound
          else if IsUniqueViolation err then
            match left' with
            | O => fail ErrCodeLength
            | _ => create_attempts left' creatorID params expiresAt
            end
          else fail (Wrap "insert invite" err)
      end
  end.
Definition Create (creatorID : U) (params : invite_params U) : M W (Invite.Invite U) :=
  now ← gets time_Now;
  let expiresAt := match ip_MaxAgeSeconds params with
                   | Some s => if 0 <? s then Some (now + wrap64 (s * Second)) else None
                   | None => None
                   end in
  create_attempts maxCodeRetries creatorID params expiresAt.

Definition GetByCode (code : string) : M W (Invite.Invite U) :=
  map_err (λ e, on_err ErrNoRows ErrNotFound "query invite by code" (Wrap "scan invite" e))
    (pg_query (select_invite code)).
Definition List (after : option U) (limit : Z) : M W (list (Invite.Invite U)) :=
  wrap "query invites" (pg_query (select_invites after limit)).
Definition Delete (code : string) : M W unit :=
  n ← wrap "delete invite" (pg_query (delete_invite (U := U) code));
  if n =? 0 then fail ErrNotFound else mret tt.

(** The diagnostic query, and the reason it finds. *)
Definition diagnoseUseFailure (code : string) : M W error :=
  r ← try (pg_query (select_invite (U := U) code));
  match r with
  | Err err => mret (on_err ErrNoRows ErrNotFound "diagnose invite use failure" err)
  | Ok inv =>
      now ← gets time_Now;
      mret (if match Invite.ExpiresAt inv with Some e => negb (now <? e) | None => false end
            then Invite.ErrExpired
            else if match Invite.MaxUses inv with
                    | Some m => m <=? Invite.UseCount inv | None => false end
            then Invite.ErrMaxUsesReached else ErrNotFound)
  end.
Definition Use_ (code : string) : M W (Invite.Invite U) :=
  r ← try (wrap "scan invite" (pg_query (use_invite code)));
  match r with
  | Ok inv => mret inv
  | Err err =>
      if errors_Is err ErrNoRows then e ← diagnoseUseFailure code; fail e
      else fail (Wrap "use invite" err)
  end.
End repository.
End InviteRepo.

(** ** internal/onboarding/repository.go *)
Module OnboardingRepo.
Definition ErrNotFound : error := Sentinel "onboarding.ErrNotFound".
Definition ErrOpenJoinDisabled : error := Sentinel "onboarding.ErrOpenJoinDisabled".
Definition ErrDocumentsIncomplete : error := Sentinel "onboarding.ErrDocumentsIncomplete".

Section repository.
Context {U W : Type} `{UUIDLib U} `{RandomUUID U} `{Postgres (guild U) W}.
Abbreviation UpdateParams := (onboarding_params U).

Definition config_not_found (ctx : string) (e : error) : error :=
  on_err ErrNoRows ErrNotFound ctx (Wrap "scan onboarding config" e).
Definition Get : M W (Onboarding.Config U) :=
  map_err (config_not_found "query onboarding config") (pg_query (select_onboarding (U := U))).
Definition no_update (p : UpdateParams) : bool :=
  match p with mkOnboardingParams None false None None None _ false => true | _ => false end.
Definition Update (params : UpdateParams) : M W (Onboarding.Config U) :=
  if no_update params then Get
  else map_err (config_not_found "update onboarding config") (pg_query (update_onboarding params)).
(** A batch is one implicit transaction. *)
Definition RecordAcceptances (userID : U) (slugs : list string) : M W unit :=
  match slugs with
  | [] => mret tt
  | _ => wrap "record document acceptance" (pg_query (for_each slugs (insert_acceptance userID)))
  end.
Definition GetAcceptances (userID : U) : M W (list (string * Z)) :=
  wrap "query document acceptances" (pg_query (select_acceptances userID)).
End repository.
End OnboardingRepo.

(** ** internal/server/repository.go: the read *)
Module ServerRepo.
Definition ErrNotFound : error := Sentinel "server.ErrNotFound".
Definition Get {U W} `{UUIDLib U} `{RandomUUID U} `{Postgres (guild U) W} : M W (Server.Config U) :=
  map_err (λ e, on_err ErrNoRows ErrNotFound "query server config" (Wrap "scan server config" e))
    (pg_query (λ d : guild U, row_or_none (g_server d) d)).
End ServerRepo.
