(* ===== verification/Http.v ===== *)
(** * HTTP: internal/httputil and the middleware of internal/auth, member and permission

    A handler takes what fiber has of the request and returns the response it writes, or the
    error it returns to fiber.  Its body type [A] is the data of its success response.  A
    middleware wraps the handler [c.Next()] runs.  Decoding a body ([c.Bind().Body]) is the
    framework's: handlers take its result. *)
From S2P Require Import Prelude GoStd Platform Permission Config Jwt.
Open Scope Z_scope.

(** ** Requests and responses *)
Record request (U : Type) := mkRequest {
  Method : string; Header : string → string; Cookies : string → string;
  Params : string → string; Query : string → string;
  Locals_userID : option U; Locals_emailVerified : option bool; Locals_authSource : option string }.
Arguments mkRequest {U}. Arguments Method {U}. Arguments Header {U}. Arguments Cookies {U}.
Arguments Params {U}. Arguments Query {U}. Arguments Locals_userID {U}.
Arguments Locals_emailVerified {U}. Arguments Locals_authSource {U}.

Inductive body (A : Type) : Type :=
| NoBody
| Data (data : A)
| ErrorBody (code message : string).
Arguments NoBody {A}. Arguments Data {A}. Arguments ErrorBody {A}.
Record response (A : Type) := mkResponse { status : Z; content : body A }.
Arguments mkResponse {A}. Arguments status {A}. Arguments content {A}.

Definition StatusOK : Z := 200.
Definition StatusCreated : Z := 201.
Definition StatusNoContent : Z := 204.
Definition StatusBadRequest : Z := 400.
Definition StatusUnauthorized : Z := 401.
Definition StatusForbidden : Z := 403.
Definition StatusNotFound : Z := 404.
Definition StatusConflict : Z := 409.
Definition StatusInternalServerError : Z := 500.

(** The codes of the protocol's error package. *)
Class ApiErrors : Type := {
  ValidationError : string; InvalidBody : string; InternalError : string; Unauthorised : string;
  TokenExpired : string; EmailNotVerified : string; CSRFTokenMissing : string;
  CSRFTokenInvalid : string; MembershipRequired : string; MissingPermissions : string;
  MissingChannelID : string; InvalidChannelID : string; UnknownMember : string; UnknownBan : string;
  UnknownRole : string; AlreadyMember : string; AlreadyExists : string; RoleHierarchy : string;
  ServerOwner : string; MaxRolesReached : string; UnknownOverride : string; UnknownInvite : string;
  UnknownChannel : string; Banned : string; OwnerOnly : string; OpenJoinDisabled : string;
  NotFound : string }.

(** The permission bits of the protocol the routes name. *)
Class RoutePermissions : Type := {
  ChangeNicknames : Z; ManageNicknames : Z; KickMembers : Z; TimeoutMembers : Z; AssignRoles : Z;
  BanMembers : Z; ManageRoles : Z; CreateInvites : Z; ManageInvites : Z }.

(** [if err := m; err != nil { return f(err) }; k]: an early return of the handler. *)
Definition catch {W A B} (m : M W A) (f : error → M W B) (k : A → M W B) : M W B := λ w,
  match m w with (Ok a, w') => k a w' | (Err e, w') => f e w' end.
Lemma catch_inv {W A B} (m : M W A) (f : error → M W B) k w r w' :
  catch m f k w = (r, w') →
  (∃ a w1, m w = (Ok a, w1) ∧ k a w1 = (r, w')) ∨ (∃ e w1, m w = (Err e, w1) ∧ f e w1 = (r, w')).
Proof. unfold catch. destruct (m w) as [[a|e] w1]; naive_solver. Qed.

(** ** response.go, params.go, query.go, locals.go *)
Section httputil.
Context {U W : Type} `{UUIDLib U} `{ApiErrors}.

Definition Success {A} (data : A) : M W (response A) := mret (mkResponse StatusOK (Data data)).
Definition SuccessStatus {A} (st : Z) (data : A) : M W (response A) := mret (mkResponse st (Data data)).
Definition SendStatus {A} (st : Z) : M W (response A) := mret (mkResponse st NoBody).
Definition Fail_ {A} (st : Z) (code message : string) : M W (response A) :=
  mret (mkResponse st (ErrorBody code message)).
Definition internal_error {A} : M W (response A) :=
  Fail_ StatusInternalServerError InternalError "An internal error occurred".

Definition param_label (param : string) : string :=
  let l := bytes_of param in
  let n := (length l - 2)%nat in
  (if bool_decide (drop n l = bytes_of "ID") then string_of (take n l) else param) +:+ " ID".
Definition ParseUUIDParam {A} (c : request U) (param code : string)
    (k : U → M W (response A)) : M W (response A) :=
  match uuid_Parse (Params c param) with
  | Ok id => k id
  | Err _ => Fail_ StatusBadRequest code ("Invalid " +:+ param_label param +:+ " format")
  end.
Definition ParseIntQuery {A} (c : request U) (param : string) (k : Z → M W (response A)) :
    M W (response A) :=
  if bool_decide (Query c param = ""%string) then k 0
  else match ParseInt (Query c param) with
       | Ok v => k v
       | Err _ => Fail_ StatusBadRequest ValidationError ("Invalid " +:+ param +:+ " parameter")
       end.
Definition ErrMissingIdentity : error := Sentinel "fiber.ErrUnauthorized: Missing user identity".
Definition UserID (c : request U) : M W U :=
  match Locals_userID c with Some id => mret id | None => fail ErrMissingIdentity end.

(** The optional [after] cursor of the list endpoints. *)
Definition ParseAfter {A} (c : request U) (k : option U → M W (response A)) : M W (response A) :=
  if bool_decide (Query c "after" = ""%string) then k None
  else match uuid_Parse (Query c "after") with
       | Ok id => k (Some id)
       | Err _ => Fail_ StatusBadRequest ValidationError "Invalid after parameter"
       end.
(** [if err := c.Bind().Body(&body); err != nil { ... }] *)
Definition Bind {A B} (decoded : res B) (k : B → M W (response A)) : M W (response A) :=
  match decoded with
  | Ok b => k b
  | Err _ => Fail_ StatusBadRequest InvalidBody "Invalid request body"
  end.
End httputil.

(** ** auth/cookie.go, middleware.go and csrf.go *)
Section auth.
Context {U W : Type} `{UUIDLib U} `{ApiErrors} `{JwtLib} `{Clock W}.

Definition accessCookieSuffix : string := "access_token".
Definition refreshCookieSuffix : string := "refresh_token".
Definition csrfCookieSuffix : string := "csrf_token".
Definition cookieName (cfg : Config) (suffix : string) : string :=
  if IsDevelopment cfg then suffix else "__Host-" +:+ suffix.
Definition AccessCookieName (cfg : Config) : string := cookieName cfg accessCookieSuffix.
Definition RefreshCookieName (cfg : Config) : string := cookieName cfg refreshCookieSuffix.
Definition CSRFCookieName (cfg : Config) : string := cookieName cfg csrfCookieSuffix.

Definition AuthSourceHeader : string := "header".
Definition AuthSourceCookie : string := "cookie".
Definition bearer_prefix : string := "Bearer ".

(** [strings.EqualFold] against an ASCII prefix. *)
Definition has_bearer (header : string) : bool :=
  (len bearer_prefix <? len header) &&
  bool_decide (ascii_lower <$> take 7 (bytes_of header) = ascii_lower <$> bytes_of bearer_prefix).

Definition with_identity (c : request U) (id : U) (verified : bool) (source : string) : request U :=
  mkRequest (Method c) (Header c) (Cookies c) (Params c) (Query c) (Some id) (Some verified) (Some source).

(** The credential of a request and where it was found. *)
Definition credential (cfg : Config) (c : request U) : option (option (string * string)) :=
  let header := Header c "Authorization" in
  let cookie := Cookies c (AccessCookieName cfg) in
  if negb (bool_decide (header = ""%string)) then
    if has_bearer header then Some (Some (string_of (drop 7 (bytes_of header)), AuthSourceHeader))
    else Some None
  else if negb (bool_decide (cookie = ""%string)) then Some (Some (cookie, AuthSourceCookie))
  else None.

Definition ErrTokenExpired : error := Sentinel "jwt.ErrTokenExpired".

Definition RequireAuth {A} (secret issuer : string) (cfg : Config)
    (next : request U → M W (response A)) (c : request U) : M W (response A) :=
  match credential cfg c with
  | None => Fail_ StatusUnauthorized Unauthorised "Missing authentication credentials"
  | Some None => Fail_ StatusUnauthorized Unauthorised "Invalid authorization format"
  | Some (Some (tokenStr, authSource)) =>
      catch (ValidateAccessToken tokenStr secret issuer)
        (λ err, if errors_Is err ErrTokenExpired
                then Fail_ StatusUnauthorized TokenExpired "Token has expired"
                else Fail_ StatusUnauthorized Unauthorised "Invalid token")
        (λ claims,
          match uuid_Parse (Subject claims) with
          | Err _ => Fail_ StatusUnauthorized Unauthorised "Invalid token subject"
          | Ok userID => next (with_identity c userID (EmailVerified claims) authSource)
          end)
  end.

Definition RequireVerifiedEmail {A} (next : request U → M W (response A)) (c : request U) :
    M W (response A) :=
  match Locals_emailVerified c with
  | None => Fail_ StatusUnauthorized Unauthorised "Missing user identity"
  | Some false => Fail_ StatusForbidden EmailNotVerified "Email verification is required"
  | Some true => next c
  end.

Definition safe_method (m : string) : bool := bool_decide (m ∈ ["GET"; "HEAD"; "OPTIONS"]%string).
Definition RequireCSRF {A} (cfg : Config) (next : request U → M W (response A)) (c : request U) :
    M W (response A) :=
  if safe_method (Method c) then next c
  else if negb (bool_decide (Locals_authSource c = Some AuthSourceCookie)) then next c
  else
    let cookieToken := Cookies c (CSRFCookieName cfg) in
    let headerToken := Header c "X-CSRF-Token" in
    if bool_decide (cookieToken = ""%string) || bool_decide (headerToken = ""%string)
    then Fail_ StatusForbidden CSRFTokenMissing "CSRF token is required"
    else if negb (bool_decide (cookieToken = headerToken))
    then Fail_ StatusForbidden CSRFTokenInvalid "CSRF token mismatch"
    else next c.
End auth.

(** ** permission/middleware.go *)
Section permission.
Context {U W : Type} `{UUIDLib U} `{PermissionLib} `{Store U W} `{!Cache U W} `{ApiErrors}.

Definition RequirePermission {A} (perm : Z) (next : request U → M W (response A)) (c : request U) :
    M W (response A) :=
  userID ← UserID c;
  let raw := Params c "channelID" in
  if bool_decide (raw = ""%string)
  then Fail_ StatusBadRequest MissingChannelID "Channel ID is required"
  else match uuid_Parse raw with
       | Err _ => Fail_ StatusBadRequest InvalidChannelID "Invalid channel ID format"
       | Ok channelID =>
           catch (HasPermission userID channelID perm)
             (λ _, Fail_ StatusInternalServerError InternalError "Failed to check permissions")
             (λ allowed, if allowed : bool then next c
                         else Fail_ StatusForbidden MissingPermissions
                                "You do not have the required permissions")
       end.

Definition RequireServerPermission {A} (perm : Z) (next : request U → M W (response A))
    (c : request U) : M W (response A) :=
  userID ← UserID c;
  catch (HasServerPermission userID perm)
    (λ _, Fail_ StatusInternalServerError InternalError "Failed to check permissions")
    (λ allowed, if allowed : bool then next c
                else Fail_ StatusForbidden MissingPermissions "You do not have the required permissions").
End permission.
