(* ===== verification/MemberApi.v ===== *)
(** * Member, ban and role endpoints: internal/api/member.go and role.go

    Every handler of MemberHandler and RoleHandler, over the repositories of GuildRepo.v, the
    permission resolver and publisher, the gateway's queue and the audit log.  Log lines are
    left out.  The audit entry is written by a goroutine of its own; the world takes it as one
    step.  A nil collaborator is a flag of the handler. *)
From S2P Require Import Prelude GoStd Platform Permission PermCache PermInvalidate Validate Config.
From S2P Require Import Jwt Postgres Domain GuildTables GuildRepo Http.
Open Scope Z_scope.

(** ** err.Error(), for the errors whose text is sent to the client *)
Definition error_texts : list (string * string) := [
  ("member.ErrNicknameLength", "nickname must be between 1 and 32 characters");
  ("member.ErrAlreadyMember", "user is already a member");
  ("member.ErrAlreadyBanned", "user is already banned");
  ("member.ErrEveryoneRole", "the @everyone role cannot be manually assigned or removed");
  ("member.ErrTimeoutInPast", "timeout must be in the future");
  ("role.ErrNameLength", "role name must be between 1 and 100 characters");
  ("role.ErrInvalidPosition", "position must be non-negative");
  ("role.ErrInvalidPermissions", "permissions bitfield contains invalid bits");
  ("role.ErrInvalidColour", "colour must be between 0 and 16777215");
  ("role.ErrAlreadyExists", "role name or position already taken");
  ("role.ErrMaxRolesReached", "maximum number of roles reached");
  ("role.ErrEveryoneImmutable", "the @everyone role cannot be deleted");
  ("invite.ErrInvalidMaxUses", "max uses must be non-negative");
  ("invite.ErrInvalidMaxAge", "max age seconds must be non-negative");
  ("message.ErrContentTooLong", "message content exceeds the maximum length");
  ("message.ErrEmptyContent", "message content must not be empty");
  ("message.ErrReplyNotFound", "reply target message not found");
  ("thread.ErrNameLength", "thread name must be between 1 and 100 characters");
  ("e2ee.ErrInvalidKeyLength", "public key must be exactly 32 bytes");
  ("e2ee.ErrInvalidSignature", "signature must be exactly 64 bytes");
  ("e2ee.ErrBatchTooLarge", "one-time pre-key batch exceeds the maximum size");
  ("e2ee.ErrDuplicateKeyID", "key ID already exists for this device");
  ("e2ee.ErrDuplicateDevice", "device already registered for this user");
  ("e2ee.ErrMaxDevicesReached", "user has reached the maximum number of devices");
  ("channel.ErrNameLength", "channel name must be between 1 and 100 characters");
  ("channel.ErrInvalidType", "invalid channel type");
  ("channel.ErrTopicLength", "channel topic must be 1024 characters or fewer");
  ("channel.ErrInvalidSlowmode", "slowmode seconds must be between 0 and 21600");
  ("channel.ErrInvalidPosition", "position must be non-negative");
  ("channel.ErrCategoryNotFound", "category not found");
  ("channel.ErrMaxChannelsReached", "maximum number of channels reached");
  ("category.ErrNameLength", "category name must be between 1 and 100 characters");
  ("category.ErrInvalidPosition", "position must be non-negative");
  ("category.ErrAlreadyExists", "category position already taken");
  ("category.ErrMaxCategoriesReached", "maximum number of categories reached");
  ("search.ErrEmptyQuery", "search query must not be empty");
  ("search.ErrInvalidFilter", "filter parameter is not a valid UUID");
  ("search.ErrSearchUnavailable", "search service is unavailable");
  ("auth.ErrInvalidEmail", "invalid email format");
  ("auth.ErrUsernameLength", "username must be between 2 and 32 characters");
  ("auth.ErrUsernameInvalidChars", "username may only contain letters, digits, underscores, and periods");
  ("auth.ErrPasswordTooShort", "password must be at least 8 characters");
  ("auth.ErrPasswordTooLong", "password must be at most 128 characters");
  ("auth.ErrInvalidCredentials", "invalid email or password");
  ("auth.ErrDisposableEmail", "disposable email addresses are not allowed");
  ("auth.ErrInvalidToken", "invalid or expired token");
  ("auth.ErrRefreshTokenNotFound", "refresh token not found");
  ("auth.ErrInvalidMFACode", "invalid MFA code");
  ("auth.ErrMFANotEnabled", "MFA is not enabled on this account");
  ("auth.ErrMFAAlreadyEnabled", "MFA is already enabled on this account");
  ("auth.ErrServerOwner", "the server owner cannot delete their account");
  ("auth.ErrMFASetupLocked", "too many failed MFA setup attempts");
  ("auth.ErrEmailAlreadyVerified", "email is already verified");
  ("auth.ErrVerificationCooldown", "please wait before requesting another verification email");
  ("user.ErrDisplayNameLength", "display name must be between 1 and 32 characters");
  ("user.ErrPronounsLength", "pronouns must be between 1 and 40 characters");
  ("user.ErrAboutLength", "about must be between 1 and 190 characters");
  ("user.ErrThemeColourRange", "theme colour must be between 0 and 16777215") ]%string.
Fixpoint Error (e : error) : string :=
  match e with
  | Sentinel n => default n (snd <$> list_find (λ p, p.1 = n) error_texts ≫= λ p, Some p.2)
  | Plain t => t
  | Wrap ctx cause => ctx +:+ ": " +:+ Error cause
  end.

(** ** internal/audit/audit.go *)
Module Audit.
Definition MemberKick : string := "member.kick".
Definition MemberBan : string := "member.ban".
Definition MemberUnban : string := "member.unban".
Definition MemberTimeout : string := "member.timeout".
Definition MemberTimeoutClear : string := "member.timeout_clear".
Definition MemberRoleAssign : string := "member.role_assign".
Definition MemberRoleRemove : string := "member.role_remove".
Definition RoleCreate : string := "role.create".
Definition RoleUpdate : string := "role.update".
Definition RoleDelete : string := "role.delete".
Definition InviteCreate : string := "invite.create".
Definition InviteDelete : string := "invite.delete".
Definition ChannelCreate : string := "channel.create".
Definition ChannelUpdate : string := "channel.update".
Definition ChannelDelete : string := "channel.delete".
Definition CategoryCreate : string := "category.create".
Definition CategoryUpdate : string := "category.update".
Definition CategoryDelete : string := "category.delete".
Definition OverrideSet : string := "override.set".
Definition OverrideDelete : string := "override.delete".
Definition MessageDelete : string := "message.delete".
Definition MessagePin : string := "message.pin".
Definition MessageUnpin : string := "message.unpin".
Definition OnboardingUpdate : string := "onboarding.update".

Record Entry (U : Type) := mkEntry {
  ActorID : option U; Action : string; TargetType : option string; TargetID : option U;
  Changes : option string; Reason : option string }.
Arguments mkEntry {U}. Arguments ActorID {U}. Arguments Action {U}. Arguments TargetType {U}.
Arguments TargetID {U}. Arguments Changes {U}. Arguments Reason {U}.

(** A value that cannot be serialised is stored as NULL. *)
Definition MarshalChanges {A} `{Codec A} (v : A) : option string :=
  match json_Marshal v with Ok data => Some data | Err _ => None end.
End Audit.

(** ** Collaborators *)
Module Events.
Record MemberRemoveData := mkMemberRemoveData { mr_UserID : string }.
Record RoleDeleteData := mkRoleDeleteData { rd_ID : string }.
Record InviteDeleteData := mkInviteDeleteData { id_Code : string }.
Record Invite := mkInvite {
  inv_ID : string; inv_Code : string; inv_ChannelID : string; inv_CreatorID : string;
  inv_MaxUses : option Z; inv_UseCount : Z; inv_MaxAgeSeconds : option Z; inv_CreatedAt : string;
  inv_ExpiresAt : option string }.
Inductive payload :=
| PMember (m : Models.Member) | PMemberRemove (d : MemberRemoveData)
| PRole (r : Models.Role) | PRoleDelete (d : RoleDeleteData)
| PInvite (i : Invite) | PInviteDelete (d : InviteDeleteData).
End Events.

(** The protocol's event names. *)
Class EventNames : Type := {
  MemberAdd : string; MemberUpdate : string; MemberRemove : string; RoleCreated : string;
  RoleUpdated : string; RoleDeleted : string; InviteCreated : string; InviteDeleted : string }.
(** Publisher.Enqueue (Publisher.v) and Logger.Record as the handlers see them: neither returns
    an error. *)
Class GatewayQueue (W : Type) : Type := { gateway_Enqueue : string → Events.payload → W → W }.
Class AuditLog (U W : Type) : Type := { audit_Record : Audit.Entry U → W → W }.
(** time.Parse(time.RFC3339, s) *)
Class TimeParse : Type := { time_Parse : string → res Z }.

Record handler := mkHandler { auditLogger : bool; gateway : bool; pub : bool; maxRoles : Z }.

Section effects.
Context {U W : Type} `{GatewayQueue W} `{AuditLog U W}.
Definition when (b : bool) (m : M W unit) : M W unit := if b then m else mret tt.
Definition enqueue_event (h : handler) (ev : string) (p : Events.payload) : M W unit :=
  when (gateway h) (modify (gateway_Enqueue ev p)).
Definition record_audit (h : handler) (e : Audit.Entry U) : M W unit :=
  when (auditLogger h) (modify (audit_Record e)).
End effects.

(** Bodies of the requests. *)
Record UpdateMemberRequest := mkUpdateMember { um_Nickname : option string }.
Record TimeoutMemberRequest := mkTimeoutMember { tm_Until : string }.
Record BanMemberRequest := mkBanMember { bm_Reason : option string; bm_ExpiresAt : option string }.
Record BanModel := mkBanModel {
  ban_User : Models.MemberUser; ban_Reason : option string; ban_CreatedAt : string;
  ban_BannedBy : option string; ban_ExpiresAt : option string }.

Module MemberHandler.
Section member.
Context {U W : Type} `{UUIDLib U} `{RandomUUID U} `{UUIDOrder U} `{MemberStatuses}.
Context `{Postgres (guild U) W} `{Clock W} `{PermissionLib} `{Store U W} `{!Cache U W}.
Context `{Valkey W} `{!Codec (InvalidationMessage U)} `{!Codec (gmap string string)}.
Context `{GatewayQueue W} `{AuditLog U W} `{EventNames} `{ApiErrors} `{TimeFormat} `{TimeParse}.
Context (h : handler).
Implicit Types (c : request U) (userID targetID roleID : U).

Definition errOutranked : error := Sentinel "api.errOutranked".
Definition errTargetIsOwner : error := Sentinel "api.errTargetIsOwner".

Definition mapMemberError {A} (err : error) : M W (response A) :=
  if errors_Is err MemberRepo.ErrNotFound then
    Fail_ StatusNotFound UnknownMember "Member not found"
  else if errors_Is err MemberRepo.ErrBanNotFound then Fail_ StatusNotFound UnknownBan "Ban not found"
  else if errors_Is err Validate.Member.ErrNicknameLength then
    Fail_ StatusBadRequest ValidationError (Error err)
  else if errors_Is err MemberRepo.ErrAlreadyMember then
    Fail_ StatusConflict AlreadyMember (Error err)
  else if errors_Is err MemberRepo.ErrAlreadyBanned then
    Fail_ StatusConflict AlreadyExists (Error err)
  else if errors_Is err MemberRepo.ErrEveryoneRole then
    Fail_ StatusBadRequest ValidationError (Error err)
  else if errors_Is err MemberRepo.ErrTimeoutInPast then
    Fail_ StatusBadRequest ValidationError (Error err)
  else internal_error.

Definition checkHierarchy (callerID targetID : U) : M W unit :=
  callerPos ← wrap "get caller role position" (RoleRepo.HighestPosition callerID);
  targetPos ← wrap "get target role position" (RoleRepo.HighestPosition targetID);
  if targetPos <=? callerPos then fail errOutranked else mret tt.

Definition checkNotOwner (userID : U) : M W unit :=
  isOwner ← wrap "check ownership" (PGStore.IsOwner userID);
  if isOwner : bool then fail errTargetIsOwner else mret tt.

Definition mapGuardError {A} (err : error) : M W (response A) :=
  if errors_Is err errOutranked then
    Fail_ StatusForbidden RoleHierarchy
      "Cannot perform this action on a member with an equal or higher role"
  else if errors_Is err errTargetIsOwner then
    Fail_ StatusForbidden ServerOwner "The server owner cannot be targeted by this action"
  else internal_error.

Definition publishMemberUpdate (m : Models.Member) : M W unit :=
  enqueue_event h MemberUpdate (Events.PMember m).
Definition publishMemberRemove (userID : string) : M W unit :=
  enqueue_event h MemberRemove (Events.PMemberRemove (Events.mkMemberRemoveData userID)).
Definition invalidateUser (userID : U) : M W unit := when (pub h) (best_effort (InvalidateUser userID)).

(** An entry about a user. *)
Definition user_entry (actor : U) (action : string) (target : U) (changes reason : option string) :
    Audit.Entry U :=
  Audit.mkEntry (Some actor) action (Some "user"%string) (Some target) changes reason.

Definition ListMembers c : M W (response (list Models.Member)) :=
  ParseAfter c (λ after,
  ParseIntQuery c "limit" (λ rawLimit,
  let limit := Validate.Member.ClampLimit rawLimit in
  catch (MemberRepo.List after limit) (λ _, internal_error)
    (λ members, Success (Member.ToModel <$> members)))).

(** The inner loop: the permitted members of a batch, until the page is full. *)
Fixpoint collect (limit : nat) (batch : list (Member.WithProfile U * bool))
    (result : list Models.Member) : list Models.Member :=
  match batch with
  | [] => result
  | (m, permitted) :: batch' =>
      if permitted then
        let result := result ++ [Member.ToModel m] in
        if (limit <=? length result)%nat then result else collect limit batch' result
      else collect limit batch' result
  end.
Definition batchMultiplier : Z := 2.
(** Every round but the last passes at least one row of members, so one unit of fuel per row
    and one more are enough. *)
Fixpoint channel_page (fuel : nat) (limit : Z) (channelID : U) (cursor : option U)
    (result : list Models.Member) : M W (response (list Models.Member)) :=
  match fuel with
  | O => fail (Plain "out of fuel")
  | S fuel' =>
      if limit <=? Z.of_nat (length result) then Success result
      else
        let batchSize := limit * batchMultiplier in
        catch (MemberRepo.List cursor batchSize) (λ _, internal_error) (λ batch,
        catch (FilterUsersPermitted (Member.UserID <$> batch) channelID ViewChannels)
          (λ _, internal_error) (λ permitted,
        let result := collect (Z.to_nat limit) (zip batch permitted) result in
        if Z.of_nat (length batch) <? batchSize then Success result
        else channel_page fuel' limit channelID (Member.UserID <$> last batch) result))
  end.
Definition ListChannelMembers c : M W (response (list Models.Member)) := λ w,
  ParseUUIDParam c "channelID" ValidationError (λ channelID,
  ParseAfter c (λ after,
  ParseIntQuery c "limit" (λ rawLimit,
  let limit := Validate.Member.ClampLimit rawLimit in
  channel_page (S (S (size (g_members (pg_view w))))) limit channelID after []))) w.

Definition GetSelf c : M W (response Models.Member) :=
  userID ← UserID c;
  catch (MemberRepo.GetByUserIDAnyStatus userID) mapMemberError (λ m, Success (Member.ToModel m)).

Definition UpdateSelf c (decoded : res UpdateMemberRequest) : M W (response Models.Member) :=
  userID ← UserID c;
  Bind decoded (λ body,
  catch (of_res (Validate.Member.ValidateNickname (um_Nickname body))) mapMemberError (λ nickname,
  catch (MemberRepo.UpdateNickname userID nickname) mapMemberError (λ updated,
  publishMemberUpdate (Member.ToModel updated) ;;
  Success (Member.ToModel updated)))).

Definition Leave c : M W (response unit) :=
  userID ← UserID c;
  catch (checkNotOwner userID) mapGuardError (λ _,
  catch (MemberRepo.Delete userID) mapMemberError (λ _,
  publishMemberRemove (uuid_String userID) ;;
  invalidateUser userID ;;
  SendStatus StatusNoContent)).

Definition GetMember c : M W (response Models.Member) :=
  ParseUUIDParam c "userID" ValidationError (λ targetID,
  catch (MemberRepo.GetByUserID targetID) mapMemberError (λ m, Success (Member.ToModel m))).

Definition UpdateMember c (decoded : res UpdateMemberRequest) : M W (response Models.Member) :=
  userID ← UserID c;
  ParseUUIDParam c "userID" ValidationError (λ targetID,
  Bind decoded (λ body,
  catch (of_res (Validate.Member.ValidateNickname (um_Nickname body))) mapMemberError (λ nickname,
  catch (checkHierarchy userID targetID) mapGuardError (λ _,
  catch (MemberRepo.UpdateNickname targetID nickname) mapMemberError (λ updated,
  publishMemberUpdate (Member.ToModel updated) ;;
  Success (Member.ToModel updated)))))).

Definition KickMember c : M W (response unit) :=
  userID ← UserID c;
  ParseUUIDParam c "userID" ValidationError (λ targetID,
  catch (checkNotOwner targetID) mapGuardError (λ _,
  catch (checkHierarchy userID targetID) mapGuardError (λ _,
  catch (MemberRepo.Delete targetID) mapMemberError (λ _,
  record_audit h (user_entry userID Audit.MemberKick targetID None None) ;;
  publishMemberRemove (uuid_String targetID) ;;
  invalidateUser targetID ;;
  SendStatus StatusNoContent)))).

Definition SetTimeout c (decoded : res TimeoutMemberRequest) : M W (response Models.Member) :=
  userID ← UserID c;
  ParseUUIDParam c "userID" ValidationError (λ targetID,
  Bind decoded (λ body,
  match time_Parse (tm_Until body) with
  | Err _ => Fail_ StatusBadRequest ValidationError "Invalid timestamp format, expected RFC3339"
  | Ok until =>
      now ← gets time_Now;
      if negb (now <? until) then mapMemberError MemberRepo.ErrTimeoutInPast
      else
        catch (checkNotOwner targetID) mapGuardError (λ _,
        catch (checkHierarchy userID targetID) mapGuardError (λ _,
        catch (MemberRepo.SetTimeout targetID until) mapMemberError (λ updated,
        record_audit h (user_entry userID Audit.MemberTimeout targetID None None) ;;
        publishMemberUpdate (Member.ToModel updated) ;;
        invalidateUser targetID ;;
        Success (Member.ToModel updated))))
  end)).

Definition ClearTimeout c : M W (response Models.Member) :=
  userID ← UserID c;
  ParseUUIDParam c "userID" ValidationError (λ targetID,
  catch (MemberRepo.ClearTimeout targetID) mapMemberError (λ updated,
  record_audit h (user_entry userID Audit.MemberTimeoutClear targetID None None) ;;
  publishMemberUpdate (Member.ToModel updated) ;;
  invalidateUser targetID ;;
  Success (Member.ToModel updated))).

Definition BanMember c (decoded : res BanMemberRequest) : M W (response unit) :=
  userID ← UserID c;
  ParseUUIDParam c "userID" ValidationError (λ targetID,
  Bind decoded (λ body,
  match match bm_ExpiresAt body with
        | None => Ok None
        | Some s => match time_Parse s with Ok t => Ok (Some t) | Err e => Err e end
        end with
  | Err _ => Fail_ StatusBadRequest ValidationError "Invalid expires_at format, expected RFC3339"
  | Ok expiresAt =>
      catch (checkNotOwner targetID) mapGuardError (λ _,
      catch (checkHierarchy userID targetID) mapGuardError (λ _,
      catch (MemberRepo.Ban targetID userID (bm_Reason body) expiresAt) mapMemberError (λ _,
      record_audit h (user_entry userID Audit.MemberBan targetID None (bm_Reason body)) ;;
      publishMemberRemove (uuid_String targetID) ;;
      invalidateUser targetID ;;
      SendStatus StatusNoContent)))
  end)).

Definition UnbanMember c : M W (response unit) :=
  userID ← UserID c;
  ParseUUIDParam c "userID" ValidationError (λ targetID,
  catch (MemberRepo.Unban targetID) mapMemberError (λ _,
  record_audit h (user_entry userID Audit.MemberUnban targetID None None) ;;
  SendStatus StatusNoContent)).

Definition toBanModel (b : BanRecord U) : BanModel :=
  mkBanModel
    (Models.mkMemberUser (uuid_String (br_UserID b)) (br_Username b) (br_DisplayName b) (br_AvatarKey b))
    (br_Reason b) (time_Format (br_CreatedAt b)) (uuid_String <$> br_BannedBy b)
    (time_Format <$> br_ExpiresAt b).
Definition ListBans c : M W (response (list BanModel)) :=
  ParseAfter c (λ after,
  ParseIntQuery c "limit" (λ rawLimit,
  let limit := Validate.Member.ClampLimit rawLimit in
  catch (MemberRepo.ListBans after limit) (λ _, internal_error)
    (λ bans, Success (toBanModel <$> bans)))).

Definition role_changes (roleID : U) : option string :=
  Audit.MarshalChanges ({[ "role_id"%string := uuid_String roleID ]} : gmap string string).
(** The checks AssignRole and RemoveRole share: the role exists, is not @everyone and is below
    the caller's highest role. *)
Definition with_lower_role {A} (userID roleID : U) (verb : string) (k : M W (response A)) :
    M W (response A) :=
  catch (RoleRepo.GetByID roleID)
    (λ err, if errors_Is err RoleRepo.ErrNotFound
            then Fail_ StatusNotFound UnknownRole "Role not found" else internal_error)
    (λ r,
      if Role.IsEveryone r then mapMemberError MemberRepo.ErrEveryoneRole
      else catch (RoleRepo.HighestPosition userID) (λ _, internal_error) (λ callerPos,
        if Role.Position r <=? callerPos
        then Fail_ StatusForbidden RoleHierarchy
               ("Cannot " +:+ verb +:+ " a role at or above your highest role")
        else k)).

Definition AssignRole c : M W (response Models.Member) :=
  userID ← UserID c;
  ParseUUIDParam c "userID" ValidationError (λ targetID,
  ParseUUIDParam c "roleID" ValidationError (λ roleID,
  with_lower_role userID roleID "assign" (
  catch (MemberRepo.GetByUserID targetID) mapMemberError (λ _,
  catch (MemberRepo.AssignRole targetID roleID) mapMemberError (λ _,
  record_audit h (user_entry userID Audit.MemberRoleAssign targetID (role_changes roleID) None) ;;
  invalidateUser targetID ;;
  catch (MemberRepo.GetByUserID targetID) mapMemberError (λ updated,
  publishMemberUpdate (Member.ToModel updated) ;;
  Success (Member.ToModel updated))))))).

Definition RemoveRole c : M W (response unit) :=
  userID ← UserID c;
  ParseUUIDParam c "userID" ValidationError (λ targetID,
  ParseUUIDParam c "roleID" ValidationError (λ roleID,
  with_lower_role userID roleID "remove" (
  catch (MemberRepo.RemoveRole targetID roleID) mapMemberError (λ _,
  record_audit h (user_entry userID Audit.MemberRoleRemove targetID (role_changes roleID) None) ;;
  when (gateway h) (
    r ← try (MemberRepo.GetByUserID targetID);
    match r with Ok updated => publishMemberUpdate (Member.ToModel updated) | Err _ => mret tt end) ;;
  invalidateUser targetID ;;
  SendStatus StatusNoContent)))).
End member.
End MemberHandler.

(** ** internal/api/role.go *)
Record CreateRoleRequest := mkCreateRole {
  cr_Name : string; cr_Colour : option Z; cr_Permissions : option Z; cr_Hoist : option bool }.
Record UpdateRoleRequest := mkUpdateRole {
  ur_Name : option string; ur_Colour : option Z; ur_Position : option Z; ur_Permissions : option Z;
  ur_Hoist : option bool }.

Module RoleHandler.
Section role.
Context {U W : Type} `{UUIDLib U} `{RandomUUID U} `{Postgres (guild U) W} `{PermissionLib}.
Context `{Valkey W} `{!Codec (InvalidationMessage U)}.
Context `{GatewayQueue W} `{AuditLog U W} `{EventNames} `{ApiErrors} `{TimeFormat}.
Context (h : handler).
Implicit Types (c : request U).

Definition mapRoleError {A} (err : error) : M W (response A) :=
  if errors_Is err RoleRepo.ErrNotFound then Fail_ StatusNotFound UnknownRole "Role not found"
  else if errors_Is err Validate.Role.ErrNameLength then
    Fail_ StatusBadRequest ValidationError (Error err)
  else if errors_Is err Validate.Role.ErrInvalidPosition then
    Fail_ StatusBadRequest ValidationError (Error err)
  else if errors_Is err Validate.Role.ErrInvalidPermissions then
    Fail_ StatusBadRequest ValidationError (Error err)
  else if errors_Is err Validate.Role.ErrInvalidColour then
    Fail_ StatusBadRequest ValidationError (Error err)
  else if errors_Is err RoleRepo.ErrAlreadyExists then Fail_ StatusConflict AlreadyExists (Error err)
  else if errors_Is err RoleRepo.ErrMaxRolesReached then
    Fail_ StatusBadRequest MaxRolesReached (Error err)
  else if errors_Is err RoleRepo.ErrEveryoneImmutable then
    Fail_ StatusForbidden ValidationError (Error err)
  else internal_error.

Definition invalidateAll : M W unit := when (pub h) (best_effort (InvalidateAll (U := U))).
Definition role_entry (actor : U) (action : string) (target : U) : Audit.Entry U :=
  Audit.mkEntry (Some actor) action (Some "role"%string) (Some target) None None.

Definition ListRoles (c : request U) : M W (response (list Models.Role)) :=
  catch (RoleRepo.List (U := U)) (λ _, internal_error) (λ roles, Success (Role.ToModel <$> roles)).

Definition CreateRole c (decoded : res CreateRoleRequest) : M W (response Models.Role) :=
  userID ← UserID c;
  Bind decoded (λ body,
  catch (of_res (Validate.Role.ValidateNameRequired (cr_Name body))) mapRoleError (λ name,
  catch (of_res (Validate.Role.ValidateColour (cr_Colour body))) mapRoleError (λ _,
  catch (of_res (Validate.Role.ValidatePermissions (cr_Permissions body))) mapRoleError (λ _,
  let params := RoleRepo.mkCreateParams name (default 0 (cr_Colour body))
                  (default 0 (cr_Permissions body)) (default false (cr_Hoist body)) in
  catch (RoleRepo.Create params (maxRoles h)) mapRoleError (λ created,
  record_audit h (role_entry userID Audit.RoleCreate (Role.ID created)) ;;
  enqueue_event h RoleCreated (Events.PRole (Role.ToModel created)) ;;
  invalidateAll ;;
  SuccessStatus StatusCreated (Role.ToModel created)))))).

(** The hierarchy test of UpdateRole and DeleteRole. *)
Definition with_target_below {A} (userID id : U) (message : string)
    (k : Role.Role U → Z → M W (response A)) : M W (response A) :=
  catch (RoleRepo.GetByID id) mapRoleError (λ target,
  catch (RoleRepo.HighestPosition userID) (λ _, internal_error) (λ callerPos,
  if Role.Position target <=? callerPos then Fail_ StatusForbidden RoleHierarchy message
  else k target callerPos)).

Definition UpdateRole c (decoded : res UpdateRoleRequest) : M W (response Models.Role) :=
  userID ← UserID c;
  ParseUUIDParam c "roleID" ValidationError (λ id,
  Bind decoded (λ body,
  catch (of_res (Validate.Role.ValidateName (ur_Name body))) mapRoleError (λ name,
  catch (of_res (Validate.Role.ValidatePosition (ur_Position body))) mapRoleError (λ _,
  catch (of_res (Validate.Role.ValidateColour (ur_Colour body))) mapRoleError (λ _,
  catch (of_res (Validate.Role.ValidatePermissions (ur_Permissions body))) mapRoleError (λ _,
  with_target_below userID id "Cannot modify roles at or above your highest role" (λ target callerPos,
  if match ur_Position body with Some p => p <=? callerPos | None => false end
  then Fail_ StatusForbidden RoleHierarchy
         "Cannot move a role to a position at or above your highest role"
  else if Role.IsEveryone target && bool_decide (is_Some name)
  then Fail_ StatusForbidden ValidationError "The @everyone role cannot be renamed"
  else
    catch (RoleRepo.Update id (mkRoleParams name (ur_Colour body) (ur_Position body)
                                 (ur_Permissions body) (ur_Hoist body))) mapRoleError (λ updated,
    record_audit h (role_entry userID Audit.RoleUpdate id) ;;
    enqueue_event h RoleUpdated (Events.PRole (Role.ToModel updated)) ;;
    invalidateAll ;;
    Success (Role.ToModel updated))))))))).

Definition DeleteRole c : M W (response unit) :=
  userID ← UserID c;
  ParseUUIDParam c "roleID" ValidationError (λ id,
  with_target_below userID id "Cannot delete roles at or above your highest role" (λ _ _,
  catch (RoleRepo.Delete id) mapRoleError (λ _,
  record_audit h (role_entry userID Audit.RoleDelete id) ;;
  enqueue_event h RoleDeleted (Events.PRoleDelete (Events.mkRoleDeleteData (uuid_String id))) ;;
  invalidateAll ;;
  SendStatus StatusNoContent))).
End role.
End RoleHandler.

(** ** internal/member/middleware.go *)
Definition RequireActiveMember {U W A} `{UUIDLib U} `{RandomUUID U} `{MemberStatuses}
    `{Postgres (guild U) W} `{ApiErrors} (next : request U → M W (response A)) (c : request U) :
    M W (response A) :=
  userID ← UserID c;
  catch (MemberRepo.GetStatus userID)
    (λ err, if errors_Is err MemberRepo.ErrNotFound
            then Fail_ StatusForbidden MembershipRequired "Server membership is required"
            else internal_error)
    (λ status,
      if bool_decide (status = MemberStatusPending)
      then Fail_ StatusForbidden MembershipRequired "Onboarding must be completed first"
      else next c).
