(* ===== verification/GuildSpec.v ===== *)
(** * What the member and role endpoints may do to the tables

    An abstract machine: [guild_step caller] are the changes a request of [caller] may make,
    with the condition under which each is allowed.  Its invariants are proved here by cases
    on the step; MemberProofs.v shows that every endpoint is such a step or changes
    nothing. *)
From S2P Require Import Prelude GoStd Platform Permission Validate Postgres Domain GuildTables GuildRepo.
Open Scope Z_scope.

Section spec.
Context {U : Type} `{UUIDLaws U} `{!RandomUUID U} `{!UUIDOrder U} `{!MemberStatuses}.
Implicit Types (d : guild U) (caller t id : U).

Definition owner d : option U := Server.OwnerID <$> g_server d.
(** The rank of a user: a lower number is a higher rank; without a role it is the lowest. *)
Definition rank id d : Z :=
  match minimum (held_positions id d) with None => RoleRepo.MaxInt | Some p => p end.
Definition outranks d caller t : Prop := rank caller d < rank t d.
Definition is_member d id : Prop := is_Some (g_members d !! id).
Definition shown d id : Prop := is_Some (find_member id d).

Inductive guild_step (caller : U) (d : guild U) : guild U → Prop :=
| step_leave :
    is_member d caller → owner d ≠ Some caller →
    guild_step caller d (set_members (delete caller) d)
| step_kick t :
    is_member d t → owner d ≠ Some t → outranks d caller t →
    guild_step caller d (set_members (delete t) d)
| step_ban t reason expires :
    g_bans d !! t = None → is_Some (g_users d !! t) → owner d ≠ Some t → outranks d caller t →
    guild_step caller d
      (set_members (delete t) (set_bans <[t := mkBanRow reason (Some caller) expires (g_now d)]> d))
| step_unban t :
    is_Some (g_bans d !! t) → guild_step caller d (set_bans (delete t) d)
| step_timeout t m until :
    g_members d !! t = Some m → owner d ≠ Some t → outranks d caller t →
    guild_step caller d (set_members <[t := set_status MemberStatusTimedOut (Some until) m]> d)
| step_clear_timeout t m :
    g_members d !! t = Some m →
    guild_step caller d (set_members <[t := set_status MemberStatusActive None m]> d)
| step_nickname t m nickname :
    g_members d !! t = Some m → t = caller ∨ outranks d caller t →
    guild_step caller d (set_members <[t := set_nickname nickname m]> d)
| step_assign t id r :
    g_roles d !! id = Some r → Role.IsEveryone r = false → rank caller d < Role.Position r →
    is_member d t → is_Some (g_users d !! t) →
    guild_step caller d (set_member_roles (union {[(t, id)]}) d)
| step_unassign t id r :
    g_roles d !! id = Some r → Role.IsEveryone r = false → rank caller d < Role.Position r →
    guild_step caller d (set_member_roles (λ s, s ∖ {[(t, id)]}) d)
| step_create_role id n r :
    g_roles d !! id = None → Role.ID r = id → Role.Position r = max_position d + 1 →
    in_int4 (Role.Position r) = true → ¬ role_taken id (Role.Name r) (Role.Position r) d →
    Role.IsEveryone r = false →
    guild_step caller d (set_roles <[id := r]> (set_seq n d))
| step_update_role id r p :
    g_roles d !! id = Some r → rank caller d < Role.Position r →
    (∀ q, rp_Position p = Some q → rank caller d < q ∧ 0 ≤ q ∧ in_int4 q = true) →
    (Role.IsEveryone r = true → rp_Name p = None) →
    ¬ role_taken id (coalesce (rp_Name p) (Role.Name r)) (coalesce (rp_Position p) (Role.Position r)) d →
    guild_step caller d (set_roles <[id := set_role p (g_now d) r]> d)
| step_delete_role id r :
    g_roles d !! id = Some r → Role.IsEveryone r = false → rank caller d < Role.Position r →
    guild_step caller d (drop_role id d).

(** ** Ranks *)
Lemma minimum_Some l p : minimum l = Some p → p ∈ l ∧ ∀ q, q ∈ l → p ≤ q.
Proof.
  revert p. induction l as [|x l IH]; intros p; simpl; [done|].
  destruct (minimum l) as [m|] eqn:E; intros [= <-].
  - destruct (IH m eq_refl) as [Hm Hle]. split.
    + destruct (Z.min_spec x m) as [[_ ->]|[_ ->]]; set_solver.
    + intros q [->|Hq]%elem_of_cons; [lia|]. specialize (Hle q Hq). lia.
  - destruct l as [|y l]; [|simpl in E; by destruct (minimum l)]. split; [set_solver|]. intros q Hq. apply list_elem_of_singleton in Hq. lia.
Qed.
Lemma minimum_None l : minimum l = None ↔ l = [].
Proof. destruct l as [|x l]; simpl; [done|]. by destruct (minimum l). Qed.

Lemma elem_held id d p :
  p ∈ held_positions id d ↔
  ∃ i r, g_roles d !! i = Some r ∧ (id, i) ∈ g_member_roles d ∧ Role.IsEveryone r = false ∧
         p = Role.Position r.
Proof.
  unfold held_positions. rewrite list_elem_of_omap. split.
  - intros ([i r] & Hin%elem_of_map_to_list & Hp). simpl in Hp. exists i, r.
    destruct (bool_decide_reflect ((id, i) ∈ g_member_roles d)); [|done].
    destruct (Role.IsEveryone r); naive_solver.
  - intros (i & r & Hr & Hm & He & ->). exists (i, r). split; [by apply elem_of_map_to_list|].
    simpl. rewrite bool_decide_eq_true_2 by done. by rewrite He.
Qed.

(** A user holds a role below the rank only; the rank is a held position or the lowest. *)
Lemma rank_le id d i r :
  g_roles d !! i = Some r → (id, i) ∈ g_member_roles d → Role.IsEveryone r = false →
  rank id d ≤ Role.Position r.
Proof.
  intros Hr Hm He. assert (Hin : Role.Position r ∈ held_positions id d) by (apply elem_held; by exists i, r).
  unfold rank. destruct (minimum _) as [p|] eqn:E.
  - by apply (proj2 (minimum_Some _ _ E)).
  - apply minimum_None in E. rewrite E in Hin. set_solver.
Qed.

(** Only the roles a user holds decide the rank. *)
Lemma rank_ext id d d' :
  (∀ i, (id, i) ∈ g_member_roles d' ↔ (id, i) ∈ g_member_roles d) →
  (∀ i r, (id, i) ∈ g_member_roles d → g_roles d !! i = Some r →
     ∃ r', g_roles d' !! i = Some r' ∧ Role.Position r' = Role.Position r ∧
           Role.IsEveryone r' = Role.IsEveryone r) →
  (∀ i r', (id, i) ∈ g_member_roles d → g_roles d' !! i = Some r' → is_Some (g_roles d !! i)) →
  rank id d' = rank id d.
Proof.
  intros Hm Hr Hr'.
  assert (Heq : ∀ p, p ∈ held_positions id d' ↔ p ∈ held_positions id d).
  { intros p. rewrite !elem_held. split.
    - intros (i & r' & Hi & Hin & He & ->). apply Hm in Hin. destruct (Hr' _ _ Hin Hi) as [r Hr0].
      destruct (Hr _ _ Hin Hr0) as (r2 & Hi2 & Hp & He2). simplify_eq.
      exists i, r. split_and!; [done..| |congruence]. congruence.
    - intros (i & r & Hi & Hin & He & ->). destruct (Hr _ _ Hin Hi) as (r' & Hi' & Hp & He').
      exists i, r'. split_and!; [done|by apply Hm|congruence|done]. }
  unfold rank. destruct (minimum (held_positions id d')) as [p|] eqn:E, (minimum (held_positions id d)) as [q|] eqn:E'.
  - apply minimum_Some in E as [Hp Hpl]. apply minimum_Some in E' as [Hq Hql].
    apply Z.le_antisymm; [apply Hpl, Heq, Hq|apply Hql, Heq, Hp].
  - apply minimum_None in E'. apply minimum_Some in E as [Hp _]. apply Heq in Hp.
    rewrite E' in Hp. by apply elem_of_nil in Hp.
  - apply minimum_None in E. apply minimum_Some in E' as [Hp _]. apply Heq in Hp.
    rewrite E in Hp. by apply elem_of_nil in Hp.
  - done.
Qed.

(** ** The invariant *)
Record guild_inv d : Prop := mkGuildInv {
  inv_roles : map_Forall (λ id r, Role.ID r = id ∧ 0 ≤ Role.Position r ∧
                                  in_int4 (Role.Position r) = true) (g_roles d);
  inv_unique : ∀ i j r r', g_roles d !! i = Some r → g_roles d !! j = Some r' → i ≠ j →
    Role.Name r ≠ Role.Name r' ∧ Role.Position r ≠ Role.Position r';
  inv_everyone : ∃ e r, g_roles d !! e = Some r ∧ Role.IsEveryone r = true ∧
    Role.Position r = 0 ∧ Role.Name r = "@everyone"%string ∧
    ∀ i r', g_roles d !! i = Some r' → Role.IsEveryone r' = true → i = e;
  inv_owner : ∀ o, owner d = Some o → is_member d o;
  inv_member_roles : ∀ u i, (u, i) ∈ g_member_roles d →
    is_Some (g_users d !! u) ∧ is_Some (g_roles d !! i);
  inv_members : map_Forall (λ u m, is_Some (g_users d !! u) ∧ m_status m ∈ statuses) (g_members d);
  inv_bans : map_Forall (λ u _, is_Some (g_users d !! u)) (g_bans d);
  inv_not_banned : ∀ u, is_member d u → g_bans d !! u = None;
  inv_holds_everyone : ∀ u i r, is_member d u → g_roles d !! i = Some r → Role.IsEveryone r = true →
    (u, i) ∈ g_member_roles d;
}.

Lemma rank_nonneg id d : guild_inv d → 0 ≤ rank id d.
Proof.
  intros Hd. unfold rank. destruct (minimum _) as [p|] eqn:E; [|done].
  apply minimum_Some in E as [(i & r & Hr & _ & _ & ->)%elem_held _].
  by apply (inv_roles _ Hd) in Hr as (_ & ? & _).
Qed.

Lemma max_position_ge d i r : g_roles d !! i = Some r → Role.Position r ≤ max_position d.
Proof.
  intros Hr%elem_of_map_to_list. unfold max_position. induction (map_to_list (g_roles d)) as [|x l IH]; [set_solver|].
  simpl. apply elem_of_cons in Hr as [<-|Hr]; [simpl; lia|]. specialize (IH Hr). lia.
Qed.
Lemma max_position_lower d : -1 ≤ max_position d.
Proof. unfold max_position. induction (map_to_list (g_roles d)) as [|x l IH]; simpl; lia. Qed.

Lemma role_taken_not id n p d j r :
  ¬ role_taken id n p d → g_roles d !! j = Some r → j ≠ id → Role.Name r ≠ n ∧ Role.Position r ≠ p.
Proof.
  intros Ht Hr Hne. split; intros E; apply Ht; exists j, r; (split; [done|]); auto.
Qed.

(** The parts of the invariant, each kept by the writes of its tables. *)
Lemma inv_roles_insert d id r :
  guild_inv d → Role.ID r = id → 0 ≤ Role.Position r → in_int4 (Role.Position r) = true →
  ¬ role_taken id (Role.Name r) (Role.Position r) d →
  (∀ r0, g_roles d !! id = Some r0 → Role.IsEveryone r0 = false) → Role.IsEveryone r = false →
  guild_inv (set_roles <[id := r]> d).
Proof.
  intros Hd Hid Hp Hi Ht Hold He. constructor; simpl.
  - apply map_Forall_insert_2; [done|apply Hd].
  - intros i j r1 r2 I1 I2 Hne. apply lookup_insert_Some in I1, I2.
    destruct I1 as [[<- <-]|[Hn1 I1]], I2 as [[<- <-]|[Hn2 I2]]; try done.
    + destruct (role_taken_not _ _ _ _ _ _ Ht I2) as [? ?]; [done|]. split; congruence.
    + by apply (role_taken_not _ _ _ _ _ _ Ht I1).
    + by eapply inv_unique.
  - destruct (inv_everyone _ Hd) as (e & r0 & Hr0 & He0 & Hp0 & Hn0 & Hu).
    assert (id ≠ e) by (intros ->; specialize (Hold _ Hr0); congruence).
    exists e, r0. rewrite lookup_insert_ne by done. split_and!; [done..|].
    intros i r' [[<- <-]|[_ Hi']]%lookup_insert_Some He'; [congruence|eauto].
  - apply Hd.
  - intros u i Hin. destruct (inv_member_roles _ Hd u i Hin) as [? Hr]. split; [done|].
    apply lookup_insert_is_Some. destruct (decide (id = i)); [by left|by right].
  - apply Hd.
  - apply Hd.
  - apply Hd.
  - intros u i r' Hm [[<- <-]|[_ Hi']]%lookup_insert_Some He'; [congruence|].
    by eapply (inv_holds_everyone _ Hd u i r').
Qed.

Lemma inv_delete_member d t : guild_inv d → owner d ≠ Some t → guild_inv (set_members (delete t) d).
Proof.
  intros Hd Ho. destruct Hd as [I1 I2 I3 I4 I5 I6 I7 I8 I9]. constructor; simpl; try done.
  - intros o Hown. specialize (I4 o Hown).
    unfold is_member in *. simpl. rewrite lookup_delete_ne; [done|]. intros ->. by apply Ho.
  - intros u m [_ Hm]%lookup_delete_Some. by apply I6.
  - intros u [m Hm]. simpl in Hm. apply lookup_delete_Some in Hm as [_ Hm]. apply I8. by exists m.
  - intros u i r [m Hm]. simpl in Hm. apply lookup_delete_Some in Hm as [_ Hm]. apply I9. by exists m.
Qed.
Lemma inv_set_member d t m m' :
  guild_inv d → g_members d !! t = Some m → m_status m' ∈ statuses →
  guild_inv (set_members <[t := m']> d).
Proof.
  intros Hd Ht Hs. destruct Hd as [I1 I2 I3 I4 I5 I6 I7 I8 I9].
  assert (Hmem : ∀ u, is_member (set_members <[t := m']> d) u → is_member d u).
  { intros u [m0 Hu]. simpl in Hu. apply lookup_insert_Some in Hu as [[<- _]|[_ Hu]]; [by exists m|by exists m0]. }
  constructor; simpl; try done.
  - intros o Hown. specialize (I4 o Hown). unfold is_member in *. simpl.
    apply lookup_insert_is_Some'. by right.
  - apply map_Forall_insert_2; [|done]. split; [|done]. by apply I6 in Ht as [? _].
  - intros u Hu. by apply I8, Hmem.
  - intros u i r Hu. by apply I9, Hmem.
Qed.

Context `{!MemberStatusLaws}.
Lemma step_inv caller d d' : guild_step caller d d' → guild_inv d → guild_inv d'.
Proof.
  intros Hs Hd. destruct Hs as [Hm Ho|t Hm Ho Hr|t reason e Hb Hu Ho Hr|t Hb|t m until Hm Ho Hr|t m Hm
    |t m n Hm Hc|t id r Hr He Hrk Hm Hu|t id r Hr He Hrk|id n r Hn Hid Hp Hi Ht He|id r p Hr Hrk Hp Hev Ht
    |id r Hr He Hrk].
  - by apply inv_delete_member.
  - by apply inv_delete_member.
  - apply (inv_delete_member _ t) in Hd; [|done]. destruct Hd as [I1 I2 I3 I4 I5 I6 I7 I8 I9].
    constructor; simpl in *; try done.
    + by apply map_Forall_insert_2.
    + intros u Hm. rewrite lookup_insert_ne; [by apply I8|]. intros ->. destruct Hm as [m Hm].
      simpl in Hm. by rewrite lookup_delete_eq in Hm.
  - destruct Hd as [I1 I2 I3 I4 I5 I6 I7 I8 I9]. constructor; simpl; try done.
    + intros u b [_ Hu]%lookup_delete_Some. by eapply I7.
    + intros u Hm. apply lookup_delete_None. right. by apply I8.
  - eapply inv_set_member; [done..|]. simpl. rewrite status_timed_out. set_solver.
  - eapply inv_set_member; [done..|]. simpl. rewrite status_active. set_solver.
  - eapply inv_set_member; [done..|]. simpl. by apply (inv_members _ Hd) in Hm as [_ ?].
  - destruct Hd as [I1 I2 I3 I4 I5 I6 I7 I8 I9]. constructor; simpl; try done.
    + intros u i [[= -> ->]%elem_of_singleton|Hin]%elem_of_union; [by eauto|by apply I5].
    + intros u i r' Hu' Hi He'. apply elem_of_union. right. by eapply I9.
  - destruct Hd as [I1 I2 I3 I4 I5 I6 I7 I8 I9]. constructor; simpl; try done.
    + intros u i [Hin _]%elem_of_difference. by apply I5.
    + intros u i r' Hu' Hi He'. apply elem_of_difference. split; [by eapply I9|].
      intros [= -> ->]%elem_of_singleton. congruence.
  - assert (Hd' : guild_inv (set_seq n d)) by (by destruct Hd).
    apply inv_roles_insert; [done..| |done|done| |done].
    + rewrite Hp. pose proof (max_position_lower d). lia.
    + simpl. intros r0. by rewrite Hn.
  - assert (He : Role.IsEveryone r = false).
    { destruct (Role.IsEveryone r) eqn:E; [|done]. exfalso.
      destruct (inv_everyone _ Hd) as (e & r0 & Hr0 & _ & Hp0 & _ & Hu).
      assert (id = e) as -> by eauto. simplify_eq. pose proof (rank_nonneg caller d Hd). lia. }
    destruct (inv_roles _ Hd id r Hr) as (Hid & Hpos & Hint).
    apply inv_roles_insert; [done|done|..|done|by intros; simplify_eq|done]; simpl;
      destruct (rp_Position p) as [q|]; simpl; (done || by apply Hp).
  - destruct Hd as [I1 I2 I3 I4 I5 I6 I7 I8 I9]. constructor; simpl; try done.
    + intros i r0 [_ Hi]%lookup_delete_Some. by apply I1.
    + intros i j r1 r2 [_ Hi]%lookup_delete_Some [_ Hj]%lookup_delete_Some. by apply I2.
    + destruct I3 as (e & r0 & Hr0 & He0 & Hp0 & Hn0 & Hu). exists e, r0.
      rewrite lookup_delete_ne by (intros ->; congruence). split_and!; [done..|].
      intros i r' [_ Hi]%lookup_delete_Some. by apply Hu.
    + intros u i [Hne Hin]%elem_of_filter. destruct (I5 u i Hin) as [? Hri]. split; [done|].
      rewrite lookup_delete_ne; [done|]. intros ->. by apply Hne.
    + intros u i r' Hu' [Hne Hi]%lookup_delete_Some He'. apply elem_of_filter. split; [by apply not_eq_sym|].
      by eapply I9.
Qed.
End spec.
