(* ===== verification/ApiLogic.v ===== *)
(** * A small logic for handlers over the database

    [reads m P]: [m] leaves the tables alone and what it returns satisfies [P] of them.
    [refuses m]: a handler that answers an error and leaves the tables alone.
    [handles m Q]: whatever happens, the tables changed as [Q] says, or they did not change and
    the answer is not a success.  The rules follow the early returns of the code. *)
From S2P Require Import Prelude GoStd Platform Permission Postgres Http.
Open Scope Z_scope.

Definition succeeded {A} (r : res (response A)) : Prop :=
  match r with Ok resp => status resp < 400 | Err _ => False end.

Section logic.
Context {DB W : Type} `{PostgresLaws DB W}.
Implicit Types (w : W) (d : DB).
Abbreviation view := (pg_view (DB := DB)).

Definition reads {A} (m : M W A) (P : DB → A → Prop) : Prop := ∀ w r w',
  m w = (r, w') → view w' = view w ∧ match r with Ok a => P (view w) a | Err _ => True end.
Definition refuses {A} (m : M W (response A)) : Prop := ∀ w r w',
  m w = (r, w') → view w' = view w ∧ ¬ succeeded r.
Definition handles {A} (m : M W (response A)) (Q : DB → DB → Prop) : Prop := ∀ w r w',
  m w = (r, w') → Q (view w) (view w') ∨ (view w' = view w ∧ ¬ succeeded r).
(** A write: done, or not done and reported as an error. *)
Definition writes {A} (m : M W A) (S : DB → DB → Prop) : Prop := ∀ w r w',
  m w = (r, w') → S (view w) (view w') ∨ (view w' = view w ∧ ∃ e, r = Err e).

Lemma handles_refuse {A} (m : M W (response A)) Q : refuses m → handles m Q.
Proof. intros Hm w r w' E. right. by apply Hm in E. Qed.
Lemma handles_weaken {A} (m : M W (response A)) (Q Q' : DB → DB → Prop) :
  handles m Q' → (∀ d d', Q' d d' → Q d d') → handles m Q.
Proof. intros Hm HQ w r w' E. destruct (Hm _ _ _ E) as [?|?]; [left; auto|by right]. Qed.

Lemma handles_read {A B} (m : M W A) (f : error → M W (response B)) k P Q :
  reads m P → (∀ e, refuses (f e)) → (∀ a, handles (k a) (λ d d', P d a → Q d d')) →
  handles (catch m f k) Q.
Proof.
  intros Hm Hf Hk w r w' E. apply catch_inv in E as [(a & w1 & E1 & E)|(e & w1 & E1 & E)];
    apply Hm in E1 as [Hv HP].
  - apply Hk in E as [HQ|[Hv' Hr]]; rewrite Hv in *; [left; auto|right; split; [congruence|done]].
  - apply Hf in E as [Hv' Hr]. right. split; [congruence|done].
Qed.
Lemma handles_bind {A B} (m : M W A) (k : A → M W (response B)) P Q :
  reads m P → (∀ a, handles (k a) (λ d d', P d a → Q d d')) → handles (m ≫= k) Q.
Proof.
  intros Hm Hk w r w' E. apply bind_inv in E as [(a & w1 & E1 & E)|(e & E1 & ->)];
    apply Hm in E1 as [Hv HP]; [|right; split; [done|intros []]].
  apply Hk in E as [HQ|[Hv' Hr]]; rewrite Hv in *; [left; auto|right; split; [congruence|done]].
Qed.
Lemma handles_write {A B} (m : M W A) (f : error → M W (response B)) k S Q :
  writes m S → (∀ e, refuses (f e)) → (∀ a, keeps view (k a)) → (∀ d d', S d d' → Q d d') →
  handles (catch m f k) Q.
Proof.
  intros Hm Hf Hk HQ w r w' E. apply catch_inv in E as [(a & w1 & E1 & E)|(e & w1 & E1 & E)].
  - pose proof (keeps_run view _ _ _ _ (Hk a) E) as Hv.
    apply Hm in E1 as [HS|[_ [e [=]]]]. left. apply HQ. by rewrite Hv.
  - apply Hf in E as [Hv Hr]. apply Hm in E1 as [HS|[Hv1 _]].
    + left. apply HQ. by rewrite Hv.
    + right. split; [congruence|done].
Qed.

(** [moves m T]: whatever [m] answers, the tables changed as [T] says. *)
Definition moves {A} (m : M W A) (T : DB → DB → Prop) : Prop := ∀ w r w',
  m w = (r, w') → T (view w) (view w').
Lemma moves_keeps {A} (m : M W A) (T : DB → DB → Prop) : keeps view m → (∀ d, T d d) → moves m T.
Proof. intros Hm HT w r w' E. rewrite (keeps_run view _ _ _ _ Hm E). apply HT. Qed.
Lemma moves_handles {A} (m : M W (response A)) T : moves m T → handles m T.
Proof. intros Hm w r w' E. left. by apply Hm in E. Qed.
Lemma handles_then {A B} (m : M W A) (f : error → M W (response B)) k S T Q :
  writes m S → (∀ e, refuses (f e)) → (∀ a, moves (k a) T) → (∀ d, T d d) →
  (∀ d d1 d2, S d d1 → T d1 d2 → Q d d2) → handles (catch m f k) Q.
Proof.
  intros Hm Hf Hk HT HQ w r w' E. apply catch_inv in E as [(a & w1 & E1 & E)|(e & w1 & E1 & E)].
  - apply Hk in E. apply Hm in E1 as [HS|[_ [e [=]]]]. left. by eapply HQ.
  - apply Hf in E as [Hv Hr]. apply Hm in E1 as [HS|[Hv1 _]]; [|right; split; [congruence|done]].
    left. rewrite Hv. by eapply HQ.
Qed.

Lemma reads_bind {A B} (m : M W A) (k : A → M W B) P Q :
  reads m P → (∀ a, reads (k a) (λ d b, P d a → Q d b)) → reads (m ≫= k) Q.
Proof.
  intros Hm Hk w r w' E. apply bind_inv in E as [(a & w1 & E1 & E)|(e & E1 & ->)];
    apply Hm in E1 as [Hv HP]; [|by split].
  apply Hk in E as [Hv' Hr]. rewrite Hv in *. split; [done|]. destruct r; auto.
Qed.
Lemma reads_map_err {A} f (m : M W A) P : reads m P → reads (map_err f m) P.
Proof. intros Hm w r w' E. apply map_err_inv in E as (r0 & E & ->). apply Hm in E as [? ?]. by destruct r0. Qed.
Lemma reads_wrap {A} c (m : M W A) P : reads m P → reads (wrap c m) P.
Proof. apply (reads_map_err (Wrap c)). Qed.
Lemma reads_ret {A} (a : A) P : (∀ d, P d a) → reads (mret a) P.
Proof. intros HP w r w' [= <- <-]. auto. Qed.
Lemma reads_fail {A} e (P : DB → A → Prop) : reads (fail e) P.
Proof. by intros w r w' [= <- <-]. Qed.
Lemma reads_weaken {A} (m : M W A) P Q : reads m P → (∀ d a, P d a → Q d a) → reads m Q.
Proof. intros Hm HQ w r w' E. apply Hm in E as [Hv Hr]. split; [done|]. destruct r; auto. Qed.
Lemma reads_query {A} (q : M DB A) P :
  (∀ d, (q d).2 = d ∧ match (q d).1 with Ok a => P d a | Err _ => True end) → reads (pg_query q) P.
Proof.
  intros Hq w r w' E. specialize (Hq (view w)).
  apply pg_query_atomic in E as [(d & Hd & Hv)|(e & -> & _ & Hv)].
  - rewrite Hd in Hq. simpl in Hq. destruct Hq as [-> HP]. split; [by destruct r|done].
  - split; [|done]. destruct Hv as [?|(a & d & Hd & ->)]; [done|]. rewrite Hd in Hq. by destruct Hq.
Qed.
Lemma reads_gets {A} (f : DB → A) (P : DB → A → Prop) : (∀ d, P d (f d)) → reads (pg_query (gets f)) P.
Proof. intros HP. apply reads_query. intros d. split; [done|apply HP]. Qed.
Lemma reads_of_res {A} (x : res A) (P : DB → A → Prop) :
  (∀ d a, x = Ok a → P d a) → reads (of_res x) P.
Proof. intros HP w r w' [= <- <-]. split; [done|]. destruct x; auto. Qed.
Lemma reads_world {A} (f : W → A) (P : DB → A → Prop) : (∀ d a, P d a) → reads (gets f) P.
Proof. intros HP w r w' [= <- <-]. auto. Qed.
Lemma reads_keeps {A} (m : M W A) P : reads m P → keeps view m.
Proof. intros Hm w. destruct (m w) as [r w'] eqn:E. by apply Hm in E as [? _]. Qed.

(** Writes that are steps of one statement or transaction. *)
Lemma writes_atomic {A} (m : M W A) (g : M DB A) (S : DB → DB → Prop) :
  (∀ w r w', m w = (r, w') → atomic g w r w') →
  (∀ d a d', g d = (Ok a, d') → S d d') → writes m S.
Proof.
  intros Hm HS w r w' E. apply Hm in E as [(d & Hd & Hv)|(e & -> & _ & [Hv|(a & d & Hd & Hv)])].
  - destruct r as [a|e]; [left; rewrite Hv; eauto|right; eauto].
  - right. eauto.
  - left. rewrite Hv. eauto.
Qed.
Lemma writes_query {A} f (g : M DB A) (S : DB → DB → Prop) :
  (∀ e, from_driver e → from_driver (f e)) → (∀ d a d', g d = (Ok a, d') → S d d') →
  writes (map_err f (pg_query g)) S.
Proof.
  intros Hf HS. eapply writes_atomic; [intros w r w' E; eapply atomic_query; [exact Hf|exact E]|].
  intros d a d' E. unfold map_err in E. destruct (g d) as [[b|e] d1] eqn:Eg; simplify_eq. eauto.
Qed.
(** A write followed by reads: the write may have been done although an error is reported. *)
Lemma writes_then {A B} (m : M W A) (k : A → M W B) (S : DB → DB → Prop) P :
  writes m S → (∀ a, reads (k a) (P a)) → writes (m ≫= k) S.
Proof.
  intros Hm Hk w r w' E. apply bind_inv in E as [(a & w1 & E1 & E)|(e & E1 & ->)].
  - apply Hk in E as [Hv _]. apply Hm in E1 as [HS|[_ [e [=]]]]. left. by rewrite Hv.
  - apply Hm in E1 as [HS|[Hv _]]; [by left|right; eauto].
Qed.

(** A statement that counts the rows it changed, and the test that there was one. *)
Lemma writes_row (m : M DB Z) c err (P : DB → Prop) (f : DB → DB) (S : DB → DB → Prop) :
  (∀ d r d', m d = (r, d') → (P d ∧ r = Ok 1 ∧ d' = f d) ∨ (r = Ok 0 ∧ d' = d) ∨ ∃ e, r = Err e) →
  (∀ d, P d → S d (f d)) →
  writes (n ← wrap c (pg_query m); if n =? 0 then fail err else mret tt) S.
Proof.
  intros Hm HS w r w' E.
  apply bind_inv in E as [(n & w1 & E1 & E)|(e & E1 & ->)]; apply wrap_inv in E1 as (r1 & E1 & Hr).
  - destruct r1 as [n'|]; [|done]. injection Hr as <-. apply pg_query_atomic, atomic_Ok in E1.
    apply Hm in E1 as [(HP & [= ->] & Hd)|[([= ->] & Hd)|(e & [=])]]; unfold mret, M_ret, fail in E;
      simpl in E; injection E as <- <-; rewrite Hd; [left; auto|right; eauto].
  - destruct r1 as [|e1]; [done|]. injection Hr as ->.
    apply pg_query_atomic in E1 as [(d & Hd & Hv)|(e2 & [= <-] & _ & [Hv|(a & d & Hd & Hv)])].
    + right. eauto.
    + right. eauto.
    + apply Hm in Hd as [(HP & _ & Hd)|[(_ & Hd)|(e & [=])]]; rewrite Hv, Hd; [left; auto|right; eauto].
Qed.

Lemma writes_ext {A} (m m' : M W A) S : (∀ w, m w = m' w) → writes m' S → writes m S.
Proof. intros Hm Hw w r w'. rewrite Hm. apply Hw. Qed.
Lemma writes_row_then {A} (m : M DB Z) c err (k : M W A) (P : DB → Prop) (f : DB → DB)
    (S : DB → DB → Prop) R :
  (∀ d r d', m d = (r, d') → (P d ∧ r = Ok 1 ∧ d' = f d) ∨ (r = Ok 0 ∧ d' = d) ∨ ∃ e, r = Err e) →
  (∀ d, P d → S d (f d)) → reads k R →
  writes (n ← wrap c (pg_query m); (if n =? 0 then fail err else mret tt) ;; k) S.
Proof.
  intros Hm HS Hk.
  eapply (writes_ext _ ((n ← wrap c (pg_query m); if n =? 0 then fail err else mret tt) ;; k)).
  - intros w. unfold mbind, M_bind. destruct (wrap c (pg_query m) w) as [[n|e] w1]; [|done].
    by destruct (n =? 0).
  - eapply (writes_then _ _ _ (λ _, R)); [by eapply writes_row|]. intros _. exact Hk.
Qed.

(** ** Answers *)
Lemma Fail_refuses `{ApiErrors} {A} st code msg : 400 ≤ st → refuses (Fail_ (A := A) st code msg).
Proof. intros Hs w r w' [= <- <-]. simpl. split; [done|lia]. Qed.
Lemma internal_refuses `{ApiErrors} {A} : refuses (internal_error (A := A)).
Proof. by apply Fail_refuses. Qed.
Lemma fail_refuses {A} e : refuses (fail (A := response A) e).
Proof. intros w r w' [= <- <-]. split; [done|intros []]. Qed.

Context {U : Type} `{UUIDLib U} `{ApiErrors}.
Lemma UserID_reads (c : request U) : reads (UserID c) (λ _ u, Locals_userID c = Some u).
Proof. unfold UserID. destruct (Locals_userID c); [by apply reads_ret|apply reads_fail]. Qed.
Lemma handles_param {A} (c : request U) p code (k : U → M W (response A)) Q :
  (∀ id, uuid_Parse (Params c p) = Ok id → handles (k id) Q) → handles (ParseUUIDParam c p code k) Q.
Proof.
  intros Hk. unfold ParseUUIDParam. destruct (uuid_Parse (Params c p)) eqn:E; [by apply Hk|].
  by apply handles_refuse, Fail_refuses.
Qed.
Lemma handles_Bind {A B} (x : res B) (k : B → M W (response A)) Q :
  (∀ b, x = Ok b → handles (k b) Q) → handles (Bind x k) Q.
Proof. intros Hk. unfold Bind. destruct x; [by apply Hk|]. by apply handles_refuse, Fail_refuses. Qed.
End logic.
Create HintDb refuses.
Create HintDb reads.
#[export] Hint Resolve internal_refuses fail_refuses : refuses.
#[export] Hint Extern 1 (refuses (Fail_ _ _ _)) => (apply Fail_refuses; done) : refuses.
#[export] Hint Extern 2 (refuses (if ?b then _ else _)) => destruct b : refuses.
#[export] Hint Resolve reads_ret reads_fail : reads.
