(* ===== verification/MemberProofs.v ===== *)
(** * The member and role endpoints keep the rules of GuildSpec.v

    Each handler is a step of the abstract machine or changes nothing and answers an error;
    from that follow what holds after any sequence of requests. *)
From S2P Require Import Prelude GoStd Platform Permission PermCache PermInvalidate Validate Config.
From S2P Require Import Jwt Postgres Frames Domain GuildTables GuildRepo Http MemberApi GuildSpec ApiLogic.
Open Scope Z_scope.

(** The queue and the audit log are not the tables of the server. *)
Class SideFrame {U W V : Type} `{GatewayQueue W} `{AuditLog U W} (obs : W → V) : Prop := {
  gateway_Enqueue_keeps : ∀ ev p w, obs (gateway_Enqueue ev p w) = obs w;
  audit_Record_keeps : ∀ e w, obs (audit_Record e w) = obs w;
}.

(** ** The repositories *)
Section repositories.
Context {U W : Type} `{UUIDLaws U} `{!RandomUUID U} `{!UUIDOrder U} `{!MemberStatuses}.
Context `{PostgresLaws (guild U) W} `{Clock W}.
Implicit Types (d : guild U) (id t : U).
Abbreviation view := (pg_view (DB := guild U) (W := W)).

Lemma row_reads {A} (o : guild U → option A) :
  reads (DB := guild U) (W := W) (pg_query (λ d, row_or_none (o d) d)) (λ d a, o d = Some a).
Proof. apply reads_query. intros d. unfold row_or_none. by destruct (o d). Qed.

Lemma HighestPosition_reads id : reads (DB := guild U) (RoleRepo.HighestPosition (W := W) id) (λ d p, p = rank id d).
Proof.
  apply (reads_bind _ _ (λ d o, o = minimum (held_positions id d))).
  - by apply reads_wrap, reads_gets.
  - intros o. apply reads_ret. by intros d ->.
Qed.
Lemma IsOwner_reads id :
  reads (DB := guild U) (PGStore.IsOwner (W := W) id) (λ d b, b = bool_decide (owner d = Some id)).
Proof. by apply reads_wrap, reads_gets. Qed.
Lemma GetRole_reads id :
  reads (DB := guild U) (RoleRepo.GetByID (W := W) id) (λ d r, g_roles d !! id = Some r).
Proof. apply reads_map_err, row_reads. Qed.
Lemma GetByUserID_reads id :
  reads (DB := guild U) (MemberRepo.GetByUserID (W := W) id)
    (λ d _, is_member d id ∧ is_Some (g_users d !! id)).
Proof.
  apply reads_map_err. eapply reads_weaken; [apply row_reads|]. intros d m. cbn beta.
  unfold find_member, profile, is_member. destruct (g_members d !! id); [|done]. simpl.
  destruct (g_users d !! id); [|done]. simpl. eauto.
Qed.
Lemma GetStatus_reads u :
  reads (DB := guild U) (MemberRepo.GetStatus (W := W) u) (λ d s, m_status <$> g_members d !! u = Some s).
Proof. apply reads_map_err, row_reads. Qed.

(** The statements that count rows. *)
Lemma delete_member_row t d r d' :
  delete_member t d = (r, d') →
  (is_member d t ∧ r = Ok 1 ∧ d' = set_members (delete t) d) ∨ (r = Ok 0 ∧ d' = d) ∨ ∃ e, r = Err e.
Proof.
  unfold delete_member, is_member, gets, mbind, M_bind. destruct (g_members d !! t) eqn:E;
    intros [= <- <-]; [left|right; left]; eauto.
Qed.
Lemma update_member_row f t d r d' :
  update_member (λ _, true) (λ _, f) t d = (r, d') →
  (is_member d t ∧ r = Ok 1 ∧ d' = set_members (alter f t) d) ∨ (r = Ok 0 ∧ d' = d) ∨ ∃ e, r = Err e.
Proof.
  unfold update_member, is_member, gets, mbind, M_bind. destruct (g_members d !! t) as [m|] eqn:E.
  - destruct (bool_decide _); intros [= <- <-]; [right; right; eauto|left].
    split_and!; [eauto|done|]. unfold set_members. by rewrite (alter_Some _ _ _ _ E).
  - intros [= <- <-]. right. by left.
Qed.

Lemma Delete_writes t :
  writes (MemberRepo.Delete (W := W) t) (λ d d', is_member d t ∧ d' = set_members (delete t) d).
Proof. eapply writes_row; [apply delete_member_row|]. done. Qed.

Lemma alter_member d t f :
  is_member d t → ∃ m, g_members d !! t = Some m ∧ set_members (alter f t) d = set_members <[t := f m]> d.
Proof. intros [m Hm]. exists m. split; [done|]. unfold set_members. by rewrite (alter_Some _ _ _ _ Hm). Qed.

Lemma updated_writes c err f t (k : M W (Member.WithProfile U)) R :
  reads k R →
  writes (n ← wrap c (pg_query (update_member (λ _, true) (λ _, f) t));
          MemberRepo.require_row err n ;; k)
    (λ d d', ∃ m, g_members d !! t = Some m ∧ d' = set_members <[t := f m]> d).
Proof.
  intros Hk. eapply writes_row_then; [apply update_member_row| |exact Hk].
  intros d Hm. destruct (alter_member d t f Hm) as (m & Hm' & E). eauto.
Qed.
Lemma UpdateNickname_writes t n :
  writes (MemberRepo.UpdateNickname (W := W) t n)
    (λ d d', ∃ m, g_members d !! t = Some m ∧ d' = set_members <[t := set_nickname n m]> d).
Proof. eapply updated_writes, GetByUserID_reads. Qed.
Lemma ClearTimeout_writes t :
  writes (MemberRepo.ClearTimeout (W := W) t)
    (λ d d', ∃ m, g_members d !! t = Some m ∧
                  d' = set_members <[t := set_status MemberStatusActive None m]> d).
Proof. eapply updated_writes, GetByUserID_reads. Qed.
Lemma SetTimeout_writes t until :
  writes (MemberRepo.SetTimeout (W := W) t until)
    (λ d d', ∃ m, g_members d !! t = Some m ∧
                  d' = set_members <[t := set_status MemberStatusTimedOut (Some until) m]> d).
Proof.
  intros w r w' E. apply bind_inv in E as [(now & w1 & E1 & E)|(e & [=] & _)].
  unfold gets in E1. injection E1 as <- <-.
  destruct (negb _); [unfold fail in E; simplify_eq; right; eauto|].
  revert E. eapply updated_writes, GetByUserID_reads.
Qed.

Lemma unique_error_driver err ctx e :
  from_driver e → from_driver (if IsUniqueViolation e then err else Wrap ctx e).
Proof.
  intros He. unfold IsUniqueViolation, PgError. rewrite (from_driver_Is _ _ He).
  by apply from_driver_wrap.
Qed.
Ltac tx_error ::= first [apply unique_error_driver | apply on_err_driver
  | intros ?; cbv zeta; by apply unique_error_driver, from_driver_wrap].

Lemma Ban_writes t by_ reason e :
  writes (MemberRepo.Ban (W := W) t by_ reason e)
    (λ d d', g_bans d !! t = None ∧ is_Some (g_users d !! t) ∧
       d' = set_members (delete t) (set_bans <[t := mkBanRow reason (Some by_) e (g_now d)]> d)).
Proof.
  eapply writes_atomic; [intros w r w' E; eapply WithTx_atomic; [|exact E]; repeat tx_step|].
  intros d a d'. unfold insert_ban, delete_member, map_err, wrap, mbind, M_bind, gets, modify, fail, mret, M_ret.
  simpl. destruct (bool_decide_reflect (is_Some (g_bans d !! t))) as [|Hb]; [done|]. simpl.
  destruct (bool_decide_reflect (g_users d !! t = None)) as [|Hu]; [done|]. simpl.
  destruct (bool_decide (g_users d !! by_ = None)); [done|]. simpl.
  destruct (g_members d !! t) eqn:Em; intros [= _ <-];
    (split_and!; [by apply eq_None_not_Some|by apply not_eq_None_Some|]); [done|].
  unfold set_members, set_bans. simpl. by rewrite delete_id.
Qed.
Lemma Unban_writes t :
  writes (MemberRepo.Unban (W := W) t) (λ d d', is_Some (g_bans d !! t) ∧ d' = set_bans (delete t) d).
Proof.
  eapply (writes_row _ _ _ (λ d, is_Some (g_bans d !! t)) (set_bans (delete t))); [|done].
  intros d r d'. unfold delete_ban, gets, mbind, M_bind. destruct (g_bans d !! t);
    intros [= <- <-]; [left|right; left]; eauto.
Qed.
Lemma AssignRole_writes t id :
  writes (MemberRepo.AssignRole (W := W) t id)
    (λ d d', is_Some (g_users d !! t) ∧ d' = set_member_roles (union {[(t, id)]}) d).
Proof.
  apply writes_query; [intros e; apply unique_error_driver|]. intros d a d'.
  unfold insert_member_role, gets, mbind, M_bind, fail, modify.
  destruct (bool_decide _); [done|].
  destruct (bool_decide_reflect (g_users d !! t = None)) as [|Hu]; [done|]. simpl.
  destruct (bool_decide _); [done|]. intros [= _ <-]. split; [|done]. by apply not_eq_None_Some.
Qed.
Lemma RemoveRole_writes t id :
  writes (MemberRepo.RemoveRole (W := W) t id)
    (λ d d', d' = set_member_roles (λ s, s ∖ {[(t, id)]}) d).
Proof.
  eapply (writes_row _ _ _ (λ _, True) (set_member_roles (λ s, s ∖ {[(t, id)]}))); [|done].
  intros d r d'. unfold delete_member_role, gets, mbind, M_bind. destruct (bool_decide _);
    intros [= <- <-]; [left|right; left]; eauto.
Qed.

Lemma encode_int4_Ok v d u d' :
  encode_int4 (U := U) v d = (Ok u, d') → d' = d ∧ ∀ n, v = Some n → in_int4 n = true.
Proof.
  unfold encode_int4. destruct v as [n|]; [destruct (in_int4 n) eqn:E|]; intros [= <-];
    (split; [done|]); intros m [= <-]; done.
Qed.

Lemma CreateRole_writes p max :
  writes (RoleRepo.Create (W := W) p max) (λ d d', ∃ id n r,
    g_roles d !! id = None ∧ Role.ID r = id ∧ Role.Position r = max_position d + 1 ∧
    in_int4 (Role.Position r) = true ∧ ¬ role_taken id (Role.Name r) (Role.Position r) d ∧
    Role.IsEveryone r = false ∧ Role.Permissions r = RoleRepo.cp_Permissions p ∧
    Z.of_nat (size (g_roles d)) < max ∧ d' = set_roles <[id := r]> (set_seq n d)).
Proof.
  eapply writes_atomic; [intros w r w' E; eapply WithTx_atomic; [|exact E]; repeat tx_step|].
  intros d a d'. unfold map_err, wrap, count_roles, gets. unfold mbind at 1, M_bind at 1. simpl.
  destruct (Z.leb_spec max (Z.of_nat (size (g_roles d)))) as [|Hmax]; [done|].
  destruct (insert_role _ _ _ _ d) as [[r|e] d1] eqn:E; intros [= <- <-]. unfold insert_role in E.
  apply bind_Ok_inv in E as (u & d2 & E1 & E). apply encode_int4_Ok in E1 as [-> _].
  unfold next_id, gets, mbind, M_bind, modify, mret, M_ret, fail in E. simpl in E.
  set (id := gen_random_uuid (g_seq d)) in *. set (n := S (g_seq d)) in *.
  change (max_position (set_seq n d)) with (max_position d) in E.
  destruct (in_int4 (max_position d + 1)) eqn:Hi; [|done]. simpl in E.
  destruct (bool_decide_reflect (is_Some (g_roles d !! id))) as [|Hn]; [done|]. simpl in E.
  destruct (bool_decide_reflect (role_taken id (RoleRepo.cp_Name p) (max_position d + 1) (set_seq n d))) as [|Ht]; [done|].
  injection E as <- <-. eexists id, n, _. split_and!; try reflexivity; try done.
  by apply eq_None_not_Some.
Qed.

Lemma UpdateRole_writes id p :
  writes (RoleRepo.Update (W := W) id p) (λ d d', d' = d ∨ ∃ r, g_roles d !! id = Some r ∧
    (∀ q, rp_Position p = Some q → in_int4 q = true) ∧
    ¬ role_taken id (coalesce (rp_Name p) (Role.Name r)) (coalesce (rp_Position p) (Role.Position r)) d ∧
    d' = set_roles <[id := set_role p (g_now d) r]> d).
Proof.
  unfold RoleRepo.Update. destruct (RoleRepo.no_update p).
  { intros w r w' E. apply GetRole_reads in E as [-> _]. left. by left. }
  apply writes_query.
  { intros e He. unfold RoleRepo.update_error. unfold ErrNoRows. rewrite (from_driver_Is _ _ (from_driver_wrap _ _ He)).
    by apply unique_error_driver, from_driver_wrap. }
  intros d a d' E. right. unfold update_role in E.
  apply bind_Ok_inv in E as (u & d1 & E1 & E). apply encode_int4_Ok in E1 as [-> _].
  apply bind_Ok_inv in E as (u' & d1 & E1 & E). apply encode_int4_Ok in E1 as [-> Hq].
  unfold gets, mbind, M_bind, row_or_none, modify, mret, M_ret, fail in E. simpl in E.
  destruct (g_roles d !! id) as [r|] eqn:Er; [|done].
  destruct (bool_decide_reflect (role_taken id (coalesce (rp_Name p) (Role.Name r))
    (coalesce (rp_Position p) (Role.Position r)) d)) as [|Ht].
  - done.
  - exists r. split_and!; [done..|]. by injection E as _ <-.
Qed.

Lemma DeleteRole_writes id :
  writes (RoleRepo.Delete (W := W) id) (λ d d', ∃ r, g_roles d !! id = Some r ∧
    Role.IsEveryone r = false ∧ d' = drop_role id d).
Proof.
  intros w r w' E. apply bind_inv in E as [(n & w1 & E1 & E)|(e & E1 & ->)]; apply wrap_inv in E1 as (r1 & E1 & Hr).
  - destruct r1; [|done]. injection Hr as <-. apply pg_query_atomic, atomic_Ok in E1.
    unfold delete_role, gets, mbind, M_bind in E1. simpl in E1.
    destruct (g_roles (view w) !! id) as [r0|] eqn:Er; [destruct (Role.IsEveryone r0) eqn:He|].
    2:{ unfold modify in E1. injection E1 as <- Hv. unfold mret, M_ret in E. simpl in E. injection E as _ <-.
        left. exists r0. rewrite <-Hv. eauto. }
    all: injection E1 as <- Hv; simpl in E; right;
      apply bind_inv in E as [(x & w2 & E2 & E)|(e & E2 & _)]; apply try_inv in E2 as (x0 & Hx & E2); [|done];
      injection Hx as ->; apply row_reads in E2 as [Hv2 _]; destruct x0; unfold fail in E;
      injection E as <- <-; (split; [congruence|eauto]).
  - destruct r1 as [|e1]; [done|]. injection Hr as ->.
    apply pg_query_atomic in E1 as [(d & Hd & Hv)|(e2 & _ & _ & [Hv|(a & d & Hd & Hv)])]; [right; eauto..|].
    unfold delete_role, gets, mbind, M_bind in Hd. simpl in Hd.
    destruct (g_roles (view w) !! id) as [r0|] eqn:Er; [destruct (Role.IsEveryone r0) eqn:He|];
      injection Hd as _ <-; [right; eauto|left; exists r0|right; eauto].
    by rewrite Hv.
Qed.
End repositories.

(** ** The endpoints *)
Section endpoints.
Context {U W : Type} `{UUIDLaws U} `{!RandomUUID U} `{!UUIDOrder U} `{!MemberStatuses}.
Context `{PostgresLaws (guild U) W} `{Clock W} `{PermissionLib} `{Valkey W}.
Context `{!Codec (InvalidationMessage U)} `{!Codec (gmap string string)}.
Context `{GatewayQueue W} `{AuditLog U W} `{EventNames} `{ApiErrors} `{TimeFormat} `{TimeParse}.
Context `{!ValkeyFrame (pg_view (DB := guild U) (W := W))} `{!SideFrame (pg_view (DB := guild U) (W := W))}.
Implicit Types (h : handler) (c : request U) (d : guild U) (id t : U).
Abbreviation view := (pg_view (DB := guild U) (W := W)).

(** What follows a write: events, audit, cache invalidation. *)
Lemma when_keeps b (m : M W unit) : keeps view m → keeps view (when b m).
Proof. intros Hm. unfold when. destruct b; [done|apply keeps_ret]. Qed.
Lemma enqueue_keeps h ev p : keeps view (enqueue_event h ev p).
Proof. apply when_keeps. intros w. apply gateway_Enqueue_keeps. Qed.
Lemma publishUpdate_keeps h m : keeps view (MemberHandler.publishMemberUpdate h m).
Proof. apply enqueue_keeps. Qed.
Lemma record_keeps h (e : Audit.Entry U) : keeps view (record_audit h e).
Proof. apply when_keeps. intros w. apply audit_Record_keeps. Qed.
Lemma invalidate_keeps h id : keeps view (MemberHandler.invalidateUser h id).
Proof. apply when_keeps, keeps_best_effort. unfold InvalidateUser, PermInvalidate.publish. keeps. Qed.
Lemma invalidateAll_keeps h : keeps view (RoleHandler.invalidateAll (U := U) h).
Proof. apply when_keeps, keeps_best_effort. unfold InvalidateAll, PermInvalidate.publish. keeps. Qed.
Lemma GetByUserID_keeps id : keeps view (MemberRepo.GetByUserID id).
Proof. eapply reads_keeps, GetByUserID_reads. Qed.
Lemma catch_keeps {A B} (m : M W A) f (k : A → M W B) :
  keeps view m → (∀ e, keeps view (f e)) → (∀ a, keeps view (k a)) → keeps view (catch m f k).
Proof.
  intros Hm Hf Hk w. unfold catch. specialize (Hm w). destruct (m w) as [[a|e] w1]; simpl in *;
    [rewrite (Hk a w1)|rewrite (Hf e w1)]; done.
Qed.
Lemma refuses_keeps {A} (m : M W (response A)) : refuses m → keeps view m.
Proof. intros Hm w. destruct (m w) as [r w'] eqn:E. by apply Hm in E as [? _]. Qed.
Hint Resolve enqueue_keeps publishUpdate_keeps record_keeps invalidate_keeps invalidateAll_keeps GetByUserID_keeps : keeps.

Lemma mapMemberError_refuses {A} e : refuses (MemberHandler.mapMemberError (A := A) (W := W) e).
Proof. unfold MemberHandler.mapMemberError. auto 20 with refuses. Qed.
Lemma mapGuardError_refuses {A} e : refuses (MemberHandler.mapGuardError (A := A) (W := W) e).
Proof. unfold MemberHandler.mapGuardError. auto 20 with refuses. Qed.
Lemma mapRoleError_refuses {A} e : refuses (RoleHandler.mapRoleError (A := A) (W := W) e).
Proof. unfold RoleHandler.mapRoleError. auto 20 with refuses. Qed.
Hint Resolve mapMemberError_refuses mapGuardError_refuses mapRoleError_refuses : refuses.

Lemma checkHierarchy_reads caller t :
  reads (DB := guild U) (MemberHandler.checkHierarchy (W := W) caller t) (λ d _, outranks d caller t).
Proof.
  apply (reads_bind _ _ (λ d p, p = rank caller d)); [by apply reads_wrap, HighestPosition_reads|].
  intros p. apply (reads_bind _ _ (λ d q, q = rank t d)); [by apply reads_wrap, HighestPosition_reads|].
  intros q. destruct (Z.leb_spec q p); [apply reads_fail|]. apply reads_ret.
  intros d -> ->. done.
Qed.
Lemma checkNotOwner_reads t :
  reads (DB := guild U) (MemberHandler.checkNotOwner (W := W) t) (λ d _, owner d ≠ Some t).
Proof.
  apply (reads_bind _ _ (λ d b, b = bool_decide (owner d = Some t))); [by apply reads_wrap, IsOwner_reads|].
  intros []; [apply reads_fail|]. apply reads_ret. intros d Hb. by apply eq_sym, bool_decide_eq_false in Hb.
Qed.
Lemma nickname_reads n :
  reads (DB := guild U) (W := W) (of_res (Validate.Member.ValidateNickname n)) (λ _ _, True).
Proof. by apply reads_of_res. Qed.

(** The shape of a request to a handler: who asks. *)
Definition by_caller c (S : U → guild U → guild U → Prop) d d' : Prop :=
  ∃ caller, Locals_userID c = Some caller ∧ S caller d d'.
Abbreviation steps c := (by_caller c guild_step).

Ltac api :=
  repeat first
    [ apply handles_param; intros ? ?
    | apply handles_Bind; intros ? ?
    | eapply handles_read; [apply checkNotOwner_reads|by auto with refuses|intros ?]
    | eapply handles_read; [apply checkHierarchy_reads|by auto with refuses|intros ?]
    | eapply handles_read; [apply nickname_reads|by auto with refuses|intros ?]
    | eapply handles_read; [apply GetByUserID_reads|by auto with refuses|intros ?]
    | eapply handles_bind; [apply UserID_reads|intros ?] ].
(** The write of a handler, and what follows it. *)
Ltac api_write lem :=
  eapply handles_write; [apply lem|by auto with refuses|intros ?; keeps|].

Lemma Leave_steps h c : handles (MemberHandler.Leave h c) (steps c).
Proof.
  unfold MemberHandler.Leave. api. api_write Delete_writes.
  intros d d' [Hm ->] Ho Hc. eexists. split; [done|]. by constructor.
Qed.
Lemma Kick_steps h c : handles (MemberHandler.KickMember h c) (steps c).
Proof.
  unfold MemberHandler.KickMember. api. api_write Delete_writes.
  intros d d' [Hm ->] Hr Ho Hc. eexists. split; [done|]. by apply step_kick.
Qed.
Lemma UpdateSelf_steps h c b : handles (MemberHandler.UpdateSelf h c b) (steps c).
Proof.
  unfold MemberHandler.UpdateSelf. api. api_write UpdateNickname_writes.
  intros d d' (m & Hm & ->) _ Hc. eexists. split; [done|]. apply step_nickname; [done|by left].
Qed.
Lemma UpdateMember_steps h c b : handles (MemberHandler.UpdateMember h c b) (steps c).
Proof.
  unfold MemberHandler.UpdateMember. api. api_write UpdateNickname_writes.
  intros d d' (m & Hm & ->) Hr _ Hc. eexists. split; [done|]. apply step_nickname; [done|by right].
Qed.
Lemma SetTimeout_steps h c b : handles (MemberHandler.SetTimeout h c b) (steps c).
Proof.
  unfold MemberHandler.SetTimeout. api.
  destruct (time_Parse _) as [until|]; [|by apply handles_refuse; auto with refuses].
  eapply handles_bind; [by apply (reads_world _ (λ _ _, True))|]. intros now.
  destruct (negb _); [by apply handles_refuse; auto with refuses|]. api. api_write SetTimeout_writes.
  intros d d' (m & Hm & ->) Hr Ho _ Hc. eexists. split; [done|]. by apply step_timeout.
Qed.
Lemma ClearTimeout_steps h c : handles (MemberHandler.ClearTimeout h c) (steps c).
Proof.
  unfold MemberHandler.ClearTimeout. api. api_write ClearTimeout_writes.
  intros d d' (m & Hm & ->) Hc. eexists. split; [done|]. by apply step_clear_timeout.
Qed.
Lemma Ban_steps h c b : handles (MemberHandler.BanMember h c b) (steps c).
Proof.
  unfold MemberHandler.BanMember. api.
  match goal with |- handles (match ?x with _ => _ end) _ => destruct x as [e|e] end;
    [|by apply handles_refuse; auto with refuses].
  api. api_write Ban_writes.
  intros d d' (Hb & Hu & ->) Hr Ho Hc. eexists. split; [done|]. by apply step_ban.
Qed.
Lemma Unban_steps h c : handles (MemberHandler.UnbanMember h c) (steps c).
Proof.
  unfold MemberHandler.UnbanMember. api. api_write Unban_writes.
  intros d d' [Hb ->] Hc. eexists. split; [done|]. by apply step_unban.
Qed.

Lemma lower_role_handles {A} caller id verb (k : M W (response A)) Q :
  handles k (λ d d', ∀ r, g_roles d !! id = Some r → Role.IsEveryone r = false →
                          rank caller d < Role.Position r → Q d d') →
  handles (MemberHandler.with_lower_role caller id verb k) Q.
Proof.
  intros Hk. eapply handles_read; [apply GetRole_reads|intros e; destruct (errors_Is e _); auto with refuses|].
  intros r. destruct (Role.IsEveryone r) eqn:He; [apply handles_refuse; auto with refuses|].
  eapply handles_read; [apply HighestPosition_reads|by auto with refuses|]. intros p.
  destruct (Z.leb_spec (Role.Position r) p); [apply handles_refuse; auto with refuses|].
  eapply handles_weaken; [exact Hk|]. intros d d' HQ -> Hr. by apply (HQ r).
Qed.

Lemma AssignRole_steps h c : handles (MemberHandler.AssignRole h c) (steps c).
Proof.
  unfold MemberHandler.AssignRole. api. apply lower_role_handles. api.
  eapply handles_write; [apply AssignRole_writes|by auto with refuses|intros ?; keeps|].
  - apply catch_keeps; [by keeps|intros e; apply refuses_keeps; by auto with refuses|by intros ?; keeps].
  - intros d d' (Hu & ->) [Hm _] r Hr He Hrk Hc. eexists. split; [done|]. by eapply step_assign.
Qed.
Lemma RemoveRole_steps h c : handles (MemberHandler.RemoveRole h c) (steps c).
Proof.
  unfold MemberHandler.RemoveRole. api. apply lower_role_handles.
  eapply handles_write; [apply RemoveRole_writes|by auto with refuses|intros ?; keeps|].
  - apply when_keeps. keeps.
  - intros d d' -> r Hr He Hrk Hc. eexists. split; [done|]. by eapply step_unassign.
Qed.

Lemma valid_reads {A} (x : res A) (P : A → Prop) :
  (∀ a, x = Ok a → P a) → reads (DB := guild U) (W := W) (of_res x) (λ _ a, P a).
Proof. intros HP. apply reads_of_res. auto. Qed.

Lemma CreateRole_steps h c b : handles (RoleHandler.CreateRole h c b) (steps c).
Proof.
  unfold RoleHandler.CreateRole. api.
  do 3 (eapply handles_read; [by apply (valid_reads _ (λ _, True))|by auto with refuses|intros ?]).
  api_write CreateRole_writes.
  intros d d' (id & n & r & Hn & Hid & Hp & Hi & Ht & He & _ & _ & ->) _ _ _ Hc.
  eexists. split; [done|]. by apply step_create_role.
Qed.

Lemma target_below_handles {A} caller id msg (k : Role.Role U → Z → M W (response A)) Q :
  (∀ r p, p < Role.Position r →
     handles (k r p) (λ d d', p = rank caller d → g_roles d !! id = Some r → Q d d')) →
  handles (RoleHandler.with_target_below caller id msg k) Q.
Proof.
  intros Hk. eapply handles_read; [apply GetRole_reads|by auto with refuses|]. intros r.
  eapply handles_read; [apply HighestPosition_reads|by auto with refuses|]. intros p.
  destruct (Z.leb_spec (Role.Position r) p); [apply handles_refuse; auto with refuses|]. by apply Hk.
Qed.

Lemma ValidatePosition_Ok p u : Validate.Role.ValidatePosition p = Ok u → ∀ q, p = Some q → 0 ≤ q.
Proof. intros E q ->. unfold Validate.Role.ValidatePosition, opt_check in E. destruct (Z.ltb_spec q 0); [done|lia]. Qed.

Lemma UpdateRole_steps h c b :
  handles (RoleHandler.UpdateRole h c b) (λ d d', d' = d ∨ steps c d d').
Proof.
  unfold RoleHandler.UpdateRole. api.
  eapply handles_read; [by apply (valid_reads _ (λ _, True))|by auto with refuses|intros name].
  match goal with |- context [Validate.Role.ValidatePosition ?pos] =>
    eapply handles_read; [exact (valid_reads _ (λ _, ∀ q, pos = Some q → 0 ≤ q) (ValidatePosition_Ok pos))
                         |by auto with refuses|intros ?]
  end.
  do 2 (eapply handles_read; [by apply (valid_reads _ (λ _, True))|by auto with refuses|intros ?]).
  apply target_below_handles. intros r p Hp.
  destruct (match ur_Position _ with Some _ => _ | None => _ end) eqn:Epos; [apply handles_refuse; auto with refuses|].
  destruct (Role.IsEveryone r && bool_decide (is_Some name)) eqn:Ee; [apply handles_refuse; auto with refuses|].
  api_write UpdateRole_writes.
  intros d d' [->|(r' & Hr' & Hq & Ht & ->)] -> Hr _ _ Hpos _ Hc; [by left|right]. simplify_eq.
  eexists. split; [done|]. apply step_update_role; [done|done| |simpl|done].
  - simpl. intros q Eq. rewrite Eq in Epos. split_and!; [|by apply Hpos|by apply Hq].
    by apply Z.leb_gt.
  - intros He. rewrite He in Ee. simpl in Ee. apply bool_decide_eq_false in Ee.
    by apply eq_None_not_Some.
Qed.
Lemma DeleteRole_steps h c : handles (RoleHandler.DeleteRole h c) (steps c).
Proof.
  unfold RoleHandler.DeleteRole. api. apply target_below_handles. intros r p Hp.
  api_write DeleteRole_writes.
  intros d d' (r' & Hr' & He & ->) -> Hr Hc. simplify_eq. eexists. split; [done|]. by eapply step_delete_role.
Qed.
End endpoints.
