(* ===== verification/UserDB.v ===== *)
(** * The user repository: internal/user/repository.go

    The tables the repository writes (users, email_verifications, mfa_recovery_codes,
    login_attempts, deletion_tombstones), its SQL statements as programs on them, and the
    operations of PGRepository.  [NOW()] is the instant of the tables, [gen_random_uuid()] the
    next of a supply of identifiers.  Rows keep their storage order; columns and tables the
    repository does not touch are left out, except the owner column of server_config, whose
    foreign key refuses the deletion of its user. *)
From S2P Require Import Prelude GoStd Platform Postgres Domain.
Open Scope Z_scope.

Definition ErrNotFound : error := Sentinel "user.ErrNotFound".
Definition ErrAlreadyExists : error := Sentinel "user.ErrAlreadyExists".
Definition ErrInvalidToken : error := Sentinel "user.ErrInvalidToken".
Definition ErrVerificationCooldown : error := Sentinel "user.ErrVerificationCooldown".

(** A time.Time that was never set. *)
Definition time_Zero : Z := -62135596800 * Second.

(** ** Tables *)
Section tables.
Context {U : Type} `{UUIDLib U} `{RandomUUID U}.

(** A row of users holds what Credentials holds. *)
Abbreviation Row := (User.Credentials U).
Definition row_ID (u : Row) : U := User.ID (User.cred_User u).

Record verification := mkVerification {
  v_user : U; v_token : string; v_expires : Z; v_consumed : option Z; v_created : Z }.
Record code_row := mkCode {
  c_id : U; c_user : U; c_hash : string; c_used : option Z }.
Record attempt := mkAttempt {
  a_email : string; a_ip : string; a_success : bool; a_created : Z }.
Record tombstone_row := mkTombRow {
  t_type : string; t_hash : string; t_created : Z }.

Record tables := mkTables {
  db_now : Z;
  db_seq : nat;
  users : gmap U Row;
  email_verifications : list verification;
  mfa_recovery_codes : list code_row;
  login_attempts : list attempt;
  deletion_tombstones : list tombstone_row;
  server_owner : option U;
}.

(** Writing one table. *)
Definition set_users (f : gmap U Row → gmap U Row) (d : tables) : tables :=
  mkTables (db_now d) (db_seq d) (f (users d)) (email_verifications d) (mfa_recovery_codes d)
    (login_attempts d) (deletion_tombstones d) (server_owner d).
Definition set_verifications f (d : tables) : tables :=
  mkTables (db_now d) (db_seq d) (users d) (f (email_verifications d)) (mfa_recovery_codes d)
    (login_attempts d) (deletion_tombstones d) (server_owner d).
Definition set_codes f (d : tables) : tables :=
  mkTables (db_now d) (db_seq d) (users d) (email_verifications d) (f (mfa_recovery_codes d))
    (login_attempts d) (deletion_tombstones d) (server_owner d).
Definition set_attempts f (d : tables) : tables :=
  mkTables (db_now d) (db_seq d) (users d) (email_verifications d) (mfa_recovery_codes d)
    (f (login_attempts d)) (deletion_tombstones d) (server_owner d).
Definition set_tombstones f (d : tables) : tables :=
  mkTables (db_now d) (db_seq d) (users d) (email_verifications d) (mfa_recovery_codes d)
    (login_attempts d) (f (deletion_tombstones d)) (server_owner d).
Definition next_uuid : M tables U := λ d,
  (Ok (gen_random_uuid (db_seq d)),
   mkTables (db_now d) (S (db_seq d)) (users d) (email_verifications d) (mfa_recovery_codes d)
     (login_attempts d) (deletion_tombstones d) (server_owner d)).
Definition tables_now : M tables tables := gets (λ d, d).

(** ** Statements *)

(** users has the unique columns id, email and username. *)
Definition conflicts (email username : string) (id : U) (d : tables) : Prop :=
  is_Some (users d !! id) ∨
  map_Exists (λ _ u, User.Email (User.cred_User u) = email ∨
                     User.Username (User.cred_User u) = username) (users d).
#[global] Instance conflicts_dec e n id d : Decision (conflicts e n id d).
Proof. unfold conflicts. apply _. Defined.

Definition insert_user (email username hash : string) : M tables U :=
  id ← next_uuid;
  d ← tables_now;
  if decide (conflicts email username id d) then fail (PgError codeUniqueViolation)
  else
    modify (set_users <[id := User.mkCredentials
      (User.mkUser id email username None None None None None None None false false (db_now d))
      hash None]>) ;;
    mret id.

(** email_verifications.token is unique, user_id references users. *)
Definition insert_verification (userID : U) (token : string) (expires : Z) : M tables unit :=
  d ← tables_now;
  if bool_decide (Exists (λ v, v_token v = token) (email_verifications d)) then
    fail (PgError codeUniqueViolation)
  else if bool_decide (users d !! userID = None) then fail (PgError codeForeignKeyViolation)
  else modify (set_verifications (λ l, l ++ [mkVerification userID token expires None (db_now d)])).

(** SELECT ... FROM users WHERE ... into one row. *)
Definition query_row (o : tables → option Row) : M tables Row := λ d,
  match o d with Some u => (Ok u, d) | None => (Err ErrNoRows, d) end.
Definition by_id (id : U) (d : tables) : option Row := users d !! id.
Definition by_email (email : string) (d : tables) : option Row :=
  snd <$> head (map_to_list (filter (λ p, User.Email (User.cred_User p.2) = email) (users d))).

(** The columns of the two selections; selectCredentialsColumns has no created_at. *)
Definition scanUser (u : Row) : User.User U := User.cred_User u.
Definition scanCredentials (c : Row) : Row :=
  let u := User.cred_User c in
  User.mkCredentials
    (User.mkUser (User.ID u) (User.Email u) (User.Username u) (User.DisplayName u)
       (User.AvatarKey u) (User.Pronouns u) (User.BannerKey u) (User.About u)
       (User.ThemeColourPrimary u) (User.ThemeColourSecondary u) (User.MFAEnabled u)
       (User.EmailVerified u) time_Zero)
    (User.PasswordHash c) (User.MFASecret c).

(** UPDATE users SET ... WHERE id = $1 *)
Definition update_user (f : Row → Row) (id : U) : M tables unit :=
  modify (set_users (alter f id)).
Definition update_returning (f : Row → Row) (id : U) : M tables Row :=
  update_user f id ;; query_row (by_id id).
Definition upd_identity (f : User.User U → User.User U) (c : Row) : Row :=
  User.mkCredentials (f (User.cred_User c)) (User.PasswordHash c) (User.MFASecret c).
Definition upd_flags (mfa verified : bool) (u : User.User U) : User.User U :=
  User.mkUser (User.ID u) (User.Email u) (User.Username u) (User.DisplayName u)
    (User.AvatarKey u) (User.Pronouns u) (User.BannerKey u) (User.About u)
    (User.ThemeColourPrimary u) (User.ThemeColourSecondary u) mfa verified (User.CreatedAt u).
Definition set_email_verified (c : Row) : Row :=
  upd_identity (λ u, upd_flags (User.MFAEnabled u) true u) c.
Definition set_password_hash (hash : string) (c : Row) : Row :=
  User.mkCredentials (User.cred_User c) hash (User.MFASecret c).
Definition set_mfa (secret : option string) (enabled : bool) (c : Row) : Row :=
  let u := User.cred_User c in
  User.mkCredentials (upd_flags enabled (User.EmailVerified u) u) (User.PasswordHash c) secret.

(** COALESCE($1, column) *)
Definition coalesce {A} (p v : option A) : option A := match p with Some _ => p | None => v end.
Record UpdateParams := mkUpdateParams {
  up_DisplayName : option string; up_Pronouns : option string; up_About : option string;
  up_ThemeColourPrimary : option Z; up_ThemeColourSecondary : option Z }.
Definition set_profile (p : UpdateParams) (u : User.User U) : User.User U :=
  User.mkUser (User.ID u) (User.Email u) (User.Username u)
    (coalesce (up_DisplayName p) (User.DisplayName u)) (User.AvatarKey u)
    (coalesce (up_Pronouns p) (User.Pronouns u)) (User.BannerKey u)
    (coalesce (up_About p) (User.About u))
    (coalesce (up_ThemeColourPrimary p) (User.ThemeColourPrimary u))
    (coalesce (up_ThemeColourSecondary p) (User.ThemeColourSecondary u))
    (User.MFAEnabled u) (User.EmailVerified u) (User.CreatedAt u).
Definition set_keys (avatar banner : option string) (u : User.User U) : User.User U :=
  User.mkUser (User.ID u) (User.Email u) (User.Username u) (User.DisplayName u) avatar
    (User.Pronouns u) banner (User.About u) (User.ThemeColourPrimary u)
    (User.ThemeColourSecondary u) (User.MFAEnabled u) (User.EmailVerified u)
    (User.CreatedAt u).

(** UPDATE email_verifications SET consumed_at = NOW() WHERE p, and the rows it changed. *)
Definition consume (now : Z) (v : verification) : verification :=
  mkVerification (v_user v) (v_token v) (v_expires v) (Some now) (v_created v).
Definition consume_where (p : Z → verification → bool) : M tables (list U) :=
  d ← tables_now;
  let hit := p (db_now d) in
  modify (set_verifications (fmap (λ v, if hit v then consume (db_now d) v else v))) ;;
  mret (v_user <$> filter (λ v, hit v = true) (email_verifications d)).
Definition unconsumed (v : verification) : bool :=
  match v_consumed v with None => true | Some _ => false end.
Definition usable (token : string) (now : Z) (v : verification) : bool :=
  bool_decide (v_token v = token) && unconsumed v && (now <? v_expires v).
Definition pending_of (userID : U) (now : Z) (v : verification) : bool :=
  bool_decide (v_user v = userID) && unconsumed v.
Definition consume_token (token : string) : M tables U :=
  ids ← consume_where (usable token);
  match ids with id :: _ => mret id | [] => fail ErrNoRows end.

(** SELECT EXISTS(... created_at > NOW() - $2) *)
Definition recent_exists (userID : U) (cooldown : Z) : M tables bool :=
  d ← tables_now;
  mret (bool_decide (Exists (λ v, pending_of userID (db_now d) v = true ∧
                                  db_now d - cooldown < v_created v) (email_verifications d))).

Definition insert_attempt (email ip : string) (success : bool) : M tables unit :=
  d ← tables_now; modify (set_attempts (λ l, l ++ [mkAttempt email ip success (db_now d)])).

(** COPY mfa_recovery_codes (user_id, code_hash) *)
Definition insert_code (userID : U) (hash : string) : M tables unit :=
  id ← next_uuid;
  d ← tables_now;
  if bool_decide (Exists (λ c, c_id c = id) (mfa_recovery_codes d)) then
    fail (PgError codeUniqueViolation)
  else if bool_decide (users d !! userID = None) then fail (PgError codeForeignKeyViolation)
  else modify (set_codes (λ l, l ++ [mkCode id userID hash None])).
Definition copy_codes (userID : U) (hashes : list string) : M tables unit :=
  for_each hashes (insert_code userID).
Definition delete_codes (userID : U) : M tables unit :=
  modify (set_codes (filter (λ c, c_user c ≠ userID))).
Definition select_unused (userID : U) : M tables (list (User.MFARecoveryCode U)) :=
  gets (λ d, (λ c, User.mkMFARecoveryCode (c_id c) (c_hash c)) <$>
             filter (λ c, c_user c = userID ∧ c_used c = None) (mfa_recovery_codes d)).
Definition mark_used (codeID : U) : M tables unit :=
  d ← tables_now;
  modify (set_codes (fmap (λ c, if decide (c_id c = codeID)
                                then mkCode (c_id c) (c_user c) (c_hash c) (Some (db_now d))
                                else c))).

(** INSERT INTO deletion_tombstones ... ON CONFLICT DO NOTHING, under its CHECK. *)
Definition is_tombstone (type hash : string) (t : tombstone_row) : Prop :=
  t_type t = type ∧ t_hash t = hash.
#[global] Instance is_tombstone_dec type hash t : Decision (is_tombstone type hash t).
Proof. unfold is_tombstone. apply _. Defined.
Definition insert_tombstone (t : User.Tombstone) : M tables unit :=
  let type := User.IdentifierType t in
  d ← tables_now;
  if bool_decide (type ∉ ["email"; "username"]%string) then fail (PgError "23514")
  else if bool_decide (Exists (is_tombstone type (User.HMACHash t)) (deletion_tombstones d)) then mret tt
  else modify (set_tombstones (λ l, l ++ [mkTombRow type (User.HMACHash t) (db_now d)])).
Definition select_tombstone (type hash : string) : M tables bool :=
  gets (λ d, bool_decide (Exists (is_tombstone type hash) (deletion_tombstones d))).

(** DELETE FROM users WHERE id = $1: the rows of the other tables that reference the user go
    with it; the owner of the server cannot be deleted. *)
Definition drop_user (id : U) (d : tables) : tables :=
  set_users (delete id)
    (set_verifications (filter (λ v, v_user v ≠ id))
       (set_codes (filter (λ c, c_user c ≠ id)) d)).
Definition delete_user (id : U) : M tables Z :=
  d ← tables_now;
  if bool_decide (users d !! id = None) then mret 0
  else if bool_decide (server_owner d = Some id) then fail (PgError codeForeignKeyViolation)
  else modify (drop_user id) ;; mret 1.

(** DELETE ... WHERE ctid IN (SELECT ctid ... WHERE created_at < $1 LIMIT $2): the first rows
    that satisfy [old], at most [limit] of them. *)
Fixpoint delete_first {A} (old : A → bool) (limit : nat) (l : list A) : list A * nat :=
  match l with
  | [] => ([], O)
  | x :: l' =>
      if old x then
        match limit with
        | O => (x :: l', O)
        | S n => let '(l1, k) := delete_first old n l' in (l1, S k)
        end
      else let '(l1, k) := delete_first old limit l' in (x :: l1, k)
  end.
Definition delete_old_attempts (olderThan : Z) (limit : nat) : M tables Z := λ d,
  let '(l, n) := delete_first (λ a, a_created a <? olderThan) limit (login_attempts d) in
  (Ok (Z.of_nat n), set_attempts (λ _, l) d).
Definition delete_old_tombstones (olderThan : Z) (limit : nat) : M tables Z := λ d,
  let '(l, n) := delete_first (λ t, t_created t <? olderThan) limit (deletion_tombstones d) in
  (Ok (Z.of_nat n), set_tombstones (λ _, l) d).
End tables.
Arguments tables U {_}.
Arguments verification U : clear implicits.
Arguments code_row U : clear implicits.

(** ** PGRepository *)
Section repository.
Context {U W : Type} `{UUIDLib U} `{RandomUUID U} `{Postgres (tables U) W}.

Definition Create (params : User.CreateParams) : M W U :=
  WithTx (tables U) (
    userID ← map_err (λ err, if IsUniqueViolation err then ErrAlreadyExists
                             else Wrap "insert user" err)
               (tx_query (insert_user (User.cp_Email params) (User.cp_Username params)
                            (User.cp_PasswordHash params)));
    (if bool_decide (User.cp_VerifyToken params = ""%string) then mret tt
     else wrap "insert email verification"
            (tx_query (insert_verification userID (User.cp_VerifyToken params)
                         (User.cp_VerifyExpiry params)))) ;;
    mret userID).

Definition not_found (ctx : string) (err : error) : error := on_err ErrNoRows ErrNotFound ctx err.

(** [scanUser] and [scanCredentials] wrap the error of [Scan]. *)
Definition query_user (ctx : string) (q : M (tables U) (User.Credentials U)) : M W (User.User U) :=
  map_err (λ e, not_found ctx (Wrap "scan user" e)) (u ← pg_query q; mret (scanUser u)).
Definition query_credentials (ctx : string) (q : M (tables U) (User.Credentials U)) :
    M W (User.Credentials U) :=
  map_err (λ e, not_found ctx (Wrap "scan credentials" e)) (c ← pg_query q; mret (scanCredentials c)).

Definition GetByID (id : U) : M W (User.User U) :=
  query_user "query user by id" (query_row (by_id id)).
Definition GetByEmail (email : string) : M W (User.Credentials U) :=
  query_credentials "query user by email" (query_row (by_email email)).
Definition GetCredentialsByID (id : U) : M W (User.Credentials U) :=
  query_credentials "query credentials by id" (query_row (by_id id)).

Definition VerifyEmail (token : string) : M W U :=
  WithTx (tables U) (
    userID ← map_err (on_err ErrNoRows ErrInvalidToken "consume verification token")
               (tx_query (consume_token token));
    wrap "update email_verified" (tx_query (update_user set_email_verified userID)) ;;
    mret userID).

Definition ReplaceVerificationToken (userID : U) (token : string) (expiresAt cooldown : Z) :
    M W unit :=
  WithTx (tables U) (
    recentExists ← wrap "check verification cooldown" (tx_query (recent_exists userID cooldown));
    if recentExists : bool then fail ErrVerificationCooldown
    else
      wrap "invalidate existing verification tokens"
        (tx_query (consume_where (pending_of userID))) ;;
      wrap "insert verification token" (tx_query (insert_verification userID token expiresAt))).

Definition RecordLoginAttempt (email ipAddress : string) (success : bool) : M W unit :=
  wrap "record login attempt" (pg_query (insert_attempt (U := U) email ipAddress success)).

Definition UpdatePasswordHash (userID : U) (hash : string) : M W unit :=
  wrap "update password hash" (pg_query (update_user (set_password_hash hash) userID)).

Definition no_update (p : UpdateParams) : bool :=
  match p with mkUpdateParams None None None None None => true | _ => false end.
Definition Update (id : U) (params : UpdateParams) : M W (User.User U) :=
  if no_update params then GetByID id
  else query_user "update user" (update_returning (upd_identity (set_profile params)) id).

Definition SetAvatarKey (id : U) (key : string) : M W (User.User U) :=
  query_user "set avatar key"
    (update_returning (upd_identity (λ u, set_keys (Some key) (User.BannerKey u) u)) id).
Definition ClearAvatarKey (id : U) : M W (User.User U) :=
  query_user "clear avatar key"
    (update_returning (upd_identity (λ u, set_keys None (User.BannerKey u) u)) id).
Definition SetBannerKey (id : U) (key : string) : M W (User.User U) :=
  query_user "set banner key"
    (update_returning (upd_identity (λ u, set_keys (User.AvatarKey u) (Some key) u)) id).
Definition ClearBannerKey (id : U) : M W (User.User U) :=
  query_user "clear banner key"
    (update_returning (upd_identity (λ u, set_keys (User.AvatarKey u) None u)) id).

Definition copyRecoveryCodes (userID : U) (codeHashes : list string) : M W unit :=
  wrap "copy recovery codes" (tx_query (copy_codes userID codeHashes)).

Definition EnableMFA (userID : U) (encryptedSecret : string) (codeHashes : list string) : M W unit :=
  WithTx (tables U) (
    wrap "update MFA columns" (tx_query (update_user (set_mfa (Some encryptedSecret) true) userID)) ;;
    copyRecoveryCodes userID codeHashes).

Definition DisableMFA (userID : U) : M W unit :=
  WithTx (tables U) (
    wrap "clear MFA columns" (tx_query (update_user (set_mfa None false) userID)) ;;
    wrap "delete recovery codes" (tx_query (delete_codes userID))).

Definition GetUnusedRecoveryCodes (userID : U) : M W (list (User.MFARecoveryCode U)) :=
  wrap "query unused recovery codes" (pg_query (select_unused userID)).

Definition UseRecoveryCode (codeID : U) : M W unit :=
  wrap "mark recovery code used" (pg_query (mark_used codeID)).

Definition ReplaceRecoveryCodes (userID : U) (codeHashes : list string) : M W unit :=
  WithTx (tables U) (
    wrap "delete old recovery codes" (tx_query (delete_codes userID)) ;;
    copyRecoveryCodes userID codeHashes).

Definition DeleteWithTombstones (id : U) (tombstones : list User.Tombstone) : M W unit :=
  WithTx (tables U) (
    for_each tombstones (λ t, wrap "insert tombstone" (tx_query (insert_tombstone (U := U) t))) ;;
    affected ← wrap "delete user" (tx_query (delete_user id));
    if affected =? 0 then fail ErrNotFound else mret tt).

Definition CheckTombstone (identifierType hmacHash : string) : M W bool :=
  wrap "check tombstone" (pg_query (select_tombstone (U := U) identifierType hmacHash)).

(** The batched deletions return what they deleted also when a later batch fails.  Every batch
    but the last deletes [purgeBatchSize] rows, so one unit of fuel per row is enough. *)
Definition purgeBatchSize : nat := 1000.
Fixpoint purge_loop (fuel : nat) (ctx : string) (batch : nat → M (tables U) Z) (total : Z) :
    M W (Z * option error) :=
  match fuel with
  | O => fail (Plain "out of fuel")
  | S fuel' =>
      r ← try (pg_query (batch purgeBatchSize));
      match r with
      | Err err => mret (total, Some (Wrap ctx err))
      | Ok affected =>
          if affected <? Z.of_nat purgeBatchSize then mret (total + affected, None)
          else purge_loop fuel' ctx batch (total + affected)
      end
  end.
Definition PurgeLoginAttempts (olderThan : Z) : M W (Z * option error) := λ w,
  purge_loop (S (length (login_attempts (pg_view w)))) "purge login attempts"
    (delete_old_attempts olderThan) 0 w.
Definition PurgeTombstones (olderThan : Z) : M W (Z * option error) := λ w,
  purge_loop (S (length (deletion_tombstones (pg_view w)))) "purge deletion tombstones"
    (delete_old_tombstones olderThan) 0 w.
End repository.

(** ** The contract of user.Repository: each operation is one atomic step on the tables *)
Module Spec.
Section spec.
Context {U : Type} `{UUIDLib U} `{RandomUUID U}.
Implicit Types (d : tables U) (id : U).

Definition Create (p : User.CreateParams) : M (tables U) U := λ d,
  let '(_, d1) := next_uuid d in
  let id := gen_random_uuid (db_seq d) in
  if decide (conflicts (User.cp_Email p) (User.cp_Username p) id d) then (Err ErrAlreadyExists, d)
  else
    let row := User.mkCredentials
      (User.mkUser id (User.cp_Email p) (User.cp_Username p) None None None None None None None
         false false (db_now d)) (User.cp_PasswordHash p) None in
    let d2 := set_users <[id := row]> d1 in
    if bool_decide (User.cp_VerifyToken p = ""%string) then (Ok id, d2)
    else if bool_decide (User.cp_VerifyToken p ∈ v_token <$> email_verifications d) then
      (Err (Wrap "insert email verification" (PgError codeUniqueViolation)), d)
    else (Ok id, set_verifications (λ l, l ++ [mkVerification id (User.cp_VerifyToken p)
                                                 (User.cp_VerifyExpiry p) None (db_now d)]) d2).

Definition lookup {A} (f : User.Credentials U → A) (o : tables U → option (User.Credentials U)) :
    M (tables U) A := λ d,
  match o d with Some u => (Ok (f u), d) | None => (Err ErrNotFound, d) end.
Definition GetByID id := lookup scanUser (by_id id).
Definition GetByEmail (email : string) := lookup scanCredentials (by_email email).
Definition GetCredentialsByID id := lookup scanCredentials (by_id id).

(** An update of one user's row, and the row it leaves. *)
Definition update (f : User.User U → User.User U) id : M (tables U) (User.User U) := λ d,
  match users d !! id with
  | Some u => (Ok (f (User.cred_User u)), set_users <[id := upd_identity f u]> d)
  | None => (Err ErrNotFound, d)
  end.
Definition Update id (p : UpdateParams) : M (tables U) (User.User U) :=
  if no_update p then GetByID id else update (set_profile p) id.

Definition VerifyEmail (token : string) : M (tables U) U := λ d,
  let hit := usable token (db_now d) in
  match filter (λ v, hit v = true) (email_verifications d) with
  | [] => (Err ErrInvalidToken, d)
  | v :: _ =>
      (Ok (v_user v),
       set_users (alter set_email_verified (v_user v))
         (set_verifications (fmap (λ v, if hit v then consume (db_now d) v else v)) d))
  end.

Definition ReplaceVerificationToken id (token : string) (expiresAt cooldown : Z) :
    M (tables U) unit := λ d,
  let mine := pending_of id (db_now d) in
  if bool_decide (Exists (λ v, mine v = true ∧ db_now d - cooldown < v_created v)
                    (email_verifications d)) then (Err ErrVerificationCooldown, d)
  else if bool_decide (token ∈ v_token <$> email_verifications d) then
    (Err (Wrap "insert verification token" (PgError codeUniqueViolation)), d)
  else if bool_decide (users d !! id = None) then
    (Err (Wrap "insert verification token" (PgError codeForeignKeyViolation)), d)
  else (Ok tt, set_verifications (λ l,
          ((λ v, if mine v then consume (db_now d) v else v) <$> l) ++
          [mkVerification id token expiresAt None (db_now d)]) d).

Definition RecordLoginAttempt (email ip : string) (success : bool) : M (tables U) unit := λ d,
  (Ok tt, set_attempts (λ l, l ++ [mkAttempt email ip success (db_now d)]) d).
Definition UpdatePasswordHash id (hash : string) : M (tables U) unit := λ d,
  (Ok tt, set_users (alter (set_password_hash hash) id) d).

(** The rows of [n] new codes start at the next identifier. *)
Definition add_codes id (hashes : list string) : M (tables U) unit := λ d,
  wrap "copy recovery codes" (copy_codes id hashes) d.
Definition EnableMFA id (secret : string) (hashes : list string) : M (tables U) unit := λ d,
  add_codes id hashes (set_users (alter (set_mfa (Some secret) true) id) d).
Definition DisableMFA id : M (tables U) unit := λ d,
  (Ok tt, set_codes (filter (λ c, c_user c ≠ id)) (set_users (alter (set_mfa None false) id) d)).
Definition GetUnusedRecoveryCodes id : M (tables U) (list (User.MFARecoveryCode U)) :=
  select_unused id.
Definition UseRecoveryCode (codeID : U) : M (tables U) unit := mark_used codeID.
Definition ReplaceRecoveryCodes id (hashes : list string) : M (tables U) unit := λ d,
  add_codes id hashes (set_codes (filter (λ c, c_user c ≠ id)) d).

Definition add_tombstone (t : User.Tombstone) d : tables U :=
  if bool_decide (Exists (is_tombstone (User.IdentifierType t) (User.HMACHash t))
                    (deletion_tombstones d)) then d
  else set_tombstones (λ l, l ++ [mkTombRow (User.IdentifierType t) (User.HMACHash t) (db_now d)]) d.
Definition DeleteWithTombstones id (ts : list User.Tombstone) : M (tables U) unit := λ d,
  let d1 := foldl (flip add_tombstone) d ts in
  if bool_decide (Exists (λ t, User.IdentifierType t ∉ ["email"; "username"]%string) ts) then
    (Err (Wrap "insert tombstone" (PgError "23514")), d)
  else if bool_decide (users d !! id = None) then (Err ErrNotFound, d)
  else if bool_decide (server_owner d = Some id) then
    (Err (Wrap "delete user" (PgError codeForeignKeyViolation)), d)
  else (Ok tt, drop_user id d1).
Definition CheckTombstone (type hash : string) : M (tables U) bool := λ d,
  (Ok (bool_decide ((type, hash) ∈ (λ t, (t_type t, t_hash t)) <$> deletion_tombstones d)), d).
End spec.
End Spec.

(** The interface: what the callers of the repository use of it.  [obs] is what the
    repository leaves alone. *)
Class UserRepo (U W : Type) : Type := {
  users_Create : User.CreateParams → M W U;
  users_GetByID : U → M W (User.User U);
  users_GetByEmail : string → M W (User.Credentials U);
  users_GetCredentialsByID : U → M W (User.Credentials U);
  users_VerifyEmail : string → M W U;
  users_ReplaceVerificationToken : U → string → Z → Z → M W unit;
  users_RecordLoginAttempt : string → string → bool → M W unit;
  users_UpdatePasswordHash : U → string → M W unit;
  users_Update : U → UpdateParams → M W (User.User U);
  users_EnableMFA : U → string → list string → M W unit;
  users_DisableMFA : U → M W unit;
  users_GetUnusedRecoveryCodes : U → M W (list (User.MFARecoveryCode U));
  users_UseRecoveryCode : U → M W unit;
  users_ReplaceRecoveryCodes : U → list string → M W unit;
  users_DeleteWithTombstones : U → list User.Tombstone → M W unit;
  users_CheckTombstone : string → string → M W bool;
}.

Definition PGRepository {U W} `{UUIDLib U} `{RandomUUID U} `{Postgres (tables U) W} :
  UserRepo U W := {|
  users_Create := Create;
  users_GetByID := GetByID;
  users_GetByEmail := GetByEmail;
  users_GetCredentialsByID := GetCredentialsByID;
  users_VerifyEmail := VerifyEmail;
  users_ReplaceVerificationToken := ReplaceVerificationToken;
  users_RecordLoginAttempt := RecordLoginAttempt;
  users_UpdatePasswordHash := UpdatePasswordHash;
  users_Update := Update;
  users_EnableMFA := EnableMFA;
  users_DisableMFA := DisableMFA;
  users_GetUnusedRecoveryCodes := GetUnusedRecoveryCodes;
  users_UseRecoveryCode := UseRecoveryCode;
  users_ReplaceRecoveryCodes := ReplaceRecoveryCodes;
  users_DeleteWithTombstones := DeleteWithTombstones;
  users_CheckTombstone := CheckTombstone;
|}.

Section contract.
Context {U W V : Type} `{UUIDLib U} `{RandomUUID U} `{Postgres (tables U) W} (obs : W → V).

Class UserRepoLaws `{!UserRepo U W} : Prop := {
  users_Create_ok : ∀ p, implements obs (users_Create p) (Spec.Create p);
  users_GetByID_ok : ∀ id, implements obs (users_GetByID id) (Spec.GetByID id);
  users_GetByEmail_ok : ∀ e, implements obs (users_GetByEmail e) (Spec.GetByEmail e);
  users_GetCredentialsByID_ok : ∀ id,
    implements obs (users_GetCredentialsByID id) (Spec.GetCredentialsByID id);
  users_VerifyEmail_ok : ∀ t, implements obs (users_VerifyEmail t) (Spec.VerifyEmail t);
  users_ReplaceVerificationToken_ok : ∀ id t e c,
    implements obs (users_ReplaceVerificationToken id t e c) (Spec.ReplaceVerificationToken id t e c);
  users_RecordLoginAttempt_ok : ∀ e ip s,
    implements obs (users_RecordLoginAttempt e ip s) (Spec.RecordLoginAttempt e ip s);
  users_UpdatePasswordHash_ok : ∀ id h,
    implements obs (users_UpdatePasswordHash id h) (Spec.UpdatePasswordHash id h);
  users_Update_ok : ∀ id p, implements obs (users_Update id p) (Spec.Update id p);
  users_EnableMFA_ok : ∀ id s hs, implements obs (users_EnableMFA id s hs) (Spec.EnableMFA id s hs);
  users_DisableMFA_ok : ∀ id, implements obs (users_DisableMFA id) (Spec.DisableMFA id);
  users_GetUnusedRecoveryCodes_ok : ∀ id,
    implements obs (users_GetUnusedRecoveryCodes id) (Spec.GetUnusedRecoveryCodes id);
  users_UseRecoveryCode_ok : ∀ c, implements obs (users_UseRecoveryCode c) (Spec.UseRecoveryCode c);
  users_ReplaceRecoveryCodes_ok : ∀ id hs,
    implements obs (users_ReplaceRecoveryCodes id hs) (Spec.ReplaceRecoveryCodes id hs);
  users_DeleteWithTombstones_ok : ∀ id ts,
    implements obs (users_DeleteWithTombstones id ts) (Spec.DeleteWithTombstones id ts);
  users_CheckTombstone_ok : ∀ t h, implements obs (users_CheckTombstone t h) (Spec.CheckTombstone t h);
}.
End contract.

(** Reading the contract. *)
Section contract_lemmas.
Context {U W V : Type} `{UUIDLib U} `{RandomUUID U} `{Postgres (tables U) W} (obs : W → V).

Lemma lookup_reads {A} (f : User.Credentials U → A) o d : (Spec.lookup f o d).2 = d.
Proof. unfold Spec.lookup. by destruct (o d). Qed.
End contract_lemmas.

(** ** PGRepository keeps the contract *)
#[local] Existing Instance PGRepository.
Section implements.
Context {U W V : Type} `{UUIDLib U} `{RandomUUID U} `{PostgresLaws (tables U) W} (obs : W → V).
Context `{!PgFrame (tables U) obs}.
Implicit Types (d : tables U).

Lemma not_found_driver ctx c e : from_driver e → from_driver (not_found ctx (Wrap c e)).
Proof. intros He. by apply on_err_driver, from_driver_wrap. Qed.

Lemma unique_driver ctx e :
  from_driver e → from_driver (if IsUniqueViolation e then ErrAlreadyExists else Wrap ctx e).
Proof.
  intros He. unfold IsUniqueViolation, PgError. rewrite (from_driver_Is _ _ He).
  by apply from_driver_wrap.
Qed.
Ltac tx_error ::= first [apply not_found_driver | apply unique_driver | apply on_err_driver].

Lemma lookup_agree {A} ctx c (h : User.Credentials U → A) o :
  agree (map_err (λ e, not_found ctx (Wrap c e)) (a ← query_row o; mret (h a))) (Spec.lookup h o).
Proof.
  intros d. unfold Spec.lookup, query_row, map_err, mbind, M_bind. by destruct (o d).
Qed.

Lemma GetByID_ok id : implements obs (GetByID id) (Spec.GetByID id).
Proof. by_query; apply lookup_agree. Qed.
Lemma GetByEmail_ok e : implements obs (GetByEmail e) (Spec.GetByEmail e).
Proof. by_query; apply lookup_agree. Qed.
Lemma GetCredentialsByID_ok id : implements obs (GetCredentialsByID id) (Spec.GetCredentialsByID id).
Proof. by_query; apply lookup_agree. Qed.

Lemma update_agree ctx f id :
  agree (map_err (λ e, not_found ctx (Wrap "scan user" e))
           (u ← update_returning (upd_identity f) id; mret (scanUser u))) (Spec.update f id).
Proof.
  intros d. unfold Spec.update, update_returning, update_user, query_row, by_id, map_err, mbind,
    M_bind, modify, set_users. simpl. rewrite lookup_alter_eq.
  destruct (users d !! id) as [u|] eqn:E; simpl; [|done]. split; [done|].
  unfold upd_identity at 1. simpl. by rewrite (alter_Some _ _ _ _ E).
Qed.


Ltac run_tables :=
  unfold insert_user, insert_verification, next_uuid, consume_token, consume_where, recent_exists,
    update_user, delete_codes, tables_now, on_err;
  unfold map_err, wrap, mbind, M_bind, mret, M_ret, fail, modify, gets; simpl.

Lemma token_taken (l : list (verification U)) t :
  bool_decide (Exists (λ v, v_token v = t) l) = bool_decide (t ∈ v_token <$> l).
Proof. apply bool_decide_ext. rewrite Exists_exists, list_elem_of_fmap. naive_solver. Qed.

Lemma Create_ok p : implements obs (Create p) (Spec.Create p).
Proof.
  unfold Create. by_tx. intros d. unfold Spec.Create. run_tables.
  destruct (decide (conflicts _ _ _ d)) as [Hc|Hc]; destruct (decide (conflicts _ _ _ _)) as [Hc'|Hc'];
    try (exfalso; exact (Hc' Hc)); try (exfalso; exact (Hc Hc')); [done|].
  destruct (bool_decide (User.cp_VerifyToken p = ""%string)); [done|]. simpl.
  rewrite token_taken. destruct (bool_decide (_ ∈ _)); [done|].
  rewrite lookup_insert_eq. by rewrite bool_decide_eq_false_2.
Qed.

Lemma VerifyEmail_ok t : implements obs (VerifyEmail t) (Spec.VerifyEmail t).
Proof.
  unfold VerifyEmail. by_tx. intros d. unfold Spec.VerifyEmail. run_tables.
  by destruct (filter _ (email_verifications d)).
Qed.

Lemma ReplaceVerificationToken_ok id t e c :
  implements obs (ReplaceVerificationToken id t e c) (Spec.ReplaceVerificationToken id t e c).
Proof.
  unfold ReplaceVerificationToken. by_tx. intros d. unfold Spec.ReplaceVerificationToken. run_tables.
  destruct (bool_decide (Exists _ _)); [done|]. rewrite token_taken, <-list_fmap_compose.
  rewrite (list_fmap_ext _ v_token); [|intros _ v _; simpl; by destruct (pending_of _ _ _)].
  destruct (bool_decide (_ ∈ _)); [done|]. by destruct (bool_decide (_ = None)).
Qed.

Lemma RecordLoginAttempt_ok e ip s :
  implements obs (RecordLoginAttempt e ip s) (Spec.RecordLoginAttempt e ip s).
Proof. by by_query. Qed.
Lemma UpdatePasswordHash_ok id h :
  implements obs (UpdatePasswordHash id h) (Spec.UpdatePasswordHash id h).
Proof. by by_query. Qed.

Lemma EnableMFA_ok id s hs : implements obs (EnableMFA id s hs) (Spec.EnableMFA id s hs).
Proof.
  unfold EnableMFA, copyRecoveryCodes. by_tx. intros d. unfold Spec.EnableMFA, Spec.add_codes. run_tables.
  by destruct (copy_codes _ _ _) as [[]].
Qed.
Lemma ReplaceRecoveryCodes_ok id hs :
  implements obs (ReplaceRecoveryCodes id hs) (Spec.ReplaceRecoveryCodes id hs).
Proof.
  unfold ReplaceRecoveryCodes, copyRecoveryCodes. by_tx. intros d.
  unfold Spec.ReplaceRecoveryCodes, Spec.add_codes. run_tables. by destruct (copy_codes _ _ _) as [[]].
Qed.
Lemma DisableMFA_ok id : implements obs (DisableMFA id) (Spec.DisableMFA id).
Proof. unfold DisableMFA. by_tx. by intros d. Qed.
Lemma GetUnusedRecoveryCodes_ok id :
  implements obs (GetUnusedRecoveryCodes id) (Spec.GetUnusedRecoveryCodes id).
Proof. by by_query. Qed.
Lemma UseRecoveryCode_ok c : implements obs (UseRecoveryCode c) (Spec.UseRecoveryCode c).
Proof. by by_query. Qed.
Lemma CheckTombstone_ok t h : implements obs (CheckTombstone t h) (Spec.CheckTombstone t h).
Proof.
  by_query. intros d. unfold Spec.CheckTombstone, select_tombstone. run_tables.
  split; [|done]. apply bool_decide_ext. rewrite Exists_exists, list_elem_of_fmap.
  unfold is_tombstone. split.
  - intros (x & Hx & <- & <-). eauto.
  - intros (x & [= -> ->] & Hx). eauto.
Qed.

(** The tombstones of a deletion, one insertion after the other. *)
Definition bad_type (t : User.Tombstone) : Prop := User.IdentifierType t ∉ ["email"; "username"]%string.
#[local] Instance bad_type_dec t : Decision (bad_type t).
Proof. unfold bad_type. apply _. Defined.
Definition put_tombstone (t : User.Tombstone) : M (tables U) unit :=
  wrap "insert tombstone" (insert_tombstone t).

Lemma put_tombstone_run t d :
  put_tombstone t d =
  if bool_decide (bad_type t) then (Err (Wrap "insert tombstone" (PgError "23514")), d)
  else (Ok tt, Spec.add_tombstone t d).
Proof.
  unfold put_tombstone, insert_tombstone, Spec.add_tombstone, bad_type. run_tables.
  destruct (bool_decide _); [done|]. by destruct (bool_decide _).
Qed.

Lemma put_tombstones_run ts d :
  (Exists bad_type ts →
   (for_each ts put_tombstone d).1 = Err (Wrap "insert tombstone" (PgError "23514"))) ∧
  (¬ Exists bad_type ts → for_each ts put_tombstone d = (Ok tt, foldl (flip Spec.add_tombstone) d ts)).
Proof.
  revert d. induction ts as [|t ts IH]; intros d; [split; [by intros ?%Exists_nil|done]|].
  cbn [for_each foldl]. unfold mbind, M_bind. rewrite put_tombstone_run, Exists_cons.
  destruct (bool_decide_reflect (bad_type t)) as [Hb|Hb]; [split; [done|tauto]|].
  destruct (IH (Spec.add_tombstone t d)) as [IH1 IH2]. split.
  - intros [?|He]; [done|]. by apply IH1.
  - intros He. rewrite IH2 by tauto. done.
Qed.

Lemma add_tombstones_frame ts d :
  users (foldl (flip Spec.add_tombstone) d ts) = users d ∧
  server_owner (foldl (flip Spec.add_tombstone) d ts) = server_owner d.
Proof.
  revert d. induction ts as [|t ts IH]; intros d; [done|]. simpl.
  destruct (IH (Spec.add_tombstone t d)) as [-> ->]. unfold Spec.add_tombstone.
  by destruct (bool_decide _).
Qed.

Lemma DeleteWithTombstones_ok id ts :
  implements obs (DeleteWithTombstones id ts) (Spec.DeleteWithTombstones id ts).
Proof.
  unfold DeleteWithTombstones. by_tx. intros d. unfold Spec.DeleteWithTombstones.
  fold put_tombstone. fold bad_type. destruct (put_tombstones_run ts d) as [Hbad Hok].
  destruct (decide (Exists bad_type ts)) as [He|He];
    [rewrite bool_decide_eq_true_2 by done|rewrite bool_decide_eq_false_2 by done].
  - specialize (Hbad He). unfold mbind, M_bind at 1.
    by destruct (for_each ts put_tombstone d) as [r d1]; simpl in Hbad; subst r.
  - specialize (Hok He). rewrite (bind_Ok _ _ _ _ _ Hok).
    destruct (add_tombstones_frame ts d) as [Hu Ho]. unfold delete_user. run_tables. rewrite Hu, Ho.
    destruct (bool_decide (users d !! id = None)); [done|].
    by destruct (bool_decide (server_owner d = Some id)).
Qed.

Lemma profile_agree ctx f id : implements obs
  (query_user ctx (update_returning (upd_identity f) id)) (Spec.update f id).
Proof. by_query; apply update_agree. Qed.
Lemma Update_ok id p : implements obs (Update id p) (Spec.Update id p).
Proof.
  unfold Update, Spec.Update. destruct (no_update p); [apply GetByID_ok|apply profile_agree].
Qed.

Lemma PG_laws : UserRepoLaws obs.
Proof.
  constructor; intros.
  - apply Create_ok.
  - apply GetByID_ok.
  - apply GetByEmail_ok.
  - apply GetCredentialsByID_ok.
  - apply VerifyEmail_ok.
  - apply ReplaceVerificationToken_ok.
  - apply RecordLoginAttempt_ok.
  - apply UpdatePasswordHash_ok.
  - apply Update_ok.
  - apply EnableMFA_ok.
  - apply DisableMFA_ok.
  - apply GetUnusedRecoveryCodes_ok.
  - apply UseRecoveryCode_ok.
  - apply ReplaceRecoveryCodes_ok.
  - apply DeleteWithTombstones_ok.
  - apply CheckTombstone_ok.
Qed.

(** C30: The repository refines its contract: over PostgreSQL, each operation is one atomic
    step of its specification on the tables and touches nothing else; a driver's failure
    leaves the step undone, or done when the failure is that of the commit. *)
Theorem PGRepository_refines :
  UserRepoLaws obs ∧
  (∀ id key, implements obs (SetAvatarKey id key)
     (Spec.update (λ u, set_keys (Some key) (User.BannerKey u) u) id) ∧
   implements obs (ClearAvatarKey id) (Spec.update (λ u, set_keys None (User.BannerKey u) u) id) ∧
   implements obs (SetBannerKey id key)
     (Spec.update (λ u, set_keys (User.AvatarKey u) (Some key) u) id) ∧
   implements obs (ClearBannerKey id) (Spec.update (λ u, set_keys (User.AvatarKey u) None u) id)).
Proof.
  split; [apply PG_laws|]. intros. split_and!; apply profile_agree.
Qed.
End implements.
