(* ===== verification/UserInv.v ===== *)
(** * Properties of the user tables

    The integrity of the tables is an invariant of every history of repository calls, with
    any outcome of each; verification tokens, deletions and the batched purges. *)
From S2P Require Import Prelude GoStd Platform Postgres Domain UserDB.
Open Scope Z_scope.

Lemma filter_none {A} (P : A → Prop) `{∀ x, Decision (P x)} (l : list A) :
  (∀ x, x ∈ l → ¬ P x) → filter P l = [].
Proof.
  induction l as [|x l IH]; intros Hl; [done|]. rewrite filter_cons, decide_False by (apply Hl; left).
  apply IH. intros y Hy. apply Hl. by right.
Qed.

Lemma fmap_sublist {A B} (f : A → B) l l' : l `sublist_of` l' → f <$> l `sublist_of` f <$> l'.
Proof. induction 1; by constructor. Qed.
Lemma NoDup_fmap_filter {A B} (f : A → B) (P : A → Prop) `{∀ x, Decision (P x)} (l : list A) :
  NoDup (f <$> l) → NoDup (f <$> filter P l).
Proof. intros Hl. eapply sublist_NoDup; [exact Hl|]. apply fmap_sublist, sublist_filter. Qed.

Section invariant.
Context {U : Type} `{UUIDLib U} `{RandomUUID U}.
Implicit Types (d : tables U) (id : U).

Definition email_of (u : User.Credentials U) : string := User.Email (User.cred_User u).
Definition name_of (u : User.Credentials U) : string := User.Username (User.cred_User u).
Definition mfa_of (u : User.Credentials U) : bool := User.MFAEnabled (User.cred_User u).

(** Keys and unique columns, foreign keys, MFA flag and secret set together, and at most one
    verification token of a user that is still good. *)
Definition live_tokens id (l : list (verification U)) : list (verification U) :=
  filter (λ v, v_user v = id ∧ v_consumed v = None) l.

Record db_inv d : Prop := {
  inv_key : ∀ id u, users d !! id = Some u → row_ID u = id;
  inv_unique : ∀ i j u v, users d !! i = Some u → users d !! j = Some v →
    email_of u = email_of v ∨ name_of u = name_of v → i = j;
  inv_mfa : ∀ id u, users d !! id = Some u → (mfa_of u = true ↔ is_Some (User.MFASecret u));
  inv_tokens : NoDup (v_token <$> email_verifications d);
  inv_token_user : ∀ v, v ∈ email_verifications d → is_Some (users d !! v_user v);
  inv_live : ∀ id, (length (live_tokens id (email_verifications d)) ≤ 1)%nat;
  inv_codes : NoDup (c_id <$> mfa_recovery_codes d);
  inv_code_user : ∀ c, c ∈ mfa_recovery_codes d → is_Some (users d !! c_user c);
  inv_tombstones : NoDup ((λ t, (t_type t, t_hash t)) <$> deletion_tombstones d);
  inv_owner : ∀ o, server_owner d = Some o → is_Some (users d !! o);
}.

(** An update of a row that keeps its identity and its MFA columns consistent. *)
Definition harmless (f : User.Credentials U → User.Credentials U) : Prop := ∀ u,
  row_ID (f u) = row_ID u ∧ email_of (f u) = email_of u ∧ name_of (f u) = name_of u ∧
  ((mfa_of u = true ↔ is_Some (User.MFASecret u)) → (mfa_of (f u) = true ↔ is_Some (User.MFASecret (f u)))).

Lemma alter_Some_inv (f : User.Credentials U → User.Credentials U) (m : gmap U (User.Credentials U)) i j v :
  alter f i m !! j = Some v → ∃ u, m !! j = Some u ∧ (v = u ∨ v = f u).
Proof.
  destruct (decide (i = j)) as [<-|Hne].
  - rewrite lookup_alter_eq. intros (u & -> & Hu)%fmap_Some. eauto.
  - rewrite lookup_alter_ne by done. eauto.
Qed.
Lemma alter_is_Some (f : User.Credentials U → User.Credentials U) (m : gmap U (User.Credentials U)) i j :
  is_Some (m !! j) → is_Some (alter f i m !! j).
Proof.
  intros [u Hu]. destruct (decide (i = j)) as [<-|Hne].
  - rewrite lookup_alter_eq, Hu. by eexists.
  - rewrite lookup_alter_ne by done. by eexists.
Qed.

Lemma alter_inv f id d : harmless f → db_inv d → db_inv (set_users (alter f id) d).
Proof.
  intros Hf [Hk Hu Hm Ht Htu Hl Hc Hcu Hts Ho]. constructor; simpl; auto using alter_is_Some.
  - intros j v (u & Hj & Hv)%alter_Some_inv. destruct (Hf u) as (E & _).
    destruct Hv as [-> | ->]; [|rewrite E]; by apply Hk.
  - intros i j u v (u0 & Hi & Hu0)%alter_Some_inv (v0 & Hj & Hv0)%alter_Some_inv E.
    apply (Hu i j u0 v0); [done..|]. destruct (Hf u0) as (_ & E1 & E2 & _), (Hf v0) as (_ & E3 & E4 & _).
    destruct Hu0 as [-> | ->], Hv0 as [-> | ->]; rewrite ?E1, ?E2, ?E3, ?E4 in E; done.
  - intros j v (u & Hj & [-> | ->])%alter_Some_inv; [by apply (Hm j)|].
    destruct (Hf u) as (_ & _ & _ & E). by apply E, (Hm j).
Qed.

Lemma verified_harmless : harmless set_email_verified.
Proof. done. Qed.
Lemma hash_harmless h : harmless (set_password_hash h).
Proof. done. Qed.
Lemma mfa_on_harmless s : harmless (set_mfa (Some s) true).
Proof. intros u. split_and!; [done..|]. intros _. by split; intros _; [eexists|]. Qed.
Lemma mfa_off_harmless : harmless (set_mfa None false).
Proof. intros u. split_and!; [done..|]. intros _. split; [done|]. by intros [? ?]. Qed.
Lemma identity_harmless f :
  (∀ u, User.ID (f u) = User.ID u ∧ User.Email (f u) = User.Email u ∧
        User.Username (f u) = User.Username u ∧ User.MFAEnabled (f u) = User.MFAEnabled u) →
  harmless (upd_identity f).
Proof.
  intros Hf u. destruct (Hf (User.cred_User u)) as (E1 & E2 & E3 & E4).
  unfold row_ID, email_of, name_of, mfa_of. simpl. by rewrite E1, E2, E3, E4.
Qed.

(** Rows of the other tables. *)
Lemma live_tokens_app id l1 l2 : live_tokens id (l1 ++ l2) = live_tokens id l1 ++ live_tokens id l2.
Proof. apply filter_app. Qed.

Lemma live_consumed (p : verification U → bool) now id l :
  (length (live_tokens id ((λ v, if p v then consume now v else v) <$> l)) ≤ length (live_tokens id l))%nat.
Proof.
  induction l as [|v l IH]; [done|]. unfold live_tokens in *. rewrite fmap_cons, !filter_cons.
  destruct (p v); repeat case_decide; simpl in *; naive_solver lia.
Qed.

Lemma consume_inv (p : verification U → bool) d :
  db_inv d →
  db_inv (set_verifications (fmap (λ v, if p v then consume (db_now d) v else v)) d).
Proof.
  intros [Hk Hu Hm Ht Htu Hl Hc Hcu Hts Ho]. constructor; simpl; auto.
  - rewrite <-list_fmap_compose. rewrite (list_fmap_ext _ v_token); [done|].
    intros _ v _. simpl. by destruct (p v).
  - intros v (v0 & -> & Hv)%list_elem_of_fmap. destruct (p v0); simpl; by apply Htu.
  - intros id. etrans; [apply live_consumed|done].
Qed.

Lemma add_verification_inv v d :
  db_inv d → v_token v ∉ v_token <$> email_verifications d → is_Some (users d !! v_user v) →
  live_tokens (v_user v) (email_verifications d) = [] →
  db_inv (set_verifications (λ l, l ++ [v]) d).
Proof.
  intros [Hk Hu Hm Ht Htu Hl Hc Hcu Hts Ho] Hn Hs Hlive. constructor; simpl; auto.
  - rewrite fmap_app. apply NoDup_app. split_and!; [done| |apply NoDup_singleton].
    intros x Hx. simpl. rewrite list_elem_of_singleton. by intros ->.
  - intros x [Hx| ->%list_elem_of_singleton]%elem_of_app; auto.
  - intros id. rewrite live_tokens_app, length_app. unfold live_tokens at 2. rewrite filter_cons, filter_nil.
    case_decide as Hd; simpl; [|pose proof (Hl id); lia]. destruct Hd as [<- _]. rewrite Hlive. simpl. lia.
Qed.

(** *** Every step of the contract keeps the invariant *)
Definition preserves {A} (g : M (tables U) A) : Prop := ∀ d a d',
  db_inv d → g d = (Ok a, d') → db_inv d'.

Lemma lookup_preserves {A} (f : User.Credentials U → A) o : preserves (Spec.lookup f o).
Proof. intros d a d' Hd. unfold Spec.lookup. destruct (o d); by intros [= _ <-]. Qed.

Lemma update_preserves f id :
  (∀ u, User.ID (f u) = User.ID u ∧ User.Email (f u) = User.Email u ∧
        User.Username (f u) = User.Username u ∧ User.MFAEnabled (f u) = User.MFAEnabled u) →
  preserves (Spec.update f id).
Proof.
  intros Hf d a d' Hd. unfold Spec.update. destruct (users d !! id) as [u|] eqn:E; [|done].
  intros [= _ <-]. apply (alter_inv (upd_identity f) id) in Hd; [|by apply (identity_harmless f)].
  unfold set_users in *. by rewrite (alter_Some _ _ _ _ E) in Hd.
Qed.

Lemma seq_inv d n : db_inv d → db_inv (mkTables (db_now d) n (users d) (email_verifications d)
  (mfa_recovery_codes d) (login_attempts d) (deletion_tombstones d) (server_owner d)).
Proof. intros [Hk Hu Hm Ht Htu Hl Hc Hcu Hts Ho]. by constructor. Qed.

Lemma insert_row_inv u d :
  db_inv d → ¬ conflicts (email_of u) (name_of u) (row_ID u) d → mfa_of u = false →
  User.MFASecret u = None → db_inv (set_users <[row_ID u := u]> d).
Proof.
  intros [Hk Hu Hm Ht Htu Hl Hc Hcu Hts Ho] Hn Hmfa Hsec.
  assert (∀ j, is_Some (users d !! j) → is_Some (<[row_ID u := u]> (users d) !! j)) as Hs.
  { intros j Hj. destruct (decide (row_ID u = j)) as [<-|Hne]; [rewrite lookup_insert_eq; by eexists|].
    by rewrite lookup_insert_ne. }
  assert (∀ j v, users d !! j = Some v → email_of v = email_of u ∨ name_of v = name_of u → False) as Hn2.
  { intros j v Hj E. apply Hn. right. by exists j, v. }
  constructor; simpl; auto.
  - intros j v [[<- <-]|[_ Hj]]%lookup_insert_Some; [done|]. by apply Hk.
  - intros i j v1 v2 [[<- <-]|[_ Hi]]%lookup_insert_Some [[<- <-]|[_ Hj]]%lookup_insert_Some E; try done.
    + exfalso. by apply (Hn2 j v2); naive_solver.
    + exfalso. by apply (Hn2 i v1); naive_solver.
    + by apply (Hu i j v1 v2).
  - intros j v [[<- <-]|[_ Hj]]%lookup_insert_Some; [|by apply (Hm j)].
    rewrite Hmfa, Hsec. split; [done|by intros [? ?]].
Qed.

Lemma Create_preserves p : preserves (Spec.Create p).
Proof.
  intros d a d' Hd. unfold Spec.Create, next_uuid.
  destruct (decide _) as [|Hn]; [done|].
  set (id := gen_random_uuid (db_seq d)) in *.
  set (row := User.mkCredentials _ _ _) in *.
  assert (db_inv (set_users <[row_ID row := row]> (next_uuid d).2)) as Hd1.
  { apply insert_row_inv; [by apply seq_inv|done..]. }
  destruct (bool_decide (User.cp_VerifyToken p = ""%string)); [by intros [= _ <-]|].
  destruct (bool_decide_reflect (User.cp_VerifyToken p ∈ v_token <$> email_verifications d)) as [|Ht]; [done|].
  intros [= _ <-].
  apply (add_verification_inv (mkVerification id (User.cp_VerifyToken p) (User.cp_VerifyExpiry p) None
           (db_now d))) in Hd1; [exact Hd1|done|..].
  - simpl. unfold row_ID, row. simpl. rewrite lookup_insert_eq. by eexists.
  - apply filter_none. simpl. intros v Hv [Hid _]. apply (inv_token_user _ Hd) in Hv. rewrite Hid in Hv.
    by apply Hn; left.
Qed.

Lemma VerifyEmail_preserves t : preserves (Spec.VerifyEmail t).
Proof.
  intros d a d' Hd. unfold Spec.VerifyEmail. destruct (filter _ _) as [|v l]; [done|]. intros [= _ <-].
  apply alter_inv; [apply verified_harmless|]. by apply consume_inv.
Qed.

Lemma Replace_preserves id t e c : preserves (Spec.ReplaceVerificationToken id t e c).
Proof.
  intros d a d' Hd. unfold Spec.ReplaceVerificationToken.
  destruct (bool_decide (Exists _ _)); [done|].
  destruct (bool_decide_reflect (t ∈ v_token <$> email_verifications d)) as [|Ht]; [done|].
  destruct (bool_decide_reflect (users d !! id = None)) as [|Hs]; [done|]. intros [= _ <-].
  pose proof (consume_inv (pending_of id (db_now d)) d Hd) as Hd1.
  apply (add_verification_inv (mkVerification id t e None (db_now d))) in Hd1; simpl in *.
  - exact Hd1.
  - rewrite <-list_fmap_compose, (list_fmap_ext _ v_token); [done|].
    intros _ v _. simpl. by destruct (pending_of _ _ _).
  - by apply not_eq_None_Some.
  - apply filter_none. intros v (v0 & -> & _)%list_elem_of_fmap [Hu Hl].
    destruct (pending_of id (db_now d) v0) eqn:Ep; [done|].
    unfold pending_of, unconsumed in Ep. rewrite Hl, andb_true_r in Ep. by apply bool_decide_eq_false in Ep.
Qed.

Lemma attempts_inv f d : db_inv d → db_inv (set_attempts f d).
Proof. intros [Hk Hu Hm Ht Htu Hl Hc Hcu Hts Ho]. by constructor. Qed.

Lemma codes_inv f d :
  db_inv d → NoDup (c_id <$> f (mfa_recovery_codes d)) →
  (∀ c, c ∈ f (mfa_recovery_codes d) → is_Some (users d !! c_user c)) → db_inv (set_codes f d).
Proof. intros [Hk Hu Hm Ht Htu Hl Hc Hcu Hts Ho]. by constructor. Qed.

Lemma insert_code_preserves id h : preserves (insert_code id h).
Proof.
  intros d a d' Hd E. unfold insert_code in E. apply bind_Ok_inv in E as (c & d1 & E1 & E).
  unfold next_uuid in E1. injection E1 as <- <-. apply bind_Ok_inv in E as (d1 & d2 & E1 & E).
  unfold tables_now in E1. go_inv. simpl in *. apply (seq_inv d (S (db_seq d))) in Hd.
  destruct (bool_decide_reflect (Exists (λ c, c_id c = gen_random_uuid (db_seq d)) (mfa_recovery_codes d)))
    as [|Hn]; [done|].
  destruct (bool_decide_reflect (users d !! id = None)) as [|Hs]; [done|]. go_inv.
  apply codes_inv; [done|..]; simpl.
  - rewrite fmap_app. apply NoDup_app. split_and!; [apply (inv_codes _ Hd)| |apply NoDup_singleton].
    intros x (c & -> & Hc)%list_elem_of_fmap. simpl. rewrite list_elem_of_singleton. intros E.
    apply Hn, Exists_exists. eauto.
  - intros c [Hc| ->%list_elem_of_singleton]%elem_of_app; [by apply (inv_code_user _ Hd)|].
    by apply not_eq_None_Some.
Qed.

Lemma copy_codes_preserves id hs : preserves (copy_codes id hs).
Proof.
  induction hs as [|h hs IH]; intros d a d' Hd E; [by injection E as _ <-|].
  apply bind_Ok_inv in E as ([] & d1 & E1 & E). apply insert_code_preserves in E1; [|done]. by eapply IH.
Qed.

Lemma add_codes_preserves id hs : preserves (Spec.add_codes id hs).
Proof. intros d a d' Hd E%wrap_Ok_inv. by eapply copy_codes_preserves. Qed.

Lemma filter_codes_inv (P : code_row U → Prop) `{∀ c, Decision (P c)} d :
  db_inv d → db_inv (set_codes (filter P) d).
Proof.
  intros Hd. apply codes_inv; [done|..].
  - by apply NoDup_fmap_filter, (inv_codes _ Hd).
  - intros c [_ Hc]%list_elem_of_filter. by apply (inv_code_user _ Hd).
Qed.

Lemma EnableMFA_preserves id s hs : preserves (Spec.EnableMFA id s hs).
Proof.
  intros d a d' Hd E. eapply add_codes_preserves; [|exact E]. apply alter_inv; [apply mfa_on_harmless|done].
Qed.
Lemma ReplaceCodes_preserves id hs : preserves (Spec.ReplaceRecoveryCodes id hs).
Proof. intros d a d' Hd E. eapply add_codes_preserves; [|exact E]. by apply filter_codes_inv. Qed.
Lemma DisableMFA_preserves id : preserves (Spec.DisableMFA id).
Proof.
  intros d a d' Hd [= _ <-]. apply filter_codes_inv.
  apply alter_inv; [apply mfa_off_harmless|done].
Qed.

Lemma UseRecoveryCode_preserves c : preserves (Spec.UseRecoveryCode c).
Proof.
  intros d a d' Hd [= _ <-]. apply codes_inv; [done|..].
  - rewrite <-list_fmap_compose, (list_fmap_ext _ c_id); [apply (inv_codes _ Hd)|].
    intros _ x _. simpl. by case_decide.
  - intros x (y & -> & Hy)%list_elem_of_fmap. case_decide; by apply (inv_code_user _ Hd y).
Qed.

Lemma add_tombstone_inv t d : db_inv d → db_inv (Spec.add_tombstone t d).
Proof.
  intros [Hk Hu Hm Ht Htu Hl Hc Hcu Hts Ho]. unfold Spec.add_tombstone.
  destruct (bool_decide_reflect (Exists (is_tombstone (User.IdentifierType t) (User.HMACHash t))
    (deletion_tombstones d))) as [|Hn]; [by constructor|]. constructor; simpl; auto.
  rewrite fmap_app. apply NoDup_app. split_and!; [done| |apply NoDup_singleton].
  intros x (y & -> & Hy)%list_elem_of_fmap [= E1 E2]%list_elem_of_singleton.
  apply Hn, Exists_exists. by exists y.
Qed.

Lemma drop_user_inv id d :
  db_inv d → server_owner d ≠ Some id → db_inv (drop_user id d).
Proof.
  intros [Hk Hu Hm Ht Htu Hl Hc Hcu Hts Ho] Hne.
  assert (∀ j, j ≠ id → is_Some (users d !! j) → is_Some (delete id (users d) !! j)) as Hs.
  { intros j Hj. by rewrite lookup_delete_ne. }
  constructor; simpl; auto.
  - intros j u [_ Hj]%lookup_delete_Some. by apply Hk.
  - intros i j u v [_ Hi]%lookup_delete_Some [_ Hj]%lookup_delete_Some. by apply Hu.
  - intros j u [_ Hj]%lookup_delete_Some. by apply (Hm j).
  - by apply NoDup_fmap_filter.
  - intros v [Hv Hin]%list_elem_of_filter. auto.
  - intros j. etrans; [|apply (Hl j)]. unfold live_tokens. apply sublist_length.
    clear. induction (email_verifications d) as [|v l IH]; [done|]. rewrite !filter_cons.
    repeat (case_decide; rewrite ?filter_cons); try done; by constructor.
  - by apply NoDup_fmap_filter.
  - intros c [Hc' Hin]%list_elem_of_filter. auto.
  - intros o E. apply Hs; [by intros ->|auto].
Qed.

Lemma DeleteWithTombstones_preserves id ts : preserves (Spec.DeleteWithTombstones id ts).
Proof.
  intros d a d' Hd. unfold Spec.DeleteWithTombstones.
  destruct (bool_decide (Exists _ _)); [done|]. destruct (bool_decide (users d !! id = None)); [done|].
  destruct (bool_decide_reflect (server_owner d = Some id)) as [|Ho]; [done|]. intros [= _ <-].
  destruct (add_tombstones_frame ts d) as [_ Ho']. apply drop_user_inv; [|by rewrite Ho'].
  clear Ho Ho'. revert d Hd. induction ts as [|t ts IH]; intros d Hd; [done|]. by apply IH, add_tombstone_inv.
Qed.
End invariant.

(** ** Batched deletion *)
Section purge.
Context {A : Type} (old : A → bool).

Lemma delete_first_spec n l l' k :
  delete_first old n l = (l', k) →
  (k ≤ n)%nat ∧ (length l = k + length l')%nat ∧
  filter (λ x, old x = false) l' = filter (λ x, old x = false) l ∧
  ((k < n)%nat → filter (λ x, old x = true) l' = []) ∧ l' `sublist_of` l.
Proof.
  revert n l' k. induction l as [|x l IH]; intros n l' k; simpl; [intros [= <- <-]; auto with lia|].
  destruct (old x) eqn:Ex.
  - destruct n as [|n]; [intros [= <- <-]; split_and!; [lia|simpl; lia|done|intros ?; lia|done]|].
    destruct (delete_first old n l) as [l1 k1] eqn:E. intros [= <- <-].
    apply IH in E as (H1 & H2 & H3 & H4 & H5). rewrite (filter_cons _ x), Ex. simpl.
    split_and!; [lia|lia|done|intros; apply H4; lia|by constructor].
  - destruct (delete_first old n l) as [l1 k1] eqn:E. intros [= <- <-].
    apply IH in E as (H1 & H2 & H3 & H4 & H5). rewrite !filter_cons, Ex. simpl.
    split_and!; [lia|lia|by rewrite H3|done|by constructor].
Qed.

Lemma filter_all_false l : filter (λ x, old x = true) l = [] → filter (λ x, old x = false) l = l.
Proof.
  induction l as [|x l IH]; [done|]. rewrite !filter_cons. destruct (old x); simpl; [done|].
  intros E. by rewrite IH.
Qed.
End purge.

Section purge_loops.
Context {U W : Type} `{UUIDLib U} `{RandomUUID U} `{PostgresLaws (tables U) W}.
Context {A : Type} (old : A → bool) (get : tables U → list A) (put : list A → tables U → tables U).
Context (get_put : ∀ l d, get (put l d) = l) (put_get : ∀ d, put (get d) d = d)
  (put_put : ∀ l l' d, put l (put l' d) = put l d).

(** One batch on the rows [get] selects. *)
Definition batch (limit : nat) : M (tables U) Z := λ d,
  let '(l, n) := delete_first old limit (get d) in (Ok (Z.of_nat n), put l d).

Definition kept (l : list A) : list A := filter (λ x, old x = false) l.

Lemma purge_loop_spec ctx fuel total w r w' :
  (length (get (pg_view w)) < fuel)%nat → purge_loop fuel ctx batch total w = (r, w') →
  ∃ n err, r = Ok (n, err) ∧
    (∃ l, pg_view w' = put l (pg_view w) ∧ kept l = kept (get (pg_view w)) ∧
          l `sublist_of` get (pg_view w) ∧ (err = None → l = kept (get (pg_view w)))) ∧
    total ≤ n ≤ total + Z.of_nat (length (get (pg_view w)) - length (get (pg_view w'))) ∧
    (err = None → n = total + Z.of_nat (length (get (pg_view w)) - length (get (pg_view w')))).
Proof.
  revert total w. induction fuel as [|fuel IH]; intros total w Hf E; [lia|]. cbn [purge_loop] in E.
  apply bind_inv in E as [(r0 & w1 & E1 & E)|(e & E1 & _)];
    apply try_inv in E1 as (r1 & Hr & E1); [|done]. injection Hr as ->.
  destruct (delete_first old purgeBatchSize (get (pg_view w))) as [l k] eqn:Ed.
  pose proof (delete_first_spec _ _ _ _ _ Ed) as (Hd1 & Hd2 & Hd3 & Hd4 & Hd5).
  assert (batch purgeBatchSize (pg_view w) = (Ok (Z.of_nat k), put l (pg_view w))) as Hb
    by (unfold batch; by rewrite Ed).
  apply pg_query_atomic in E1 as [(d & Hq & Hv)|(e & -> & He & Hv)].
  2:{ unfold mret, M_ret in E. injection E as <- <-. do 2 eexists. split; [done|].
      destruct Hv as [Hv|(a & d & Hq & Hv)]; rewrite Hv.
      - split_and!; [|lia|lia|done]. exists (get (pg_view w)). by rewrite put_get.
      - rewrite Hb in Hq. injection Hq as <- <-. rewrite get_put.
        split_and!; [|lia|lia|done]. exists l. by split_and!. }
  rewrite Hb in Hq. injection Hq as <- <-. rewrite Nat2Z.inj_lt in Hf.
  destruct (Z.ltb_spec (Z.of_nat k) (Z.of_nat purgeBatchSize)) as [Hlt|Hge].
  - unfold mret, M_ret in E. injection E as <- <-. do 2 eexists. split; [done|]. rewrite Hv, get_put.
    split_and!; [|lia|lia|intros _; lia]. exists l. split_and!; [done..|].
    intros _. unfold kept. rewrite <-Hd3. symmetry. apply filter_all_false, Hd4. lia.
  - assert (k = purgeBatchSize) as -> by lia. unfold purgeBatchSize in *.
    apply IH in E as (n & err & -> & (l2 & Hl & Hk & Hlen & Hnone) & Hn & Hn'); rewrite Hv, get_put in *; [|lia].
    exists n, err. split; [done|]. rewrite put_put in Hl. split.
    { exists l2. split_and!; [done| |by etrans|]; unfold kept in *; [congruence|].
      intros He. rewrite <-Hd3. auto. }
    apply sublist_length in Hlen. rewrite Hl, get_put in *. split; [lia|]. intros He. rewrite Hn' by done. lia.
Qed.
End purge_loops.

(** ** Histories of the repository *)
Section histories.
Context {U W : Type} `{UUIDLib U} `{RandomUUID U} `{PostgresLaws (tables U) W}.
Implicit Types (w : W) (d : tables U) (id : U).

(** The calls that write. *)
Inductive op : Type :=
| OpCreate (p : User.CreateParams)
| OpVerifyEmail (token : string)
| OpReplaceToken (id : U) (token : string) (expiresAt cooldown : Z)
| OpRecordAttempt (email ip : string) (success : bool)
| OpUpdateHash (id : U) (hash : string)
| OpUpdate (id : U) (p : UpdateParams)
| OpAvatar (id : U) (key : option string)
| OpBanner (id : U) (key : option string)
| OpEnableMFA (id : U) (secret : string) (hashes : list string)
| OpDisableMFA (id : U)
| OpUseCode (c : U)
| OpReplaceCodes (id : U) (hashes : list string)
| OpDelete (id : U) (ts : list User.Tombstone)
| OpPurgeAttempts (olderThan : Z)
| OpPurgeTombstones (olderThan : Z).

Definition run_op (o : op) : M W unit :=
  let void {A} (m : M W A) : M W unit := m ;; mret tt in
  match o with
  | OpCreate p => void (Create p)
  | OpVerifyEmail t => void (VerifyEmail t)
  | OpReplaceToken id t e c => ReplaceVerificationToken id t e c
  | OpRecordAttempt e ip s => RecordLoginAttempt (U := U) e ip s
  | OpUpdateHash id h => UpdatePasswordHash id h
  | OpUpdate id p => void (Update id p)
  | OpAvatar id (Some key) => void (SetAvatarKey id key)
  | OpAvatar id None => void (ClearAvatarKey id)
  | OpBanner id (Some key) => void (SetBannerKey id key)
  | OpBanner id None => void (ClearBannerKey id)
  | OpEnableMFA id s hs => EnableMFA id s hs
  | OpDisableMFA id => DisableMFA id
  | OpUseCode c => UseRecoveryCode c
  | OpReplaceCodes id hs => ReplaceRecoveryCodes id hs
  | OpDelete id ts => DeleteWithTombstones id ts
  | OpPurgeAttempts t => void (PurgeLoginAttempts (U := U) t)
  | OpPurgeTombstones t => void (PurgeTombstones (U := U) t)
  end.

(** Calls with any outcome, the passing of time, and the one write of server_config's owner,
    which names a user. *)
Definition at_time (t : Z) (d : tables U) : tables U :=
  mkTables t (db_seq d) (users d) (email_verifications d) (mfa_recovery_codes d)
    (login_attempts d) (deletion_tombstones d) (server_owner d).
Definition with_owner (o : U) (d : tables U) : tables U :=
  mkTables (db_now d) (db_seq d) (users d) (email_verifications d) (mfa_recovery_codes d)
    (login_attempts d) (deletion_tombstones d) (Some o).
Inductive repo_history : W → Prop :=
| rh_empty w t n la : pg_view w = mkTables t n ∅ [] [] la [] None → repo_history w
| rh_op w o r w' : repo_history w → run_op o w = (r, w') → repo_history w'
| rh_time w w' t : repo_history w → pg_view w' = at_time t (pg_view w) → repo_history w'
| rh_owner w w' o : repo_history w → is_Some (users (pg_view w) !! o) →
    pg_view w' = with_owner o (pg_view w) → repo_history w'.

(** Nothing but the tables is looked at. *)
#[local] Instance no_frame : PgFrame (tables U) (λ _ : W, tt).
Proof. by constructor. Qed.

Lemma implements_inv {A} (m : M W A) g w r w' :
  implements (λ _ : W, tt) m g → preserves g → m w = (r, w') → db_inv (pg_view w) → db_inv (pg_view w').
Proof.
  intros Hm Hg E Hd. destruct (Hm _ _ _ E) as [[(d & Hr & Hv)|(e & -> & _ & [Hv|(a & d & Hr & Hv)])] _];
    rewrite Hv; [|done|by eapply Hg].
  destruct r; [by eapply Hg|done].
Qed.

Lemma void_inv {A} (m : M W A) g w r w' :
  implements (λ _ : W, tt) m g → preserves g → (m ;; mret tt) w = (r, w') →
  db_inv (pg_view w) → db_inv (pg_view w').
Proof.
  intros Hm Hg E. apply bind_inv in E as [(a & w1 & E1 & E)|(e & E1 & _)]; [|by eapply implements_inv].
  unfold mret, M_ret in E. injection E as _ <-. by eapply implements_inv.
Qed.

Lemma purge_attempts_run t w r w' :
  PurgeLoginAttempts (U := U) t w = (r, w') →
  ∃ n err, r = Ok (n, err) ∧
    (∃ l, pg_view w' = set_attempts (λ _, l) (pg_view w) ∧
          kept (λ a, a_created a <? t) l = kept (λ a, a_created a <? t) (login_attempts (pg_view w)) ∧
          l `sublist_of` login_attempts (pg_view w) ∧
          (err = None → l = kept (λ a, a_created a <? t) (login_attempts (pg_view w)))) ∧
    0 ≤ n ≤ 0 + Z.of_nat (length (login_attempts (pg_view w)) - length (login_attempts (pg_view w'))) ∧
    (err = None → n = 0 + Z.of_nat (length (login_attempts (pg_view w)) - length (login_attempts (pg_view w')))).
Proof.
  intros E. apply (purge_loop_spec (λ a, a_created a <? t) login_attempts (λ l, set_attempts (λ _, l)))
    in E; [exact E|done|by intros []|done|lia].
Qed.
Lemma purge_tombstones_run t w r w' :
  PurgeTombstones (U := U) t w = (r, w') →
  ∃ n err, r = Ok (n, err) ∧
    (∃ l, pg_view w' = set_tombstones (λ _, l) (pg_view w) ∧
          kept (λ a, t_created a <? t) l = kept (λ a, t_created a <? t) (deletion_tombstones (pg_view w)) ∧
          l `sublist_of` deletion_tombstones (pg_view w) ∧
          (err = None → l = kept (λ a, t_created a <? t) (deletion_tombstones (pg_view w)))) ∧
    0 ≤ n ≤ 0 + Z.of_nat (length (deletion_tombstones (pg_view w)) - length (deletion_tombstones (pg_view w'))) ∧
    (err = None → n = 0 + Z.of_nat (length (deletion_tombstones (pg_view w)) - length (deletion_tombstones (pg_view w')))).
Proof.
  intros E. apply (purge_loop_spec (λ a, t_created a <? t) deletion_tombstones (λ l, set_tombstones (λ _, l)))
    in E; [exact E|done|by intros []|done|lia].
Qed.

Lemma purge_tombstones_inv t w r w' :
  PurgeTombstones (U := U) t w = (r, w') → db_inv (pg_view w) → db_inv (pg_view w').
Proof.
  intros E Hd. apply purge_tombstones_run in E as (n & err & _ & (l & -> & _ & Hl & _) & _).
  destruct Hd as [Hk Hu Hm Ht Htu Hlv Hc Hcu Hts Ho]. constructor; simpl; auto.
  eapply sublist_NoDup; [exact Hts|]. by apply fmap_sublist.
Qed.

Lemma run_op_inv o w r w' : run_op o w = (r, w') → db_inv (pg_view w) → db_inv (pg_view w').
Proof.
  destruct o as [p|t|id t e c|e ip s|id h|id p|id [k|]|id [k|]|id s hs|id|c|id hs|id ts|t|t]; simpl; intros E.
  - eapply void_inv; [apply (Create_ok (λ _, tt))|apply Create_preserves|exact E].
  - eapply void_inv; [apply (VerifyEmail_ok (λ _, tt))|apply VerifyEmail_preserves|exact E].
  - eapply implements_inv; [apply (ReplaceVerificationToken_ok (λ _, tt))|apply Replace_preserves|exact E].
  - eapply implements_inv; [apply (RecordLoginAttempt_ok (λ _, tt))| |exact E].
    intros d a d' Hd [= _ <-]. by apply attempts_inv.
  - eapply implements_inv; [apply (UpdatePasswordHash_ok (λ _, tt))| |exact E].
    intros d a d' Hd [= _ <-]. apply alter_inv; [apply hash_harmless|done].
  - eapply void_inv; [apply (Update_ok (λ _, tt))| |exact E]. unfold Spec.Update.
    destruct (no_update p); [apply lookup_preserves|by apply update_preserves].
  - refine (void_inv _ _ _ _ _ _ _ E); [apply (profile_agree (λ _, tt))|by apply update_preserves].
  - refine (void_inv _ _ _ _ _ _ _ E); [apply (profile_agree (λ _, tt))|by apply update_preserves].
  - refine (void_inv _ _ _ _ _ _ _ E); [apply (profile_agree (λ _, tt))|by apply update_preserves].
  - refine (void_inv _ _ _ _ _ _ _ E); [apply (profile_agree (λ _, tt))|by apply update_preserves].
  - eapply implements_inv; [apply (EnableMFA_ok (λ _, tt))|apply EnableMFA_preserves|exact E].
  - eapply implements_inv; [apply (DisableMFA_ok (λ _, tt))|apply DisableMFA_preserves|exact E].
  - eapply implements_inv; [apply (UseRecoveryCode_ok (λ _, tt))|apply UseRecoveryCode_preserves|exact E].
  - eapply implements_inv; [apply (ReplaceRecoveryCodes_ok (λ _, tt))|apply ReplaceCodes_preserves|exact E].
  - eapply implements_inv; [apply (DeleteWithTombstones_ok (λ _, tt))|apply DeleteWithTombstones_preserves|exact E].
  - intros Hd. apply bind_inv in E as [(a & w1 & E1 & E)|(e & E1 & _)];
      [unfold mret, M_ret in E; injection E as _ <-|];
      apply purge_attempts_run in E1 as (n & err & _ & (l & -> & _) & _); by apply attempts_inv.
  - intros Hd. apply bind_inv in E as [(a & w1 & E1 & E)|(e & E1 & _)];
      [unfold mret, M_ret in E; injection E as _ <-|]; by eapply purge_tombstones_inv.
Qed.

Lemma history_inv w : repo_history w → db_inv (pg_view w).
Proof.
  induction 1 as [w t n la E|w o r w' _ IH E|w w' t _ IH E|w w' o _ IH Ho E]; [| |rewrite E..].
  - rewrite E. constructor; simpl; intros; rewrite ?lookup_empty in *; try done;
      try apply NoDup_nil_2; try (exfalso; by eapply not_elem_of_nil). simpl. lia.
  - by eapply run_op_inv.
  - destruct IH. by constructor.
  - destruct IH. constructor; simpl; try done. by intros ? [= <-].
Qed.

Lemma by_email_iff d e u :
  db_inv d → by_email e d = Some u ↔ ∃ id, users d !! id = Some u ∧ email_of u = e.
Proof.
  intros Hd. unfold by_email.
  set (m := filter (λ p : U * User.Credentials U, User.Email (User.cred_User p.2) = e) (users d)).
  assert (∀ id v, m !! id = Some v ↔ users d !! id = Some v ∧ email_of v = e) as Hm.
  { intros id v. unfold m. by rewrite map_lookup_filter_Some. }
  split.
  - destruct (map_to_list m) as [|[id v] l] eqn:El; [done|]. intros [= ->]. exists id. apply Hm.
    apply elem_of_map_to_list. rewrite El. by left.
  - intros (id & Hu & He). destruct (map_to_list m) as [|[id' v] l] eqn:El.
    + exfalso. assert ((id, u) ∈ map_to_list m) as Hin by (apply elem_of_map_to_list, Hm; done).
      rewrite El in Hin. by apply not_elem_of_nil in Hin.
    + simpl. assert ((id', v) ∈ map_to_list m) as Hin by (rewrite El; by left).
      apply elem_of_map_to_list, Hm in Hin as [Hv Hev].
      assert (id' = id) as -> by (apply (inv_unique _ Hd id' id v u); [done..|left; congruence]).
      congruence.
Qed.

(** C31: The tables stay sound.  After any history of repository calls, whatever each returned:
    no two users share an identifier, an email or a username; MFA is on exactly when a
    secret is stored; verification tokens, recovery codes and tombstones are unique and
    their users, and the server's owner, exist; no user has two good verification tokens.
    So the lookup by email finds a user if and only if there is one, and it is the only one. *)
Theorem tables_sound w :
  repo_history w →
  db_inv (pg_view w) ∧
  ∀ e u, by_email e (pg_view w) = Some u ↔ ∃ id, users (pg_view w) !! id = Some u ∧ email_of u = e.
Proof. intros Hw%history_inv. split; [done|]. intros. by apply by_email_iff. Qed.

Lemma live_one d id v : db_inv d → v ∈ live_tokens id (email_verifications d) →
  live_tokens id (email_verifications d) = [v].
Proof.
  intros Hd Hv. pose proof (inv_live _ Hd id). destruct (live_tokens id _) as [|x [|y l]].
  - by apply not_elem_of_nil in Hv.
  - by apply list_elem_of_singleton in Hv as ->.
  - simpl in *. lia.
Qed.

Lemma Replace_live id t e c w w' :
  db_inv (pg_view w) → ReplaceVerificationToken id t e c w = (Ok tt, w') →
  live_tokens id (email_verifications (pg_view w')) =
    [mkVerification id t e None (db_now (pg_view w))] ∧
  ∀ v, v ∈ live_tokens id (email_verifications (pg_view w)) → v_created v ≤ db_now (pg_view w) - c.
Proof.
  intros Hd E. pose proof (ReplaceVerificationToken_ok (λ _, tt) id t e c) as Hok.
  eapply (implements_Ok (λ _, tt)) in E; [|done]. pose proof (Replace_preserves _ _ _ _ _ _ _ Hd E) as Hd'.
  unfold Spec.ReplaceVerificationToken in E.
  destruct (bool_decide_reflect (Exists (λ v, pending_of id (db_now (pg_view w)) v = true ∧
    db_now (pg_view w) - c < v_created v) (email_verifications (pg_view w)))) as [|Hn]; [done|].
  destruct (bool_decide (t ∈ _)); [done|]. destruct (bool_decide (_ = None)); [done|].
  injection E as E. split.
  - apply live_one; [done|]. rewrite <-E. simpl. apply list_elem_of_filter. split; [done|].
    apply elem_of_app. right. by apply list_elem_of_singleton.
  - intros v [[Hid Hc] Hv]%list_elem_of_filter. destruct (decide (v_created v ≤ db_now (pg_view w) - c)); [done|].
    exfalso. apply Hn, Exists_exists. exists v. split; [done|]. split; [|lia].
    unfold pending_of, unconsumed. rewrite Hc, bool_decide_eq_true_2 by done. done.
Qed.

Lemma usable_iff t now (v : verification U) :
  usable t now v = true ↔ v_token v = t ∧ v_consumed v = None ∧ now < v_expires v.
Proof.
  unfold usable, unconsumed. rewrite !andb_true_iff, bool_decide_eq_true, Z.ltb_lt.
  destruct (v_consumed v); naive_solver.
Qed.

Lemma VerifyEmail_run t w id w' :
  VerifyEmail t w = (Ok id, w') →
  (∃ v, v ∈ email_verifications (pg_view w) ∧ usable t (db_now (pg_view w)) v = true ∧ v_user v = id) ∧
  pg_view w' = set_users (alter set_email_verified id)
    (set_verifications (fmap (λ v, if usable t (db_now (pg_view w)) v
                                   then consume (db_now (pg_view w)) v else v)) (pg_view w)).
Proof.
  intros E. eapply (implements_Ok (λ _, tt)) in E; [|apply (VerifyEmail_ok (λ _, tt))]. unfold Spec.VerifyEmail in E.
  destruct (filter _ _) as [|v l] eqn:Ef; [done|]. injection E as E1 E2. subst id. split; [|done].
  assert (v ∈ v :: l) as Hv by (by left). rewrite <-Ef in Hv. apply list_elem_of_filter in Hv as [? ?]. eauto.
Qed.

(** A verification token works once, and only the last one works.  A successful
    verification used a token of that user that was neither used nor expired, marks that
    user verified, and leaves the user no good token, so the same token verifies nobody
    again.  A token that replaces the others is afterwards the user's only good one, and is
    issued only when the previous one is older than the cooldown. *)
Lemma verification_tokens w :
  repo_history w →
  (∀ t id w', VerifyEmail t w = (Ok id, w') →
     (∃ v, v ∈ live_tokens id (email_verifications (pg_view w)) ∧ v_token v = t ∧
           db_now (pg_view w) < v_expires v) ∧
     (∃ u, users (pg_view w') !! id = Some u ∧ User.EmailVerified (User.cred_User u) = true) ∧
     live_tokens id (email_verifications (pg_view w')) = [] ∧
     ∀ r w'', VerifyEmail t w' = (r, w'') → ∀ id', r ≠ Ok id') ∧
  (∀ id t e c w', ReplaceVerificationToken id t e c w = (Ok tt, w') →
     live_tokens id (email_verifications (pg_view w')) =
       [mkVerification id t e None (db_now (pg_view w))] ∧
     ∀ v, v ∈ live_tokens id (email_verifications (pg_view w)) →
          v_created v ≤ db_now (pg_view w) - c).
Proof.
  intros Hw%history_inv. split; [|intros; by apply Replace_live]. intros t id w' E.
  apply VerifyEmail_run in E as [(v & Hv & Hus & Hid) E]. pose proof Hus as Hus'.
  apply usable_iff in Hus as (Ht & Hc & Hexp).
  assert (v ∈ live_tokens id (email_verifications (pg_view w))) as Hlv by (by apply list_elem_of_filter).
  split; [eauto|]. rewrite E. simpl. split; [|split].
  - destruct (inv_token_user _ Hw v Hv) as [u Hu]. rewrite Hid in Hu. exists (set_email_verified u).
    by rewrite lookup_alter_eq, Hu.
  - apply filter_none. intros x (y & -> & Hy)%list_elem_of_fmap [Hx1 Hx2].
    destruct (usable t (db_now (pg_view w)) y) eqn:Ey; [done|].
    assert (y ∈ [v]) as ->%list_elem_of_singleton; [|congruence].
    rewrite <-(live_one _ id v Hw Hlv). by apply list_elem_of_filter.
  - intros r w'' E2 id' ->. apply VerifyEmail_run in E2 as [(x & Hx & Hu2 & _) _]. rewrite E in Hx, Hu2.
    simpl in Hx, Hu2. apply usable_iff in Hu2 as (Ht2 & Hc2 & He2).
    apply list_elem_of_fmap in Hx as (y & -> & Hy).
    destruct (usable t (db_now (pg_view w)) y) eqn:Ey; [done|].
    rewrite (proj2 (usable_iff _ _ _)) in Ey; [done|]. by split_and!.
Qed.

(** The retention jobs end and delete exactly what is due.  A purge always returns; when
    it reports no error every login attempt (every tombstone) older than the cutoff is gone,
    all others are still there in order, and the number it reports is the number deleted;
    when a batch failed it reports no more than was deleted and nothing recent is lost. *)
Lemma purge_correct t w :
  (∀ r w', PurgeLoginAttempts (U := U) t w = (r, w') →
     let before := login_attempts (pg_view w) in let after := login_attempts (pg_view w') in
     ∃ n err, r = Ok (n, err) ∧ pg_view w' = set_attempts (λ _, after) (pg_view w) ∧
       filter (λ a, t ≤ a_created a) after = filter (λ a, t ≤ a_created a) before ∧
       0 ≤ n ≤ Z.of_nat (length before - length after) ∧
       (err = None → after = filter (λ a, t ≤ a_created a) before ∧
                     n = Z.of_nat (length before - length after))) ∧
  (∀ r w', PurgeTombstones (U := U) t w = (r, w') →
     let before := deletion_tombstones (pg_view w) in
     let after := deletion_tombstones (pg_view w') in
     ∃ n err, r = Ok (n, err) ∧ pg_view w' = set_tombstones (λ _, after) (pg_view w) ∧
       filter (λ a, t ≤ t_created a) after = filter (λ a, t ≤ t_created a) before ∧
       0 ≤ n ≤ Z.of_nat (length before - length after) ∧
       (err = None → after = filter (λ a, t ≤ t_created a) before ∧
                     n = Z.of_nat (length before - length after))).
Proof.
  assert (∀ {A} (f : A → Z) (l : list A), kept (λ a, f a <? t) l = filter (λ a, t ≤ f a) l) as Hk.
  { intros A f l. apply list_filter_iff. intros x. by rewrite Z.ltb_ge. }
  split; intros r w' E before after; [apply purge_attempts_run in E|apply purge_tombstones_run in E];
    destruct E as (n & err & -> & (l & Hv & Hkept & _ & Hnone) & Hn & Hn'); exists n, err;
    rewrite !Hk in *; unfold before, after in *; rewrite Hv in *; simpl in *; split_and!;
    try done; try lia; intros He; (split; [auto|specialize (Hn' He); lia]).
Qed.
End histories.

(** ** Witnesses: a database in memory *)
Module Witness.
Record usim := mkUsim { us_db : tables cuuid; us_tx : option (tables cuuid) }.
#[local] Instance usim_tables : HasTables (tables cuuid) usim := {|
  db_of := us_db; tx_of := us_tx;
  db_put := λ d w, mkUsim d (us_tx w); tx_put := λ t w, mkUsim (us_db w) t;
  db_of_put := λ _ _, eq_refl; tx_of_put := λ _ _, eq_refl; db_of_tx_put := λ _ _, eq_refl |}.
#[local] Existing Instance mem_Postgres.
#[local] Existing Instance mem_PostgresLaws.
#[local] Existing Instance PGRepository.
#[local] Instance num_uuids : RandomUUID cuuid := {| gen_random_uuid := λ n,
  match n with
  | 0%nat => "00000000-0000-4000-8000-0000000000f0"%string ↾ eq_refl
  | 1%nat => "00000000-0000-4000-8000-0000000000f1"%string ↾ eq_refl
  | _ => "00000000-0000-4000-8000-0000000000f2"%string ↾ eq_refl
  end |}.
#[local] Instance usim_frame : PgFrame (tables cuuid) (λ _ : usim, tt).
Proof. by constructor. Qed.

Definition old_attempts : list attempt :=
  [mkAttempt "a@b.c" "10.0.0.1" false 5; mkAttempt "a@b.c" "10.0.0.1" true 50;
   mkAttempt "d@b.c" "10.0.0.2" false 7].
Definition w0 : usim := mkUsim (mkTables 100 0 ∅ [] [] old_attempts [] None) None.
Definition heidi : User.CreateParams := User.mkCreateParams "heidi@b.c" "heidi" "hash" "tok" 500.
Definition heidi_id : cuuid := gen_random_uuid 0.
Definition w1 : usim := (run_op (OpCreate heidi) w0).2.
Definition w2 : usim := (VerifyEmail "tok" w1).2.

Lemma reached_w1 : repo_history w1.
Proof.
  apply (rh_op w0 (OpCreate heidi) (Ok tt)); [by eapply rh_empty|].
  unfold w1. apply run_eq. vm_compute. reflexivity.
Qed.

Abbreviation view := (pg_view (DB := tables cuuid)).

Lemma tables_sound_witness :
  (∃ u, by_email "heidi@b.c" (view w1) = Some u ∧ row_ID u = heidi_id) ∧
  by_email "ivan@b.c" (view w1) = None ∧
  ∀ e u, by_email e (view w1) = Some u ↔ ∃ id, users (view w1) !! id = Some u ∧ email_of u = e.
Proof.
  split; [eexists; split; vm_compute; reflexivity|]. split; [vm_compute; reflexivity|].
  exact (proj2 (tables_sound w1 reached_w1)).
Defined.

Lemma verification_tokens_witness :
  (VerifyEmail "tok" w1).1 = Ok heidi_id ∧ (VerifyEmail "tok" w2).1 = Err ErrInvalidToken ∧
  live_tokens heidi_id (email_verifications (view w2)) = [].
Proof.
  split; [vm_compute; reflexivity|]. split; [vm_compute; reflexivity|].
  apply (proj1 (verification_tokens w1 reached_w1) "tok"%string heidi_id w2).
  unfold w2. apply run_eq. vm_compute. reflexivity.
Defined.

Definition w3 : usim := (PurgeLoginAttempts (U := cuuid) 10 w0).2.
Lemma purge_correct_witness :
  (PurgeLoginAttempts (U := cuuid) 10 w0).1 = Ok (2, None) ∧
  login_attempts (view w3) = [mkAttempt "a@b.c" "10.0.0.1" true 50].
Proof.
  split; [vm_compute; reflexivity|].
  edestruct (proj1 (purge_correct (U := cuuid) 10 w0) (Ok (2, None)) w3)
    as (n & err & E & _ & _ & _ & Hl).
  - unfold w3. apply run_eq. vm_compute. reflexivity.
  - injection E as <- <-. rewrite (proj1 (Hl eq_refl)). vm_compute. reflexivity.
Defined.

(** The second registration with the same address is refused and changes nothing. *)
Lemma PGRepository_refines_witness :
  (Create heidi w1).1 = Err ErrAlreadyExists ∧
  atomic (Spec.Create heidi) w1 (Err ErrAlreadyExists) (Create heidi w1).2.
Proof.
  split; [vm_compute; reflexivity|].
  pose proof (proj1 (PGRepository_refines (U := cuuid) (λ _ : usim, tt))) as Hl.
  apply (users_Create_ok (λ _ : usim, tt) (UserRepoLaws := Hl) heidi). apply run_eq. vm_compute. reflexivity.
Defined.
End Witness.
