(* ===== verification/Base64.v ===== *)
(** * [encoding/base64]: the standard encoding with padding

    Four digits for three bytes.  The decoder skips line breaks, accepts padding only at the
    end, and does not check the bits that padding leaves over. *)
From S2P Require Import Prelude GoStd.
Open Scope Z_scope.

Definition b64_digit (n : Z) : Z :=
  if n <? 26 then 65 + n else if n <? 52 then 71 + n else if n <? 62 then n - 4
  else if n =? 62 then 43 else 47.
Definition b64_value (b : Z) : option Z :=
  if (65 <=? b) && (b <=? 90) then Some (b - 65)
  else if (97 <=? b) && (b <=? 122) then Some (b - 71)
  else if (48 <=? b) && (b <=? 57) then Some (b + 4)
  else if b =? 43 then Some 62 else if b =? 47 then Some 63 else None.
Definition b64_pad : Z := 61.

Fixpoint b64_encode (l : list Z) : list Z :=
  match l with
  | [] => []
  | [a] => [b64_digit (a / 4); b64_digit (a mod 4 * 16); b64_pad; b64_pad]
  | [a; b] =>
      [b64_digit (a / 4); b64_digit (a mod 4 * 16 + b / 16); b64_digit (b mod 16 * 4); b64_pad]
  | a :: b :: c :: l' =>
      b64_digit (a / 4) :: b64_digit (a mod 4 * 16 + b / 16) ::
      b64_digit (b mod 16 * 4 + c / 64) :: b64_digit (c mod 64) :: b64_encode l'
  end.

Fixpoint b64_decode (l : list Z) : option (list Z) :=
  match l with
  | [] => Some []
  | c1 :: c2 :: c3 :: c4 :: l' =>
      a ← b64_value c1; b ← b64_value c2;
      let x := a * 4 + b / 16 in
      if c3 =? b64_pad then
        match l' with [] => if c4 =? b64_pad then Some [x] else None | _ => None end
      else
        c ← b64_value c3;
        let y := b mod 16 * 16 + c / 4 in
        if c4 =? b64_pad then match l' with [] => Some [x; y] | _ => None end
        else e ← b64_value c4; r ← b64_decode l'; Some (x :: y :: (c mod 4 * 64 + e) :: r)
  | _ => None
  end.

Definition base64_EncodeToString (l : list Z) : string := string_of (b64_encode l).
Definition base64_DecodeString (s : string) : res (list Z) :=
  match b64_decode (filter (λ b, b ≠ 10 ∧ b ≠ 13) (bytes_of s)) with
  | Some l => Ok l
  | None => Err (Plain "illegal base64 data")
  end.

(** ** Round trip *)
Lemma b64_digit_range n : 0 ≤ n < 64 → 43 ≤ b64_digit n ≤ 122 ∧ b64_digit n ≠ b64_pad.
Proof. intros Hn. unfold b64_digit, b64_pad. repeat case_match; lia. Qed.

Lemma b64_value_digit n : 0 ≤ n < 64 → b64_value (b64_digit n) = Some n.
Proof.
  intros Hn.
  assert (Hall : Forall (λ n, b64_value (b64_digit n) = Some n) (seqZ 0 64))
    by (vm_compute; repeat constructor).
  rewrite Forall_forall in Hall. apply Hall, elem_of_seqZ. lia.
Qed.

Lemma list_ind3 {A} (P : list A → Prop) :
  P [] → (∀ a, P [a]) → (∀ a b, P [a; b]) → (∀ a b c l, P l → P (a :: b :: c :: l)) → ∀ l, P l.
Proof.
  intros H0 H1 H2 H3 l. enough (P l ∧ ∀ a, P (a :: l) ∧ ∀ b, P (a :: b :: l)) by tauto.
  induction l as [|c l (IH0 & IH1)]; [by auto|]. split; [apply IH1|]. intros a. split; [apply IH1|].
  intros b. by apply H3.
Qed.

Lemma b64_encode_range l : Forall (λ b, 0 ≤ b < 256) l → Forall (λ b, 43 ≤ b ≤ 122) (b64_encode l).
Proof.
  assert (Hp : 43 ≤ b64_pad ≤ 122) by (unfold b64_pad; lia).
  induction l as [|a|a b|a b c l IH] using list_ind3; intros Hl; cbn [b64_encode];
    repeat (apply Forall_cons in Hl as [? Hl]);
    repeat (constructor; [first [exact Hp|apply b64_digit_range; Z.to_euclidean_division_equations; lia]|]);
    auto.
Qed.

Lemma b64_digit_ne_pad n : 0 ≤ n < 64 → (b64_digit n =? b64_pad) = false.
Proof. intros Hn. apply Z.eqb_neq. by apply b64_digit_range. Qed.

Lemma b64_round_trip l : Forall (λ b, 0 ≤ b < 256) l → b64_decode (b64_encode l) = Some l.
Proof.
  assert (Hdiv : ∀ a b c, 0 ≤ a < 256 → 0 ≤ b < 256 → 0 ≤ c < 256 →
    0 ≤ a / 4 < 64 ∧ 0 ≤ a mod 4 * 16 < 64 ∧ 0 ≤ a mod 4 * 16 + b / 16 < 64 ∧
    0 ≤ b mod 16 * 4 < 64 ∧ 0 ≤ b mod 16 * 4 + c / 64 < 64 ∧ 0 ≤ c mod 64 < 64).
  { intros a b c Ha Hb Hc. Z.to_euclidean_division_equations. lia. }
  induction l as [|a|a b|a b c l IH] using list_ind3; intros Hl; cbn [b64_encode b64_decode];
    repeat (apply Forall_cons in Hl as [? Hl]); [done|..].
  - destruct (Hdiv a 0 0) as (? & ? & _); [lia..|].
    rewrite !b64_value_digit by done. cbn -[Z.div Z.modulo Z.mul Z.add]. do 2 f_equal.
    Z.to_euclidean_division_equations. lia.
  - destruct (Hdiv a b 0) as (? & ? & ? & ? & _); [lia..|].
    rewrite !b64_value_digit by done. cbn -[Z.div Z.modulo Z.mul Z.add b64_value Z.eqb b64_pad].
    rewrite b64_digit_ne_pad by done. cbn -[Z.div Z.modulo Z.mul Z.add].
    do 2 f_equal; [|f_equal]; Z.to_euclidean_division_equations; lia.
  - destruct (Hdiv a b c) as (? & ? & ? & ? & ? & ?); [lia..|].
    rewrite !b64_value_digit by done. cbn -[Z.div Z.modulo Z.mul Z.add b64_value Z.eqb b64_pad b64_decode].
    rewrite !b64_digit_ne_pad by done. cbn -[Z.div Z.modulo Z.mul Z.add b64_decode].
    rewrite IH by done. cbn -[Z.div Z.modulo Z.mul Z.add].
    f_equal. f_equal; [|f_equal; [|f_equal]]; Z.to_euclidean_division_equations; lia.
Qed.

Lemma base64_round_trip l :
  Forall (λ b, 0 ≤ b < 256) l → base64_DecodeString (base64_EncodeToString l) = Ok l.
Proof.
  intros Hl. unfold base64_DecodeString, base64_EncodeToString.
  pose proof (b64_encode_range l Hl) as Hr.
  rewrite bytes_of_string by (eapply Forall_impl; [exact Hr|simpl; lia]).
  assert (Hf : filter (λ b, b ≠ 10 ∧ b ≠ 13) (b64_encode l) = b64_encode l).
  { induction Hr as [|b k Hb _ IH]; [done|]. rewrite filter_cons_True by lia. by rewrite IH. }
  by rewrite Hf, b64_round_trip.
Qed.

(** ** [base64.RawStdEncoding]: the same digits without padding *)
Fixpoint b64_raw_encode (l : list Z) : list Z :=
  match l with
  | [] => []
  | [a] => [b64_digit (a / 4); b64_digit (a mod 4 * 16)]
  | [a; b] => [b64_digit (a / 4); b64_digit (a mod 4 * 16 + b / 16); b64_digit (b mod 16 * 4)]
  | a :: b :: c :: l' =>
      b64_digit (a / 4) :: b64_digit (a mod 4 * 16 + b / 16) ::
      b64_digit (b mod 16 * 4 + c / 64) :: b64_digit (c mod 64) :: b64_raw_encode l'
  end.
Fixpoint b64_raw_decode (l : list Z) : option (list Z) :=
  match l with
  | [] => Some []
  | [_] => None
  | [c1; c2] => a ← b64_value c1; b ← b64_value c2; Some [a * 4 + b / 16]
  | [c1; c2; c3] =>
      a ← b64_value c1; b ← b64_value c2; c ← b64_value c3;
      Some [a * 4 + b / 16; b mod 16 * 16 + c / 4]
  | c1 :: c2 :: c3 :: c4 :: l' =>
      a ← b64_value c1; b ← b64_value c2; c ← b64_value c3; e ← b64_value c4;
      r ← b64_raw_decode l';
      Some (a * 4 + b / 16 :: b mod 16 * 16 + c / 4 :: c mod 4 * 64 + e :: r)
  end.
Definition base64_RawEncodeToString (s : string) : string := string_of (b64_raw_encode (bytes_of s)).
Definition base64_RawDecodeString (s : string) : res string :=
  match b64_raw_decode (filter (λ b, b ≠ 10 ∧ b ≠ 13) (bytes_of s)) with
  | Some l => Ok (string_of l)
  | None => Err (Plain "illegal base64 data")
  end.

Lemma b64_raw_encode_range l :
  Forall (λ b, 0 ≤ b < 256) l → Forall (λ b, 43 ≤ b ≤ 122) (b64_raw_encode l).
Proof.
  induction l as [|a|a b|a b c l IH] using list_ind3; intros Hl; cbn [b64_raw_encode];
    repeat (apply Forall_cons in Hl as [? Hl]);
    repeat (constructor; [apply b64_digit_range; Z.to_euclidean_division_equations; lia|]);
    auto.
Qed.
Lemma b64_raw_round_trip l :
  Forall (λ b, 0 ≤ b < 256) l → b64_raw_decode (b64_raw_encode l) = Some l.
Proof.
  assert (Hdiv : ∀ a b c, 0 ≤ a < 256 → 0 ≤ b < 256 → 0 ≤ c < 256 →
    0 ≤ a / 4 < 64 ∧ 0 ≤ a mod 4 * 16 < 64 ∧ 0 ≤ a mod 4 * 16 + b / 16 < 64 ∧
    0 ≤ b mod 16 * 4 < 64 ∧ 0 ≤ b mod 16 * 4 + c / 64 < 64 ∧ 0 ≤ c mod 64 < 64).
  { intros a b c Ha Hb Hc. Z.to_euclidean_division_equations. lia. }
  induction l as [|a|a b|a b c l IH] using list_ind3; intros Hl; cbn [b64_raw_encode b64_raw_decode];
    repeat (apply Forall_cons in Hl as [? Hl]); [done|..].
  - destruct (Hdiv a 0 0) as (? & ? & _); [lia..|].
    rewrite !b64_value_digit by done. cbn -[Z.div Z.modulo Z.mul Z.add]. do 2 f_equal.
    Z.to_euclidean_division_equations. lia.
  - destruct (Hdiv a b 0) as (? & ? & ? & ? & _); [lia..|].
    rewrite !b64_value_digit by done. cbn -[Z.div Z.modulo Z.mul Z.add].
    do 2 f_equal; [|f_equal]; Z.to_euclidean_division_equations; lia.
  - destruct (Hdiv a b c) as (? & ? & ? & ? & ? & ?); [lia..|].
    rewrite !b64_value_digit by done. cbn -[Z.div Z.modulo Z.mul Z.add b64_raw_decode].
    rewrite IH by done. cbn -[Z.div Z.modulo Z.mul Z.add].
    f_equal. f_equal; [|f_equal; [|f_equal]]; Z.to_euclidean_division_equations; lia.
Qed.
Lemma base64_raw_round_trip s : base64_RawDecodeString (base64_RawEncodeToString s) = Ok s.
Proof.
  unfold base64_RawDecodeString, base64_RawEncodeToString.
  pose proof (bytes_of_range s) as Hl. pose proof (b64_raw_encode_range _ Hl) as Hr.
  rewrite bytes_of_string by (eapply Forall_impl; [exact Hr|simpl; lia]).
  assert (Hf : filter (λ b, b ≠ 10 ∧ b ≠ 13) (b64_raw_encode (bytes_of s)) = b64_raw_encode (bytes_of s)).
  { induction Hr as [|b k Hb _ IH]; [done|]. rewrite filter_cons_True by lia. by rewrite IH. }
  by rewrite Hf, b64_raw_round_trip, string_of_bytes.
Qed.
