(* ===== verification/AuthCrypto.v ===== *)
(** * Passwords, TOTP secrets and recovery codes: internal/auth/password.go, hmac.go,
    mfa_crypto.go

    Argon2id, AES-GCM, HMAC-SHA256, TOTP and the random source are parameters with their
    documented behaviour; hex, base64 and the handling of errors, sizes and separators are
    the program's. *)
From S2P Require Import Prelude GoStd Platform Base64.
Open Scope Z_scope.

(** ** The cryptographic libraries *)

(** crypto/rand never fails. *)
Class RandLib (W : Type) : Type := { rand_Read : nat → W → list Z * W }.
Class RandLaws (W : Type) `{RandLib W} : Prop := {
  rand_Read_spec : ∀ n w, length (rand_Read n w).1 = n ∧
                          Forall (λ b, 0 ≤ b < 256) (rand_Read n w).1;
}.

(** github.com/alexedwards/argon2id *)
Record Params := mkParams {
  Memory : Z; Iterations : Z; Parallelism : Z; SaltLength : Z; KeyLength : Z }.
Class Argon2 (W : Type) : Type := {
  argon2id_CreateHash : string → Params → M W string;
  argon2id_ComparePasswordAndHash : string → string → res bool;
  argon2id_DecodeHash : string → res (Params * list Z * list Z);
}.
Class Argon2Laws (W : Type) `{Argon2 W} : Prop := {
  argon2id_spec : ∀ password p w h w',
    argon2id_CreateHash password p w = (Ok h, w') →
    argon2id_ComparePasswordAndHash password h = Ok true ∧
    ∃ p' salt key, argon2id_DecodeHash h = Ok (p', salt, key) ∧
      Memory p' = Memory p ∧ Iterations p' = Iterations p ∧ Parallelism p' = Parallelism p ∧
      Z.of_nat (length salt) = SaltLength p ∧ Z.of_nat (length key) = KeyLength p;
}.

(** AES-GCM with a 12-byte nonce, and HMAC-SHA256. *)
Class CryptoLib : Type := {
  gcm_Seal : list Z → list Z → list Z → list Z;
  gcm_Open : list Z → list Z → list Z → res (list Z);
  hmac_SHA256 : list Z → list Z → list Z;
}.
Class CryptoLaws `{CryptoLib} : Prop := {
  gcm_Open_Seal : ∀ key nonce plaintext, gcm_Open key nonce (gcm_Seal key nonce plaintext) = Ok plaintext;
  gcm_Seal_range : ∀ key nonce plaintext, Forall (λ b, 0 ≤ b < 256) (gcm_Seal key nonce plaintext);
}.
Definition gcm_NonceSize : nat := 12.

(** [aes.NewCipher]: AES-128, AES-192 or AES-256. *)
Definition aes_NewCipher (key : list Z) : res (list Z) :=
  if bool_decide (length key ∈ [16; 24; 32]%nat) then Ok key
  else Err (Plain "crypto/aes: invalid key size").

(** github.com/pquerna/otp/totp; [Validate] reads the clock. *)
Class TotpLib (W : Type) : Type := {
  totp_Validate : string → string → Z → bool;
  totp_Generate : string → string → M W (string * string);
}.

(** [rand.Read] of [n] bytes. *)
Definition random_bytes {W} `{RandLib W} (n : nat) : M W (list Z) :=
  λ w, let '(b, w') := rand_Read n w in (Ok b, w').

(** ** password.go *)
Section password.
Context {W : Type} `{Argon2 W}.

Definition HashPassword (password : string) (params : Params) : M W string :=
  wrap "hash password" (argon2id_CreateHash password params).

Definition VerifyPassword (password hash : string) : res bool :=
  match argon2id_ComparePasswordAndHash password hash with
  | Ok b => Ok b
  | Err e => Err (Wrap "verify password" e)
  end.

(** The lengths are converted to uint32 before they are compared. *)
Definition uint32 (n : nat) : Z := Z.of_nat n mod 2^32.
Definition NeedsRehash (hash : string) (params : Params) : res bool :=
  match argon2id_DecodeHash hash with
  | Err e => Err (Wrap "decode password hash" e)
  | Ok (p, salt, key) =>
      Ok (negb (Memory p =? Memory params) || negb (Iterations p =? Iterations params) ||
          negb (Parallelism p =? Parallelism params) ||
          negb (uint32 (length salt) =? SaltLength params) ||
          negb (uint32 (length key) =? KeyLength params))
  end.
End password.

(** ** hmac.go *)
Definition HMACIdentifier `{CryptoLib} (identifier hexKey : string) : res string :=
  match hex_DecodeString hexKey with
  | Err e => Err (Wrap "decode HMAC key" e)
  | Ok key => Ok (hex_EncodeToString (hmac_SHA256 key (bytes_of identifier)))
  end.

(** ** mfa_crypto.go *)
Section mfa_crypto.
Context {W : Type} `{Argon2 W} `{RandLib W} `{CryptoLib}.

(** [cipher.NewGCM] cannot fail on an AES block. *)
Definition new_gcm (hexKey : string) : res (list Z) :=
  match hex_DecodeString hexKey with
  | Err e => Err (Wrap "decode encryption key" e)
  | Ok key => match aes_NewCipher key with
              | Err e => Err (Wrap "create cipher" e)
              | Ok key => Ok key
              end
  end.

Definition EncryptTOTPSecret (secret hexKey : string) : M W string :=
  key ← of_res (new_gcm hexKey);
  nonce ← random_bytes gcm_NonceSize;
  mret (base64_EncodeToString (nonce ++ gcm_Seal key nonce (bytes_of secret))).

(** The key is decoded first, then the text, then the cipher is built. *)
Definition DecryptTOTPSecret (encoded hexKey : string) : res string :=
  match hex_DecodeString hexKey with
  | Err e => Err (Wrap "decode encryption key" e)
  | Ok key =>
      match base64_DecodeString encoded with
      | Err e => Err (Wrap "decode ciphertext" e)
      | Ok data =>
          match aes_NewCipher key with
          | Err e => Err (Wrap "create cipher" e)
          | Ok key =>
              if Nat.ltb (length data) gcm_NonceSize then Err (Plain "ciphertext too short")
              else match gcm_Open key (take gcm_NonceSize data) (drop gcm_NonceSize data) with
                   | Err e => Err (Wrap "decrypt" e)
                   | Ok plaintext => Ok (string_of plaintext)
                   end
          end
      end
  end.

Definition recoveryCodeCount : nat := 10.

(** [h[:4] + "-" + h[4:8] + "-" + ...] of twenty digits. *)
Definition dash : list Z := [45].
Definition group_code (h : list Z) : list Z :=
  take 4 h ++ dash ++ take 4 (drop 4 h) ++ dash ++ take 4 (drop 8 h) ++ dash ++
  take 4 (drop 12 h) ++ dash ++ drop 16 h.
Definition recovery_code : M W string :=
  b ← random_bytes 10; mret (string_of (group_code (hex_encode b))).
Fixpoint recovery_codes (n : nat) : M W (list string) :=
  match n with
  | O => mret []
  | S n' => c ← recovery_code; cs ← recovery_codes n'; mret (c :: cs)
  end.
Definition GenerateRecoveryCodes : M W (list string) := recovery_codes recoveryCodeCount.

(** [strings.ReplaceAll(code, "-", "")]. *)
Definition strip_dashes (code : string) : string :=
  string_of (filter (λ b, b ≠ 45) (bytes_of code)).
Definition HashRecoveryCode (code : string) (params : Params) : M W string :=
  HashPassword (strip_dashes code) params.
Definition VerifyRecoveryCode (code hash : string) : res bool :=
  VerifyPassword (W := W) (strip_dashes code) hash.
End mfa_crypto.

(** ** Properties *)
Section properties.
Context {W : Type} `{Argon2 W} `{RandLib W} `{CryptoLib}.
Context `{!Argon2Laws W} `{!RandLaws W} `{!CryptoLaws}.

Definition params_in_range (p : Params) : Prop :=
  0 ≤ SaltLength p < 2^32 ∧ 0 ≤ KeyLength p < 2^32.

Lemma random_bytes_spec n w b w' :
  random_bytes (W := W) n w = (Ok b, w') → length b = n ∧ Forall (λ x, 0 ≤ x < 256) b.
Proof.
  unfold random_bytes. pose proof (rand_Read_spec n w) as Hs.
  destruct (rand_Read n w) as [b0 w0]. by intros [= -> ->].
Qed.

(** Hashing and checking agree.  A password hashed with the configured parameters
    verifies, and its hash does not ask for a rehash under these parameters, so the rotation
    on login happens at most once per change of the parameters. *)
Lemma rehash_converges password p w h w' :
  HashPassword password p w = (Ok h, w') → params_in_range p →
  VerifyPassword (W := W) password h = Ok true ∧ NeedsRehash (W := W) h p = Ok false.
Proof.
  intros E [Hs Hk]. apply wrap_Ok_inv in E.
  apply argon2id_spec in E as (Hc & p' & salt & key & Hd & Hm & Hi & Hp & Hsl & Hkl).
  unfold VerifyPassword, NeedsRehash. rewrite Hc, Hd. split; [done|]. do 2 f_equal.
  unfold uint32. rewrite Hsl, Hkl, !Z.mod_small, Hm, Hi, Hp, !Z.eqb_refl by done. done.
Qed.

(** A TOTP secret survives encryption: what [EncryptTOTPSecret] stores decrypts, with the
    same key, to the secret. *)
Lemma totp_round_trip secret hexKey w e w' :
  EncryptTOTPSecret secret hexKey w = (Ok e, w') → DecryptTOTPSecret e hexKey = Ok secret.
Proof.
  intros E. unfold EncryptTOTPSecret in E.
  apply bind_Ok_inv in E as (key & w1 & E1 & E). unfold of_res, new_gcm in E1.
  destruct (hex_DecodeString hexKey) as [k|] eqn:Eh; [|done].
  destruct (aes_NewCipher k) as [k'|] eqn:Ea; [|done]. simplify_eq.
  apply bind_Ok_inv in E as (nonce & w2 & E2 & E). go_inv.
  apply random_bytes_spec in E2 as [Hlen Hrng].
  unfold DecryptTOTPSecret. rewrite Eh, base64_round_trip, Ea.
  - rewrite (proj2 (Nat.ltb_ge _ _)) by (rewrite length_app; lia).
    rewrite take_app_length', drop_app_length' by done.
    by rewrite gcm_Open_Seal, string_of_bytes.
  - apply Forall_app. split; [done|apply gcm_Seal_range].
Qed.
End properties.
