(* ===== verification/AuthService.v ===== *)
(** * The authentication service: internal/auth/service.go

    Every method of Service, over the user repository (UserDB.v, through its interface), the
    tokens in Valkey (Tokens.v), access tokens (Jwt.v), password and MFA cryptography
    (AuthCrypto.v) and the permission publisher (PermInvalidate.v).  Log lines are left out;
    an error that is only logged is dropped. *)
From S2P Require Import Prelude GoStd Platform Permission PermCache PermInvalidate Validate Config.
From S2P Require Import Tokens Jwt Postgres Domain UserDB Base64 AuthCrypto.
Open Scope Z_scope.

(** ** errors.go; the errors of validation and of the tokens are in Validate.v and Tokens.v *)
Definition ErrInvalidCredentials : error := Sentinel "auth.ErrInvalidCredentials".
Definition ErrDisposableEmail : error := Sentinel "auth.ErrDisposableEmail".
Definition ErrEmailAlreadyTaken : error := Sentinel "auth.ErrEmailAlreadyTaken".
Definition ErrInvalidMFACode : error := Sentinel "auth.ErrInvalidMFACode".
Definition ErrMFANotEnabled : error := Sentinel "auth.ErrMFANotEnabled".
Definition ErrMFAAlreadyEnabled : error := Sentinel "auth.ErrMFAAlreadyEnabled".
Definition ErrMFANotConfigured : error := Sentinel "auth.ErrMFANotConfigured".
Definition ErrServerOwner : error := Sentinel "auth.ErrServerOwner".
Definition ErrAccountTombstoned : error := Sentinel "auth.ErrAccountTombstoned".
Definition ErrMFASetupLocked : error := Sentinel "auth.ErrMFASetupLocked".
Definition ErrEmailAlreadyVerified : error := Sentinel "auth.ErrEmailAlreadyVerified".
Definition ErrVerificationCooldown : error := Sentinel "auth.ErrVerificationCooldown".

Definition verifyTokenBytes : nat := 32.

(** Other collaborators: the server repository and the disposable-email blocklist. *)
Class ServerRepo (U W : Type) : Type := { server_Get : M W (Server.Config U) }.
Class Blocklist (W : Type) : Type := { blocklist_IsBlocked : string → M W bool }.

Definition Sender (W : Type) : Type := string → string → string → string → M W unit.
Definition noOpSender {W} : Sender W := λ _ _ _ _, mret tt.

Record Service (W : Type) := mkService {
  config : Config;
  sender : Sender W;
  dummyHash : string;
}.
Arguments mkService {W}. Arguments config {W}. Arguments sender {W}. Arguments dummyHash {W}.

Record RegisterRequest := mkRegister { rr_Email : string; rr_Username : string; rr_Password : string }.
Record LoginRequest := mkLogin { lr_Email : string; lr_Password : string; lr_IP : string }.
Record Result := mkResult { res_User : Models.User; AccessToken : string; RefreshToken : string }.
Record LoginResult := mkLoginResult { MFARequired : bool; Ticket : string; lr_Auth : option Result }.
Record MFASetupResult := mkMFASetup { setup_Secret : string; setup_URI : string }.
Record TokenPair := mkTokenPair { tp_Access : string; tp_Refresh : string }.

(** The Argon2 settings every call passes. *)
Definition argon2_params (cfg : Config) : Params :=
  mkParams (Argon2Memory cfg) (Argon2Iterations cfg) (Argon2Parallelism cfg)
    (Argon2SaltLength cfg) (Argon2KeyLength cfg).

Section service.
Context {U W : Type} `{UUIDLib U} `{Valkey W} `{IdGen U W} `{Clock W} `{JwtLib} `{NetMail}.
Context `{RandLib W} `{Argon2 W} `{CryptoLib} `{TotpLib W}.
Context `{UserRepo U W} `{ServerRepo U W} `{Blocklist W} `{!Codec (InvalidationMessage U)}.

Definition NewService (cfg : Config) (snd : option (Sender W)) : M W (Service W) :=
  dummy ← wrap "generate dummy hash" (HashPassword "uncord-dummy-password" (argon2_params cfg));
  mret (mkService cfg (match snd with Some f => f | None => noOpSender end) dummy).

Context (s : Service W).
Abbreviation cfg := (config s).

Definition RevokeAllUserTokens (userID : U) : M W unit := RevokeAllRefreshTokens userID.
Definition IssueGatewayTicket (userID : U) : M W string := CreateGatewayTicket userID.

Definition generateSecureToken (n : nat) : M W string :=
  b ← random_bytes n; mret (hex_EncodeToString b).

Definition recordLoginAttempt (email ip : string) (success : bool) : M W unit :=
  best_effort (users_RecordLoginAttempt (U := U) email ip success).

Definition issueTokens (userID : U) (emailVerified : bool) : M W TokenPair :=
  access ← wrap "create access token"
    (NewAccessToken userID (Expose (JWTSecret cfg)) (JWTAccessTTL cfg) (ServerURL cfg) emailVerified);
  refresh ← wrap "create refresh token" (CreateRefreshToken userID (JWTRefreshTTL cfg));
  mret (mkTokenPair access refresh).

(** [errors.Is(err, target) ? err' : fmt.Errorf("ctx: %w", err)] is [on_err]; a call whose
    error is returned as it is needs no more than a bind. *)
Definition server_HMAC (ctx identifier : string) : M W string :=
  wrap ctx (of_res (HMACIdentifier identifier (Expose (ServerSecret cfg)))).

Definition check_tombstone (ctx type hmac : string) : M W unit :=
  tombstoned ← wrap ctx (users_CheckTombstone (U := U) type hmac);
  if tombstoned : bool then fail ErrAccountTombstoned else mret tt.

Definition Register (req : RegisterRequest) : M W Result :=
  '(email, domain) ← of_res (Auth.ValidateEmail (rr_Email req));
  of_res (Auth.ValidateUsername (rr_Username req)) ;;
  of_res (Auth.ValidatePassword (rr_Password req)) ;;
  blocked ← try (blocklist_IsBlocked domain);
  (if match blocked with Ok b => b | Err _ => false end then fail ErrDisposableEmail else mret tt) ;;
  emailHMAC ← server_HMAC "compute email HMAC" email;
  check_tombstone "check email tombstone" User.TombstoneEmail emailHMAC ;;
  usernameHMAC ← server_HMAC "compute username HMAC" (ToLower unicode_ToLower (rr_Username req));
  check_tombstone "check username tombstone" User.TombstoneUsername usernameHMAC ;;
  hash ← wrap "hash password" (HashPassword (rr_Password req) (argon2_params cfg));
  verifyToken ← generateSecureToken verifyTokenBytes;
  now ← gets time_Now;
  userID ← map_err (on_err ErrAlreadyExists ErrEmailAlreadyTaken "create user")
    (users_Create (User.mkCreateParams email (rr_Username req) hash verifyToken (now + 24 * Hour)));
  best_effort (sender s email verifyToken (ServerURL cfg) (ServerName cfg)) ;;
  tokens ← issueTokens userID false;
  mret (mkResult
    (Models.mkUser (uuid_String userID) email (rr_Username req) None None None None None None None
       false false)
    (tp_Access tokens) (tp_Refresh tokens)).

(** Lazy hash rotation; a failure at any point leaves the stored hash. *)
Definition rotate_hash (u : User.Credentials U) (password : string) : M W unit :=
  match NeedsRehash (W := W) (User.PasswordHash u) (argon2_params cfg) with
  | Ok true =>
      newHash ← try (HashPassword password (argon2_params cfg));
      match newHash with
      | Ok h => best_effort (users_UpdatePasswordHash (User.ID (User.cred_User u)) h)
      | Err _ => mret tt
      end
  | _ => mret tt
  end.

Definition Login (req : LoginRequest) : M W LoginResult :=
  '(email, _) ← of_res (Auth.ValidateEmail (lr_Email req));
  found ← try (users_GetByEmail (U := U) email);
  match found with
  | Err err =>
      if errors_Is err UserDB.ErrNotFound then
        (* VerifyPassword against the dummy hash: only its time matters *)
        recordLoginAttempt email (lr_IP req) false ;; fail ErrInvalidCredentials
      else fail (Wrap "get user" err)
  | Ok u =>
      let id := User.ID (User.cred_User u) in
      ok ← wrap "verify password" (of_res (VerifyPassword (W := W) (lr_Password req) (User.PasswordHash u)));
      if negb ok then recordLoginAttempt email (lr_IP req) false ;; fail ErrInvalidCredentials
      else if User.MFAEnabled (User.cred_User u) then
        ticket ← wrap "create MFA ticket" (CreateMFATicket id (MFATicketTTL cfg));
        recordLoginAttempt email (lr_IP req) true ;;
        mret (mkLoginResult true ticket None)
      else
        rotate_hash u (lr_Password req) ;;
        recordLoginAttempt email (lr_IP req) true ;;
        tokens ← issueTokens id (User.EmailVerified (User.cred_User u));
        mret (mkLoginResult false "" (Some
          (mkResult (User.ToModel (User.cred_User u)) (tp_Access tokens) (tp_Refresh tokens))))
  end.

Definition Refresh (oldToken : string) : M W TokenPair :=
  lookedUp ← try (ValidateRefreshToken (U := U) oldToken);
  rotated ← try (RotateRefreshToken (U := U) oldToken (JWTRefreshTTL cfg));
  match rotated with
  | Err err =>
      if errors_Is err ErrRefreshTokenReused then
        match lookedUp with
        | Ok lookedUpUserID => best_effort (RevokeAllRefreshTokens lookedUpUserID)
        | Err _ => mret tt
        end ;;
        fail ErrRefreshTokenReused
      else if match lookedUp with Err e => errors_Is e ErrRefreshTokenNotFound | Ok _ => false end
      then fail ErrRefreshTokenReused
      else fail err
  | Ok (newRefresh, userID) =>
      u ← wrap "get user for refresh" (users_GetByID userID);
      access ← wrap "create access token"
        (NewAccessToken userID (Expose (JWTSecret cfg)) (JWTAccessTTL cfg) (ServerURL cfg)
           (User.EmailVerified u));
      mret (mkTokenPair access newRefresh)
  end.

Definition VerifyEmail (token : string) : M W Result :=
  userID ← map_err (on_err UserDB.ErrInvalidToken Tokens.ErrInvalidToken "verify email")
    (users_VerifyEmail token);
  u ← wrap "get user after email verification" (users_GetByID userID);
  tokens ← issueTokens userID true;
  mret (mkResult (User.ToModel u) (tp_Access tokens) (tp_Refresh tokens)).

Definition ResendVerification (userID : U) : M W unit :=
  u ← wrap "get user for resend verification" (users_GetByID userID);
  if User.EmailVerified u then fail ErrEmailAlreadyVerified
  else
    verifyToken ← generateSecureToken verifyTokenBytes;
    now ← gets time_Now;
    map_err (on_err UserDB.ErrVerificationCooldown ErrVerificationCooldown "replace verification token")
      (users_ReplaceVerificationToken userID verifyToken (now + 24 * Hour) (60 * Second)) ;;
    best_effort (sender s (User.Email u) verifyToken (ServerURL cfg) (ServerName cfg)).

(** *** MFA *)
Definition completeMFALogin (creds : User.Credentials U) : M W Result :=
  let u := User.cred_User creds in
  tokens ← issueTokens (User.ID u) (User.EmailVerified u);
  mret (mkResult (User.ToModel u) (tp_Access tokens) (tp_Refresh tokens)).

(** Every stored code is checked; the first that matches is the one used.  A code that cannot
    be checked is skipped. *)
Definition match_code (code : string) (matched : option (User.MFARecoveryCode U))
    (rc : User.MFARecoveryCode U) : option (User.MFARecoveryCode U) :=
  match VerifyRecoveryCode (W := W) code (User.CodeHash rc), matched with
  | Ok true, None => Some rc
  | _, _ => matched
  end.
Definition tryRecoveryCode (userID : U) (code : string) : M W unit :=
  codes ← wrap "get recovery codes" (users_GetUnusedRecoveryCodes userID);
  match foldl (match_code code) None codes with
  | Some matched => wrap "mark recovery code used" (users_UseRecoveryCode (User.code_ID matched))
  | None => fail ErrInvalidMFACode
  end.

(** The TOTP check and its fallback, shared by VerifyMFA and DisableMFA; [ctx] names the
    caller in the wrapped error. *)
Definition check_second_factor (ctx secret code : string) (userID : U) : M W unit :=
  now ← gets time_Now;
  if totp_Validate (W := W) code secret now then mret tt
  else map_err (on_err ErrInvalidMFACode ErrInvalidMFACode ctx) (tryRecoveryCode userID code).

Definition decrypt_secret (ctx encoded : string) : M W string :=
  wrap ctx (of_res (DecryptTOTPSecret encoded (Expose (MFAEncryptionKey cfg)))).

Definition VerifyMFA (ticket code : string) : M W Result :=
  userID ← ConsumeMFATicket (U := U) ticket;
  creds ← wrap "get credentials for MFA verify" (users_GetCredentialsByID userID);
  match User.MFASecret creds with
  | None => fail ErrMFANotEnabled
  | Some encoded =>
      if negb (MFAConfigured cfg) then fail ErrMFANotConfigured
      else
        secret ← decrypt_secret "decrypt MFA secret" encoded;
        check_second_factor "try recovery code during login" secret code userID ;;
        completeMFALogin creds
  end.

(** The password gate of the account operations. *)
Definition with_password (ctx_get ctx_verify : string) (userID : U) (password : string) :
    M W (User.Credentials U) :=
  creds ← wrap ctx_get (users_GetCredentialsByID userID);
  ok ← wrap ctx_verify (of_res (VerifyPassword (W := W) password (User.PasswordHash creds)));
  if negb ok then fail ErrInvalidCredentials else mret creds.

Definition BeginMFASetup (userID : U) (password : string) : M W MFASetupResult :=
  if negb (MFAConfigured cfg) then fail ErrMFANotConfigured
  else
    creds ← with_password "get credentials for MFA setup" "verify password for MFA setup" userID password;
    if User.MFAEnabled (User.cred_User creds) then fail ErrMFAAlreadyEnabled
    else
      '(secret, url) ← wrap "generate TOTP key"
        (totp_Generate (ServerName cfg) (User.Email (User.cred_User creds)));
      encrypted ← wrap "encrypt TOTP secret" (EncryptTOTPSecret secret (Expose (MFAEncryptionKey cfg)));
      StorePendingMFASecret userID encrypted ;;
      best_effort (ResetMFASetupAttempts userID) ;;
      mret (mkMFASetup secret url).

Definition hash_code (c : string) : M W string :=
  wrap "hash recovery code" (HashRecoveryCode c (argon2_params cfg)).
Fixpoint hash_codes (codes : list string) : M W (list string) :=
  match codes with
  | [] => mret []
  | c :: codes' => h ← hash_code c; hs ← hash_codes codes'; mret (h :: hs)
  end.

(** When the counter cannot be read the attempt counts as none. *)
Definition ConfirmMFASetup (userID : U) (code : string) : M W (list string) :=
  if negb (MFAConfigured cfg) then fail ErrMFANotConfigured
  else
    encrypted ← ConsumePendingMFASecret userID;
    secret ← decrypt_secret "decrypt pending MFA secret" encrypted;
    now ← gets time_Now;
    if negb (totp_Validate (W := W) code secret now) then
      attempts ← try (IncrementMFASetupAttempts userID);
      if maxMFASetupAttempts <=? match attempts with Ok n => n | Err _ => 0 end
      then fail ErrMFASetupLocked
      else best_effort (StorePendingMFASecret userID encrypted) ;; fail ErrInvalidMFACode
    else
      codes ← GenerateRecoveryCodes;
      hashes ← hash_codes codes;
      wrap "enable MFA" (users_EnableMFA userID encrypted hashes) ;;
      mret codes.

Definition DisableMFA (userID : U) (password code : string) : M W unit :=
  creds ← with_password "get credentials for MFA disable" "verify password for MFA disable" userID password;
  match User.MFAEnabled (User.cred_User creds), User.MFASecret creds with
  | true, Some encoded =>
      if negb (MFAConfigured cfg) then fail ErrMFANotConfigured
      else
        secret ← decrypt_secret "decrypt MFA secret" encoded;
        check_second_factor "try recovery code during MFA disable" secret code userID ;;
        wrap "disable MFA" (users_DisableMFA userID) ;;
        best_effort (RevokeAllRefreshTokens userID)
  | _, _ => fail ErrMFANotEnabled
  end.

Definition RegenerateRecoveryCodes (userID : U) (password : string) : M W (list string) :=
  creds ← with_password "get credentials for recovery code regeneration"
            "verify password for recovery code regeneration" userID password;
  if negb (User.MFAEnabled (User.cred_User creds)) then fail ErrMFANotEnabled
  else
    codes ← GenerateRecoveryCodes;
    hashes ← hash_codes codes;
    wrap "replace recovery codes" (users_ReplaceRecoveryCodes userID hashes) ;;
    mret codes.

Definition VerifyUserPassword (userID : U) (password : string) : M W unit :=
  _ ← with_password "get credentials for password verification" "verify password" userID password;
  mret tt.

Definition DeleteAccount (userID : U) (password : string) : M W unit :=
  creds ← with_password "get credentials for account deletion"
            "verify password for account deletion" userID password;
  serverCfg ← wrap "get server config" (server_Get (U := U));
  if decide (Server.OwnerID serverCfg = userID) then fail ErrServerOwner
  else
    emailHMAC ← server_HMAC "compute email HMAC" (User.Email (User.cred_User creds));
    tombstones ←
      (let first := User.mkTombstone User.TombstoneEmail emailHMAC in
       if DeletionTombstoneUsernames cfg then
         usernameHMAC ← server_HMAC "compute username HMAC"
           (ToLower unicode_ToLower (User.Username (User.cred_User creds)));
         mret [first; User.mkTombstone User.TombstoneUsername usernameHMAC]
       else mret [first]);
    wrap "delete user with tombstones" (users_DeleteWithTombstones userID tombstones) ;;
    best_effort (RevokeAllRefreshTokens userID) ;;
    best_effort (InvalidateUser userID).
End service.
