(* ===== verification/AuthProofs.v ===== *)
(** * Properties of the authentication service

    Who obtains tokens and how: login, second factor, refresh, registration and deletion,
    proved against the contract of the user repository and the laws of the environment. *)
From S2P Require Import Prelude GoStd Platform Permission PermCache PermInvalidate Validate Config.
From S2P Require Import Tokens Jwt Postgres Frames Domain UserDB Base64 AuthCrypto AuthService.
Open Scope Z_scope.

(** Calls that have no hand in what [obs] sees. *)
Class EnvFrame (U : Type) {W V : Type} `{IdGen U W} `{RandLib W} `{Argon2 W} `{TotpLib W}
    `{ServerRepo U W} `{Blocklist W} (obs : W → V) : Prop := {
  new_uuid_keeps : keeps obs (new_uuid (U := U));
  random_keeps : ∀ n, keeps obs (random_bytes n);
  argon2_keeps : ∀ password p, keeps obs (argon2id_CreateHash password p);
  totp_Generate_keeps : ∀ issuer account, keeps obs (totp_Generate issuer account);
  server_Get_keeps : keeps obs (server_Get (U := U));
  blocklist_keeps : ∀ domain, keeps obs (blocklist_IsBlocked domain);
}.
#[export] Hint Resolve random_keeps argon2_keeps totp_Generate_keeps blocklist_keeps : keeps.
#[export] Hint Extern 1 (keeps _ new_uuid) => apply new_uuid_keeps : keeps.
#[export] Hint Extern 1 (keeps _ server_Get) => apply server_Get_keeps : keeps.

(** The server's owner is the one whose deletion the tables refuse. *)
Class ServerRepoLaws (U W : Type) `{UUIDLib U} `{Postgres (tables U) W} `{ServerRepo U W} : Prop := {
  server_Get_owner : ∀ (w : W) c w', server_Get w = (Ok c, w') →
    server_owner (pg_view (DB := tables U) w) = Some (Server.OwnerID c);
}.

Section frames.
Context {U W V : Type} `{UUIDLib U} `{Valkey W} `{IdGen U W} `{Clock W} `{JwtLib} `{NetMail}.
Context `{RandLib W} `{Argon2 W} `{CryptoLib} `{TotpLib W}.
Context `{UserRepo U W} `{ServerRepo U W} `{Blocklist W} `{!Codec (InvalidationMessage U)}.
Context (obs : W → V) `{!ValkeyFrame obs} `{!EnvFrame U obs}.

(** Tokens, hashing and messages. *)
Lemma CreateRefreshToken_keeps (u : U) ttl : keeps obs (CreateRefreshToken u ttl).
Proof. unfold CreateRefreshToken. keeps. Qed.
Lemma ValidateRefreshToken_keeps t : keeps obs (ValidateRefreshToken (U := U) t).
Proof. unfold ValidateRefreshToken. keeps. Qed.
Lemma RotateRefreshToken_keeps t ttl : keeps obs (RotateRefreshToken (U := U) t ttl).
Proof. unfold RotateRefreshToken. keeps. Qed.
Lemma RevokeAll_keeps (u : U) : keeps obs (RevokeAllRefreshTokens u).
Proof. unfold RevokeAllRefreshTokens. keeps. Qed.
Lemma create_ticket_keeps key (u : U) ttl c : keeps obs (create_ticket key u ttl c).
Proof. unfold create_ticket. keeps. Qed.
Lemma consume_ticket_keeps key c1 c2 : keeps obs (consume_ticket (U := U) key c1 c2).
Proof. unfold consume_ticket. keeps. Qed.
Lemma NewAccessToken_keeps (u : U) secret ttl issuer ver : keeps obs (NewAccessToken u secret ttl issuer ver).
Proof. unfold NewAccessToken. keeps. Qed.
Lemma HashPassword_keeps password p : keeps obs (HashPassword password p).
Proof. unfold HashPassword. keeps. Qed.
Lemma InvalidateUser_keeps (u : U) : keeps obs (InvalidateUser u).
Proof. unfold InvalidateUser, publish. keeps. Qed.
Lemma pending_keeps (u : U) e :
  keeps obs (StorePendingMFASecret u e) ∧ keeps obs (ConsumePendingMFASecret u) ∧
  keeps obs (IncrementMFASetupAttempts u) ∧ keeps obs (ResetMFASetupAttempts u).
Proof.
  unfold StorePendingMFASecret, ConsumePendingMFASecret, IncrementMFASetupAttempts,
    ResetMFASetupAttempts, script_Int64. split_and!; keeps. apply expect_keeps.
Qed.
Lemma recovery_codes_keeps n : keeps obs (recovery_codes n).
Proof. induction n as [|n IH]; simpl; unfold recovery_code; keeps. Qed.
Lemma hash_codes_keeps s codes : keeps obs (hash_codes s codes).
Proof.
  induction codes as [|c codes IH]; simpl; unfold hash_code, HashRecoveryCode; keeps. apply HashPassword_keeps.
Qed.
Hint Resolve CreateRefreshToken_keeps NewAccessToken_keeps : keeps.
Lemma issueTokens_keeps s (u : U) ver : keeps obs (issueTokens s u ver).
Proof. unfold issueTokens. keeps. Qed.
End frames.
#[export] Hint Resolve CreateRefreshToken_keeps ValidateRefreshToken_keeps
  RotateRefreshToken_keeps RevokeAll_keeps create_ticket_keeps
  consume_ticket_keeps NewAccessToken_keeps HashPassword_keeps InvalidateUser_keeps
  recovery_codes_keeps hash_codes_keeps issueTokens_keeps : keeps.

(** The keys the token scripts leave alone. *)
Section script_keys.
Context (key : string).
Abbreviation at_key := (λ k : keyspace, ks_map k !! key).

Lemma redis_call_keeps c : key ∉ cmd_keys c → keeps at_key (redis_call c).
Proof.
  intros Hk k. unfold redis_call. pose proof (run_cmd_other c k key Hk) as E.
  destruct (run_cmd c k) as [r k']. by destruct r.
Qed.
Lemma foldM_keeps {A B} (body : B → A → M keyspace B) l acc :
  (∀ b a, keeps at_key (body b a)) → keeps at_key (foldM body l acc).
Proof. intros Hb. revert acc. induction l as [|x l IH]; intros acc; simpl; by keeps. Qed.
Lemma drop_stale_keeps key2 : key ≠ key2 → keeps at_key (drop_stale key2).
Proof.
  intros Hne. unfold drop_stale, call_members, collect_stale, call_exists.
  keeps; try (apply redis_call_keeps; simpl; set_solver).
  apply foldM_keeps. intros acc x. keeps. apply redis_call_keeps. simpl. set_solver.
Qed.
Lemma createScript_keeps key1 key2 uid t n :
  key ≠ key1 → key ≠ key2 → keeps at_key (createScript key1 key2 uid t n).
Proof.
  intros H1 H2. unfold createScript, call_set_ex.
  keeps; try (by apply drop_stale_keeps); apply redis_call_keeps; simpl; set_solver.
Qed.
Lemma lua_run_keeps script : keeps at_key script → ∀ k, ks_map (lua_run script k).2 !! key = ks_map k !! key.
Proof. intros Hs k. specialize (Hs k). unfold lua_run. by destruct (script k) as [[] ?]. Qed.
End script_keys.

Section properties.
Context {U W : Type} `{UUIDLaws U} `{RandomUUID U} `{ValkeyLaws W} `{IdGen U W} `{!IdGenLaws U W}.
Context `{Postgres (tables U) W} `{UserRepo U W} `{!UserRepoLaws (vk_view (W := W))}.
Context `{Clock W} `{JwtLib} `{NetMail} `{RandLib W} `{Argon2 W} `{CryptoLib} `{TotpLib W}.
Context `{ServerRepo U W} `{Blocklist W} `{!Codec (InvalidationMessage U)}.
Context `{!EnvFrame U (vk_view (W := W))} `{!EnvFrame U (pg_view (DB := tables U) (W := W))}.
Context `{!ValkeyFrame (pg_view (DB := tables U) (W := W))}.
Implicit Types (w : W) (id : U) (s : Service W) (u : User.Credentials U).
Abbreviation tabs := (pg_view (DB := tables U)).

(** The tokens of a world, as the keys that hold them. *)
Definition same_tokens (w w' : W) : Prop :=
  ∀ t, ks_map (vk_view w') !! refreshKey t = ks_map (vk_view w) !! refreshKey t.

(** The lookups read the tables and touch nothing. *)
Definition looked_up {A} (f : User.Credentials U → A) (o : option (User.Credentials U)) w (r : res A)
    (w' : W) : Prop :=
  vk_view w' = vk_view w ∧ tabs w' = tabs w ∧
  match r with
  | Ok a => ∃ u, o = Some u ∧ a = f u
  | Err e => (o = None ∧ e = UserDB.ErrNotFound) ∨ from_driver e
  end.
Lemma lookup_run {A} (f : User.Credentials U → A) o (m : M W A) w r w' :
  implements (vk_view (W := W)) m (Spec.lookup f o) → m w = (r, w') → looked_up f (o (tabs w)) w r w'.
Proof.
  intros Hm E. split; [by apply Hm in E as [_ ->]|].
  apply (implements_read _ _ _ _ _ _ Hm) in E as [Hpg Hr]; [|apply lookup_reads].
  split; [done|]. destruct Hr as [Hr|(e & -> & He)]; [|by right].
  unfold Spec.lookup in Hr. destruct (o (tabs w)); injection Hr as <-; eauto.
Qed.
Lemma GetByEmail_run email w r w' :
  users_GetByEmail (U := U) email w = (r, w') →
  looked_up scanCredentials (by_email email (tabs w)) w r w'.
Proof. intros E. refine (lookup_run _ _ _ _ _ _ _ E). exact (users_GetByEmail_ok vk_view email). Qed.
Lemma GetByID_run id w r w' :
  users_GetByID id w = (r, w') → looked_up scanUser (users (tabs w) !! id) w r w'.
Proof. intros E. refine (lookup_run _ (by_id id) _ _ _ _ _ E). exact (users_GetByID_ok vk_view id). Qed.
Lemma GetCredentials_run id w r w' :
  users_GetCredentialsByID id w = (r, w') → looked_up scanCredentials (users (tabs w) !! id) w r w'.
Proof. intros E. refine (lookup_run _ (by_id id) _ _ _ _ _ E). exact (users_GetCredentialsByID_ok vk_view id). Qed.

Lemma record_run email ip b w r w' :
  recordLoginAttempt (U := U) email ip b w = (r, w') →
  r = Ok tt ∧ vk_view w' = vk_view w ∧
  (tabs w' = tabs w ∨ tabs w' = (Spec.RecordLoginAttempt email ip b (tabs w)).2).
Proof.
  intros E. apply best_effort_inv in E as (-> & r0 & E).
  apply (users_RecordLoginAttempt_ok vk_view) in E as [Ha Hv]. split_and!; [done..|].
  destruct Ha as [(d & Hd & ->)|(e & _ & _ & [->|(a & d & Hd & ->)])]; [|by left|by right; rewrite Hd].
  destruct r0; [right; by rewrite Hd|by left].
Qed.

(** The account a login names. *)
Definition account (req : LoginRequest) (email : string) (o : option (User.Credentials U)) w : Prop :=
  (∃ domain, Auth.ValidateEmail (lr_Email req) = Ok (email, domain)) ∧ by_email email (tabs w) = o.

Lemma scan_cred u : User.PasswordHash (scanCredentials u) = User.PasswordHash u ∧
  User.MFASecret (scanCredentials u) = User.MFASecret u ∧
  User.ID (User.cred_User (scanCredentials u)) = row_ID u ∧
  User.MFAEnabled (User.cred_User (scanCredentials u)) = User.MFAEnabled (User.cred_User u).
Proof. done. Qed.

(** What was issued to [id]: an access token signed for it and a refresh token of its own,
    after world [w]. *)
Definition issued s id ver (access refresh : string) (w' : W) : Prop :=
  ∃ w1 w2, NewAccessToken id (Expose (JWTSecret (config s))) (JWTAccessTTL (config s))
             (ServerURL (config s)) ver w1 = (Ok access, w2) ∧
           CreateRefreshToken id (JWTRefreshTTL (config s)) w2 = (Ok refresh, w').

Lemma issueTokens_run s id ver w p w' :
  issueTokens s id ver w = (Ok p, w') → issued s id ver (tp_Access p) (tp_Refresh p) w'.
Proof.
  intros E. apply bind_Ok_inv in E as (a & w1 & E1 & E). apply wrap_Ok_inv in E1.
  apply bind_Ok_inv in E as (t & w2 & E2 & E). apply wrap_Ok_inv in E2. go_inv.
  exists w, w1. eauto.
Qed.

Lemma ticket_same_tokens id ttl w r w' : CreateMFATicket id ttl w = (r, w') → same_tokens w w'.
Proof.
  intros E t. unfold CreateMFATicket, create_ticket in E. rewrite (bind_Ok _ _ _ _ _ (new_uuid_eq w)) in E.
  rewrite <-(uuid_New_view (U := U) w).
  assert (∃ r1, rdb_Set (mfaTicketKey (uuid_String (uuid_New (U := U) w).1)) (uuid_String id) ttl
           (uuid_New (U := U) w).2 = (r1, w')) as [r1 E1].
  { apply bind_inv in E as [(a & w1 & E1 & E)|(e & E1 & _)]; [unfold mret, M_ret in E; injection E as _ <-|];
      apply wrap_inv in E1 as (r0 & E1 & _); eauto. }
  assert (refreshKey t ≠ mfaTicketKey (uuid_String (uuid_New (U := U) w).1)) as Hne
    by (unfold refreshKey, mfaTicketKey; intros Eq; by inversion Eq).
  destruct r1 as [[]|e].
  - apply rdb_Set_Ok in E1 as ->. simpl. by rewrite lookup_insert_ne.
  - apply rdb_Set_Err in E1 as [_ [-> | ->]]; [done|]. simpl. by rewrite lookup_insert_ne.
Qed.

(** Only the password opens an account, and MFA is never skipped.  A login that succeeds
    found a user with the normalised address whose stored hash the password verifies.  If
    the user has MFA it returned only a ticket for that user, and no refresh token was
    created; otherwise both tokens it returned were issued to that user, with the user's
    verification status. *)
Lemma Login_sound s req w lr w' :
  Login s req w = (Ok lr, w') →
  ∃ email u, account req email (Some u) w ∧
    VerifyPassword (W := W) (lr_Password req) (User.PasswordHash u) = Ok true ∧
    if User.MFAEnabled (User.cred_User u) then
      MFARequired lr = true ∧ lr_Auth lr = None ∧ same_tokens w w' ∧
      ∃ w1 w2, CreateMFATicket (row_ID u) (MFATicketTTL (config s)) w1 = (Ok (Ticket lr), w2)
    else
      MFARequired lr = false ∧
      ∃ res, lr_Auth lr = Some res ∧ res_User res = User.ToModel (User.cred_User u) ∧
        issued s (row_ID u) (User.EmailVerified (User.cred_User u)) (AccessToken res) (RefreshToken res) w'.
Proof.
  unfold Login. intros E. apply bind_Ok_inv in E as ([email dom] & w1 & E1 & E). unfold of_res in E1.
  injection E1 as Hm <-.
  apply bind_Ok_inv in E as (found & w1 & E1 & E). apply try_inv in E1 as (r1 & [= ->] & E1).
  apply GetByEmail_run in E1 as (Hvk & Hpg & Hr).
  destruct r1 as [c|err].
  2:{ destruct (errors_Is err UserDB.ErrNotFound); [|done].
      apply bind_Ok_inv in E as ([] & w2 & _ & E). done. }
  destruct Hr as (u & Hu & ->). destruct (scan_cred u) as (Hs1 & Hs2 & Hs3 & Hs4). rewrite Hs1, Hs3, Hs4 in E.
  apply bind_Ok_inv in E as (ok & w2 & E2 & E). apply wrap_Ok_inv in E2. unfold of_res in E2.
  injection E2 as Hpw <-. exists email, u. split; [split; [eauto|done]|].
  destruct ok; cbn in E; [|by apply bind_Ok_inv in E as ([] & w2 & _ & E)]. split; [done|].
  destruct (User.MFAEnabled (User.cred_User u)) eqn:Hmfa.
  - apply bind_Ok_inv in E as (tk & w2 & E2 & E). apply wrap_Ok_inv in E2.
    apply bind_Ok_inv in E as ([] & w3 & E3 & E). go_inv. split_and!; [done..| |eauto].
    intros t. apply record_run in E3 as (_ & -> & _). apply ticket_same_tokens in E2.
    by rewrite E2, Hvk.
  - apply bind_Ok_inv in E as ([] & w2 & _ & E). apply bind_Ok_inv in E as ([] & w3 & _ & E).
    apply bind_Ok_inv in E as (p & w4 & E4 & E). apply issueTokens_run in E4. go_inv.
    split; [done|]. eexists. split; [done|]. split; [|exact E4].
    unfold User.ToModel. simpl. by rewrite Hmfa.
Qed.

(** A failed login tells nothing about the account.  When the address is unknown, or known
    and the password wrong, the answer is the same error, the one attempt recorded is the
    same failure for that address, and nothing else changes; the only other outcome is a
    driver's failure of the lookup, before anything was written. *)
Lemma Login_failure s req email w r w' :
  Login s req w = (r, w') →
  account req email None w ∨
  (∃ u, account req email (Some u) w ∧
        VerifyPassword (W := W) (lr_Password req) (User.PasswordHash u) = Ok false) →
  vk_view w' = vk_view w ∧
  ((r = Err ErrInvalidCredentials ∧
    (tabs w' = tabs w ∨
     tabs w' = (Spec.RecordLoginAttempt email (lr_IP req) false (tabs w)).2)) ∨
   (∃ e, r = Err (Wrap "get user" e) ∧ from_driver e ∧ tabs w' = tabs w)).
Proof.
  intros E Hacc. assert (∃ dom, Auth.ValidateEmail (lr_Email req) = Ok (email, dom)) as [dom Hm]
    by (destruct Hacc as [[? _]|(u & [? _] & _)]; done).
  assert (∀ u, by_email email (tabs w) = Some u →
            VerifyPassword (W := W) (lr_Password req) (User.PasswordHash u) = Ok false) as Hbad
    by (destruct Hacc as [[_ Hn]|(u & [_ Hu] & Hp)]; intros u'; [by rewrite Hn|rewrite Hu; naive_solver]).
  clear Hacc. unfold Login in E. unfold of_res in E. rewrite Hm in E.
  unfold mbind at 1, M_bind at 1 in E.
  apply bind_inv in E as [(found & w1 & E1 & E)|(e & E1 & _)];
    apply try_inv in E1 as (r1 & Hr1 & E1); [|done]. injection Hr1 as ->.
  apply GetByEmail_run in E1 as (Hvk & Hpg & Hr).
  assert (∀ b, (recordLoginAttempt (U := U) email (lr_IP req) false ;; fail (A := LoginResult) b) w1 = (r, w') →
    r = Err b ∧ vk_view w' = vk_view w ∧
    (tabs w' = tabs w ∨ tabs w' = (Spec.RecordLoginAttempt email (lr_IP req) false (tabs w)).2)) as Hrec.
  { intros b Eb. apply bind_inv in Eb as [([] & w2 & E2 & Eb)|(e & E2 & _)].
    - unfold fail in Eb. injection Eb as <- <-. apply record_run in E2 as (_ & -> & Ht).
      rewrite Hpg in Ht. by rewrite Hvk.
    - by apply record_run in E2 as ([=] & _). }
  destruct r1 as [c|err].
  - destruct Hr as (u & Hu & ->). destruct (scan_cred u) as (Hs1 & _). rewrite Hs1, (Hbad u) in E by done.
    apply Hrec in E as (-> & ? & ?). auto.
  - destruct (errors_Is err UserDB.ErrNotFound) eqn:He.
    + apply Hrec in E as (-> & ? & ?). auto.
    + unfold fail in E. injection E as <- <-. split; [done|]. right. exists err. split; [done|].
      split; [|done]. destruct Hr as [[_ ->]|Hd]; [|done]. by rewrite errors_Is_refl in He.
Qed.

(** *** Refresh *)

(** C21: Refresh keeps a session alive with its user.  A refresh that succeeds consumed a token
    of some user, who exists; that token is gone, the new one stands for the same user, no
    other token changed, and the access token is that user's, with the verification status
    the database has now. *)
Theorem Refresh_correct s t w p w' :
  Refresh s t w = (Ok p, w') →
  Second ≤ JWTRefreshTTL (config s) → token_history (U := U) (JWTRefreshTTL (config s)) w →
  let w1 := (ValidateRefreshToken (U := U) t w).2 in
  fresh_token (U := U) w1 → t ≠ uuid_String (uuid_New (U := U) w1).1 →
  ∃ id u, token_user (vk_view w) t = Some id ∧ users (tabs w) !! id = Some u ∧
    token_user (U := U) (vk_view w') t = None ∧ token_user (vk_view w') (tp_Refresh p) = Some id ∧
    (∀ x, x ≠ t → x ≠ tp_Refresh p →
          token_user (U := U) (vk_view w') x = token_user (vk_view w) x) ∧
    ∃ w2 w3, NewAccessToken id (Expose (JWTSecret (config s))) (JWTAccessTTL (config s))
               (ServerURL (config s)) (User.EmailVerified (User.cred_User u)) w2 = (Ok (tp_Access p), w3).
Proof.
  intros E Httl Hh w1 Hf Hne. unfold Refresh in E.
  apply bind_Ok_inv in E as (r1 & w1' & E1 & E). apply try_inv in E1 as (r1' & [= <-] & E1).
  unfold w1 in *. rewrite E1 in Hf, Hne. simpl in Hf, Hne. clear w1.
  pose proof (keeps_run tabs _ _ _ _ (ValidateRefreshToken_keeps _ t) E1) as Hp1.
  apply ValidateRefreshToken_spec in E1 as [Hv1 _].
  apply bind_Ok_inv in E as (r2 & w2 & E2 & E). apply try_inv in E2 as (r2' & [= <-] & E2).
  pose proof (keeps_run tabs _ _ _ _ (RotateRefreshToken_keeps _ t _) E2) as Hp2.
  assert (indexed (named (U := U)) (whole_seconds (JWTRefreshTTL (config s)) * Second) (vk_view w1')) as Hi
    by (rewrite Hv1; by apply history_indexed).
  destruct (RotateRefreshToken_run _ _ _ _ _ Httl Hf Hi Hne E2) as [_ Hrot].
  destruct r2 as [[t2 id]|err]; [|by repeat case_match].
  destruct Hrot as (-> & Hold & Hgone & Hnew & Hothers). rewrite Hv1 in *.
  apply bind_Ok_inv in E as (u & w3 & E3 & E). apply wrap_Ok_inv, GetByID_run in E3 as (Hv3 & _ & u' & Hu & ->).
  apply bind_Ok_inv in E as (a & w4 & E4 & E). apply wrap_Ok_inv in E4.
  pose proof (keeps_run vk_view _ _ _ _ (NewAccessToken_keeps vk_view _ _ _ _ _) E4) as Hv4. go_inv.
  exists id, u'. rewrite Hv4, Hv3. rewrite Hp2, Hp1 in Hu. split_and!; eauto.
Qed.

(** A replayed refresh token ends no session.  Presenting a token that is not live any more
    (because it was rotated, revoked or expired) is refused, and leaves every other token of
    every user as it was. *)
Lemma Refresh_replay_keeps_sessions s t w r w' :
  ks_map (vk_view w) !! refreshKey t = None → Refresh s t w = (r, w') →
  (∀ p, r ≠ Ok p) ∧ vk_view w' = vk_view w.
Proof.
  intros Hn E. unfold Refresh in E.
  apply bind_inv in E as [(r1 & w1 & E1 & E)|(e & E1 & _)];
    apply try_inv in E1 as (r1' & Hr1 & E1); [injection Hr1 as ->|done].
  apply ValidateRefreshToken_spec in E1 as [Hv1 Hr1].
  destruct r1' as [id|e1].
  { exfalso. unfold token_user, ks_lookup in Hr1. by rewrite Hn in Hr1. }
  apply bind_inv in E as [(r2 & w2 & E2 & E)|(e & E2 & _)];
    apply try_inv in E2 as (r2' & Hr2 & E2); [injection Hr2 as ->|done].
  rewrite <-Hv1 in Hn. apply (Rotate_absent _ _ _ _ _ Hn) in E2 as [Hv2 [e2 ->]].
  assert (vk_view w' = vk_view w2 ∧ ∀ p, r ≠ Ok p) as [-> Hr]; [|split; [done|congruence]].
  destruct (errors_Is e2 ErrRefreshTokenReused), (errors_Is e1 ErrRefreshTokenNotFound);
    unfold mbind, M_bind in E; cbn in E; unfold fail in E; by injection E as <- <-.
Qed.

(** *** The second factor *)
Definition token_key (key : string) : Prop := (∃ t, key = refreshKey t) ∨ ∃ uid, key = uset uid.

Lemma CreateRefreshToken_other key id ttl w r w' :
  ¬ token_key key → CreateRefreshToken id ttl w = (r, w') →
  ks_map (vk_view w') !! key = ks_map (vk_view w) !! key.
Proof.
  intros Hk E. unfold CreateRefreshToken in E. rewrite (bind_Ok _ _ _ _ _ (new_uuid_eq w)) in E.
  rewrite <-(uuid_New_view (U := U) w). destruct (uuid_New w) as [tid w1]. cbn [fst snd] in E |- *.
  set (script := createScript _ _ _ _ _) in E.
  assert (∃ r1, script_Result script w1 = (r1, w')) as [r1 E1].
  { apply bind_inv in E as [(a & w2 & E1 & E)|(e & E1 & _)]; [unfold mret, M_ret in E; injection E as _ <-|];
      apply wrap_inv in E1 as (r0 & E1 & _); eauto. }
  assert (∀ k, ks_map (lua_run script k).2 !! key = ks_map k !! key) as Hs.
  { apply lua_run_keeps, createScript_keeps; intros ->; apply Hk; [left|right]; by eexists. }
  specialize (Hs (vk_view w1)).
  apply script_Result_inv in E1 as [(rep & E1 & _)|(e & _ & _ & [->|E1])]; [|done|].
  - by rewrite E1 in Hs.
  - by rewrite E1.
Qed.

Lemma matching_code code (l : list (User.MFARecoveryCode U)) rc :
  foldl (match_code (W := W) code) None l = Some rc →
  rc ∈ l ∧ VerifyRecoveryCode (W := W) code (User.CodeHash rc) = Ok true.
Proof.
  assert (∀ acc, foldl (match_code (W := W) code) acc l = Some rc → acc = Some rc ∨
    (rc ∈ l ∧ VerifyRecoveryCode (W := W) code (User.CodeHash rc) = Ok true)) as Hg;
    [|intros E; apply Hg in E as [?|?]; done].
  induction l as [|x l IH]; intros acc E; [by left|]. simpl in E. apply IH in E as [E|[Hin Hv]].
  - unfold match_code in E. destruct (VerifyRecoveryCode code (User.CodeHash x)) as [[]|] eqn:Ev; [|by left..].
    destruct acc; [by left|]. injection E as ->. right. split; [by left|done].
  - right. split; [by right|done].
Qed.

(** A recovery code that was accepted was an unused code of the user, and is used now. *)
Lemma tryRecoveryCode_run id code w w' :
  tryRecoveryCode id code w = (Ok tt, w') →
  vk_view w' = vk_view w ∧
  ∃ c, c ∈ mfa_recovery_codes (tabs w) ∧ c_user c = id ∧ c_used c = None ∧
       VerifyRecoveryCode (W := W) code (c_hash c) = Ok true ∧
       ∀ c', c' ∈ mfa_recovery_codes (tabs w') → c_id c' = c_id c → c_used c' ≠ None.
Proof.
  intros E. apply bind_Ok_inv in E as (codes & w1 & E1 & E). apply wrap_Ok_inv in E1.
  pose proof (keeps_run _ _ _ _ _ (implements_keeps _ _ _ (users_GetUnusedRecoveryCodes_ok vk_view id)) E1) as Hv1.
  apply (implements_Ok vk_view _ _ _ _ _ (users_GetUnusedRecoveryCodes_ok vk_view id)) in E1.
  injection E1 as Hcodes Hp1.
  destruct (foldl _ None codes) as [rc|] eqn:Ef; [|done]. apply wrap_Ok_inv in E.
  pose proof (keeps_run _ _ _ _ _ (implements_keeps _ _ _ (users_UseRecoveryCode_ok vk_view _)) E) as Hv2.
  apply (implements_Ok vk_view _ _ _ _ _ (users_UseRecoveryCode_ok vk_view _)) in E. injection E as E.
  split; [congruence|]. apply matching_code in Ef as [Hin Hv]. rewrite <-Hcodes in Hin.
  apply list_elem_of_fmap in Hin as (c & -> & [[Hu Hn] Hc]%list_elem_of_filter). simpl in *.
  exists c. split_and!; try done. intros c' Hc' Hid. rewrite <-E in Hc'. simpl in Hc'.
  apply list_elem_of_fmap in Hc' as (x & -> & _). case_decide; [done|]. congruence.
Qed.

Lemma second_factor_run ctx secret code id w w' :
  check_second_factor ctx secret code id w = (Ok tt, w') →
  vk_view w' = vk_view w ∧
  (totp_Validate (W := W) code secret (time_Now w) = true ∨
   ∃ c, c ∈ mfa_recovery_codes (tabs w) ∧ c_user c = id ∧ c_used c = None ∧
        VerifyRecoveryCode (W := W) code (c_hash c) = Ok true ∧
        ∀ c', c' ∈ mfa_recovery_codes (tabs w') → c_id c' = c_id c → c_used c' ≠ None).
Proof.
  intros E. unfold check_second_factor, gets, mbind, M_bind in E.
  destruct (totp_Validate code secret (time_Now w)); [by injection E as <-; auto|].
  apply map_err_inv in E as ([[]|] & E & [=]). apply tryRecoveryCode_run in E as [? ?]. auto.
Qed.
(** How the second factor was shown, at tables [d] that became [d']. *)
Definition second_factor (id : U) (secret code : string) (d d' : tables U) : Prop :=
  (∃ now, totp_Validate (W := W) code secret now = true) ∨
  ∃ c, c ∈ mfa_recovery_codes d ∧ c_user c = id ∧ c_used c = None ∧
       VerifyRecoveryCode (W := W) code (c_hash c) = Ok true ∧
       ∀ c', c' ∈ mfa_recovery_codes d' → c_id c' = c_id c → c_used c' ≠ None.

Lemma issueTokens_other s key id ver w r w' :
  ¬ token_key key → issueTokens s id ver w = (r, w') →
  ks_map (vk_view w') !! key = ks_map (vk_view w) !! key.
Proof.
  intros Hk E. apply bind_inv in E as [(a & w1 & E1 & E)|(e & E1 & _)];
    apply wrap_inv in E1 as (r1 & E1 & _);
    pose proof (keeps_run vk_view _ _ _ _ (NewAccessToken_keeps vk_view _ _ _ _ _) E1) as Hv1;
    rewrite <-Hv1; [|done].
  apply bind_inv in E as [(t & w2 & E2 & E)|(e & E2 & _)]; [unfold mret, M_ret in E; injection E as _ <-|];
    apply wrap_inv in E2 as (r2 & E2 & _); by eapply CreateRefreshToken_other.
Qed.

Lemma not_token_key ticket : ¬ token_key (mfaTicketKey ticket).
Proof. intros [[t Ht]|[uid Ht]]; inversion Ht. Qed.

Lemma ConsumeMFATicket_absent ticket w r w' :
  ks_map (vk_view w) !! mfaTicketKey ticket = None →
  ConsumeMFATicket (U := U) ticket w = (r, w') → ∀ x, r ≠ Ok x.
Proof.
  intros Hn E x ->. apply consume_ticket_run in E as ((str & Hs & _) & _). unfold ks_lookup in Hs.
  by rewrite Hn in Hs.
Qed.

(** C17: The second step of a login needs both factors, once.  When it succeeds, the ticket
    named a user (only a verified password issues one), who has an MFA secret, and the code
    was either valid for that secret or an unused recovery code of that user, which is used
    up now; the tokens are that user's.  The ticket does not open a second session, with any
    code. *)
Theorem VerifyMFA_sound s ticket code w res w' :
  VerifyMFA s ticket code w = (Ok res, w') →
  ∃ id u enc secret,
    (∃ str, ks_lookup (vk_view w) (mfaTicketKey ticket) = Some (VStr str) ∧ uuid_Parse str = Ok id) ∧
    users (tabs w) !! id = Some u ∧ User.MFASecret u = Some enc ∧
    DecryptTOTPSecret enc (Expose (MFAEncryptionKey (config s))) = Ok secret ∧
    second_factor id secret code (tabs w) (tabs w') ∧
    issued s (row_ID u) (User.EmailVerified (User.cred_User u)) (AccessToken res) (RefreshToken res) w' ∧
    ∀ code2 r w'', VerifyMFA s ticket code2 w' = (r, w'') → ∀ x, r ≠ Ok x.
Proof.
  intros E. unfold VerifyMFA in E. apply bind_Ok_inv in E as (id & w1 & E1 & E).
  pose proof (keeps_run tabs _ _ _ _ (consume_ticket_keeps _ _ _ _) E1) as Hp1.
  apply consume_ticket_run in E1 as (Hstr & Hgone).
  apply bind_Ok_inv in E as (c & w2 & E2 & E). apply wrap_Ok_inv, GetCredentials_run in E2 as (Hv2 & Hp2 & u & Hu & ->).
  destruct (scan_cred u) as (_ & Hs2 & _). rewrite Hs2 in E.
  destruct (User.MFASecret u) as [enc|] eqn:Henc; [|done].
  destruct (negb (MFAConfigured (config s))); [done|].
  apply bind_Ok_inv in E as (secret & w3 & E3 & E). apply wrap_Ok_inv in E3. unfold of_res in E3.
  injection E3 as Hdec <-. apply bind_Ok_inv in E as ([] & w4 & E4 & E).
  apply second_factor_run in E4 as [Hv4 Hsf].
  apply bind_Ok_inv in E as (p & w5 & E5 & E). unfold mret, M_ret in E. injection E as <- <-.
  pose proof (keeps_run tabs _ _ _ _ (issueTokens_keeps tabs s _ _) E5) as Hp5.
  exists id, u, enc, secret. rewrite Hp1 in Hu. split_and!; try done.
  - rewrite Hp2, Hp1 in Hsf. rewrite Hp5. destruct Hsf as [?|Hc]; [left; eauto|by right].
  - by apply issueTokens_run in E5.
  - intros code2 r w'' Er x ->. apply bind_Ok_inv in Er as (y & w6 & E6 & _).
    eapply ConsumeMFATicket_absent in E6; [by apply E6|].
    rewrite (issueTokens_other _ _ _ _ _ _ _ (not_token_key ticket) E5). by rewrite Hv4, Hv2.
Qed.

(** *** Deletion and registration *)
Definition retained (w w' : W) : Prop := deletion_tombstones (tabs w) ⊆ deletion_tombstones (tabs w').

Lemma check_tombstone_run ctx type hmac w r w' :
  check_tombstone (U := U) ctx type hmac w = (r, w') →
  tabs w' = tabs w ∧
  (r = Ok tt → ¬ Exists (is_tombstone type hmac) (deletion_tombstones (tabs w))).
Proof.
  intros E. apply bind_inv in E as [(b & w1 & E1 & E)|(e & E1 & ->)];
    apply wrap_inv in E1 as (r1 & E1 & Hr1);
    apply (implements_read vk_view _ _ _ _ _ (users_CheckTombstone_ok vk_view type hmac)) in E1 as [Hp1 Ho];
    try done.
  unwrap_res Hr1. destruct Ho as [Ho|(e & [=] & _)]. injection Ho as Hb.
  destruct b; unfold fail, mret, M_ret in E; injection E as <- <-; (split; [done|]); [done|].
  intros _ Hex. apply bool_decide_eq_false in Hb. apply Hb. apply Exists_exists in Hex as (t & Ht & <- & <-).
  apply list_elem_of_fmap. eauto.
Qed.

Lemma add_tombstones_mono (P : tombstone_row → Prop) ts (d : tables U) :
  Exists P (deletion_tombstones d) → Exists P (deletion_tombstones (foldl (flip Spec.add_tombstone) d ts)).
Proof.
  revert d. induction ts as [|t ts IH]; intros d Hd; [done|]. simpl. apply IH. unfold Spec.add_tombstone.
  destruct (bool_decide _); [done|]. simpl. apply Exists_app. by left.
Qed.
Lemma add_tombstones_in ts (d : tables U) t :
  t ∈ ts → Exists (is_tombstone (User.IdentifierType t) (User.HMACHash t))
             (deletion_tombstones (foldl (flip Spec.add_tombstone) d ts)).
Proof.
  revert d. induction ts as [|x ts IH]; intros d Ht; [by apply not_elem_of_nil in Ht|].
  apply elem_of_cons in Ht as [<-|Ht]; [|by apply IH]. simpl. apply add_tombstones_mono.
  unfold Spec.add_tombstone.
  destruct (bool_decide_reflect (Exists (is_tombstone (User.IdentifierType t) (User.HMACHash t))
    (deletion_tombstones d))) as [|Hn]; [done|].
  simpl. apply Exists_app. right. by constructor.
Qed.

Lemma Register_checked s req w x w' :
  Register s req w = (Ok x, w') →
  ∃ email dom h1 h2, Auth.ValidateEmail (rr_Email req) = Ok (email, dom) ∧
    HMACIdentifier email (Expose (ServerSecret (config s))) = Ok h1 ∧
    HMACIdentifier (ToLower unicode_ToLower (rr_Username req)) (Expose (ServerSecret (config s))) = Ok h2 ∧
    ¬ Exists (is_tombstone User.TombstoneEmail h1) (deletion_tombstones (tabs w)) ∧
    ¬ Exists (is_tombstone User.TombstoneUsername h2) (deletion_tombstones (tabs w)).
Proof.
  intros E. unfold Register in E.
  apply bind_Ok_inv in E as ([email dom] & w1 & E1 & E). unfold of_res in E1. injection E1 as Hm <-.
  apply bind_Ok_inv in E as ([] & w1 & E1 & E). unfold of_res in E1. injection E1 as _ <-.
  apply bind_Ok_inv in E as ([] & w1 & E1 & E). unfold of_res in E1. injection E1 as _ <-.
  apply bind_Ok_inv in E as (b & w1 & E1 & E).
  pose proof (keeps_run tabs _ _ _ _ (keeps_try tabs _ (blocklist_keeps (U := U) dom)) E1) as Hp1.
  apply bind_Ok_inv in E as ([] & w2 & E2 & E).
  assert (w2 = w1) as -> by (destruct (match b with Ok _ => _ | Err _ => _ end); [done|by injection E2]).
  apply bind_Ok_inv in E as (h1 & w2 & E3 & E). apply wrap_Ok_inv in E3. unfold of_res in E3. injection E3 as Hh1 <-.
  apply bind_Ok_inv in E as ([] & w2 & E4 & E). apply check_tombstone_run in E4 as [Hp4 Ht1].
  apply bind_Ok_inv in E as (h2 & w3 & E5 & E). apply wrap_Ok_inv in E5. unfold of_res in E5. injection E5 as Hh2 <-.
  apply bind_Ok_inv in E as ([] & w3 & E6 & E). apply check_tombstone_run in E6 as [_ Ht2].
  exists email, dom, h1, h2. rewrite Hp4, Hp1 in Ht2. rewrite Hp1 in Ht1. split_and!; auto.
Qed.

Lemma with_password_run c1 c2 id password w c w' :
  with_password c1 c2 id password w = (Ok c, w') →
  vk_view w' = vk_view w ∧ tabs w' = tabs w ∧
  ∃ u, users (tabs w) !! id = Some u ∧ c = scanCredentials u ∧
       VerifyPassword (W := W) password (User.PasswordHash u) = Ok true.
Proof.
  intros E. apply bind_Ok_inv in E as (c0 & w1 & E1 & E).
  apply wrap_Ok_inv, GetCredentials_run in E1 as (Hv1 & Hp1 & u & Hu & ->).
  apply bind_Ok_inv in E as (ok & w2 & E2 & E). apply wrap_Ok_inv in E2. unfold of_res in E2.
  injection E2 as Hpw <-. destruct ok; [|done]. unfold mret, M_ret in E. injection E as <- <-. eauto 10.
Qed.

(** C32: A deleted account stays deleted.  A deletion that succeeds was authorised by the
    account's password and was not the owner's; the user and all rows that belong to it are
    gone.  From then on, as long as the tombstones are retained, nobody registers with the
    same address, nor with the same username in any letter case when usernames are
    tombstoned too. *)
Theorem deleted_stays_deleted `{!ServerRepoLaws U W} s id password w w' :
  DeleteAccount s id password w = (Ok tt, w') →
  ∃ u, users (tabs w) !! id = Some u ∧
    VerifyPassword (W := W) password (User.PasswordHash u) = Ok true ∧
    server_owner (tabs w) ≠ Some id ∧ users (tabs w') !! id = None ∧
    (∀ v, v ∈ email_verifications (tabs w') → v_user v ≠ id) ∧
    (∀ c, c ∈ mfa_recovery_codes (tabs w') → c_user c ≠ id) ∧
    ∀ req w2 r w3, retained w' w2 → Register s req w2 = (r, w3) →
      (∃ dom, Auth.ValidateEmail (rr_Email req) = Ok (User.Email (User.cred_User u), dom)) ∨
      (DeletionTombstoneUsernames (config s) = true ∧
       ToLower unicode_ToLower (rr_Username req) =
       ToLower unicode_ToLower (User.Username (User.cred_User u))) →
      ∀ x, r ≠ Ok x.
Proof.
  intros E. unfold DeleteAccount in E. apply bind_Ok_inv in E as (c & w1 & E1 & E).
  apply with_password_run in E1 as (_ & Hp1 & u & Hu & -> & Hpw).
  apply bind_Ok_inv in E as (srv & w2 & E2 & E). apply wrap_Ok_inv in E2.
  pose proof (keeps_run tabs _ _ _ _ server_Get_keeps E2) as Hp2. apply server_Get_owner in E2.
  destruct (decide (Server.OwnerID srv = id)) as [|Hne]; [done|].
  apply bind_Ok_inv in E as (h1 & w3 & E3 & E). apply wrap_Ok_inv in E3. unfold of_res in E3. injection E3 as Hh1 <-.
  apply bind_Ok_inv in E as (ts & w4 & E4 & E).
  assert (w4 = w2 ∧ User.mkTombstone User.TombstoneEmail h1 ∈ ts ∧
    (DeletionTombstoneUsernames (config s) = true → ∃ h2,
       HMACIdentifier (ToLower unicode_ToLower (User.Username (User.cred_User u)))
         (Expose (ServerSecret (config s))) = Ok h2 ∧
       User.mkTombstone User.TombstoneUsername h2 ∈ ts)) as (-> & Hin1 & Hin2).
  { destruct (DeletionTombstoneUsernames (config s)).
    - apply bind_Ok_inv in E4 as (h2 & w5 & E5 & E4). apply wrap_Ok_inv in E5. unfold of_res in E5.
      injection E5 as Hh2 <-. unfold mret, M_ret in E4. injection E4 as <- <-.
      split_and!; [done|by left|]. intros _. exists h2. split; [done|]. right. by left.
    - unfold mret, M_ret in E4. injection E4 as <- <-. split_and!; [done|by left|done]. }
  apply bind_Ok_inv in E as ([] & w5 & E5 & E). apply wrap_Ok_inv in E5.
  apply (implements_Ok vk_view _ _ _ _ _ (users_DeleteWithTombstones_ok vk_view id ts)) in E5.
  assert (tabs w' = tabs w5) as Hp5.
  { refine (keeps_run tabs _ _ _ _ _ E). keeps. }
  unfold Spec.DeleteWithTombstones in E5.
  destruct (bool_decide (Exists _ ts)); [done|].
  destruct (bool_decide (users (tabs w2) !! id = None)); [done|].
  destruct (bool_decide (server_owner (tabs w2) = Some id)); [done|]. injection E5 as E5.
  rewrite <-Hp5 in E5. exists u. rewrite Hp1 in E2. split_and!; [done|done| | | | |].
  - rewrite E2. intros [= Heq]. by apply Hne.
  - rewrite <-E5. simpl. apply lookup_delete_eq.
  - rewrite <-E5. simpl. by intros v [Hv _]%list_elem_of_filter.
  - rewrite <-E5. simpl. by intros v [Hv _]%list_elem_of_filter.
  - intros req w6 r w7 Hret Er Hsame x ->.
    apply Register_checked in Er as (email & dom & g1 & g2 & Hm & Hg1 & Hg2 & Hn1 & Hn2).
    assert (∀ ty h, User.mkTombstone ty h ∈ ts → Exists (is_tombstone ty h) (deletion_tombstones (tabs w6))) as Hall.
    { intros ty h Hin. eapply add_tombstones_in in Hin. rewrite Exists_exists in Hin.
      destruct Hin as (t & Ht & His). apply Exists_exists. exists t. split; [|done].
      apply Hret. rewrite <-E5. exact Ht. }
    destruct Hsame as [[dom' Hsame]|[Hon Hsame]].
    + rewrite Hsame in Hm. injection Hm as <- <-. apply Hn1, Hall. simpl in Hh1.
      rewrite Hh1 in Hg1. by injection Hg1 as <-.
    + destruct (Hin2 Hon) as (h2 & Hh2 & Hin). rewrite Hsame, Hh2 in Hg2. injection Hg2 as <-.
      by apply Hn2, Hall.
Qed.

(** *** Setting MFA up *)
Context `{!Argon2Laws W}.

(** [row] accepts the recovery code [c], however its dashes are typed. *)
Definition accepts id (c : string) (row : code_row U) : Prop :=
  c_user row = id ∧ c_used row = None ∧
  ∀ typed, strip_dashes typed = strip_dashes c → VerifyRecoveryCode (W := W) typed (c_hash row) = Ok true.

Lemma recovery_codes_length n w cs w' : recovery_codes n w = (Ok cs, w') → length cs = n.
Proof.
  revert cs w w'. induction n as [|n IH]; intros cs w w' E; [by injection E as <- _|].
  cbn [recovery_codes] in E. apply bind_Ok_inv in E as (c & w1 & _ & E).
  apply bind_Ok_inv in E as (cs' & w2 & E2 & E).
  apply IH in E2. unfold mret, M_ret in E. injection E as <- _. simpl. congruence.
Qed.

Lemma hash_codes_run s cs w hs w' :
  hash_codes s cs w = (Ok hs, w') →
  Forall2 (λ c h, ∀ typed, strip_dashes typed = strip_dashes c →
                  VerifyRecoveryCode (W := W) typed h = Ok true) cs hs.
Proof.
  revert hs w w'. induction cs as [|c cs IH]; intros hs w w' E; [by injection E as <- _|].
  cbn [hash_codes] in E. apply bind_Ok_inv in E as (h & w1 & E1 & E). apply wrap_Ok_inv in E1.
  apply bind_Ok_inv in E as (hs' & w2 & E2 & E). unfold mret, M_ret in E. injection E as <- _.
  constructor; [|by eapply IH]. intros typed Ht. unfold VerifyRecoveryCode, VerifyPassword. rewrite Ht.
  apply wrap_Ok_inv, argon2id_spec in E1 as [-> _]. done.
Qed.

Lemma copy_codes_run id hs (d d' : tables U) :
  copy_codes id hs d = (Ok tt, d') →
  users d' = users d ∧ ∃ rows, mfa_recovery_codes d' = mfa_recovery_codes d ++ rows ∧
    Forall2 (λ h row, c_user row = id ∧ c_used row = None ∧ c_hash row = h) hs rows.
Proof.
  revert d. induction hs as [|h hs IH]; intros d E.
  - injection E as <-. split; [done|]. exists []. by rewrite app_nil_r.
  - unfold copy_codes in E. cbn [for_each] in E. apply bind_Ok_inv in E as ([] & d1 & E1 & E). apply IH in E as (Hu & rows & Hr & Hf).
    unfold insert_code in E1. apply bind_Ok_inv in E1 as (c & d2 & E2 & E1).
    unfold next_uuid in E2. injection E2 as <- <-. apply bind_Ok_inv in E1 as (d3 & d4 & E3 & E1).
    unfold tables_now, gets in E3. injection E3 as <- <-.
    destruct (bool_decide (Exists _ _)); [done|]. destruct (bool_decide (_ = None)); [done|].
    unfold modify in E1. injection E1 as <-. simpl in *. split; [done|].
    rewrite Hr, <-app_assoc. eexists. split; [done|]. by constructor.
Qed.

Lemma script_Run_other key script w r w' :
  keeps (λ k : keyspace, ks_map k !! key) script → script_Run script w = (r, w') →
  ks_map (vk_view w') !! key = ks_map (vk_view w) !! key.
Proof.
  intros Hs E. pose proof (lua_run_keeps key _ Hs (vk_view w)) as Hk. unfold script_Run in E.
  destruct r as [rep|e]; [apply vk_eval_ok in E; by rewrite E in Hk|].
  by apply vk_eval_err in E as (_ & [->|E]); [|rewrite E].
Qed.

Lemma Increment_other key id w r w' :
  key ≠ mfaPendingAttemptsKey id → IncrementMFASetupAttempts id w = (r, w') →
  ks_map (vk_view w') !! key = ks_map (vk_view w) !! key.
Proof.
  intros Hne E. unfold IncrementMFASetupAttempts in E. apply wrap_inv in E as (r0 & E & _).
  unfold script_Int64 in E.
  assert (∃ r1, script_Run (incrWithTTL (mfaPendingAttemptsKey id) (Z.quot pendingMFATTL Second)) w =
                (r1, w')) as [r1 E1].
  { apply bind_inv in E as [(rep & w1 & E1 & E)|(e & E1 & _)]; [|eauto].
    pose proof (expect_int_pure rep w1) as Hp. rewrite E in Hp. simpl in Hp. subst. eauto. }
  eapply script_Run_other, E1. unfold incrWithTTL.
  keeps; apply redis_call_keeps; simpl; rewrite list_elem_of_singleton; done.
Qed.

Lemma ConsumePending_run id w enc w' :
  ConsumePendingMFASecret id w = (Ok enc, w') →
  ks_lookup (vk_view w) (mfaPendingKey id) = Some (VStr enc) ∧
  ks_map (vk_view w') !! mfaPendingKey id = None.
Proof.
  intros E. apply bind_Ok_inv in E as (r0 & w1 & E1 & E). apply try_inv in E1 as (r1 & [= <-] & E1).
  destruct r0 as [v|e]; [|by destruct (errors_Is e redis_Nil)].
  unfold mret, M_ret in E. injection E as <- <-. apply rdb_GetDel_Ok in E1 as [Hl ->].
  split; [done|]. apply lookup_delete_eq.
Qed.

Lemma recovery_codes_Ok n w : ∃ cs w', recovery_codes n w = (Ok cs, w').
Proof.
  revert w. induction n as [|n IH]; intros w; [by do 2 eexists|]. cbn [recovery_codes].
  unfold recovery_code, random_bytes, mbind, M_bind, mret, M_ret.
  destruct (rand_Read 10 w) as [b w1]. destruct (IH w1) as (cs & w2 & ->). eauto.
Qed.
Lemma hash_codes_error s cs w e w' : hash_codes s cs w = (Err e, w') → ∃ e', e = Wrap "hash recovery code" e'.
Proof.
  revert w. induction cs as [|c cs IH]; intros w E; [done|]. cbn [hash_codes] in E.
  apply bind_inv in E as [(h & w1 & _ & E)|(e0 & E & [= ->])].
  - apply bind_inv in E as [(hs & w2 & _ & E)|(e0 & E & [= ->])]; [done|by eapply IH].
  - apply wrap_inv in E as ([|e1] & _ & Hr); [done|]. injection Hr as ->. eauto.
Qed.

(** What a valid code leads to, in tables [d] that become [d']. *)
Definition enabled id enc (codes : list string) (d d' : tables U) : Prop :=
  ∃ rows, users d' = alter (set_mfa (Some enc) true) id (users d) ∧
    mfa_recovery_codes d' = mfa_recovery_codes d ++ rows ∧
    length codes = recoveryCodeCount ∧ Forall2 (accepts id) codes rows.

Lemma enable_run s id enc w r w' :
  (codes ← GenerateRecoveryCodes; hashes ← hash_codes s codes;
   wrap "enable MFA" (users_EnableMFA id enc hashes) ;; mret codes) w = (r, w') →
  vk_view w' = vk_view w ∧
  match r with Ok codes => enabled id enc codes (tabs w) (tabs w') | Err e => ∃ c e', e = Wrap c e' end.
Proof.
  intros E. assert (vk_view w' = vk_view w) as Hv.
  { refine (keeps_run vk_view _ _ _ _ _ E). unfold GenerateRecoveryCodes. keeps.
    exact (implements_keeps _ _ _ (users_EnableMFA_ok vk_view _ _ _)). }
  split; [done|]. destruct (recovery_codes_Ok recoveryCodeCount w) as (codes & w1 & E1).
  pose proof (keeps_run tabs _ _ _ _ (recovery_codes_keeps tabs _) E1) as Hp1.
  unfold GenerateRecoveryCodes in E. rewrite (bind_Ok _ _ _ _ _ E1) in E. apply recovery_codes_length in E1.
  apply bind_inv in E as [(hs & w2 & E2 & E)|(e & E2 & ->)]; [|apply hash_codes_error in E2 as [? ->]; eauto].
  pose proof (keeps_run tabs _ _ _ _ (hash_codes_keeps tabs s _) E2) as Hp2. apply hash_codes_run in E2.
  apply bind_inv in E as [([] & w3 & E3 & E)|(e & E3 & ->)].
  2:{ apply wrap_inv in E3 as ([|e3] & _ & Hr); [done|]. injection Hr as ->. eauto. }
  unfold mret, M_ret in E. injection E as <- <-. apply wrap_Ok_inv in E3.
  apply (implements_Ok vk_view _ _ _ _ _ (users_EnableMFA_ok vk_view id enc hs)) in E3.
  apply wrap_Ok_inv, copy_codes_run in E3 as (Hu & rows & Hr & Hf). simpl in Hu, Hr. rewrite Hp2, Hp1 in *.
  exists rows. split_and!; try done. refine (Forall2_trans _ _ _ _ _ _ _ E2 Hf).
  intros c h row Hc (Hi & Hn & Hh). split_and!; [done..|]. by rewrite Hh.
Qed.

(** MFA is enabled only by someone who holds the secret, and never locks the user out.  A
    confirmation that succeeds used the pending secret of that user, for which the code is
    valid; that secret is the user's from then on and no longer pending, and each of the ten
    codes returned is accepted, with or without its dashes, by a new unused row of that
    user.  A confirmation refused for too many attempts leaves no pending secret to guess
    at. *)
Lemma ConfirmMFASetup_sound s id code w r w' :
  ConfirmMFASetup s id code w = (r, w') →
  match r with
  | Ok codes =>
      ∃ enc secret,
        ks_lookup (vk_view w) (mfaPendingKey id) = Some (VStr enc) ∧
        ks_map (vk_view w') !! mfaPendingKey id = None ∧
        DecryptTOTPSecret enc (Expose (MFAEncryptionKey (config s))) = Ok secret ∧
        (∃ now, totp_Validate (W := W) code secret now = true) ∧
        enabled id enc codes (tabs w) (tabs w')
  | Err e => e = ErrMFASetupLocked →
      ks_map (vk_view w') !! mfaPendingKey id = None ∧ tabs w' = tabs w
  end.
Proof.
  intros E. unfold ConfirmMFASetup in E. destruct (negb (MFAConfigured (config s))).
  { unfold fail in E. by injection E as <- _. }
  apply bind_inv in E as [(enc & w1 & E1 & E)|(e & E1 & ->)].
  2:{ unfold ConsumePendingMFASecret in E1. intros ->.
      apply bind_inv in E1 as [(r0 & w1 & _ & E1)|(e & E1 & _)].
      - destruct r0 as [|e0]; [done|]. by destruct (errors_Is e0 redis_Nil).
      - by apply try_inv in E1 as (? & [=] & _). }
  pose proof (keeps_run tabs _ _ _ _ (proj1 (proj2 (pending_keeps tabs id ""))) E1) as Hp1.
  apply ConsumePending_run in E1 as [Hpend Hgone].
  apply bind_inv in E as [(secret & w2 & E2 & E)|(e & E2 & ->)].
  2:{ apply wrap_inv in E2 as ([|e2] & _ & Hr2); [done|]. injection Hr2 as ->. done. }
  apply wrap_Ok_inv in E2. unfold of_res in E2. injection E2 as Hdec <-.
  unfold gets, mbind at 1, M_bind at 1 in E.
  destruct (totp_Validate code secret (time_Now w1)) eqn:Ht; cbn [negb] in E.
  - apply enable_run in E as [Hv E]. destruct r as [codes|e].
    + exists enc, secret. rewrite Hv, <-Hp1. split_and!; try done. eauto.
    + by destruct E as (c & e' & ->).
  - apply bind_inv in E as [(att & w2 & E2 & E)|(e & E2 & _)];
      apply try_inv in E2 as (r2 & Hr2 & E2); [injection Hr2 as ->|done].
    pose proof (keeps_run tabs _ _ _ _ (proj1 (proj2 (proj2 (pending_keeps tabs id "")))) E2) as Hp2.
    eapply (Increment_other (mfaPendingKey id)) in E2; [|by intros Eq; inversion Eq].
    destruct (maxMFASetupAttempts <=? _).
    + unfold fail in E. injection E as <- <-. intros _. rewrite E2, Hgone. split; congruence.
    + apply bind_inv in E as [(a & w3 & E3 & E)|(e & E3 & ->)].
      * unfold fail in E. by injection E as <- _.
      * by apply best_effort_inv in E3 as ([=] & _).
Qed.
End properties.
