(* ===== verification/Gateway.v ===== *)
(** * The WebSocket gateway: internal/gateway/hub.go, client.go, frame.go

    State: the hub's registry of connections per user, the client structs on the heap, and
    the world of services.  Every method is a goroutine of [Proc]: one atomic action per
    critical section of a mutex, channel operation or call to a service.  A connection is
    represented by what was written to it.  Logging is left out. *)
From S2P Require Import Prelude GoStd Platform Permission Presence Session Tokens Jwt Config Domain Publisher Proc.
Open Scope Z_scope.

(** ** The protocol module: opcodes and event names *)
Class Protocol : Type := {
  OpcodeDispatch : Z; OpcodeHeartbeat : Z; OpcodeIdentify : Z; OpcodePresenceUpdate : Z;
  OpcodeResume : Z; OpcodeReconnect : Z; OpcodeInvalidSession : Z; OpcodeHello : Z;
  OpcodeHeartbeatACK : Z;
  EventReady : string; EventResumed : string; EventPresenceUpdate : string;
  EventTypingStart : string; EventTypingStop : string;
}.

Record Frame := mkFrame { Op : Z; Seq_ : option Z; Type_ : option string; Data : string }.
Record HelloData := mkHelloData { HeartbeatInterval : Z }.
Record IdentifyData := mkIdentifyData { id_Token : string }.
Record ResumeData := mkResumeData { r_Token : string; r_SessionID : string; r_Seq : Z }.
Record PresenceUpdateRequest := mkPresenceUpdateRequest { pu_Status : string }.
Record PresenceUpdateData := mkPresenceUpdateData { pd_UserID : string; pd_Status : string }.
Record channelScoped := mkChannelScoped { cs_ChannelID : string }.
Record ReadyData := mkReadyData {
  rd_SessionID : string; rd_User : Models.User; rd_Server : Models.ServerConfig;
  rd_Channels : list Models.Channel; rd_Roles : list Models.Role;
  rd_Members : list Models.Member; rd_Presences : list PresenceState;
  rd_ReadStates : list Models.ReadState; rd_Onboarding : option Models.OnboardingConfig }.

(** encoding/json at the types the gateway uses; [any] is an arbitrary Go value. *)
Class GatewayJson (U any : Type) : Type := {
  gj_Frame :: Codec Frame;
  gj_Hello :: Codec HelloData;
  gj_Identify :: Codec IdentifyData;
  gj_Resume :: Codec ResumeData;
  gj_PresenceRequest :: Codec PresenceUpdateRequest;
  gj_Scoped :: Codec channelScoped;
  gj_Ready :: Codec ReadyData;
  gj_bool :: Codec bool;
  gj_unit :: Codec unit;
  gj_session :: Codec sessionData;
  gj_replay :: Codec replayEntry;
  gj_any :: Codec any;
  gj_envelope :: Codec (envelope U any);
  any_PresenceUpdate : PresenceUpdateData → any;
}.

(** The repositories READY reads from, and errgroup, which reports one of the failures. *)
Class ReadyRepos (U W : Type) : Type := {
  users_GetByID : U → M W (Domain.User.User U);
  server_Get : M W (Domain.Server.Config U);
  channels_List : M W (list (Domain.Channel.Channel U));
  roles_List : M W (list (Domain.Role.Role U));
  members_List : option U → Z → M W (list (Domain.Member.WithProfile U));
  readStates_ListByUser : U → M W (list (Domain.ReadState.ReadState U));
  onboarding_Get : M W (Domain.Onboarding.Config U);
  errgroup_first : W → error → list error → error;
}.

(** ** frame.go *)
Section frames.
Context {U any : Type} `{Protocol} `{GatewayJson U any}.

Definition err_wrap {A} (ctx : string) (r : res A) : res A :=
  match r with Ok a => Ok a | Err e => Err (Wrap ctx e) end.

Definition NewHelloFrame (heartbeatIntervalMS : Z) : res string :=
  match err_wrap "marshal hello data" (json_Marshal (mkHelloData heartbeatIntervalMS)) with
  | Ok data => json_Marshal (mkFrame OpcodeHello None None data)
  | Err e => Err e
  end.
Definition NewHeartbeatACKFrame : res string :=
  json_Marshal (mkFrame OpcodeHeartbeatACK None None "").
Definition NewDispatchFrame (seq : Z) (eventType data : string) : res string :=
  json_Marshal (mkFrame OpcodeDispatch (Some seq) (Some eventType) data).
Definition NewEphemeralDispatchFrame (eventType data : string) : res string :=
  json_Marshal (mkFrame OpcodeDispatch None (Some eventType) data).
Definition NewReconnectFrame : res string := json_Marshal (mkFrame OpcodeReconnect None None "").
Definition NewInvalidSessionFrame (resumable : bool) : res string :=
  match err_wrap "marshal invalid session data" (json_Marshal resumable) with
  | Ok data => json_Marshal (mkFrame OpcodeInvalidSession None None data)
  | Err e => Err e
  end.
End frames.

(** ** close_codes.go *)
Definition CloseUnknownError : Z := 4000.
Definition CloseUnknownOpcode : Z := 4001.
Definition CloseDecodeError : Z := 4002.
Definition CloseNotAuthenticated : Z := 4003.
Definition CloseAuthFailed : Z := 4004.
Definition CloseAlreadyAuthenticated : Z := 4005.
Definition CloseRateLimited : Z := 4008.
Definition CloseGoingAway : Z := 1001.
Definition ErrMaxConnections : error := Sentinel "gateway.ErrMaxConnections".

(** ** State *)
Definition maxMessageSize : Z := 4096.
Definition sendBuffer : Z := 256.

(** The Client struct.  [send] is the buffered channel; [written] and [control] what went
    out on the connection; [windowStart] is [None] for the zero time. *)
Record Client (U : Type) := mkClient {
  send : list string;
  done_ : bool;
  connClosed : bool;
  written : list string;
  control : list (Z * string);
  userID : U;
  sessionID : string;
  seq : Z;
  identified : bool;
  eventCount : Z;
  windowStart : option Z;
  identifyTimer : bool;
}.
Arguments mkClient {U}. Arguments send {U}. Arguments done_ {U}. Arguments connClosed {U}.
Arguments written {U}. Arguments control {U}. Arguments userID {U}. Arguments sessionID {U}.
Arguments seq {U}. Arguments identified {U}. Arguments eventCount {U}.
Arguments windowStart {U}. Arguments identifyTimer {U}.

Definition newClient `{UUIDLib U} : Client U :=
  mkClient [] false false [] [] uuid_Nil "" 0 false 0 None true.

(** The Hub: its registry, the heap of clients (a pointer is a number), the goroutines of
    [delayedOffline] still asleep, and the services. *)
Record gw (U W : Type) `{UUIDLib U} := mkGw {
  clients : gmap U (list nat);
  heap : gmap nat (Client U);
  offline : list U;
  world : W;
}.
Arguments mkGw {U W _}. Arguments clients {U W _}. Arguments heap {U W _}.
Arguments offline {U W _}. Arguments world {U W _}.

(** The dependencies a Hub may be built without. *)
Record HubDeps := mkHubDeps {
  cfg : Config.Config;
  sessions : SessionStore;
  has_presence : bool;
  has_resolver : bool;
  has_publisher : bool;
  has_readStates : bool;
  has_onboarding : bool;
  documentStore : option Domain.Onboarding.DocumentStore;
}.

(** ** Client fields *)
Section client_state.
Context {U W : Type} `{UUIDLib U}.
Implicit Types (c : Client U) (g : gw U W).
Open Scope proc_scope.

Definition set_send (l : list string) c : Client U :=
  mkClient l (done_ c) (connClosed c) (written c) (control c) (userID c) (sessionID c) (seq c)
    (identified c) (eventCount c) (windowStart c) (identifyTimer c).
Definition set_done c : Client U :=
  mkClient (send c) true (connClosed c) (written c) (control c) (userID c) (sessionID c) (seq c)
    (identified c) (eventCount c) (windowStart c) (identifyTimer c).
Definition set_closed c : Client U :=
  mkClient (send c) (done_ c) true (written c) (control c) (userID c) (sessionID c) (seq c)
    (identified c) (eventCount c) (windowStart c) (identifyTimer c).
Definition set_written (l : list string) c : Client U :=
  mkClient (send c) (done_ c) (connClosed c) l (control c) (userID c) (sessionID c) (seq c)
    (identified c) (eventCount c) (windowStart c) (identifyTimer c).
Definition add_control (code : Z) (reason : string) c : Client U :=
  mkClient (send c) (done_ c) (connClosed c) (written c) (control c ++ [(code, reason)])
    (userID c) (sessionID c) (seq c) (identified c) (eventCount c) (windowStart c)
    (identifyTimer c).
Definition set_seq (n : Z) c : Client U :=
  mkClient (send c) (done_ c) (connClosed c) (written c) (control c) (userID c) (sessionID c) n
    (identified c) (eventCount c) (windowStart c) (identifyTimer c).
Definition set_identity (u : U) (sid : string) (n : Z) c : Client U :=
  mkClient (send c) (done_ c) (connClosed c) (written c) (control c) u sid n
    true (eventCount c) (windowStart c) (identifyTimer c).
Definition set_window (count : Z) (start : option Z) c : Client U :=
  mkClient (send c) (done_ c) (connClosed c) (written c) (control c) (userID c) (sessionID c)
    (seq c) (identified c) count start (identifyTimer c).
Definition stop_timer c : Client U :=
  mkClient (send c) (done_ c) (connClosed c) (written c) (control c) (userID c) (sessionID c)
    (seq c) (identified c) (eventCount c) (windowStart c) false.

(** Dereferencing and updating through a pointer. *)
Definition client_at g (c : nat) : Client U := default newClient (heap g !! c).
Definition upd_client (c : nat) (f : Client U → Client U) g : gw U W :=
  mkGw (clients g) (<[c := f (client_at g c)]> (heap g)) (offline g) (world g).
Definition set_clients (m : gmap U (list nat)) g : gw U W :=
  mkGw m (heap g) (offline g) (world g).
Definition set_world (w : W) g : gw U W := mkGw (clients g) (heap g) (offline g) w.

(** A call to a service, with its error. *)
Definition call {A} (m : M W A) : proc (gw U W) (res A) :=
  act (λ g, let '(r, w) := m (world g) in (r, set_world w g)).

(** *** client.go *)
Definition on_client (c : nat) (f : Client U → Client U) : proc (gw U W) unit :=
  update (upd_client c f).
Definition closeSend (c : nat) : proc (gw U W) unit := on_client c set_done.
Definition UserID (c : nat) : proc (gw U W) U := read (λ g, userID (client_at g c)).
Definition SessionID (c : nat) : proc (gw U W) string := read (λ g, sessionID (client_at g c)).
Definition IsIdentified (c : nat) : proc (gw U W) bool := read (λ g, identified (client_at g c)).
Definition nextSeq (c : nat) : proc (gw U W) Z :=
  act (λ g, let n := wrap64 (seq (client_at g c) + 1) in (n, upd_client c (set_seq n) g)).
Definition currentSeq (c : nat) : proc (gw U W) Z := read (λ g, seq (client_at g c)).
Definition connClose (c : nat) : proc (gw U W) unit := on_client c set_closed.

(** The two selects of [enqueue]: dropped when done, sent when there is room, otherwise
    the client is shut down. *)
Definition enqueue_client (msg : string) (cl : Client U) : Client U :=
  if done_ cl then cl
  else if Z.of_nat (length (send cl)) <? sendBuffer then set_send (send cl ++ [msg]) cl
  else set_closed (set_done cl).
Definition enqueue (c : nat) (msg : string) : proc (gw U W) unit :=
  on_client c (enqueue_client msg).

Definition closeWithCode (c : nat) (code : Z) (reason : string) : proc (gw U W) unit :=
  on_client c (add_control code reason);;; connClose c.

(** One iteration of [writePump]: a message is written ([ok] tells whether the write
    succeeded), or the pump stops; [true] means it goes on. *)
Definition writePump_step (c : nat) (ok : bool) : proc (gw U W) bool :=
  act (λ g, let cl := client_at g c in
    match send cl with
    | msg :: rest =>
        if ok then (true, upd_client c (λ cl, set_written (written cl ++ [msg]) (set_send rest cl)) g)
        else (false, upd_client c (λ cl, set_closed (set_send rest cl)) g)
    | [] => if done_ cl then (false, upd_client c set_closed g) else (true, g)
    end).

(** [writePump] over the outcomes of its writes. *)
Fixpoint writePump (c : nat) (oks : list bool) : proc (gw U W) unit :=
  match oks with
  | [] => Ret tt
  | ok :: oks' => go_on <- writePump_step c ok;; if (go_on : bool) then writePump c oks' else Ret tt
  end.

Definition rateLimited `{Clock W} (d : HubDeps) (c : nat) : proc (gw U W) bool :=
  act (λ g,
    let cl := client_at g c in
    let now := time_Now (world g) in
    let window := wrap64 (RateLimitWSWindowSeconds (cfg d) * Second) in
    let '(count, start) :=
      if match windowStart cl with Some s => window <? now - s | None => true end
      then (0, Some now) else (eventCount cl, windowStart cl) in
    let count := wrap64 (count + 1) in
    (RateLimitWSCount (cfg d) <? count, upd_client c (set_window count start) g)).
End client_state.

(** [strconv.FormatInt(n, 36)] of a non-negative number; 13 digits are enough for 64 bits. *)
Fixpoint base36 (fuel : nat) (n : Z) (acc : list Z) : list Z :=
  match fuel with
  | O => acc
  | S fuel' =>
      let d := n mod 36 in
      let acc' := (if d <? 10 then 48 + d else 87 + d) :: acc in
      if n <? 36 then acc' else base36 fuel' (n / 36) acc'
  end.

Definition NewSessionID {U W} `{UUIDLib U} `{Clock W} `{IdGen U W} : M W string :=
  now ← gets time_Now;
  id ← new_uuid (U := U);
  mret (string_of (base36 13 now []) +:+ "-" +:+ string_of (take 8 (bytes_of (uuid_String id)))).

(** ** hub.go *)
Section hub.
Context {U any W : Type} `{UUIDLib U} `{Valkey W} `{Clock W} `{IdGen U W} `{JwtLib}.
Context `{PermissionLib} `{Store U W} `{!Cache U W} `{TimeFormat} `{Protocol}.
Context `{GatewayJson U any} `{ReadyRepos U W}.
Context (d : HubDeps).
Abbreviation G := (gw U W).
Open Scope proc_scope.

Definition totalClientsLocked (m : gmap U (list nat)) : Z :=
  map_fold (λ _ cs n, n + Z.of_nat (length cs)) 0 m.

(** One critical section of [h.mu]. *)
Definition register (c : nat) : proc G (res unit) :=
  act (λ g : G,
    if GatewayMaxConnections (cfg d) <=? totalClientsLocked (clients g)
    then (Err ErrMaxConnections, g)
    else
      let u := userID (client_at g c) in
      (Ok tt, set_clients (<[u := default [] (clients g !! u) ++ [c]]> (clients g)) g)).

(** The critical section of [unregister]: find the client in its user's slice, move the
    last element into its place, drop the last slot.  [None] when it is not there. *)
Definition swap_delete (idx : nat) (cs : list nat) : list nat :=
  let last := Nat.pred (length cs) in
  take last (<[idx := default 0%nat (cs !! last)]> cs).

Definition remove_client (c : nat) (g : G) : option (U * bool * bool) * G :=
  let u := userID (client_at g c) in
  let cs := default [] (clients g !! u) in
  match list_find (eq c) cs with
  | None => (None, g)
  | Some (idx, _) =>
      let cs' := swap_delete idx cs in
      let m := match cs' with [] => delete u (clients g) | _ => <[u := cs']> (clients g) end in
      (Some (u, negb (Nat.eqb (length cs') 0), identified (client_at g c)), set_clients m g)
  end.

Definition publishPresence (u : U) (status : string) : proc G unit :=
  if has_publisher d then
    _ <- call (Publisher.Publish (U := U) EventPresenceUpdate
                 (any_PresenceUpdate (mkPresenceUpdateData (uuid_String u) status)));;
    Ret tt
  else Ret tt.

Definition refreshPresence (u : U) : proc G unit :=
  if has_presence d then _ <- call (Presence.Refresh u);; Ret tt else Ret tt.

Definition unregister (c : nat) : proc G unit :=
  found <- act (remove_client c);;
  match found with
  | None => Ret tt
  | Some (u, hasRemaining, ident) =>
      closeSend c;;;
      (if (ident : bool) then
         sid <- SessionID c;;
         n <- currentSeq c;;
         _ <- call (Session.Save (sessions d) sid u n);;
         if has_presence d && negb hasRemaining
         then update (λ g : G, mkGw (clients g) (heap g) (offline g ++ [u]) (world g))
         else Ret tt
       else Ret tt)
  end.

(** The goroutine after its sleep. *)
Definition delayedOffline (u : U) : proc G unit :=
  reconnected <- read (λ g : G, negb (Nat.eqb (length (default [] (clients g !! u))) 0));;
  if (reconnected : bool) then Ret tt
  else
    _ <- call (Presence.Delete u);;
    publishPresence u StatusOffline.

Definition authenticateToken (token : string) : proc G (res U) :=
  r <- call (ConsumeGatewayTicket (U := U) token);;
  match r with
  | Ok u => Ret (Ok u)
  | Err _ =>
      claims <- call (ValidateAccessToken token (Expose (JWTSecret (cfg d))) (ServerURL (cfg d)));;
      match claims with
      | Err e => Ret (Err e)
      | Ok claims => Ret (uuid_Parse (Subject claims))
      end
  end.

(** The concurrent reads of [assembleReady], then presence, then onboarding. *)
Definition assembleReady (u : U) : M W ReadyData :=
  (ru ← try (wrap "get user" (users_GetByID u));
   rsrv ← try (wrap "get server config" server_Get);
   rchs ← try (wrap "list channels" channels_List);
   rrs ← try (wrap "list roles" roles_List);
   rms ← try (wrap "list members" (members_List None (GatewayReadyMemberLimit (cfg d))));
   rst ← (if has_readStates d then try (wrap "list read states" (readStates_ListByUser u))
          else mret (Ok []));
   match ru, rsrv, rchs, rrs, rms, rst with
   | Ok usr, Ok srv, Ok chs, Ok rs, Ok ms, Ok readStates =>
       presences ← (if has_presence d
                    then wrap "get presences" (Presence.GetMany (Domain.Member.UserID <$> ms))
                    else mret []);
       onb ← (if has_onboarding d then
                c ← try onboarding_Get;
                match c with
                | Err _ => mret None
                | Ok c =>
                    let docs := match documentStore d with
                                | Some s => Domain.Onboarding.ToModels s | None => [] end in
                    mret (Some (Domain.Onboarding.ToModel c docs))
                end
              else mret None);
       mret (mkReadyData "" (Domain.User.ToModel usr) (Domain.Server.ToModel srv)
               (Domain.Channel.ToModel <$> chs) (Domain.Role.ToModel <$> rs)
               (Domain.Member.ToModel <$> ms) presences (Domain.ReadState.ToModel <$> readStates)
               onb)
   | _, _, _, _, _, _ =>
       let err {A} (r : res A) : list error := match r with Err e => [e] | Ok _ => [] end in
       let errs := err ru ++ err rsrv ++ err rchs ++ err rrs ++ err rms ++ err rst in
       w ← gets id;
       fail (match errs with e :: es => errgroup_first (U := U) w e es | [] => Plain "" end)
   end).

Definition set_session (sid : string) (r : ReadyData) : ReadyData :=
  mkReadyData sid (rd_User r) (rd_Server r) (rd_Channels r) (rd_Roles r) (rd_Members r)
    (rd_Presences r) (rd_ReadStates r) (rd_Onboarding r).

Definition handleIdentify (c : nat) (token : string) : proc G unit :=
  auth <- authenticateToken token;;
  match auth with
  | Err _ => closeWithCode c CloseAuthFailed "invalid token"
  | Ok u =>
      (if has_presence d then _ <- call (Presence.Set_ u StatusOnline);; Ret tt else Ret tt);;;
      ready <- call (assembleReady u);;
      match ready with
      | Err _ => closeWithCode c CloseUnknownError "internal error"
      | Ok readyData =>
          rsid <- call (NewSessionID (U := U));;
          match rsid with
          | Err _ => Ret tt
          | Ok sid =>
              let readyData := set_session sid readyData in
              on_client c (λ cl, set_identity u sid (seq cl) cl);;;
              reg <- register c;;
              match reg with
              | Err _ => closeWithCode c CloseUnknownError "registration failed"
              | Ok _ =>
                  match json_Marshal readyData with
                  | Err _ => closeWithCode c CloseUnknownError "internal error"
                  | Ok readyPayload =>
                      n <- nextSeq c;;
                      match NewDispatchFrame n EventReady readyPayload with
                      | Err _ => closeWithCode c CloseUnknownError "internal error"
                      | Ok frame =>
                          enqueue c frame;;;
                          (if has_presence d then publishPresence u StatusOnline else Ret tt)
                      end
                  end
              end
          end
      end
  end.

Definition invalidSession (c : nat) : proc G unit :=
  match NewInvalidSessionFrame false with Ok frame => enqueue c frame | Err _ => Ret tt end.

Definition handleResume (c : nat) (r : ResumeData) : proc G unit :=
  auth <- authenticateToken (r_Token r);;
  match auth with
  | Err _ => closeWithCode c CloseAuthFailed "invalid token"
  | Ok tokenUserID =>
      loaded <- call (Session.Load (U := U) (sessions d) (r_SessionID r));;
      match loaded with
      | Err _ => invalidSession c
      | Ok session =>
          if negb (bool_decide (ls_UserID session = tokenUserID)) then invalidSession c
          else if ls_LastSeq session <? r_Seq r then invalidSession c
          else
            missed <- call (Session.Replay (sessions d) (r_SessionID r) (r_Seq r));;
            match missed with
            | Err _ => invalidSession c
            | Ok missed =>
                on_client c (set_identity tokenUserID (r_SessionID r) (ls_LastSeq session));;;
                reg <- register c;;
                match reg with
                | Err _ => closeWithCode c CloseUnknownError "registration failed"
                | Ok _ =>
                    _ <- call (Session.Delete (sessions d) (r_SessionID r));;
                    each missed (enqueue c);;;
                    n <- nextSeq c;;
                    let resumedData := match json_Marshal tt with Ok s => s | Err _ => "" end%string in
                    match NewDispatchFrame n EventResumed resumedData with
                    | Err _ => closeWithCode c CloseUnknownError "internal error"
                    | Ok frame =>
                        enqueue c frame;;;
                        (if has_presence d then
                           got <- call (Presence.Get tokenUserID);;
                           let status := match got with Ok s => s | Err _ => ""%string end in
                           if bool_decide (status = StatusOffline) then
                             set <- call (Presence.Set_ tokenUserID StatusOnline);;
                             match set with
                             | Ok _ => publishPresence tokenUserID StatusOnline
                             | Err _ => Ret tt
                             end
                           else (_ <- call (Presence.Refresh tokenUserID);; Ret tt)
                         else Ret tt)
                    end
                end
            end
      end
  end.

Definition handlePresenceUpdate (c : nat) (status : string) : proc G unit :=
  if negb (has_presence d) then Ret tt
  else
    u <- UserID c;;
    set <- call (Presence.Set_ u status);;
    match set with
    | Err _ => Ret tt
    | Ok _ =>
        publishPresence u
          (if bool_decide (status = StatusInvisible) then StatusOffline else status)
    end.

Definition ephemeralEvent (eventType : string) : bool :=
  bool_decide (eventType = EventTypingStart) || bool_decide (eventType = EventTypingStop).

(** The clients an event goes to before permissions: those of the target users when the
    envelope names some, all otherwise; only identified ones.  [order] is the order in
    which the runtime ranges over the map. *)
Definition select_targets (order : list (U * list nat)) (tgs : list U) (g : G) : list nat :=
  let wanted := match tgs with
                | [] => order
                | _ => filter (λ p, p.1 ∈ tgs) order end in
  filter (λ c, identified (client_at g c) = true) (concat (snd <$> wanted)).

(** The permission filter, with its per-user memory of the decisions already made. *)
Definition permit_step (channelID : U) (acc : gmap U bool * list nat) (c : nat)
    : proc G (gmap U bool * list nat) :=
  let '(permCache, permitted) := acc in
  uid <- UserID c;;
  match permCache !! uid with
  | Some allowed => Ret (permCache, if (allowed : bool) then permitted ++ [c] else permitted)
  | None =>
      r <- call (HasPermission uid channelID ViewChannels);;
      match r with
      | Err _ => Ret (permCache, permitted)
      | Ok allowed =>
          Ret (<[uid := allowed]> permCache,
               if (allowed : bool) then permitted ++ [c] else permitted)
      end
  end.

(** One client of the sequenced dispatch. *)
Definition dispatch_one (eventType rawData : string) (c : nat) : proc G unit :=
  n <- nextSeq c;;
  match NewDispatchFrame n eventType rawData with
  | Err _ => Ret tt
  | Ok frame =>
      enqueue c frame;;;
      sid <- SessionID c;;
      if bool_decide (sid = ""%string) then Ret tt
      else (_ <- call (Session.AppendReplay (sessions d) sid n frame);; Ret tt)
  end.

Definition parse_channel (rawData : string) : option U :=
  let cid := match json_Unmarshal rawData with
             | Ok scoped => cs_ChannelID scoped | Err _ => ""%string end in
  if bool_decide (cid = ""%string) then None
  else match uuid_Parse cid with Ok u => Some u | Err _ => None end.

Definition handlePubSubEvent (order : list (U * list nat)) (payload : string) : proc G unit :=
  match json_Unmarshal (A := envelope U any) payload with
  | Err _ => Ret tt
  | Ok env =>
      let eventType := env_Type env in
      match json_Marshal (env_Data env) with
      | Err _ => Ret tt
      | Ok rawData =>
          tgts <- read (select_targets order (env_Targets env));;
          match tgts with
          | [] => Ret tt
          | _ =>
              tgts <- match parse_channel rawData, env_Targets env with
                      | Some channelID, [] =>
                          if has_resolver d then
                            r <- each_fold (permit_step channelID) tgts (∅, []);; Ret r.2
                          else Ret tgts
                      | _, _ => Ret tgts
                      end;;
              if ephemeralEvent eventType then
                match NewEphemeralDispatchFrame eventType rawData with
                | Err _ => Ret tt
                | Ok frame => each tgts (λ c, enqueue c frame)
                end
              else each tgts (dispatch_one eventType rawData)
          end
      end
  end.

(** [Shutdown] holds [h.mu] until every connection is closed: one critical section. *)
Definition shutdown_client (frame : option string) (cl : Client U) : Client U :=
  let cl := match frame with Some f => enqueue_client f cl | None => cl end in
  set_closed (add_control CloseGoingAway "server shutting down" (set_done cl)).

Definition shutdown_all (order : list (U * list nat)) (frame : option string) (g : G) : G :=
  set_clients ∅
    (foldl (λ g c, upd_client c (shutdown_client frame) g) g (concat (snd <$> order))).

Definition Shutdown (order : list (U * list nat)) : proc G unit :=
  act (λ g : G,
    let g := if has_presence d
             then foldl (λ g u, set_world (Presence.Delete u (world g)).2 g) g order.*1
             else g in
    let reconnect := match NewReconnectFrame with Ok f => Some f | Err _ => None end in
    (tt, shutdown_all order reconnect g)).

Definition ClientCount : proc G Z := read (λ g : G, totalClientsLocked (clients g)).

(** *** client.go: the handlers of the read loop *)
Definition handleHeartbeat (c : nat) : proc G unit :=
  match NewHeartbeatACKFrame with
  | Err _ => Ret tt
  | Ok ack =>
      enqueue c ack;;;
      ident <- IsIdentified c;;
      if (ident : bool) then u <- UserID c;; refreshPresence u else Ret tt
  end.

Definition client_handleIdentify (c : nat) (data : string) : proc G unit :=
  ident <- IsIdentified c;;
  if (ident : bool) then closeWithCode c CloseAlreadyAuthenticated "already identified"
  else match json_Unmarshal (A := IdentifyData) data with
       | Err _ => closeWithCode c CloseDecodeError "invalid identify payload"
       | Ok id =>
           if bool_decide (id_Token id = ""%string)
           then closeWithCode c CloseAuthFailed "token required"
           else handleIdentify c (id_Token id)
       end.

Definition client_handleResume (c : nat) (data : string) : proc G unit :=
  ident <- IsIdentified c;;
  if (ident : bool) then closeWithCode c CloseAlreadyAuthenticated "already identified"
  else match json_Unmarshal (A := ResumeData) data with
       | Err _ => closeWithCode c CloseDecodeError "invalid resume payload"
       | Ok r =>
           if bool_decide (r_Token r = ""%string) || bool_decide (r_SessionID r = ""%string)
           then closeWithCode c CloseAuthFailed "token and session_id required"
           else handleResume c r
       end.

Definition client_handlePresenceUpdate (c : nat) (data : string) : proc G unit :=
  ident <- IsIdentified c;;
  if negb ident then closeWithCode c CloseNotAuthenticated "not identified"
  else match json_Unmarshal (A := PresenceUpdateRequest) data with
       | Err _ => closeWithCode c CloseDecodeError "invalid presence payload"
       | Ok req =>
           if negb (ValidStatus (pu_Status req))
           then closeWithCode c CloseDecodeError "invalid status value"
           else handlePresenceUpdate c (pu_Status req)
       end.

(** The goroutine of the identify timer, when it fires. *)
Definition identifyTimeout (c : nat) : proc G unit :=
  active <- read (λ g : G, identifyTimer (client_at g c));;
  if (active : bool) then
    ident <- IsIdentified c;;
    if negb ident then closeWithCode c CloseNotAuthenticated "identify timeout" else Ret tt
  else Ret tt.

(** One message of the read loop; [false] ends the loop. *)
Definition readPump_message (c : nat) (message : string) : proc G bool :=
  limited <- rateLimited d c;;
  if (limited : bool) then closeWithCode c CloseRateLimited "rate limit exceeded";;; Ret false
  else match json_Unmarshal (A := Frame) message with
       | Err _ => closeWithCode c CloseDecodeError "invalid JSON";;; Ret false
       | Ok frame =>
           let op := Op frame in
           if op =? OpcodeHeartbeat then handleHeartbeat c;;; Ret true
           else if op =? OpcodeIdentify then
             on_client c stop_timer;;; client_handleIdentify c (Data frame);;; Ret true
           else if op =? OpcodePresenceUpdate then
             client_handlePresenceUpdate c (Data frame);;; Ret true
           else if op =? OpcodeResume then
             on_client c stop_timer;;; client_handleResume c (Data frame);;; Ret true
           else if (op =? OpcodeDispatch) || (op =? OpcodeReconnect) ||
                   (op =? OpcodeInvalidSession) || (op =? OpcodeHello) ||
                   (op =? OpcodeHeartbeatACK)
           then closeWithCode c CloseUnknownOpcode "unknown opcode";;; Ret false
           else Ret true
       end.

(** The read loop over the messages that [ReadMessage] returns before it fails.  The
    deferred calls run on the way out, the last one first. *)
Fixpoint readPump (c : nat) (messages : list string) : proc G unit :=
  let exit := on_client c stop_timer;;; unregister c;;; connClose c in
  match messages with
  | [] => exit
  | m :: ms =>
      go_on <- readPump_message c m;;
      if (go_on : bool) then readPump c ms else exit
  end.

(** [ServeWebSocket]: allocate the client and send Hello; [None] when that fails. *)
Definition ServeWebSocket (ok : bool) : proc G (option nat) :=
  act (λ g : G,
    let c := fresh (dom (heap g)) in
    match NewHelloFrame (GatewayHeartbeatIntervalMS (cfg d)) with
    | Err _ => (None, upd_client c set_closed g)
    | Ok hello =>
        if ok then (Some c, upd_client c (set_written [hello]) g)
        else (None, upd_client c set_closed g)
    end).
End hub.
