(* ===== verification/GatewayInv.v ===== *)
(** * The hub's registry under every interleaving

    The registry invariant of the gateway, proved for any number of goroutines running the
    methods of [Gateway] concurrently: rely-guarantee triples ([Proc.hoare]) for each
    method, then rule induction over the reachable states of the whole system. *)
From S2P Require Import Prelude GoStd Platform Permission Presence Session Tokens Jwt Config Domain Publisher Proc Gateway.
Open Scope Z_scope.
Open Scope proc_scope.

(** Goroutines: the read loop of a client, or any other. *)
Inductive tid := Reader (c : nat) | Other (n : nat).
#[export] Instance tid_eq_dec : EqDecision tid.
Proof. solve_decision. Defined.
#[export] Instance tid_countable : Countable tid.
Proof.
  refine (inj_countable' (λ t, match t with Reader c => inl c | Other n => inr n end)
            (λ s, match s with inl c => Reader c | inr n => Other n end) _). by intros [].
Defined.

(** ** Lists and counts *)
Lemma list_find_eq (c : nat) cs idx x :
  list_find (eq c) cs = Some (idx, x) → x = c ∧ cs !! idx = Some c.
Proof. intros (Hl & <- & _)%list_find_Some. done. Qed.

Lemma list_find_eq_None (c : nat) cs : list_find (eq c) cs = None → c ∉ cs.
Proof.
  intros Hn Hin. apply list_find_None in Hn. rewrite Forall_forall in Hn. by apply (Hn c).
Qed.

(** Swap-delete removes the element at [idx] and keeps the others. *)
Lemma swap_delete_perm idx cs (c : nat) :
  cs !! idx = Some c → cs ≡ₚ c :: swap_delete idx cs.
Proof.
  intros Hl. destruct (exists_last (l := cs)) as (pre & x & ->).
  { by intros ->. }
  unfold swap_delete. rewrite length_app. simpl. rewrite Nat.add_1_r. simpl.
  rewrite (list_lookup_middle pre [] x) by done. simpl.
  destruct (decide (idx < length pre)%nat) as [Hlt|Hge].
  - rewrite lookup_app_l in Hl by done. rewrite insert_app_l by done.
    rewrite take_app_le by (rewrite length_insert; lia).
    rewrite take_ge by (rewrite length_insert; lia).
    apply list_elem_of_split_length in Hl as (l1 & l2 & -> & Hidx).
    rewrite <-app_assoc. simpl.
    rewrite insert_app_r_alt by lia. rewrite Hidx, Nat.sub_diag. simpl.
    rewrite <-Permutation_middle. apply perm_skip.
    apply Permutation_app_head. by rewrite Permutation_app_comm.
  - assert (idx = length pre) as ->.
    { apply lookup_lt_Some in Hl. rewrite length_app in Hl. simpl in Hl. lia. }
    rewrite (list_lookup_middle pre [] x) in Hl by done. simplify_eq.
    rewrite insert_app_r_alt by lia. rewrite Nat.sub_diag. simpl.
    rewrite take_app_length. by rewrite Permutation_app_comm.
Qed.

Section totals.
Context {U : Type} `{UUIDLib U}.

Lemma total_insert_None (m : gmap U (list nat)) u cs :
  m !! u = None → totalClientsLocked (<[u := cs]> m) = totalClientsLocked m + Z.of_nat (length cs).
Proof.
  intros Hu. unfold totalClientsLocked.
  rewrite map_fold_insert_L; [done|intros; lia|done].
Qed.

Lemma total_delete (m : gmap U (list nat)) u cs :
  m !! u = Some cs → totalClientsLocked m = totalClientsLocked (delete u m) + Z.of_nat (length cs).
Proof.
  intros Hu. rewrite <-(insert_delete_id m u cs Hu) at 1.
  rewrite total_insert_None; [done|apply lookup_delete_eq].
Qed.

Lemma total_insert (m : gmap U (list nat)) u cs :
  totalClientsLocked (<[u := cs]> m) =
  totalClientsLocked m - Z.of_nat (length (default [] (m !! u))) + Z.of_nat (length cs).
Proof.
  destruct (m !! u) as [cs0|] eqn:E; simpl.
  - rewrite <-insert_delete_eq, total_insert_None by apply lookup_delete_eq.
    rewrite (total_delete m u cs0 E). lia.
  - rewrite total_insert_None by done. lia.
Qed.
End totals.

(** ** Invariant and guarantee *)
Section invariant.
Context {U any W : Type} `{UUIDLib U} `{Valkey W} `{Clock W} `{IdGen U W} `{JwtLib}.
Context `{PermissionLib} `{Store U W} `{!Cache U W} `{TimeFormat} `{Protocol}.
Context `{GatewayJson U any} `{ReadyRepos U W}.
Context (d : HubDeps).
Abbreviation G := (gw U W).
Implicit Types (g : G) (c : nat) (u : U).

Definition registered g c : Prop := ∃ u cs, clients g !! u = Some cs ∧ c ∈ cs.
Definition ident (cl : Client U) : bool * U * string := (identified cl, userID cl, sessionID cl).

(** Every registered connection is identified and filed under its user, once; no user has
    an empty slice; the connection limit holds; no send channel holds more than its
    capacity. *)
Definition hub_inv g : Prop :=
  (∀ u cs, clients g !! u = Some cs →
     cs ≠ [] ∧ NoDup cs ∧
     ∀ c, c ∈ cs → identified (client_at g c) = true ∧ userID (client_at g c) = u) ∧
  totalClientsLocked (clients g) ≤ GatewayMaxConnections (cfg d) ∧
  (∀ c, Z.of_nat (length (send (client_at g c))) ≤ sendBuffer).

(** What a goroutine may do to the identity and registration of a client: only the
    client's own read loop identifies or registers it, and an identity never changes. *)
Definition hub_guar (t : tid) g g' : Prop :=
  ∀ c,
    (t ≠ Reader c → ident (client_at g' c) = ident (client_at g c)) ∧
    (identified (client_at g c) = true → ident (client_at g' c) = ident (client_at g c)) ∧
    (t ≠ Reader c → registered g' c → registered g c).

Abbreviation stableG := (stable hub_inv hub_guar).
Abbreviation triple := (hoare hub_inv hub_guar).

(** An action that leaves registry and identities alone. *)
Definition quiet g g' : Prop :=
  clients g' = clients g ∧
  ∀ c, ident (client_at g' c) = ident (client_at g c) ∧
       (Z.of_nat (length (send (client_at g c))) ≤ sendBuffer →
        Z.of_nat (length (send (client_at g' c))) ≤ sendBuffer).

Lemma quiet_ok t g g' : quiet g g' → hub_inv g → hub_inv g' ∧ hub_guar t g g'.
Proof.
  intros [Hc Hid] (Hreg & Hmax & Hsend). split.
  - split_and!.
    + intros u cs. rewrite Hc. intros Hu. destruct (Hreg u cs Hu) as (? & ? & Hall).
      split; [done|]. split; [done|]. intros c Hin. destruct (Hall c Hin) as [Hi Hus].
      destruct (Hid c) as [E _]. unfold ident in E. injection E as E1 E2 _. by rewrite E1, E2.
    + by rewrite Hc.
    + intros c. apply Hid, Hsend.
  - intros c. destruct (Hid c) as [E _]. split; [done|]. split; [done|].
    unfold registered. by rewrite Hc.
Qed.

Lemma quiet_refl g : quiet g g.
Proof. by split. Qed.

Lemma client_at_upd c f g c' :
  client_at (upd_client c f g) c' = if decide (c' = c) then f (client_at g c) else client_at g c'.
Proof.
  unfold client_at at 1, upd_client. simpl. destruct (decide (c' = c)) as [->|Hne].
  - by rewrite lookup_insert_eq.
  - by rewrite lookup_insert_ne.
Qed.

Lemma quiet_upd c f g :
  ident (f (client_at g c)) = ident (client_at g c) →
  (Z.of_nat (length (send (client_at g c))) ≤ sendBuffer →
   Z.of_nat (length (send (f (client_at g c)))) ≤ sendBuffer) →
  quiet g (upd_client c f g).
Proof.
  intros Hi Hs. split; [done|]. intros c'. rewrite client_at_upd.
  by destruct (decide (c' = c)) as [->|].
Qed.

Lemma quiet_world w g : quiet g (set_world w g).
Proof. by split. Qed.

(** ** Programs made of quiet actions keep any stable assertion *)
Definition quietp {A} (p : proc G A) : Prop :=
  ∀ t P, stableG t P → (∀ g g', quiet g g' → P g → P g') → triple t (λ _, P) P p.

Lemma quietp_ret {A} (a : A) : quietp (Ret a).
Proof. intros t P _ _ g. done. Qed.

Lemma quietp_act {A} (m : G → A * G) : (∀ g, quiet g (m g).2) → quietp (act m).
Proof.
  intros Hm t P HP Hq. apply h_action; [done|]. intros g Hi HPg.
  destruct (quiet_ok t g (m g).2 (Hm g) Hi). split; [done|]. split; [done|]. by eapply Hq.
Qed.

Lemma quietp_bind {A B} (p : proc G A) (k : A → proc G B) :
  quietp p → (∀ a, quietp (k a)) → quietp (proc_bind p k).
Proof.
  intros Hp Hk t P HP Hq. eapply h_bind; [by apply Hp|]. intros a. by apply Hk.
Qed.

Lemma quietp_each {A} (l : list A) body : (∀ x, quietp (body x)) → quietp (each l body).
Proof. intros Hb t P HP Hq. apply h_each. intros x _. by apply Hb. Qed.

Lemma quietp_each_fold {A B} (body : B → A → proc G B) l acc :
  (∀ x b, quietp (body b x)) → quietp (each_fold body l acc).
Proof. intros Hb t P HP Hq. apply h_each_fold. intros x b. by apply Hb. Qed.

Lemma quietp_read {A} (f : G → A) : quietp (read f).
Proof. apply quietp_act. intros g. apply quiet_refl. Qed.

Lemma quietp_call {A} (m : M W A) : quietp (call m).
Proof. apply quietp_act. intros g. destruct (m (world g)) as [r w]. apply quiet_world. Qed.

Lemma quietp_on c f :
  (∀ cl, ident (f cl) = ident cl) →
  (∀ cl, Z.of_nat (length (send cl)) ≤ sendBuffer → Z.of_nat (length (send (f cl))) ≤ sendBuffer) →
  quietp (on_client c f).
Proof. intros Hi Hs. apply quietp_act. intros g. apply quiet_upd; auto. Qed.

Lemma enqueue_client_quiet msg (cl : Client U) :
  ident (enqueue_client msg cl) = ident cl ∧
  (Z.of_nat (length (send cl)) ≤ sendBuffer →
   Z.of_nat (length (send (enqueue_client msg cl))) ≤ sendBuffer).
Proof.
  unfold enqueue_client. destruct (done_ cl); [done|].
  destruct (Z.ltb_spec (Z.of_nat (length (send cl))) sendBuffer); [|done].
  split; [done|]. simpl. rewrite length_app. simpl. lia.
Qed.

Lemma quietp_enqueue c msg : quietp (enqueue c msg).
Proof. apply quietp_on; intros cl; apply enqueue_client_quiet. Qed.

Lemma quietp_nextSeq c : quietp (nextSeq c).
Proof. apply quietp_act. intros g. by apply quiet_upd. Qed.

Lemma quietp_rateLimited c : quietp (rateLimited d c).
Proof.
  apply quietp_act. intros g. cbv zeta.
  match goal with |- context [let '(_, _) := ?e in _] => destruct e end. by apply quiet_upd.
Qed.

Lemma quietp_writePump c ok : quietp (writePump_step c ok).
Proof.
  apply quietp_act. intros g. cbv zeta. destruct (send (client_at g c)) as [|m l] eqn:E.
  - destruct (done_ (client_at g c)); [by apply quiet_upd|apply quiet_refl].
  - destruct ok; apply quiet_upd; simpl; rewrite ?E; simpl; lia || done.
Qed.

Lemma quietp_serve ok : quietp (ServeWebSocket (any := any) d ok).
Proof.
  apply quietp_act. intros g.
  assert (client_at g (fresh (dom (heap g))) = newClient) as Hnew.
  { unfold client_at. pose proof (is_fresh (dom (heap g))) as Hf.
    apply not_elem_of_dom in Hf. by rewrite Hf. }
  destruct (NewHelloFrame _); [destruct ok|]; by apply quiet_upd.
Qed.
End invariant.

Create HintDb quiet.
#[export] Hint Resolve quietp_ret quietp_read quietp_call quietp_enqueue quietp_nextSeq
  quietp_rateLimited quietp_writePump quietp_serve : quiet.

(** Walk a program whose actions are all quiet. *)
Ltac quiet_walk :=
  repeat first
    [ progress intros
    | apply quietp_bind
    | apply quietp_each
    | apply quietp_each_fold
    | apply quietp_on; [done|done]
    | solve [eauto with quiet]
    | case_match ].

(** ** The methods *)
Section methods.
Context {U any W : Type} `{UUIDLib U} `{Valkey W} `{Clock W} `{IdGen U W} `{JwtLib}.
Context `{PermissionLib} `{Store U W} `{!Cache U W} `{TimeFormat} `{Protocol}.
Context `{GatewayJson U any} `{ReadyRepos U W}.
Context (d : HubDeps).
Abbreviation G := (gw U W).
Abbreviation stableG := (stable (hub_inv d) hub_guar).
Abbreviation triple := (hoare (hub_inv d) hub_guar).
Abbreviation quietp := (quietp d).
Implicit Types (g : G) (c : nat) (u : U).

Lemma quietp_closeWithCode c code reason : quietp (closeWithCode (W := W) c code reason).
Proof. unfold closeWithCode, connClose. quiet_walk. Qed.
Lemma quietp_closeSend c : quietp (closeSend (W := W) c).
Proof. unfold closeSend. quiet_walk. Qed.
Lemma quietp_publishPresence u s : quietp (publishPresence (any := any) d u s).
Proof. unfold publishPresence. quiet_walk. Qed.
Lemma quietp_refreshPresence u : quietp (refreshPresence d u).
Proof. unfold refreshPresence. quiet_walk. Qed.
Lemma quietp_authenticate token : quietp (authenticateToken (W := W) d token).
Proof. unfold authenticateToken. quiet_walk. Qed.
Lemma quietp_delayedOffline u : quietp (delayedOffline (any := any) d u).
Proof. unfold delayedOffline. pose proof quietp_publishPresence. quiet_walk. Qed.
Lemma quietp_presenceUpdate c s : quietp (handlePresenceUpdate (any := any) d c s).
Proof.
  unfold handlePresenceUpdate, UserID. pose proof quietp_publishPresence. quiet_walk.
Qed.
Lemma quietp_invalidSession c : quietp (invalidSession (any := any) (W := W) c).
Proof. unfold invalidSession. quiet_walk. Qed.
Lemma quietp_heartbeat c : quietp (handleHeartbeat (any := any) d c).
Proof.
  unfold handleHeartbeat, IsIdentified, UserID. pose proof quietp_refreshPresence. quiet_walk.
Qed.
Lemma quietp_event order payload : quietp (handlePubSubEvent (any := any) d order payload).
Proof.
  unfold handlePubSubEvent, permit_step, dispatch_one, UserID, SessionID. quiet_walk.
Qed.
Lemma quietp_clientPresence c data :
  quietp (client_handlePresenceUpdate (any := any) d c data).
Proof.
  unfold client_handlePresenceUpdate, IsIdentified. pose proof quietp_closeWithCode.
  pose proof quietp_presenceUpdate. quiet_walk.
Qed.
Lemma quietp_timeout c : quietp (identifyTimeout (W := W) c).
Proof. unfold identifyTimeout, IsIdentified. pose proof quietp_closeWithCode. quiet_walk. Qed.

(** *** Assertions of a client's own read loop *)
Definition unident c g : Prop := identified (client_at g c) = false.
Definition pending c g : Prop := identified (client_at g c) = true ∧ ¬ registered g c.

Lemma unident_stable c : stableG (Reader c) (unident c).
Proof.
  intros t' g g' Hne _ _ Hg Hu. destruct (Hg c) as (Hid & _ & _). specialize (Hid Hne).
  unfold ident in Hid. injection Hid as E _ _. unfold unident in *. congruence.
Qed.
Lemma unident_quiet c g g' : quiet g g' → unident c g → unident c g'.
Proof.
  intros [_ Hq] Hu. destruct (Hq c) as [E _]. unfold ident in E. injection E as E _ _.
  unfold unident in *. congruence.
Qed.
Lemma pending_stable c : stableG (Reader c) (pending c).
Proof.
  intros t' g g' Hne _ _ Hg [Hi Hr]. destruct (Hg c) as (Hid & _ & Hreg). specialize (Hid Hne).
  unfold ident in Hid. injection Hid as E _ _. split; [congruence|]. intros Hr'. by apply Hr, Hreg.
Qed.
Lemma unident_unregistered c g : hub_inv d g → unident c g → ¬ registered g c.
Proof.
  intros (Hall & _) Hu (u & cs & Hl & Hin). destruct (Hall u cs Hl) as (_ & _ & Hid).
  destruct (Hid c Hin). unfold unident in *. congruence.
Qed.

Lemma h_quiet_then {A B} t P (p : proc G A) (k : A → proc G B) Q :
  quietp p → stableG t P → (∀ g g', quiet g g' → P g → P g') →
  (∀ a, triple t Q P (k a)) → triple t Q P (proc_bind p k).
Proof. intros Hp HP Hq Hk. eapply h_bind; [by apply Hp|exact Hk]. Qed.

Lemma h_quiet_end {A} t P (p : proc G A) : quietp p → triple t (λ _ _, True) P p.
Proof.
  intros Hp. eapply h_weaken; [apply (Hp t (λ _, True)); [apply stable_True|done]|done|done].
Qed.

Lemma h_set_identity c u sid (f : Client U → Z) :
  triple (Reader c) (λ _, pending c) (unident c)
    (on_client c (λ cl, set_identity u sid (f cl) cl)).
Proof.
  apply h_action; [intros _; apply pending_stable|]. intros g Hinv Hu.
  pose proof (unident_unregistered c g Hinv Hu) as Hnr.
  destruct Hinv as (Hreg & Hmax & Hsend). cbn [fst snd].
  assert (Hcl : clients (upd_client c (λ cl, set_identity u sid (f cl) cl) g) = clients g) by done.
  split; [split_and!|split; [intros c'|split]].
  - intros u' cs Hl. rewrite Hcl in Hl. destruct (Hreg u' cs Hl) as (? & ? & Hid).
    split; [done|]. split; [done|]. intros c' Hin. rewrite client_at_upd.
    destruct (decide (c' = c)) as [->|]; [|by apply Hid]. destruct Hnr. by exists u', cs.
  - done.
  - intros c'. rewrite client_at_upd. destruct (decide (c' = c)) as [->|]; [|done]. apply Hsend.
  - rewrite client_at_upd. destruct (decide (c' = c)) as [->|]; [|done].
    split; [done|]. split; [|done]. unfold unident in Hu. congruence.
  - rewrite client_at_upd. by rewrite decide_True.
  - exact Hnr.
Qed.

Lemma h_register c : triple (Reader c) (λ _ _, True) (pending c) (register d c).
Proof.
  apply h_action; [intros _; apply stable_True|]. intros g Hinv [Hi Hnr].
  destruct (Z.leb_spec (GatewayMaxConnections (cfg d)) (totalClientsLocked (clients g))) as [|Hlt].
  { destruct (quiet_ok d (Reader c) g g (quiet_refl g) Hinv). done. }
  destruct Hinv as (Hreg & Hmax & Hsend). cbn [fst snd].
  set (u := userID (client_at g c)). set (old := default [] (clients g !! u)).
  assert (Hold : ∀ c', c' ∈ old → registered g c').
  { unfold old. intros c' Hin. destruct (clients g !! u) eqn:E; [|by apply elem_of_nil in Hin].
    by eexists _, _. }
  split; [split_and!|split; [intros c'|done]].
  - intros u' cs Hl. cbn [clients set_clients] in Hl. destruct (decide (u' = u)) as [->|Hne].
    + rewrite lookup_insert_eq in Hl. injection Hl as <-.
      assert (NoDup old ∧ ∀ c', c' ∈ old → identified (client_at g c') = true ∧
                                            userID (client_at g c') = u) as [Hnd Hid].
      { unfold old. destruct (clients g !! u) eqn:E; [by apply Hreg|].
        split; [constructor|]. by intros c' ?%elem_of_nil. }
      split; [by destruct old|]. split.
      * apply NoDup_app. split; [done|]. split; [|apply NoDup_singleton].
        intros x Hx ->%list_elem_of_singleton. by apply Hnr, Hold.
      * intros c' [Hin | ->%list_elem_of_singleton]%elem_of_app; [by apply Hid|done].
    + rewrite lookup_insert_ne in Hl by done. by apply Hreg.
  - cbn [clients set_clients]. rewrite total_insert. fold old. rewrite length_app. simpl. lia.
  - done.
  - split; [done|]. split; [done|]. intros Hne (u' & cs & Hl & Hin).
    cbn [clients set_clients] in Hl. destruct (decide (u' = u)) as [->|Hnu].
    + rewrite lookup_insert_eq in Hl. injection Hl as <-.
      apply elem_of_app in Hin as [Hin | ->%list_elem_of_singleton]; [by apply Hold|].
      by destruct Hne.
    + rewrite lookup_insert_ne in Hl by done. by exists u', cs.
Qed.

Lemma h_remove t c : triple t (λ _ _, True) (λ _, True) (act (remove_client (W := W) c)).
Proof.
  apply h_action; [intros _; apply stable_True|]. intros g Hinv _.
  unfold remove_client. set (u := userID (client_at g c)).
  destruct (list_find (eq c) (default [] (clients g !! u))) as [[idx x]|] eqn:Ef.
  2:{ destruct (quiet_ok d t g g (quiet_refl g) Hinv). done. }
  apply list_find_eq in Ef as [-> Hidx].
  destruct (clients g !! u) as [cs|] eqn:Eu; simpl in Hidx; [|done].
  pose proof (swap_delete_perm idx cs c Hidx) as Hp. change (default [] (Some cs)) with cs.
  destruct Hinv as (Hreg & Hmax & Hsend). destruct (Hreg u cs Eu) as (_ & Hnd & Hid).
  set (cs' := swap_delete idx cs) in *.
  set (m := match cs' with [] => delete u (clients g) | _ => <[u := cs']> (clients g) end).
  assert (Hm : m = if decide (cs' = []) then delete u (clients g) else <[u := cs']> (clients g)).
  { unfold m. by destruct cs'. }
  assert (Hlk : ∀ u' l, m !! u' = Some l →
     (u' = u ∧ l = cs' ∧ cs' ≠ []) ∨ (u' ≠ u ∧ clients g !! u' = Some l)).
  { intros u' l. rewrite Hm. destruct (decide (u' = u)) as [->|Hne].
    - case_decide; [by rewrite lookup_delete_eq|]. rewrite lookup_insert_eq. intros [= <-]. by left.
    - case_decide; rewrite ?lookup_delete_ne, ?lookup_insert_ne by done; by right. }
  assert (Hin' : ∀ c', c' ∈ cs' → c' ∈ cs).
  { intros c' Hc'. rewrite Hp. by apply list_elem_of_further. }
  cbn [fst snd]. fold m. clearbody m.
  split; [split_and!|split; [intros c'|done]].
  - intros u' l Hl. cbn [clients set_clients] in Hl.
    destruct (Hlk u' l Hl) as [(-> & -> & Hne)|[_ Hl']]; [|by apply Hreg].
    split; [done|]. split.
    + rewrite Hp in Hnd. by apply NoDup_cons in Hnd as [_ ?].
    + intros c' Hc'. by apply Hid, Hin'.
  - cbn [clients set_clients]. rewrite Hm. pose proof (Permutation_length Hp) as Hlen. simpl in Hlen.
    case_decide as Hz.
    + pose proof (total_delete _ _ _ Eu). lia.
    + rewrite total_insert, Eu. simpl. lia.
  - done.
  - split; [done|]. split; [done|]. intros _ (u' & l & Hl & Hc'). cbn [clients set_clients] in Hl.
    destruct (Hlk u' l Hl) as [(-> & -> & _)|[_ Hl']]; [by exists u, cs; auto|by exists u', l].
Qed.

Hint Resolve quietp_closeWithCode quietp_closeSend quietp_publishPresence quietp_refreshPresence
  quietp_authenticate quietp_invalidSession quietp_heartbeat quietp_clientPresence
  unident_stable unident_quiet : quiet.

(** One quiet step of a read loop that is not identified yet. *)
Ltac unident_step :=
  apply h_quiet_then; [quiet_walk|solve [eauto with quiet]|solve [eauto with quiet]|intros ?].

Lemma h_identify c token :
  triple (Reader c) (λ _ _, True) (unident c) (handleIdentify (any := any) d c token).
Proof.
  unfold handleIdentify. unident_step. case_match; [|apply h_quiet_end; quiet_walk].
  unident_step. unident_step. case_match; [|apply h_quiet_end; quiet_walk].
  unident_step. case_match; [|apply h_quiet_end; quiet_walk].
  eapply h_bind; [apply h_set_identity|intros ?].
  eapply h_bind; [apply h_register|intros ?]. apply h_quiet_end. quiet_walk.
Qed.

Lemma h_resume c r :
  triple (Reader c) (λ _ _, True) (unident c) (handleResume (any := any) d c r).
Proof.
  unfold handleResume. unident_step. case_match; [|apply h_quiet_end; quiet_walk].
  unident_step. case_match; [|apply h_quiet_end; quiet_walk].
  case_match; [apply h_quiet_end; quiet_walk|]. case_match; [apply h_quiet_end; quiet_walk|].
  unident_step. case_match; [|apply h_quiet_end; quiet_walk].
  eapply h_bind; [apply (h_set_identity _ _ _ (λ _, ls_LastSeq _))|intros ?].
  eapply h_bind; [apply h_register|intros ?]. apply h_quiet_end. quiet_walk.
Qed.

(** Reading [identified] in the read loop: when it is false it stays false. *)
Lemma h_ident_test c (Q : unit → G → Prop) (k : bool → proc G unit) :
  triple (Reader c) Q (λ _, True) (k true) → triple (Reader c) Q (unident c) (k false) →
  triple (Reader c) Q (λ _, True) (proc_bind (IsIdentified c) k).
Proof.
  intros Ht Hf. eapply h_bind with (R := λ (b : bool) (g : G), if b then True else unident c g).
  - apply h_action; [intros []; [apply stable_True|apply unident_stable]|].
    intros g Hinv _. destruct (quiet_ok d (Reader c) g g (quiet_refl g) Hinv) as [? ?].
    split; [done|]. split; [done|]. cbn [fst snd]. by destruct (identified (client_at g c)) eqn:E.
  - by intros [].
Qed.

Lemma h_clientIdentify c data :
  triple (Reader c) (λ _ _, True) (λ _, True) (client_handleIdentify (any := any) d c data).
Proof.
  unfold client_handleIdentify. apply h_ident_test; [apply h_quiet_end; quiet_walk|].
  case_match; [|apply h_quiet_end; quiet_walk].
  case_match; [apply h_quiet_end; quiet_walk|]. apply h_identify.
Qed.

Lemma h_clientResume c data :
  triple (Reader c) (λ _ _, True) (λ _, True) (client_handleResume (any := any) d c data).
Proof.
  unfold client_handleResume. apply h_ident_test; [apply h_quiet_end; quiet_walk|].
  case_match; [|apply h_quiet_end; quiet_walk].
  case_match; [apply h_quiet_end; quiet_walk|]. apply h_resume.
Qed.

Lemma h_unregister t c : triple t (λ _ _, True) (λ _, True) (unregister (any := any) d c).
Proof.
  unfold unregister. eapply h_bind; [apply h_remove|]. intros [[[u rem] idn]|].
  2:{ apply h_quiet_end. quiet_walk. }
  apply h_quiet_end. unfold SessionID, currentSeq, update. quiet_walk.
  apply quietp_act. intros g. by split.
Qed.

(** *** The read loop *)
Lemma quietp_stop_timer c : quietp (on_client (W := W) c stop_timer).
Proof. by apply quietp_on. Qed.
Hint Resolve quietp_stop_timer quietp_presenceUpdate : quiet.

Lemma h_then {A B} t (p : proc G A) (k : A → proc G B) :
  triple t (λ _ _, True) (λ _, True) p → (∀ a, triple t (λ _ _, True) (λ _, True) (k a)) →
  triple t (λ _ _, True) (λ _, True) (proc_bind p k).
Proof. intros Hp Hk. by eapply h_bind. Qed.

Lemma h_quiet {A} t (p : proc G A) : quietp p → triple t (λ _ _, True) (λ _, True) p.
Proof. apply h_quiet_end. Qed.

Lemma h_message c m :
  triple (Reader c) (λ _ _, True) (λ _, True) (readPump_message (any := any) d c m).
Proof.
  unfold readPump_message. apply h_then; [apply h_quiet; quiet_walk|]. intros lim.
  case_match; [apply h_quiet; quiet_walk|]. case_match; [|apply h_quiet; quiet_walk].
  case_match; [apply h_quiet; quiet_walk|].
  case_match; [apply h_then; [apply h_quiet; quiet_walk|intros ?]|].
  { apply h_then; [apply h_clientIdentify|]. by intros. }
  case_match; [apply h_quiet; quiet_walk|].
  case_match; [apply h_then; [apply h_quiet; quiet_walk|intros ?]|].
  { apply h_then; [apply h_clientResume|]. by intros. }
  apply h_quiet. quiet_walk.
Qed.

Lemma h_readPump c ms :
  triple (Reader c) (λ _ _, True) (λ _, True) (readPump (any := any) d c ms).
Proof.
  assert (Hexit : triple (Reader c) (λ _ _, True) (λ _, True)
    (on_client c stop_timer;;; unregister (any := any) d c;;; connClose c)).
  { apply h_then; [apply h_quiet; quiet_walk|intros ?].
    apply h_then; [apply h_unregister|intros ?]. apply h_quiet. unfold connClose. quiet_walk. }
  induction ms as [|m ms IH]; [exact Hexit|]. cbn [readPump].
  apply h_then; [apply h_message|]. by intros [].
Qed.

Lemma quietp_writePump_loop c oks : quietp (writePump (W := W) c oks).
Proof.
  induction oks as [|ok oks IH]; cbn [writePump]; [apply quietp_ret|].
  apply quietp_bind; [apply quietp_writePump|]. intros []; [done|apply quietp_ret].
Qed.

(** *** Shutdown *)
Lemma shutdown_client_quiet f (cl : Client U) :
  ident (shutdown_client f cl) = ident cl ∧
  (Z.of_nat (length (send cl)) ≤ sendBuffer →
   Z.of_nat (length (send (shutdown_client f cl))) ≤ sendBuffer).
Proof.
  unfold shutdown_client. destruct f as [f|]; [|done].
  destruct (enqueue_client_quiet f cl) as [E Hs]. split; [exact E|exact Hs].
Qed.

Lemma quiet_trans g1 g2 g3 : quiet g1 g2 → quiet g2 g3 → quiet g1 g3.
Proof.
  intros [Hc Hi] [Hc' Hi']. split; [congruence|]. intros c.
  destruct (Hi c) as [E Hs], (Hi' c) as [E' Hs']. split; [congruence|]. auto.
Qed.

Lemma quiet_foldl {A} (f : G → A → G) l g : (∀ g x, quiet g (f g x)) → quiet g (foldl f g l).
Proof.
  intros Hf. revert g. induction l as [|x l IH]; intros g; simpl; [apply quiet_refl|].
  eapply quiet_trans; [apply Hf|apply IH].
Qed.

Lemma h_Shutdown t order : 0 ≤ GatewayMaxConnections (cfg d) →
  triple t (λ _ _, True) (λ _, True) (Shutdown d order).
Proof.
  intros Hmax. apply h_action; [intros _; apply stable_True|]. intros g Hinv _.
  cbn [fst snd]. unfold shutdown_all.
  set (g1 := if has_presence d then _ else g).
  assert (Hq : quiet g (foldl (λ g c, upd_client c
            (shutdown_client (match NewReconnectFrame with Ok f => Some f | Err _ => None end)) g)
            g1 (concat order.*2))).
  { eapply quiet_trans.
    - instantiate (1 := g1). unfold g1. case_match; [|apply quiet_refl].
      apply quiet_foldl. intros. apply quiet_world.
    - apply quiet_foldl. intros g' c. apply quiet_upd; apply shutdown_client_quiet. }
  set (g2 := foldl _ g1 _) in *. clearbody g2 g1.
  destruct (quiet_ok d t g g2 Hq Hinv) as [(_ & _ & Hsend) Hg]. split; [split_and!|split; [|done]].
  - intros u cs Hl. cbn [clients set_clients] in Hl. by rewrite lookup_empty in Hl.
  - cbn [clients set_clients]. unfold totalClientsLocked. by rewrite map_fold_empty.
  - exact Hsend.
  - intros c. destruct (Hg c) as (H1' & H2' & _). split; [done|]. split; [done|].
    intros _ (u & cs & Hl & _). cbn [clients set_clients] in Hl. by rewrite lookup_empty in Hl.
Qed.
End methods.

(** ** The whole system *)
Section system.
Context {U any W : Type} `{UUIDLib U} `{Valkey W} `{Clock W} `{IdGen U W} `{JwtLib}.
Context `{PermissionLib} `{Store U W} `{!Cache U W} `{TimeFormat} `{Protocol}.
Context `{GatewayJson U any} `{ReadyRepos U W}.
Context (d : HubDeps).
Abbreviation G := (gw U W).

(** The goroutines the server starts: an upgraded connection, the two pumps of a client,
    its identify timer, one event of the subscription, the delayed offline of a user, and
    the shutdown.  What the peer sends, which writes succeed and the order of map
    iteration are arbitrary. *)
Inductive starts : tid → proc G unit → Prop :=
| start_serve n ok : starts (Other n) (_ <- ServeWebSocket (any := any) d ok;; Ret tt)
| start_read c ms : starts (Reader c) (readPump (any := any) d c ms)
| start_write n c oks : starts (Other n) (writePump c oks)
| start_timer n c : starts (Other n) (identifyTimeout c)
| start_event n order payload : starts (Other n) (handlePubSubEvent (any := any) d order payload)
| start_offline n u : starts (Other n) (delayedOffline (any := any) d u)
| start_shutdown n order : starts (Other n) (Shutdown d order).

(** What the server can reach, from an empty hub: goroutines start at any time and take
    their actions in any order. *)
Inductive hub_reach : gmap tid (proc G unit) * G → Prop :=
| reach_init w : hub_reach (∅, mkGw ∅ ∅ [] w)
| reach_start ts g t p :
    hub_reach (ts, g) → ts !! t = None → starts t p → hub_reach (<[t := p]> ts, g)
| reach_step c c' : hub_reach c → pstep c c' → hub_reach c'.

Lemma starts_ok t p : 0 ≤ GatewayMaxConnections (cfg d) → starts t p →
  hoare (hub_inv d) hub_guar t (λ _ _, True) (λ _, True) p.
Proof.
  intros Hmax [n ok|c ms|n c oks|n c|n order payload|n u|n order].
  - apply h_quiet. quiet_walk.
  - apply h_readPump.
  - apply h_quiet, quietp_writePump_loop.
  - apply h_quiet, quietp_timeout.
  - apply h_quiet, quietp_event.
  - apply h_quiet, quietp_delayedOffline.
  - by apply h_Shutdown.
Qed.

Lemma hub_reach_ok c : 0 ≤ GatewayMaxConnections (cfg d) →
  hub_reach c → pool_ok (hub_inv d) hub_guar c.
Proof.
  intros Hmax. induction 1 as [w|ts g t p _ IH _ Hst|c c' _ IH Hs].
  - split.
    + split_and!; [|done|].
      * intros u cs Hl. cbn [clients snd] in Hl. by rewrite lookup_empty in Hl.
      * intros c. unfold client_at. cbn [heap snd]. by rewrite lookup_empty.
    + intros t p Hl. cbn [fst] in Hl. by rewrite lookup_empty in Hl.
  - apply (spawn_ok _ _ _ _ _ _ (λ _, True)); [exact IH|apply stable_True|done|].
    by apply starts_ok.
  - by eapply pstep_ok.
Qed.

Lemma hub_reach_schedule l c : hub_reach c → hub_reach (schedule l c).
Proof.
  revert c. induction l as [|t l IH]; intros c Hc; [done|]. apply IH.
  destruct (pstep_of_spec t c) as [->|Hs]; [done|by eapply reach_step].
Qed.

(** C10: However the goroutines of the server interleave - connections opening and closing,
    identify, resume, events, heartbeats, timers, shutdown - the hub's registry stays
    consistent: every registered connection is identified and filed under the user it
    authenticated as, exactly once; no user has an empty slice; the number of registered
    connections never exceeds the configured maximum; and no client's send channel holds
    more than its buffer. *)
Theorem registry_invariant ts g :
  0 ≤ GatewayMaxConnections (cfg d) → hub_reach (ts, g) → hub_inv d g.
Proof. intros Hmax Hr. by destruct (hub_reach_ok _ Hmax Hr). Qed.
End system.
