(* ===== verification/GatewayDelivery.v ===== *)
(** * What the gateway delivers

    The functional behaviour of the hub's methods when nothing interferes ([Proc.run]):
    which clients an event reaches and with what, the permission filter, a resumed session,
    and the end of a connection. *)
From S2P Require Import Prelude GoStd Platform Permission Presence Session Tokens Jwt Config Domain Publisher Proc Gateway GatewayInv.
Open Scope Z_scope.
Open Scope proc_scope.

(** ** Running the basic steps *)
Section steps.
Context {U any W : Type} `{UUIDLib U} `{Valkey W} `{Clock W} `{IdGen U W} `{JwtLib}.
Context `{PermissionLib} `{Store U W} `{!Cache U W} `{TimeFormat} `{Protocol}.
Context `{GatewayJson U any} `{ReadyRepos U W}.
Context (d : HubDeps).
Abbreviation G := (gw U W).
Implicit Types (g : G) (c : nat) (u : U).

(** What one client gets from an event: a frame with its next sequence number, or an
    unnumbered frame for an ephemeral event. *)
Definition delivered (eventType raw : string) (cl : Client U) : Client U :=
  if ephemeralEvent eventType then
    match NewEphemeralDispatchFrame (any := any) (U := U) eventType raw with
    | Ok frame => enqueue_client frame cl
    | Err _ => cl
    end
  else
    let n := wrap64 (seq cl + 1) in
    match NewDispatchFrame (any := any) (U := U) n eventType raw with
    | Ok frame => enqueue_client frame (set_seq n cl)
    | Err _ => set_seq n cl
    end.

(** Same registry, and the clients of [l] mapped through [f]. *)
Definition mapped (f : Client U → Client U) (l : list nat) g g' : Prop :=
  clients g' = clients g ∧ offline g' = offline g ∧
  ∀ c, client_at g' c = if decide (c ∈ l) then f (client_at g c) else client_at g c.

Lemma mapped_nil f g : mapped f [] g g.
Proof. done. Qed.

Lemma mapped_cons f c l g g1 g2 :
  c ∉ l → mapped f [c] g g1 → mapped f l g1 g2 → mapped f (c :: l) g g2.
Proof.
  intros Hc (E1 & E1' & Hm1) (E2 & E2' & Hm2). split_and!; [congruence..|]. intros c'.
  rewrite Hm2, Hm1.
  destruct (decide (c' ∈ l)), (decide (c' ∈ [c])) as [Hin|Hin], (decide (c' ∈ c :: l)); try done;
    set_solver.
Qed.

Lemma mapped_upd f c g : mapped f [c] g (upd_client c f g).
Proof.
  split_and!; [done..|]. intros c'. rewrite client_at_upd.
  destruct (decide (c' ∈ [c])), (decide (c' = c)); set_solver.
Qed.

Lemma run_each_mapped f (l : list nat) (body : nat → proc G unit) g :
  NoDup l → (∀ c g, c ∈ l → mapped f [c] g (run (body c) g).2) →
  mapped f l g (run (each l body) g).2.
Proof.
  intros Hnd Hb. revert g. induction Hnd as [|c l Hc Hnd IH]; intros g; [apply mapped_nil|].
  cbn [each]. rewrite run_bind. pose proof (Hb c g (list_elem_of_here c l)) as Hc1.
  destruct (run (body c) g) as [[] g1]. eapply mapped_cons; [done|exact Hc1|].
  apply IH. intros c' g' Hin. by apply Hb, list_elem_of_further.
Qed.

Lemma mapped_world f l g g' w : mapped f l g g' → mapped f l g (set_world w g').
Proof. intros (? & ? & Hm). by split_and!. Qed.

Lemma run_dispatch_one et raw c g :
  ephemeralEvent et = false →
  mapped (delivered et raw) [c] g (run (dispatch_one (any := any) d et raw c) g).2.
Proof.
  intros He. unfold dispatch_one, nextSeq. rewrite run_bind. cbn [run act].
  set (n := wrap64 (seq (client_at g c) + 1)).
  assert (Hf : ∀ g', clients g' = clients g → offline g' = offline g →
            (∀ c', client_at g' c' = if decide (c' = c) then delivered et raw (client_at g c)
                                     else client_at g c') → mapped (delivered et raw) [c] g g').
  { intros g' Hc Ho Hm. split_and!; [done..|]. intros c'. rewrite Hm.
    destruct (decide (c' ∈ [c])), (decide (c' = c)); set_solver. }
  assert (Hd : delivered et raw (client_at g c) =
    match NewDispatchFrame (any := any) (U := U) n et raw with
    | Ok frame => enqueue_client frame (set_seq n (client_at g c))
    | Err _ => set_seq n (client_at g c)
    end) by (unfold delivered; by rewrite He).
  destruct (NewDispatchFrame n et raw) as [frame|e] eqn:E.
  - unfold enqueue, on_client, SessionID. rewrite run_bind. cbn [run update act].
    rewrite run_bind. cbn [run read act].
    set (g1 := upd_client c (enqueue_client frame) (upd_client c (set_seq n) g)).
    assert (Hg1 : mapped (delivered et raw) [c] g g1).
    { apply Hf; [done..|]. intros c'. unfold g1. rewrite !client_at_upd.
      rewrite (decide_True _ _ (eq_refl c)).
      destruct (decide (c' = c)) as [->|]; congruence. }
    clearbody g1. case_bool_decide; [exact Hg1|].
    rewrite run_bind. unfold call. cbn [run act].
    destruct (AppendReplay _ _ _ _ _) as [r w]. by apply mapped_world.
  - cbn [run snd]. apply Hf; [done..|]. intros c'. rewrite client_at_upd.
    destruct (decide (c' = c)) as [->|]; congruence.
Qed.

(** The delivery part of [handlePubSubEvent]. *)
Definition deliver_all (et raw : string) (tgts : list nat) : proc G unit :=
  if ephemeralEvent et then
    match NewEphemeralDispatchFrame (any := any) (U := U) et raw with
    | Err _ => Ret tt
    | Ok frame => each tgts (λ c, enqueue c frame)
    end
  else each tgts (dispatch_one (any := any) d et raw).

Lemma run_deliver et raw tgts g :
  NoDup tgts → mapped (delivered et raw) tgts g (run (deliver_all et raw tgts) g).2.
Proof.
  intros Hnd. unfold deliver_all. destruct (ephemeralEvent et) eqn:He.
  - destruct (NewEphemeralDispatchFrame et raw) as [frame|e] eqn:E.
    + apply run_each_mapped; [done|]. intros c g' _.
      assert (Hd : delivered et raw = enqueue_client frame)
        by (unfold delivered; by rewrite He, E).
      rewrite Hd. apply mapped_upd.
    + split_and!; [done..|]. intros c. unfold delivered. rewrite He, E. by case_decide.
  - apply run_each_mapped; [done|]. intros c g' _. by apply run_dispatch_one.
Qed.

(** *** Replay buffers *)
Context `{!ValkeyLaws W}.

Definition buffer_of (sid : string) g : option entry :=
  ks_map (vk_view (world g)) !! replayKey sid.

Lemma delivered_session et raw cl : sessionID (delivered et raw cl) = sessionID cl.
Proof.
  assert (He : ∀ f (cl' : Client U), sessionID (enqueue_client f cl') = sessionID cl').
  { intros f cl'. destruct (enqueue_client_quiet f cl') as [E _]. by injection E. }
  unfold delivered. case_match; case_match; rewrite ?He; done.
Qed.

Lemma dispatch_one_buffer et raw c g sid :
  sessionID (client_at g c) ≠ sid →
  buffer_of sid (run (dispatch_one (any := any) d et raw c) g).2 = buffer_of sid g.
Proof.
  intros Hsid. unfold dispatch_one, nextSeq. rewrite run_bind. cbn [run act].
  destruct (NewDispatchFrame _ et raw) as [frame|e]; [|done].
  rewrite run_bind. unfold enqueue, on_client. cbn [run update act].
  rewrite run_bind. unfold SessionID. cbn [run read act].
  set (g1 := upd_client c (enqueue_client frame) _).
  assert (Hs : sessionID (client_at g1 c) = sessionID (client_at g c)).
  { unfold g1. rewrite !client_at_upd, !decide_True by done.
    destruct (enqueue_client_quiet frame (set_seq (wrap64 (seq (client_at g c) + 1)) (client_at g c)))
      as [E _]. by injection E. }
  rewrite Hs. case_bool_decide; [done|]. rewrite run_bind. unfold call. cbn [run act].
  destruct (AppendReplay _ _ _ _ _) as [r w] eqn:E. cbn [run snd].
  by apply (AppendReplay_other _ _ sid) in E; [|congruence].
Qed.

Lemma deliver_buffer et raw tgts g sid :
  (∀ c, c ∈ tgts → sessionID (client_at g c) ≠ sid) →
  buffer_of sid (run (deliver_all et raw tgts) g).2 = buffer_of sid g.
Proof.
  intros Hsid. unfold deliver_all. destruct (ephemeralEvent et) eqn:He.
  - destruct (NewEphemeralDispatchFrame et raw) as [frame|e]; [|done].
    revert g Hsid. induction tgts as [|c l IH]; intros g Hsid; [done|]. cbn [each].
    rewrite run_bind. change (run (enqueue c frame) g) with (tt, upd_client c (enqueue_client frame) g).
    cbv iota beta. rewrite IH; [done|]. intros c' Hc'. rewrite client_at_upd.
    destruct (decide (c' = c)) as [->|]; [|apply Hsid; set_solver].
    destruct (enqueue_client_quiet frame (client_at g c)) as [E _]. injection E as _ _ ->.
    apply Hsid. set_solver.
  - revert g Hsid. induction tgts as [|c l IH]; intros g Hsid; [done|]. cbn [each].
    rewrite run_bind. pose proof (run_dispatch_one et raw c g He) as (_ & _ & Hm).
    pose proof (dispatch_one_buffer et raw c g sid (Hsid c (list_elem_of_here c l))) as Hb.
    destruct (run (dispatch_one d et raw c) g) as [[] g1]. cbn [snd] in *.
    rewrite IH; [done|]. intros c' Hc'. rewrite Hm.
    destruct (decide (c' ∈ [c])); [rewrite delivered_session|]; apply Hsid; set_solver.
Qed.
End steps.

(** ** Events *)
Section events.
Context {U any W : Type} `{UUIDLib U} `{Valkey W} `{Clock W} `{IdGen U W} `{JwtLib}.
Context `{PermissionLib} `{Store U W} `{!Cache U W} `{TimeFormat} `{Protocol}.
Context `{GatewayJson U any} `{ReadyRepos U W}.
Context `{!ValkeyLaws W}.
Context `{!PermWorld U W} `{!PermissionLaws} `{!StoreLaws U W} `{!CacheLaws U W}.
Context (d : HubDeps).
Abbreviation G := (gw U W).
Implicit Types (g : G) (c : nat) (u : U).

(** *** Selection of the connections *)
Lemma elem_of_select order tgs g c :
  hub_inv d g → order ≡ₚ map_to_list (clients g) →
  c ∈ select_targets order tgs g ↔
    registered g c ∧ (tgs = [] ∨ userID (client_at g c) ∈ tgs).
Proof.
  intros (Hreg & _) Hord.
  assert (Horder : ∀ u cs, (u, cs) ∈ order ↔ clients g !! u = Some cs).
  { intros u cs. by rewrite Hord, elem_of_map_to_list. }
  assert (Hsel : ∀ l, c ∈ concat (snd <$> l) ↔ ∃ u cs, (u, cs) ∈ l ∧ c ∈ cs).
  { intros l. induction l as [|[u cs] l IH]; [set_solver|].
    rewrite fmap_cons. simpl. rewrite elem_of_app, IH. set_solver. }
  unfold select_targets. rewrite list_elem_of_filter.
  assert (Hw : ∀ u cs, (u, cs) ∈ match tgs with [] => order | _ => filter (λ p, p.1 ∈ tgs) order end
            ↔ clients g !! u = Some cs ∧ (tgs = [] ∨ u ∈ tgs)).
  { intros u cs. destruct tgs as [|t tgs]; [rewrite Horder; naive_solver|].
    rewrite list_elem_of_filter, Horder. naive_solver. }
  rewrite Hsel. setoid_rewrite Hw. unfold registered. split.
  - intros (_ & u & cs & (Hl & Ht) & Hc). destruct (Hreg u cs Hl) as (_ & _ & Hid).
    destruct (Hid c Hc) as [_ ->]. eauto.
  - intros ((u & cs & Hl & Hc) & Ht). destruct (Hreg u cs Hl) as (_ & _ & Hid).
    destruct (Hid c Hc) as [? Hu]. rewrite Hu in Ht. eauto 10.
Qed.

Lemma NoDup_select order tgs g :
  hub_inv d g → order ≡ₚ map_to_list (clients g) → NoDup (select_targets order tgs g).
Proof.
  intros (Hreg & _) Hord. unfold select_targets. apply NoDup_filter.
  assert (Hall : ∀ l, l ⊆+ order → NoDup (concat (snd <$> l))).
  { intros l Hl.
    assert (Hin : ∀ u cs, (u, cs) ∈ l → clients g !! u = Some cs).
    { intros u cs Hin. apply elem_of_map_to_list. rewrite <-Hord. by eapply elem_of_submseteq. }
    assert (Hk : NoDup l.*1).
    { apply submseteq_Permutation in Hl as [k Hl]. pose proof (NoDup_fst_map_to_list (clients g)) as Hn.
      rewrite <-Hord, Hl, fmap_app in Hn. by apply NoDup_app in Hn as [? _]. }
    clear Hl Hord. induction l as [|[u cs] l IH]; [constructor|].
    rewrite fmap_cons in *. simpl in *. apply NoDup_cons in Hk as [Hu Hk].
    destruct (Hreg u cs) as (_ & Hnd & Hid); [apply Hin; set_solver|].
    apply NoDup_app. split_and!; [done| |apply IH; [set_solver|done]].
    intros c Hc Hc'.
    assert (∃ u' cs', (u', cs') ∈ l ∧ c ∈ cs') as (u' & cs' & Hl & Hcs).
    { clear -Hc'. induction l as [|[u' cs'] l IH]; [set_solver|].
      rewrite fmap_cons in Hc'. simpl in Hc'. set_solver. }
    destruct (Hreg u' cs') as (_ & _ & Hid'); [apply Hin; set_solver|].
    destruct (Hid c Hc) as [_ E1], (Hid' c Hcs) as [_ E2].
    apply Hu, list_elem_of_fmap. exists (u', cs'). simpl. split; [congruence|done]. }
  apply Hall. destruct tgs; [done|]. apply sublist_submseteq, sublist_filter.
Qed.

(** *** The permission filter *)
Definition may_view (db : permdb U) u ch : Prop :=
  ∃ p, effective db u ch p ∧ perm_Has p ViewChannels = true.
Definition may_not_view (db : permdb U) u ch : Prop :=
  ∃ p, effective db u ch p ∧ perm_Has p ViewChannels = false.

(** The resolver answers on this database. *)
Definition resolver_answers (db : permdb U) ch : Prop :=
  ∀ u w, db_of w = db → ∃ b w', HasPermission u ch ViewChannels w = (Ok b, w').

Lemma HasPermission_spec u ch w r w' :
  db_wf (db_of w) → coherent w → ch ≠ serverPermKey →
  HasPermission u ch ViewChannels w = (r, w') →
  db_of w' = db_of w ∧ coherent w' ∧
  ∀ b, r = Ok b → ∃ p, effective (db_of w) u ch p ∧ perm_Has p ViewChannels = b.
Proof.
  intros Hwf Hco Hch E. unfold HasPermission in E.
  apply bind_inv in E as [(p & w1 & E1 & E)|(e & E1 & ->)];
    apply Resolve_spec in E1 as (? & ? & Hp); try done.
  go_inv. split_and!; [done..|]. intros b [= <-]. eauto.
Qed.

Lemma run_permits ch l pc acc g r g' :
  let db := db_of (world g) in
  db_wf db → coherent (world g) → ch ≠ serverPermKey →
  (∀ u b, pc !! u = Some b → ∃ p, effective db u ch p ∧ perm_Has p ViewChannels = b) →
  run (each_fold (permit_step ch) l (pc, acc)) g = (r, g') →
  clients g' = clients g ∧ heap g' = heap g ∧ offline g' = offline g ∧
  ∃ l', r.2 = acc ++ l' ∧ l' `sublist_of` l ∧
    (∀ c, c ∈ l' → may_view db (userID (client_at g c)) ch) ∧
    (resolver_answers db ch → ∀ c, c ∈ l → c ∉ l' → may_not_view db (userID (client_at g c)) ch).
Proof.
  intros db Hwf Hco Hch. revert pc acc g r g' db Hwf Hco.
  induction l as [|c l IH]; intros pc acc g r g' db Hwf Hco Hpc E.
  { simpl in E. injection E as <- <-. split_and!; try done. exists [].
    rewrite app_nil_r. split_and!; [done..|set_solver|set_solver]. }
  set (u := userID (client_at g c)).
  (* One step: whether [c] is kept, and the memory it leaves. *)
  assert (Hstep : ∃ pc1 (keep : bool) g1,
    run (permit_step ch (pc, acc) c) g = ((pc1, if keep then acc ++ [c] else acc), g1) ∧
    clients g1 = clients g ∧ heap g1 = heap g ∧ offline g1 = offline g ∧
    db_of (world g1) = db ∧ coherent (world g1) ∧
    (∀ u b, pc1 !! u = Some b → ∃ p, effective db u ch p ∧ perm_Has p ViewChannels = b) ∧
    (keep = true → may_view db u ch) ∧
    (resolver_answers db ch → keep = false → may_not_view db u ch)).
  { unfold permit_step, UserID. rewrite run_bind. cbn [run read act]. fold u.
    destruct (pc !! u) as [b|] eqn:Eu.
    - exists pc, b, g. destruct (Hpc u b Eu) as (p & ? & Hb).
      split_and!; try done; intros; subst; exists p; by destruct (perm_Has p ViewChannels).
    - rewrite run_bind. unfold call. cbn [run act].
      destruct (HasPermission u ch ViewChannels (world g)) as [rr w1] eqn:Eh.
      pose proof (HasPermission_spec _ _ _ _ _ Hwf Hco Hch Eh) as (Hd & Hc & Hr).
      destruct rr as [b|e].
      + exists (<[u := b]> pc), b, (set_world w1 g).
        destruct (Hr b eq_refl) as (p & ? & Hb).
        split_and!; try done.
        * intros u' b'. destruct (decide (u' = u)) as [->|].
          -- rewrite lookup_insert_eq. intros [= <-]. eauto.
          -- rewrite lookup_insert_ne by done. apply Hpc.
        * intros ->. by exists p.
        * intros _ ->. by exists p.
      + exists pc, false, (set_world w1 g). split_and!; try done.
        intros Hans _. destruct (Hans u (world g) eq_refl) as (b & w' & E'). congruence. }
  destruct Hstep as (pc1 & keep & g1 & Es & Hc1 & Hh1 & Ho1 & Hd1 & Hco1 & Hpc1 & Hk & Hnk).
  assert (Hcl : ∀ c', client_at g1 c' = client_at g c')
    by (intros c'; unfold client_at; by rewrite Hh1).
  cbn [each_fold] in E. rewrite run_bind, Es in E.
  apply IH in E as (Hc2 & Hh2 & Ho2 & l' & Hl' & Hsub & Hin & Hout); rewrite ?Hd1 in *; try done.
  split_and!; [congruence..|].
  exists (if keep then c :: l' else l'). split_and!.
  - destruct keep; [by rewrite <-app_assoc in Hl'|done].
  - destruct keep; [by apply sublist_skip|by apply sublist_cons].
  - intros c' Hc'. destruct keep.
    + apply elem_of_cons in Hc' as [->|Hc']; [by apply Hk|]. rewrite <-Hcl. by apply Hin.
    + rewrite <-Hcl. by apply Hin.
  - intros Hans c' Hc' Hnot. apply elem_of_cons in Hc' as [->|Hc'].
    + destruct keep; [by destruct Hnot; left|]. by apply Hnk.
    + rewrite <-Hcl. apply Hout; [done..|]. destruct keep; set_solver.
Qed.

(** *** The whole handler *)
Definition filter_targets (env : envelope U any) raw (tgts : list nat) : proc G (list nat) :=
  match parse_channel raw, env_Targets env with
  | Some channelID, [] =>
      if has_resolver d then r <- each_fold (permit_step channelID) tgts (∅, []);; Ret r.2
      else Ret tgts
  | _, _ => Ret tgts
  end.

Lemma run_unfiltered env raw tgts g :
  env_Targets env ≠ [] ∨ parse_channel (U := U) (any := any) raw = None ∨ has_resolver d = false →
  run (filter_targets env raw tgts) g = (tgts, g).
Proof.
  unfold filter_targets. intros [Ht|[Hc|Hs]].
  - destruct (env_Targets env); [done|]. by destruct (parse_channel raw).
  - by rewrite Hc.
  - rewrite Hs. destruct (parse_channel raw); [|done]. by destruct (env_Targets env).
Qed.

Lemma run_event order payload env raw g :
  json_Unmarshal payload = Ok env → json_Marshal (env_Data env) = Ok raw →
  let tgts := select_targets order (env_Targets env) g in
  run (handlePubSubEvent (any := any) d order payload) g =
  if bool_decide (tgts = []) then (tt, g)
  else run (deliver_all (any := any) d (env_Type env) raw (run (filter_targets env raw tgts) g).1)
           (run (filter_targets env raw tgts) g).2.
Proof.
  intros Hp Hr tgts. unfold handlePubSubEvent. rewrite Hp, Hr, run_bind. cbn [run read act].
  fold tgts. destruct tgts as [|c l]; [done|]. rewrite bool_decide_eq_false_2 by done.
  rewrite run_bind. unfold filter_targets, deliver_all. by destruct (run _ g) as [t g1].
Qed.

(** C16: A channel event reaches nobody who may not see the channel.  On a consistent hub
    and a coherent permission cache, every client whose state an undirected channel event
    changes is a registered connection of a user the database grants ViewChannels there,
    and it gets exactly its next frame; when the resolver answers, every registered
    connection that got nothing belongs to a user without that permission. *)
Theorem event_confidential order payload env raw ch g :
  let g' := (run (handlePubSubEvent (any := any) d order payload) g).2 in
  let db := db_of (world g) in
  hub_inv d g → order ≡ₚ map_to_list (clients g) →
  json_Unmarshal payload = Ok env → json_Marshal (env_Data env) = Ok raw →
  env_Targets env = [] → has_resolver d = true →
  parse_channel (any := any) raw = Some ch → ch ≠ serverPermKey →
  db_wf db → coherent (world g) →
  clients g' = clients g ∧
  ∃ recipients : list nat, ∀ c,
    client_at g' c = (if decide (c ∈ recipients)
                      then delivered (any := any) (env_Type env) raw (client_at g c)
                      else client_at g c) ∧
    (c ∈ recipients → registered g c ∧ may_view db (userID (client_at g c)) ch) ∧
    (resolver_answers db ch → registered g c → c ∉ recipients →
       may_not_view db (userID (client_at g c)) ch).
Proof.
  intros g' db Hinv Hord Hp Hr Htg Hres Hch Hne Hwf Hco.
  pose proof (run_event order payload env raw g Hp Hr) as E. cbv zeta in E.
  set (tgts := select_targets order (env_Targets env) g) in E.
  assert (Hsel : ∀ c, c ∈ tgts ↔ registered g c).
  { intros c. unfold tgts. rewrite elem_of_select, Htg by done. naive_solver. }
  destruct (bool_decide_reflect (tgts = [])) as [Hnil|Hnil].
  { unfold g'. rewrite E. split; [done|]. exists []. intros c. split_and!; [done|set_solver|].
    intros _ Hc. apply Hsel in Hc. rewrite Hnil in Hc. set_solver. }
  unfold g'. rewrite E. clear E g'.
  destruct (run (filter_targets env raw tgts) g) as [rcp g1] eqn:Ef.
  unfold filter_targets in Ef. rewrite Hch, Htg, Hres, run_bind in Ef.
  destruct (run (each_fold (permit_step ch) tgts (∅, [])) g) as [rr g1'] eqn:Ep.
  injection Ef as <- <-.
  apply run_permits in Ep as (Hc1 & Hh1 & Ho1 & l' & Hl' & Hsub & Hin & Hout); [|done..|].
  2: { intros u b. by rewrite lookup_empty. }
  simpl in Hl'. rewrite Hl'. cbn [fst snd].
  assert (Hnd : NoDup l').
  { apply (sublist_NoDup l' tgts); [by apply NoDup_select|done]. }
  destruct (run_deliver d (env_Type env) raw l' g1' Hnd) as (Hc2 & _ & Hm).
  split; [by rewrite Hc2|]. exists l'. intros c.
  assert (Hcl : client_at g1' c = client_at g c) by (unfold client_at; by rewrite Hh1).
  split_and!.
  - by rewrite Hm, Hcl.
  - intros Hc. split; [|by apply Hin]. apply Hsel. by eapply elem_of_sublist.
  - intros Hans Hc Hnot. apply Hout; [done| |done]. by apply Hsel.
Qed.

(** C34: An event that is not filtered - directed at users, or about no channel - reaches
    exactly the registered connections of the users it is directed at, of everybody when
    it names nobody; each is handed exactly one frame, numbered with its own next sequence
    number unless the event is ephemeral (a connection whose send buffer is full is closed
    instead), and no other client changes. *)
Theorem event_delivery order payload env raw g :
  let g' := (run (handlePubSubEvent (any := any) d order payload) g).2 in
  hub_inv d g → order ≡ₚ map_to_list (clients g) →
  json_Unmarshal payload = Ok env → json_Marshal (env_Data env) = Ok raw →
  env_Targets env ≠ [] ∨ parse_channel (U := U) (any := any) raw = None ∨ has_resolver d = false →
  clients g' = clients g ∧
  ∀ c, let addressed := registered g c ∧
         (env_Targets env = [] ∨ userID (client_at g c) ∈ env_Targets env) in
    (addressed → client_at g' c = delivered (any := any) (env_Type env) raw (client_at g c)) ∧
    (¬ addressed → client_at g' c = client_at g c).
Proof.
  intros g' Hinv Hord Hp Hr Hun.
  pose proof (run_event order payload env raw g Hp Hr) as E. cbv zeta in E.
  set (tgts := select_targets order (env_Targets env) g) in E.
  assert (Hsel : ∀ c, c ∈ tgts ↔ registered g c ∧
              (env_Targets env = [] ∨ userID (client_at g c) ∈ env_Targets env))
    by (intros c; by apply elem_of_select).
  destruct (bool_decide_reflect (tgts = [])) as [Hnil|Hnil].
  { unfold g'. rewrite E. split; [done|]. intros c. cbv zeta. rewrite <-Hsel, Hnil.
    split; [set_solver|done]. }
  unfold g'. rewrite E, run_unfiltered by done. cbn [fst snd].
  assert (Hnd : NoDup tgts) by (by apply NoDup_select).
  destruct (run_deliver d (env_Type env) raw tgts g Hnd) as (Hc2 & _ & Hm).
  split; [done|]. intros c. cbv zeta. rewrite <-Hsel, Hm. split; intros; by case_decide.
Qed.

(** Replay buffers record only what was sent to connections that are up: an event that
    is not filtered leaves the buffer of every session that no registered connection
    carries as it was, so a session that is disconnected accumulates nothing to replay
    when it resumes. *)
Lemma disconnected_not_buffered order payload env raw sid g :
  let g' := (run (handlePubSubEvent (any := any) d order payload) g).2 in
  hub_inv d g → order ≡ₚ map_to_list (clients g) →
  json_Unmarshal payload = Ok env → json_Marshal (env_Data env) = Ok raw →
  env_Targets env ≠ [] ∨ parse_channel (U := U) (any := any) raw = None ∨ has_resolver d = false →
  (∀ c, registered g c → sessionID (client_at g c) ≠ sid) →
  buffer_of sid g' = buffer_of sid g.
Proof.
  intros g' Hinv Hord Hp Hr Hun Hsid. unfold g'.
  rewrite (run_event order payload env raw g Hp Hr). case_bool_decide; [done|].
  rewrite run_unfiltered by done. apply deliver_buffer; [apply _|]. cbn [fst].
  intros c Hc. apply elem_of_select in Hc as [Hc _]; [|done..]. by apply Hsid.
Qed.
End events.

(** ** Connections *)
Section connections.
Context {U any W : Type} `{UUIDLib U} `{Valkey W} `{Clock W} `{IdGen U W} `{JwtLib}.
Context `{PermissionLib} `{Store U W} `{!Cache U W} `{TimeFormat} `{Protocol}.
Context `{GatewayJson U any} `{ReadyRepos U W}.
Context (d : HubDeps).
Abbreviation G := (gw U W).
Implicit Types (g : G) (c : nat) (u : U).

(** Same hub: only the services' world may differ. *)
Definition same_hub g g' : Prop :=
  clients g' = clients g ∧ heap g' = heap g ∧ offline g' = offline g.
Definition world_only {A} (p : proc G A) : Prop := ∀ g, same_hub g (run p g).2.

Lemma same_hub_client g g' c : same_hub g g' → client_at g' c = client_at g c.
Proof. intros (_ & E & _). unfold client_at. by rewrite E. Qed.
Lemma world_only_ret {A} (a : A) : world_only (Ret a).
Proof. done. Qed.
Lemma world_only_call {A} (m : M W A) : world_only (call m).
Proof. intros g. unfold call. cbn [run act]. by destruct (m (world g)). Qed.
Lemma world_only_bind {A B} (p : proc G A) (k : A → proc G B) :
  world_only p → (∀ a, world_only (k a)) → world_only (proc_bind p k).
Proof.
  intros Hp Hk g. rewrite run_bind. pose proof (Hp g) as (E1 & E2 & E3).
  destruct (run p g) as [a g1]. destruct (Hk a g1) as (E1' & E2' & E3').
  split_and!; simpl in *; congruence.
Qed.

Ltac world_walk := repeat first
  [progress intros | apply world_only_bind | apply world_only_call | apply world_only_ret | case_match].

Lemma world_only_authenticate token : world_only (authenticateToken (W := W) d token).
Proof. unfold authenticateToken. world_walk. Qed.
Lemma world_only_publish u s : world_only (publishPresence (any := any) d u s).
Proof. unfold publishPresence. world_walk. Qed.

(** A burst of frames that fits into the send buffer is buffered in order. *)
Lemma run_enqueues c msgs g :
  done_ (client_at g c) = false →
  Z.of_nat (length (send (client_at g c)) + length msgs) ≤ sendBuffer →
  let g' := (run (each msgs (enqueue c)) g).2 in
  clients g' = clients g ∧ offline g' = offline g ∧ world g' = world g ∧
  client_at g' c = set_send (send (client_at g c) ++ msgs) (client_at g c) ∧
  ∀ c', c' ≠ c → client_at g' c' = client_at g c'.
Proof.
  revert g. induction msgs as [|m msgs IH]; intros g Hd Hlen.
  { cbv zeta. cbn [each run snd]. rewrite app_nil_r. split_and!; [done..| |done].
    by destruct (client_at g c). }
  cbn [each]. cbv zeta. rewrite run_bind.
  change (run (enqueue c m) g) with (tt, upd_client c (enqueue_client m) g). cbv iota beta.
  set (g1 := upd_client c (enqueue_client m) g).
  assert (Hc : client_at g1 c = set_send (send (client_at g c) ++ [m]) (client_at g c)).
  { unfold g1. rewrite client_at_upd, decide_True by done. unfold enqueue_client. rewrite Hd.
    simpl in Hlen. by rewrite (proj2 (Z.ltb_lt _ _)) by lia. }
  destruct (IH g1) as (E1 & E2 & E3 & E4 & E5).
  - by rewrite Hc.
  - rewrite Hc. simpl. rewrite length_app. simpl in *. lia.
  - rewrite E1, E2, E3. split_and!; [done..| |].
    + rewrite E4, Hc. simpl. by rewrite <-app_assoc.
    + intros c' Hne. rewrite E5 by done. unfold g1. by rewrite client_at_upd, decide_False.
Qed.

Lemma run_call_then {A B} (m : M W A) (k : res A → proc G B) g :
  run (proc_bind (call m) k) g = run (k (m (world g)).1) (set_world (m (world g)).2 g).
Proof. rewrite run_bind. unfold call. cbn [run act]. by destruct (m (world g)). Qed.

Definition resumed_data : string :=
  match json_Marshal (Codec := gj_unit (U := U) (any := any)) tt with
  | Ok s => s | Err _ => ""%string end.

(** C35: A successful resume.  When the token belongs to the user of the saved session, the
    client does not claim to have seen more than was sent, and there is room, the
    connection is registered for that user, takes over the session's identifier and
    counter, and its send buffer receives exactly the replayed frames, in order, followed
    by RESUMED carrying the next sequence number; no other connection is touched. *)
Theorem resume_replays c r g g0 u last w1 missed w2 frame :
  let g' := (run (handleResume (any := any) d c r) g).2 in
  run (authenticateToken d (r_Token r)) g = (Ok u, g0) →
  Session.Load (sessions d) (r_SessionID r) (world g0) = (Ok (mkLoadedSession u last), w1) →
  r_Seq r ≤ last →
  Session.Replay (sessions d) (r_SessionID r) (r_Seq r) w1 = (Ok missed, w2) →
  totalClientsLocked (clients g) < GatewayMaxConnections (cfg d) →
  NewDispatchFrame (U := U) (any := any) (wrap64 (last + 1)) EventResumed resumed_data = Ok frame →
  done_ (client_at g c) = false →
  Z.of_nat (length (send (client_at g c)) + length missed) < sendBuffer →
  clients g' = <[u := default [] (clients g !! u) ++ [c]]> (clients g) ∧
  client_at g' c = set_send (send (client_at g c) ++ missed ++ [frame])
                     (set_identity u (r_SessionID r) (wrap64 (last + 1)) (client_at g c)) ∧
  ∀ c', c' ≠ c → client_at g' c' = client_at g c'.
Proof.
  intros g' Ha Hl Hseq Hr Hmax Hf Hd Hlen.
  pose proof (world_only_authenticate (r_Token r) g) as Hw. rewrite Ha in Hw. simpl in Hw.
  unfold g', handleResume. rewrite run_bind, Ha. rewrite run_call_then, Hl. cbn [fst snd].
  cbn [ls_UserID ls_LastSeq]. rewrite bool_decide_eq_true_2 by done. cbn [negb].
  rewrite (proj2 (Z.ltb_ge _ _)) by done.
  rewrite run_call_then. cbn [world set_world]. rewrite Hr. cbn [fst snd].
  rewrite run_bind. unfold on_client. cbn [run update act].
  rewrite run_bind. unfold register. cbn [run act].
  set (g1 := upd_client c _ _).
  assert (Hcl : clients g1 = clients g) by (by destruct Hw as (E & _)).
  assert (Hc1 : client_at g1 c = set_identity u (r_SessionID r) last (client_at g c)).
  { unfold g1. rewrite client_at_upd, decide_True by done. f_equal.
    by apply (same_hub_client g g0). }
  assert (Ho1 : ∀ c', c' ≠ c → client_at g1 c' = client_at g c').
  { intros c' Hne. unfold g1. rewrite client_at_upd, decide_False by done.
    by apply (same_hub_client g g0). }
  rewrite Hcl, (proj2 (Z.leb_gt _ _)) by done. rewrite Hc1. cbn [userID set_identity].
  rewrite run_call_then. rewrite run_bind.
  set (g2 := set_world _ _).
  assert (Hg2 : ∀ c', client_at g2 c' = client_at g1 c') by done.
  destruct (run_enqueues c missed g2) as (E1 & _ & _ & E4 & E5).
  { by rewrite Hg2, Hc1. }
  { rewrite Hg2, Hc1. simpl. lia. }
  destruct (run (each missed (enqueue c)) g2) as [[] g3]. cbn [snd] in *.
  assert (Hc2 : clients g2 = <[u := default [] (clients g !! u) ++ [c]]> (clients g)) by done.
  clearbody g1 g2. rewrite Hg2, Hc1 in E4. cbn [send set_identity] in E4.
  rewrite run_bind. unfold nextSeq. cbn [run act]. rewrite E4. cbn [seq set_send set_identity].
  fold resumed_data. rewrite Hf. rewrite run_bind. unfold enqueue, on_client. cbn [run update act].
  match goal with |- context [run ?p ?x] => set (q := p); set (g4 := x) end.
  assert (Hq : world_only q).
  { unfold q. pose proof world_only_publish.
    repeat first [progress intros | apply world_only_publish | progress world_walk]. }
  specialize (Hq g4). destruct (run q g4) as [[] g5]. cbn [snd] in *.
  split_and!.
  - destruct Hq as (-> & _). change (clients g3 = <[u:=default [] (clients g !! u) ++ [c]]> (clients g)).
    congruence.
  - rewrite (same_hub_client _ _ c Hq). unfold g4. rewrite !client_at_upd, !decide_True by done.
    rewrite E4. unfold enqueue_client. cbn [done_ set_seq set_send set_identity send]. rewrite Hd.
    rewrite length_app, (proj2 (Z.ltb_lt _ _)) by done. by rewrite <-app_assoc.
  - intros c' Hne. rewrite (same_hub_client _ _ c' Hq). unfold g4.
    rewrite !client_at_upd, !decide_False by done. rewrite E5 by done. rewrite Hg2. by apply Ho1.
Qed.

(** A refused resume.  When there is no such session, or it belongs to somebody else,
    or the client claims a sequence number the server never sent, the client is told that
    its session is invalid and may not be resumed: it is not identified, not registered
    and gets no other frame. *)
Lemma resume_refused c r g g0 u rs w1 :
  let g' := (run (handleResume (any := any) d c r) g).2 in
  run (authenticateToken d (r_Token r)) g = (Ok u, g0) →
  Session.Load (sessions d) (r_SessionID r) (world g0) = (rs, w1) →
  (∀ s, rs = Ok s → ls_UserID s ≠ u ∨ ls_LastSeq s < r_Seq r) →
  clients g' = clients g ∧
  client_at g' c = match NewInvalidSessionFrame (U := U) (any := any) false with
                   | Ok frame => enqueue_client frame (client_at g c)
                   | Err _ => client_at g c
                   end ∧
  ∀ c', c' ≠ c → client_at g' c' = client_at g c'.
Proof.
  intros g' Ha Hl Hbad.
  pose proof (world_only_authenticate (r_Token r) g) as Hw. rewrite Ha in Hw. simpl in Hw.
  assert (Hg' : g' = (run (invalidSession (any := any) c) (set_world w1 g0)).2).
  { unfold g', handleResume. rewrite run_bind, Ha. rewrite run_call_then, Hl. cbn [fst snd].
    destruct rs as [s|e]; [|done]. destruct (Hbad s eq_refl) as [Hu|Hs].
    - by rewrite bool_decide_eq_false_2.
    - rewrite (proj2 (Z.ltb_lt _ _) Hs). by case_bool_decide. }
  rewrite Hg'. clear Hg' g'. unfold invalidSession. destruct Hw as (Hc & Hh & _).
  assert (Hcl : ∀ c', client_at (set_world w1 g0) c' = client_at g c')
    by (intros c'; unfold client_at; cbn [heap set_world]; by rewrite Hh).
  destruct (NewInvalidSessionFrame false) as [frame|e]; cbn [run snd]; [|by split_and!].
  unfold enqueue, on_client. cbn [run update act snd]. split_and!; [done| |].
  - by rewrite client_at_upd, decide_True, Hcl.
  - intros c' Hne. by rewrite client_at_upd, decide_False, Hcl.
Qed.

Lemma registered_at g c :
  hub_inv d g → registered g c ↔ c ∈ default [] (clients g !! userID (client_at g c)).
Proof.
  intros (Hreg & _). split.
  - intros (u & cs & Hl & Hc). destruct (Hreg u cs Hl) as (_ & _ & Hid).
    destruct (Hid c Hc) as [_ ->]. by rewrite Hl.
  - destruct (clients g !! _) as [cs|] eqn:E; simpl; [|by intros ?%elem_of_nil].
    intros Hc. by exists (userID (client_at g c)), cs.
Qed.

(** Removing a registered connection: the others stay registered, and the answer says
    whether the user has any left. *)
Lemma remove_client_registered g c :
  hub_inv d g → registered g c →
  let u := userID (client_at g c) in
  ∃ cs', let m := match cs' with [] => delete u (clients g) | _ => <[u := cs']> (clients g) end in
    remove_client c g = (Some (u, negb (Nat.eqb (length cs') 0), true), set_clients m g) ∧
    default [] (clients g !! u) ≡ₚ c :: cs' ∧ NoDup (c :: cs') ∧
    (m !! u = if decide (cs' = []) then None else Some cs') ∧
    ∀ u', u' ≠ u → m !! u' = clients g !! u'.
Proof.
  intros Hinv Hr u. pose proof (proj1 (registered_at g c Hinv) Hr) as Hin. fold u in Hin.
  destruct Hinv as (Hreg & _). destruct (clients g !! u) as [cs|] eqn:Eu; [|set_solver].
  destruct (Hreg u cs Eu) as (_ & Hnd & Hid). simpl in Hin. destruct (Hid c Hin) as [Hi _].
  destruct (list_find (eq c) cs) as [[idx x]|] eqn:Ef.
  2:{ by apply list_find_eq_None in Ef. }
  pose proof (list_find_eq _ _ _ _ Ef) as [-> Hidx].
  pose proof (swap_delete_perm idx cs c Hidx) as Hp. exists (swap_delete idx cs).
  cbv zeta. split_and!.
  - unfold remove_client. fold u. rewrite Eu. cbn [default from_option id]. rewrite Ef, Hi. done.
  - done.
  - by rewrite <-Hp.
  - destruct (swap_delete idx cs); [by rewrite decide_True, lookup_delete_eq|].
    by rewrite decide_False, lookup_insert_eq.
  - intros u' Hne. destruct (swap_delete idx cs).
    + by rewrite lookup_delete_ne.
    + by rewrite lookup_insert_ne.
Qed.

(** A connection ends.  A registered one is taken out of the registry, and only it; its
    write loop is told to stop; its session is saved with its user and its last sequence
    number; and the delayed offline of the user starts exactly when presence is on and it
    was the last connection of the user.  For a connection that was never registered
    nothing happens at all: its write loop is not even told to stop. *)
Lemma unregister_correct c g :
  let g' := (run (unregister (any := any) d c) g).2 in
  let cl := client_at g c in
  hub_inv d g →
  (registered g c →
     ¬ registered g' c ∧
     (∀ c', c' ≠ c → registered g' c' ↔ registered g c') ∧
     client_at g' c = set_done cl ∧ (∀ c', c' ≠ c → client_at g' c' = client_at g c') ∧
     world g' = (Session.Save (sessions d) (sessionID cl) (userID cl) (seq cl) (world g)).2 ∧
     offline g' = offline g ++
       (if has_presence d && bool_decide (clients g' !! userID cl = None)
        then [userID cl] else [])) ∧
  (¬ registered g c → g' = g).
Proof.
  intros g' cl Hinv. split.
  - intros Hr. set (u := userID cl).
    destruct (remove_client_registered g c Hinv Hr) as (cs' & Hrem & Hp & Hnd & Hu & Hne).
    fold cl u in Hrem, Hp, Hu, Hne. cbv zeta in *.
    set (m := match cs' with [] => delete u (clients g) | _ => <[u := cs']> (clients g) end) in *.
    assert (Hg' : clients g' = m ∧ client_at g' c = set_done cl ∧
               (∀ c', c' ≠ c → client_at g' c' = client_at g c') ∧
               world g' = (Session.Save (sessions d) (sessionID cl) u (seq cl) (world g)).2 ∧
               offline g' = offline g ++
                 (if has_presence d && negb (negb (Nat.eqb (length cs') 0)) then [u] else [])).
    { set (w1 := (Session.Save (sessions d) (sessionID cl) u (seq cl) (world g)).2).
      set (g1 := set_world w1 (upd_client c set_done (set_clients m g))).
      assert (Eg : g' = if has_presence d && negb (negb (Nat.eqb (length cs') 0))
                        then mkGw (clients g1) (heap g1) (offline g1 ++ [u]) (world g1) else g1).
      { unfold g', unregister. rewrite run_bind. unfold act at 1. cbn [run]. rewrite Hrem.
        unfold closeSend, on_client. rewrite run_bind. cbn [run update act].
        rewrite run_bind. unfold SessionID, currentSeq. cbn [run read act].
        rewrite run_bind. cbn [run read act]. rewrite run_call_then.
        rewrite !client_at_upd, !decide_True by done.
        change (client_at (set_clients m g) c) with cl. cbn [sessionID seq set_done].
        by destruct (_ && _). }
      assert (Hcl : ∀ c', client_at g1 c' = if decide (c' = c) then set_done cl else client_at g c')
        by (intros c'; apply (client_at_upd c set_done (set_clients m g))).
      rewrite Eg. destruct (has_presence d && _); rewrite ?app_nil_r;
        (split_and!; [done|..|done|done]); intros; unfold client_at in *; cbn [heap];
        rewrite Hcl; by destruct (decide (_ = c)). }
    clearbody g'. destruct Hg' as (Hc & Hcl & Hot & Hw & Ho). clearbody m.
    destruct Hinv as (Hreg & _).
    assert (Hnot : ∀ u' cs, clients g !! u' = Some cs → c ∈ cs → u' = u).
    { intros u' cs Hl Hin. destruct (Hreg u' cs Hl) as (_ & _ & Hid). by destruct (Hid c Hin). }
    assert (Hm : ∀ u' c', (∃ cs, m !! u' = Some cs ∧ c' ∈ cs) ↔
               c' ≠ c ∧ ∃ cs, clients g !! u' = Some cs ∧ c' ∈ cs).
    { intros u' c'. destruct (decide (u' = u)) as [->|Hd].
      - rewrite Hu. apply NoDup_cons in Hnd as [Hnc _].
        destruct (clients g !! u) as [cs|] eqn:Eu; simpl in Hp.
        2:{ by apply Permutation_nil_cons in Hp. }
        split.
        + intros (l & Hl & Hin). case_decide; [done|]. simplify_eq.
          split; [by intros ->|]. exists cs. split; [done|]. rewrite Hp. by right.
        + intros (Hd' & l & [= <-] & Hin). rewrite Hp in Hin.
          apply elem_of_cons in Hin as [?|Hin]; [done|].
          exists cs'. rewrite decide_False; [done|]. by intros ->; apply elem_of_nil in Hin.
      - rewrite Hne by done. split; [|naive_solver]. intros (cs & Hl & Hin).
        split; [|eauto]. intros ->. by destruct Hd; eapply Hnot. }
    assert (Hrg : ∀ c', registered g' c' ↔ c' ≠ c ∧ registered g c').
    { intros c'. unfold registered. rewrite Hc.
      split; [intros (u' & Hx); apply Hm in Hx as (? & ?); eauto|].
      intros (? & u' & ?). exists u'. by apply Hm. }
    split_and!; [rewrite Hrg; naive_solver|intros c' ?; rewrite Hrg; naive_solver|done..|].
    rewrite Ho, Hc, Hu, negb_involutive. f_equal. f_equal.
    by destruct cs'.
  - intros Hr. unfold g', unregister. rewrite run_bind. unfold act at 1. cbn [run].
    unfold remove_client. fold cl. rewrite registered_at in Hr by done. fold cl in Hr.
    destruct (list_find (eq c) _) as [[idx x]|] eqn:Ef; [|done].
    apply list_find_eq in Ef as [_ Hidx]. by destruct Hr; eapply list_elem_of_lookup_2.
Qed.
End connections.
