(* ===== verification/GatewayWitness.v ===== *)
(** * A concrete gateway on which its theorems apply

    Two connected users, one of whom may not see a channel; access tokens that are the
    user's identifier; the in-memory server and cache of [PermWitness]; the database behind
    READY is down. *)
From S2P Require Import Prelude GoStd Platform Permission PermCache PermWitness Presence Session Tokens Jwt Config Domain Publisher Proc Gateway GatewayInv GatewayDelivery.
Open Scope Z_scope.

#[local] Instance psim_Clock : Clock psim := {| time_Now := λ w, ks_now (ps_ks w) |}.
#[local] Instance psim_IdGen : IdGen cuuid psim := {| uuid_New := λ w, (lobby, w) |}.
#[local] Instance subject_JwtLib : JwtLib := {|
  jwt_Sign := λ c _, Ok (Subject c);
  jwt_Parse := λ tok _ issuer now, Ok (mkAccessClaims tok issuer now now true);
|}.
#[local] Instance plain_TimeFormat : TimeFormat := {| time_Format := FormatInt |}.
#[local] Instance uncord_Protocol : Protocol := {|
  OpcodeDispatch := 0; OpcodeHeartbeat := 1; OpcodeIdentify := 2; OpcodePresenceUpdate := 3;
  OpcodeResume := 6; OpcodeReconnect := 7; OpcodeInvalidSession := 9; OpcodeHello := 10;
  OpcodeHeartbeatACK := 11; EventReady := "READY"; EventResumed := "RESUMED";
  EventPresenceUpdate := "PRESENCE_UPDATE"; EventTypingStart := "TYPING_START";
  EventTypingStop := "TYPING_STOP" |}.

(** The codecs: [any] is the text of a channel id. *)
Definition opt_str (o : option string) : string := match o with Some s => s | None => "-" end.
Definition opt_Z (o : option Z) : string := match o with Some n => FormatInt n | None => "-" end.
Definition no_codec {A} (f : A → string) : Codec A :=
  {| json_Marshal := λ a, Ok (f a); json_Unmarshal := λ _, Err (Plain "unexpected") |}.

(** A frame is its fields, one byte for the opcode, when it comes from the peer. *)
#[local] Instance frame_codec : Codec Frame := {|
  json_Marshal := λ f, Ok (FormatInt (Op f) +:+ " " +:+ opt_Z (Seq_ f) +:+ " " +:+
                           opt_str (Type_ f) +:+ " " +:+ Data f);
  json_Unmarshal := λ s, match bytes_of s with
                         | b :: r => Ok (mkFrame (b - 48) None None (string_of r))
                         | [] => Err (Plain "empty")
                         end |}.
#[local] Instance resume_codec : Codec ResumeData := {|
  json_Marshal := λ r, Ok (r_Token r);
  json_Unmarshal := λ s, Ok (mkResumeData s "s1" 0) |}.
#[local] Instance envelope_codec : Codec (envelope cuuid string) := {|
  json_Marshal := λ e, Ok (env_Data e);
  json_Unmarshal := λ s, Ok (mkEnvelope "MESSAGE_CREATE" s []) |}.
#[local] Instance plain_json : GatewayJson cuuid string := {|
  gj_Frame := frame_codec;
  gj_Hello := no_codec (λ h, FormatInt (HeartbeatInterval h));
  gj_Identify := {| json_Marshal := λ i, Ok (id_Token i);
                    json_Unmarshal := λ s, Ok (mkIdentifyData s) |};
  gj_Resume := resume_codec;
  gj_PresenceRequest := {| json_Marshal := λ p, Ok (pu_Status p);
                           json_Unmarshal := λ s, Ok (mkPresenceUpdateRequest s) |};
  gj_Scoped := {| json_Marshal := λ s, Ok (cs_ChannelID s);
                  json_Unmarshal := λ s, Ok (mkChannelScoped s) |};
  gj_Ready := no_codec rd_SessionID;
  gj_bool := no_codec (λ b : bool, if b then "true"%string else "false"%string);
  gj_unit := no_codec (λ _, "{}"%string);
  gj_session := Session.Witness.sd_codec;
  gj_replay := Session.Witness.re_codec;
  gj_any := {| json_Marshal := λ s, Ok s; json_Unmarshal := λ s, Ok s |};
  gj_envelope := envelope_codec;
  any_PresenceUpdate := pd_Status;
|}.
#[local] Instance down_ReadyRepos : ReadyRepos cuuid psim := {|
  users_GetByID := λ _, fail (Plain "down"); server_Get := fail (Plain "down");
  channels_List := fail (Plain "down"); roles_List := fail (Plain "down");
  members_List := λ _ _, fail (Plain "down"); readStates_ListByUser := λ _, fail (Plain "down");
  onboarding_Get := fail (Plain "down"); errgroup_first := λ _ e _, e |}.

Definition deps : HubDeps :=
  mkHubDeps Config.Witness.cfg_ok (mkSessionStore (300 * Second) 100) true true true false false None.

(** Nobody sees [general] but the owner and alice. *)
Definition db1 : permdb cuuid := {|
  db_owner := Some owner;
  db_roles := db_roles db0;
  db_chan := db_chan db0;
  db_over := λ t c,
    if decide (t = TargetChannel ∧ c = general)
    then [mkOverride PrincipalRole member_role 0 1; mkOverride PrincipalUser alice 1 0] else [];
|}.
Lemma db1_wf : db_wf db1.
Proof.
  unfold db_wf, in_int64, int64_min, int64_max. split; simpl.
  - intros u. repeat case_decide; repeat constructor; simpl; lia.
  - intros t c. repeat case_decide; repeat constructor; simpl; lia.
Qed.

Definition online (u : cuuid) (sid : string) (n : Z) : Client cuuid :=
  set_identity u sid n newClient.
Definition two : gw cuuid psim :=
  mkGw {[alice := [1%nat]; bob := [2%nat]]}
       {[1%nat := online alice "sa" 4; 2%nat := online bob "sb" 7]} []
       (Psim (Keyspace 0 ∅ []) db1).

Lemma alice_bob : alice ≠ bob.
Proof. uuid_ne. Qed.
Lemma bob_alice : bob ≠ alice.
Proof. uuid_ne. Qed.

Lemma two_inv : hub_inv deps two.
Proof.
  split_and!.
  - intros u cs Hl. cbn [clients two] in Hl.
    destruct (decide (u = alice)) as [->|Ha]; [|destruct (decide (u = bob)) as [->|Hb]].
    + rewrite lookup_insert_eq in Hl. simplify_eq. split; [done|]. split; [apply NoDup_singleton|].
      by intros c ->%list_elem_of_singleton.
    + rewrite lookup_insert_ne, lookup_singleton_eq in Hl by (apply alice_bob). simplify_eq.
      split; [done|]. split; [apply NoDup_singleton|]. by intros c ->%list_elem_of_singleton.
    + by rewrite lookup_insert_ne, lookup_singleton_ne in Hl.
  - vm_compute. discriminate.
  - intros c. unfold client_at. cbn [heap two].
    destruct (decide (c = 1%nat)) as [->|]; [|destruct (decide (c = 2%nat)) as [->|]];
      [vm_compute; discriminate..|].
    by rewrite lookup_insert_ne, lookup_singleton_ne.
Qed.

Lemma two_coherent : coherent (world two).
Proof.
  intros u c p.
  change (decode_entry (e_val <$> (∅ : gmap string entry) !! cacheKey u c) = Some p →
    if decide (c = serverPermKey) then server_effective db1 u p else effective db1 u c p).
  by rewrite lookup_empty.
Qed.

Definition order2 : list (cuuid * list nat) := Eval vm_compute in map_to_list (clients two).
Lemma order2_ok : order2 ≡ₚ map_to_list (clients two).
Proof. assert (order2 = map_to_list (clients two)) as -> by (vm_compute; reflexivity). done. Qed.

Definition in_general : string := Eval vm_compute in uuid_String general.
Definition after_event : gw cuuid psim :=
  (run (handlePubSubEvent (any := string) deps order2 in_general) two).2.

(** alice gets frame number 5, bob nothing. *)
Lemma event_confidential_witness :
  send (client_at after_event 1) = ["0 5 MESSAGE_CREATE " +:+ in_general] ∧
  client_at after_event 2 = client_at two 2 ∧
  clients after_event = clients two.
Proof.
  split; [vm_compute; reflexivity|]. split; [vm_compute; reflexivity|].
  destruct (event_confidential (any := string) deps order2 in_general
              (mkEnvelope "MESSAGE_CREATE" in_general []) in_general general two)
    as [E _]; [exact two_inv|exact order2_ok|done..| |exact db1_wf|exact two_coherent|exact E].
  uuid_ne.
Defined.

(** An event about no channel reaches both. *)
Definition server_event : string := "renamed".
Definition after_server_event : gw cuuid psim :=
  (run (handlePubSubEvent (any := string) deps order2 server_event) two).2.

Lemma alice_registered : registered two 1.
Proof. exists alice, [1%nat]. split; [reflexivity|]. by left. Qed.

Lemma event_delivery_witness :
  send (client_at after_server_event 1) = ["0 5 MESSAGE_CREATE renamed"%string] ∧
  send (client_at after_server_event 2) = ["0 8 MESSAGE_CREATE renamed"%string] ∧
  client_at after_server_event 1 =
    delivered (any := string) "MESSAGE_CREATE" server_event (client_at two 1).
Proof.
  split; [vm_compute; reflexivity|]. split; [vm_compute; reflexivity|].
  destruct (event_delivery (any := string) deps order2 server_event
              (mkEnvelope "MESSAGE_CREATE" server_event []) server_event two)
    as [_ Hc]; [exact two_inv|exact order2_ok|done..|right; left; vm_compute; reflexivity|].
  destruct (Hc 1%nat) as [Ha _]. apply Ha. split; [exact alice_registered|by left].
Defined.

(** The session "s1" is disconnected: the event does not reach its buffer. *)
Lemma disconnected_not_buffered_witness :
  buffer_of "sa" after_server_event ≠ None ∧
  buffer_of "s1" after_server_event = buffer_of "s1" two.
Proof.
  split; [vm_compute; discriminate|].
  apply (disconnected_not_buffered (any := string) deps order2 server_event
           (mkEnvelope "MESSAGE_CREATE" server_event []) server_event "s1" two);
    [exact two_inv|exact order2_ok|done..|right; left; vm_compute; reflexivity|].
  intros c (u & cs & Hl & Hc). cbn [clients two] in Hl.
  destruct (decide (u = alice)) as [->|]; [|destruct (decide (u = bob)) as [->|]].
  - rewrite lookup_insert_eq in Hl. simplify_eq. apply list_elem_of_singleton in Hc as ->. done.
  - rewrite lookup_insert_ne, lookup_singleton_eq in Hl by (apply alice_bob). simplify_eq.
    apply list_elem_of_singleton in Hc as ->. done.
  - by rewrite lookup_insert_ne, lookup_singleton_ne in Hl.
Defined.

(** Carol's connection 3 resumes the session that alice's saved, with one frame buffered. *)
Definition saved_world : psim :=
  let w := Psim (Keyspace 0 ∅ []) db1 in
  let w1 := (Session.AppendReplay (sessions deps) "s1" 5 "hello" w).2 in
  (Session.Save (sessions deps) "s1" alice 5 w1).2.
Definition waiting : gw cuuid psim := mkGw ∅ {[3%nat := newClient]} [] saved_world.
Definition resume_alice : ResumeData := mkResumeData (uuid_String alice) "s1" 4.
Definition resume_bob : ResumeData := mkResumeData (uuid_String bob) "s1" 4.
Definition resumed : gw cuuid psim :=
  (run (handleResume (any := string) deps 3 resume_alice) waiting).2.
Definition refused : gw cuuid psim :=
  (run (handleResume (any := string) deps 3 resume_bob) waiting).2.

Definition auth_run (r : ResumeData) := run (authenticateToken deps (r_Token r)) waiting.
Definition load_run (g : gw cuuid psim) :=
  Session.Load (U := cuuid) (sessions deps) "s1" (world g).

Lemma resume_replays_witness :
  send (client_at resumed 3) = ["hello"%string; "0 6 RESUMED {}"%string] ∧
  seq (client_at resumed 3) = 6 ∧
  clients resumed = {[alice := [3%nat]]}.
Proof.
  split; [vm_compute; reflexivity|]. split; [vm_compute; reflexivity|].
  destruct (resume_replays (any := string) deps 3 resume_alice waiting (auth_run resume_alice).2
              alice 5 (load_run (auth_run resume_alice).2).2 ["hello"%string]
              (Session.Replay (sessions deps) "s1" 4 (load_run (auth_run resume_alice).2).2).2
              "0 6 RESUMED {}") as (E & _ & _).
  - unfold auth_run. apply run_pair. vm_compute. reflexivity.
  - unfold load_run. apply run_eq. vm_compute. reflexivity.
  - vm_compute. discriminate.
  - unfold load_run. apply run_eq. vm_compute. reflexivity.
  - vm_compute. reflexivity.
  - vm_compute. reflexivity.
  - reflexivity.
  - vm_compute. reflexivity.
  - exact E.
Defined.

Lemma resume_refused_witness :
  send (client_at refused 3) = ["9 - - false"%string] ∧
  identified (client_at refused 3) = false ∧
  clients refused = ∅.
Proof.
  split; [vm_compute; reflexivity|]. split; [vm_compute; reflexivity|].
  destruct (resume_refused (any := string) deps 3 resume_bob waiting (auth_run resume_bob).2
              bob (Ok (mkLoadedSession alice 5)) (load_run (auth_run resume_bob).2).2)
    as (E & _ & _).
  - unfold auth_run. apply run_pair. vm_compute. reflexivity.
  - unfold load_run. apply run_eq. vm_compute. reflexivity.
  - intros s [= <-]. left. apply alice_bob.
  - exact E.
Defined.

Lemma unregister_correct_witness :
  let g := (run (unregister (any := string) deps 1) two).2 in
  offline g = [alice] ∧ ¬ registered g 1.
Proof.
  cbv zeta. split; [vm_compute; reflexivity|].
  destruct (unregister_correct (any := string) deps 1 two two_inv) as [Hr _].
  destruct (Hr alice_registered) as [E _]. exact E.
Defined.

(** A run of the whole server: a connection is accepted, its peer resumes alice's session,
    and then leaves. *)
Definition boot : gmap tid (proc (gw cuuid psim) unit) * gw cuuid psim :=
  (∅, mkGw ∅ ∅ [] saved_world).
Definition accepted :=
  schedule [Other 0] (<[Other 0 := (_ <- ServeWebSocket (any := string) deps true;; Ret tt)%proc]>
                        boot.1, boot.2).
Definition peer_says : list string := ["6" +:+ uuid_String alice].
Definition serving :=
  schedule (replicate 9 (Reader 0))
    (<[Reader 0 := readPump (any := string) deps 0 peer_says]> accepted.1, accepted.2).

Lemma registry_invariant_witness :
  map_to_list (clients serving.2) = [(alice, [0%nat])] ∧ hub_inv deps serving.2.
Proof.
  split; [vm_compute; reflexivity|].
  apply (registry_invariant (any := string) deps serving.1); [vm_compute; discriminate|].
  rewrite <-surjective_pairing. apply hub_reach_schedule, reach_start.
  - rewrite <-surjective_pairing. apply hub_reach_schedule, reach_start; [|reflexivity|constructor].
    apply reach_init.
  - apply schedule_None. cbn [fst]. rewrite lookup_insert_ne by done. apply lookup_empty.
  - constructor.
Defined.
