(* ===== verification/GuildStore.v ===== *)
(** * The permission store of the server keeps the promises of the resolver

    PGStore (internal/permission/pg_store.go) over the tables of GuildTables.v is a [Store] of
    Permission.v: its answers are what [guild_perms] reads off the tables, and asking changes
    neither the tables nor the permission cache.  The theorems of Permission.v about the
    resolver therefore hold of the server as it is assembled. *)
From S2P Require Import Prelude GoStd Platform Permission PermCache Postgres Frames Domain GuildTables GuildRepo.
Open Scope Z_scope.

Section store.
Context {U W : Type} `{UUIDLaws U} `{!RandomUUID U} `{PostgresLaws (guild U) W}.
Context `{!Valkey W} `{!ValkeyFrame (pg_view (DB := guild U) (W := W))}.
Implicit Types (d : guild U) (u c : U).
Abbreviation view := (pg_view (DB := guild U) (W := W)).

(** What the tables say about permissions. *)
Definition guild_perms d : permdb U := {|
  db_owner := Server.OwnerID <$> g_server d;
  db_roles := λ u, role_perms u d;
  db_chan := λ c, g_channels d !! c;
  db_over := λ t c, overrides_of t c d;
|}.

Lemma guild_perms_wf d :
  map_Forall (λ _ r, in_int64 (Role.Permissions r)) (g_roles d) →
  map_Forall (λ _ o, in_int64 (o_allow o) ∧ in_int64 (o_deny o)) (g_overrides d) →
  db_wf (guild_perms d).
Proof.
  intros Hr Ho. split.
  - intros u. apply Forall_forall. intros e ([i r] & Hin & He)%list_elem_of_omap.
    apply elem_of_map_to_list in Hin. simpl in He. destruct (_ || _); [|done]. injection He as <-.
    by apply (Hr i r).
  - intros t c. apply Forall_forall. intros o ([k x] & Hin & Hx)%list_elem_of_omap.
    apply elem_of_map_to_list in Hin. simpl in Hx. destruct k as [[[ty tg] pt] pr].
    destruct (_ && _); [|done]. injection Hx as <-. by apply (Ho _ _ Hin).
Qed.

#[export] Instance guild_DbFrame : DbFrame U W.
Proof.
  refine {| dbv := λ w, guild_perms (view w) |}. intros cs w r w' E.
  by rewrite (keeps_run view _ _ _ _ (vk_exec_keeps cs) E).
Defined.
#[export] Instance guild_Store : Store U W := PGStore.store.

(** The database does not touch Valkey either. *)
Context `{!PgFrame (guild U) (vk_view (W := W))}.

Lemma query_unchanged {A} (f : guild U → A) w r w' :
  pg_query (W := W) (gets f) w = (r, w') → unchanged (U := U) w w' ∧ ∀ a, r = Ok a → a = f (view w).
Proof.
  intros E. pose proof (keeps_run (vk_view (W := W)) _ _ _ _ (pg_query_keeps (gets f)) E) as Hk.
  destruct (pg_query_atomic _ _ _ _ E) as [(d & [= <- <-] & Hv)|(e & -> & _ & Hv)].
  - split; [|by intros a [= <-]]. split; simpl; [by rewrite Hv|]. intros k. unfold cached_perm. by rewrite Hk.
  - split; [|done]. assert (Hv' : view w' = view w) by (destruct Hv as [?|(a & d & [= _ <-] & ?)]; done).
    split; simpl; [by rewrite Hv'|]. intros k. unfold cached_perm. by rewrite Hk.
Qed.
Lemma store_query {A} ctx (f : guild U → A) w r w' :
  wrap (W := W) ctx (pg_query (gets f)) w = (r, w') →
  unchanged (U := U) w w' ∧ ∀ a, r = Ok a → a = f (view w).
Proof.
  intros (r0 & E & ->)%wrap_inv. apply query_unchanged in E as [Hu Hr]. split; [done|].
  destruct r0; [|done]. intros b [= <-]. by apply Hr.
Qed.

#[export] Instance PGStore_laws : StoreLaws U W.
Proof.
  constructor.
  - intros u w r w' E. by apply store_query in E.
  - intros u w r w' E. by apply store_query in E.
  - intros c w r w' E. apply map_err_inv in E as (r0 & E & ->).
    pose proof (keeps_run (vk_view (W := W)) _ _ _ _ (pg_query_keeps (select_channel c)) E) as Hk.
    assert (Hs : view w' = view w ∧ ∀ ci, r0 = Ok ci → mkChannelInfo c <$> g_channels (view w) !! c = Some ci).
    { destruct (pg_query_atomic _ _ _ _ E) as [(d & Hd & Hv)|(e & -> & _ & Hv)];
        unfold select_channel, row_or_none in *.
      - destruct (mkChannelInfo c <$> _) as [ci|] eqn:Ec; injection Hd as <- <-; split; naive_solver.
      - split; [|done]. destruct Hv as [?|(a & d & Hd & Hv)]; [done|].
        destruct (mkChannelInfo c <$> _); [|done]. by injection Hd as _ <-. }
    destruct Hs as [Hv Hs]. split.
    + split; simpl; [by rewrite Hv|]. intros k. unfold cached_perm. by rewrite Hk.
    + intros ci Hci. destruct r0 as [ci'|]; [|done]. injection Hci as <-.
      specialize (Hs _ eq_refl). simpl. destruct (g_channels (view w) !! c); [|done]. by injection Hs as <-.
  - intros t c w r w' E. by apply store_query in E.
Qed.
End store.
