(* ===== verification/ResolverFrame.v ===== *)
(** * What asking the permission resolver leaves alone

    The resolver reads the tables of the guild and reads and writes the cache in Valkey.  An
    observation of the world that statements which only read, and Valkey, leave alone is left
    alone by every operation of the resolver, over the store of the server (GuildStore.v). *)
From S2P Require Import Prelude GoStd Platform Permission PermCache Postgres Frames Domain GuildTables GuildRepo GuildStore.
Open Scope Z_scope.

(** Statements that only read the part [DB] of the database leave [obs] alone. *)
Class ReadFrame (DB : Type) {W V : Type} `{Postgres DB W} (obs : W → V) : Prop := {
  read_query_keeps : ∀ {A} (q : M DB A), (∀ d, (q d).2 = d) → keeps obs (pg_query q) }.

(** The tables themselves. *)
Lemma ReadFrame_view {DB W} `{PostgresLaws DB W} : ReadFrame DB (pg_view (DB := DB) (W := W)).
Proof.
  split. intros A q Hq w. destruct (pg_query q w) as [r w'] eqn:E. simpl.
  apply pg_query_atomic in E as [(d & Hd & Hv)|(e & -> & _ & Hv)].
  - specialize (Hq (pg_view w)). rewrite Hd in Hq. simpl in Hq. subst d. by destruct r.
  - destruct Hv as [?|(a & d & Hd & ->)]; [done|]. specialize (Hq (pg_view w)). by rewrite Hd in Hq.
Qed.
(** What the database has no hand in. *)
Lemma ReadFrame_other {DB W V} `{Postgres DB W} (obs : W → V) `{!PgFrame DB obs} : ReadFrame DB obs.
Proof. split. intros A q _. apply pg_query_keeps. Qed.

Section frame.
Context {U W V : Type} `{UUIDLib U} `{!RandomUUID U} `{Postgres (guild U) W} `{PermissionLib}.
Context `{!Valkey W} (obs : W → V) `{!ValkeyFrame obs} `{!ReadFrame (guild U) obs}.
Implicit Types (u ch : U).

Lemma frame_gets {A} ctx (f : guild U → A) : keeps obs (wrap (W := W) ctx (pg_query (gets f))).
Proof. by apply keeps_wrap, read_query_keeps. Qed.
Lemma frame_row {A} f (o : guild U → option A) :
  keeps obs (map_err (W := W) f (pg_query (λ d : guild U, row_or_none (o d) d))).
Proof. apply keeps_map_err, read_query_keeps. intros d. by destruct (o d). Qed.

Lemma frame_cache_Get u k : keeps obs (cache_Get (U := U) (W := W) u k).
Proof. simpl. unfold Get. keeps. Qed.
Lemma frame_cache_Set u k p : keeps obs (cache_Set (U := U) (W := W) u k p).
Proof. simpl. unfold Set_. keeps. Qed.
Lemma frame_basePermissions u : keeps obs (basePermissions (U := U) (W := W) u).
Proof.
  apply keeps_bind; [apply keeps_wrap, frame_gets|]. intros []; [keeps|].
  apply keeps_bind; [apply keeps_wrap, frame_gets|]. intros l. keeps.
Qed.
Lemma frame_channelOverrides b ids u ch : keeps obs (channelOverrides (U := U) (W := W) b ids u ch).
Proof.
  apply keeps_bind; [apply keeps_wrap, frame_row|]. intros ci.
  apply keeps_bind; [destruct (CategoryID ci); [apply keeps_bind; [apply keeps_wrap, frame_gets|intros l]|]; keeps|].
  intros x. apply keeps_bind; [apply keeps_wrap, frame_gets|intros l; keeps].
Qed.
Lemma frame_compute u ch : keeps obs (compute (U := U) (W := W) u ch).
Proof.
  apply keeps_bind; [apply frame_basePermissions|]. intros br. destruct (br_admin br); [keeps|].
  apply frame_channelOverrides.
Qed.
Lemma frame_Resolve u ch : keeps obs (Resolve (U := U) (W := W) u ch).
Proof.
  unfold Resolve. apply keeps_bind; [apply keeps_try, frame_cache_Get|]. intros r.
  assert (Ht : ∀ p, keeps obs (best_effort (cache_Set (U := U) (W := W) u ch p) ;; mret p))
    by (intros p; apply keeps_bind; [apply keeps_best_effort, frame_cache_Set|intros _; keeps]).
  destruct r as [[p|]|e]; [keeps|..]; (apply keeps_bind; [apply frame_compute|auto]).
Qed.
Lemma frame_ResolveServer u : keeps obs (ResolveServer (U := U) (W := W) u).
Proof.
  unfold ResolveServer. apply keeps_bind; [apply keeps_try, frame_cache_Get|]. intros r.
  assert (Ht : ∀ br, keeps obs (best_effort (cache_Set (U := U) (W := W) u serverPermKey (br_perm br)) ;; mret (br_perm br)))
    by (intros br; apply keeps_bind; [apply keeps_best_effort, frame_cache_Set|intros _; keeps]).
  destruct r as [[p|]|e]; [keeps|..]; (apply keeps_bind; [apply frame_basePermissions|auto]).
Qed.
Lemma frame_HasPermission u ch p : keeps obs (HasPermission (U := U) (W := W) u ch p).
Proof. apply keeps_bind; [apply frame_Resolve|intros x; keeps]. Qed.
Lemma frame_HasServerPermission u p : keeps obs (HasServerPermission (U := U) (W := W) u p).
Proof. apply keeps_bind; [apply frame_ResolveServer|intros x; keeps]. Qed.

(** The loop of the bulk operations. *)
Lemma frame_filter cached (miss : U → M W Z) perm ids acc :
  (∀ id, keeps obs (miss id)) → keeps obs (foldM (filter_step cached miss perm) ids acc).
Proof.
  intros Hm. revert acc. induction ids as [|id ids IH]; intros acc; simpl; [keeps|].
  apply keeps_bind; [|intros a; apply IH]. unfold filter_step. destruct acc as [l m].
  destruct (cached !! id); [keeps|]. apply keeps_bind; [apply Hm|intros x; keeps].
Qed.
Lemma frame_FilterUsersPermitted us ch p : keeps obs (FilterUsersPermitted (U := U) (W := W) us ch p).
Proof.
  assert (Hg : keeps obs (cache_GetManyUsers (U := U) (W := W) us ch)) by (simpl; unfold GetManyUsers; keeps).
  assert (Hset : ∀ m, keeps obs (cache_SetManyUsers (U := U) (W := W) ch m))
    by (intros m; simpl; unfold SetManyUsers; keeps).
  unfold FilterUsersPermitted. apply keeps_bind; [by apply keeps_try|]. intros cached. cbv zeta.
  apply keeps_bind; [apply frame_filter; intros id; apply frame_compute|]. intros r.
  destruct (bool_decide _); [keeps|]. apply keeps_bind; [by apply keeps_best_effort|intros _; keeps].
Qed.
Lemma frame_FilterPermitted u chs p : keeps obs (FilterPermitted (U := U) (W := W) u chs p).
Proof.
  assert (Hg : keeps obs (cache_GetMany (U := U) (W := W) u chs)) by (simpl; unfold GetMany; keeps).
  assert (Hset : ∀ m, keeps obs (cache_SetMany (U := U) (W := W) u m))
    by (intros m; simpl; unfold SetMany; keeps).
  unfold FilterPermitted. apply keeps_bind; [apply frame_basePermissions|]. intros br.
  destruct (br_admin br); [keeps|]. apply keeps_bind; [by apply keeps_try|]. intros cached. cbv zeta.
  apply keeps_bind; [apply frame_filter; intros id; apply frame_channelOverrides|]. intros r.
  destruct (bool_decide _); [keeps|]. apply keeps_bind; [by apply keeps_best_effort|intros _; keeps].
Qed.
End frame.
