(* ===== verification/JoinApi.v ===== *)
(** * Joining the server: internal/api/invite.go, onboarding.go and permission.go, and the
    documents of internal/onboarding/documents.go

    The handlers that create members, consume invites and set permission overrides, over the
    repositories of GuildRepo.v and the user repository's interface.  The documents are loaded
    through a file system that is a parameter. *)
From stdpp Require Import sorting.
From S2P Require Import Prelude GoStd Platform Permission PermCache PermInvalidate Validate Config.
From S2P Require Import Jwt Postgres Domain GuildTables GuildRepo Http MemberApi UserDB.
Open Scope Z_scope.

(** time.Since: a duration saturates. *)
Definition time_Sub (t u : Z) : Z := Z.max int64_min (Z.min int64_max (t - u)).
Definition time_Since {W} `{Clock W} (t : Z) : M W Z := now ← gets time_Now; mret (time_Sub now t).

(** A value of a JSON object. *)
Inductive json_scalar := JStr (s : string) | JInt (n : Z).

(** ** internal/api/invite.go *)
Record CreateInviteRequest := mkCreateInvite {
  ci_ChannelID : string; ci_MaxUses : option Z; ci_MaxAgeSeconds : option Z }.

Module InviteHandler.
Section invite.
Context {U W : Type} `{UUIDLib U} `{RandomUUID U} `{UUIDOrder U} `{MemberStatuses}.
Context `{Postgres (guild U) W} `{Clock W} `{CryptoRand W} `{!UserRepo U W}.
Context `{!Codec (gmap string string)} `{GatewayQueue W} `{AuditLog U W} `{EventNames} `{ApiErrors} `{TimeFormat}.
Context (h : handler).
Implicit Types (c : request U).

Definition mapInviteError {A} (err : error) : M W (response A) :=
  if errors_Is err InviteRepo.ErrNotFound then Fail_ StatusNotFound UnknownInvite "Invite not found"
  else if errors_Is err Validate.Invite.ErrExpired then
    Fail_ StatusBadRequest ValidationError "Invite has expired"
  else if errors_Is err Validate.Invite.ErrMaxUsesReached then
    Fail_ StatusBadRequest ValidationError "Invite has reached its maximum number of uses"
  else if errors_Is err InviteRepo.ErrChannelNotFound then
    Fail_ StatusNotFound UnknownChannel "Channel not found"
  else if errors_Is err Validate.Invite.ErrInvalidMaxUses then
    Fail_ StatusBadRequest ValidationError (Error err)
  else if errors_Is err Validate.Invite.ErrInvalidMaxAge then
    Fail_ StatusBadRequest ValidationError (Error err)
  else if errors_Is err MemberRepo.ErrAlreadyMember then
    Fail_ StatusConflict AlreadyMember "You are already a member of this server"
  else internal_error.

Definition toInviteModel (inv : Invite.Invite U) : Events.Invite :=
  Events.mkInvite (uuid_String (Invite.ID inv)) (Invite.Code inv) (uuid_String (Invite.ChannelID inv))
    (uuid_String (Invite.CreatorID inv)) (Invite.MaxUses inv) (Invite.UseCount inv)
    (Invite.MaxAgeSeconds inv) (time_Format (Invite.CreatedAt inv))
    (time_Format <$> Invite.ExpiresAt inv).

Definition CreateInvite c (decoded : res CreateInviteRequest) : M W (response Events.Invite) :=
  userID ← UserID c;
  Bind decoded (λ body,
  match uuid_Parse (ci_ChannelID body) with
  | Err _ => Fail_ StatusBadRequest InvalidChannelID "Invalid channel ID format"
  | Ok channelID =>
      catch (of_res (Validate.Invite.ValidateMaxUses (ci_MaxUses body))) mapInviteError (λ _,
      catch (of_res (Validate.Invite.ValidateMaxAge (ci_MaxAgeSeconds body))) mapInviteError (λ _,
      catch (InviteRepo.Create userID
               (mkInviteParams channelID (ci_MaxUses body) (ci_MaxAgeSeconds body)))
        mapInviteError (λ inv,
      record_audit h (Audit.mkEntry (Some userID) Audit.InviteCreate (Some "invite"%string)
                        (Some (Invite.ID inv)) None None) ;;
      enqueue_event h InviteCreated (Events.PInvite (toInviteModel inv)) ;;
      SuccessStatus StatusCreated (toInviteModel inv))))
  end).

Definition ListInvites c : M W (response (list Events.Invite)) :=
  ParseAfter c (λ after,
  ParseIntQuery c "limit" (λ rawLimit,
  let limit := Validate.Invite.ClampLimit rawLimit in
  catch (InviteRepo.List after limit) (λ _, internal_error)
    (λ invites, Success (toInviteModel <$> invites)))).

Definition DeleteInvite c : M W (response unit) :=
  userID ← UserID c;
  let code := Params c "code" in
  catch (InviteRepo.Delete (U := U) code) mapInviteError (λ _,
  record_audit h (Audit.mkEntry (Some userID) Audit.InviteDelete (Some "invite"%string) None
    (Audit.MarshalChanges ({[ "code"%string := code ]} : gmap string string)) None) ;;
  enqueue_event h InviteDeleted (Events.PInviteDelete (Events.mkInviteDeleteData code)) ;;
  SendStatus StatusNoContent).

(** The test of the minimum account age, in both join handlers. *)
Definition with_age {A} (cfg : Onboarding.Config U) (createdAt : Z) (k : M W (response A)) :
    M W (response A) :=
  accountAge ← time_Since createdAt;
  if accountAge <? wrap64 (Onboarding.MinAccountAgeSeconds cfg * Second)
  then Fail_ StatusBadRequest ValidationError "Your account is too new to join this server"
  else k.
(** The end of both join handlers: an existing member is returned as it is. *)
Definition join_as (userID : U) (mapError : error → M W (response Models.Member)) :
    M W (response Models.Member) :=
  catch (MemberRepo.CreatePending userID)
    (λ err,
      if negb (errors_Is err MemberRepo.ErrAlreadyMember) then mapError err
      else catch (MemberRepo.GetByUserIDAnyStatus userID) (λ _, internal_error)
             (λ existing, Success (Member.ToModel existing)))
    (λ m, Success (Member.ToModel m)).

Definition JoinViaInvite c : M W (response Models.Member) :=
  userID ← UserID c;
  catch (MemberRepo.IsBanned userID) (λ _, internal_error) (λ banned,
  if banned : bool then Fail_ StatusForbidden Banned "You are banned from this server" else
  let code := Params c "code" in
  catch (InviteRepo.GetByCode code) mapInviteError (λ inv,
  now ← gets time_Now;
  catch (of_res (Validate.Invite.Validate inv now)) mapInviteError (λ _,
  catch (users_GetByID userID) (λ _, internal_error) (λ u,
  if negb (User.EmailVerified u)
  then Fail_ StatusForbidden EmailNotVerified "Email verification is required" else
  catch OnboardingRepo.Get (λ _, internal_error) (λ cfg,
  (if 0 <? Onboarding.MinAccountAgeSeconds cfg then with_age cfg (User.CreatedAt u) else λ k, k)
  (catch (InviteRepo.Use_ (U := U) code) mapInviteError (λ _,
   join_as userID mapInviteError))))))).
End invite.
End InviteHandler.

(** ** internal/api/permission.go *)
Definition quoted (s : string) : string :=
  let q := String.String (ascii_of 34) String.EmptyString in q +:+ s +:+ q.
Record SetOverrideRequest := mkSetOverride { so_Type : string; so_Allow : Z; so_Deny : Z }.
Record PermissionOverride := mkPermissionOverride {
  po_ID : string; po_Type : string; po_TargetID : string; po_Allow : Z; po_Deny : Z;
  po_CreatedAt : string; po_UpdatedAt : string }.

Module PermissionHandler.
Section permission.
Context {U W : Type} `{UUIDLib U} `{RandomUUID U} `{Postgres (guild U) W} `{PermissionLib}.
Context `{Store U W} `{!Cache U W} `{Valkey W} `{!Codec (InvalidationMessage U)}.
Context `{!Codec (gmap string json_scalar)} `{AuditLog U W} `{ApiErrors} `{TimeFormat}.
Context (h : handler).
Implicit Types (c : request U).

Definition parsePrincipalType (s : string) : res string :=
  if bool_decide (s = PrincipalRole) then Ok PrincipalRole
  else if bool_decide (s = PrincipalUser) then Ok PrincipalUser
  else Err (Plain ("type must be " +:+ quoted "role" +:+ " or " +:+ quoted "user")).

Definition validateOverrideBits (allow deny : Z) : res unit :=
  let mask := AllPermissions in
  if negb (Z.ldiff allow mask =? 0) then Err (Plain "allow contains invalid permission bits")
  else if negb (Z.ldiff deny mask =? 0) then Err (Plain "deny contains invalid permission bits")
  else Ok tt.

Definition mapOverrideError {A} (err : error) : M W (response A) :=
  if errors_Is err ErrOverrideNotFound
  then Fail_ StatusNotFound UnknownOverride "Permission override not found"
  else internal_error.

Definition toOverrideModel (row : OverrideRow U) : PermissionOverride :=
  mkPermissionOverride (uuid_String (or_ID row)) (or_PrincipalType row)
    (uuid_String (or_PrincipalID row)) (or_Allow row) (or_Deny row)
    (time_Format (or_CreatedAt row)) (time_Format (or_UpdatedAt row)).

Definition bad_request {A} (err : error) : M W (response A) :=
  Fail_ StatusBadRequest ValidationError (Error err).
Definition channel_entry (actor : U) (action : string) (channelID : U)
    (changes : gmap string json_scalar) : Audit.Entry U :=
  Audit.mkEntry (Some actor) action (Some "channel"%string) (Some channelID)
    (Audit.MarshalChanges changes) None.
Definition invalidateChannel (channelID : U) : M W unit :=
  when (pub h) (best_effort (InvalidateChannel channelID)).

Definition SetOverride c (decoded : res SetOverrideRequest) : M W (response PermissionOverride) :=
  userID ← UserID c;
  ParseUUIDParam c "channelID" InvalidChannelID (λ channelID,
  ParseUUIDParam c "targetID" ValidationError (λ targetID,
  Bind decoded (λ body,
  catch (of_res (parsePrincipalType (so_Type body))) bad_request (λ principalType,
  catch (of_res (validateOverrideBits (so_Allow body) (so_Deny body))) bad_request (λ _,
  catch (PGStore.Set_ TargetChannel channelID principalType targetID (so_Allow body) (so_Deny body))
    mapOverrideError (λ row,
  record_audit h (channel_entry userID Audit.OverrideSet channelID
    {[ "target_id"%string := JStr (uuid_String targetID); "type"%string := JStr principalType;
       "allow"%string := JInt (so_Allow body); "deny"%string := JInt (so_Deny body) ]}) ;;
  invalidateChannel channelID ;;
  Success (toOverrideModel row))))))).

Definition DeleteOverride c : M W (response unit) :=
  userID ← UserID c;
  ParseUUIDParam c "channelID" InvalidChannelID (λ channelID,
  ParseUUIDParam c "targetID" ValidationError (λ targetID,
  catch (of_res (parsePrincipalType (Query c "type"))) bad_request (λ principalType,
  catch (PGStore.Delete TargetChannel channelID principalType targetID) mapOverrideError (λ _,
  record_audit h (channel_entry userID Audit.OverrideDelete channelID
    {[ "target_id"%string := JStr (uuid_String targetID); "type"%string := JStr principalType ]}) ;;
  invalidateChannel channelID ;;
  SendStatus StatusNoContent)))).

(** The data is models.ResolvedPermissions: one number. *)
Definition GetMyPermissions c : M W (response Z) :=
  ParseUUIDParam c "channelID" InvalidChannelID (λ channelID,
  userID ← UserID c;
  catch (Resolve userID channelID) (λ _, internal_error) Success).
End permission.
End PermissionHandler.

(** ** internal/onboarding/documents.go *)
Module Documents.
Definition ErrManifestInvalid : error := Sentinel "onboarding.ErrManifestInvalid".
Definition ErrDocumentNotFound : error := Sentinel "onboarding.ErrDocumentNotFound".
Definition ErrDuplicateSlug : error := Sentinel "onboarding.ErrDuplicateSlug".
Definition ErrInvalidSlug : error := Sentinel "onboarding.ErrInvalidSlug".

Record manifestEntry := mkManifestEntry {
  me_Slug : string; me_Title : string; me_File : string; me_Position : Z; me_Required : bool }.
Record manifestFile := mkManifestFile { mf_Documents : list manifestEntry }.

Definition EmptyDocumentStore : Onboarding.DocumentStore := Onboarding.mkDocumentStore [] ∅.

(** [^[a-z0-9][a-z0-9-]*$] *)
Definition slug_start (b : Z) : bool := ((97 <=? b) && (b <=? 122)) || ((48 <=? b) && (b <=? 57)).
Definition slugPattern (slug : string) : bool :=
  match bytes_of slug with
  | b :: l => slug_start b && forallb (λ x, slug_start x || (x =? 45)) l
  | [] => false
  end.

(** The file system: os.ReadFile, os.OpenInRoot with io.ReadAll, os.IsNotExist and
    filepath.IsLocal. *)
Class FileSystem (W : Type) : Type := {
  os_ReadFile : string → M W string;
  readFileInRoot : string → string → M W string;
  os_IsNotExist : error → bool;
  filepath_IsLocal : string → bool;
  filepath_Join : string → string → string }.

Section documents.
Context {W : Type} `{FileSystem W} `{!Codec manifestFile}.

Definition validateManifestEntry (entry : manifestEntry) (seen : gset string) : res unit :=
  if negb (slugPattern (me_Slug entry)) then Err (Wrap (me_Slug entry) ErrInvalidSlug)
  else if bool_decide (me_Slug entry ∈ seen) then Err (Wrap (me_Slug entry) ErrDuplicateSlug)
  else if bool_decide (TrimSpace (me_Title entry) = ""%string)
  then Err (Plain ("document " +:+ quoted (me_Slug entry) +:+ " has an empty title"))
  else if negb (filepath_IsLocal (me_File entry))
  then Err (Plain ("document " +:+ quoted (me_Slug entry) +:+ " file path " +:+ quoted (me_File entry)
                   +:+ " contains directory traversal"))
  else Ok tt.

(** One round of the loop: the documents loaded and the slugs that are required. *)
Definition load_entry (docsDir : string) (acc : list Onboarding.Document * gset string * gset string)
    (entry : manifestEntry) : M W (list Onboarding.Document * gset string * gset string) :=
  let '(docs, required, seen) := acc in
  of_res (validateManifestEntry entry seen) ;;
  r ← try (readFileInRoot docsDir (me_File entry));
  match r with
  | Err err =>
      if os_IsNotExist err then fail (Wrap (me_File entry) ErrDocumentNotFound)
      else fail (Wrap ("read document " +:+ me_Slug entry) err)
  | Ok raw =>
      let doc := Onboarding.mkDocument (me_Slug entry) (me_Title entry) raw (me_Position entry)
                   (me_Required entry) in
      mret (docs ++ [doc],
            (if me_Required entry then {[ me_Slug entry ]} ∪ required else required),
            {[ me_Slug entry ]} ∪ seen)
  end.
Definition by_doc_position (a b : Onboarding.Document) : Prop :=
  Onboarding.doc_Position a ≤ Onboarding.doc_Position b.
#[global] Instance by_doc_position_dec : RelDecision by_doc_position.
Proof. intros a b. unfold by_doc_position. apply _. Defined.

Definition LoadDocuments (dir : string) : M W Onboarding.DocumentStore :=
  r ← try (os_ReadFile (filepath_Join dir "manifest.json"));
  match r with
  | Err err => if os_IsNotExist err then mret EmptyDocumentStore else fail (Wrap "read manifest" err)
  | Ok data =>
      match json_Unmarshal data with
      | Err err => fail (Wrap (Error err) ErrManifestInvalid)
      | Ok mf =>
          acc ← foldM (load_entry (filepath_Join dir "documents")) (mf_Documents mf) ([], ∅, ∅);
          let '(docs, required, _) := acc in
          mret (Onboarding.mkDocumentStore (merge_sort by_doc_position docs) required)
      end
  end.
End documents.
End Documents.

(** ** internal/api/onboarding.go *)
Record UpdateOnboardingConfigRequest := mkUpdateOnboarding {
  uo_WelcomeChannelID : option string; uo_RequireEmailVerification : option bool;
  uo_OpenJoin : option bool; uo_MinAccountAgeSeconds : option Z; uo_AutoRoles : option (list string) }.
Record AcceptOnboardingRequest := mkAcceptOnboarding { ao_AcceptedDocumentSlugs : list string }.
Record DocumentAcceptance := mkDocumentAcceptance { da_Slug : string; da_AcceptedAt : string }.
(** The protocol's names of the steps. *)
Class OnboardingSteps : Type := {
  OnboardingStepVerifyEmail : string; OnboardingStepJoinServer : string;
  OnboardingStepAcceptDocuments : string; OnboardingStepComplete : string }.

Module OnboardingHandler.
Section onboarding.
Context {U W : Type} `{UUIDLib U} `{RandomUUID U} `{UUIDOrder U} `{MemberStatuses}.
Context `{Postgres (guild U) W} `{Clock W} `{!UserRepo U W} `{OnboardingSteps}.
Context `{GatewayQueue W} `{AuditLog U W} `{EventNames} `{ApiErrors} `{TimeFormat}.
Context (h : handler) (documents : Onboarding.DocumentStore).
Implicit Types (c : request U).

Definition mapOnboardingError {A} (err : error) : M W (response A) :=
  if errors_Is err OnboardingRepo.ErrNotFound then
    Fail_ StatusNotFound NotFound "Onboarding configuration not found"
  else if errors_Is err OnboardingRepo.ErrOpenJoinDisabled then
    Fail_ StatusForbidden OpenJoinDisabled "Open server joining is not enabled"
  else if errors_Is err OnboardingRepo.ErrDocumentsIncomplete then
    Fail_ StatusBadRequest ValidationError "You must accept all required documents"
  else if errors_Is err MemberRepo.ErrAlreadyMember then
    Fail_ StatusConflict AlreadyMember "You are already a member of this server"
  else if errors_Is err MemberRepo.ErrNotPending then
    Fail_ StatusBadRequest ValidationError "Not in pending status"
  else internal_error.

Definition onboarding_model (cfg : Onboarding.Config U) : Models.OnboardingConfig :=
  Onboarding.ToModel cfg (Onboarding.ToModels documents).
Definition GetOnboarding (c : request U) : M W (response Models.OnboardingConfig) :=
  catch (OnboardingRepo.Get (U := U)) (λ _, internal_error) (λ cfg, Success (onboarding_model cfg)).

(** The fields of the request that are parsed, with the answer when one is malformed. *)
Definition parse_welcome (s : option string) : option (option U * bool) :=
  match s with
  | None => Some (None, false)
  | Some s =>
      if bool_decide (s = ""%string) then Some (None, true)
      else match uuid_Parse s with Ok id => Some (Some id, false) | Err _ => None end
  end.
Fixpoint parse_ids (l : list string) : option (list U) :=
  match l with
  | [] => Some []
  | s :: l' => match uuid_Parse s with
               | Ok id => ids ← parse_ids l'; Some (id :: ids)
               | Err _ => None
               end
  end.
Definition UpdateOnboarding c (decoded : res UpdateOnboardingConfigRequest) :
    M W (response Models.OnboardingConfig) :=
  userID ← UserID c;
  catch ServerRepo.Get (λ _, internal_error) (λ srv,
  if negb (bool_decide (Server.OwnerID srv = userID))
  then Fail_ StatusForbidden OwnerOnly "Only the server owner can update onboarding settings" else
  Bind decoded (λ body,
  match parse_welcome (uo_WelcomeChannelID body) with
  | None => Fail_ StatusBadRequest ValidationError "Invalid welcome channel ID format"
  | Some (welcome, null) =>
      match parse_ids (default [] (uo_AutoRoles body)) with
      | None => Fail_ StatusBadRequest ValidationError "Invalid auto role ID format"
      | Some roles =>
          let params := mkOnboardingParams welcome null (uo_RequireEmailVerification body)
                          (uo_OpenJoin body) (uo_MinAccountAgeSeconds body) roles
                          (bool_decide (is_Some (uo_AutoRoles body))) in
          catch (OnboardingRepo.Update params) mapOnboardingError (λ cfg,
          record_audit h (Audit.mkEntry (Some userID) Audit.OnboardingUpdate (Some "onboarding"%string)
                            None None None) ;;
          Success (onboarding_model cfg))
      end
  end)).

Definition AcceptOnboarding c (decoded : res AcceptOnboardingRequest) : M W (response Models.Member) :=
  userID ← UserID c;
  Bind decoded (λ body,
  catch OnboardingRepo.Get (λ _, internal_error) (λ cfg,
  let verified (k : M W (response Models.Member)) :=
    if Onboarding.RequireEmailVerification cfg then
      catch (users_GetByID userID) (λ _, internal_error) (λ u,
      if negb (User.EmailVerified u)
      then Fail_ StatusBadRequest EmailNotVerified "You must verify your email address before joining"
      else k)
    else k in
  verified (
  if Onboarding.RequirePhone cfg
  then Fail_ StatusBadRequest ValidationError "Phone verification is not yet supported"
  else if Onboarding.RequireCaptcha cfg
  then Fail_ StatusBadRequest ValidationError "Captcha verification is not yet supported"
  else if bool_decide (Onboarding.requiredSlugs documents ⊈ list_to_set (ao_AcceptedDocumentSlugs body))
  then Fail_ StatusBadRequest ValidationError "You must accept all required documents to continue"
  else
    catch (OnboardingRepo.RecordAcceptances userID (ao_AcceptedDocumentSlugs body))
      (λ _, internal_error) (λ _,
    catch (MemberRepo.Activate userID (Onboarding.AutoRoles cfg)) mapOnboardingError (λ m,
    enqueue_event h MemberAdd (Events.PMember (Member.ToModel m)) ;;
    Success (Member.ToModel m)))))).

Definition GetAcceptance c : M W (response (list DocumentAcceptance)) :=
  userID ← UserID c;
  catch (OnboardingRepo.GetAcceptances userID) (λ _, internal_error) (λ acceptances,
  Success ((λ a, mkDocumentAcceptance a.1 (time_Format a.2)) <$> acceptances)).

Definition JoinServer c : M W (response Models.Member) :=
  userID ← UserID c;
  catch OnboardingRepo.Get (λ _, internal_error) (λ cfg,
  if negb (Onboarding.OpenJoin cfg)
  then Fail_ StatusForbidden OpenJoinDisabled "Open server joining is not enabled" else
  catch (MemberRepo.IsBanned userID) (λ _, internal_error) (λ banned,
  if banned : bool then Fail_ StatusForbidden Banned "You are banned from this server" else
  let join := InviteHandler.join_as userID mapOnboardingError in
  if 0 <? Onboarding.MinAccountAgeSeconds cfg then
    catch (users_GetByID userID) (λ _, internal_error) (λ u,
    InviteHandler.with_age cfg (User.CreatedAt u) join)
  else join)).

Definition GetOnboardingStatus c : M W (response string) :=
  userID ← UserID c;
  catch OnboardingRepo.Get (λ _, internal_error) (λ cfg,
  let verified (k : M W (response string)) :=
    if Onboarding.RequireEmailVerification cfg then
      catch (users_GetByID userID) (λ _, internal_error) (λ u,
      if negb (User.EmailVerified u) then Success OnboardingStepVerifyEmail else k)
    else k in
  verified (
  catch (MemberRepo.GetStatus userID)
    (λ err, if negb (errors_Is err MemberRepo.ErrNotFound) then internal_error
            else Success OnboardingStepJoinServer)
    (λ status,
      if negb (bool_decide (status = MemberStatusPending)) then Success OnboardingStepComplete
      else if bool_decide (Onboarding.requiredSlugs documents = ∅) then
        catch (MemberRepo.Activate userID (Onboarding.AutoRoles cfg))
          (λ err, if errors_Is err MemberRepo.ErrNotPending then Success OnboardingStepComplete
                  else mapOnboardingError err)
          (λ m,
            enqueue_event h MemberAdd (Events.PMember (Member.ToModel m)) ;;
            Success OnboardingStepComplete)
      else Success OnboardingStepAcceptDocuments))).
End onboarding.
End OnboardingHandler.
