(* ===== verification/JoinSpec.v ===== *)
(** * What joining, inviting and the owner's settings may do to the tables

    [join_step caller] are the changes the invite, onboarding and permission endpoints may make,
    [world_step] what the rest of the server does to these tables meanwhile: time passes,
    accounts are created, changed and deleted.  With [guild_step] of GuildSpec.v they are the
    steps of the server; its invariants are proved here for all of them. *)
From S2P Require Import Prelude GoStd Platform Permission Validate Postgres Domain GuildTables GuildRepo GuildSpec.
Open Scope Z_scope.

Section spec.
Context {U : Type} `{UUIDLaws U} `{!RandomUUID U} `{!UUIDOrder U} `{!MemberStatuses}.
Implicit Types (d : guild U) (caller t id u : U).

(** The roles [l] for [u], as rows of member_roles. *)
Definition grants u (l : list U) : gset (U * U) := list_to_set (pair u <$> l).
Definition grant u l d : guild U := set_member_roles (union (grants u l)) d.
Definition pending_row d : member_row := mkMemberRow None MemberStatusPending None (g_now d) None.
Definition auto_roles d : list U := default [] (Onboarding.AutoRoles <$> g_onboarding d).

Inductive join_step (caller : U) (d : guild U) : guild U → Prop :=
| step_join :
    is_Some (g_users d !! caller) → g_members d !! caller = None → g_bans d !! caller = None →
    (∀ i, i ∈ everyone_roles d → (caller, i) ∉ g_member_roles d) →
    join_step caller d (grant caller (everyone_roles d) (set_members <[caller := pending_row d]> d))
| step_activate m :
    g_members d !! caller = Some m → m_status m = MemberStatusPending →
    (∀ i, i ∈ auto_roles d → (caller, i) ∈ g_member_roles d ∨
       (is_Some (g_users d !! caller) ∧ is_Some (g_roles d !! i))) →
    join_step caller d
      (grant caller (auto_roles d) (set_members <[caller := set_onboarded MemberStatusActive (g_now d) m]> d))
| step_accept (slugs : list string) acc :
    (∀ k, acc !! k = g_acceptances d !! k ∨
       (g_acceptances d !! k = None ∧ k.1 = caller ∧ k.2 ∈ slugs ∧ acc !! k = Some (g_now d))) →
    join_step caller d (set_acceptances (λ _, acc) d)
| step_create_invite id n i :
    g_invites d !! id = None → Invite.ID i = id → Invite.CreatorID i = caller → Invite.UseCount i = 0 →
    (∀ m, Invite.MaxUses i = Some m → 0 ≤ m) → find_invite (Invite.Code i) d = None →
    is_Some (g_channels d !! Invite.ChannelID i) →
    join_step caller d (set_invites <[id := i]> (set_seq n d))
| step_use_invite id i :
    g_invites d !! id = Some i → valid_at (g_now d) i = true →
    join_step caller d (set_invites <[Invite.ID i := used_once i]> d)
| step_delete_invite id i :
    g_invites d !! id = Some i → join_step caller d (set_invites (delete (Invite.ID i)) d)
| step_set_override k row n :
    join_step caller d (set_overrides <[k := row]> (set_seq n d))
| step_delete_override k :
    join_step caller d (set_overrides (delete k) d).
(** The onboarding settings are the owner's. *)
Definition settings_step caller d d' : Prop :=
  owner d = Some caller ∧ ∃ cfg, d' = set_onboarding (Some cfg) d.

(** DELETE FROM users: what the foreign keys and the trigger of the schema take along. *)
Definition unban_by u (b : ban_row U) : ban_row U :=
  mkBanRow (b_reason b) (if decide (b_by b = Some u) then None else b_by b) (b_expires b) (b_created b).
Definition drop_account u d : guild U :=
  mkGuild (g_now d) (g_seq d) (delete u (g_users d)) (g_channels d) (g_server d) (g_roles d)
    (delete u (g_members d)) (filter (λ p, p.1 ≠ u) (g_member_roles d))
    (unban_by u <$> delete u (g_bans d))
    (filter (λ p, ¬ (p.1.1.2 = PrincipalUser ∧ p.1.2 = u)) (g_overrides d))
    (filter (λ p, Invite.CreatorID p.2 ≠ u) (g_invites d)) (g_onboarding d)
    (filter (λ p, p.1.1 ≠ u) (g_acceptances d)).
Definition set_now n d : guild U :=
  mkGuild n (g_seq d) (g_users d) (g_channels d) (g_server d) (g_roles d) (g_members d)
    (g_member_roles d) (g_bans d) (g_overrides d) (g_invites d) (g_onboarding d) (g_acceptances d).
Definition put_account u c d : guild U :=
  mkGuild (g_now d) (g_seq d) (<[u := c]> (g_users d)) (g_channels d) (g_server d) (g_roles d) (g_members d)
    (g_member_roles d) (g_bans d) (g_overrides d) (g_invites d) (g_onboarding d) (g_acceptances d).
Inductive world_step (d : guild U) : guild U → Prop :=
| world_time n : world_step d (set_now n d)
| world_account u c : world_step d (put_account u c d)
| world_account_deleted u : owner d ≠ Some u → world_step d (drop_account u d).

Inductive server_step : guild U → guild U → Prop :=
| by_member caller d d' : guild_step caller d d' → server_step d d'
| by_joiner caller d d' : join_step caller d d' → server_step d d'
| by_owner caller d d' : settings_step caller d d' → server_step d d'
| by_world d d' : world_step d d' → server_step d d'.

(** ** Invariants *)
Record invites_inv d : Prop := {
  inv_uses : map_Forall (λ id i, Invite.ID i = id ∧ 0 ≤ Invite.UseCount i ∧
    ∀ m, Invite.MaxUses i = Some m → Invite.UseCount i ≤ m) (g_invites d);
  inv_codes : ∀ i j a b, g_invites d !! i = Some a → g_invites d !! j = Some b →
    Invite.Code a = Invite.Code b → i = j;
}.

Lemma elem_everyone d i : i ∈ everyone_roles d ↔ ∃ r, g_roles d !! i = Some r ∧ Role.IsEveryone r = true.
Proof.
  unfold everyone_roles. rewrite list_elem_of_fmap. split.
  - intros ([j r] & -> & [He Hin]%list_elem_of_filter). apply elem_of_map_to_list in Hin. by exists r.
  - intros (r & Hr & He). exists (i, r). split; [done|]. apply list_elem_of_filter.
    by rewrite elem_of_map_to_list.
Qed.
Lemma elem_grants u l (p : U * U) : p ∈ grants u l ↔ p.1 = u ∧ p.2 ∈ l.
Proof.
  unfold grants. rewrite elem_of_list_to_set, list_elem_of_fmap. destruct p as [a b]; simpl.
  split; [intros (y & [= -> ->] & Hy); done|intros [-> ?]; by exists b].
Qed.

(** Rows for a user who has an account and a row of members. *)
Lemma inv_grant u l d :
  guild_inv d → is_Some (g_users d !! u) → (∀ i, i ∈ l → (u, i) ∈ g_member_roles d ∨ is_Some (g_roles d !! i)) →
  guild_inv (grant u l d).
Proof.
  intros [I1 I2 I3 I4 I5 I6 I7 I8 I9] Hu Hl. constructor; simpl; try done.
  - intros a i [[Ha Hi]%elem_grants|Hin]%elem_of_union; [simpl in *; subst a|by apply I5].
    split; [done|]. destruct (Hl i Hi) as [Hin|?]; [by apply (I5 u)|done].
  - intros a i r Ha Hr He. apply elem_of_union. right. by eapply I9.
Qed.

Context `{!MemberStatusLaws}.
Lemma inv_join caller d :
  guild_inv d → is_Some (g_users d !! caller) → g_bans d !! caller = None →
  guild_inv (grant caller (everyone_roles d) (set_members <[caller := pending_row d]> d)).
Proof.
  intros [I1 I2 I3 I4 I5 I6 I7 I8 I9] Hu Hb.
  assert (Hmem : ∀ a, is_Some (<[caller := pending_row d]> (g_members d) !! a) → a = caller ∨ is_member d a).
  { intros a [m [[<- _]|[_ Ha]]%lookup_insert_Some]; [by left|right; by exists m]. }
  constructor; simpl; try done.
  - intros o Ho. specialize (I4 o Ho). apply lookup_insert_is_Some'. by right.
  - intros a i [[Ha Hi]%elem_grants|Hin]%elem_of_union; [simpl in *; subst a|by apply I5].
    split; [done|]. apply elem_everyone in Hi as (r & Hr & _). eauto.
  - apply map_Forall_insert_2; [|done]. split; [done|]. simpl. rewrite status_pending. set_solver.
  - intros a [->|Ha]%Hmem; [done|by apply I8].
  - intros a i r Ha Hr He. apply elem_of_union. apply Hmem in Ha as [->|Ha].
    + left. apply elem_grants. split; [done|]. apply elem_everyone. eauto.
    + right. by eapply I9.
Qed.

Lemma join_step_inv caller d d' : join_step caller d d' → guild_inv d → guild_inv d'.
Proof.
  intros Hs Hd. destruct Hs as [Hu Hm Hb He|m Hm Hp Hr|slugs acc Hacc|id n i Hn Hid Hc Hu Hmax Hcode Hch
    |id i Hi Hv|id i Hi|k row n|k].
  - by apply inv_join.
  - assert (Hu : is_Some (g_users d !! caller)) by (by apply (inv_members _ Hd) in Hm as [? _]).
    apply inv_grant; [|done|intros i Hi; destruct (Hr i Hi) as [?|[_ ?]]; [by left|by right]].
    eapply inv_set_member; [done..|]. simpl. rewrite status_active. set_solver.
  - by destruct Hd. - by destruct Hd. - by destruct Hd. - by destruct Hd. - by destruct Hd.
  - by destruct Hd.
Qed.
Lemma settings_step_inv caller d d' : settings_step caller d d' → guild_inv d → guild_inv d'.
Proof. intros (_ & cfg & ->) Hd. by destruct Hd. Qed.

Lemma world_step_inv d d' : world_step d d' → guild_inv d → guild_inv d'.
Proof.
  intros Hs Hd. destruct Hs as [n|u c|u Ho].
  - by destruct Hd.
  - destruct Hd as [I1 I2 I3 I4 I5 I6 I7 I8 I9].
    assert (Hu : ∀ a, is_Some (g_users d !! a) → is_Some (<[u := c]> (g_users d) !! a))
      by (intros a Ha; apply lookup_insert_is_Some'; by right).
    constructor; simpl; try done.
    + intros a i [? ?]%I5. split; [by apply Hu|done].
    + intros a m [? ?]%I6. split; [by apply Hu|done].
    + intros a b Hb. apply Hu. by eapply I7.
  - apply (inv_delete_member _ u) in Hd; [|done]. destruct Hd as [I1 I2 I3 I4 I5 I6 I7 I8 I9].
    assert (Hu : ∀ a, a ≠ u → is_Some (g_users d !! a) → is_Some (delete u (g_users d) !! a))
      by (intros a Ha; by rewrite lookup_delete_ne).
    constructor; simpl in *; try done.
    + intros a i [Ha [? ?]%I5]%elem_of_filter. split; [by apply Hu|done].
    + intros a m Hm. destruct (I6 a m Hm). split; [|done]. apply Hu; [|done]. intros ->.
      by rewrite lookup_delete_eq in Hm.
    + intros a b Hb. rewrite lookup_fmap in Hb. apply fmap_Some in Hb as (b0 & Hb & ->).
      apply lookup_delete_Some in Hb as [Hne Hb]. apply Hu; [by apply not_eq_sym|by eapply I7].
    + intros a Ha. rewrite lookup_fmap. destruct (decide (a = u)) as [->|Hne]; [by rewrite lookup_delete_eq|].
      rewrite lookup_delete_ne by done. by rewrite (I8 a Ha).
    + intros a i r Ha Hr He. apply elem_of_filter. split; [|by eapply I9]. intros Hau. simpl in Hau. subst a.
      destruct Ha as [m Hm]. simpl in Hm. by rewrite lookup_delete_eq in Hm.
Qed.

Lemma find_invite_None code d i a : find_invite code d = None → g_invites d !! i = Some a → Invite.Code a ≠ code.
Proof.
  unfold find_invite. intros Hf Ha <-. apply fmap_None in Hf.
  assert (Hin : (i, a) ∈ map_to_list (filter (λ p, Invite.Code p.2 = Invite.Code a) (g_invites d))).
  { apply elem_of_map_to_list, map_lookup_filter_Some. by split. }
  destruct (map_to_list _); [by apply elem_of_nil in Hin|done].
Qed.
Lemma find_invite_Some code d i :
  find_invite code d = Some i → (∃ id, g_invites d !! id = Some i) ∧ Invite.Code i = code.
Proof.
  unfold find_invite. intros Hf. apply fmap_Some in Hf as ([id a] & Hh & ->).
  assert (Hin : (id, a) ∈ map_to_list (filter (λ p, Invite.Code p.2 = code) (g_invites d))).
  { destruct (map_to_list _) as [|x l]; [done|]. injection Hh as ->. by left. }
  apply elem_of_map_to_list, map_lookup_filter_Some in Hin as [Ha Hc]. simpl in *. split; [by exists id|done].
Qed.

Lemma join_step_invites caller d d' : join_step caller d d' → invites_inv d → invites_inv d'.
Proof.
  intros Hs [I1 I2]. destruct Hs as [| | |id n i Hn Hid Hc Hu Hmax Hcode Hch|id i Hi Hv|id i Hi| |];
    try (by split).
  - split; simpl.
    + apply map_Forall_insert_2; [|done]. split_and!; [done|by rewrite Hu|]. intros m Hm. rewrite Hu. eauto.
    + intros a b x y [[<- <-]|[Hna Ha]]%lookup_insert_Some [[<- <-]|[Hnb Hb]]%lookup_insert_Some Hxy; try done.
      * by destruct (find_invite_None _ _ _ _ Hcode Hb).
      * by destruct (find_invite_None _ _ _ _ Hcode Ha).
      * by eapply I2.
  - destruct (I1 id i Hi) as (<- & Hpos & Hmax). unfold valid_at in Hv. split; simpl.
    + apply map_Forall_insert_2; [|done]. simpl. split_and!; [done|lia|]. intros m Hm. rewrite Hm in Hv.
      apply andb_prop in Hv as [_ Hv]. lia.
    + intros a b x y [[<- <-]|[Hna Ha]]%lookup_insert_Some [[<- <-]|[Hnb Hb]]%lookup_insert_Some Hxy;
        simpl in Hxy; try done; by eapply I2.
  - split; simpl.
    + intros a x [_ Ha]%lookup_delete_Some. by apply I1.
    + intros a b x y [_ Ha]%lookup_delete_Some [_ Hb]%lookup_delete_Some. by apply I2.
Qed.
Lemma step_invites d d' : server_step d d' → invites_inv d → invites_inv d'.
Proof.
  intros Hs Hd. destruct Hs as [caller d d' Hs|caller d d' Hs|caller d d' (_ & cfg & ->)|d d' Hs].
  - destruct Hs; by destruct Hd.
  - by eapply join_step_invites.
  - by destruct Hd.
  - destruct Hs; destruct Hd as [I1 I2]; split; try done; simpl.
    + intros a x [Ha _]%map_lookup_filter_Some. by apply I1.
    + intros a b x y [Ha _]%map_lookup_filter_Some [Hb _]%map_lookup_filter_Some. by apply I2.
Qed.
Lemma server_step_inv d d' : server_step d d' → guild_inv d → guild_inv d'.
Proof. intros Hs. destruct Hs; eauto using step_inv, join_step_inv, settings_step_inv, world_step_inv. Qed.
End spec.
