(* ===== verification/JoinProofs.v ===== *)
(** * The invite, onboarding and permission endpoints keep the rules of JoinSpec.v

    Each handler changes the tables by steps of [join_step], under the conditions the code
    checks: joining needs an invite that is valid or an open server, an old enough account and
    no ban; activation needs the required documents. *)
From S2P Require Import Prelude GoStd Platform Permission PermCache PermInvalidate Validate Config.
From S2P Require Import Jwt Postgres Frames Domain GuildTables GuildRepo Http MemberApi UserDB JoinApi.
From S2P Require Import GuildSpec JoinSpec ApiLogic MemberProofs.
Open Scope Z_scope.

(** ** The repositories *)
Class RandFrame {W V : Type} `{CryptoRand W} (obs : W → V) : Prop := {
  rand_Int_keeps : ∀ n, keeps obs (rand_Int n) }.
(** The user repository reads the table the joins of this database read. *)
Class UsersTable (U W : Type) `{UUIDLib U} `{RandomUUID U} `{Postgres (guild U) W} `{UserRepo U W} : Prop := {
  users_GetByID_reads : ∀ id : U, reads (DB := guild U) (W := W) (users_GetByID id)
    (λ d u, User.cred_User <$> g_users d !! id = Some u) }.

Section repositories.
Context {U W : Type} `{UUIDLaws U} `{!RandomUUID U} `{!UUIDOrder U} `{!MemberStatuses}.
Context `{PostgresLaws (guild U) W} `{Clock W} `{CryptoRand W} `{!RandFrame (pg_view (DB := guild U) (W := W))}.
Implicit Types (d : guild U) (id u : U).
Abbreviation view := (pg_view (DB := guild U) (W := W)).
Ltac tx_error ::= first [apply unique_error_driver | apply on_err_driver
  | (intros ?; cbv zeta; by apply unique_error_driver, from_driver_wrap)].

Lemma insert_member_role_Ok u i d a d' :
  insert_member_role u i d = (Ok a, d') →
  ((u, i) ∉ g_member_roles d) ∧ is_Some (g_users d !! u) ∧ is_Some (g_roles d !! i) ∧
  d' = set_member_roles (union {[(u, i)]}) d.
Proof.
  unfold insert_member_role, gets, mbind, M_bind, fail, modify.
  destruct (bool_decide_reflect ((u, i) ∈ g_member_roles d)) as [|Hn]; [done|].
  destruct (bool_decide_reflect (g_users d !! u = None)) as [|Hu]; [done|]. simpl.
  destruct (bool_decide_reflect (g_roles d !! i = None)) as [|Hi]; [done|]. intros [= _ <-].
  split_and!; [done|by apply not_eq_None_Some..|done].
Qed.
Lemma grant_nil u d : grant u [] d = d.
Proof.
  destruct d. unfold grant, set_member_roles. simpl. f_equal. unfold grants. set_solver.
Qed.
Lemma grant_cons u i l d :
  grant u l (set_member_roles (union {[(u, i)]}) d) = grant u (i :: l) d.
Proof.
  unfold grant, set_member_roles. simpl. f_equal. unfold grants. simpl. set_solver.
Qed.
Lemma grant_held u i l d : (u, i) ∈ g_member_roles d → grant u (i :: l) d = grant u l d.
Proof.
  intros Hi. unfold grant, set_member_roles. simpl. f_equal. unfold grants. simpl. set_solver.
Qed.

Lemma insert_roles_Ok u l d a d' :
  for_each l (insert_member_role u) d = (Ok a, d') →
  (∀ i, i ∈ l → (u, i) ∉ g_member_roles d) ∧ d' = grant u l d.
Proof.
  revert d. induction l as [|i l IH]; intros d E.
  - injection E as _ <-. split; [by intros i ?%elem_of_nil|]. by rewrite grant_nil.
  - apply bind_Ok_inv in E as (x & d1 & E1 & E). apply insert_member_role_Ok in E1 as (Hn & _ & _ & ->).
    apply IH in E as [Hl ->]. rewrite grant_cons. split; [|done].
    intros j [->|Hj]%elem_of_cons; [done|]. specialize (Hl j Hj). simpl in Hl. set_solver.
Qed.
Lemma add_roles_Ok u l c d a d' :
  for_each l (λ i, wrap c (add_member_role u i)) d = (Ok a, d') →
  (∀ i, i ∈ l → (u, i) ∈ g_member_roles d ∨ (is_Some (g_users d !! u) ∧ is_Some (g_roles d !! i))) ∧
  d' = grant u l d.
Proof.
  revert d. induction l as [|i l IH]; intros d E.
  - injection E as _ <-. split; [by intros i ?%elem_of_nil|]. by rewrite grant_nil.
  - apply bind_Ok_inv in E as (x & d1 & E1 & E). apply wrap_Ok_inv in E1.
    unfold add_member_role, gets, mbind, M_bind in E1. simpl in E1.
    destruct (bool_decide_reflect ((u, i) ∈ g_member_roles d)) as [Hi|Hi].
    + injection E1 as _ <-. apply IH in E as [Hl ->]. rewrite grant_held by done. split; [|done].
      intros j [->|Hj]%elem_of_cons; [by left|by apply Hl].
    + apply insert_member_role_Ok in E1 as (_ & Hu & Hr & ->). apply IH in E as [Hl ->].
      rewrite grant_cons. split; [|done]. intros j [->|Hj]%elem_of_cons; [by right|].
      destruct (decide (j = i)) as [->|Hne]; [by right|].
      destruct (Hl j Hj) as [Hin|?]; [|by right]. left. simpl in Hin. set_solver.
Qed.

Lemma GetAny_reads u : reads (DB := guild U) (MemberRepo.GetByUserIDAnyStatus (W := W) u) (λ d _, is_member d u).
Proof.
  apply reads_map_err. eapply reads_weaken; [apply row_reads|]. intros d m. cbn beta.
  unfold find_member, is_member. by destruct (g_members d !! u).
Qed.
Lemma CreatePending_writes u :
  writes (MemberRepo.CreatePending (W := W) u) (λ d d',
    is_Some (g_users d !! u) ∧ g_members d !! u = None ∧
    (∀ i, i ∈ everyone_roles d → (u, i) ∉ g_member_roles d) ∧
    d' = grant u (everyone_roles d) (set_members <[u := pending_row d]> d)).
Proof.
  apply (writes_then _ _ _ (λ _ d _, is_member d u)); [|intros _; apply GetAny_reads].
  eapply writes_atomic; [intros w r w' E; eapply WithTx_atomic; [|exact E]; repeat tx_step|].
  intros d a d' E. apply bind_Ok_inv in E as (x & d1 & E1 & E).
  apply wrap_Ok_inv in E. unfold insert_everyone_role, gets, mbind, M_bind in E. simpl in E.
  unfold map_err, insert_member, gets, mbind, M_bind, fail, modify in E1. simpl in E1.
  destruct (bool_decide (MemberStatusPending ∉ statuses)); [done|].
  destruct (bool_decide_reflect (is_Some (g_members d !! u))) as [|Hm]; [done|].
  destruct (bool_decide_reflect (g_users d !! u = None)) as [|Hu]; [done|]. injection E1 as _ <-.
  apply insert_roles_Ok in E as [Hn ->].
  split_and!; [by apply not_eq_None_Some|by apply eq_None_not_Some|done|done].
Qed.
Lemma Activate_writes u roles :
  writes (MemberRepo.Activate (W := W) u roles) (λ d d', ∃ m,
    g_members d !! u = Some m ∧ m_status m = MemberStatusPending ∧
    (∀ i, i ∈ roles → (u, i) ∈ g_member_roles d ∨ (is_Some (g_users d !! u) ∧ is_Some (g_roles d !! i))) ∧
    d' = grant u roles (set_members <[u := set_onboarded MemberStatusActive (g_now d) m]> d)).
Proof.
  apply (writes_then _ _ _ (λ _ d _, is_member d u)); [|intros _; apply GetAny_reads].
  eapply writes_atomic; [intros w r w' E; eapply WithTx_atomic; [|exact E]; repeat tx_step|].
  { unfold MemberRepo.require_row. apply body_if; [apply body_fail|apply body_ret]. }
  intros d a d' E. apply bind_Ok_inv in E as (n & d1 & E1 & E). apply wrap_Ok_inv in E1.
  unfold update_member, gets, mbind, M_bind, modify, mret, M_ret, fail in E1. simpl in E1.
  apply bind_Ok_inv in E as (x & d2 & E2 & E).
  destruct (g_members d !! u) as [m|] eqn:Em; [|by injection E1 as <- <-].
  destruct (bool_decide_reflect (m_status m = MemberStatusPending)) as [Hp|]; [|by injection E1 as <- <-].
  destruct (bool_decide _); [done|]. injection E1 as <- <-. injection E2 as _ <-.
  apply add_roles_Ok in E as [Hl ->]. by exists m.
Qed.

(** Invites. *)
Definition fresh_invite creator (p : invite_params U) d (i : Invite.Invite U) : Prop :=
  g_invites d !! Invite.ID i = None ∧ Invite.CreatorID i = creator ∧ Invite.ChannelID i = ip_ChannelID p ∧
  Invite.UseCount i = 0 ∧ Invite.MaxUses i = ip_MaxUses p ∧ find_invite (Invite.Code i) d = None ∧
  is_Some (g_channels d !! Invite.ChannelID i).
Lemma insert_invite_Ok code creator p e d i d' :
  insert_invite code creator p e d = (Ok i, d') →
  Invite.Code i = code ∧ Invite.ExpiresAt i = e ∧ fresh_invite creator p d i ∧
  ∃ n, d' = set_invites <[Invite.ID i := i]> (set_seq n d).
Proof.
  unfold insert_invite. intros E. apply bind_Ok_inv in E as (u & d1 & E1 & E).
  apply encode_int4_Ok in E1 as [-> _]. apply bind_Ok_inv in E as (u' & d1 & E1 & E).
  apply encode_int4_Ok in E1 as [-> _].
  unfold next_id, gets, mbind, M_bind, modify, mret, M_ret, fail in E. simpl in E.
  set (id := gen_random_uuid (g_seq d)) in *. set (n := S (g_seq d)) in *.
  change (find_invite code (set_seq n d)) with (find_invite code d) in E.
  destruct (bool_decide_reflect (is_Some (g_invites d !! id))) as [|Hn]; [done|]. simpl in E.
  destruct (bool_decide_reflect (is_Some (find_invite code d))) as [|Hc]; [done|]. simpl in E.
  destruct (bool_decide_reflect (g_channels d !! ip_ChannelID p = None)) as [|Hch]; [done|]. simpl in E.
  destruct (bool_decide _); [done|]. injection E as <- <-. unfold fresh_invite. simpl.
  split_and!; try done; [by apply eq_None_not_Some..|by apply not_eq_None_Some|by exists n].
Qed.
Lemma generateCode_keeps : keeps view (InviteRepo.generateCode (W := W)).
Proof.
  assert (Hc : ∀ n, keeps view (InviteRepo.random_chars (W := W) n)).
  { induction n as [|n IH]; simpl; [keeps|]. apply keeps_bind; [|intros c; keeps].
    unfold InviteRepo.random_char. apply keeps_bind; [apply keeps_wrap, rand_Int_keeps|intros k; keeps]. }
  unfold InviteRepo.generateCode. keeps.
Qed.
Lemma create_attempts_writes n creator p e :
  writes (InviteRepo.create_attempts (W := W) n creator p e) (λ d d', ∃ i k,
    fresh_invite creator p d i ∧ d' = set_invites <[Invite.ID i := i]> (set_seq k d)).
Proof.
  induction n as [|n IH]; intros w r w' E; simpl in E; [injection E as <- <-; right; eauto|].
  apply bind_inv in E as [(code & w1 & E1 & E)|(err & E1 & ->)];
    pose proof (keeps_run view _ _ _ _ (keeps_wrap view _ _ generateCode_keeps) E1) as Hv; [|right; eauto].
  apply bind_inv in E as [(x & w2 & E2 & E)|(err & E2 & _)];
    apply try_inv in E2 as (x0 & Hx & E2); [|done]. injection Hx as ->.
  apply wrap_inv in E2 as (x1 & E2 & ->). apply pg_query_atomic in E2.
  rewrite <-Hv. destruct x1 as [i|err].
  - apply atomic_Ok, insert_invite_Ok in E2 as (_ & _ & Hf & k & Hd). injection E as <- <-. left. eauto.
  - destruct E2 as [(d & _ & Hv2)|(err' & [= <-] & Hdrv & Heff)].
    + destruct (IsForeignKeyViolation _); [injection E as <- <-; right; eauto|].
      destruct (IsUniqueViolation _); [|injection E as <- <-; right; eauto].
      destruct n; [injection E as <- <-; right; eauto|]. rewrite <-Hv2. by apply IH in E.
    + unfold IsForeignKeyViolation, IsUniqueViolation, PgError in E.
      rewrite !(from_driver_Is _ _ (from_driver_wrap _ _ Hdrv)) in E. injection E as <- <-.
      destruct Heff as [?|(i & d & Hd & Hv2)]; [right; eauto|left].
      apply insert_invite_Ok in Hd as (_ & _ & Hf & k & ->). rewrite Hv2. eauto.
Qed.
Lemma CreateInvite_writes creator p :
  writes (InviteRepo.Create (W := W) creator p) (λ d d', ∃ i k,
    fresh_invite creator p d i ∧ d' = set_invites <[Invite.ID i := i]> (set_seq k d)).
Proof.
  intros w r w' E. apply bind_inv in E as [(now & w1 & [= <- <-] & E)|(e & [=] & _)].
  by apply create_attempts_writes in E.
Qed.

Lemma GetByCode_reads code :
  reads (DB := guild U) (InviteRepo.GetByCode (U := U) (W := W) code) (λ d i, find_invite code d = Some i).
Proof. apply reads_map_err, row_reads. Qed.
Lemma diagnose_keeps code : keeps view (InviteRepo.diagnoseUseFailure (U := U) (W := W) code).
Proof.
  unfold InviteRepo.diagnoseUseFailure. apply keeps_bind.
  - apply keeps_try. eapply reads_keeps, (row_reads (find_invite code)).
  - intros []; [|keeps]. apply keeps_bind; [keeps|]. intros now. keeps.
Qed.
Lemma use_invite_Ok code d i d' :
  use_invite code d = (Ok i, d') → ∃ i0, find_invite code d = Some i0 ∧ valid_at (g_now d) i0 = true ∧
    i = used_once i0 ∧ d' = set_invites <[Invite.ID i0 := used_once i0]> d.
Proof.
  unfold use_invite, gets, mbind, M_bind, row_or_none, modify, mret, M_ret, fail. simpl.
  destruct (find_invite code d) as [i0|]; [|done]. destruct (valid_at (g_now d) i0) eqn:Hv; [|done].
  simpl. destruct (in_int4 _); [|done]. intros [= <- <-]. eauto.
Qed.
Lemma Use_writes code :
  writes (InviteRepo.Use_ (U := U) (W := W) code) (λ d d', ∃ i, find_invite code d = Some i ∧
    valid_at (g_now d) i = true ∧ d' = set_invites <[Invite.ID i := used_once i]> d).
Proof.
  intros w r w' E. unfold InviteRepo.Use_ in E.
  apply bind_inv in E as [(x & w1 & E1 & E)|(err & E1 & _)]; apply try_inv in E1 as (x0 & Hx & E1); [|done].
  injection Hx as ->. apply wrap_inv in E1 as (x1 & E1 & ->). apply pg_query_atomic in E1.
  assert (Hs : ∀ i w2, use_invite code (view w) = (Ok i, view w2) → ∃ i, find_invite code (view w) = Some i ∧
    valid_at (g_now (view w)) i = true ∧ view w2 = set_invites <[Invite.ID i := used_once i]> (view w)).
  { intros i w2 (i0 & ? & ? & _ & ?)%use_invite_Ok. eauto. }
  destruct x1 as [i|err].
  - apply atomic_Ok in E1. injection E as <- <-. left. by eapply Hs.
  - assert (Hk : view w' = view w1 ∧ ∃ e, r = Err e).
    { destruct (errors_Is _ ErrNoRows); [|by injection E as <- <-; eauto].
      apply bind_inv in E as [(e & w2 & E2 & E)|(e & E2 & ->)];
        pose proof (keeps_run view _ _ _ _ (diagnose_keeps code) E2) as Hd; [injection E as <- <-|]; eauto. }
    destruct Hk as [Hk He]. rewrite Hk.
    destruct E1 as [(d & _ & Hv)|(e' & _ & _ & [Hv|(i & d & Hd & Hv)])]; [by right..|].
    left. eapply Hs. by rewrite Hv.
Qed.
Lemma DeleteInvite_writes code :
  writes (InviteRepo.Delete (U := U) (W := W) code) (λ d d', ∃ i, find_invite code d = Some i ∧
    d' = set_invites (delete (Invite.ID i)) d).
Proof.
  intros w r w' E. apply bind_inv in E as [(n & w1 & E1 & E)|(e & E1 & ->)]; apply wrap_inv in E1 as (r1 & E1 & Hr);
    apply pg_query_atomic in E1.
  - destruct r1; [|done]. injection Hr as <-. apply atomic_Ok in E1.
    unfold delete_invite, gets, mbind, M_bind, modify, mret, M_ret in E1. simpl in E1.
    destruct (find_invite code (view w)) as [i|] eqn:Ei; injection E1 as <- Hv; simpl in E; injection E as <- <-;
      [left; eauto|right; eauto].
  - destruct E1 as [(d & _ & Hv)|(e' & _ & _ & [Hv|(k & d & Hd & Hv)])].
    + right. destruct r1; [done|]. split; [exact Hv|eauto].
    + right. eauto.
    + unfold delete_invite, gets, mbind, M_bind, modify, mret, M_ret in Hd. simpl in Hd.
      destruct (find_invite code (view w)) as [i|] eqn:Ei; injection Hd as <- <-; [left|right]; eauto.
Qed.

Lemma IsBanned_reads u :
  reads (DB := guild U) (MemberRepo.IsBanned (W := W) u) (λ d b, b = bool_decide (is_Some (g_bans d !! u))).
Proof. by apply reads_wrap, reads_gets. Qed.
Lemma Config_reads :
  reads (DB := guild U) (OnboardingRepo.Get (U := U) (W := W)) (λ d cfg, g_onboarding d = Some cfg).
Proof. apply reads_map_err, row_reads. Qed.
Lemma Server_reads :
  reads (DB := guild U) (ServerRepo.Get (U := U) (W := W)) (λ d srv, g_server d = Some srv).
Proof. apply reads_map_err, row_reads. Qed.

Definition accepted u (slugs : list string) d d' : Prop := ∃ acc,
  (∀ k, acc !! k = g_acceptances d !! k ∨
     (g_acceptances d !! k = None ∧ k.1 = u ∧ k.2 ∈ slugs ∧ acc !! k = Some (g_now d))) ∧
  (∀ slug, slug ∈ slugs → is_Some (acc !! (u, slug))) ∧
  d' = set_acceptances (λ _, acc) d.
Lemma set_acceptances_id d : set_acceptances (λ _, g_acceptances d) d = d.
Proof. by destruct d. Qed.
Lemma insert_acceptances_Ok u slugs d a d' :
  for_each slugs (insert_acceptance u) d = (Ok a, d') → accepted u slugs d d'.
Proof.
  revert d. induction slugs as [|s slugs IH]; intros d E.
  - injection E as _ <-. exists (g_acceptances d). split_and!; [by left|by intros s ?%elem_of_nil|].
    by rewrite set_acceptances_id.
  - apply bind_Ok_inv in E as (x & d1 & E1 & E). apply IH in E as (acc & Hacc & Hin & ->).
    unfold insert_acceptance, gets, mbind, M_bind, modify, mret, M_ret, fail in E1. simpl in E1.
    destruct (bool_decide_reflect (is_Some (g_acceptances d !! (u, s)))) as [Hs|Hs].
    + injection E1 as _ <-. exists acc. split_and!; [| |done].
      * intros k. destruct (Hacc k) as [?|(? & ? & ? & ?)]; [by left|right]. split_and!; try done. by right.
      * intros t [->|Ht]%elem_of_cons; [|by apply Hin]. destruct (Hacc (u, s)) as [->|(? & _ & _ & ->)]; eauto.
    + destruct (bool_decide _); [done|]. injection E1 as _ <-. simpl in *. exists acc. split_and!; [| |done].
      * intros k. destruct (decide (k = (u, s))) as [->|Hne].
        { right. split_and!; [by apply eq_None_not_Some|done|by left|].
          destruct (Hacc (u, s)) as [->|(Hn & _)]; rewrite lookup_insert_eq in *; done. }
        destruct (Hacc k) as [->|(Hn & ? & ? & ?)]; rewrite lookup_insert_ne in * by done;
          [by left|right]. split_and!; try done. by right.
      * intros t [->|Ht]%elem_of_cons; [|by apply Hin].
        destruct (Hacc (u, s)) as [->|(Hn & _ & _ & ->)]; [|eauto]. rewrite lookup_insert_eq. eauto.
Qed.
Lemma RecordAcceptances_writes u slugs :
  writes (OnboardingRepo.RecordAcceptances (W := W) u slugs) (accepted u slugs).
Proof.
  destruct slugs as [|s slugs].
  - intros w r w' [= <- <-]. left. exists (g_acceptances (view w)).
    split_and!; [by left|by intros s ?%elem_of_nil|]. by rewrite set_acceptances_id.
  - apply (writes_query (Wrap _)); [intros e; apply from_driver_wrap|]. intros d a d'. apply insert_acceptances_Ok.
Qed.
Lemma UpdateConfig_writes (p : onboarding_params U) :
  writes (OnboardingRepo.Update (W := W) p) (λ d d', d' = d ∨ ∃ c, d' = set_onboarding (Some c) d ∧
    (Onboarding.AutoRoles c = auto_roles d ∨ Onboarding.AutoRoles c = op_AutoRoles p)).
Proof.
  unfold OnboardingRepo.Update. destruct (OnboardingRepo.no_update p).
  { intros w r w' E. apply Config_reads in E as [-> _]. left. by left. }
  apply writes_query.
  { intros e He. unfold OnboardingRepo.config_not_found. by apply on_err_driver, from_driver_wrap. }
  intros d a d' E. right. unfold update_onboarding in E. apply bind_Ok_inv in E as (u & d1 & E1 & E).
  apply encode_int4_Ok in E1 as [-> _].
  unfold gets, mbind, M_bind, row_or_none, modify, mret, M_ret, fail in E. simpl in E.
  unfold auto_roles. destruct (g_onboarding d) as [c|]; [|done]. simpl in *.
  assert (Hauto : ∀ c', Onboarding.AutoRoles c' = (if op_SetAutoRoles p then op_AutoRoles p else Onboarding.AutoRoles c) →
    Onboarding.AutoRoles c' = Onboarding.AutoRoles c ∨ Onboarding.AutoRoles c' = op_AutoRoles p)
    by (intros c' ->; destruct (op_SetAutoRoles p); auto).
  destruct (match _ with Some _ => _ | None => false end); [done|]. injection E as _ <-.
  eexists. split; [done|]. by apply Hauto.
Qed.

Lemma SetOverride_writes ty t pt pr allow deny :
  writes (PGStore.Set_ (U := U) (W := W) ty t pt pr allow deny) (λ d d', ∃ row n,
    o_allow row = allow ∧ o_deny row = deny ∧ d' = set_overrides <[(ty, t, pt, pr) := row]> (set_seq n d)).
Proof.
  apply (writes_query (Wrap _)); [intros e; apply from_driver_wrap|]. intros d a d'.
  unfold upsert_override, next_id, gets, mbind, M_bind, modify, mret, M_ret, fail. simpl.
  destruct (_ || _); [done|]. intros [= _ <-]. eexists _, _. split_and!; [..|reflexivity];
    by destruct (g_overrides d !! _).
Qed.
Lemma DeleteOverride_writes ty t pt pr :
  writes (PGStore.Delete (U := U) (W := W) ty t pt pr) (λ d d', is_Some (g_overrides d !! (ty, t, pt, pr)) ∧
    d' = set_overrides (delete (ty, t, pt, pr)) d).
Proof.
  eapply (writes_row _ _ _ (λ d, is_Some (g_overrides d !! (ty, t, pt, pr)))
            (set_overrides (delete (ty, t, pt, pr)))); [|done].
  intros d r d'. unfold delete_override, gets, mbind, M_bind. destruct (g_overrides d !! _);
    intros [= <- <-]; [left|right; left]; eauto.
Qed.
End repositories.

(** ** The endpoints *)
Section endpoints.
Context {U W : Type} `{UUIDLaws U} `{!RandomUUID U} `{!UUIDOrder U} `{!MemberStatuses}.
Context `{PostgresLaws (guild U) W} `{Clock W} `{CryptoRand W} `{!UserRepo U W} `{!UsersTable U W}.
Context `{!RandFrame (pg_view (DB := guild U) (W := W))} `{PermissionLib} `{Valkey W} `{!Store U W}.
Context `{!Codec (InvalidationMessage U)} `{!Codec (gmap string string)} `{!Codec (gmap string json_scalar)}.
Context `{GatewayQueue W} `{AuditLog U W} `{EventNames} `{ApiErrors} `{TimeFormat} `{!OnboardingSteps}.
Context `{!ValkeyFrame (pg_view (DB := guild U) (W := W))} `{!SideFrame (pg_view (DB := guild U) (W := W))}.
Implicit Types (h : handler) (c : request U) (d : guild U) (u : U) (docs : Onboarding.DocumentStore).
Abbreviation view := (pg_view (DB := guild U) (W := W)).

(** What the join and activation statements do. *)
Definition joined u d d' : Prop :=
  is_Some (g_users d !! u) ∧ g_members d !! u = None ∧
  (∀ i, i ∈ everyone_roles d → (u, i) ∉ g_member_roles d) ∧
  d' = grant u (everyone_roles d) (set_members <[u := pending_row d]> d).
Definition activated u roles d d' : Prop := ∃ m,
  g_members d !! u = Some m ∧ m_status m = MemberStatusPending ∧
  (∀ i, i ∈ roles → (u, i) ∈ g_member_roles d ∨ (is_Some (g_users d !! u) ∧ is_Some (g_roles d !! i))) ∧
  d' = grant u roles (set_members <[u := set_onboarded MemberStatusActive (g_now d) m]> d).
Definition verified u d : Prop := ∃ x, User.cred_User <$> g_users d !! u = Some x ∧ User.EmailVerified x = true.

Lemma mapInviteError_refuses {A} e : refuses (InviteHandler.mapInviteError (A := A) (W := W) e).
Proof. unfold InviteHandler.mapInviteError. auto 20 with refuses. Qed.
Lemma mapOnboardingError_refuses {A} e : refuses (OnboardingHandler.mapOnboardingError (A := A) (W := W) e).
Proof. unfold OnboardingHandler.mapOnboardingError. auto 20 with refuses. Qed.
Lemma mapOverrideError_refuses {A} e : refuses (PermissionHandler.mapOverrideError (A := A) (W := W) e).
Proof. unfold PermissionHandler.mapOverrideError. auto 20 with refuses. Qed.
Lemma bad_request_refuses {A} e : refuses (PermissionHandler.bad_request (A := A) (W := W) e).
Proof. unfold PermissionHandler.bad_request. auto 20 with refuses. Qed.
Hint Resolve mapInviteError_refuses mapOnboardingError_refuses mapOverrideError_refuses bad_request_refuses : refuses.
Hint Resolve record_keeps enqueue_keeps : keeps.
Lemma Success_keeps {A} (a : A) : keeps view (Success a).
Proof. by intros w. Qed.
Hint Resolve Success_keeps : keeps.

Lemma join_as_moves u f : (∀ e, refuses (f e)) → moves (InviteHandler.join_as u f) (λ d d', d' = d ∨ joined u d d').
Proof.
  intros Hf w r w' E. apply catch_inv in E as [(m & w1 & E1 & E)|(e & w1 & E1 & E)];
    apply CreatePending_writes in E1.
  - injection E as <- <-. destruct E1 as [HS|[_ [e [=]]]]. by right.
  - assert (Hv : view w' = view w1).
    { destruct (negb _); [by apply Hf in E as [? _]|].
      apply catch_inv in E as [(m & w2 & E2 & E)|(e' & w2 & E2 & E)]; injection E as <- <-;
        by apply GetAny_reads in E2 as [? _]. }
    rewrite Hv. destruct E1 as [HS|[Hv1 _]]; [by right|by left].
Qed.
Lemma with_age_handles {A} cfg t (k : M W (response A)) Q :
  handles k Q → handles (InviteHandler.with_age (U := U) cfg t k) Q.
Proof.
  intros Hk. eapply handles_bind; [|intros age].
  - apply (reads_bind _ _ (λ _ _, True) (λ _ _, True)); [by apply reads_world|]. intros now. by apply reads_ret.
  - destruct (age <? _); [by apply handles_refuse; auto with refuses|].
    eapply handles_weaken; [exact Hk|by auto].
Qed.

(** The joins. *)
Definition invited c d d' : Prop := ∃ u i,
  Locals_userID c = Some u ∧ g_bans d !! u = None ∧ verified u d ∧
  find_invite (Params c "code") d = Some i ∧ valid_at (g_now d) i = true ∧
  let d1 := set_invites <[Invite.ID i := used_once i]> d in d' = d1 ∨ joined u d1 d'.
Lemma JoinViaInvite_moves c : handles (InviteHandler.JoinViaInvite c) (invited c).
Proof.
  unfold InviteHandler.JoinViaInvite. eapply handles_bind; [apply UserID_reads|intros u].
  eapply handles_read; [apply IsBanned_reads|by auto with refuses|intros banned].
  destruct banned; [by apply handles_refuse; auto with refuses|].
  eapply handles_read; [apply GetByCode_reads|by auto with refuses|intros i0].
  eapply handles_bind; [by apply (reads_world _ (λ _ _, True))|intros now].
  eapply handles_read; [by apply (reads_of_res _ (λ _ _, True))|by auto with refuses|intros ?].
  eapply handles_read; [apply users_GetByID_reads|by auto with refuses|intros x].
  destruct (User.EmailVerified x) eqn:Ev; simpl; [|by apply handles_refuse; auto with refuses].
  eapply handles_read; [apply Config_reads|by auto with refuses|intros cfg].
  set (Q := λ d d' : guild U, ∃ i, find_invite (Params c "code") d = Some i ∧ valid_at (g_now d) i = true ∧
    let d1 := set_invites <[Invite.ID i := used_once i]> d in d' = d1 ∨ joined u d1 d').
  assert (HQ : handles (catch (InviteRepo.Use_ (U := U) (Params c "code")) InviteHandler.mapInviteError
                          (λ _, InviteHandler.join_as u InviteHandler.mapInviteError)) Q).
  { eapply handles_then; [apply Use_writes|by auto with refuses| | |].
    - intros _. apply join_as_moves. auto with refuses.
    - by left.
    - intros d d1 d2 (i & Hi & Hv & ->) Hj. exists i. split_and!; [done..|]. by destruct Hj; [left|right]. }
  eapply (handles_weaken _ _ Q).
  { destruct (0 <? _); [by apply with_age_handles|done]. }
  intros d d' (i & Hi & Hv & Hd') _ Hx _ _ _ Hb Hu. exists u, i. split_and!; [done| | |done..].
  - by apply eq_sym, bool_decide_eq_false, eq_None_not_Some in Hb.
  - by exists x.
Qed.
Definition open_joined c d d' : Prop := ∃ u cfg,
  Locals_userID c = Some u ∧ g_bans d !! u = None ∧ g_onboarding d = Some cfg ∧
  Onboarding.OpenJoin cfg = true ∧ (d' = d ∨ joined u d d').
Lemma JoinServer_moves c : handles (OnboardingHandler.JoinServer c) (open_joined c).
Proof.
  unfold OnboardingHandler.JoinServer. eapply handles_bind; [apply UserID_reads|intros u].
  eapply handles_read; [apply Config_reads|by auto with refuses|intros cfg].
  destruct (Onboarding.OpenJoin cfg) eqn:Eo; simpl; [|by apply handles_refuse; auto with refuses].
  eapply handles_read; [apply IsBanned_reads|by auto with refuses|intros banned].
  destruct banned; [by apply handles_refuse; auto with refuses|].
  set (Q := λ d d' : guild U, d' = d ∨ joined u d d').
  eapply (handles_weaken _ _ Q).
  { assert (HQ : handles (InviteHandler.join_as u OnboardingHandler.mapOnboardingError) Q)
      by (apply moves_handles, join_as_moves; auto with refuses).
    destruct (0 <? _); [|done].
    eapply handles_read; [apply users_GetByID_reads|by auto with refuses|intros x].
    apply with_age_handles. eapply handles_weaken; [exact HQ|by auto]. }
  intros d d' HQ Hb Hcfg Hu. exists u, cfg. split_and!; [done| |done..].
  by apply eq_sym, bool_decide_eq_false, eq_None_not_Some in Hb.
Qed.

(** Onboarding: what a request to activate must show. *)
Definition onboarded docs c b d d' : Prop := ∃ u body cfg d1,
  Locals_userID c = Some u ∧ b = Ok body ∧ g_onboarding d = Some cfg ∧
  (Onboarding.RequireEmailVerification cfg = true → verified u d) ∧
  Onboarding.RequirePhone cfg = false ∧ Onboarding.RequireCaptcha cfg = false ∧
  Onboarding.requiredSlugs docs ⊆ list_to_set (ao_AcceptedDocumentSlugs body) ∧
  accepted u (ao_AcceptedDocumentSlugs body) d d1 ∧
  (d' = d1 ∨ activated u (Onboarding.AutoRoles cfg) d1 d').

(** The test of the email address both onboarding handlers begin with. *)
Lemma verified_handles {A} (cfg : Onboarding.Config U) u (k n : M W (response A)) Q :
  handles k (λ d d', (Onboarding.RequireEmailVerification cfg = true → verified u d) → Q d d') →
  handles n (λ d d', Q d d') →
  handles (if Onboarding.RequireEmailVerification cfg then
      catch (users_GetByID u) (λ _, internal_error) (λ x, if negb (User.EmailVerified x) then n else k)
    else k) Q.
Proof.
  intros Hk Hn. destruct (Onboarding.RequireEmailVerification cfg) eqn:Er.
  - eapply handles_read; [apply users_GetByID_reads|by auto with refuses|intros x].
    destruct (User.EmailVerified x) eqn:Ev; simpl.
    + eapply handles_weaken; [exact Hk|]. intros d d' HQ Hx. apply HQ. intros _. by exists x.
    + eapply handles_weaken; [exact Hn|by auto].
  - eapply handles_weaken; [exact Hk|]. intros d d' HQ. by apply HQ.
Qed.
Lemma Activate_moves h u roles (k : Member.WithProfile U → M W (response Models.Member)) :
  (∀ m, keeps view (k m)) →
  moves (catch (MemberRepo.Activate u roles) OnboardingHandler.mapOnboardingError k)
    (λ d d', d' = d ∨ activated u roles d d').
Proof.
  intros Hk w r w' E. apply catch_inv in E as [(m & w1 & E1 & E)|(e & w1 & E1 & E)];
    apply Activate_writes in E1.
  - rewrite (keeps_run view _ _ _ _ (Hk m) E). destruct E1 as [HS|[_ [e [=]]]]. by right.
  - apply mapOnboardingError_refuses in E as [Hv _]. rewrite Hv. destruct E1 as [HS|[Hv1 _]]; [by right|by left].
Qed.
Lemma AcceptOnboarding_moves h docs c b : handles (OnboardingHandler.AcceptOnboarding h docs c b) (onboarded docs c b).
Proof.
  unfold OnboardingHandler.AcceptOnboarding. eapply handles_bind; [apply UserID_reads|intros u].
  apply handles_Bind. intros body ->.
  eapply handles_read; [apply Config_reads|by auto with refuses|intros cfg]. cbv zeta.
  apply verified_handles; [|by apply handles_refuse; auto with refuses].
  destruct (Onboarding.RequirePhone cfg) eqn:Ep; [by apply handles_refuse; auto with refuses|].
  destruct (Onboarding.RequireCaptcha cfg) eqn:Ec; [by apply handles_refuse; auto with refuses|].
  destruct (bool_decide_reflect (Onboarding.requiredSlugs docs ⊈ list_to_set (ao_AcceptedDocumentSlugs body)))
    as [|Hs]; [by apply handles_refuse; auto with refuses|].
  eapply (handles_then _ _ _ _ (λ d d', d' = d ∨ activated u (Onboarding.AutoRoles cfg) d d'));
    [apply RecordAcceptances_writes|by auto with refuses| |by left|].
  - intros _. apply Activate_moves; [done|]. intros m. keeps.
  - intros d d1 d2 Hacc Hact Hver Hcfg Hu. exists u, body, cfg, d1. split_and!; try done. by apply dec_stable in Hs.
Qed.
Definition status_checked docs c d d' : Prop := ∃ u cfg,
  Locals_userID c = Some u ∧ g_onboarding d = Some cfg ∧
  (d' = d ∨ (Onboarding.requiredSlugs docs = ∅ ∧
             (Onboarding.RequireEmailVerification cfg = true → verified u d) ∧
             activated u (Onboarding.AutoRoles cfg) d d')).
Lemma GetOnboardingStatus_moves h docs c :
  handles (OnboardingHandler.GetOnboardingStatus h docs c) (status_checked docs c).
Proof.
  unfold OnboardingHandler.GetOnboardingStatus. eapply handles_bind; [apply UserID_reads|intros u].
  eapply handles_read; [apply Config_reads|by auto with refuses|intros cfg]. cbv zeta.
  assert (Hstay : ∀ m : M W (response string), keeps view m →
    handles m (λ d d', g_onboarding d = Some cfg → Locals_userID c = Some u → status_checked docs c d d')).
  { intros m Hm. apply moves_handles, moves_keeps; [done|]. intros d Hcfg Hu. exists u, cfg. by split_and!; [..|left]. }
  apply verified_handles; [|by apply Hstay; keeps].
  intros w r w' E. apply catch_inv in E as [(st & w1 & E1 & E)|(e & w1 & E1 & E)].
  2:{ pose proof (GetStatus_reads _ _ _ _ E1) as [Hv _]. left. intros _ Hcfg Hu. exists u, cfg.
      split_and!; [done..|left]. rewrite <-Hv. destruct (negb _); injection E as <- <-; done. }
  pose proof (GetStatus_reads _ _ _ _ E1) as [Hv _]. rewrite <-Hv.
  destruct (negb _); [left; intros; injection E as <- <-; exists u, cfg; by split_and!; [..|left]|].
  destruct (bool_decide_reflect (Onboarding.requiredSlugs docs = ∅)) as [Hd|];
    [|left; intros; injection E as <- <-; exists u, cfg; by split_and!; [..|left]].
  left. intros Hver Hcfg Hu. exists u, cfg. split_and!; [done..|].
  apply catch_inv in E as [(m & w2 & E2 & E)|(e & w2 & E2 & E)]; apply Activate_writes in E2.
  - assert (Hk : view w' = view w2) by (revert E; apply keeps_run; keeps). rewrite Hk.
    destruct E2 as [HS|[_ [e [=]]]]. by right.
  - assert (Hk : view w' = view w2).
    { destruct (errors_Is e _); [by injection E as <- <-|by apply mapOnboardingError_refuses in E as [? _]]. }
    rewrite Hk. destruct E2 as [HS|[Hv2 _]]; [by right|by left].
Qed.
(** The automatic roles a request to change the settings names, and what it makes of them. *)
Definition auto_roles_named (b : res UpdateOnboardingConfigRequest) : list string :=
  match b with Ok body => default [] (uo_AutoRoles body) | Err _ => [] end.
Definition auto_roles_from b d d' : Prop :=
  auto_roles d' = auto_roles d ∨
  Forall2 (λ s id, uuid_Parse (U := U) s = Ok id) (auto_roles_named b) (auto_roles d').
Lemma parse_ids_named l (ids : list U) :
  OnboardingHandler.parse_ids l = Some ids → Forall2 (λ s id, uuid_Parse (U := U) s = Ok id) l ids.
Proof.
  revert ids. induction l as [|s l IH]; intros ids E; simpl in E; [by injection E as <-|].
  destruct (uuid_Parse s) as [id|] eqn:Es; [|done]. apply bind_Some in E as (ids' & El & [= <-]). auto.
Qed.
Lemma UpdateOnboarding_moves h docs c b :
  handles (OnboardingHandler.UpdateOnboarding h docs c b)
    (λ d d', ∃ u, Locals_userID c = Some u ∧ owner d = Some u ∧
       (d' = d ∨ ((∃ cfg, d' = set_onboarding (Some cfg) d) ∧ auto_roles_from b d d'))).
Proof.
  unfold OnboardingHandler.UpdateOnboarding. eapply handles_bind; [apply UserID_reads|intros u].
  eapply handles_read; [apply Server_reads|by auto with refuses|intros srv].
  destruct (bool_decide_reflect (Server.OwnerID srv = u)) as [Ho|]; simpl; [|by apply handles_refuse; auto with refuses].
  apply handles_Bind. intros body ->.
  destruct (OnboardingHandler.parse_welcome _) as [[welcome null]|]; [|by apply handles_refuse; auto with refuses].
  destruct (OnboardingHandler.parse_ids _) as [roles|] eqn:Er; [|by apply handles_refuse; auto with refuses].
  apply parse_ids_named in Er.
  eapply handles_write; [apply UpdateConfig_writes|by auto with refuses|intros ?; keeps|].
  intros d d' HS Hsrv Hu. exists u. split_and!; [done|unfold owner; rewrite Hsrv; simpl; by rewrite Ho|].
  destruct HS as [->|(cfg & -> & Ha)]; [by left|right]. split; [by eexists|].
  change (auto_roles (set_onboarding (Some cfg) d)) with (Onboarding.AutoRoles cfg).
  unfold auto_roles_from. change (auto_roles (set_onboarding (Some cfg) d)) with (Onboarding.AutoRoles cfg).
  destruct Ha as [->| ->]; [by left|by right].
Qed.
Lemma CreateInvite_moves h c b :
  handles (InviteHandler.CreateInvite h c b) (λ d d', ∃ u, Locals_userID c = Some u ∧ join_step u d d').
Proof.
  unfold InviteHandler.CreateInvite. eapply handles_bind; [apply UserID_reads|intros u].
  apply handles_Bind. intros body ->. destruct (uuid_Parse _) as [ch|]; [|by apply handles_refuse; auto with refuses].
  eapply handles_read; [apply (reads_of_res _ (λ _ _, ∀ n, ci_MaxUses body = Some n → 0 ≤ n))
    |by auto with refuses|intros ?].
  { intros _ x E n Hn. unfold Validate.Invite.ValidateMaxUses, opt_check in E. rewrite Hn in E.
    destruct (Z.ltb_spec n 0); [done|lia]. }
  eapply handles_read; [by apply (reads_of_res _ (λ _ _, True))|by auto with refuses|intros ?].
  eapply handles_write; [apply CreateInvite_writes|by auto with refuses|intros ?; keeps|].
  intros d d' (i & k & (Hn & Hc & Hch & Hu0 & Hm & Hcode & Hchan) & ->) _ Hmax Hu. exists u. split; [done|].
  apply step_create_invite; try done. intros m Hm'. apply Hmax. simpl in Hm. congruence.
Qed.
Lemma DeleteInvite_moves h c :
  handles (InviteHandler.DeleteInvite (U := U) h c) (λ d d', ∃ u, Locals_userID c = Some u ∧ join_step u d d').
Proof.
  unfold InviteHandler.DeleteInvite. eapply handles_bind; [apply UserID_reads|intros u]. cbv zeta.
  eapply handles_write; [apply DeleteInvite_writes|by auto with refuses|intros ?; keeps|].
  intros d d' (i & Hi & ->) Hu. exists u. split; [done|]. apply find_invite_Some in Hi as [[id Hi] _].
  by eapply step_delete_invite.
Qed.
Lemma invalidateChannel_keeps h (ch : U) : keeps view (PermissionHandler.invalidateChannel h ch).
Proof. apply when_keeps, keeps_best_effort. unfold InvalidateChannel, PermInvalidate.publish. keeps. Qed.
Hint Resolve invalidateChannel_keeps : keeps.
Lemma SetOverride_moves h c b :
  handles (PermissionHandler.SetOverride h c b) (λ d d', ∃ u, Locals_userID c = Some u ∧ join_step u d d').
Proof.
  unfold PermissionHandler.SetOverride. eapply handles_bind; [apply UserID_reads|intros u].
  apply handles_param. intros ch _. apply handles_param. intros t _. apply handles_Bind. intros body ->.
  do 2 (eapply handles_read; [by apply (reads_of_res _ (λ _ _, True))|by auto with refuses|intros ?]).
  eapply handles_write; [apply SetOverride_writes|by auto with refuses|intros ?; keeps|].
  intros d d' (row & n & _ & _ & ->) _ _ Hu. exists u. split; [done|]. apply step_set_override.
Qed.
Lemma DeleteOverride_moves h c :
  handles (PermissionHandler.DeleteOverride (U := U) h c) (λ d d', ∃ u, Locals_userID c = Some u ∧ join_step u d d').
Proof.
  unfold PermissionHandler.DeleteOverride. eapply handles_bind; [apply UserID_reads|intros u].
  apply handles_param. intros ch _. apply handles_param. intros t _.
  eapply handles_read; [by apply (reads_of_res _ (λ _ _, True))|by auto with refuses|intros ?].
  eapply handles_write; [apply DeleteOverride_writes|by auto with refuses|intros ?; keeps|].
  intros d d' (_ & ->) _ Hu. exists u. split; [done|]. apply step_delete_override.
Qed.

(** Each is a sequence of steps of its caller. *)
Lemma joined_step u d d' : g_bans d !! u = None → joined u d d' → join_step u d d'.
Proof. intros Hb (Hu & Hm & He & ->). by apply step_join. Qed.
Lemma activated_step u d d' : activated u (auto_roles d) d d' → join_step u d d'.
Proof. intros (m & Hm & Hs & Hl & ->). by apply step_activate. Qed.
Lemma accepted_step u slugs d d' : accepted u slugs d d' → join_step u d d'.
Proof. intros (acc & Hacc & _ & ->). by eapply step_accept. Qed.
Abbreviation joins u := (rtc (join_step u)).
Lemma invited_steps c d d' : invited c d d' → ∃ u, Locals_userID c = Some u ∧ joins u d d'.
Proof.
  intros (u & i & Hu & Hb & _ & Hi & Hv & Hj). exists u. split; [done|].
  apply find_invite_Some in Hi as [[id Hi] _].
  eapply rtc_l; [by eapply step_use_invite|]. destruct Hj as [->|Hj]; [done|].
  by apply rtc_once, joined_step.
Qed.
Lemma open_joined_steps c d d' : open_joined c d d' → ∃ u, Locals_userID c = Some u ∧ joins u d d'.
Proof.
  intros (u & cfg & Hu & Hb & _ & _ & [->|Hj]); exists u; (split; [done|]); [done|].
  by apply rtc_once, joined_step.
Qed.
Lemma onboarded_steps docs c b d d' : onboarded docs c b d d' → ∃ u, Locals_userID c = Some u ∧ joins u d d'.
Proof.
  intros (u & body & cfg & d1 & Hu & _ & Hcfg & _ & _ & _ & _ & Hacc & Hact). exists u. split; [done|].
  assert (Ha : auto_roles d1 = Onboarding.AutoRoles cfg).
  { destruct Hacc as (acc & _ & _ & ->). unfold auto_roles. simpl. by rewrite Hcfg. }
  eapply rtc_l; [by eapply accepted_step|]. destruct Hact as [->|Hact]; [done|].
  apply rtc_once, activated_step. by rewrite Ha.
Qed.
Lemma status_checked_steps docs c d d' :
  status_checked docs c d d' → ∃ u, Locals_userID c = Some u ∧ joins u d d'.
Proof.
  intros (u & cfg & Hu & Hcfg & [->|(_ & _ & Hact)]); exists u; (split; [done|]); [done|].
  apply rtc_once, activated_step. unfold auto_roles. by rewrite Hcfg.
Qed.
End endpoints.
