(* ===== verification/Routes.v ===== *)
(** * The routes of members, bans, roles, invites, overrides and onboarding:
    cmd/uncord/routes.go

    The middleware chains and the handlers behind them.  The theorem: every request that
    succeeds or changes the tables was made by an authenticated caller with the verified
    address, the membership and the permission the route asks for, and changed them by steps of
    GuildSpec.v and JoinSpec.v; so what is proved of those steps holds after any history of
    requests (GuildHistory.v). *)
From S2P Require Import Prelude GoStd Platform Permission PermCache PermInvalidate Validate Config.
From S2P Require Import Jwt Postgres Frames Domain GuildTables GuildRepo Http MemberApi UserDB JoinApi.
From S2P Require Import GuildSpec JoinSpec ApiLogic MemberProofs JoinProofs GuildStore ResolverFrame.
Open Scope Z_scope.

(** A route, with the decoded body of the request. *)
Inductive server_route :=
| ListMembers | GetSelf | UpdateSelf (b : res UpdateMemberRequest) | Leave | GetMember
| UpdateMember (b : res UpdateMemberRequest) | KickMember | SetTimeout (b : res TimeoutMemberRequest)
| ClearTimeout | AssignRole | RemoveRole
| ListBans | BanMember (b : res BanMemberRequest) | UnbanMember
| ListRoles | CreateRole (b : res CreateRoleRequest) | UpdateRole (b : res UpdateRoleRequest)
| DeleteRole
| ListChannelMembers
| CreateInvite (b : res CreateInviteRequest) | ListInvites | DeleteInvite | JoinViaInvite
| SetOverride (b : res SetOverrideRequest) | DeleteOverride | GetMyPermissions
| GetOnboarding | UpdateOnboarding (b : res UpdateOnboardingConfigRequest)
| AcceptOnboarding (b : res AcceptOnboardingRequest) | GetAcceptance | GetOnboardingStatus | JoinServer.

(** What a route asks for: [Authenticated] routes come after requireAuth and requireCSRF only,
    the others also after requireVerifiedEmail. *)
Inductive access := Authenticated | Verified | ActiveMember | WithPermission (perm : Z) | InChannel (perm : Z).

(** The data of the answers. *)
Inductive answer :=
| AMembers (l : list Models.Member) | AMember (m : Models.Member) | ABans (l : list BanModel)
| ARoles (l : list Models.Role) | ARole (r : Models.Role) | ANone
| AInvites (l : list Events.Invite) | AInvite (i : Events.Invite) | AOverride (o : PermissionOverride)
| APermissions (p : Z) | AOnboarding (o : Models.OnboardingConfig)
| AAcceptances (l : list DocumentAcceptance) | AStep (s : string).

Definition body_map {A B} (f : A → B) (b : body A) : body B :=
  match b with NoBody => NoBody | Data a => Data (f a) | ErrorBody x m => ErrorBody x m end.
Definition respond {W A B} (f : A → B) (m : M W (response A)) : M W (response B) :=
  r ← m; mret (mkResponse (status r) (body_map f (content r))).

Section routes.
Context {U W : Type} `{UUIDLib U} `{!RandomUUID U} `{!UUIDOrder U} `{!MemberStatuses}.
Context `{Postgres (guild U) W} `{Clock W} `{PermissionLib} `{!RoutePermissions} `{JwtLib}.
Context `{Valkey W} `{!Store U W} `{!Cache U W} `{!Codec (InvalidationMessage U)} `{!Codec (gmap string string)}.
Context `{GatewayQueue W} `{AuditLog U W} `{EventNames} `{ApiErrors} `{TimeFormat} `{TimeParse}.
Context `{CryptoRand W} `{!UserRepo U W} `{!Codec (gmap string json_scalar)} `{!OnboardingSteps}.
Context (docs : Onboarding.DocumentStore).
Implicit Types (h : handler) (c : request U).

Definition route_method (x : server_route) : string :=
  match x with
  | ListMembers | GetSelf | GetMember | ListBans | ListRoles | ListChannelMembers | ListInvites
  | GetMyPermissions | GetOnboarding | GetAcceptance | GetOnboardingStatus => "GET"
  | UpdateSelf _ | UpdateMember _ | UpdateRole _ | UpdateOnboarding _ => "PATCH"
  | SetTimeout _ | AssignRole | BanMember _ | SetOverride _ => "PUT"
  | CreateRole _ | CreateInvite _ | JoinViaInvite | AcceptOnboarding _ | JoinServer => "POST"
  | Leave | KickMember | ClearTimeout | RemoveRole | UnbanMember | DeleteRole | DeleteInvite
  | DeleteOverride => "DELETE"
  end.
Definition route_access (x : server_route) : access :=
  match x with
  | JoinViaInvite | GetOnboarding | GetAcceptance | GetOnboardingStatus => Authenticated
  | GetSelf | Leave | JoinServer | AcceptOnboarding _ => Verified
  | ListMembers | GetMember | ListRoles | GetMyPermissions | UpdateOnboarding _ => ActiveMember
  | ListChannelMembers => InChannel ViewChannels
  | CreateInvite _ => WithPermission CreateInvites
  | ListInvites | DeleteInvite => WithPermission ManageInvites
  | SetOverride _ | DeleteOverride => WithPermission ManageRoles
  | UpdateSelf _ => WithPermission ChangeNicknames
  | UpdateMember _ => WithPermission ManageNicknames
  | KickMember => WithPermission KickMembers
  | SetTimeout _ | ClearTimeout => WithPermission TimeoutMembers
  | AssignRole | RemoveRole => WithPermission AssignRoles
  | ListBans | BanMember _ | UnbanMember => WithPermission BanMembers
  | CreateRole _ | UpdateRole _ | DeleteRole => WithPermission ManageRoles
  end.

Definition serve h (x : server_route) (c : request U) : M W (response answer) :=
  match x with
  | ListMembers => respond AMembers (MemberHandler.ListMembers c)
  | GetSelf => respond AMember (MemberHandler.GetSelf c)
  | UpdateSelf b => respond AMember (MemberHandler.UpdateSelf h c b)
  | Leave => respond (λ _, ANone) (MemberHandler.Leave h c)
  | GetMember => respond AMember (MemberHandler.GetMember c)
  | UpdateMember b => respond AMember (MemberHandler.UpdateMember h c b)
  | KickMember => respond (λ _, ANone) (MemberHandler.KickMember h c)
  | SetTimeout b => respond AMember (MemberHandler.SetTimeout h c b)
  | ClearTimeout => respond AMember (MemberHandler.ClearTimeout h c)
  | AssignRole => respond AMember (MemberHandler.AssignRole h c)
  | RemoveRole => respond (λ _, ANone) (MemberHandler.RemoveRole h c)
  | ListBans => respond ABans (MemberHandler.ListBans c)
  | BanMember b => respond (λ _, ANone) (MemberHandler.BanMember h c b)
  | UnbanMember => respond (λ _, ANone) (MemberHandler.UnbanMember h c)
  | ListRoles => respond ARoles (RoleHandler.ListRoles c)
  | CreateRole b => respond ARole (RoleHandler.CreateRole h c b)
  | UpdateRole b => respond ARole (RoleHandler.UpdateRole h c b)
  | DeleteRole => respond (λ _, ANone) (RoleHandler.DeleteRole h c)
  | ListChannelMembers => respond AMembers (MemberHandler.ListChannelMembers c)
  | CreateInvite b => respond AInvite (InviteHandler.CreateInvite h c b)
  | ListInvites => respond AInvites (InviteHandler.ListInvites c)
  | DeleteInvite => respond (λ _, ANone) (InviteHandler.DeleteInvite h c)
  | JoinViaInvite => respond AMember (InviteHandler.JoinViaInvite c)
  | SetOverride b => respond AOverride (PermissionHandler.SetOverride h c b)
  | DeleteOverride => respond (λ _, ANone) (PermissionHandler.DeleteOverride h c)
  | GetMyPermissions => respond APermissions (PermissionHandler.GetMyPermissions c)
  | GetOnboarding => respond AOnboarding (OnboardingHandler.GetOnboarding docs c)
  | UpdateOnboarding b => respond AOnboarding (OnboardingHandler.UpdateOnboarding h docs c b)
  | AcceptOnboarding b => respond AMember (OnboardingHandler.AcceptOnboarding h docs c b)
  | GetAcceptance => respond AAcceptances (OnboardingHandler.GetAcceptance c)
  | GetOnboardingStatus => respond AStep (OnboardingHandler.GetOnboardingStatus h docs c)
  | JoinServer => respond AMember (OnboardingHandler.JoinServer c)
  end.

Definition protect {A} (a : access) (next : request U → M W (response A)) : request U → M W (response A) :=
  match a with
  | Authenticated => next
  | Verified => RequireVerifiedEmail next
  | ActiveMember => RequireVerifiedEmail (RequireActiveMember next)
  | WithPermission perm => RequireVerifiedEmail (RequireActiveMember (RequireServerPermission perm next))
  | InChannel perm => RequireVerifiedEmail (RequireActiveMember (RequirePermission perm next))
  end.
Definition api_routes (cfg : Config) h (x : server_route) : request U → M W (response answer) :=
  RequireAuth (Expose (JWTSecret cfg)) (ServerURL cfg) cfg
    (RequireCSRF cfg (protect (route_access x) (serve h x))).
End routes.

(** ** What a route lets through *)
Section theorems.
Context {U W : Type} `{UUIDLaws U} `{!RandomUUID U} `{!UUIDOrder U} `{!MemberStatuses}.
Context `{PostgresLaws (guild U) W} `{Clock W} `{!PermissionLib} `{!PermissionLaws} `{!RoutePermissions} `{!JwtLib}.
Context `{ValkeyLaws W} `{!Codec (InvalidationMessage U)} `{!Codec (gmap string string)}.
Context `{GatewayQueue W} `{AuditLog U W} `{EventNames} `{ApiErrors} `{TimeFormat} `{TimeParse}.
Context `{!ValkeyFrame (pg_view (DB := guild U) (W := W))} `{!SideFrame (pg_view (DB := guild U) (W := W))}.
Context `{!PgFrame (guild U) (vk_view (W := W))}.
Context `{CryptoRand W} `{!UserRepo U W} `{!UsersTable U W} `{!RandFrame (pg_view (DB := guild U) (W := W))}.
Context `{!Codec (gmap string json_scalar)} `{!OnboardingSteps} (docs : Onboarding.DocumentStore).
Implicit Types (h : handler) (c : request U) (d : guild U) (x : server_route).
Abbreviation view := (pg_view (DB := guild U) (W := W)).

Lemma respond_handles {A B} (f : A → B) (m : M W (response A)) Q :
  handles m Q → handles (respond f m) Q.
Proof.
  intros Hm w r w' E. apply bind_inv in E as [(a & w1 & E1 & E)|(e & E1 & ->)].
  - injection E as <- <-. by apply Hm in E1.
  - apply Hm in E1 as [?|[? ?]]; [by left|right]. split; [done|intros []].
Qed.
Lemma keeps_handles {A} (m : M W (response A)) (Q : guild U → guild U → Prop) :
  keeps view m → (∀ d, Q d d) → handles m Q.
Proof. intros Hm HQ w r w' E. left. rewrite (keeps_run view _ _ _ _ Hm E). apply HQ. Qed.

Lemma ParseAfter_keeps {A} c (k : option U → M W (response A)) :
  (∀ o, keeps view (k o)) → keeps view (ParseAfter c k).
Proof. intros Hk. unfold ParseAfter. destruct (bool_decide _); [done|]. destruct (uuid_Parse _); [done|keeps]. Qed.
Lemma ParseIntQuery_keeps {A} c p (k : Z → M W (response A)) :
  (∀ n, keeps view (k n)) → keeps view (ParseIntQuery c p k).
Proof. intros Hk. unfold ParseIntQuery. destruct (bool_decide _); [done|]. destruct (ParseInt _); [done|keeps]. Qed.
Lemma gets_keeps {A} ctx (f : guild U → A) : keeps view (wrap (W := W) ctx (pg_query (gets f))).
Proof. eapply reads_keeps, reads_wrap, (reads_gets f (λ _ _, True)). done. Qed.
Lemma internal_keeps {A} : keeps view (internal_error (A := A)).
Proof. by intros w. Qed.
Lemma read_keeps {A B} (m : M W A) f (k : A → M W (response B)) :
  keeps view m → (∀ e, refuses (f e)) → (∀ a, keeps view (k a)) → keeps view (catch m f k).
Proof. intros Hm Hf Hk. apply catch_keeps; [done|intros e; by apply refuses_keeps|done]. Qed.
Hint Resolve internal_keeps Success_keeps mapMemberError_refuses : keeps.

Lemma ListMembers_keeps c : keeps view (MemberHandler.ListMembers c).
Proof.
  apply ParseAfter_keeps. intros o. apply ParseIntQuery_keeps. intros n. cbv zeta.
  apply read_keeps; [apply gets_keeps|by auto with refuses|by auto with keeps].
Qed.
Lemma ListBans_keeps c : keeps view (MemberHandler.ListBans c).
Proof.
  apply ParseAfter_keeps. intros o. apply ParseIntQuery_keeps. intros n. cbv zeta.
  apply read_keeps; [apply gets_keeps|by auto with refuses|by auto with keeps].
Qed.
Lemma ListRoles_keeps c : keeps view (RoleHandler.ListRoles c).
Proof. apply read_keeps; [apply gets_keeps|by auto with refuses|by auto with keeps]. Qed.
Lemma GetMember_keeps c : keeps view (MemberHandler.GetMember c).
Proof.
  unfold MemberHandler.GetMember, ParseUUIDParam. destruct (uuid_Parse _); [|done].
  apply read_keeps; [apply GetByUserID_keeps|apply mapMemberError_refuses|by auto with keeps].
Qed.
Lemma GetSelf_keeps c : keeps view (MemberHandler.GetSelf c).
Proof.
  apply keeps_bind; [eapply reads_keeps, UserID_reads|]. intros u.
  apply read_keeps; [|apply mapMemberError_refuses|by auto with keeps].
  eapply reads_keeps. apply reads_map_err, row_reads.
Qed.

Lemma ListInvites_keeps c : keeps view (InviteHandler.ListInvites (U := U) c).
Proof.
  apply ParseAfter_keeps. intros o. apply ParseIntQuery_keeps. intros n. cbv zeta.
  apply read_keeps; [apply gets_keeps|by auto with refuses|by auto with keeps].
Qed.
Lemma GetOnboarding_keeps c : keeps view (OnboardingHandler.GetOnboarding docs c).
Proof. apply read_keeps; [eapply reads_keeps, Config_reads|by auto with refuses|by auto with keeps]. Qed.
Lemma GetAcceptance_keeps c : keeps view (OnboardingHandler.GetAcceptance c).
Proof.
  apply keeps_bind; [eapply reads_keeps, UserID_reads|]. intros u.
  apply read_keeps; [apply gets_keeps|by auto with refuses|by auto with keeps].
Qed.

(** The resolver leaves the tables alone. *)
#[local] Instance reads_frame : ReadFrame (guild U) view := ReadFrame_view.
Lemma Resolve_keeps u ch : keeps view (Resolve (U := U) (W := W) u ch).
Proof. apply frame_Resolve; exact _. Qed.
Lemma ResolveServer_keeps u : keeps view (ResolveServer (U := U) (W := W) u).
Proof. apply frame_ResolveServer; exact _. Qed.
Lemma GetMyPermissions_keeps c : keeps view (PermissionHandler.GetMyPermissions c).
Proof.
  unfold PermissionHandler.GetMyPermissions, ParseUUIDParam. destruct (uuid_Parse _); [|done].
  apply keeps_bind; [eapply reads_keeps, UserID_reads|]. intros u.
  apply read_keeps; [apply Resolve_keeps|by auto with refuses|by auto with keeps].
Qed.
Lemma FilterUsers_keeps us ch p : keeps view (FilterUsersPermitted (U := U) (W := W) us ch p).
Proof. apply frame_FilterUsersPermitted; exact _. Qed.
Lemma channel_page_keeps fuel limit ch cur res_ : keeps view (MemberHandler.channel_page fuel limit ch cur res_).
Proof.
  revert cur res_. induction fuel as [|fuel IH]; intros cur res_; simpl; [keeps|].
  destruct (limit <=? _); [apply Success_keeps|]. cbv zeta.
  apply read_keeps; [apply gets_keeps|by auto with refuses|]. intros batch.
  apply read_keeps; [apply FilterUsers_keeps|by auto with refuses|]. intros permitted.
  destruct (_ <? _); [apply Success_keeps|apply IH].
Qed.
Lemma ListChannelMembers_keeps c : keeps view (MemberHandler.ListChannelMembers c).
Proof.
  intros w. unfold MemberHandler.ListChannelMembers. generalize (S (S (size (g_members (pg_view w))))). intros n.
  match goal with |- view (?m w).2 = _ => assert (Hk : keeps view m); [|apply Hk] end.
  unfold ParseUUIDParam. destruct (uuid_Parse _); [|done].
  apply ParseAfter_keeps. intros o. apply ParseIntQuery_keeps. intros k. apply channel_page_keeps.
Qed.

(** The steps of one request. *)
Definition request_steps x (caller : U) d d' : Prop :=
  guild_step caller d d' ∨ rtc (join_step caller) d d' ∨
  ((∃ b, x = UpdateOnboarding b ∧ auto_roles_from b d d') ∧ settings_step caller d d').
Definition steps_of x c d d' : Prop :=
  d' = d ∨ ∃ caller, Locals_userID c = Some caller ∧ request_steps x caller d d'.
Lemma serve_handles h x c : handles (serve docs h x c) (steps_of x c).
Proof.
  assert (Hs : ∀ A (m : M W (response A)), handles m (by_caller c guild_step) → handles m (steps_of x c)).
  { intros A m Hm. eapply handles_weaken; [exact Hm|]. intros d d' (u & Hu & Hst). right. exists u.
    split; [done|]. by left. }
  assert (Hj : ∀ A (m : M W (response A)) Q, handles m Q →
    (∀ d d', Q d d' → ∃ u, Locals_userID c = Some u ∧ rtc (join_step u) d d') → handles m (steps_of x c)).
  { intros A m Q Hm HQ. eapply handles_weaken; [exact Hm|]. intros d d' (u & Hu & Hst)%HQ. right. exists u.
    split; [done|]. by right; left. }
  assert (Hone : ∀ d d', (∃ u, Locals_userID c = Some u ∧ join_step u d d') →
                       ∃ u, Locals_userID c = Some u ∧ rtc (join_step u) d d').
  { intros d d' (u & Hu & Hst). exists u. split; [done|]. by apply rtc_once. }
  assert (Hk : ∀ A (m : M W (response A)), keeps view m → handles m (steps_of x c))
    by (intros A m Hm; apply keeps_handles; [done|by left]).
  destruct x; simpl; apply respond_handles;
    first [apply Hk; first [apply ListMembers_keeps|apply GetSelf_keeps|apply GetMember_keeps|apply ListBans_keeps
             |apply ListRoles_keeps|apply ListChannelMembers_keeps|apply ListInvites_keeps|apply GetMyPermissions_keeps
             |apply GetOnboarding_keeps|apply GetAcceptance_keeps]
          |idtac].
  - apply Hs, UpdateSelf_steps. - apply Hs, Leave_steps. - apply Hs, UpdateMember_steps. - apply Hs, Kick_steps.
  - apply Hs, SetTimeout_steps. - apply Hs, ClearTimeout_steps. - apply Hs, AssignRole_steps. - apply Hs, RemoveRole_steps.
  - apply Hs, Ban_steps. - apply Hs, Unban_steps. - apply Hs, CreateRole_steps.
  - eapply handles_weaken; [apply UpdateRole_steps|]. intros d d' [->|(u & Hu & Hst)]; [by left|right].
    exists u. split; [done|]. by left.
  - apply Hs, DeleteRole_steps.
  - eapply Hj; [apply CreateInvite_moves|apply Hone].
  - eapply Hj; [apply DeleteInvite_moves|apply Hone].
  - eapply Hj; [apply JoinViaInvite_moves|apply invited_steps].
  - eapply Hj; [apply SetOverride_moves|apply Hone].
  - eapply Hj; [apply DeleteOverride_moves|apply Hone].
  - eapply handles_weaken; [apply UpdateOnboarding_moves|]. intros d d' (u & Hu & Ho & [->|([cfg ->] & Hb)]); [by left|right].
    exists u. split; [done|]. right; right. split; [by eexists|]. split; [done|by eexists].
  - eapply Hj; [apply AcceptOnboarding_moves|apply onboarded_steps].
  - eapply Hj; [apply GetOnboardingStatus_moves|apply status_checked_steps].
  - eapply Hj; [apply JoinServer_moves|apply open_joined_steps].
Qed.

(** The middleware. *)
Lemma HasServerPermission_inv u p w r w' :
  db_wf (guild_perms (view w)) → HasServerPermission u p w = (r, w') →
  view w' = view w ∧ (r = Ok true → allowed_on w u p).
Proof.
  intros Hwf E. apply bind_inv in E as [(eff & w1 & E1 & E)|(e & E1 & ->)];
    pose proof (keeps_run view _ _ _ _ (ResolveServer_keeps u) E1) as Hv; [|done].
  injection E as <- <-. split; [done|]. intros [= Hp].
  edestruct (ResolveServer_effect u w) as (_ & _ & Hr); [exact Hwf|exact E1|]. by eapply server_answer_allowed; [apply Hr|].
Qed.
Lemma HasPermission_inv u ch p w r w' :
  db_wf (guild_perms (view w)) → HasPermission u ch p w = (r, w') →
  view w' = view w ∧ (r = Ok true → allowed_at w u ch p).
Proof.
  intros Hwf E. apply bind_inv in E as [(eff & w1 & E1 & E)|(e & E1 & ->)];
    pose proof (keeps_run view _ _ _ _ (Resolve_keeps u ch) E1) as Hv; [|done].
  injection E as <- <-. split; [done|]. intros [= Hp].
  edestruct (Resolve_trusts w u ch w) as [_ Hr]; [exact Hwf|apply trusts_refl|exact E1|]. by eapply answer_allowed; [apply Hr|].
Qed.
Lemma Fail_inv {A} st code msg (w : W) (r : res (response A)) w' :
  400 ≤ st → Fail_ st code msg w = (r, w') → w' = w ∧ ¬ succeeded r.
Proof. intros Hs [= <- <-]. split; [done|]. simpl. lia. Qed.
Lemma Validate_inv tok secret issuer (w : W) r w' :
  ValidateAccessToken tok secret issuer w = (r, w') → w' = w.
Proof. unfold ValidateAccessToken. destruct (bool_decide _); intros E; by injection E. Qed.
Lemma RequireAuth_inv {A} secret issuer cfg (next : request U → M W (response A)) c (w : W) r w' :
  RequireAuth secret issuer cfg next c w = (r, w') →
  (∃ tok src claims u, credential cfg c = Some (Some (tok, src)) ∧
     (ValidateAccessToken tok secret issuer w).1 = Ok claims ∧ uuid_Parse (Subject claims) = Ok u ∧
     next (with_identity c u (EmailVerified claims) src) w = (r, w')) ∨
  (w' = w ∧ ¬ succeeded r).
Proof.
  unfold RequireAuth. intros E. destruct (credential cfg c) as [[[tok src]|]|] eqn:Ec;
    [|right; by eapply Fail_inv; [|exact E]..].
  apply catch_inv in E as [(claims & w1 & E1 & E)|(e & w1 & E1 & E)];
    pose proof (Validate_inv _ _ _ _ _ _ E1) as ->.
  - destruct (uuid_Parse (Subject claims)) as [u|] eqn:Eu; [left|right; by eapply Fail_inv; [|exact E]].
    exists tok, src, claims, u. by rewrite E1.
  - right. by destruct (errors_Is e _); (eapply Fail_inv; [|exact E]).
Qed.
Lemma RequireCSRF_inv {A} cfg (next : request U → M W (response A)) c (w : W) r w' :
  RequireCSRF cfg next c w = (r, w') →
  (next c w = (r, w') ∧
   (Locals_authSource c = Some AuthSourceCookie → safe_method (Method c) = false →
    Header c "X-CSRF-Token" = Cookies c (CSRFCookieName cfg) ∧ Header c "X-CSRF-Token" ≠ ""%string)) ∨
  (w' = w ∧ ¬ succeeded r).
Proof.
  unfold RequireCSRF. intros E. destruct (safe_method (Method c)); [by left|].
  destruct (bool_decide_reflect (Locals_authSource c = Some AuthSourceCookie)); simpl in E; [|by left].
  destruct (bool_decide_reflect (Cookies c (CSRFCookieName cfg) = ""%string)); simpl in E;
    [right; by eapply Fail_inv; [|exact E]|].
  destruct (bool_decide_reflect (Header c "X-CSRF-Token" = ""%string)); simpl in E;
    [right; by eapply Fail_inv; [|exact E]|].
  destruct (bool_decide_reflect (Cookies c (CSRFCookieName cfg) = Header c "X-CSRF-Token")); simpl in E;
    [by left|right; by eapply Fail_inv; [|exact E]].
Qed.
Lemma RequireVerifiedEmail_inv {A} (next : request U → M W (response A)) c (w : W) r w' :
  RequireVerifiedEmail next c w = (r, w') →
  (next c w = (r, w') ∧ Locals_emailVerified c = Some true) ∨ (w' = w ∧ ¬ succeeded r).
Proof.
  unfold RequireVerifiedEmail. destruct (Locals_emailVerified c) as [[]|]; intros E;
    [by left|right; by eapply Fail_inv; [|exact E]..].
Qed.

(** What a middleware before the resolver leaves when it passes: the tables and the cache. *)
Definition passes (P : guild U → Prop) {A} (next : request U → M W (response A)) c (w : W) r w' : Prop :=
  (∃ w1, unchanged (U := U) w w1 ∧ view w1 = view w ∧ P (view w) ∧ next c w1 = (r, w')) ∨
  (view w' = view w ∧ ¬ succeeded r).
Definition active u d : Prop := ∃ m, g_members d !! u = Some m ∧ m_status m ≠ MemberStatusPending.
Lemma RequireActiveMember_inv {A} (next : request U → M W (response A)) c u (w : W) r w' :
  Locals_userID c = Some u → RequireActiveMember next c w = (r, w') →
  passes (active u) next c w r w'.
Proof.
  intros Hu E. unfold RequireActiveMember, UserID in E. rewrite Hu in E.
  apply bind_inv in E as [(u' & w0 & [= <- <-] & E)|(e & [=] & _)].
  apply catch_inv in E as [(s & w1 & E1 & E)|(e & w1 & E1 & E)];
    pose proof (GetStatus_reads _ _ _ _ E1) as Hv.
  - assert (Hc1 : unchanged (U := U) w w1).
    { apply map_err_inv in E1 as (r0 & E1 & _).
      pose proof (keeps_run (vk_view (W := W)) _ _ _ _ (pg_query_keeps (select_status u)) E1) as Hk.
      split; simpl; [by rewrite (proj1 Hv)|]. intros k. unfold cached_perm. by rewrite Hk. }
    destruct (bool_decide_reflect (s = MemberStatusPending)).
    + right. apply Fail_inv in E as [-> ?]; [|done]. by split; [apply Hv|].
    + left. exists w1. split_and!; [done|apply Hv| |done].
      destruct Hv as [_ Hm]. destruct (g_members (view w) !! u) as [m|] eqn:Em; [|done].
      injection Hm as <-. by exists m.
  - right. destruct Hv as [Hv _]. destruct (errors_Is e _); apply Fail_inv in E as [-> ?]; done.
Qed.
(** The permission on the server, and in a channel: in what the resolver knows when the request
    arrives, which is what the tables say if the cache agrees with them ([allowed_on] and
    [allowed_at] of Permission.v).  At the nil identifier, which no channel has, it is the
    permission on the server: the cache keeps those there. *)
Abbreviation permitted u p w := (allowed_on (U := U) w u p).
Abbreviation permitted_in u ch p w := (allowed_at (U := U) w u ch p).
Lemma RequireServerPermission_inv {A} p (next : request U → M W (response A)) c u (w : W) r w' :
  Locals_userID c = Some u → db_wf (guild_perms (view w)) →
  RequireServerPermission p next c w = (r, w') →
  (∃ w1, view w1 = view w ∧ permitted u p w ∧ next c w1 = (r, w')) ∨ (view w' = view w ∧ ¬ succeeded r).
Proof.
  intros Hu Hwf E. unfold RequireServerPermission, UserID in E. rewrite Hu in E.
  apply bind_inv in E as [(u' & w0 & [= <- <-] & E)|(e & [=] & _)].
  apply catch_inv in E as [(b & w1 & E1 & E)|(e & w1 & E1 & E)];
    apply HasServerPermission_inv in E1 as (Hv & Hp); try done.
  - destruct b.
    + left. exists w1. split_and!; [done|by apply Hp|done].
    + right. apply Fail_inv in E as [-> ?]; done.
  - right. apply Fail_inv in E as [-> ?]; done.
Qed.
Lemma RequirePermission_inv {A} p (next : request U → M W (response A)) c u (w : W) r w' :
  Locals_userID c = Some u → db_wf (guild_perms (view w)) →
  RequirePermission p next c w = (r, w') →
  (∃ w1 ch, view w1 = view w ∧ uuid_Parse (Params c "channelID") = Ok ch ∧ permitted_in u ch p w ∧
     next c w1 = (r, w')) ∨
  (view w' = view w ∧ ¬ succeeded r).
Proof.
  intros Hu Hwf E. unfold RequirePermission, UserID in E. rewrite Hu in E.
  apply bind_inv in E as [(u' & w0 & [= <- <-] & E)|(e & [=] & _)].
  destruct (bool_decide _); [right; apply Fail_inv in E as [-> ?]; done|].
  destruct (uuid_Parse _) as [ch|] eqn:Ech; [|right; apply Fail_inv in E as [-> ?]; done].
  apply catch_inv in E as [(b & w1 & E1 & E)|(e & w1 & E1 & E)];
    apply HasPermission_inv in E1 as [Hv Hp]; try done.
  - destruct b; [left|right; apply Fail_inv in E as [-> ?]; done]. exists w1, ch. split_and!; auto.
  - right. apply Fail_inv in E as [-> ?]; done.
Qed.
(** Reading neither the tables nor the cache has changed. *)
Lemma allowed_unchanged w w1 u ch p :
  unchanged (U := U) w w1 → (permitted_in u ch p w1 → permitted_in u ch p w) ∧ (permitted u p w1 → permitted u p w).
Proof.
  intros Hu. assert (Hco : coherent (U := U) w → coherent (U := U) w1) by (intros; by eapply coherent_unchanged).
  destruct Hu as [Hd Hc]. split; intros (eff & Ha & Hr & Hp); exists eff.
  - unfold answer_at in *. rewrite <-Hd, <-Hc. auto.
  - rewrite <-Hd, <-Hc. auto.
Qed.
Definition cleared (a : access) c u (w : W) : Prop :=
  (a ≠ Authenticated → Locals_emailVerified c = Some true) ∧
  (a ≠ Authenticated → a ≠ Verified → active u (view w)) ∧
  (∀ p, a = WithPermission p → permitted u p w) ∧
  (∀ p, a = InChannel p → ∃ ch, uuid_Parse (Params c "channelID") = Ok ch ∧ permitted_in u ch p w).
Lemma protect_inv {A} a (next : request U → M W (response A)) c u (w : W) r w' :
  Locals_userID c = Some u → db_wf (guild_perms (view w)) →
  protect a next c w = (r, w') →
  (∃ w1, view w1 = view w ∧ cleared a c u w ∧ next c w1 = (r, w')) ∨ (view w' = view w ∧ ¬ succeeded r).
Proof.
  intros Hu Hwf E. destruct a as [| | |p|p]; simpl in E.
  - left. by exists w.
  - apply RequireVerifiedEmail_inv in E as [[E Hver]|[-> ?]]; [|by right]. left. by exists w.
  - apply RequireVerifiedEmail_inv in E as [[E Hver]|[-> ?]]; [|by right].
    apply (RequireActiveMember_inv _ _ u) in E as [(w1 & Hun & Hv & Ha & E)|?]; [|by right|done].
    left. by exists w1.
  - apply RequireVerifiedEmail_inv in E as [[E Hver]|[-> ?]]; [|by right].
    apply (RequireActiveMember_inv _ _ u) in E as [(w1 & Hun & Hv & Ha & E)|?]; [|by right|done].
    rewrite <-Hv in Hwf. destruct (RequireServerPermission_inv _ _ _ u _ _ _ Hu Hwf E)
      as [(w2 & Hv2 & Hp & E2)|[? ?]]; rewrite Hv in *; [left|by right].
    apply (allowed_unchanged w w1 u uuid_Nil p Hun) in Hp.
    exists w2. split_and!; [done| |done]. split_and!; [done|done|by intros ? [= <-]|done].
  - apply RequireVerifiedEmail_inv in E as [[E Hver]|[-> ?]]; [|by right].
    apply (RequireActiveMember_inv _ _ u) in E as [(w1 & Hun & Hv & Ha & E)|?]; [|by right|done].
    rewrite <-Hv in Hwf. destruct (RequirePermission_inv _ _ _ u _ _ _ Hu Hwf E)
      as [(w2 & ch & Hv2 & Hch & Hp & E2)|[? ?]]; rewrite Hv in *; [left|by right].
    apply (allowed_unchanged w w1 u ch p Hun) in Hp.
    exists w2. split_and!; [done| |done]. split_and!; [done|done|done|]. intros ? [= <-]. by exists ch.
Qed.

(** What the caller of a route must be allowed. *)
Definition needs_verified x : bool :=
  match x with JoinViaInvite | GetOnboarding | GetAcceptance | GetOnboardingStatus => false | _ => true end.
Definition rights x c u (w : W) : Prop :=
  match x with
  | JoinViaInvite | GetOnboarding | GetAcceptance | GetOnboardingStatus
  | GetSelf | Leave | JoinServer | AcceptOnboarding _ => True
  | ListMembers | GetMember | ListRoles | GetMyPermissions | UpdateOnboarding _ => active u (view w)
  | ListChannelMembers =>
      active u (view w) ∧ ∃ ch, uuid_Parse (Params c "channelID") = Ok ch ∧ permitted_in u ch ViewChannels w
  | CreateInvite _ => active u (view w) ∧ permitted u CreateInvites w
  | ListInvites | DeleteInvite => active u (view w) ∧ permitted u ManageInvites w
  | SetOverride _ | DeleteOverride | CreateRole _ | UpdateRole _ | DeleteRole =>
      active u (view w) ∧ permitted u ManageRoles w
  | UpdateSelf _ => active u (view w) ∧ permitted u ChangeNicknames w
  | UpdateMember _ => active u (view w) ∧ permitted u ManageNicknames w
  | KickMember => active u (view w) ∧ permitted u KickMembers w
  | SetTimeout _ | ClearTimeout => active u (view w) ∧ permitted u TimeoutMembers w
  | AssignRole | RemoveRole => active u (view w) ∧ permitted u AssignRoles w
  | ListBans | BanMember _ | UnbanMember => active u (view w) ∧ permitted u BanMembers w
  end.
(** The caller of a request and what it had to show. *)
Record authorised (cfg : Config) (x : server_route) (c : request U) (w : W) (caller : U) : Prop := {
  auth_token : ∃ tok src claims,
    credential cfg c = Some (Some (tok, src)) ∧
    (ValidateAccessToken tok (Expose (JWTSecret cfg)) (ServerURL cfg) w).1 = Ok claims ∧
    uuid_Parse (Subject claims) = Ok caller ∧
    (needs_verified x = true → EmailVerified claims = true) ∧
    (src = AuthSourceCookie → safe_method (Method c) = false →
     Header c "X-CSRF-Token" = Cookies c (CSRFCookieName cfg) ∧ Header c "X-CSRF-Token" ≠ ""%string);
  auth_rights : rights x c caller w }.
Lemma cleared_rights x c u (w : W) : cleared (route_access x) c u w → rights x c u w.
Proof.
  intros (_ & Ha & Hp & Hch). destruct x; simpl in *;
    first [done|by apply Ha|split; [by apply Ha|]; first [by apply Hp|by apply (Hch _ eq_refl)]].
Qed.
Lemma cleared_verified x c u (w : W) :
  cleared (route_access x) c u w → needs_verified x = true → Locals_emailVerified c = Some true.
Proof. intros (Hv & _) Hx. apply Hv. by destruct x. Qed.

(** C2: A request to one of the routes that succeeds or changes the tables carried a valid access
    token of its caller, and with a cookie the CSRF token; the caller has the verified address, by
    the tables the active membership, and the permission the route asks for; and the tables
    changed by steps the rules allow that caller.  The permission is in what the permission cache
    holds for the caller when the request arrives, or else in what the tables give; if the cache
    agrees with the tables then, it is what the tables give.  At the nil identifier, which is no
    channel's, the permission on the server counts as the channel's. *)
Theorem api_routes_authorised cfg h x c (w : W) r w' :
  db_wf (guild_perms (view w)) →
  api_routes docs cfg h x c w = (r, w') → succeeded r ∨ view w' ≠ view w →
  ∃ caller, authorised cfg x c w caller ∧ request_steps x caller (view w) (view w').
Proof.
  intros Hwf E Hs. assert (Hno : ¬ (view w' = view w ∧ ¬ succeeded r)) by tauto. clear Hs.
  unfold api_routes in E.
  apply RequireAuth_inv in E as [(tok & src & claims & u & Hcred & Htok & Hu & E)|[-> ?]]; [|by destruct Hno].
  apply RequireCSRF_inv in E as [[E Hcsrf]|[-> ?]]; [|by destruct Hno].
  apply (protect_inv _ _ _ u) in E as [(w1 & Hv & Hc & E)|?]; [|done..].
  exists u. split.
  - split; [|by apply cleared_rights in Hc]. exists tok, src, claims. split_and!; try done.
    + intros Hx. pose proof (cleared_verified _ _ _ _ Hc Hx) as Hver. simpl in Hver. congruence.
    + intros ->. by apply Hcsrf.
  - apply serve_handles in E as [[He|(u' & [= <-] & Hstep)]|?]; rewrite Hv in *; [|done|done].
    rewrite He. by right; left.
Qed.
End theorems.
