(* ===== verification/Cookies.v ===== *)
(** * Cookies: internal/auth/cookie.go, and what fiber and a browser do with them

    [c.Cookie] writes to the response of the request, which is part of the world: the cookies a
    response sets, by name.  Whether fiber sends a cookie and whether a browser stores it and
    sends it back is decided elsewhere: fiber leaves out cookies that net/http calls invalid,
    and the browser follows RFC 6265 and the prefix rules of its successor. *)
From S2P Require Import Prelude GoStd Platform Permission Validate Config Tokens Jwt Base64 AuthCrypto Http.
From S2P Require Import PermCache PermInvalidate Postgres Domain UserDB AuthService.
Open Scope Z_scope.

Inductive SameSite := CookieSameSiteLaxMode | CookieSameSiteStrictMode.
#[global] Instance SameSite_eq_dec : EqDecision SameSite.
Proof. solve_decision. Defined.
Record Cookie := mkCookie {
  ck_Name : string; ck_Value : string; ck_Path : string; ck_MaxAge : Z;
  ck_HTTPOnly : bool; ck_Secure : bool; ck_SameSite : SameSite }.

(** ** The response under construction *)
Class ResponseCookies (W : Type) : Type := {
  cookie_Valid : Cookie → bool;
  resp_cookies : W → gmap string Cookie;
  c_Cookie : Cookie → W → W;
}.
(** Letters, digits and the punctuation of base64url and of JWTs. *)
Definition token_char (b : Z) : bool :=
  ((48 <=? b) && (b <=? 57)) || ((65 <=? b) && (b <=? 90)) || ((97 <=? b) && (b <=? 122)) ||
  (b =? 45) || (b =? 46) || (b =? 95).
Definition token_text (s : string) : Prop := Forall (λ b, token_char b = true) (bytes_of s).
Class ResponseCookiesLaws (W : Type) `{ResponseCookies W} : Prop := {
  resp_cookies_set : ∀ ck w, resp_cookies (c_Cookie ck w) =
    if cookie_Valid ck then <[ck_Name ck := ck]> (resp_cookies w) else resp_cookies w;
  cookie_Valid_token : ∀ ck, token_text (ck_Name ck) → ck_Name ck ≠ ""%string → token_text (ck_Value ck) →
    (ck_Path ck = "/" ∨ ck_Path ck = "/api" ∨ ck_Path ck = "/api/v1/auth/refresh")%string →
    cookie_Valid ck = true;
}.

(** ** auth/cookie.go *)
Section cookies.
Context {W : Type} `{RandLib W} `{ResponseCookies W}.
Implicit Types (cfg : Config).

Definition csrfTokenBytes : nat := 32.
Definition access_cookie cfg (value : string) (maxAge : Z) : Cookie :=
  mkCookie (AccessCookieName cfg) value "/api" maxAge true (negb (IsDevelopment cfg)) CookieSameSiteLaxMode.
Definition refresh_cookie cfg (value : string) (maxAge : Z) : Cookie :=
  mkCookie (RefreshCookieName cfg) value "/api/v1/auth/refresh" maxAge true (negb (IsDevelopment cfg))
    CookieSameSiteStrictMode.
Definition csrf_cookie cfg (value : string) (maxAge : Z) : Cookie :=
  mkCookie (CSRFCookieName cfg) value "/" maxAge false (negb (IsDevelopment cfg)) CookieSameSiteLaxMode.

Definition SetAuthCookies cfg (accessToken refreshToken : string) : M W unit :=
  let cookieMaxAge := Z.quot (JWTRefreshTTL cfg) Second in
  modify (c_Cookie (access_cookie cfg accessToken cookieMaxAge)) ;;
  modify (c_Cookie (refresh_cookie cfg refreshToken (Z.quot (JWTRefreshTTL cfg) Second))) ;;
  csrfToken ← generateSecureToken csrfTokenBytes;
  modify (c_Cookie (csrf_cookie cfg csrfToken cookieMaxAge)).
Definition ClearAuthCookies cfg : M W unit :=
  modify (c_Cookie (access_cookie cfg "" (-1))) ;;
  modify (c_Cookie (refresh_cookie cfg "" (-1))) ;;
  modify (c_Cookie (csrf_cookie cfg "" (-1))).
End cookies.

(** ** The browser

    [ua_accepts]: it stores the cookie of a response from this server; [ua_path_match]: it sends
    a cookie of this path with a request for that path (RFC 6265, 5.1.4). *)
Class Browser : Type := {
  ua_accepts : Cookie → bool;
  ua_path_match : string → string → bool;
}.
Definition host_prefix : string := "__Host-".
Class BrowserLaws `{Browser} : Prop := {
  (** A cookie without a prefix in its name that is not to be sent over TLS only is stored. *)
  ua_accepts_plain : ∀ ck, (ck_Name ck = "access_token" ∨ ck_Name ck = "refresh_token" ∨ ck_Name ck = "csrf_token")%string →
    ck_Secure ck = false → 0 < ck_MaxAge ck → ua_accepts ck = true;
  (** RFC 6265bis, 4.1.3.2: a [__Host-] cookie is stored only when it is secure and for the whole host. *)
  ua_accepts_host : ∀ ck rest, ck_Name ck = (host_prefix +:+ rest)%string →
    ua_accepts ck = true → ck_Secure ck = true ∧ ck_Path ck = "/"%string;
  ua_path_root : ∀ p, ua_path_match ("/" +:+ p) "/" = true;
  ua_path_below : ∀ p rest, ua_path_match (p +:+ "/" +:+ rest) p = true;
}.
(** The value a request for [path] carries under a name, after a response set [jar]. *)
Definition cookie_sent `{Browser} (jar : gmap string Cookie) (path name : string) : string :=
  match jar !! name with
  | Some ck => if ua_accepts ck && ua_path_match path (ck_Path ck) then ck_Value ck else ""
  | None => ""
  end.
