(* ===== verification/AuthApi.v ===== *)
(** * Account endpoints: internal/api/auth.go, mfa.go and user.go, internal/page/verify.go

    Every handler of AuthHandler, MFAHandler, UserHandler and VerifyHandler, over the service of
    AuthService.v and the user repository, and their part of cmd/uncord/routes.go.  Log lines are
    left out, as are the rate limiters of the routes. *)
From S2P Require Import Prelude GoStd Platform Permission PermCache PermInvalidate Validate Config.
From S2P Require Import Tokens Jwt Postgres Domain UserDB Base64 AuthCrypto GuildTables GuildRepo Http MemberApi.
From S2P Require Import AuthService Cookies Routes.
Open Scope Z_scope.

(** More codes of the protocol's error package. *)
Class AccountErrors : Type := {
  InvalidEmail : string; InvalidUsername : string; InvalidPassword : string; DisposableEmail : string;
  InvalidCredentials : string; InvalidMFACode : string; MFANotEnabled : string; MFAAlreadyEnabled : string;
  RateLimited : string; ServiceUnavailable : string; TokenReused : string; InvalidToken : string;
  AccountDeleted : string; EmailAlreadyVerified : string; UnknownUser : string }.

Definition StatusTooManyRequests : Z := 429.
Definition StatusServiceUnavailable : Z := 503.

(** ** Protocol requests and responses *)
Record MFAVerifyRequest := mkMFAVerify { mv_Ticket : string; mv_Code : string }.
Record MFADisableRequest := mkMFADisable { md_Password : string; md_Code : string }.
Record LoginBody := mkLoginBody { lb_Email : string; lb_Password : string }.
Record AuthResponse := mkAuthResponse {
  ar_User : Models.User; ar_AccessToken : string; ar_RefreshToken : string }.
Inductive login_answer := LoggedIn (a : AuthResponse) | MFARequiredResponse (ticket : string).
Definition toAuthResponse (result : Result) : AuthResponse :=
  mkAuthResponse (res_User result) (AccessToken result) (RefreshToken result).

Record UpdateUserRequest := mkUpdateUser {
  uu_DisplayName : option string; uu_Pronouns : option string; uu_About : option string;
  uu_ThemeColourPrimary : option Z; uu_ThemeColourSecondary : option Z }.

Section errors.
Context {W : Type} `{ApiErrors} `{AccountErrors}.

(** ** mapAuthServiceError *)
Definition mapAuthServiceError {A} (err : error) : M W (response A) :=
  if errors_Is err Auth.ErrInvalidEmail then Fail_ StatusBadRequest InvalidEmail (Error err)
  else if errors_Is err Auth.ErrUsernameLength || errors_Is err Auth.ErrUsernameInvalidChars
  then Fail_ StatusBadRequest InvalidUsername (Error err)
  else if errors_Is err Auth.ErrPasswordTooShort || errors_Is err Auth.ErrPasswordTooLong
  then Fail_ StatusBadRequest InvalidPassword (Error err)
  else if errors_Is err ErrDisposableEmail then Fail_ StatusBadRequest DisposableEmail (Error err)
  else if errors_Is err ErrEmailAlreadyTaken
  then Fail_ StatusBadRequest InvalidEmail "Unable to register with the provided email"
  else if errors_Is err ErrInvalidCredentials then Fail_ StatusUnauthorized InvalidCredentials (Error err)
  else if errors_Is err ErrInvalidMFACode then Fail_ StatusUnauthorized InvalidMFACode (Error err)
  else if errors_Is err ErrMFANotEnabled then Fail_ StatusBadRequest MFANotEnabled (Error err)
  else if errors_Is err ErrMFAAlreadyEnabled then Fail_ StatusConflict MFAAlreadyEnabled (Error err)
  else if errors_Is err ErrMFASetupLocked then Fail_ StatusTooManyRequests RateLimited (Error err)
  else if errors_Is err ErrMFANotConfigured
  then Fail_ StatusServiceUnavailable ServiceUnavailable "MFA is not configured on this server"
  else if errors_Is err ErrRefreshTokenReused
  then Fail_ StatusUnauthorized TokenReused "Refresh token has already been used"
  else if errors_Is err ErrRefreshTokenNotFound then Fail_ StatusUnauthorized InvalidToken (Error err)
  else if errors_Is err Tokens.ErrInvalidToken then Fail_ StatusBadRequest InvalidToken (Error err)
  else if errors_Is err ErrServerOwner then Fail_ StatusForbidden ServerOwner (Error err)
  else if errors_Is err ErrAccountTombstoned
  then Fail_ StatusBadRequest AccountDeleted "This email or username is not available"
  else if errors_Is err ErrEmailAlreadyVerified then Fail_ StatusConflict EmailAlreadyVerified (Error err)
  else if errors_Is err ErrVerificationCooldown then Fail_ StatusTooManyRequests RateLimited (Error err)
  else internal_error.

(** A field the handler requires to be non-empty. *)
Definition required {A} (ok : bool) (message : string) (k : M W (response A)) : M W (response A) :=
  if ok then k else Fail_ StatusBadRequest InvalidBody message.
Definition filled (s : string) : bool := negb (bool_decide (s = ""%string)).
End errors.

(** ** AuthHandler *)
Module AuthHandler.
Section auth_handler.
Context {U W : Type} `{UUIDLib U} `{Valkey W} `{IdGen U W} `{Clock W} `{JwtLib} `{NetMail}.
Context `{RandLib W} `{Argon2 W} `{CryptoLib} `{TotpLib W} `{ResponseCookies W}.
Context `{UserRepo U W} `{ServerRepo U W} `{Blocklist W} `{!Codec (InvalidationMessage U)}.
Context `{ApiErrors} `{AccountErrors}.
Context (h : Service W) (cfg : Config).
Implicit Types (c : request U).

Definition Register (decoded : res RegisterRequest) : M W (response AuthResponse) :=
  Bind decoded (λ body,
  catch (Register (U := U) h (mkRegister (rr_Email body) (rr_Username body) (rr_Password body)))
    mapAuthServiceError (λ result,
  SetAuthCookies cfg (AccessToken result) (RefreshToken result) ;;
  SuccessStatus StatusCreated (toAuthResponse result))).

Definition Login (ip : string) (decoded : res LoginBody) : M W (response login_answer) :=
  Bind decoded (λ body,
  catch (Login (U := U) h (mkLogin (lb_Email body) (lb_Password body) ip)) mapAuthServiceError (λ result,
  match MFARequired result, lr_Auth result with
  | true, _ => Success (MFARequiredResponse (Ticket result))
  | false, Some a =>
      SetAuthCookies cfg (AccessToken a) (RefreshToken a) ;;
      Success (LoggedIn (toAuthResponse a))
  | false, None => fail (Plain "nil pointer dereference")
  end)).

Definition MFAVerify (decoded : res MFAVerifyRequest) : M W (response AuthResponse) :=
  Bind decoded (λ body,
  required (filled (mv_Ticket body) && filled (mv_Code body)) "ticket and code are required" (
  catch (VerifyMFA (U := U) h (mv_Ticket body) (mv_Code body)) mapAuthServiceError (λ result,
  SetAuthCookies cfg (AccessToken result) (RefreshToken result) ;;
  Success (toAuthResponse result)))).

(** The body's token, or that of the cookie. *)
Definition presented_refresh c (body : string) : string :=
  if bool_decide (body = ""%string) then Http.Cookies c (RefreshCookieName cfg) else body.
Definition Refresh c (decoded : res string) : M W (response TokenPair) :=
  Bind decoded (λ body,
  let refreshToken := presented_refresh c body in
  required (filled refreshToken) "refresh_token is required" (
  catch (Refresh (U := U) h refreshToken) mapAuthServiceError (λ tokens,
  SetAuthCookies cfg (tp_Access tokens) (tp_Refresh tokens) ;;
  Success tokens))).

Definition VerifyEmail (decoded : res string) : M W (response AuthResponse) :=
  Bind decoded (λ token,
  required (filled token) "token is required" (
  catch (VerifyEmail (U := U) h token) mapAuthServiceError (λ result,
  SetAuthCookies cfg (AccessToken result) (RefreshToken result) ;;
  Success (toAuthResponse result)))).

Definition VerifyPassword c (decoded : res string) : M W (response unit) :=
  userID ← UserID c;
  Bind decoded (λ password,
  required (filled password) "password is required" (
  catch (VerifyUserPassword userID password) mapAuthServiceError (λ _,
  SendStatus StatusNoContent))).

Definition ResendVerification c : M W (response string) :=
  userID ← UserID c;
  catch (ResendVerification h userID) mapAuthServiceError (λ _,
  Success "Verification email sent"%string).

(** An error of the revocation is logged and no more. *)
Definition Logout c : M W (response unit) :=
  userID ← UserID c;
  best_effort (RevokeAllUserTokens userID) ;;
  ClearAuthCookies cfg ;;
  SendStatus StatusNoContent.

Definition GatewayTicket c : M W (response string) :=
  userID ← UserID c;
  catch (IssueGatewayTicket userID) (λ _, internal_error) (λ ticket, Success ticket).
End auth_handler.
End AuthHandler.

(** ** MFAHandler *)
Module MFAHandler.
Section mfa_handler.
Context {U W : Type} `{UUIDLib U} `{Valkey W} `{IdGen U W} `{Clock W} `{JwtLib} `{NetMail}.
Context `{RandLib W} `{Argon2 W} `{CryptoLib} `{TotpLib W} `{ResponseCookies W}.
Context `{UserRepo U W} `{ServerRepo U W} `{Blocklist W} `{!Codec (InvalidationMessage U)}.
Context `{ApiErrors} `{AccountErrors}.
Context (h : Service W).
Implicit Types (c : request U).

Definition Enable c (decoded : res string) : M W (response MFASetupResult) :=
  userID ← UserID c;
  Bind decoded (λ password,
  required (filled password) "password is required" (
  catch (BeginMFASetup h userID password) mapAuthServiceError (λ result, Success result))).

Definition Confirm c (decoded : res string) : M W (response (list string)) :=
  userID ← UserID c;
  Bind decoded (λ code,
  required (filled code) "code is required" (
  catch (ConfirmMFASetup h userID code) mapAuthServiceError (λ codes, Success codes))).

Definition Disable c (decoded : res MFADisableRequest) : M W (response string) :=
  userID ← UserID c;
  Bind decoded (λ body,
  required (filled (md_Password body) && filled (md_Code body)) "password and code are required" (
  catch (DisableMFA h userID (md_Password body) (md_Code body)) mapAuthServiceError (λ _,
  Success "MFA has been disabled"%string))).

Definition RegenerateCodes c (decoded : res string) : M W (response (list string)) :=
  userID ← UserID c;
  Bind decoded (λ password,
  required (filled password) "password is required" (
  catch (RegenerateRecoveryCodes h userID password) mapAuthServiceError (λ codes, Success codes))).
End mfa_handler.
End MFAHandler.

(** ** UserHandler *)
Module UserHandler.
Section user_handler.
Context {U W : Type} `{UUIDLib U} `{Valkey W} `{IdGen U W} `{Clock W} `{JwtLib} `{NetMail}.
Context `{RandLib W} `{Argon2 W} `{CryptoLib} `{TotpLib W} `{ResponseCookies W}.
Context `{UserRepo U W} `{ServerRepo U W} `{Blocklist W} `{!Codec (InvalidationMessage U)}.
Context `{ApiErrors} `{AccountErrors}.
Context (h : Service W).
Implicit Types (c : request U).

Definition mapUserError {A} (err : error) : M W (response A) :=
  if errors_Is err UserDB.ErrNotFound then Fail_ StatusNotFound UnknownUser "User not found"
  else if errors_Is err User.ErrDisplayNameLength then Fail_ StatusBadRequest ValidationError (Error err)
  else if errors_Is err User.ErrPronounsLength then Fail_ StatusBadRequest ValidationError (Error err)
  else if errors_Is err User.ErrAboutLength then Fail_ StatusBadRequest ValidationError (Error err)
  else if errors_Is err User.ErrThemeColourRange then Fail_ StatusBadRequest ValidationError (Error err)
  else internal_error.

Definition GetMe c : M W (response Models.User) :=
  userID ← UserID c;
  catch (users_GetByID userID) mapUserError (λ u, Success (User.ToModel u)).

Definition GetProfile c : M W (response Models.UserProfile) :=
  ParseUUIDParam c "userID" ValidationError (λ targetID,
  catch (users_GetByID targetID) mapUserError (λ u, Success (User.ToProfileModel u))).

Definition UpdateMe c (decoded : res UpdateUserRequest) : M W (response Models.User) :=
  userID ← UserID c;
  Bind decoded (λ body,
  let displayName := User.NormalizeDisplayName (uu_DisplayName body) in
  catch (of_res (User.ValidateDisplayName displayName)) mapUserError (λ _,
  let pronouns := User.NormalizePronouns (uu_Pronouns body) in
  catch (of_res (User.ValidatePronouns pronouns)) mapUserError (λ _,
  let about := User.NormalizeAbout (uu_About body) in
  catch (of_res (User.ValidateAbout about)) mapUserError (λ _,
  catch (of_res (User.ValidateThemeColour (uu_ThemeColourPrimary body))) mapUserError (λ _,
  catch (of_res (User.ValidateThemeColour (uu_ThemeColourSecondary body))) mapUserError (λ _,
  catch (users_Update userID (mkUpdateParams displayName pronouns about (uu_ThemeColourPrimary body)
           (uu_ThemeColourSecondary body))) mapUserError (λ u,
  Success (User.ToModel u)))))))).

Definition DeleteMe c (decoded : res string) : M W (response unit) :=
  userID ← UserID c;
  Bind decoded (λ password,
  required (filled password) "password is required" (
  catch (DeleteAccount h userID password) mapAuthServiceError (λ _,
  SendStatus StatusNoContent))).
End user_handler.
End UserHandler.

(** ** page/verify.go

    [tmpl] executes the page's template: the compiled-in one or the operator's. *)
Record verifyData := mkVerifyData { vd_Title : string; vd_Heading : string; vd_Message : string; vd_AccentColour : string }.
Inductive page := Html (text : string) | PlainText (text : string).
Module VerifyHandler.
Section verify_handler.
Context {U W : Type} `{UUIDLib U} `{Valkey W} `{IdGen U W} `{Clock W} `{JwtLib} `{NetMail}.
Context `{RandLib W} `{Argon2 W} `{CryptoLib} `{TotpLib W} `{ResponseCookies W}.
Context `{UserRepo U W} `{ServerRepo U W} `{Blocklist W} `{!Codec (InvalidationMessage U)}.
Context `{ApiErrors} `{AccountErrors}.
Context (h : Service W) (serverName : string) (tmpl : verifyData → res string).
Implicit Types (c : request U).

Definition renderPage (st : Z) (data : verifyData) : M W (response page) :=
  match tmpl data with
  | Ok buf => SuccessStatus st (Html buf)
  | Err _ => SuccessStatus StatusInternalServerError (PlainText "internal server error")
  end.
Definition VerifyEmail c : M W (response page) :=
  let token := Query c "token" in
  if bool_decide (token = ""%string) then
    renderPage StatusBadRequest (mkVerifyData (serverName +:+ " — Email Verification") "Missing Token"
      "No verification token was provided. Please check the link in your email and try again." "#e74c3c")
  else
    catch (VerifyEmail (U := U) h token) (λ err,
      if errors_Is err Tokens.ErrInvalidToken then
        renderPage StatusBadRequest (mkVerifyData (serverName +:+ " — Email Verification") "Verification Failed"
          "This verification link is invalid or has expired. Please request a new verification email." "#e74c3c")
      else
        renderPage StatusInternalServerError (mkVerifyData (serverName +:+ " — Email Verification") "Something Went Wrong"
          "An unexpected error occurred while verifying your email. Please try again later." "#e74c3c"))
    (λ _,
      renderPage StatusOK (mkVerifyData (serverName +:+ " — Email Verified") "Email Verified"
        ("Your email address has been verified. You can close this page and return to " +:+ serverName +:+ ".") "#2ecc71")).
End verify_handler.
End VerifyHandler.

(** ** cmd/uncord/routes.go *)
Inductive account_route :=
| RRegister (b : res RegisterRequest) | RLogin (ip : string) (b : res LoginBody) | RRefresh (b : res string)
| RVerifyEmail (b : res string) | RMFAVerify (b : res MFAVerifyRequest) | RVerifyPage
| RResendVerification | RVerifyPassword (b : res string) | RLogout | RGatewayTicket
| RGetMe | RUpdateMe (b : res UpdateUserRequest) | RDeleteMe (b : res string) | RGetProfile
| RMFAEnable (b : res string) | RMFAConfirm (b : res string) | RMFADisable (b : res MFADisableRequest)
| RMFACodes (b : res string).

(** Middleware before the handler: none; requireAuth and requireCSRF; requireVerifiedEmail too. *)
Inductive account_access := Anyone | SignedIn | SignedInVerified.
Inductive account_answer :=
| ASession (a : AuthResponse) | ALogin (a : login_answer) | ATokens (p : TokenPair) | APage (p : page)
| AMessage (m : string) | ATicket (t : string) | ANothing | AUser (u : Models.User)
| AProfile (u : Models.UserProfile) | ASetup (r : MFASetupResult) | ACodes (l : list string).

Section routes.
Context {U W : Type} `{UUIDLib U} `{Valkey W} `{IdGen U W} `{Clock W} `{JwtLib} `{NetMail}.
Context `{RandLib W} `{Argon2 W} `{CryptoLib} `{TotpLib W} `{ResponseCookies W}.
Context `{UserRepo U W} `{ServerRepo U W} `{Blocklist W} `{!Codec (InvalidationMessage U)}.
Context `{ApiErrors} `{AccountErrors}.
Context (h : Service W) (tmpl : verifyData → res string).

Definition account_access_of (x : account_route) : account_access :=
  match x with
  | RRegister _ | RLogin _ _ | RRefresh _ | RVerifyEmail _ | RMFAVerify _ | RVerifyPage => Anyone
  | RResendVerification | RVerifyPassword _ | RLogout | RGatewayTicket => SignedIn
  | RGetMe | RUpdateMe _ | RDeleteMe _ | RGetProfile
  | RMFAEnable _ | RMFAConfirm _ | RMFADisable _ | RMFACodes _ => SignedInVerified
  end.
Definition serve_account (x : account_route) (c : request U) : M W (response account_answer) :=
  let cfg := config h in
  match x with
  | RRegister b => respond ASession (AuthHandler.Register (U := U) h cfg b)
  | RLogin ip b => respond ALogin (AuthHandler.Login (U := U) h cfg ip b)
  | RRefresh b => respond ATokens (AuthHandler.Refresh h cfg c b)
  | RVerifyEmail b => respond ASession (AuthHandler.VerifyEmail (U := U) h cfg b)
  | RMFAVerify b => respond ASession (AuthHandler.MFAVerify (U := U) h cfg b)
  | RVerifyPage => respond APage (VerifyHandler.VerifyEmail h (ServerName cfg) tmpl c)
  | RResendVerification => respond AMessage (AuthHandler.ResendVerification h c)
  | RVerifyPassword b => respond (λ _, ANothing) (AuthHandler.VerifyPassword c b)
  | RLogout => respond (λ _, ANothing) (AuthHandler.Logout cfg c)
  | RGatewayTicket => respond ATicket (AuthHandler.GatewayTicket c)
  | RGetMe => respond AUser (UserHandler.GetMe c)
  | RUpdateMe b => respond AUser (UserHandler.UpdateMe c b)
  | RDeleteMe b => respond (λ _, ANothing) (UserHandler.DeleteMe h c b)
  | RGetProfile => respond AProfile (UserHandler.GetProfile c)
  | RMFAEnable b => respond ASetup (MFAHandler.Enable h c b)
  | RMFAConfirm b => respond ACodes (MFAHandler.Confirm h c b)
  | RMFADisable b => respond AMessage (MFAHandler.Disable h c b)
  | RMFACodes b => respond ACodes (MFAHandler.RegenerateCodes h c b)
  end.
Definition account_routes (x : account_route) (c : request U) : M W (response account_answer) :=
  let cfg := config h in
  let gate := RequireAuth (Expose (JWTSecret cfg)) (ServerURL cfg) cfg in
  match account_access_of x with
  | Anyone => serve_account x c
  | SignedIn => gate (RequireCSRF cfg (serve_account x)) c
  | SignedInVerified => gate (RequireCSRF cfg (RequireVerifiedEmail (serve_account x))) c
  end.
End routes.
