(* ===== verification/AccountProofs.v ===== *)
(** * Account requests change one account

    The footprint of every repository step, of every method of the service and of every handler:
    the rows of one account, beside the log of login attempts and the tombstones, which only
    grow.  A request that a caller makes about itself changes the caller's account only, and
    where the code asks for the password the caller has shown it. *)
From S2P Require Import Prelude GoStd Platform Permission PermCache PermInvalidate Validate Config.
From S2P Require Import Tokens Jwt Postgres Frames Domain UserDB UserInv Base64 AuthCrypto GuildTables GuildRepo Http MemberApi.
From S2P Require Import AuthService AuthProofs ApiLogic Cookies Routes AuthApi.
Open Scope Z_scope.

(** ** The footprint *)
Section footprint.
Context {U : Type} `{UUIDLib U} `{RandomUUID U}.
Implicit Types (d : tables U) (id : U).

(** Only rows of [id] differ. *)
Record one_account id d d' : Prop := {
  one_users : ∀ i, i ≠ id → users d' !! i = users d !! i;
  one_codes : filter (λ c, c_user c ≠ id) (mfa_recovery_codes d') =
              filter (λ c, c_user c ≠ id) (mfa_recovery_codes d);
  one_verifications : filter (λ v, v_user v ≠ id) (email_verifications d') =
                      filter (λ v, v_user v ≠ id) (email_verifications d);
  one_owner : server_owner d' = server_owner d;
  one_attempts : login_attempts d `prefix_of` login_attempts d';
  one_tombstones : deletion_tombstones d `prefix_of` deletion_tombstones d' }.
(** From tables that keep their invariant, to such tables. *)
Definition confined id d d' : Prop := db_inv d → db_inv d' ∧ one_account id d d'.

#[global] Instance one_account_preorder id : PreOrder (one_account id).
Proof.
  split.
  - by intros d; split.
  - intros d1 d2 d3 [] []; split; try congruence; try (by etrans; eauto).
    intros i Hi. rewrite <-(one_users0 i Hi). auto.
Qed.
#[global] Instance confined_preorder id : PreOrder (confined id).
Proof.
  split.
  - intros d Hd. by split.
  - intros d1 d2 d3 H1 H2 Hd. destruct (H1 Hd) as [Hd2 ?]. destruct (H2 Hd2) as [? ?].
    split; [done|by etrans].
Qed.

Definition takes {A} (g : M (tables U) A) id : Prop := ∀ d a d', g d = (Ok a, d') → confined id d d'.
Lemma takes_step {A} (g : M (tables U) A) id :
  preserves g → (∀ d a d', db_inv d → g d = (Ok a, d') → one_account id d d') → takes g id.
Proof. intros Hp Ho d a d' E Hd. eauto. Qed.
Lemma takes_read {A} (g : M (tables U) A) id : (∀ d, (g d).2 = d) → takes g id.
Proof. intros Hg d a d' E. specialize (Hg d). rewrite E in Hg. by simpl in Hg; subst. Qed.

Lemma one_set_users f id d :
  (∀ i, i ≠ id → f (users d) !! i = users d !! i) → one_account id d (set_users f d).
Proof. by intros Hf; split. Qed.
Lemma one_alter f id d : one_account id d (set_users (alter f id) d).
Proof. apply one_set_users. intros i Hi. by apply lookup_alter_ne. Qed.
Lemma one_set_codes f id d :
  filter (λ c, c_user c ≠ id) (f (mfa_recovery_codes d)) = filter (λ c, c_user c ≠ id) (mfa_recovery_codes d) →
  one_account id d (set_codes f d).
Proof. by intros Hf; split. Qed.
Lemma one_set_verifications f id d :
  filter (λ v, v_user v ≠ id) (f (email_verifications d)) = filter (λ v, v_user v ≠ id) (email_verifications d) →
  one_account id d (set_verifications f d).
Proof. by intros Hf; split. Qed.
Lemma one_set_attempts l id d : one_account id d (set_attempts (λ l', l' ++ l) d).
Proof. split; try done. by apply prefix_app_r. Qed.

(** A map over a list that leaves what the filter keeps alone. *)
Lemma filter_map_other {A} (P : A → Prop) `{∀ x, Decision (P x)} (f : A → A) (l : list A) :
  (∀ x, x ∈ l → P (f x) ↔ P x) → (∀ x, x ∈ l → P x → f x = x) → filter P (f <$> l) = filter P l.
Proof.
  induction l as [|x l IH]; intros Hiff Hid; [done|]. rewrite fmap_cons, !filter_cons.
  rewrite IH by (intros y Hy; auto using list_elem_of_further).
  pose proof (Hiff x (list_elem_of_here x l)). pose proof (Hid x (list_elem_of_here x l)).
  repeat case_decide; f_equal; naive_solver.
Qed.
Lemma filter_app_other {A} (P : A → Prop) `{∀ x, Decision (P x)} (l k : list A) :
  (∀ x, x ∈ k → ¬ P x) → filter P (l ++ k) = filter P l.
Proof. intros Hk. by rewrite filter_app, (filter_none _ k Hk), app_nil_r. Qed.
Lemma filter_drop_own {A} (g : A → U) id (l : list A) :
  filter (λ x, g x ≠ id) (filter (λ x, g x ≠ id) l) = filter (λ x, g x ≠ id) l.
Proof. induction l as [|x l IH]; [done|]. rewrite !filter_cons. case_decide; [|done]. rewrite filter_cons, decide_True by done. by f_equal. Qed.

Lemma unique_key {A B} (f : A → B) (l : list A) x y :
  NoDup (f <$> l) → x ∈ l → y ∈ l → f x = f y → x = y.
Proof.
  intros Hn [i Hi]%list_elem_of_lookup [j Hj]%list_elem_of_lookup E.
  assert (i = j) as ->; [|congruence].
  apply (NoDup_lookup _ i j (f x) Hn); rewrite list_lookup_fmap; [by rewrite Hi|by rewrite Hj, E].
Qed.

(** *** The steps of the repository *)
Lemma update_takes f id :
  (∀ u, User.ID (f u) = User.ID u ∧ User.Email (f u) = User.Email u ∧
        User.Username (f u) = User.Username u ∧ User.MFAEnabled (f u) = User.MFAEnabled u) →
  takes (Spec.update f id) id.
Proof.
  intros Hf. apply takes_step; [by apply update_preserves|]. intros d a d' _. unfold Spec.update.
  destruct (users d !! id) as [u|]; [|done]. intros [= _ <-]. apply one_set_users.
  intros i Hi. by rewrite lookup_insert_ne.
Qed.
Lemma Update_takes id p : takes (Spec.Update id p) id.
Proof.
  unfold Spec.Update. destruct (no_update p); [apply takes_read, lookup_reads|].
  by apply update_takes.
Qed.
Lemma Record_takes id email ip b : takes (Spec.RecordLoginAttempt email ip b) id.
Proof. intros d a d' [= _ <-] Hd. split; [by apply attempts_inv|apply one_set_attempts]. Qed.
Lemma Hash_takes id h : takes (Spec.UpdatePasswordHash id h) id.
Proof.
  intros d a d' [= _ <-] Hd. split; [by apply alter_inv; [apply hash_harmless|]|apply one_alter].
Qed.
Lemma Replace_takes id t e c : takes (Spec.ReplaceVerificationToken id t e c) id.
Proof.
  apply takes_step; [apply Replace_preserves|]. intros d a d' _. unfold Spec.ReplaceVerificationToken.
  do 3 (destruct (bool_decide _); [done|]). intros [= _ <-]. apply one_set_verifications.
  rewrite filter_app_other by (intros v ->%list_elem_of_singleton; simpl; tauto).
  apply filter_map_other; intros v _; destruct (pending_of id (db_now d) v) eqn:E; try done.
  intros Hv. unfold pending_of in E. apply andb_true_iff in E as [E _].
  by apply bool_decide_eq_true in E || (apply andb_true_iff in E as [E%bool_decide_eq_true _]).
Qed.
Lemma VerifyEmail_takes t d id d' : Spec.VerifyEmail t d = (Ok id, d') → confined id d d'.
Proof.
  intros E Hd. split; [by eapply VerifyEmail_preserves|]. unfold Spec.VerifyEmail in E.
  destruct (filter _ (email_verifications d)) as [|v l] eqn:Ef; [done|]. injection E as <- <-.
  etrans; [|apply one_alter]. apply one_set_verifications.
  assert (Hhit : ∀ x, x ∈ email_verifications d → usable t (db_now d) x = true → v_user x = v_user v).
  { intros x Hx Hu. assert (v ∈ email_verifications d ∧ usable t (db_now d) v = true) as [Hv Huv].
    { assert (v ∈ v :: l) as Hin by left. rewrite <-Ef in Hin. by apply list_elem_of_filter in Hin as [? ?]. }
    apply usable_iff in Hu as (Ht & _), Huv as (Htv & _).
    by rewrite (unique_key v_token _ x v (inv_tokens _ Hd) Hx Hv) by congruence. }
  apply filter_map_other; intros x Hx; destruct (usable t (db_now d) x) eqn:E; try done.
  intros Hn. by destruct Hn; apply Hhit.
Qed.

(** New codes belong to the account. *)
Lemma copy_codes_one id hs d d' : copy_codes id hs d = (Ok tt, d') → one_account id d d'.
Proof.
  revert d. induction hs as [|h hs IH]; intros d E; [by injection E as <-|].
  unfold copy_codes in E. cbn [for_each] in E. apply bind_Ok_inv in E as ([] & d1 & E1 & E). apply IH in E.
  etrans; [|exact E]. clear E IH.
  unfold insert_code in E1. apply bind_Ok_inv in E1 as (c & d2 & E2 & E1).
  unfold next_uuid in E2. injection E2 as <- <-. apply bind_Ok_inv in E1 as (d3 & d4 & E3 & E1).
  unfold tables_now, gets in E3. injection E3 as <- <-.
  destruct (bool_decide (Exists _ _)); [done|]. destruct (bool_decide (_ = None)); [done|].
  unfold modify in E1. injection E1 as <-. split; try done. simpl.
  apply filter_app_other. intros x ->%list_elem_of_singleton. simpl. tauto.
Qed.
Lemma add_codes_one id hs d a d' : Spec.add_codes id hs d = (Ok a, d') → one_account id d d'.
Proof. destruct a. intros E%wrap_Ok_inv. by eapply copy_codes_one. Qed.
Lemma Enable_takes id s hs : takes (Spec.EnableMFA id s hs) id.
Proof.
  apply takes_step; [apply EnableMFA_preserves|]. intros d a d' _ E%add_codes_one.
  etrans; [apply one_alter|exact E].
Qed.
Lemma Codes_takes id hs : takes (Spec.ReplaceRecoveryCodes id hs) id.
Proof.
  apply takes_step; [apply ReplaceCodes_preserves|]. intros d a d' _ E%add_codes_one.
  etrans; [|exact E]. apply one_set_codes, filter_drop_own.
Qed.
Lemma Disable_takes id : takes (Spec.DisableMFA id) id.
Proof.
  apply takes_step; [apply DisableMFA_preserves|]. intros d a d' _ [= _ <-].
  etrans; [apply one_alter|]. apply one_set_codes, filter_drop_own.
Qed.
Lemma Delete_takes id ts : takes (Spec.DeleteWithTombstones id ts) id.
Proof.
  apply takes_step; [apply DeleteWithTombstones_preserves|]. intros d a d' _. unfold Spec.DeleteWithTombstones.
  do 3 (destruct (bool_decide _); [done|]). intros [= _ <-].
  assert (one_account id d (foldl (flip Spec.add_tombstone) d ts)) as Ht.
  { revert d. induction ts as [|t ts IH]; intros d; [done|]. simpl. etrans; [|apply IH].
    unfold Spec.add_tombstone. destruct (bool_decide _); [done|]. split; try done. by apply prefix_app_r. }
  etrans; [exact Ht|]. split; simpl; try done.
  - intros i Hi. by rewrite lookup_delete_ne.
  - apply filter_drop_own.
  - apply filter_drop_own.
Qed.
(** A used code is the account's, for identifiers are unique. *)
Lemma Use_takes id code d d' c :
  c ∈ mfa_recovery_codes d → c_user c = id → c_id c = code →
  Spec.UseRecoveryCode code d = (Ok tt, d') → confined id d d'.
Proof.
  intros Hc Hu Hid E Hd. split; [by eapply UseRecoveryCode_preserves|]. injection E as <-.
  apply one_set_codes.
  assert (Hown : ∀ x, x ∈ mfa_recovery_codes d → c_id x = code → c_user x = id).
  { intros x Hx Hxc. by rewrite (unique_key c_id _ x c (inv_codes _ Hd) Hx Hc) by congruence. }
  apply filter_map_other; intros x Hx; case_decide; try done.
  intros Hn. by destruct Hn; apply Hown.
Qed.
(** A new account has an identifier of its own. *)
Lemma Create_takes p d id d' : Spec.Create p d = (Ok id, d') → confined id d d' ∧ users d !! id = None.
Proof.
  intros E. assert (E' := E). unfold Spec.Create in E. cbn in E.
  destruct (decide _) as [|Hn]; [done|]. set (row := User.mkCredentials _ _ _) in E.
  assert (Hone : ∀ f, (∀ l, filter (λ v, v_user v ≠ gen_random_uuid (db_seq d)) (f l) =
                            filter (λ v, v_user v ≠ gen_random_uuid (db_seq d)) l) →
    one_account (gen_random_uuid (db_seq d)) d
      (set_verifications f (set_users <[gen_random_uuid (db_seq d) := row]> (next_uuid d).2))).
  { intros f Hf. split; try done; simpl; [|by rewrite Hf]. intros i Hi. by rewrite lookup_insert_ne. }
  assert (Hid : id = gen_random_uuid (db_seq d) ∧ one_account (gen_random_uuid (db_seq d)) d d').
  { destruct (bool_decide (User.cp_VerifyToken p = ""%string)).
    - injection E as <- <-. split; [done|]. exact (Hone (λ l, l) (λ l, eq_refl)).
    - destruct (bool_decide _); [done|]. injection E as <- <-. split; [done|].
      apply Hone. intros l. apply filter_app_other. intros x ->%list_elem_of_singleton. simpl. tauto. }
  destruct Hid as [-> Ho]. split.
  - intros Hd. split; [|done]. by eapply Create_preserves.
  - destruct (users d !! gen_random_uuid (db_seq d)) as [u|] eqn:Eu; [|done]. destruct Hn. left. rewrite Eu. by eexists.
Qed.
End footprint.

(** ** Following the code *)
Section moving.
Context {DB W : Type} `{PostgresLaws DB W} (T : DB → DB → Prop) `{!PreOrder T}.
Abbreviation view := (pg_view (DB := DB) (W := W)).

Lemma moves_bind {A B} (m : M W A) (k : A → M W B) : moves m T → (∀ a, moves (k a) T) → moves (m ≫= k) T.
Proof.
  intros Hm Hk w r w' E. apply bind_inv in E as [(a & w1 & E1 & E)|(e & E1 & ->)]; [|by eapply Hm].
  apply Hm in E1. apply Hk in E. by etrans.
Qed.
Lemma moves_catch {A B} (m : M W A) f (k : A → M W B) :
  moves m T → (∀ e, moves (f e) T) → (∀ a, moves (k a) T) → moves (catch m f k) T.
Proof.
  intros Hm Hf Hk w r w' E. apply catch_inv in E as [(a & w1 & E1 & E)|(e & w1 & E1 & E)]; apply Hm in E1;
    [apply Hk in E|apply Hf in E]; by etrans.
Qed.
Lemma moves_map_err {A} f (m : M W A) : moves m T → moves (map_err f m) T.
Proof. intros Hm w r w' E. apply map_err_inv in E as (r0 & E & _). by eapply Hm. Qed.
Lemma moves_wrap {A} c (m : M W A) : moves m T → moves (wrap c m) T.
Proof. apply moves_map_err. Qed.
Lemma moves_try {A} (m : M W A) : moves m T → moves (try m) T.
Proof. intros Hm w r w' E. apply try_inv in E as (r0 & _ & E). by eapply Hm. Qed.
Lemma moves_best_effort {A} (m : M W A) : moves m T → moves (best_effort m) T.
Proof. intros Hm w r w' E. apply best_effort_inv in E as (_ & r0 & E). by eapply Hm. Qed.
Lemma keeps_moves {A} (m : M W A) : keeps view m → moves m T.
Proof. intros Hm. by apply moves_keeps. Qed.
Lemma implements_does {A V} (obs : W → V) (m : M W A) (g : M DB A) (Q : DB → DB → Prop) :
  implements obs m g → (∀ d, Q d d) → (∀ d a d', g d = (Ok a, d') → Q d d') → moves m Q.
Proof.
  intros Hm Hr HQ w r w' E. apply Hm in E as [[(d & Hd & ->)|(e & -> & _ & [->|(a & d & Hd & ->)])] _]; [|done|eauto].
  destruct r; [eauto|done].
Qed.
Lemma implements_moves {A V} (obs : W → V) (m : M W A) (g : M DB A) :
  implements obs m g → (∀ d a d', g d = (Ok a, d') → T d d') → moves m T.
Proof. intros Hm HT. by eapply implements_does. Qed.
Lemma moves_read {A B} (m : M W A) (k : A → M W B) (P : DB → A → Prop) (Q : DB → DB → Prop) :
  reads m P → (∀ d, Q d d) → (∀ a, moves (k a) (λ d d', P d a → Q d d')) → moves (m ≫= k) Q.
Proof.
  intros Hm HQ Hk w r w' E. apply bind_inv in E as [(a & w1 & E1 & E)|(e & E1 & ->)]; apply Hm in E1 as [Hv HP].
  - apply Hk in E. rewrite Hv in E. auto.
  - rewrite Hv. apply HQ.
Qed.
Lemma moves_weaken {A} (m : M W A) (Q Q' : DB → DB → Prop) : moves m Q → (∀ d d', Q d d' → Q' d d') → moves m Q'.
Proof. intros Hm HQ w r w' E. by apply HQ, (Hm _ _ _ E). Qed.
Lemma keeps_then {A B} (m : M W A) (k : A → M W B) (Q : DB → DB → Prop) :
  keeps view m → (∀ d, Q d d) → (∀ a, moves (k a) Q) → moves (m ≫= k) Q.
Proof.
  intros Hm HQ Hk w r w' E. apply bind_inv in E as [(a & w1 & E1 & E)|(e & E1 & ->)];
    pose proof (keeps_run view _ _ _ _ Hm E1) as Hv; [|rewrite Hv; apply HQ].
  apply Hk in E. by rewrite Hv in E.
Qed.
Lemma then_keeps {A B} (m : M W A) (k : A → M W B) (Q : DB → DB → Prop) :
  moves m Q → (∀ a, keeps view (k a)) → moves (m ≫= k) Q.
Proof.
  intros Hm Hk w r w' E. apply bind_inv in E as [(a & w1 & E1 & E)|(e & E1 & ->)]; [|by eapply Hm].
  rewrite (keeps_run view _ _ _ _ (Hk a) E). by eapply Hm.
Qed.
(** A read that must succeed before anything is written. *)
Lemma writes_gate {A B} (m : M W A) (k : A → M W B) (P : DB → A → Prop) (Q : DB → Prop) :
  reads m P → (∀ d a, P d a → Q d) → (∀ a, moves (k a) T) → writes (m ≫= k) (λ d d', Q d ∧ T d d').
Proof.
  intros Hm HQ Hk w r w' E. apply bind_inv in E as [(a & w1 & E1 & E)|(e & E1 & ->)]; apply Hm in E1 as [Hv HP].
  - apply Hk in E. rewrite Hv in E. left. eauto.
  - right. eauto.
Qed.
Lemma implements_reads {A V} (obs : W → V) (m : M W A) (g : M DB A) (P : DB → A → Prop) :
  implements obs m g → (∀ d, (g d).2 = d) → (∀ d a, (g d).1 = Ok a → P d a) → reads m P.
Proof.
  intros Hm Hg HP w r w' E. apply (implements_read _ _ _ _ _ _ Hm) in E as [Hv [Hr|(e & -> & _)]]; [|done..].
  split; [done|]. destruct r; [|done]. apply HP. by rewrite Hr.
Qed.
End moving.

Ltac moves_step :=
  match goal with
  | |- moves (_ ≫= _) _ => apply moves_bind; [apply _| |intros ?]
  | |- moves (catch _ _ _) _ => apply moves_catch; [apply _| |intros ?|intros ?]
  | |- moves (map_err _ _) _ => apply moves_map_err
  | |- moves (wrap _ _) _ => apply moves_wrap
  | |- moves (try _) _ => apply moves_try
  | |- moves (best_effort _) _ => apply moves_best_effort
  | |- moves (match ?x with _ => _ end) _ => destruct x
  end.
Create HintDb moves.
Ltac moves := repeat (first [solve [eauto 2 with moves]|moves_step]);
  try (apply keeps_moves; [apply _|keeps]).

Section service.
Context {U W : Type} `{UUIDLaws U} `{RandomUUID U} `{ValkeyLaws W} `{IdGen U W}.
Context `{PostgresLaws (tables U) W} `{UserRepo U W} `{!UserRepoLaws (vk_view (W := W))}.
Context `{Clock W} `{JwtLib} `{NetMail} `{RandLib W} `{Argon2 W} `{CryptoLib} `{TotpLib W}.
Context `{ServerRepo U W} `{Blocklist W} `{!Codec (InvalidationMessage U)}.
Context `{!EnvFrame U (pg_view (DB := tables U) (W := W))} `{!ValkeyFrame (pg_view (DB := tables U) (W := W))}.
Abbreviation view := (pg_view (DB := tables U) (W := W)).
Context (h : Service W) (Hsender : ∀ a b c d, keeps view (sender h a b c d)).
Implicit Types (id : U).
Abbreviation vk := (vk_view (W := W)).

(** *** The repository *)
Lemma GetByID_reads id : reads (users_GetByID id) (λ d u, ∃ c, users d !! id = Some c ∧ u = scanUser c).
Proof.
  refine (implements_reads vk _ _ _ (users_GetByID_ok vk id) (lookup_reads _ _) _).
  intros d a. unfold Spec.GetByID, Spec.lookup, by_id. destruct (users d !! id); naive_solver.
Qed.
Lemma GetByEmail_reads email : reads (users_GetByEmail (U := U) email)
  (λ d u, ∃ c, by_email email d = Some c ∧ u = scanCredentials c).
Proof.
  refine (implements_reads vk _ _ _ (users_GetByEmail_ok vk email) (lookup_reads _ _) _).
  intros d a. unfold Spec.GetByEmail, Spec.lookup. destruct (by_email email d); naive_solver.
Qed.
Lemma GetCredentials_reads id : reads (users_GetCredentialsByID id)
  (λ d u, ∃ c, users d !! id = Some c ∧ u = scanCredentials c).
Proof.
  refine (implements_reads vk _ _ _ (users_GetCredentialsByID_ok vk id) (lookup_reads _ _) _).
  intros d a. unfold Spec.GetCredentialsByID, Spec.lookup, by_id. destruct (users d !! id); naive_solver.
Qed.
Lemma Tombstone_keeps t x : keeps view (users_CheckTombstone (U := U) t x).
Proof.
  by refine (reads_keeps _ _ (implements_reads vk _ _ (λ _ _, True) (users_CheckTombstone_ok vk t x) _ _)).
Qed.
Lemma GetByID_keeps id : keeps view (users_GetByID id).
Proof. eapply reads_keeps, GetByID_reads. Qed.
Lemma GetCredentials_keeps id : keeps view (users_GetCredentialsByID id).
Proof. eapply reads_keeps, GetCredentials_reads. Qed.
Hint Resolve GetByID_keeps GetCredentials_keeps Tombstone_keeps : keeps.

Ltac repo_step lem tk := refine (implements_moves _ vk _ _ lem tk).
Lemma Record_moves id e ip b : moves (users_RecordLoginAttempt (U := U) e ip b) (confined id).
Proof. repo_step (users_RecordLoginAttempt_ok vk e ip b) (Record_takes id e ip b). Qed.
Lemma Hash_moves id x : moves (users_UpdatePasswordHash id x) (confined id).
Proof. repo_step (users_UpdatePasswordHash_ok vk id x) (Hash_takes id x). Qed.
Lemma Update_moves id p : moves (users_Update id p) (confined id).
Proof. repo_step (users_Update_ok vk id p) (Update_takes id p). Qed.
Lemma Replace_moves id t e c : moves (users_ReplaceVerificationToken id t e c) (confined id).
Proof. repo_step (users_ReplaceVerificationToken_ok vk id t e c) (Replace_takes id t e c). Qed.
Lemma Enable_moves id s hs : moves (users_EnableMFA id s hs) (confined id).
Proof. repo_step (users_EnableMFA_ok vk id s hs) (Enable_takes id s hs). Qed.
Lemma Disable_moves id : moves (users_DisableMFA id) (confined id).
Proof. repo_step (users_DisableMFA_ok vk id) (Disable_takes id). Qed.
Lemma Codes_moves id hs : moves (users_ReplaceRecoveryCodes id hs) (confined id).
Proof. repo_step (users_ReplaceRecoveryCodes_ok vk id hs) (Codes_takes id hs). Qed.
Lemma Delete_moves id ts : moves (users_DeleteWithTombstones id ts) (confined id).
Proof. repo_step (users_DeleteWithTombstones_ok vk id ts) (Delete_takes id ts). Qed.
Hint Resolve Record_moves Hash_moves Update_moves Replace_moves Enable_moves Disable_moves Codes_moves
  Delete_moves : moves.

(** *** The service *)
Definition showed id (password : string) (d : tables U) : Prop := ∃ u,
  users d !! id = Some u ∧ VerifyPassword (W := W) password (User.PasswordHash u) = Ok true.

Lemma with_password_reads c1 c2 id password :
  reads (with_password c1 c2 id password) (λ d c, ∃ u, users d !! id = Some u ∧ c = scanCredentials u ∧
    VerifyPassword (W := W) password (User.PasswordHash u) = Ok true).
Proof.
  eapply reads_bind; [apply reads_wrap, GetCredentials_reads|]. intros c.
  eapply reads_bind; [apply reads_wrap, reads_of_res; intros d b Hb; exact Hb|]. intros b.
  destruct b; [|apply reads_fail]. apply reads_ret. intros d Hb (u & Hu & ->). by exists u.
Qed.
Lemma generateSecureToken_keeps n : keeps view (generateSecureToken n).
Proof. unfold generateSecureToken. keeps. Qed.
Hint Resolve generateSecureToken_keeps : keeps.

Lemma password_writes {A} c1 c2 id password (k : User.Credentials U → M W A) (T : tables U → tables U → Prop)
    `{!PreOrder T} :
  (∀ u, moves (k u) T) →
  writes (with_password c1 c2 id password ≫= k) (λ d d', showed id password d ∧ T d d').
Proof.
  intros Hk. refine (writes_gate _ _ _ _ (showed id password) (with_password_reads c1 c2 id password) _ _); [|auto].
  intros d a (u & Hu & _ & Hp). by exists u.
Qed.
Lemma VerifyUserPassword_writes id password :
  writes (VerifyUserPassword id password) (λ d d', showed id password d ∧ d = d').
Proof. apply password_writes; [apply _|]. intros u. by moves. Qed.
Lemma StorePending_kept id e : keeps view (StorePendingMFASecret id e).
Proof. apply (pending_keeps view id e). Qed.
Lemma ConsumePending_kept id : keeps view (ConsumePendingMFASecret id).
Proof. apply (pending_keeps view id ""). Qed.
Lemma Increment_kept id : keeps view (IncrementMFASetupAttempts id).
Proof. apply (pending_keeps view id ""). Qed.
Lemma ResetAttempts_kept id : keeps view (ResetMFASetupAttempts id).
Proof. apply (pending_keeps view id ""). Qed.
Hint Resolve StorePending_kept ConsumePending_kept Increment_kept ResetAttempts_kept : keeps.
Lemma fail_writes {A} e (S : tables U → tables U → Prop) : writes (fail (A := A) e : M W A) S.
Proof. intros w r w' [= <- <-]. right. eauto. Qed.
Lemma BeginMFASetup_writes id password :
  writes (BeginMFASetup h id password) (λ d d', showed id password d ∧ d = d').
Proof.
  unfold BeginMFASetup. destruct (negb _); [apply fail_writes|]. apply password_writes; [apply _|]. intros u.
  destruct (User.MFAEnabled _); moves; unfold EncryptTOTPSecret; keeps.
Qed.
Lemma tryRecoveryCode_moves id code : moves (tryRecoveryCode id code) (confined id).
Proof.
  eapply (moves_read _ _ (λ d codes, ∀ rc, rc ∈ codes → ∃ c, c ∈ mfa_recovery_codes d ∧ c_user c = id ∧ c_id c = User.code_ID rc)).
  - apply reads_wrap. refine (implements_reads vk _ _ _ (users_GetUnusedRecoveryCodes_ok vk id) _ _); [done|].
    intros d a [= <-] rc Hrc. apply list_elem_of_fmap in Hrc as (c & -> & [[Hu Hn] Hc]%list_elem_of_filter).
    by exists c.
  - done.
  - intros codes. destruct (foldl _ None codes) as [rc|] eqn:E; [|by apply moves_keeps].
    apply matching_code in E as [Hin _]. apply moves_wrap.
    refine (implements_does vk _ _ _ (users_UseRecoveryCode_ok vk _) _ _); [done|].
    intros d [] d' Ed Hc. destruct (Hc rc Hin) as (c & Hc1 & Hc2 & Hc3). by eapply Use_takes.
Qed.

Hint Resolve tryRecoveryCode_moves : moves.
Lemma second_factor_moves ctx secret code id : moves (check_second_factor ctx secret code id) (confined id).
Proof. unfold check_second_factor. moves. Qed.
Hint Resolve second_factor_moves : moves.
Lemma issueTokens_kept id ver : keeps view (issueTokens h id ver).
Proof. exact (issueTokens_keeps view h id ver). Qed.
Hint Resolve issueTokens_kept : keeps.

Lemma DisableMFA_writes id password code :
  writes (DisableMFA h id password code) (λ d d', showed id password d ∧ confined id d d').
Proof.
  apply password_writes; [apply _|]. intros u. destruct (User.MFAEnabled _), (User.MFASecret u); try by apply moves_keeps.
  destruct (negb _); [by apply moves_keeps|]. unfold decrypt_secret. moves.
Qed.
Lemma RegenerateRecoveryCodes_writes id password :
  writes (RegenerateRecoveryCodes h id password) (λ d d', showed id password d ∧ confined id d d').
Proof.
  apply password_writes; [apply _|]. intros u. destruct (negb _); [by apply moves_keeps|].
  unfold GenerateRecoveryCodes. moves.
Qed.
Lemma ConfirmMFASetup_moves id code : moves (ConfirmMFASetup h id code) (confined id).
Proof.
  unfold ConfirmMFASetup, decrypt_secret, GenerateRecoveryCodes.
  moves.
Qed.
Lemma DeleteAccount_writes id password :
  writes (DeleteAccount h id password) (λ d d', showed id password d ∧ confined id d d').
Proof. apply password_writes; [apply _|]. intros u. unfold server_HMAC. moves. Qed.
Lemma ResendVerification_moves id : moves (ResendVerification h id) (confined id).
Proof. unfold ResendVerification. moves. Qed.

(** *** Sessions: of whom, the request says *)
Definition somebody (d d' : tables U) : Prop := ∃ id, confined id d d'.
Lemma somebody_refl d : somebody d d.
Proof. by exists uuid_Nil. Qed.
Lemma somebody_moves {A} (m : M W A) id : moves m (confined id) → moves m somebody.
Proof. intros Hm. eapply moves_weaken; [exact Hm|]. intros d d' Hc. by exists id. Qed.
Hint Resolve somebody_refl : core.

Lemma rotate_hash_moves u password : moves (rotate_hash (U := U) h u password) (confined (User.ID (User.cred_User u))).
Proof. unfold rotate_hash. moves. Qed.
Lemma attempt_moves id email ip b : moves (recordLoginAttempt (U := U) email ip b) (confined id).
Proof. unfold recordLoginAttempt. moves. Qed.
Hint Resolve rotate_hash_moves attempt_moves : moves.
Lemma Login_moves req : moves (Login (U := U) h req) somebody.
Proof.
  unfold Login. apply keeps_then; [done|done|]. intros [email dom].
  apply keeps_then; [apply keeps_try; eapply reads_keeps, GetByEmail_reads|done|]. intros [u|err].
  - apply (somebody_moves _ (User.ID (User.cred_User u))). cbv zeta. moves.
  - apply (somebody_moves _ uuid_Nil). moves.
Qed.
Lemma Register_moves req : moves (Register (U := U) h req) somebody.
Proof.
  unfold Register, server_HMAC, check_tombstone.
  apply keeps_then; [done..|]. intros [email dom].
  do 11 (apply keeps_then; [keeps; by apply (blocklist_keeps (U := U))|done|intros ?]).
  apply then_keeps; [|intros id; keeps].
  apply moves_map_err. refine (implements_does vk _ _ _ (users_Create_ok vk _) somebody_refl _).
  intros d id d' E. exists id. by eapply Create_takes.
Qed.
Lemma VerifyEmail_moves token : moves (VerifyEmail (U := U) h token) somebody.
Proof.
  apply then_keeps; [|intros id; keeps]. apply moves_map_err.
  refine (implements_does vk _ _ _ (users_VerifyEmail_ok vk token) somebody_refl _).
  intros d id d' E. exists id. by eapply VerifyEmail_takes.
Qed.
Lemma VerifyMFA_moves ticket code : moves (VerifyMFA (U := U) h ticket code) somebody.
Proof.
  unfold VerifyMFA, completeMFALogin, decrypt_secret.
  apply keeps_then; [exact (consume_ticket_keeps view _ _ _)|done|]. intros id. apply (somebody_moves _ id). moves.
Qed.
Lemma Refresh_kept t : keeps view (Refresh (U := U) h t).
Proof.
  unfold Refresh. apply keeps_bind; [apply keeps_try; exact (ValidateRefreshToken_keeps view t)|]. intros r1.
  apply keeps_bind; [apply keeps_try; exact (RotateRefreshToken_keeps view t _)|]. intros [[t2 id]|e]; keeps.
Qed.
End service.

(** ** The requests *)
Class CookieFrame {W V : Type} `{ResponseCookies W} (obs : W → V) : Prop := {
  c_Cookie_keeps : ∀ ck w, obs (c_Cookie ck w) = obs w }.

(** What the code asks of a request, by its route. *)
Definition public (x : account_route) : bool :=
  match x with
  | RRegister _ | RLogin _ _ | RRefresh _ | RVerifyEmail _ | RMFAVerify _ | RVerifyPage => true
  | _ => false
  end.
Definition needs_verified (x : account_route) : bool :=
  match x with
  | RGetMe | RUpdateMe _ | RDeleteMe _ | RGetProfile | RMFAEnable _ | RMFAConfirm _ | RMFADisable _ | RMFACodes _ => true
  | _ => false
  end.
Definition password_of (x : account_route) : option string :=
  match x with
  | RVerifyPassword (Ok p) | RDeleteMe (Ok p) | RMFAEnable (Ok p) | RMFACodes (Ok p) => Some p
  | RMFADisable (Ok b) => Some (md_Password b)
  | _ => None
  end.
Definition read_only (x : account_route) : bool :=
  match x with
  | RVerifyPassword _ | RLogout | RGatewayTicket | RGetMe | RGetProfile | RMFAEnable _ => true
  | _ => false
  end.

Section requests.
Context {U W : Type} `{UUIDLaws U} `{RandomUUID U} `{ValkeyLaws W} `{IdGen U W}.
Context `{PostgresLaws (tables U) W} `{UserRepo U W} `{!UserRepoLaws (vk_view (W := W))}.
Context `{Clock W} `{JwtLib} `{NetMail} `{RandLib W} `{Argon2 W} `{CryptoLib} `{TotpLib W}.
Context `{ServerRepo U W} `{Blocklist W} `{!Codec (InvalidationMessage U)} `{ResponseCookies W}.
Context `{!EnvFrame U (pg_view (DB := tables U) (W := W))} `{!ValkeyFrame (pg_view (DB := tables U) (W := W))}.
Context `{!CookieFrame (pg_view (DB := tables U) (W := W))} `{ApiErrors} `{AccountErrors}.
Abbreviation view := (pg_view (DB := tables U) (W := W)).
Context (h : Service W) (Hsender : ∀ a b c d, keeps view (sender h a b c d)).
Context (tmpl : verifyData → res string).
Implicit Types (id : U) (c : request U) (x : account_route).

Lemma set_cookie_keeps ck : keeps view (modify (c_Cookie ck)).
Proof. intros w. apply c_Cookie_keeps. Qed.
Hint Resolve set_cookie_keeps : keeps.
Lemma SetAuthCookies_keeps cfg a r : keeps view (SetAuthCookies cfg a r).
Proof. unfold SetAuthCookies, generateSecureToken. keeps. Qed.
Lemma ClearAuthCookies_keeps cfg : keeps view (ClearAuthCookies (W := W) cfg).
Proof. unfold ClearAuthCookies. keeps. Qed.
Hint Resolve SetAuthCookies_keeps ClearAuthCookies_keeps : keeps.

Ltac refuse_each :=
  repeat match goal with |- refuses (if ?b then _ else _) => destruct b; [by apply Fail_refuses|] end;
  apply internal_refuses.
Lemma mapAuth_refuses {A} e : refuses (mapAuthServiceError (W := W) (A := A) e).
Proof. unfold mapAuthServiceError. refuse_each. Qed.
Lemma mapUser_refuses {A} e : refuses (UserHandler.mapUserError (W := W) (A := A) e).
Proof. unfold UserHandler.mapUserError. refuse_each. Qed.
Lemma refuses_kept {A} (m : M W (response A)) : refuses m → keeps view m.
Proof. intros Hm w. destruct (m w) as [r w'] eqn:E. by apply Hm in E as [? _]. Qed.
Hint Resolve mapAuth_refuses mapUser_refuses : refuses.
Lemma mapAuth_kept {A} e : keeps view (mapAuthServiceError (W := W) (A := A) e).
Proof. apply refuses_kept, mapAuth_refuses. Qed.
Hint Resolve mapAuth_kept : keeps.

(** *** Handlers *)
Lemma handles_required {A} ok msg (k : M W (response A)) Q : handles k Q → handles (required ok msg k) Q.
Proof. intros Hk. unfold required. destruct ok; [done|]. by apply handles_refuse, Fail_refuses. Qed.
Lemma Success_kept {A} (a : A) : keeps view (Success (W := W) a).
Proof. done. Qed.
Lemma SuccessStatus_kept {A} st (a : A) : keeps view (SuccessStatus (W := W) st a).
Proof. done. Qed.
Hint Resolve Success_kept SuccessStatus_kept : keeps.

Lemma handles_respond {A B} (f : A → B) (m : M W (response A)) (Q : tables U → tables U → Prop) :
  handles m Q → handles (respond f m) Q.
Proof.
  intros Hm w r w' E. apply bind_inv in E as [(a & w1 & E1 & E)|(e & E1 & ->)]; apply Hm in E1 as [?|[? ?]].
  - injection E as <- <-. by left.
  - injection E as <- <-. by right.
  - by left.
  - by right.
Qed.
Lemma handles_caller {A} c id (k : U → M W (response A)) (Q : tables U → tables U → Prop) :
  Locals_userID c = Some id → handles (k id) Q → handles (UserID c ≫= k) Q.
Proof. intros Hu Hk. unfold UserID. by rewrite Hu. Qed.
Lemma handles_kept {A} (m : M W (response A)) (Q : tables U → tables U → Prop) :
  (∀ d, Q d d) → keeps view m → handles m Q.
Proof. intros HQ Hm. by apply moves_handles, moves_keeps. Qed.
Lemma handles_step {A B} (m : M W A) (f : error → M W (response B)) (k : A → M W (response B)) id :
  moves m (confined id) → (∀ e, keeps view (f e)) → (∀ a, keeps view (k a)) →
  handles (catch m f k) (confined id).
Proof. intros Hm Hf Hk. apply moves_handles. moves; by apply keeps_moves; [apply _|]. Qed.

(** What a private request of [id] may do, by its route. *)
Definition own_request x id (d d' : tables U) : Prop :=
  (∀ p, password_of x = Some p → showed (W := W) id p d) ∧ (read_only x = true → d = d') ∧ confined id d d'.
Lemma confined_same id (d : tables U) : confined id d d.
Proof. reflexivity. Qed.
Hint Resolve confined_same : core.
Lemma own_reads {A} x id (m : M W (response A)) :
  password_of x = None → keeps view m → handles m (own_request x id).
Proof. intros Hx Hm. apply handles_kept; [|done]. intros d. by unfold own_request; rewrite Hx. Qed.
Lemma own_writes {A} x id (m : M W (response A)) :
  password_of x = None → read_only x = false → handles m (confined id) → handles m (own_request x id).
Proof. intros Hx Hr Hm. eapply handles_weaken; [exact Hm|]. intros d d' Hc. by unfold own_request; rewrite Hx, Hr. Qed.
Lemma own_password {A B} x id p (T : tables U → tables U → Prop) (m : M W A) (k : A → M W (response B)) :
  password_of x = Some p → writes m (λ d d', showed (W := W) id p d ∧ T d d') →
  (∀ d d', T d d' → (read_only x = true → d = d') ∧ confined id d d') →
  (∀ a, keeps view (k a)) → handles (catch m mapAuthServiceError k) (own_request x id).
Proof.
  intros Hx Hm HT Hk. eapply handles_write; [exact Hm|apply mapAuth_refuses|exact Hk|].
  intros d d' [Hs Hc]. split; [|by apply HT]. intros q Hq. rewrite Hx in Hq. by injection Hq as <-.
Qed.
Lemma GatewayTicket_kept id : keeps view (IssueGatewayTicket id).
Proof. exact (create_ticket_keeps view _ _ _ _). Qed.
Lemma Revoke_kept id : keeps view (RevokeAllUserTokens id).
Proof. exact (RevokeAll_keeps view id). Qed.
Lemma catch_kept {A B} (m : M W A) (f : error → M W (response B)) (k : A → M W (response B)) :
  keeps view m → (∀ e, keeps view (f e)) → (∀ a, keeps view (k a)) → keeps view (catch m f k).
Proof.
  intros Hm Hf Hk w. unfold catch. specialize (Hm w). destruct (m w) as [[a|e] w1]; simpl in *;
    [by rewrite (Hk a w1)|by rewrite (Hf e w1)].
Qed.
Lemma GetUser_kept {A} id (k : User.User U → M W (response A)) :
  (∀ u, keeps view (k u)) → keeps view (catch (users_GetByID id) UserHandler.mapUserError k).
Proof. intros Hk. apply catch_kept; [eapply reads_keeps, GetByID_reads|intros e; apply refuses_kept, mapUser_refuses|done]. Qed.
Lemma handles_check {A} (m : res unit) (k : unit → M W (response A)) (Q : tables U → tables U → Prop) :
  handles (k tt) Q → handles (catch (of_res m) UserHandler.mapUserError k) Q.
Proof.
  intros Hk. eapply (handles_read _ _ _ (λ _ _, True)); [by apply reads_of_res|apply mapUser_refuses|].
  intros []. eapply handles_weaken; [exact Hk|]. auto.
Qed.
Lemma UpdateMe_handles c id b :
  Locals_userID c = Some id → handles (UserHandler.UpdateMe c b) (confined id).
Proof.
  intros Hid. eapply handles_caller; [exact Hid|]. apply handles_Bind. intros body _. cbv zeta.
  do 5 apply handles_check. apply handles_step; [apply Update_moves|intros e; apply refuses_kept, mapUser_refuses|keeps].
Qed.
Lemma serve_private x c id :
  public x = false → Locals_userID c = Some id → handles (serve_account h tmpl x c) (own_request x id).
Proof.
  intros Hx Hid. destruct x; try done; cbn [serve_account]; apply handles_respond.
  6: { apply own_writes; [done..|]. by apply UpdateMe_handles. }
  all: try (eapply handles_caller; [exact Hid|]).
  all: try (apply handles_Bind; intros body ->; apply handles_required).
  - apply own_writes; [done..|]. apply handles_step; [by apply ResendVerification_moves|keeps|keeps].
  - eapply own_password; [done|apply VerifyUserPassword_writes|by intros d d' ->|done].
  - apply own_reads; [done|]. keeps.
  - apply own_reads; [done|]. apply catch_kept; [apply GatewayTicket_kept|done|done].
  - apply own_reads; [done|]. by apply GetUser_kept.
  - eapply own_password; [done|by apply DeleteAccount_writes|done|done].
  - apply own_reads; [done|]. unfold UserHandler.GetProfile, ParseUUIDParam. destruct (uuid_Parse _); [|done]. by apply GetUser_kept.
  - eapply own_password; [done|apply BeginMFASetup_writes|by intros d d' ->|done].
  - apply own_writes; [done..|]. apply handles_step; [by apply ConfirmMFASetup_moves|keeps|keeps].
  - eapply own_password; [done|by apply DisableMFA_writes|done|done].
  - eapply own_password; [done|by apply RegenerateRecoveryCodes_writes|done|done].
Qed.

(** The requests nobody signs in for: they change one account too. *)
Lemma catch_then {A B} (m : M W A) (f : error → M W (response B)) (k : A → M W (response B)) (Q : tables U → tables U → Prop) :
  moves m Q → (∀ e, keeps view (f e)) → (∀ a, keeps view (k a)) → moves (catch m f k) Q.
Proof.
  intros Hm Hf Hk w r w' E. apply catch_inv in E as [(a & w1 & E1 & E)|(e & w1 & E1 & E)].
  - rewrite (keeps_run view _ _ _ _ (Hk a) E). by eapply Hm.
  - rewrite (keeps_run view _ _ _ _ (Hf e) E). by eapply Hm.
Qed.
Lemma Bind_moves {A B} (x : res B) (k : B → M W (response A)) (Q : tables U → tables U → Prop) :
  (∀ d, Q d d) → (∀ b, moves (k b) Q) → moves (Bind x k) Q.
Proof. intros HQ Hk. unfold Bind. destruct x; [done|]. by apply moves_keeps. Qed.
Lemma required_moves {A} ok msg (k : M W (response A)) (Q : tables U → tables U → Prop) :
  (∀ d, Q d d) → moves k Q → moves (required ok msg k) Q.
Proof. intros HQ Hk. unfold required. destruct ok; [done|]. by apply moves_keeps. Qed.
Lemma renderPage_kept st data : keeps view (VerifyHandler.renderPage tmpl st data).
Proof. unfold VerifyHandler.renderPage. by destruct (tmpl data). Qed.
Hint Resolve renderPage_kept : keeps.
Hint Resolve somebody_refl : core.
Lemma serve_public x c : public x = true → moves (serve_account h tmpl x c) somebody.
Proof.
  intros Hx. destruct x; try done; cbn [serve_account]; (apply then_keeps; [|done]).
  all: try apply Bind_moves; try done.
  all: try (intros body; try (apply required_moves; [done|]); apply catch_then; [..|keeps|intros ?; keeps]).
  - by apply Register_moves.
  - by apply Login_moves.
  - apply moves_keeps; [apply Refresh_kept|done].
  - by apply VerifyEmail_moves.
  - by apply VerifyMFA_moves.
  - unfold VerifyHandler.VerifyEmail. cbv zeta. destruct (bool_decide _); [by apply moves_keeps; [keeps|]|].
    apply catch_then; [by apply VerifyEmail_moves|intros ?; keeps|keeps].
Qed.

(** A private request of a caller. *)
Definition signed_in (cfg : Config) x c (w : W) (caller : U) : Prop := ∃ tok src claims,
  credential cfg c = Some (Some (tok, src)) ∧
  (ValidateAccessToken tok (Expose (JWTSecret cfg)) (ServerURL cfg) w).1 = Ok claims ∧
  uuid_Parse (Subject claims) = Ok caller ∧
  (needs_verified x = true → EmailVerified claims = true) ∧
  (src = AuthSourceCookie → safe_method (Method c) = false →
   Header c "X-CSRF-Token" = Http.Cookies c (CSRFCookieName cfg) ∧ Header c "X-CSRF-Token" ≠ ""%string).

Lemma account_access_private x : public x = false → account_access_of x = if needs_verified x then SignedInVerified else SignedIn.
Proof. by destruct x. Qed.
Lemma account_access_public x : public x = true → account_access_of x = Anyone.
Proof. by destruct x. Qed.

(** C5: Account requests change one account.  Whatever the request and however it ends, the user
    tables keep their invariant and only the rows of one account differ.  A private request
    that succeeds or changes the tables carried a valid access token of its caller (with the
    CSRF token when it came in a cookie, and for a verified address where the route asks for
    that); the account is the caller's; where the route asks for the password it was shown; and
    the routes that only read leave the tables as they were. *)
Theorem account_requests_confined x c (w : W) r w' :
  account_routes h tmpl x c w = (r, w') →
  (∃ id, confined id (view w) (view w')) ∧
  (public x = false → succeeded r ∨ view w' ≠ view w →
   ∃ caller, signed_in (config h) x c w caller ∧ own_request x caller (view w) (view w')).
Proof.
  intros E. destruct (public x) eqn:Hx.
  { unfold account_routes in E. rewrite account_access_public in E by done.
    split; [|done]. exact (serve_public _ _ Hx _ _ _ E). }
  assert (Hpriv : (∃ caller, signed_in (config h) x c w caller ∧ own_request x caller (view w) (view w')) ∨
    (view w' = view w ∧ ¬ succeeded r)).
  { unfold account_routes in E. rewrite account_access_private in E by done. cbv zeta in E.
    assert (Hk : ∀ caller tok src claims,
      credential (config h) c = Some (Some (tok, src)) →
      (ValidateAccessToken tok (Expose (JWTSecret (config h))) (ServerURL (config h)) w).1 = Ok claims →
      uuid_Parse (Subject claims) = Ok caller →
      (needs_verified x = true → EmailVerified claims = true) →
      (src = AuthSourceCookie → safe_method (Method c) = false →
       Header c "X-CSRF-Token" = Http.Cookies c (CSRFCookieName (config h)) ∧ Header c "X-CSRF-Token" ≠ ""%string) →
      serve_account h tmpl x (with_identity c caller (EmailVerified claims) src) w = (r, w') →
      (∃ caller, signed_in (config h) x c w caller ∧ own_request x caller (view w) (view w')) ∨
      (view w' = view w ∧ ¬ succeeded r)).
    { intros caller tok src claims K1 K2 K3 K4 K5 Es.
      destruct (serve_private x (with_identity c caller (EmailVerified claims) src) caller Hx eq_refl _ _ _ Es)
        as [Ho|?]; [left|by right].
      exists caller. split; [|done]. exists tok, src, claims. auto. }
    destruct (needs_verified x);
      (apply RequireAuth_inv in E as [(tok & src & claims & u & K1 & K2 & K3 & E)|[-> ?]]; [|by right]);
      (apply RequireCSRF_inv in E as [[E K5]|[-> ?]]; [|by right]).
    - apply RequireVerifiedEmail_inv in E as [[E K4]|[-> ?]]; [|by right].
      apply (Hk u tok src claims); try done; [|intros ->; by apply K5]. intros _. simpl in K4. congruence.
    - apply (Hk u tok src claims); try done. intros ->. by apply K5. }
  split; [|intros _ Hs; destruct Hpriv as [?|?]; [done|tauto]].
  destruct Hpriv as [(u & _ & _ & _ & Hc)|[-> _]]; [by exists u|by exists uuid_Nil].
Qed.
End requests.
