(* ===== verification/AccountSessions.v ===== *)
(** * Sessions over HTTP

    What a login request is answered, and whether the cookies a response sets bring its session
    back: in development they do, outside it they cannot. *)
From S2P Require Import Prelude GoStd Platform Permission PermCache PermInvalidate Validate Config.
From S2P Require Import Tokens Jwt Postgres Frames Domain UserDB Base64 AuthCrypto Http MemberApi.
From S2P Require Import AuthService AuthProofs Cookies Routes AuthApi.
Open Scope Z_scope.

(** ** The cookies of a response *)
Section cookies.
Context {W : Type} `{RandLaws W} `{ResponseCookiesLaws W}.
Implicit Types (w : W) (cfg : Config).

Definition add_cookie (ck : Cookie) (m : gmap string Cookie) : gmap string Cookie :=
  if cookie_Valid (W := W) ck then <[ck_Name ck := ck]> m else m.
Lemma add_cookie_other ck m n : n ≠ ck_Name ck → add_cookie ck m !! n = m !! n.
Proof. intros Hn. unfold add_cookie. destruct (cookie_Valid ck); [|done]. by rewrite lookup_insert_ne. Qed.
Lemma add_cookie_valid ck m : cookie_Valid (W := W) ck = true → add_cookie ck m !! ck_Name ck = Some ck.
Proof. intros Hv. unfold add_cookie. by rewrite Hv, lookup_insert_eq. Qed.
Lemma add_cookie_Some ck m n x : add_cookie ck m !! n = Some x → (n = ck_Name ck ∧ x = ck) ∨ m !! n = Some x.
Proof.
  unfold add_cookie. destruct (cookie_Valid ck); [|auto]. intros [[<- <-]|[_ ?]]%lookup_insert_Some; auto.
Qed.

Definition cookie_age cfg : Z := Z.quot (JWTRefreshTTL cfg) Second.
Definition session_cookies cfg (access refresh csrf : string) : gmap string Cookie :=
  add_cookie (csrf_cookie cfg csrf (cookie_age cfg)) (add_cookie (refresh_cookie cfg refresh (cookie_age cfg))
    (add_cookie (access_cookie cfg access (cookie_age cfg)) ∅)).

Lemma hex_text l : Forall (λ b, 0 ≤ b < 256) l →
  token_text (hex_EncodeToString l) ∧ (l ≠ [] → hex_EncodeToString l ≠ ""%string).
Proof.
  intros Hl. assert (Hd : ∀ n, 0 ≤ n < 16 → token_char (hex_digit n) = true ∧ 0 ≤ hex_digit n < 256).
  { intros n Hn. assert (n ∈ seqZ 0 16) as Hin by (apply elem_of_seqZ; lia).
    revert n Hn Hin. clear. intros n _ Hin. simpl in Hin.
    repeat (apply elem_of_cons in Hin as [->|Hin]; [by vm_compute|]). by apply not_elem_of_nil in Hin. }
  assert (Forall (λ b, token_char b = true ∧ 0 ≤ b < 256) (hex_encode l)) as Hf.
  { induction Hl as [|b l Hb _ IH]; cbn [hex_encode]; [constructor|].
    pose proof (Z.mod_pos_bound b 16 ltac:(lia)).
    assert (0 ≤ b / 16 < 16) by (split; [apply Z.div_pos; lia|apply Z.div_lt_upper_bound; lia]).
    repeat (constructor; [by apply Hd|]). exact IH. }
  assert (bytes_of (hex_EncodeToString l) = hex_encode l) as Hb.
  { apply bytes_of_string. eapply Forall_impl; [exact Hf|]. by intros b [_ ?]. }
  split.
  - unfold token_text. rewrite Hb. eapply Forall_impl; [exact Hf|]. by intros b [? _].
  - intros Hne E. rewrite E in Hb. by destruct l.
Qed.

(** What [SetAuthCookies] adds to a response without cookies. *)
Lemma SetAuthCookies_run cfg access refresh w w' :
  resp_cookies w = ∅ → SetAuthCookies cfg access refresh w = (Ok tt, w') →
  (∀ n w0, resp_cookies (random_bytes n w0).2 = resp_cookies w0) →
  ∃ csrf, token_text csrf ∧ csrf ≠ ""%string ∧ resp_cookies w' = session_cookies cfg access refresh csrf.
Proof.
  intros He E Hrand. unfold SetAuthCookies in E. cbv zeta in E.
  apply bind_Ok_inv in E as ([] & w1 & E1 & E). injection E1 as <-.
  apply bind_Ok_inv in E as ([] & w1 & E1 & E). injection E1 as <-.
  apply bind_Ok_inv in E as (csrf & w1 & E1 & E). injection E as <-.
  unfold generateSecureToken in E1. apply bind_Ok_inv in E1 as (b & w2 & E1 & E2). injection E2 as <- <-.
  exists (hex_EncodeToString b).
  match type of E1 with random_bytes _ ?x = _ => specialize (Hrand csrfTokenBytes x) end.
  rewrite E1 in Hrand. simpl in Hrand. apply random_bytes_spec in E1 as [Hlen Hb].
  destruct (hex_text b Hb) as [Ht Hne]. split_and!; [done|apply Hne; by intros ->|].
  unfold session_cookies, add_cookie, cookie_age. rewrite resp_cookies_set, Hrand, !resp_cookies_set, He. done.
Qed.
End cookies.

(** A signed token is in the compact form of RFC 7515: base64url and dots. *)
Class JwtTextLaws `{JwtLib} : Prop := {
  jwt_Sign_text : ∀ c secret tok, jwt_Sign c secret = Ok tok → token_text tok ∧ tok ≠ ""%string }.

Section browser.
Context {U W : Type} `{UUIDLaws U} `{RandLaws W} `{ResponseCookiesLaws W} `{JwtLaws} `{!JwtTextLaws} `{Clock W}.
Context `{BrowserLaws} `{ApiErrors}.
Context (Hrand : ∀ n w, resp_cookies (random_bytes n w).2 = resp_cookies (W := W) w).
Implicit Types (w : W) (cfg : Config) (c : request U).

(** [c] is a request a browser sends for [path] after a response that set [jar]. *)
Definition from_browser (jar : gmap string Cookie) (path : string) c : Prop :=
  ∀ n, Http.Cookies c n = cookie_sent jar path n.

Lemma NewAccessToken_text (u : U) secret ttl issuer ver w tok w' :
  NewAccessToken u secret ttl issuer ver w = (Ok tok, w') → token_text tok ∧ tok ≠ ""%string.
Proof.
  unfold NewAccessToken. destruct (bool_decide _); [done|]. destruct (bool_decide _); [done|].
  unfold gets, mbind, M_bind. intros E%wrap_Ok_inv. unfold of_res in E. injection E as E _. by eapply jwt_Sign_text.
Qed.
Lemma dev_names cfg : IsDevelopment cfg = true →
  AccessCookieName cfg = "access_token"%string ∧ RefreshCookieName cfg = "refresh_token"%string ∧
  CSRFCookieName cfg = "csrf_token"%string.
Proof. intros Hd. unfold AccessCookieName, RefreshCookieName, CSRFCookieName, cookieName. by rewrite Hd. Qed.
Lemma computed_text s : forallb token_char (bytes_of s) = true → token_text s.
Proof. intros Hf. apply Forall_forall. intros b Hb. eapply forallb_forall in Hf; [exact Hf|by apply list_elem_of_In]. Qed.

(** In development the browser sends the session's cookies back. *)
Lemma sent_back cfg access refresh csrf rest :
  IsDevelopment cfg = true → Second ≤ JWTRefreshTTL cfg → token_text access → token_text csrf →
  let jar := session_cookies (W := W) cfg access refresh csrf in
  cookie_sent jar ("/api/" +:+ rest) (AccessCookieName cfg) = access ∧
  cookie_sent jar ("/api/" +:+ rest) (CSRFCookieName cfg) = csrf.
Proof.
  intros Hd Hage Ha Hc jar. destruct (dev_names cfg Hd) as (E1 & E2 & E3).
  assert (0 < cookie_age cfg) as Hpos 
    by (unfold cookie_age, Second in *; rewrite Z.quot_div_nonneg by lia; apply Z.div_str_pos; lia).
  assert (Hacc : jar !! AccessCookieName cfg = Some (access_cookie cfg access (cookie_age cfg))).
  { unfold jar, session_cookies. rewrite add_cookie_other by (simpl; by rewrite E1, E3).
    rewrite add_cookie_other by (simpl; by rewrite E1, E2).
    apply (add_cookie_valid (access_cookie cfg access (cookie_age cfg))). apply cookie_Valid_token; simpl.
    - rewrite E1. by apply computed_text.
    - by rewrite E1.
    - done.
    - auto. }
  assert (Hcsrf : jar !! CSRFCookieName cfg = Some (csrf_cookie cfg csrf (cookie_age cfg))).
  { apply (add_cookie_valid (csrf_cookie cfg csrf (cookie_age cfg))). apply cookie_Valid_token; simpl.
    - rewrite E3. by apply computed_text.
    - by rewrite E3.
    - done.
    - auto. }
  assert (∀ ck, ck = access_cookie cfg access (cookie_age cfg) ∨ ck = csrf_cookie cfg csrf (cookie_age cfg) →
    ua_accepts ck = true) as Hua.
  { intros ck [-> | ->]; apply ua_accepts_plain; simpl; rewrite ?E1, ?E3, ?Hd; auto. }
  unfold cookie_sent. rewrite Hacc, Hcsrf, !Hua by auto. split.
  - by rewrite (ua_path_below "/api" rest).
  - by rewrite (ua_path_root ("api/" +:+ rest)).
Qed.

(** C18: The cookies of a session bring it back, in development.  A response sets the cookies of a
    user's access token; the browser's next request for anything below /api, with the value of
    the CSRF cookie in its header, passes RequireAuth and RequireCSRF as that user, with the
    verification status of the token, until the token expires. *)
Theorem cookie_session_round_trip cfg (u : U) ver refresh access w0 w1 w2 w3 {A} (next : request U → M W (response A))
    rest c w :
  IsDevelopment cfg = true → Second ≤ JWTRefreshTTL cfg →
  NewAccessToken u (Expose (JWTSecret cfg)) (JWTAccessTTL cfg) (ServerURL cfg) ver w0 = (Ok access, w1) →
  resp_cookies w2 = ∅ → SetAuthCookies cfg access refresh w2 = (Ok tt, w3) →
  from_browser (resp_cookies w3) ("/api/" +:+ rest) c →
  Header c "Authorization" = ""%string → Header c "X-CSRF-Token" = Http.Cookies c (CSRFCookieName cfg) →
  time_Now w + Second ≤ time_Now w0 + JWTAccessTTL cfg →
  RequireAuth (Expose (JWTSecret cfg)) (ServerURL cfg) cfg (RequireCSRF cfg next) c w =
  next (with_identity c u ver AuthSourceCookie) w.
Proof.
  intros Hd Hage Htok He Hset Hc Hauth Hhead Hnow. destruct (NewAccessToken_text _ _ _ _ _ _ _ _ Htok) as [Ht Hne].
  destruct (SetAuthCookies_run _ _ _ _ _ He Hset Hrand) as (csrf & Hx & Hxne & Hjar). rewrite Hjar in Hc.
  destruct (sent_back cfg access refresh csrf rest Hd Hage Ht Hx) as [Ea Ex].
  assert (Hacc : Http.Cookies c (AccessCookieName cfg) = access) by (by rewrite Hc).
  assert (Hcsrf : Http.Cookies c (CSRFCookieName cfg) = csrf) by (by rewrite Hc).
  unfold RequireAuth, credential. rewrite Hauth, Hacc. simpl.
  rewrite (bool_decide_eq_false_2 _ Hne). cbn [negb].
  destruct (ValidateAccessToken access (Expose (JWTSecret cfg)) (ServerURL cfg) w) as [r w'] eqn:Ev.
  pose proof (Validate_inv _ _ _ _ _ _ Ev) as ->.
  destruct (access_token_lifetime _ _ _ _ _ _ _ _ _ _ _ _ Htok Ev) as [Hok _].
  destruct (Hok eq_refl Hnow) as (claims & -> & Hsub & Hver).
  unfold catch. rewrite Ev, Hsub, Hver. unfold RequireCSRF.
  destruct (safe_method _); [done|]. cbn [Locals_authSource with_identity].
  rewrite (bool_decide_eq_true_2 (Some AuthSourceCookie = Some AuthSourceCookie)) by done. cbn [negb].
  change (Http.Cookies (with_identity c u ver AuthSourceCookie)) with (Http.Cookies c).
  change (Header (with_identity c u ver AuthSourceCookie)) with (Header c).
  rewrite Hhead, Hcsrf, !(bool_decide_eq_false_2 _ Hxne). cbn [orb].
  by rewrite (bool_decide_eq_true_2 (csrf = csrf)).
Qed.

(** Outside development the access and the refresh cookie are rejected. *)
Lemma production_cookies cfg access refresh w2 w3 path c n :
  IsDevelopment cfg = false → resp_cookies w2 = ∅ → SetAuthCookies cfg access refresh w2 = (Ok tt, w3) →
  from_browser (resp_cookies w3) path c → n ≠ CSRFCookieName cfg → Http.Cookies c n = ""%string.
Proof.
  intros Hd He Hset Hc Hn. destruct (SetAuthCookies_run _ _ _ _ _ He Hset Hrand) as (csrf & _ & _ & Hjar).
  rewrite Hjar in Hc. rewrite Hc. unfold cookie_sent. destruct (_ !! n) as [ck|] eqn:E; [|done].
  apply add_cookie_Some in E as [[-> _]|E]; [by destruct Hn|].
  assert (ck_Path ck ≠ "/"%string ∧ ∃ rest, ck_Name ck = (host_prefix +:+ rest)%string) as [Hp [rest Hname]].
  { apply add_cookie_Some in E as [[_ ->]|E]; [|apply add_cookie_Some in E as [[_ ->]|E]; [|by rewrite lookup_empty in E]];
      (split; [done|]); eexists; cbn [ck_Name refresh_cookie access_cookie];
      unfold AccessCookieName, RefreshCookieName, cookieName; rewrite Hd; reflexivity. }
  destruct (ua_accepts ck) eqn:Ea; [|done]. by apply (ua_accepts_host _ _ Hname) in Ea as [_ ?].
Qed.
End browser.

(** ** The requests *)
Section requests.
Context {U W : Type} `{UUIDLaws U} `{RandomUUID U} `{ValkeyLaws W} `{IdGen U W} `{!IdGenLaws U W}.
Context `{Postgres (tables U) W} `{UserRepo U W} `{!UserRepoLaws (vk_view (W := W))}.
Context `{Clock W} `{JwtLib} `{NetMail} `{RandLib W} `{!RandLaws W} `{Argon2 W} `{CryptoLib} `{TotpLib W}.
Context `{ServerRepo U W} `{Blocklist W} `{!Codec (InvalidationMessage U)}.
Context `{!EnvFrame U (vk_view (W := W))} `{!EnvFrame U (pg_view (DB := tables U) (W := W))}.
Context `{!ValkeyFrame (pg_view (DB := tables U) (W := W))}.
Context `{ResponseCookiesLaws W} `{!EnvFrame U (resp_cookies (W := W))} `{!ValkeyFrame (resp_cookies (W := W))}.
Context `{!UserRepoLaws (resp_cookies (W := W))} `{ApiErrors} `{AccountErrors}.
Implicit Types (w : W) (c : request U) (h : Service W) (u : User.Credentials U).
Abbreviation tabs := (pg_view (DB := tables U)).
Abbreviation cookies := (resp_cookies (W := W)).

Lemma rand_cookies n w : cookies (random_bytes n w).2 = cookies w.
Proof. exact (random_keeps (obs := cookies) n w). Qed.

(** C19: Outside development no browser keeps a session.  Whatever the response to a login, a second
    factor, a registration or a refresh set, its access and refresh cookies carry the __Host-
    prefix with a path of their own and are rejected: the browser's requests go out without
    them, a protected route answers that the credentials are missing, and a refresh without a
    token in its body that the token is required. *)
Theorem production_cookies_rejected `{BrowserLaws} h cfg access refresh w2 w3 {A} (next : request U → M W (response A)) path c w :
  IsDevelopment cfg = false → resp_cookies w2 = ∅ → SetAuthCookies cfg access refresh w2 = (Ok tt, w3) →
  from_browser (resp_cookies w3) path c → Header c "Authorization" = ""%string →
  RequireAuth (Expose (JWTSecret cfg)) (ServerURL cfg) cfg next c w =
    (Ok (mkResponse StatusUnauthorized (ErrorBody Unauthorised "Missing authentication credentials")), w) ∧
  AuthHandler.Refresh h cfg c (Ok ""%string) w =
    (Ok (mkResponse StatusBadRequest (ErrorBody InvalidBody "refresh_token is required")), w).
Proof.
  intros Hd He Hset Hc Hauth.
  assert (AccessCookieName cfg ≠ CSRFCookieName cfg ∧ RefreshCookieName cfg ≠ CSRFCookieName cfg) as [Hn1 Hn2].
  { unfold AccessCookieName, RefreshCookieName, CSRFCookieName, cookieName. by rewrite Hd. }
  pose proof (λ n, production_cookies rand_cookies _ _ _ _ _ _ _ n Hd He Hset Hc) as Hno. split.
  - unfold RequireAuth, credential. rewrite Hauth, (Hno _ Hn1). done.
  - unfold AuthHandler.Refresh, AuthHandler.presented_refresh. simpl. by rewrite (Hno _ Hn2).
Qed.





End requests.
