(* ===== verification/AuthWitness.v ===== *)
(** * Witnesses of the authentication properties: one process with its database, its Valkey
    server, a counter for identifiers and transparent cryptography *)
From S2P Require Import Prelude GoStd Platform Permission PermCache PermInvalidate PermWitness.
From S2P Require Import Http MemberApi Routes ApiLogic UserInv Cookies AuthApi AccountProofs AccountSessions.
From S2P Require Import Validate Config Tokens Jwt Postgres Frames Domain UserDB Base64 AuthCrypto.
From S2P Require Import AuthService AuthProofs.
Open Scope Z_scope.

(** ** The world *)
Record world := mkWorld {
  aw_ks : keyspace; aw_db : tables cuuid; aw_tx : option (tables cuuid); aw_next : nat; aw_now : Z;
  aw_cookies : gmap string Cookie }.

#[local] Instance world_ks : HasKeyspace world := {|
  ks_of := aw_ks;
  ks_put := λ k w, mkWorld k (aw_db w) (aw_tx w) (aw_next w) (aw_now w) (aw_cookies w);
  ks_of_put := λ _ _, eq_refl |}.
#[local] Existing Instance mem_Valkey.
#[local] Existing Instance mem_ValkeyLaws.
#[local] Instance world_tables : HasTables (tables cuuid) world := {|
  db_of := aw_db; tx_of := aw_tx;
  db_put := λ d w, mkWorld (aw_ks w) d (aw_tx w) (aw_next w) (aw_now w) (aw_cookies w);
  tx_put := λ t w, mkWorld (aw_ks w) (aw_db w) t (aw_next w) (aw_now w) (aw_cookies w);
  db_of_put := λ _ _, eq_refl; tx_of_put := λ _ _, eq_refl; db_of_tx_put := λ _ _, eq_refl |}.
#[local] Existing Instance mem_Postgres.
#[local] Existing Instance mem_PostgresLaws.
#[local] Existing Instance PGRepository.

Definition num_id (n : nat) : cuuid :=
  match n with
  | 0%nat => "00000000-0000-4000-8000-0000000000f0"%string ↾ eq_refl
  | 1%nat => "00000000-0000-4000-8000-0000000000f1"%string ↾ eq_refl
  | 2%nat => "00000000-0000-4000-8000-0000000000f2"%string ↾ eq_refl
  | 3%nat => "00000000-0000-4000-8000-0000000000f3"%string ↾ eq_refl
  | 4%nat => "00000000-0000-4000-8000-0000000000f4"%string ↾ eq_refl
  | 5%nat => "00000000-0000-4000-8000-0000000000f5"%string ↾ eq_refl
  | 6%nat => "00000000-0000-4000-8000-0000000000f6"%string ↾ eq_refl
  | 7%nat => "00000000-0000-4000-8000-0000000000f7"%string ↾ eq_refl
  | 8%nat => "00000000-0000-4000-8000-0000000000f8"%string ↾ eq_refl
  | 9%nat => "00000000-0000-4000-8000-0000000000f9"%string ↾ eq_refl
  | _ => "00000000-0000-4000-8000-0000000000fa"%string ↾ eq_refl
  end.
#[local] Instance world_ids : IdGen cuuid world :=
  {| uuid_New := λ w, (num_id (aw_next w),
       mkWorld (aw_ks w) (aw_db w) (aw_tx w) (S (aw_next w)) (aw_now w) (aw_cookies w)) |}.
#[local] Instance world_ids_laws : IdGenLaws cuuid world.
Proof. by constructor. Qed.
#[local] Instance world_random : RandomUUID cuuid := {| gen_random_uuid := num_id |}.
#[local] Instance world_clock : Clock world := {| time_Now := aw_now |}.
#[local] Existing Instance Validate.Witness.plain_mail.
#[local] Existing Instance Jwt.Witness.plain_JwtLib.

(** ** Cryptography in the clear: everything is the code of its inputs *)
#[local] Instance params_eq_dec : EqDecision Params.
Proof. solve_decision. Defined.
#[local] Instance params_countable : Countable Params.
Proof.
  refine (inj_countable' (λ p, (Memory p, Iterations p, Parallelism p, SaltLength p, KeyLength p))
            (λ '(a, b, c, d, e), mkParams a b c d e) _). by intros [].
Defined.
#[local] Instance clear_random : RandLib world := {| rand_Read := λ n w, (replicate n 7, w) |}.
#[local] Instance clear_random_laws : RandLaws world.
Proof.
  constructor. intros n w. simpl. rewrite length_replicate. split; [done|].
  apply Forall_forall. intros x [-> _]%elem_of_replicate. lia.
Qed.
Definition hash_of (password : string) (p : Params) : string := bits (encode (password, p)).
#[local] Instance clear_argon2 : Argon2 world := {|
  argon2id_CreateHash := λ password p w,
    if decide (0 ≤ SaltLength p ∧ 0 ≤ KeyLength p) then (Ok (hash_of password p), w)
    else (Err (Plain "argon2id: bad parameters"), w);
  argon2id_ComparePasswordAndHash := λ password h,
    match decode (A := string * Params) (unbits h) with
    | Some (x, _) => Ok (bool_decide (x = password))
    | None => Err (Plain "argon2id: hash is not in the correct format")
    end;
  argon2id_DecodeHash := λ h,
    match decode (A := string * Params) (unbits h) with
    | Some (_, p) => Ok (p, replicate (Z.to_nat (SaltLength p)) 0, replicate (Z.to_nat (KeyLength p)) 0)
    | None => Err (Plain "argon2id: hash is not in the correct format")
    end |}.
#[local] Instance clear_argon2_laws : Argon2Laws world.
Proof.
  constructor. intros password p w h w'. simpl. case_decide as Hp; [|done]. intros [= <- _].
  unfold hash_of. rewrite unbits_bits, decode_encode. split; [by rewrite bool_decide_eq_true_2|].
  do 3 eexists. split; [done|]. rewrite !length_replicate, !Z2Nat.id by lia. done.
Qed.
#[local] Instance clear_crypto : CryptoLib := {|
  gcm_Seal := λ key nonce plaintext, bytes_of (bits (encode (key, plaintext)));
  gcm_Open := λ key nonce sealed,
    match decode (A := list Z * list Z) (unbits (string_of sealed)) with
    | Some (k, p) => if decide (k = key) then Ok p else Err (Plain "cipher: message authentication failed")
    | None => Err (Plain "cipher: message authentication failed")
    end;
  hmac_SHA256 := λ key data, bytes_of (bits (encode (key, data))) |}.
#[local] Instance clear_crypto_laws : CryptoLaws.
Proof.
  constructor; intros; simpl; [|apply bytes_of_range].
  rewrite string_of_bytes, unbits_bits, decode_encode. by rewrite decide_True.
Qed.
#[local] Instance clear_totp : TotpLib world := {|
  totp_Validate := λ code secret now, bool_decide (code = secret);
  totp_Generate := λ issuer account w, (Ok ("424242"%string, "otpauth://"%string), w) |}.

(** ** The other collaborators *)
#[local] Instance world_server : ServerRepo cuuid world := {|
  server_Get := λ w, match server_owner (aw_db w) with
    | Some o => (Ok (Server.mkConfig (num_id 9) "s" "" None None o 0 0), w)
    | None => (Err (Plain "server config not found"), w)
    end |}.
#[local] Instance world_server_laws : ServerRepoLaws cuuid world.
Proof.
  constructor. intros w c w'. simpl. unfold pg_view. simpl. by destruct (server_owner (aw_db w)); intros [= <- <-].
Qed.
#[local] Instance world_blocklist : Blocklist world :=
  {| blocklist_IsBlocked := λ domain w, (Ok (bool_decide (domain = "mailinator.com"%string)), w) |}.

Section frames.
Context {V : Type} (obs : world → V).
Lemma env_frame :
  (∀ w, obs (mkWorld (aw_ks w) (aw_db w) (aw_tx w) (S (aw_next w)) (aw_now w) (aw_cookies w)) = obs w) →
  EnvFrame cuuid obs.
Proof.
  intros Hobs. constructor; try done; intros; intros w; simpl.
  - by case_decide.
  - by destruct (server_owner (aw_db w)).
Qed.
End frames.
#[local] Instance world_env_vk : EnvFrame cuuid (vk_view (W := world)).
Proof. by apply env_frame. Qed.
#[local] Instance world_env_pg : EnvFrame cuuid (pg_view (DB := tables cuuid) (W := world)).
Proof. by apply env_frame. Qed.
#[local] Instance world_vk_frame : ValkeyFrame (pg_view (DB := tables cuuid) (W := world)).
Proof.
  constructor; intros x w; simpl.
  - by destruct (run_cmds x (aw_ks w)).
  - by destruct (x (aw_ks w)).
Qed.
#[local] Instance world_pg_frame : PgFrame (tables cuuid) (vk_view (W := world)).
Proof.
  constructor; try done.
  - intros A f w. simpl. by destruct (f (aw_db w)) as [[] ?].
  - intros A f w. simpl. destruct (aw_tx w); [|done]. by destruct (f _) as [[] ?].
  - intros w. simpl. by destruct (aw_tx w).
Qed.
#[local] Instance world_users : UserRepoLaws (U := cuuid) (vk_view (W := world)).
Proof. exact (PG_laws (U := cuuid) (vk_view (W := world))). Qed.

(** ** Data *)
Definition hex64 : string := Config.Witness.hex64.
Definition env (k : string) : string :=
  if bool_decide (k = "MFA_ENCRYPTION_KEY") then hex64 else Config.Witness.env_ok k.
#[local] Existing Instance Config.Witness.plain_durations.
Definition cfg : Config :=
  Eval vm_compute in
    match (parse_env env []).1 as r return match r with Ok _ => Config | Err _ => unit end with
    | Ok c => c
    | Err _ => tt
    end.
Definition svc : Service world := mkService cfg noOpSender "".
Definition pars : Params := argon2_params cfg.

Definition judy : cuuid := "00000000-0000-4000-8000-0000000000c1"%string ↾ eq_refl.
Definition mike : cuuid := "00000000-0000-4000-8000-0000000000c2"%string ↾ eq_refl.
Definition row (id : cuuid) (email name password : string) (secret : option string) : User.Credentials cuuid :=
  User.mkCredentials (User.mkUser id email name None None None None None None None
    (match secret with Some _ => true | None => false end) true 0) (hash_of password pars) secret.
Definition code_id : cuuid := "00000000-0000-4000-8000-0000000000d1"%string ↾ eq_refl.
(** The secret 424242 under the configured key. *)
Definition sealed : string :=
  Eval vm_compute in
    match (EncryptTOTPSecret (W := world) "424242" hex64
             (mkWorld (Keyspace 0 ∅ []) (mkTables 0 0 ∅ [] [] [] [] None) None 0 0 ∅)).1 with
    | Ok e => e | Err _ => ""%string
    end.
Definition db0 : tables cuuid :=
  mkTables 100 0 (<[judy := row judy "judy@b.c" "judy" "correct horse" None]>
                  (<[mike := row mike "mike@b.c" "mike" "battery staple" (Some sealed)]> ∅))
    [] [mkCode code_id mike (hash_of "aaaabbbb" pars) None] [] [] (Some mike).
Definition w0 : world := mkWorld (Keyspace 0 ∅ []) db0 None 0 0 ∅.

(** ** Cryptography *)
Lemma totp_round_trip_witness :
  (EncryptTOTPSecret (W := world) "424242" hex64 w0).1 = Ok sealed ∧
  DecryptTOTPSecret sealed hex64 = Ok "424242"%string.
Proof.
  split; [vm_compute; reflexivity|].
  apply (totp_round_trip "424242" hex64 w0 sealed w0). apply run_eq. vm_compute. reflexivity.
Defined.

Lemma rehash_converges_witness :
  VerifyPassword (W := world) "correct horse" (hash_of "correct horse" pars) = Ok true ∧
  NeedsRehash (W := world) (hash_of "correct horse" pars) pars = Ok false.
Proof.
  apply (rehash_converges "correct horse" pars w0 _ w0); [apply run_eq; vm_compute; reflexivity|].
  split; vm_compute; split; done.
Defined.

(** ** Login *)
Definition good : LoginRequest := mkLogin "Judy@b.c" "correct horse" "10.0.0.1".
Definition bad : LoginRequest := mkLogin "judy@b.c" "wrong" "10.0.0.1".
Definition w1 : world := (Login svc good w0).2.
Definition tok0 : string := uuid_String (num_id 0).

Definition login0 : LoginResult :=
  Eval vm_compute in
    match (Login svc good w0).1 with Ok r => r | Err _ => mkLoginResult true "" None end.

Lemma Login_sound_witness :
  MFARequired login0 = false ∧
  ∃ email u, account good email (Some u) w0 ∧
    VerifyPassword (W := world) "correct horse" (User.PasswordHash u) = Ok true.
Proof.
  split; [reflexivity|].
  edestruct (Login_sound svc good w0 login0 w1) as (email & u & Ha & Hp & _);
    [|exists email, u; split; [exact Ha|exact Hp]].
  unfold w1. apply run_eq. vm_compute. reflexivity.
Defined.

Lemma account_judy : account bad "judy@b.c" (by_email "judy@b.c" (pg_view w0)) w0.
Proof. split; [|reflexivity]. exists "b.c"%string. vm_compute. reflexivity. Qed.

Lemma Login_failure_witness :
  (Login svc bad w0).1 = Err ErrInvalidCredentials ∧
  vk_view (Login svc bad w0).2 = vk_view w0.
Proof.
  split; [vm_compute; reflexivity|].
  eapply (Login_failure svc bad "judy@b.c" w0 (Err ErrInvalidCredentials)).
  - apply run_eq. vm_compute. reflexivity.
  - right. exists (row judy "judy@b.c" "judy" "correct horse" None). split.
    + pose proof account_judy as Ha. replace (by_email "judy@b.c" (pg_view w0)) with
        (Some (row judy "judy@b.c" "judy" "correct horse" None)) in Ha; [exact Ha|].
      vm_compute. reflexivity.
    + vm_compute. reflexivity.
Defined.

(** ** Refresh *)
Definition rttl : Z := JWTRefreshTTL cfg.
Definition wr : world := (CreateRefreshToken judy rttl w0).2.
Definition wr' : world := (Refresh svc tok0 wr).2.
Definition pair0 : TokenPair :=
  Eval vm_compute in match (Refresh svc tok0 wr).1 with Ok p => p | Err _ => mkTokenPair "" "" end.

Lemma not_live k t : bool_decide (is_Some (ks_map k !! refreshKey t)) = false → ¬ token_live k t.
Proof. intros E. by apply bool_decide_eq_false in E. Qed.

Lemma history_wr : token_history (U := cuuid) rttl wr.
Proof.
  eapply (th_create rttl w0 judy (Ok tok0)); [|apply not_live; vm_compute; reflexivity|].
  - refine (th_empty (U := cuuid) rttl w0 _ _); intros; exact (lookup_empty (M := gmap string) _).
  - apply run_eq. vm_compute. reflexivity.
Qed.

Lemma Refresh_correct_witness :
  tp_Refresh pair0 = uuid_String (num_id 1) ∧
  token_user (U := cuuid) (vk_view wr') tok0 = None ∧
  token_user (vk_view wr') (tp_Refresh pair0) = Some judy.
Proof.
  split; [reflexivity|].
  destruct (Refresh_correct svc tok0 wr pair0 wr') as (id & u & Hold & _ & Hgone & Hnew & _).
  - unfold wr'. apply run_eq. vm_compute. reflexivity.
  - vm_compute. discriminate.
  - apply history_wr.
  - apply not_live. vm_compute. reflexivity.
  - vm_compute. discriminate.
  - split; [exact Hgone|]. rewrite Hnew. rewrite <-Hold. vm_compute. reflexivity.
Defined.

(** Replaying the rotated token leaves the new one alive. *)
Lemma Refresh_replay_keeps_sessions_witness :
  (Refresh svc tok0 wr').1 = Err ErrRefreshTokenReused ∧
  vk_view (Refresh svc tok0 wr').2 = vk_view wr' ∧
  token_user (vk_view wr') (tp_Refresh pair0) = Some judy.
Proof.
  split; [vm_compute; reflexivity|]. split; [|vm_compute; reflexivity].
  eapply (Refresh_replay_keeps_sessions svc tok0 wr' (Err ErrRefreshTokenReused)).
  - vm_compute. reflexivity.
  - apply run_eq. vm_compute. reflexivity.
Defined.

(** ** The second factor *)
Definition wt : world := (Login svc (mkLogin "mike@b.c" "battery staple" "10.0.0.2") w0).2.
Definition wm : world := (VerifyMFA (U := cuuid) svc tok0 "aaaa-bbbb" wt).2.
Definition session : Result :=
  Eval vm_compute in
    match (VerifyMFA (U := cuuid) svc tok0 "aaaa-bbbb" wt).1 with
    | Ok r => r
    | Err _ => mkResult (User.ToModel (User.cred_User (row judy "" "" "" None))) "" ""
    end.

Lemma VerifyMFA_sound_witness :
  Models.User_ID (res_User session) = uuid_String mike ∧
  ∃ id u enc secret, users (pg_view w0) !! id = Some u ∧ User.MFASecret u = Some enc ∧
    second_factor id secret "aaaa-bbbb" (pg_view (W := world) wt) (pg_view (W := world) wm).
Proof.
  split; [reflexivity|].
  destruct (VerifyMFA_sound svc tok0 "aaaa-bbbb" wt session wm)
    as (id & u & enc & secret & _ & Hu & Hs & _ & Hf & _).
  - unfold wm. apply run_eq. vm_compute. reflexivity.
  - exists id, u, enc, secret. split_and!; [exact Hu|exact Hs|exact Hf].
Defined.

(** ** Deletion *)
Definition wd : world := (DeleteAccount svc judy "correct horse" w0).2.
Definition again : RegisterRequest := mkRegister "JUDY@b.c" "judith" "long enough".

Lemma deleted_stays_deleted_witness :
  (DeleteAccount svc judy "correct horse" w0).1 = Ok tt ∧
  (Register (U := cuuid) svc again wd).1 = Err ErrAccountTombstoned ∧
  (DeleteAccount svc mike "battery staple" w0).1 = Err ErrServerOwner ∧
  users (pg_view (W := world) wd) !! judy = None.
Proof.
  split; [vm_compute; reflexivity|]. split; [vm_compute; reflexivity|].
  split; [vm_compute; reflexivity|].
  destruct (deleted_stays_deleted svc judy "correct horse" w0 wd) as (u & _ & _ & _ & Hgone & _).
  - unfold wd. apply run_eq. vm_compute. reflexivity.
  - exact Hgone.
Defined.

(** ** Setting MFA up *)
Definition wb : world := (BeginMFASetup svc judy "correct horse" w0).2.
Definition wc : world := (ConfirmMFASetup svc judy "424242" wb).2.
Definition codes0 : list string :=
  Eval vm_compute in match (ConfirmMFASetup svc judy "424242" wb).1 with Ok l => l | Err _ => [] end.

Lemma ConfirmMFASetup_sound_witness :
  length codes0 = recoveryCodeCount ∧
  ∃ enc, enabled judy enc codes0 (pg_view (W := world) wb) (pg_view (W := world) wc).
Proof.
  split; [reflexivity|].
  destruct (ConfirmMFASetup_sound svc judy "424242" wb (Ok codes0) wc)
    as (enc & secret & _ & _ & _ & _ & Hen).
  - unfold wc. apply run_eq. vm_compute. reflexivity.
  - exists enc. exact Hen.
Defined.

(** ** Requests over HTTP *)
#[local] Instance world_cookies : ResponseCookies world := {|
  cookie_Valid := λ ck, forallb token_char (bytes_of (ck_Value ck));
  resp_cookies := aw_cookies;
  c_Cookie := λ ck w, mkWorld (aw_ks w) (aw_db w) (aw_tx w) (aw_next w) (aw_now w)
    (if forallb token_char (bytes_of (ck_Value ck)) then <[ck_Name ck := ck]> (aw_cookies w) else aw_cookies w) |}.
#[local] Instance world_cookies_laws : ResponseCookiesLaws world.
Proof.
  constructor; [done|]. intros ck _ _ Hv _. apply forallb_forall. intros b Hb.
  unfold token_text in Hv. rewrite Forall_forall in Hv. by apply Hv, list_elem_of_In.
Qed.
#[local] Instance world_cookie_frame : CookieFrame (pg_view (DB := tables cuuid) (W := world)).
Proof. by constructor. Qed.
#[local] Instance world_env_cookies : EnvFrame cuuid (resp_cookies (W := world)).
Proof. by apply env_frame. Qed.
#[local] Instance world_vk_cookies : ValkeyFrame (resp_cookies (W := world)).
Proof.
  constructor; intros x w; simpl.
  - by destruct (run_cmds x (aw_ks w)).
  - by destruct (x (aw_ks w)).
Qed.
#[local] Instance world_pg_cookies : PgFrame (tables cuuid) (resp_cookies (W := world)).
Proof.
  constructor; try done.
  - intros A f w. simpl. by destruct (f (aw_db w)) as [[] ?].
  - intros A f w. simpl. destruct (aw_tx w); [|done]. by destruct (f _) as [[] ?].
  - intros w. simpl. by destruct (aw_tx w).
Qed.
#[local] Instance world_users_cookies : UserRepoLaws (U := cuuid) (resp_cookies (W := world)).
Proof. exact (PG_laws (U := cuuid) (resp_cookies (W := world))). Qed.
#[local] Existing Instance Jwt.Witness.plain_JwtLaws.
Lemma bits_text p : token_text (bits p).
Proof. unfold token_text. induction p as [p IH|p IH|]; simpl; by constructor. Qed.
Lemma pair_text p q : bits (prod_encode p q) ≠ ""%string.
Proof. by destruct p, q. Qed.
#[local] Instance plain_JwtText : JwtTextLaws.
Proof.
  constructor. intros c secret tok [= <-]. split; [apply bits_text|].
  exact (pair_text _ _).
Qed.
(** A browser by the letter of RFC 6265 and of the prefix rule. *)
Definition starts_with (s t : string) : bool := bool_decide (bytes_of s `prefix_of` bytes_of t).
#[local] Instance strict_browser : Browser := {|
  ua_accepts := λ ck, if starts_with host_prefix (ck_Name ck)
    then ck_Secure ck && bool_decide (ck_Path ck = "/"%string) else true;
  ua_path_match := λ path p, bool_decide (p = "/"%string) || bool_decide (p = path) || starts_with (p +:+ "/") path |}.
#[local] Instance strict_browser_laws : BrowserLaws.
Proof.
  constructor; simpl.
  - by intros ck [-> |[-> | ->]] _ _.
  - intros ck rest -> . unfold starts_with. rewrite bool_decide_eq_true_2 by (rewrite bytes_of_app; by apply prefix_app_r).
    intros [? ?%bool_decide_eq_true]%andb_true_iff. done.
  - done.
  - intros p rest. unfold starts_with. rewrite (bool_decide_eq_true_2 (_ `prefix_of` _)); [by rewrite orb_true_r|].
    rewrite !bytes_of_app, app_assoc. by apply prefix_app_r.
Qed.
#[local] Instance words_Errors : ApiErrors := {|
  ValidationError := "VALIDATION_ERROR"; InvalidBody := "INVALID_BODY"; InternalError := "INTERNAL_ERROR";
  Unauthorised := "UNAUTHORISED"; TokenExpired := "TOKEN_EXPIRED"; EmailNotVerified := "EMAIL_NOT_VERIFIED";
  CSRFTokenMissing := "CSRF_TOKEN_MISSING"; CSRFTokenInvalid := "CSRF_TOKEN_INVALID";
  MembershipRequired := ""; MissingPermissions := ""; MissingChannelID := ""; InvalidChannelID := "";
  UnknownMember := ""; UnknownBan := ""; UnknownRole := ""; AlreadyMember := ""; AlreadyExists := "";
  RoleHierarchy := ""; ServerOwner := "SERVER_OWNER"; MaxRolesReached := ""; UnknownOverride := "";
  UnknownInvite := ""; UnknownChannel := ""; Banned := ""; OwnerOnly := ""; OpenJoinDisabled := "";
  NotFound := "" |}.
#[local] Instance words_AccountErrors : AccountErrors := {|
  InvalidEmail := "INVALID_EMAIL"; InvalidUsername := "INVALID_USERNAME"; InvalidPassword := "INVALID_PASSWORD";
  DisposableEmail := "DISPOSABLE_EMAIL"; InvalidCredentials := "INVALID_CREDENTIALS";
  InvalidMFACode := "INVALID_MFA_CODE"; MFANotEnabled := "MFA_NOT_ENABLED"; MFAAlreadyEnabled := "MFA_ALREADY_ENABLED";
  RateLimited := "RATE_LIMITED"; ServiceUnavailable := "SERVICE_UNAVAILABLE"; TokenReused := "TOKEN_REUSED";
  InvalidToken := "INVALID_TOKEN"; AccountDeleted := "ACCOUNT_DELETED"; EmailAlreadyVerified := "EMAIL_ALREADY_VERIFIED";
  UnknownUser := "UNKNOWN_USER" |}.



(** *** The own account *)
Definition token0 : string :=
  Eval vm_compute in
    match (NewAccessToken (W := world) judy (Expose (JWTSecret cfg)) (JWTAccessTTL cfg) (ServerURL cfg) true w0).1 with
    | Ok t => t | Err _ => ""%string
    end.
Definition no_page (_ : verifyData) : res string := Ok ""%string.
Definition farewell : request cuuid :=
  mkRequest "DELETE" (λ n, if bool_decide (n = "Authorization"%string) then "Bearer " +:+ token0 else "")
    (λ _, "") (λ _, "") (λ _, "") None None None.
Definition wf : world := (account_routes svc no_page (RDeleteMe (Ok "correct horse"%string)) farewell w0).2.
Definition gone : response account_answer := mkResponse StatusNoContent NoBody.

Lemma noop_keeps a b c d : keeps (pg_view (DB := tables cuuid) (W := world)) (sender svc a b c d).
Proof. by intros w. Qed.
Lemma db0_inv : db_inv db0.
Proof.
  split; simpl.
  - intros id u [[<- <-]|[_ [[<- <-]|[_ [=]]]%lookup_insert_Some]]%lookup_insert_Some; done.
  - intros i j u v [[<- <-]|[_ [[<- <-]|[_ [=]]]%lookup_insert_Some]]%lookup_insert_Some
      [[<- <-]|[_ [[<- <-]|[_ [=]]]%lookup_insert_Some]]%lookup_insert_Some; try done; by intros [[=]|[=]].
  - intros id u [[<- <-]|[_ [[<- <-]|[_ [=]]]%lookup_insert_Some]]%lookup_insert_Some; split; try done; by intros [? [=]].
  - constructor.
  - by intros v ?%not_elem_of_nil.
  - intros id. unfold live_tokens. simpl. lia.
  - apply NoDup_singleton.
  - intros c ->%list_elem_of_singleton. by exists (row mike "mike@b.c" "mike" "battery staple" (Some sealed)).
  - constructor.
  - intros o [= <-]. by exists (row mike "mike@b.c" "mike" "battery staple" (Some sealed)).
Qed.

Lemma account_requests_confined_witness :
  (account_routes svc no_page (RDeleteMe (Ok "correct horse"%string)) farewell w0).1 = Ok gone ∧
  ∃ caller, signed_in cfg (RDeleteMe (Ok "correct horse"%string)) farewell w0 caller ∧
    showed (W := world) caller "correct horse" db0 ∧ db_inv (pg_view (W := world) wf) ∧
    one_account caller db0 (pg_view (W := world) wf).
Proof.
  assert (E : account_routes svc no_page (RDeleteMe (Ok "correct horse"%string)) farewell w0 = (Ok gone, wf)).
  { unfold wf. apply run_eq. vm_compute. reflexivity. }
  split; [by rewrite E|].
  destruct (account_requests_confined svc noop_keeps no_page _ farewell w0 (Ok gone) wf E) as [_ Hown].
  destruct (Hown eq_refl) as (caller & Hs & Hp & _ & Hc); [left; reflexivity|].
  exists caller. split; [exact Hs|]. split; [exact (Hp _ eq_refl)|]. exact (Hc db0_inv).
Defined.

(** *** Cookies *)
Definition dev_env (k : string) : string := if bool_decide (k = "SERVER_ENV") then "development" else env k.
Definition dev_cfg : Config :=
  Eval vm_compute in
    match (parse_env dev_env []).1 as r return match r with Ok _ => Config | Err _ => unit end with
    | Ok c => c
    | Err _ => tt
    end.
Definition dev_token : string :=
  Eval vm_compute in
    match (NewAccessToken (W := world) judy (Expose (JWTSecret dev_cfg)) (JWTAccessTTL dev_cfg) (ServerURL dev_cfg) true w0).1 with
    | Ok t => t | Err _ => ""%string
    end.
Definition ws (c : Config) (tok : string) : world := (SetAuthCookies c tok tok0 w0).2.
(** The request the browser makes with what the response set. *)
Definition browsed (c : Config) (tok path : string) : request cuuid :=
  mkRequest "POST"
    (λ n, if bool_decide (n = "X-CSRF-Token"%string)
          then cookie_sent (resp_cookies (ws c tok)) path (CSRFCookieName c) else "")
    (cookie_sent (resp_cookies (ws c tok)) path) (λ _, "") (λ _, "") None None None.
Definition whoami (c : request cuuid) : M world (response (option cuuid)) := Success (Locals_userID c).

Lemma world_rand n (w : world) : resp_cookies (random_bytes n w).2 = resp_cookies w.
Proof. done. Qed.
Lemma cookie_session_round_trip_witness :
  IsDevelopment dev_cfg = true ∧
  (RequireAuth (Expose (JWTSecret dev_cfg)) (ServerURL dev_cfg) dev_cfg (RequireCSRF dev_cfg whoami)
    (browsed dev_cfg dev_token "/api/v1/auth/logout") w0).1 = Ok (mkResponse StatusOK (Data (Some judy))).
Proof.
  split; [reflexivity|].
  rewrite (cookie_session_round_trip world_rand dev_cfg judy true tok0 dev_token w0 w0 w0 (ws dev_cfg dev_token)
    whoami "v1/auth/logout"); done.
Defined.

Lemma production_cookies_rejected_witness :
  IsDevelopment cfg = false ∧
  (RequireAuth (Expose (JWTSecret cfg)) (ServerURL cfg) cfg whoami (browsed cfg token0 "/api/v1/auth/logout") w0).1 =
    Ok (mkResponse StatusUnauthorized (ErrorBody "UNAUTHORISED" "Missing authentication credentials")).
Proof.
  split; [reflexivity|].
  destruct (production_cookies_rejected svc cfg token0 tok0 w0 (ws cfg token0) whoami "/api/v1/auth/logout"
    (browsed cfg token0 "/api/v1/auth/logout") w0) as [-> _]; done.
Defined.
