(* ===== verification/Bootstrap.v ===== *)
(** * The first start of a server: internal/bootstrap/init.go

    The transaction that seeds the tables with the owner, the @everyone role, two channels and
    the onboarding configuration; the logging is left out. *)
From S2P Require Import Prelude GoStd Platform Permission Validate Config Postgres Domain GuildTables GuildRepo.
From S2P Require Import AuthCrypto Jwt Http.
Open Scope Z_scope.

(** The other permission bits of DefaultEveryonePermissions. *)
Class DefaultPermissions : Type := {
  SendMessages : Z; ReadMessageHistory : Z; AddReactions : Z; VoiceConnect : Z; VoiceSpeak : Z;
  VoicePTT : Z }.
Definition DefaultEveryonePermissions `{PermissionLib} `{RoutePermissions} `{DefaultPermissions} : Z :=
  foldr Z.lor 0 [ViewChannels; SendMessages; ReadMessageHistory; AddReactions; CreateInvites;
    ChangeNicknames; VoiceConnect; VoiceSpeak; VoicePTT].

Definition positionGeneral : Z := 0.
Definition positionWelcome : Z := 1.

(** ** The INSERT statements *)
Section statements.
Context {U : Type} `{UUIDLib U} `{!RandomUUID U}.

Definition set_seeded (d : guild U) users channels server onboarding : guild U :=
  mkGuild (g_now d) (g_seq d) users channels server (g_roles d) (g_members d) (g_member_roles d)
    (g_bans d) (g_overrides d) (g_invites d) onboarding (g_acceptances d).
(** Email and username are unique. *)
Definition insert_owner (email username hash : string) : M (guild U) U :=
  id ← next_id;
  d ← gets (λ d, d);
  if bool_decide (map_Exists (λ i c, i = id ∨ User.Email (User.cred_User c) = email ∨
                                     User.Username (User.cred_User c) = username) (g_users d))
  then fail (PgError codeUniqueViolation)
  else
    modify (λ d, set_seeded d (<[id := User.mkCredentials
      (User.mkUser id email username None None None None None None None false true (g_now d))
      hash None]> (g_users d)) (g_channels d) (g_server d) (g_onboarding d)) ;;
    mret id.
Definition insert_server (name description : string) (owner_id : U) : M (guild U) unit :=
  id ← next_id;
  d ← gets (λ d, d);
  if bool_decide (g_users d !! owner_id = None) then fail (PgError codeForeignKeyViolation)
  else modify (λ d, set_seeded d (g_users d) (g_channels d)
    (Some (Server.mkConfig id name description None None owner_id (g_now d) (g_now d))) (g_onboarding d)).
Definition insert_everyone (permissions : Z) : M (guild U) U :=
  id ← next_id;
  d ← gets (λ d, d);
  if bool_decide (is_Some (g_roles d !! id)) || bool_decide (role_taken id "@everyone" 0 d)
     || bool_decide (everyone_roles d ≠ [])
  then fail (PgError codeUniqueViolation)
  else
    modify (set_roles <[id := Role.mkRole id "@everyone" 0 0 false permissions true (g_now d) (g_now d)]>) ;;
    mret id.
(** The columns name, type and position of a channel are not in the tables of this model. *)
Definition insert_channel (name type : string) (position : Z) (created_by : U) : M (guild U) U :=
  id ← next_id;
  d ← gets (λ d, d);
  if bool_decide (is_Some (g_channels d !! id)) then fail (PgError codeUniqueViolation)
  else if bool_decide (g_users d !! created_by = None) then fail (PgError codeForeignKeyViolation)
  else
    modify (λ d, set_seeded d (g_users d) (<[id := None]> (g_channels d)) (g_server d) (g_onboarding d)) ;;
    mret id.
Definition insert_onboarding (welcome : U) (verify open_join : bool) (min_age : Z) (phone captcha : bool) :
    M (guild U) unit :=
  encode_int4 (Some min_age) ;;
  id ← next_id;
  d ← gets (λ d, d);
  if bool_decide (g_channels d !! welcome = None) then fail (PgError codeForeignKeyViolation)
  else modify (λ d, set_seeded d (g_users d) (g_channels d) (g_server d)
    (Some (Onboarding.mkConfig id (Some welcome) verify open_join min_age phone captcha [] (g_now d) (g_now d)))).
End statements.

Section bootstrap.
Context {U W : Type} `{UUIDLib U} `{!RandomUUID U} `{Postgres (guild U) W} `{Argon2 W} `{!NetMail}.
Context `{PermissionLib} `{RoutePermissions} `{DefaultPermissions}.

Definition IsFirstRun : M W bool :=
  count ← wrap "check first run" (pg_query (gets (λ d : guild U, if g_server d is Some _ then 1 else 0)));
  mret (count =? 0).

(** The transaction. *)
Definition seed (cfg : Config) (ownerEmail username hash : string) : M W unit :=
  ownerID ← wrap "insert owner user" (tx_query (insert_owner (U := U) ownerEmail username hash));
  wrap "insert server_config"
    (tx_query (insert_server (ServerName cfg) (ServerDescription cfg) ownerID)) ;;
  everyoneRoleID ← wrap "insert @everyone role"
    (tx_query (insert_everyone (wrap64 DefaultEveryonePermissions)));
  wrap "insert owner member" (tx_query (insert_member ownerID "active")) ;;
  wrap "insert owner member_roles" (tx_query (insert_member_role ownerID everyoneRoleID)) ;;
  wrap "insert #general channel" (tx_query (insert_channel "general" "text" positionGeneral ownerID)) ;;
  welcomeChannelID ← wrap "insert #welcome channel"
    (tx_query (insert_channel "welcome" "text" positionWelcome ownerID));
  wrap "insert onboarding_config"
    (tx_query (insert_onboarding welcomeChannelID (OnboardingRequireEmailVerification cfg)
       (OnboardingOpenJoin cfg) (OnboardingMinAccountAge cfg) (OnboardingRequirePhone cfg)
       (OnboardingRequireCaptcha cfg))).

Definition RunFirstInit (cfg : Config) : M W unit :=
  if bool_decide (InitOwnerEmail cfg = ""%string) || negb (IsSet (InitOwnerPassword cfg))
     || bool_decide (InitOwnerUsername cfg = ""%string)
  then fail (Plain "INIT_OWNER_EMAIL, INIT_OWNER_PASSWORD, and INIT_OWNER_USERNAME must be set for first-run initialization")
  else
    p ← wrap "invalid INIT_OWNER_EMAIL" (of_res (Validate.Auth.ValidateEmail (InitOwnerEmail cfg)));
    wrap "invalid INIT_OWNER_USERNAME" (of_res (Validate.Auth.ValidateUsername (InitOwnerUsername cfg))) ;;
    hash ← wrap "hash owner password"
             (HashPassword (Expose (InitOwnerPassword cfg))
                (mkParams (Argon2Memory cfg) (Argon2Iterations cfg) (Argon2Parallelism cfg)
                   (Argon2SaltLength cfg) (Argon2KeyLength cfg)));
    WithTx (guild U) (seed cfg p.1 (InitOwnerUsername cfg) hash).
End bootstrap.
