(* ===== verification/GuildHistory.v ===== *)
(** * What holds after any history of requests

    [served allowed] are the worlds a server reaches by answering requests to the routes of
    Routes.v, one after another, each leaving tables that [allowed] admits, while time passes and
    accounts come and go.  The invariants of
    GuildSpec.v and JoinSpec.v hold throughout; no request reaches above its caller's rank; and
    a server on which nobody holds a role stays one on which nobody can be moderated. *)
From S2P Require Import Prelude GoStd Platform Permission PermCache PermInvalidate Validate Config AuthCrypto.
From S2P Require Import Jwt Postgres Frames Domain GuildTables GuildRepo Http MemberApi UserDB JoinApi.
From S2P Require Import GuildSpec JoinSpec ApiLogic MemberProofs JoinProofs GuildStore Routes.
From S2P Require Import Bootstrap.
Open Scope Z_scope.

(** ** The hierarchy, step by step *)
Section steps.
Context {U : Type} `{UUIDLaws U} `{!RandomUUID U} `{!UUIDOrder U} `{!MemberStatuses} `{!MemberStatusLaws}.
Implicit Types (d : guild U) (caller t id u : U).

(** The roles at or above [p] are as they were, and nobody got or lost one but as [ok] says. *)
Definition frozen (ok : U → U → Prop) (p : Z) d d' : Prop :=
  ∀ id r, g_roles d !! id = Some r → Role.Position r ≤ p →
    g_roles d' !! id = Some r ∧
    (Role.IsEveryone r = false →
     ∀ u, ((u, id) ∈ g_member_roles d' → (u, id) ∈ g_member_roles d ∨ ok u id) ∧
          ((u, id) ∈ g_member_roles d → (u, id) ∈ g_member_roles d')).

Lemma step_frozen ok caller d d' : guild_step caller d d' → frozen ok (rank caller d) d d'.
Proof.
  intros Hs id0 r0 Hr0 Hp. destruct Hs; simpl; try (by split; [|split; [left|]]).
  - split; [done|]. intros _ u. rewrite elem_of_union, elem_of_singleton. split; [|by right].
    intros [[= -> ->]|]; [|by left]. simplify_eq. lia.
  - split; [done|]. intros _ u. rewrite elem_of_difference, elem_of_singleton. split; [by intros []; left|].
    intros Hin. split; [done|]. intros [= -> ->]. simplify_eq. lia.
  - split; [|by split; [left|]]. rewrite lookup_insert_ne; [done|]. intros ->. congruence.
  - split; [|by split; [left|]]. rewrite lookup_insert_ne; [done|]. intros ->. simplify_eq. lia.
  - assert (id ≠ id0) by (intros ->; simplify_eq; lia).
    split; [by rewrite lookup_delete_ne|]. intros _ u. rewrite elem_of_filter. simpl. naive_solver.
Qed.

(** What the joins grant. *)
Definition may_grant caller d u id : Prop := u = caller ∧ id ∈ auto_roles d.
Lemma join_step_same caller d d' :
  join_step caller d d' → g_roles d' = g_roles d ∧ auto_roles d' = auto_roles d ∧
    ∀ u i, (u, i) ∈ g_member_roles d' ↔
      (u, i) ∈ g_member_roles d ∨
      ((u, i) ∈ g_member_roles d' ∧ u = caller ∧ (i ∈ everyone_roles d ∨ i ∈ auto_roles d)).
Proof.
  intros Hs. destruct Hs; simpl; (split; [done|]); (split; [done|]); intros a b; try (by intuition).
  all: rewrite elem_of_union, elem_grants; simpl; intuition.
Qed.
Lemma joins_same caller d d' :
  rtc (join_step caller) d d' → g_roles d' = g_roles d ∧ auto_roles d' = auto_roles d ∧
    (∀ u i, (u, i) ∈ g_member_roles d → (u, i) ∈ g_member_roles d') ∧
    (∀ u i, (u, i) ∈ g_member_roles d' → (u, i) ∈ g_member_roles d ∨
       (u = caller ∧ (i ∈ everyone_roles d ∨ i ∈ auto_roles d))).
Proof.
  induction 1 as [d|d1 d2 d3 Hs _ (Hr & Ha & Hk & Hn)]; [by split_and!; auto|].
  apply join_step_same in Hs as (Hr1 & Ha1 & Hm).
  assert (He : everyone_roles d2 = everyone_roles d1) by (unfold everyone_roles; by rewrite Hr1).
  split_and!; [congruence..| |].
  - intros u i Hin. apply Hk, Hm. by left.
  - intros u i [Hin|Hin]%Hn; [|right; by rewrite <-He, <-Ha1]. apply Hm in Hin as [?|(_ & ? & ?)]; auto.
Qed.
Lemma joins_frozen p caller d d' : rtc (join_step caller) d d' → frozen (may_grant caller d) p d d'.
Proof.
  intros (Hr & _ & Hk & Hn)%joins_same id r Hid Hp. split; [by rewrite Hr|].
  intros He u. split; [|apply Hk]. intros [?|[-> [Hin|Hin]]]%Hn; [by left| |by right].
  apply elem_everyone in Hin as (r' & Hr' & He'). congruence.
Qed.
Lemma settings_frozen ok p caller d d' : settings_step caller d d' → frozen ok p d d'.
Proof. intros (_ & cfg & ->) id r Hr Hp. simpl. split; [done|]. split; [by left|done]. Qed.

(** What others can do to a member: end the membership, ban, time out. *)
Definition moderated d d' t : Prop :=
  (is_member d t ∧ ¬ is_member d' t) ∨
  (g_bans d !! t = None ∧ is_Some (g_bans d' !! t)) ∨
  (∃ m m', g_members d !! t = Some m ∧ g_members d' !! t = Some m' ∧
           m_status m' = MemberStatusTimedOut ∧ m_timeout m' ≠ m_timeout m).
Lemma not_member_delete t t0 d :
  is_member d t → ¬ is_Some (delete t0 (g_members d) !! t) → t0 = t.
Proof.
  intros Hm Hn. destruct (decide (t0 = t)) as [|Hne]; [done|]. by rewrite lookup_delete_ne in Hn.
Qed.
Lemma step_moderation caller d d' t :
  guild_step caller d d' → moderated d d' t → owner d ≠ Some t ∧ (t = caller ∨ outranks d caller t).
Proof.
  intros Hs [[Hm Hm']|[[Hb Hb']|(m & m' & Hm & Hm' & Hst & Hne)]].
  - unfold is_member in Hm'. destruct Hs; simpl in Hm'; try done;
      try (apply not_member_delete in Hm' as ->; [|done]; by auto);
      (destruct Hm'; apply lookup_insert_is_Some'; by right).
  - destruct Hs; simpl in Hb'; rewrite ?Hb in Hb'; try (by destruct Hb').
    + destruct (decide (t0 = t)) as [->|Hn]; [by auto|]. rewrite lookup_insert_ne, Hb in Hb' by done. by destruct Hb'.
    + destruct (decide (t0 = t)) as [->|Hn]; [rewrite lookup_delete_eq in Hb'|rewrite lookup_delete_ne, Hb in Hb' by done];
        by destruct Hb'.
  - destruct Hs; simpl in Hm'; try congruence;
      try (apply lookup_delete_Some in Hm' as [_ Hm']; congruence);
      apply lookup_insert_Some in Hm' as [[-> <-]|[_ Hm']]; try congruence; simplify_eq; simpl in *; auto; try done.
    by rewrite status_active, status_timed_out in Hst.
Qed.
Definition untouched d d' : Prop := g_bans d' = g_bans d ∧
  ∀ t m, g_members d !! t = Some m → ∃ m', g_members d' !! t = Some m' ∧ m_timeout m' = m_timeout m.
#[export] Instance untouched_preorder : PreOrder untouched.
Proof.
  split; [intros d; split; [done|eauto]|]. intros d1 d2 d3 [Hb Hm] [Hb' Hm']. split; [congruence|].
  intros t m (m2 & Ht2 & E2)%Hm. apply Hm' in Ht2 as (m3 & Ht3 & E3). exists m3. split; congruence.
Qed.
Lemma join_untouched caller d d' : join_step caller d d' → untouched d d'.
Proof.
  intros Hs. destruct Hs; (split; [done|]); simpl; intros t0 m0 Hm0; try (by exists m0);
    (destruct (decide (t0 = caller)) as [->|Hne]; [|by exists m0; rewrite lookup_insert_ne]); simplify_eq.
  eexists. rewrite lookup_insert_eq. split; done.
Qed.
Lemma joins_untouched caller d d' : rtc (join_step caller) d d' → untouched d d'.
Proof. induction 1 as [|d1 d2 d3 Hs%join_untouched _ IH]; [done|]. by etrans. Qed.
Lemma untouched_moderation d d' t : untouched d d' → ¬ moderated d d' t.
Proof.
  intros [Hb Hm] [[[m Ht] Hn]|[[Hn Hs]|(m & m' & Ht & Ht' & _ & Hne)]].
  - apply Hm in Ht as (m' & Ht' & _). apply Hn. by exists m'.
  - rewrite Hb, Hn in Hs. by destruct Hs.
  - apply Hm in Ht as (m2 & Ht2 & E2). by simplify_eq.
Qed.
Lemma settings_untouched caller d d' : settings_step caller d d' → untouched d d'.
Proof. intros (_ & cfg & ->). split; [done|eauto]. Qed.

(** ** Nobody holds a role *)
Definition nobody_ranked d : Prop :=
  ∀ u i r, g_roles d !! i = Some r → (u, i) ∈ g_member_roles d → Role.IsEveryone r = true.
Record deadlocked d : Prop := {
  dl_inv : guild_inv d; dl_ranks : nobody_ranked d; dl_auto : auto_roles d = [] }.
(** Roles only grow in number, bans and timeouts only in years. *)
Record stuck d d' : Prop := {
  stuck_roles : ∀ id r, g_roles d !! id = Some r → g_roles d' !! id = Some r;
  stuck_bans : ∀ t, is_Some (g_bans d' !! t) → is_Some (g_bans d !! t);
  stuck_timeouts : ∀ t m', g_members d' !! t = Some m' → m_status m' = MemberStatusTimedOut →
    ∃ m, g_members d !! t = Some m ∧ m_status m = MemberStatusTimedOut ∧ m_timeout m = m_timeout m' }.
#[export] Instance stuck_preorder : PreOrder stuck.
Proof.
  split; [intros d; split; eauto|]. intros d1 d2 d3 [Ra Ba Ta] [Rb Bb Tb].
  split; [by intros; apply Rb, Ra|by intros; apply Ba, Bb|].
  intros t m3 Hm3 Hs3. destruct (Tb _ _ Hm3 Hs3) as (m2 & Hm2 & Hs2 & E2). destruct (Ta _ _ Hm2 Hs2) as (m1 & Hm1 & Hs1 & E1).
  exists m1. split_and!; congruence.
Qed.
Lemma unranked u d : nobody_ranked d → rank u d = RoleRepo.MaxInt.
Proof.
  intros Hd. unfold rank. destruct (minimum _) as [p|] eqn:E; [|done].
  apply minimum_Some in E as [(i & r & Hr & Hin & He & ->)%elem_held _].
  specialize (Hd u i r Hr Hin). congruence.
Qed.
Lemma position_lt_MaxInt d i r : guild_inv d → g_roles d !! i = Some r → Role.Position r < RoleRepo.MaxInt.
Proof.
  intros Hd Hr. apply (inv_roles _ Hd) in Hr as (_ & _ & Hi). unfold in_int4 in Hi.
  apply andb_prop in Hi as [_ Hi%Z.leb_le]. unfold RoleRepo.MaxInt, int64_max. lia.
Qed.

Lemma stuck_guild caller d d' : deadlocked d → guild_step caller d d' → deadlocked d' ∧ stuck d d'.
Proof.
  intros [Hd Hn Ha] Hs. pose proof (step_inv _ _ _ Hs Hd) as Hd'.
  assert (Hrank : ∀ t, ¬ outranks d caller t) by (intros t; unfold outranks; rewrite !unranked by done; lia).
  assert (Hrole : ∀ i r, g_roles d !! i = Some r → ¬ rank caller d < Role.Position r).
  { intros i r Hr. rewrite unranked by done. pose proof (position_lt_MaxInt _ _ _ Hd Hr). lia. }
  destruct Hs as [Hm Ho|t Hm Ho Hr|t reason e Hb Hu Ho Hr|t Hb|t m until Hm Ho Hr|t m Hm
    |t m n Hm Hc|t id r Hr He Hrk Hm Hu|t id r Hr He Hrk|id n r Hn0 Hid Hp Hi Ht He|id r p Hr Hrk Hp Hev Ht
    |id r Hr He Hrk]; try (by destruct (Hrank t)); try (by destruct (Hrole id r Hr));
    (split; [split; [done| |done]|]).
  - done.
  - split; simpl; [done..|]. intros t m' [_ Hm']%lookup_delete_Some Hst. by exists m'.
  - done.
  - split; simpl; [done| |by eauto]. intros a [b [_ Hb']%lookup_delete_Some]. by exists b.
  - done.
  - split; simpl; [done..|]. intros a m' [[<- <-]|[_ Hm']]%lookup_insert_Some Hst; [|by exists m'].
    simpl in Hst. by rewrite status_active, status_timed_out in Hst.
  - done.
  - split; simpl; [done..|]. intros a m' [[<- <-]|[_ Hm']]%lookup_insert_Some Hst; [by exists m|by exists m'].
  - intros u i r0 Hr0 Hin. simpl in Hr0. apply lookup_insert_Some in Hr0 as [[<- <-]|[_ Hr0]]; [|by eapply Hn].
    destruct (inv_member_roles _ Hd _ _ Hin) as [_ [r' Hr']]. congruence.
  - split; simpl; [|done|by eauto]. intros i r0 Hr0. rewrite lookup_insert_ne; [done|]. intros ->. congruence.
Qed.
Lemma stuck_join caller d d' : deadlocked d → join_step caller d d' → deadlocked d' ∧ stuck d d'.
Proof.
  intros [Hd Hn Ha] Hs. pose proof (join_step_inv _ _ _ Hs Hd) as Hd'.
  pose proof (join_step_same _ _ _ Hs) as (Hr & Ha' & Hm). split; [split|].
  - done.
  - intros u i r Hi Hin. rewrite Hr in Hi. apply Hm in Hin as [Hin|(_ & _ & [He|Hin])]; [by eapply Hn| |].
    + apply elem_everyone in He as (r' & Hr' & He'). congruence.
    + rewrite Ha in Hin. by apply elem_of_nil in Hin.
  - by rewrite Ha'.
  - split; [by rewrite Hr|by destruct Hs|]. intros t m' Hm' Hst.
    destruct Hs; simpl in Hm'; try (by exists m');
      apply lookup_insert_Some in Hm' as [[-> <-]|[_ Hm']]; try (by exists m'); simpl in Hst.
    + by rewrite status_pending, status_timed_out in Hst.
    + by rewrite status_active, status_timed_out in Hst.
Qed.
Lemma stuck_joins caller d d' : deadlocked d → rtc (join_step caller) d d' → deadlocked d' ∧ stuck d d'.
Proof.
  intros Hd. induction 1 as [|d1 d2 d3 Hs _ IH]; [done|].
  destruct (stuck_join _ _ _ Hd Hs) as [Hd2 Hst]. destruct (IH Hd2) as [Hd3 Hst']. split; [done|by etrans].
Qed.
Lemma stuck_world d d' : deadlocked d → world_step d d' → deadlocked d' ∧ stuck d d'.
Proof.
  intros [Hd Hn Ha] Hs. pose proof (world_step_inv _ _ Hs Hd) as Hd'.
  destruct Hs as [n|u c|u Ho]; (split; [split; try done|]).
  - split; eauto.
  - split; eauto.
  - intros a i r Hr [_ Hin]%elem_of_filter. by eapply Hn.
  - split; simpl; [done| |].
    + intros t [b Hb]. rewrite lookup_fmap in Hb. apply fmap_Some in Hb as (b0 & [_ Hb]%lookup_delete_Some & _).
      by exists b0.
    + intros t m' [_ Hm']%lookup_delete_Some Hst. by exists m'.
Qed.
End steps.

(** ** Histories *)
Section histories.
Context {U W : Type} `{UUIDLaws U} `{!RandomUUID U} `{!UUIDOrder U} `{!MemberStatuses} `{!MemberStatusLaws}.
Context `{PostgresLaws (guild U) W} `{Clock W} `{!PermissionLib} `{!PermissionLaws} `{!RoutePermissions} `{!JwtLib}.
Context `{ValkeyLaws W} `{!Codec (InvalidationMessage U)} `{!Codec (gmap string string)}.
Context `{GatewayQueue W} `{AuditLog U W} `{EventNames} `{ApiErrors} `{TimeFormat} `{TimeParse}.
Context `{!ValkeyFrame (pg_view (DB := guild U) (W := W))} `{!SideFrame (pg_view (DB := guild U) (W := W))}.
Context `{!PgFrame (guild U) (vk_view (W := W))}.
Context `{CryptoRand W} `{!UserRepo U W} `{!UsersTable U W} `{!RandFrame (pg_view (DB := guild U) (W := W))}.
Context `{!Codec (gmap string json_scalar)} `{!OnboardingSteps} (docs : Onboarding.DocumentStore).
Implicit Types (h : handler) (c : request U) (d : guild U) (x : server_route).
Abbreviation view := (pg_view (DB := guild U) (W := W)).

(** A gate lets the request through with the tables as they were, or answers an error. *)
Lemma gate {A B} (m : M W A) f (k : A → M W (response B)) Q :
  keeps view m → (∀ e, refuses (f e)) → (∀ a, handles (k a) Q) → handles (catch m f k) Q.
Proof.
  intros Hm Hf Hk w r w' E. apply catch_inv in E as [(a & w1 & E1 & E)|(e & w1 & E1 & E)];
    pose proof (keeps_run view _ _ _ _ Hm E1) as Hv; rewrite <-Hv.
  - by apply Hk in E.
  - apply Hf in E. by right.
Qed.
Lemma protect_handles {A} a (next : request U → M W (response A)) c Q :
  handles (next c) Q → handles (protect a next c) Q.
Proof.
  intros Hn.
  assert (Hver : ∀ f : request U → M W (response A), handles (f c) Q → handles (RequireVerifiedEmail f c) Q).
  { intros f Hf. unfold RequireVerifiedEmail. destruct (Locals_emailVerified c) as [[]|]; [done|..];
      by apply handles_refuse; auto with refuses. }
  assert (Hact : ∀ f : request U → M W (response A), handles (f c) Q → handles (RequireActiveMember f c) Q).
  { intros f Hf. eapply handles_bind; [apply UserID_reads|]. intros u.
    eapply handles_weaken; [|intros d d' HQ _; exact HQ]. apply gate.
    - eapply reads_keeps, GetStatus_reads.
    - intros e. auto with refuses.
    - intros s. destruct (bool_decide (s = MemberStatusPending)); [by apply handles_refuse; auto with refuses|done]. }
  destruct a as [| | |p|p]; simpl; auto; apply Hver, Hact.
  - eapply handles_bind; [apply UserID_reads|]. intros u.
    eapply handles_weaken; [|intros d d' HQ _; exact HQ]. apply gate.
    + apply keeps_bind; [apply ResolveServer_keeps|intros ?; keeps].
    + intros e. auto with refuses.
    + intros []; [done|by apply handles_refuse; auto with refuses].
  - eapply handles_bind; [apply UserID_reads|]. intros u.
    eapply handles_weaken; [|intros d d' HQ _; exact HQ].
    cbv zeta. destruct (bool_decide (Params c "channelID" = ""%string)); [by apply handles_refuse; auto with refuses|].
    destruct (uuid_Parse _) as [ch|]; [|by apply handles_refuse; auto with refuses]. apply gate.
    + apply keeps_bind; [apply Resolve_keeps|intros ?; keeps].
    + intros e. auto with refuses.
    + intros []; [done|by apply handles_refuse; auto with refuses].
Qed.
(** The user a request authenticates: the subject of its access token. *)
Definition authenticated (cfg : Config) c (w : W) (caller : U) : Prop := ∃ tok src claims,
  credential cfg c = Some (Some (tok, src)) ∧
  (ValidateAccessToken tok (Expose (JWTSecret cfg)) (ServerURL cfg) w).1 = Ok claims ∧
  uuid_Parse (Subject claims) = Ok caller.
Lemma api_routes_steps cfg h x c (w : W) r w' :
  api_routes docs cfg h x c w = (r, w') →
  view w' = view w ∨ ∃ caller, authenticated cfg c w caller ∧ request_steps x caller (view w) (view w').
Proof.
  intros E. apply RequireAuth_inv in E as [(tok & src & claims & u & Hc & Hv & Hu & E)|[-> _]]; [|by left].
  apply RequireCSRF_inv in E as [[E _]|[-> _]]; [|by left].
  eapply (protect_handles _ _ _ (steps_of x _)) in E; [|apply serve_handles].
  destruct E as [[?|(caller & Hl & Hs)]|[? _]]; [by left|right|by left].
  simpl in Hl. injection Hl as <-. exists u. split; [|done]. by exists tok, src, claims.
Qed.

Inductive served cfg h (allowed : server_route → guild U → Prop) : W → W → Prop :=
| served_done w : served cfg h allowed w w
| served_request x c w r w1 w2 :
    allowed x (view w1) → api_routes docs cfg h x c w = (r, w1) → served cfg h allowed w1 w2 → served cfg h allowed w w2
| served_meanwhile w w1 w2 :
    view w1 = view w ∨ world_step (view w) (view w1) → served cfg h allowed w1 w2 → served cfg h allowed w w2.

Lemma request_steps_server x caller d d' : request_steps x caller d d' → rtc server_step d d'.
Proof.
  intros [Hs|[Hs|[_ Hs]]].
  - apply rtc_once. by eapply by_member.
  - eapply rtc_subrel; [|exact Hs]. intros a b. apply by_joiner.
  - apply rtc_once. by eapply by_owner.
Qed.
Lemma served_steps cfg h allowed w w' : served cfg h allowed w w' → rtc server_step (view w) (view w').
Proof.
  induction 1 as [w|x c w r w1 w2 _ E _ IH|w w1 w2 Hw _ IH]; [done| |].
  - apply api_routes_steps in E as [He|(caller & _ & Hs)]; [by rewrite <-He|].
    etrans; [by eapply request_steps_server|done].
  - destruct Hw as [He|Hs]; [by rewrite <-He|]. eapply rtc_l; [by apply by_world|done].
Qed.

(** C6: Whatever requests are served, in whatever order, with whatever outcome, and whoever
    registers or deletes an account meanwhile: the owner stays an unbanned member, no banned user is
    a member, every member holds the one @everyone role, role names and positions stay unique, no
    row of member_roles, members or bans dangles, every status is one of the three, and no invite
    was used more often than it allows or shares its code. *)
Theorem tables_stay_sound cfg h allowed w w' :
  guild_inv (view w) → invites_inv (view w) → served cfg h allowed w w' →
  guild_inv (view w') ∧ invites_inv (view w').
Proof.
  intros Hg Hi Hs%served_steps. induction Hs as [|d1 d2 d3 Hs _ IH]; [done|].
  apply IH; [by eapply server_step_inv|by eapply step_invites].
Qed.

(** C11: A request never reaches the roles at or above its caller's rank: they keep their rows and,
    the automatic roles of a joining caller apart, their holders. *)
Theorem hierarchy_respected cfg h x c (w : W) r w' :
  api_routes docs cfg h x c w = (r, w') → view w' ≠ view w →
  ∃ caller, authenticated cfg c w caller ∧ frozen (may_grant caller (view w)) (rank caller (view w)) (view w) (view w').
Proof.
  intros E Hne. apply api_routes_steps in E as [?|(caller & Ha & [Hs|[Hs|[_ Hs]]])]; [done|..];
    exists caller; (split; [done|]).
  - by apply step_frozen.
  - by apply joins_frozen.
  - by eapply settings_frozen.
Qed.

(** C12: A request that ends a membership, bans or times out a user was made by that user, leaving,
    or by a caller of a strictly higher rank; the owner is never the target. *)
Theorem moderation_outranked cfg h x c (w : W) r w' t :
  api_routes docs cfg h x c w = (r, w') → moderated (view w) (view w') t →
  owner (view w) ≠ Some t ∧ ∃ caller, authenticated cfg c w caller ∧ (t = caller ∨ outranks (view w) caller t).
Proof.
  intros E Hm. apply api_routes_steps in E as [He|(caller & Ha & [Hs|[Hs|[_ Hs]]])].
  - exfalso. rewrite He in Hm. by apply (untouched_moderation (view w) (view w) t).
  - destruct (step_moderation _ _ _ _ Hs Hm). eauto.
  - by apply joins_untouched, (untouched_moderation _ _ t) in Hs.
  - by apply settings_untouched, (untouched_moderation _ _ t) in Hs.
Qed.

(** A request that leaves no automatic role configured. *)
Definition no_auto_roles (x : server_route) (d : guild U) : Prop := auto_roles d = [].
Lemma stuck_settings caller d d' :
  deadlocked d → auto_roles d' = [] → settings_step caller d d' → deadlocked d' ∧ stuck d d'.
Proof.
  intros [Hd Hn _] Ha Hs. pose proof (settings_step_inv _ _ _ Hs Hd) as Hd'.
  destruct Hs as (_ & cfg & ->). split; [by split|split; simpl; eauto].
Qed.
(** Only the owner's request to change the settings configures automatic roles, those it names. *)
Lemma guild_step_auto caller d d' : guild_step caller d d' → auto_roles d' = auto_roles d.
Proof. by intros []. Qed.
Lemma auto_roles_set cfg h x c (w : W) r w' :
  api_routes docs cfg h x c w = (r, w') → auto_roles (view w) = [] → auto_roles (view w') ≠ [] →
  ∃ b caller, x = UpdateOnboarding b ∧ auto_roles_named b ≠ [] ∧
    authenticated cfg c w caller ∧ owner (view w) = Some caller.
Proof.
  intros E Hno Hyes. apply api_routes_steps in E as [He|(caller & Hau & [Hs|[Hs|[(b & -> & Hf) [Ho _]]]])].
  - by rewrite He in Hyes.
  - apply guild_step_auto in Hs. congruence.
  - apply joins_same in Hs as (_ & Hs & _). congruence.
  - exists b, caller. split_and!; [done| |done..]. intros Hb. destruct Hf as [Hf|Hf]; [congruence|].
    rewrite Hb in Hf. by apply Forall2_nil_inv_l in Hf.
Qed.
Lemma served_stuck cfg h w w' :
  deadlocked (view w) → served cfg h no_auto_roles w w' →
  deadlocked (view w') ∧ stuck (view w) (view w').
Proof.
  intros Hd Hs. induction Hs as [w|x c w r w1 w2 Hx E _ IH|w w1 w2 Hw _ IH]; [done| |].
  - assert (Ha : deadlocked (view w1) ∧ stuck (view w) (view w1)).
    { apply api_routes_steps in E as [->|(caller & _ & [Hs|[Hs|[_ Hs]]])];
        [done|by eapply stuck_guild|by eapply stuck_joins|by eapply stuck_settings]. }
    destruct Ha as [Hd1 Hs1]. destruct (IH Hd1) as [Hd2 Hs2]. split; [done|by etrans].
  - assert (Ha : deadlocked (view w1) ∧ stuck (view w) (view w1))
      by (destruct Hw as [->|Hs]; [done|by apply stuck_world]).
    destruct Ha as [Hd1 Hs1]. destruct (IH Hd1) as [Hd2 Hs2]. split; [done|by etrans].
Qed.
End histories.
