(* ===== verification/FirstRun.v ===== *)
(** * A server from its first start on

    What internal/bootstrap/init.go leaves, and what becomes of it: the tables are sound and
    the owner is an active member, but nobody holds a role that ranks, so no request can ban,
    time out or rank anybody; and a member who is removed never comes back. *)
From S2P Require Import Prelude GoStd Platform Permission PermCache PermInvalidate Validate Config AuthCrypto.
From S2P Require Import Jwt Postgres Frames Domain GuildTables GuildRepo Http MemberApi UserDB JoinApi.
From S2P Require Import GuildSpec JoinSpec ApiLogic MemberProofs JoinProofs GuildStore Routes.
From S2P Require Import Bootstrap GuildHistory.
Open Scope Z_scope.

(** Hashing a password is not the database's business. *)
Class HashFrame {W V : Type} `{Argon2 W} (obs : W → V) : Prop := {
  CreateHash_keeps : ∀ p params, keeps obs (argon2id_CreateHash p params) }.

Section seeded.
Context {U : Type} `{UUIDLaws U} `{!RandomUUID U} `{!UUIDOrder U} `{!MemberStatuses} `{!MemberStatusLaws}.
Implicit Types (d : guild U) (u : U).

(** No server yet: accounts apart, nothing is stored. *)
Definition no_server d : Prop :=
  g_server d = None ∧ g_roles d = ∅ ∧ g_members d = ∅ ∧ g_member_roles d = ∅ ∧ g_bans d = ∅ ∧
  g_invites d = ∅ ∧ g_onboarding d = None.
(** One owner, an active member with the @everyone role, which is the only role. *)
Definition seeded perms d : Prop := ∃ o e m r c,
  owner d = Some o ∧ is_Some (g_users d !! o) ∧
  g_roles d = {[e := r]} ∧ Role.ID r = e ∧ Role.Name r = "@everyone"%string ∧ Role.Position r = 0 ∧
  Role.IsEveryone r = true ∧ Role.Permissions r = perms ∧
  g_members d = {[o := m]} ∧ m_status m = MemberStatusActive ∧ g_member_roles d = {[(o, e)]} ∧
  g_bans d = ∅ ∧ g_invites d = ∅ ∧ g_onboarding d = Some c ∧ Onboarding.AutoRoles c = [].

Lemma seeded_deadlocked perms d : seeded perms d → deadlocked d ∧ invites_inv d.
Proof.
  intros (o & e & m & r & c & Ho & Hu & Hr & Hid & Hn & Hp & He & _ & Hm & Hs & Hmr & Hb & Hi & Hc & Ha).
  assert (Hrole : ∀ i r', g_roles d !! i = Some r' → i = e ∧ r' = r)
    by (rewrite Hr; by intros i r' [-> ->]%lookup_singleton_Some).
  assert (Hmem : ∀ u, is_member d u → u = o).
  { intros u [m' Hm']. rewrite Hm in Hm'. by apply lookup_singleton_Some in Hm' as [-> _]. }
  split; [split; [split|..]|split].
  - intros i r' [-> ->]%Hrole. by rewrite Hp.
  - intros i j r1 r2 [-> ->]%Hrole [-> ->]%Hrole. done.
  - exists e, r. rewrite Hr, lookup_singleton_eq. split_and!; [done..|]. by intros i r' [-> _]%lookup_singleton_Some.
  - intros o' Ho'. rewrite Ho in Ho'. injection Ho' as <-. exists m. rewrite Hm. by rewrite lookup_singleton_eq.
  - intros u i Hin. rewrite Hmr in Hin. apply elem_of_singleton in Hin as [= -> ->]. split; [done|].
    rewrite Hr, lookup_singleton_eq. eauto.
  - intros u m' Hm'. rewrite Hm in Hm'. apply lookup_singleton_Some in Hm' as [-> <-]. split; [done|].
    rewrite Hs, status_active. set_solver.
  - rewrite Hb. apply map_Forall_empty.
  - intros u _. by rewrite Hb.
  - intros u i r' ->%Hmem [-> _]%Hrole _. rewrite Hmr. set_solver.
  - intros u i r' [-> ->]%Hrole _. done.
  - unfold auto_roles. by rewrite Hc.
  - rewrite Hi. apply map_Forall_empty.
  - intros i j a b Ha'. by rewrite Hi in Ha'.
Qed.

(** Removed, with the row of @everyone left behind. *)
Definition former d u : Prop :=
  ¬ is_member d u ∧ ∃ e r, g_roles d !! e = Some r ∧ Role.IsEveryone r = true ∧ (u, e) ∈ g_member_roles d.

Definition holds_everyone d u : Prop :=
  ∃ e r, g_roles d !! e = Some r ∧ Role.IsEveryone r = true ∧ (u, e) ∈ g_member_roles d.
Lemma inv_holds d u : guild_inv d → is_member d u → holds_everyone d u.
Proof.
  intros Hd Hm. destruct (inv_everyone _ Hd) as (e & r & Hr & He & _). exists e, r. split_and!; [done..|].
  by eapply inv_holds_everyone.
Qed.
Lemma step_holds caller d d' u : guild_step caller d d' → holds_everyone d u → holds_everyone d' u.
Proof.
  intros Hs (e & r & Hr & He & Hin). destruct Hs; try (by exists e, r).
  - exists e, r. split_and!; [done..|]. simpl. apply elem_of_union. by right.
  - exists e, r. split_and!; [done..|]. simpl. apply elem_of_difference. split; [done|].
    intros [= _ ->]%elem_of_singleton. congruence.
  - exists e, r. split_and!; [|done..]. simpl. rewrite lookup_insert_ne; [done|]. intros ->. congruence.
  - destruct (decide (id = e)) as [->|Hne].
    + exists e, (set_role p (g_now d) r). simpl. split_and!; [|done..]. simplify_eq. by rewrite lookup_insert_eq.
    + exists e, r. simpl. by rewrite lookup_insert_ne.
  - assert (id ≠ e) by (intros ->; congruence). exists e, r. simpl. rewrite lookup_delete_ne by done.
    split_and!; [done..|]. apply elem_of_filter. split; [by apply not_eq_sym|done].
Qed.
Lemma step_not_member caller d d' u : guild_step caller d d' → ¬ is_member d u → ¬ is_member d' u.
Proof.
  intros Hs Hn [m Hm]. apply Hn. unfold is_member. destruct Hs; simpl in Hm; eauto;
    first [apply lookup_delete_Some in Hm as [_ Hm]; eauto
          |apply lookup_insert_Some in Hm as [[<- _]|[_ Hm]]; eauto].
Qed.
Lemma join_former caller d d' u : join_step caller d d' → former d u → former d' u.
Proof.
  intros Hs [Hn (e & r & Hr & He & Hin)].
  assert (Hh : holds_everyone d' u).
  { pose proof (join_step_same _ _ _ Hs) as (Hr' & _ & Hm). exists e, r. rewrite Hr'. split_and!; [done..|].
    apply Hm. by left. }
  split; [|exact Hh]. intros [m' Hm']. apply Hn. unfold is_member.
  destruct Hs as [Hu Hm Hb Hfree|m Hm Hp Hl| | | | | |]; simpl in Hm'; eauto;
    apply lookup_insert_Some in Hm' as [[-> _]|[_ Hm']]; eauto.
  destruct (Hfree e); [|done]. apply elem_everyone. eauto.
Qed.
Lemma joins_former caller d d' u : rtc (join_step caller) d d' → former d u → former d' u.
Proof. induction 1; eauto using join_former. Qed.
End seeded.

Section theorems.
Context {U W : Type} `{UUIDLaws U} `{!RandomUUID U} `{!UUIDOrder U} `{!MemberStatuses} `{!MemberStatusLaws}.
Context `{PostgresLaws (guild U) W} `{Clock W} `{!PermissionLib} `{!PermissionLaws} `{!RoutePermissions} `{!JwtLib}.
Context `{ValkeyLaws W} `{!Codec (InvalidationMessage U)} `{!Codec (gmap string string)}.
Context `{GatewayQueue W} `{AuditLog U W} `{EventNames} `{ApiErrors} `{TimeFormat} `{TimeParse}.
Context `{!ValkeyFrame (pg_view (DB := guild U) (W := W))} `{!SideFrame (pg_view (DB := guild U) (W := W))}.
Context `{!PgFrame (guild U) (vk_view (W := W))}.
Context `{CryptoRand W} `{!UserRepo U W} `{!UsersTable U W} `{!RandFrame (pg_view (DB := guild U) (W := W))}.
Context `{!Codec (gmap string json_scalar)} `{!OnboardingSteps} (docs : Onboarding.DocumentStore).
Context `{!DefaultPermissions} `{Argon2 W} `{!NetMail} `{!HashFrame (pg_view (DB := guild U) (W := W))}.
Implicit Types (h : handler) (c : request U) (d : guild U) (x : server_route) (w : W).
Abbreviation view := (pg_view (DB := guild U) (W := W)).

(** The statements of the seed, on tables without a server. *)
Definition seed_tables (cfg : Config) (ownerEmail username hash : string) : M (guild U) unit :=
  o ← wrap "insert owner user" (insert_owner ownerEmail username hash);
  wrap "insert server_config" (insert_server (ServerName cfg) (ServerDescription cfg) o) ;;
  e ← wrap "insert @everyone role" (insert_everyone (wrap64 DefaultEveryonePermissions));
  wrap "insert owner member" (insert_member o "active") ;;
  wrap "insert owner member_roles" (insert_member_role o e) ;;
  wrap "insert #general channel" (insert_channel "general" "text" positionGeneral o) ;;
  ch ← wrap "insert #welcome channel" (insert_channel "welcome" "text" positionWelcome o);
  wrap "insert onboarding_config"
    (insert_onboarding ch (OnboardingRequireEmailVerification cfg) (OnboardingOpenJoin cfg)
       (OnboardingMinAccountAge cfg) (OnboardingRequirePhone cfg) (OnboardingRequireCaptcha cfg)).
Lemma seed_body cfg e u hash : tx_body (seed (U := U) (W := W) cfg e u hash) (seed_tables cfg e u hash).
Proof. unfold seed, seed_tables. repeat tx_step. Qed.

Lemma seed_seeded cfg em us hash d a d' :
  no_server d → seed_tables cfg em us hash d = (Ok a, d') → seeded (wrap64 DefaultEveryonePermissions) d'.
Proof.
  intros (Hs & Hr & Hm & Hmr & Hb & Hi & Ho) E. unfold seed_tables in E.
  apply bind_Ok_inv in E as (o & d1 & E1 & E). apply wrap_Ok_inv in E1.
  unfold insert_owner, next_id, gets, modify, mbind, M_bind, mret, M_ret, fail in E1. simpl in E1.
  destruct (bool_decide _) in E1; [done|]. injection E1 as <- <-.
  apply bind_Ok_inv in E as ([] & d2 & E1 & E). apply wrap_Ok_inv in E1.
  unfold insert_server, next_id, gets, modify, mbind, M_bind, mret, M_ret, fail in E1. simpl in E1.
  destruct (bool_decide _) in E1; [done|]. injection E1 as <-.
  apply bind_Ok_inv in E as (e & d3 & E1 & E). apply wrap_Ok_inv in E1.
  unfold insert_everyone, next_id, gets, modify, mbind, M_bind, mret, M_ret, fail in E1. simpl in E1.
  destruct (_ || _) in E1; [done|]. injection E1 as <- <-.
  apply bind_Ok_inv in E as ([] & d4 & E1 & E). apply wrap_Ok_inv in E1.
  unfold insert_member, gets, modify, mbind, M_bind, fail in E1. simpl in E1.
  destruct (bool_decide _) in E1; [done|]. destruct (bool_decide _) in E1; [done|]. injection E1 as <-.
  apply bind_Ok_inv in E as ([] & d5 & E1 & E). apply wrap_Ok_inv, insert_member_role_Ok in E1 as (_ & Hu & _ & ->).
  apply bind_Ok_inv in E as (g & d6 & E1 & E). apply wrap_Ok_inv in E1.
  unfold insert_channel, next_id, gets, modify, mbind, M_bind, mret, M_ret, fail in E1. simpl in E1.
  destruct (bool_decide _) in E1; [done|]. destruct (bool_decide _) in E1; [done|]. injection E1 as <- <-.
  apply bind_Ok_inv in E as (ch & d7 & E1 & E). apply wrap_Ok_inv in E1.
  unfold insert_channel, next_id, gets, modify, mbind, M_bind, mret, M_ret, fail in E1. simpl in E1.
  destruct (bool_decide _) in E1; [done|]. destruct (bool_decide _) in E1; [done|]. injection E1 as <- <-.
  apply wrap_Ok_inv in E. unfold insert_onboarding in E.
  apply bind_Ok_inv in E as ([] & d8 & E1 & E). apply encode_int4_Ok in E1 as [-> _].
  unfold next_id, gets, modify, mbind, M_bind, mret, M_ret, fail in E. simpl in E.
  destruct (bool_decide _) in E; [done|]. injection E as _ <-.
  eexists _, _, _, _, _. simpl. rewrite Hr, Hm, Hmr, Hb, Hi. split_and!; try reflexivity.
  - exact Hu.
  - by rewrite status_active.
  - set_solver.
Qed.

Lemma writes_after {A B} (m : M W A) (k : A → M W B) S :
  keeps view m → (∀ a, writes (k a) S) → writes (m ≫= k) S.
Proof.
  intros Hm Hk w r w' E. apply bind_inv in E as [(a & w1 & E1 & E)|(e & E1 & ->)];
    pose proof (keeps_run view _ _ _ _ Hm E1) as Hv; rewrite <-Hv; [by apply Hk in E|right; eauto].
Qed.
Lemma RunFirstInit_writes cfg :
  writes (RunFirstInit (U := U) (W := W) cfg)
    (λ d d', no_server d → seeded (wrap64 DefaultEveryonePermissions) d').
Proof.
  unfold RunFirstInit. destruct (_ || _).
  { intros w r w' [= <- <-]. right. eauto. }
  apply writes_after; [keeps|]. intros p. apply writes_after; [keeps|]. intros [].
  apply writes_after; [unfold HashPassword; apply keeps_wrap, keeps_wrap, CreateHash_keeps|]. intros hash.
  eapply writes_atomic; [intros w r w' E; eapply WithTx_atomic; [apply seed_body|exact E]|].
  intros d a d' E Hd. by eapply seed_seeded.
Qed.

(** The first start either fails, and then the tables are as they were or complete, or it leaves
    sound tables with one owner, who is an active member and may do everything, and with a single
    role, @everyone, of the documented permissions. *)
Lemma first_run_seeds cfg w r w' :
  no_server (view w) → RunFirstInit (U := U) cfg w = (r, w') →
  match r with
  | Ok _ => seeded (wrap64 DefaultEveryonePermissions) (view w')
  | Err _ => view w' = view w ∨ seeded (wrap64 DefaultEveryonePermissions) (view w')
  end ∧
  (∀ perms, seeded perms (view w') → guild_inv (view w') ∧ invites_inv (view w') ∧
     ∃ o, owner (view w') = Some o ∧ is_admin (guild_perms (view w')) o).
Proof.
  intros Hd E. split.
  - apply RunFirstInit_writes in E as [HS|[Hv [e ->]]]; [|by left]. specialize (HS Hd). destruct r; [done|by right].
  - intros perms Hse. pose proof Hse as (o & _ & _ & _ & _ & Ho & _).
    apply seeded_deadlocked in Hse as [[Hg _ _] Hi]. split_and!; [done..|]. exists o. split; [done|]. by left.
Qed.

(** C23: On a server that has just been started for the first time nobody outranks anybody: as long
    as no request leaves an automatic role configured, whatever else is asked and by whomever,
    nobody holds a role but @everyone, nobody is banned or timed out, and no request changes or
    deletes a role; and only a request of the owner that names automatic roles configures one. *)
Theorem fresh_server_deadlock cfg h perms w w' :
  seeded perms (view w) → served docs cfg h no_auto_roles w w' →
  (∀ u i r, g_roles (view w') !! i = Some r → (u, i) ∈ g_member_roles (view w') → Role.IsEveryone r = true) ∧
  g_bans (view w') = ∅ ∧
  (∀ w1 x c r w2 id ro, served docs cfg h no_auto_roles w w1 →
     no_auto_roles x (view w2) → api_routes docs cfg h x c w1 = (r, w2) →
     g_roles (view w1) !! id = Some ro → g_roles (view w2) !! id = Some ro) ∧
  (∀ t m, g_members (view w') !! t = Some m → m_status m ≠ MemberStatusTimedOut) ∧
  (∀ x c r w2, api_routes docs cfg h x c w' = (r, w2) → auto_roles (view w2) ≠ [] →
     ∃ b caller, x = UpdateOnboarding b ∧ auto_roles_named b ≠ [] ∧
       authenticated cfg c w' caller ∧ owner (view w') = Some caller).
Proof.
  intros Hse Hs. pose proof Hse as (o & e & m0 & r0 & c0 & _ & _ & _ & _ & _ & _ & _ & _ & Hm & Hst & _ & Hb & _).
  apply seeded_deadlocked in Hse as [Hd _].
  destruct (served_stuck docs cfg h w w' Hd Hs) as [Hd' Hk]. split_and!.
  - apply Hd'.
  - apply map_empty. intros t. destruct (g_bans (view w') !! t) as [b|] eqn:E; [|done].
    destruct (stuck_bans _ _ Hk t) as [b0 Hb']; [by rewrite E|]. by rewrite Hb in Hb'.
  - intros w1 x c r w2 id ro Hs1 Hx E Hro. destruct (served_stuck docs cfg h w w1 Hd Hs1) as [Hd1 _].
    assert (Hs2 : served docs cfg h no_auto_roles w1 w2)
      by (eapply served_request; [exact Hx|exact E|apply served_done]).
    destruct (served_stuck docs cfg h w1 w2 Hd1 Hs2) as [_ Hk2]. by apply (stuck_roles _ _ Hk2).
  - intros t m Ht Hto. destruct (stuck_timeouts _ _ Hk t m Ht Hto) as (m1 & Hm1 & Hs1 & _).
    rewrite Hm in Hm1. apply lookup_singleton_Some in Hm1 as [-> <-]. rewrite Hst in Hs1.
    by rewrite status_active, status_timed_out in Hs1.
  - intros x c r w2 E. eapply auto_roles_set; [exact E|]. by apply Hd'.
Qed.

(** C22: Once a request has ended a membership no request restores it: the row of @everyone stays
    behind in member_roles, and joining inserts it again.  So a member who was kicked, unbanned or
    who left can never rejoin. *)
Theorem leaving_is_final cfg h x c w r w' u :
  guild_inv (view w) → api_routes docs cfg h x c w = (r, w') →
  (is_member (view w) u → is_member (view w') u ∨ former (view w') u) ∧
  (former (view w) u → former (view w') u).
Proof.
  intros Hd E. apply api_routes_steps in E as [He|(caller & _ & [Hs|[Hs|[_ Hs]]])].
  - rewrite He. by auto.
  - split.
    + intros Hm. destruct (decide (is_Some (g_members (view w') !! u))) as [?|Hn]; [by left|right].
      split; [done|]. by eapply step_holds, inv_holds.
    + intros [Hn Hh]. split; [by eapply step_not_member|by eapply step_holds].
  - split; [|by eapply joins_former]. intros [m Hm]. left.
    apply joins_untouched in Hs as [_ Hs]. destruct (Hs u m Hm) as (m' & Hm' & _). by exists m'.
  - destruct Hs as (_ & cfg' & Hv). rewrite Hv. split; [by left|done].
Qed.
End theorems.
