(* ===== verification/MemberList.v ===== *)
(** * The member list of a channel

    [ListChannelMembers] reads the members in batches, filters each batch by permission and
    stops when the page is full.  It ends, and the page is what one would get by filtering the
    whole list: the first permitted members after the cursor, in the order of joining. *)
From stdpp Require Import sorting.
From S2P Require Import Prelude GoStd Platform Permission PermCache PermInvalidate Validate Config.
From S2P Require Import Jwt Postgres Frames Domain GuildTables GuildRepo Http MemberApi UserDB JoinApi.
From S2P Require Import GuildSpec ApiLogic MemberProofs GuildStore Routes.
Open Scope Z_scope.

(** ** Sorted lists and cursors *)
Section sorted.
Context {A : Type} (R : relation A).
Lemma filter_kept (P : A → Prop) `{∀ x, Decision (P x)} l : Forall P l → filter P l = l.
Proof. induction 1 as [|x l Hx _ IH]; [done|]. rewrite filter_cons_True by done. by rewrite IH. Qed.
Lemma filter_refused (P : A → Prop) `{∀ x, Decision (P x)} l : Forall (λ x, ¬ P x) l → filter P l = [].
Proof. induction 1 as [|x l Hx _ IH]; [done|]. by rewrite filter_cons_False. Qed.
(** What is above a cursor in a sorted list is a suffix of it. *)
Lemma filter_suffix (P : A → Prop) `{∀ x, Decision (P x)} l :
  StronglySorted R l → (∀ x y, R x y → P x → P y) → ∃ l1, l = l1 ++ filter P l.
Proof.
  intros Hs HP. induction Hs as [|x l Hl IH Hx]; [by exists []|]. destruct (decide (P x)) as [Hp|Hp].
  - exists []. rewrite filter_cons_True by done. simpl. f_equal. symmetry. apply filter_kept.
    eapply Forall_impl; [exact Hx|]. intros y Hy. by eapply HP.
  - destruct IH as [l1 IH]. exists (x :: l1). rewrite filter_cons_False by done. simpl. by f_equal.
Qed.
End sorted.

Section order.
Context {U : Type} `{UUIDLaws U} `{!RandomUUID U} `{!UUIDOrder U}.
Implicit Types (d : guild U).
#[local] Instance key_le_trans : Transitive (key_le (U := U)).
Proof.
  intros [a x] [b y] [c z]. unfold key_le. simpl. intros [?|[-> Hxy]] [?|[-> Hyz]]; [left; lia|by left|by left|].
  right. split; [done|by etrans].
Qed.
#[local] Instance key_le_total : Total (key_le (U := U)).
Proof.
  intros [a x] [b y]. unfold key_le. simpl. destruct (Z.lt_trichotomy a b) as [?|[->|?]]; [by left; left| |by right; left].
  destruct (total uuid_le x y); [left|right]; by right.
Qed.
Lemma key_le_antisym (a b : key) : key_le (U := U) a b → key_le b a → a = b.
Proof.
  destruct a as [a x], b as [b y]. unfold key_le. simpl. intros [?|[-> Hxy]] [?|[Heq Hyx]]; try lia.
  f_equal. by apply (anti_symm uuid_le).
Qed.
#[local] Instance by_joined_trans : Transitive (by_joined (U := U)).
Proof. intros a b c. unfold by_joined. by etrans. Qed.
#[local] Instance by_joined_total : Total (by_joined (U := U)).
Proof. intros a b. unfold by_joined. apply key_le_total. Qed.

Definition visible_rows hidden d : list (Member.WithProfile U) :=
  omap (λ p, if bool_decide (m_status p.2 = hidden) then None else profile p.1 p.2 d) (map_to_list (g_members d)).
Lemma listed_sorted hidden d : StronglySorted by_joined (listed hidden d).
Proof. unfold listed. apply (StronglySorted_merge_sort by_joined). Qed.
Lemma listed_perm hidden d : listed hidden d ≡ₚ visible_rows hidden d.
Proof. apply merge_sort_Permutation. Qed.
Lemma elem_listed hidden d m :
  m ∈ listed hidden d → ∃ row, g_members d !! Member.UserID m = Some row ∧ Member.JoinedAt m = m_joined row.
Proof.
  rewrite listed_perm. unfold visible_rows. rewrite list_elem_of_omap.
  intros ([u row] & Hin & Hm). apply elem_of_map_to_list in Hin. simpl in Hm.
  destruct (bool_decide _); [done|]. unfold profile in Hm. destruct (g_users d !! u); [|done].
  injection Hm as <-. by exists row.
Qed.
Lemma listed_NoDup hidden d : NoDup (Member.UserID <$> listed hidden d).
Proof.
  rewrite (listed_perm hidden d). unfold visible_rows.
  assert (Hn : NoDup (map_to_list (g_members d)).*1) by apply NoDup_fst_map_to_list.
  induction (map_to_list (g_members d)) as [|[u row] l IH]; [constructor|].
  apply NoDup_cons in Hn as [Hu Hn]. simpl. destruct (bool_decide _); [by apply IH|].
  unfold profile at 1. simpl. destruct (g_users d !! u); simpl; [|by apply IH].
  constructor; [|by apply IH]. intros (m & Hm & Hin)%list_elem_of_fmap.
  apply list_elem_of_omap in Hin as ([u' row'] & Hin & Hm'). simpl in Hm'.
  destruct (bool_decide _); [done|]. unfold profile in Hm'. destruct (g_users d !! u'); [|done].
  injection Hm' as <-. simpl in Hm. subst u'. apply Hu. apply list_elem_of_fmap. by exists (u, row').
Qed.

(** The rows after a cursor. *)
Definition rows_after hidden (cur : option U) d : list (Member.WithProfile U) :=
  match cur with
  | None => listed hidden d
  | Some a => filter (λ m, past a d (member_key m) = true) (listed hidden d)
  end.
Lemma past_spec a d k row : g_members d !! a = Some row →
  past a d k = true ↔ key_le (m_joined row, a) k ∧ k ≠ (m_joined row, a).
Proof. intros Hrow. unfold past. rewrite Hrow. apply bool_decide_eq_true. Qed.
Lemma rows_after_suffix hidden cur d : ∃ l1, listed hidden d = l1 ++ rows_after hidden cur d.
Proof.
  destruct cur as [a|]; [|by exists []]. simpl. destruct (g_members d !! a) as [row|] eqn:Ea.
  - apply (filter_suffix by_joined); [apply listed_sorted|]. intros x y Hxy.
    rewrite !(past_spec _ _ _ _ Ea). intros [Hle Hne]. split; [by etrans|]. intros Heq.
    apply Hne, key_le_antisym; [|done]. by rewrite <-Heq.
  - exists (listed hidden d). rewrite filter_refused; [by rewrite app_nil_r|].
    apply Forall_forall. intros x _. unfold past. by rewrite Ea.
Qed.
Lemma rows_after_next hidden cur d b rest m :
  rows_after hidden cur d = b ++ rest → last b = Some m →
  rows_after hidden (Some (Member.UserID m)) d = rest.
Proof.
  intros Hb Hm. destruct (rows_after_suffix hidden cur d) as [l1 Hl].
  apply last_Some in Hm as [b' ->]. rewrite Hb in Hl.
  assert (Hl' : listed hidden d = (l1 ++ b') ++ m :: rest) by (by rewrite Hl, <-!(assoc_L (++))).
  pose proof (listed_sorted hidden d) as Hs. pose proof (listed_NoDup hidden d) as Hn.
  destruct (elem_listed hidden d m) as (row & Hrow & Hj); [rewrite Hl'; set_solver|].
  rewrite Hl' in Hs, Hn. simpl. rewrite Hl'. apply StronglySorted_app in Hs as (Hlt & _ & Hs).
  apply StronglySorted_inv in Hs as [_ Hgt].
  rewrite filter_app, filter_cons_False, filter_refused, (filter_kept _ rest); [done|..].
  - apply Forall_forall. intros x Hx. rewrite (past_spec _ _ _ _ Hrow). rewrite <-Hj. split.
    + rewrite Forall_forall in Hgt. by apply Hgt.
    + intros [= _ He]. rewrite fmap_app in Hn. apply NoDup_app in Hn as (_ & _ & Hn). simpl in Hn.
      apply NoDup_cons in Hn as [Hn _]. apply Hn. rewrite <-He. by apply list_elem_of_fmap_2.
  - apply Forall_forall. intros x Hx. rewrite (past_spec _ _ _ _ Hrow). rewrite <-Hj. intros [Hle Hne].
    apply Hne, key_le_antisym; [|done]. apply (Hlt x m Hx). by left.
  - rewrite (past_spec _ _ _ _ Hrow), <-Hj. by intros [_ []].
Qed.
End order.

(** ** The loop *)
Section page.
Context {U W : Type} `{UUIDLaws U} `{!RandomUUID U} `{!UUIDOrder U} `{!MemberStatuses}.
Context `{PostgresLaws (guild U) W} `{Clock W} `{!PermissionLib} `{!PermissionLaws}.
Context `{ValkeyLaws W} `{ApiErrors} `{TimeFormat}.
Context `{!ValkeyFrame (pg_view (DB := guild U) (W := W))} `{!PgFrame (guild U) (vk_view (W := W))}.
Implicit Types (c : request U) (d : guild U) (w : W) (u ch : U).
Abbreviation view := (pg_view (DB := guild U) (W := W)).

(** [ok] says who may see the channel. *)
Definition sees d ch (ok : U → bool) : Prop :=
  ∀ u p, effective (guild_perms d) u ch p → ok u = perm_Has p ViewChannels.
Definition page_of (ok : U → bool) (limit : Z) (rows : list (Member.WithProfile U)) : list Models.Member :=
  take (Z.to_nat limit) (Member.ToModel <$> filter (λ m, ok (Member.UserID m) = true) rows).

Lemma take_take_app {A} n (l k : list A) : take n (take n l ++ k) = take n (l ++ k).
Proof.
  destruct (decide (n ≤ length l)%nat) as [Hn|Hn].
  - rewrite !take_app_le by (rewrite ?length_take; lia). by rewrite take_take, Nat.min_id.
  - by rewrite (take_ge l) by lia.
Qed.
Lemma collect_spec (ok : U → bool) n batch bs acc :
  Forall2 (λ m b, b = ok (Member.UserID m)) batch bs → (length acc < n)%nat →
  MemberHandler.collect n (zip batch bs) acc =
  take n (acc ++ (Member.ToModel <$> filter (λ m, ok (Member.UserID m) = true) batch)).
Proof.
  intros Hb. revert acc. induction Hb as [|m b batch bs -> Hb IH]; intros acc Hn; simpl.
  - rewrite app_nil_r, take_ge; [done|lia].
  - destruct (ok (Member.UserID m)) eqn:Eo.
    + rewrite filter_cons_True by done. simpl. destruct (Nat.leb_spec n (length (acc ++ [Member.ToModel m]))) as [Hle|Hgt].
      * rewrite length_app in Hle. simpl in Hle.
        symmetry. rewrite cons_middle, (assoc_L (++)). apply take_app_length'. rewrite length_app. simpl. lia.
      * rewrite IH by lia. by rewrite <-(assoc_L (++)).
    + rewrite filter_cons_False by congruence. by apply IH.
Qed.

Lemma MemberList_inv cur n w r w' :
  MemberRepo.List (U := U) cur n w = (r, w') →
  unchanged (U := U) w w' ∧ view w' = view w ∧
  ∀ l, r = Ok l → l = take (Z.to_nat n) (rows_after MemberStatusPending cur (view w)).
Proof.
  intros E. pose proof (keeps_run view _ _ _ _ (gets_keeps _ _) E) as Hv.
  apply store_query in E as [Hu Hr]. split_and!; [done..|]. intros l Hl. rewrite (Hr _ Hl).
  by destruct cur.
Qed.

Lemma channel_page_spec fuel limit ch cur acc w r w' :
  db_wf (guild_perms (view w)) → coherent (U := U) w → ch ≠ serverPermKey → 1 ≤ limit →
  (length (rows_after MemberStatusPending cur (view w)) < fuel)%nat → Z.of_nat (length acc) ≤ limit →
  MemberHandler.channel_page fuel limit ch cur acc w = (r, w') →
  ∃ resp, r = Ok resp ∧ (succeeded r → status resp = StatusOK ∧ ∀ ok, sees (view w) ch ok →
    content resp = Data (take (Z.to_nat limit) (acc ++
      (Member.ToModel <$> filter (λ m, ok (Member.UserID m) = true)
                                 (rows_after MemberStatusPending cur (view w)))))).
Proof.
  revert cur acc w. induction fuel as [|fuel IH]; intros cur acc w Hwf Hco Hch Hlim Hfuel Hacc E; [lia|].
  simpl in E. destruct (Z.leb_spec limit (Z.of_nat (length acc))) as [Hge|Hlt].
  { injection E as <- <-. eexists. split; [done|]. intros _. split; [done|]. intros ok _. simpl. f_equal.
    rewrite take_app_le by lia. rewrite take_ge; [done|lia]. }
  apply catch_inv in E as [(batch & w1 & E1 & E)|(e & w1 & E1 & E)]; apply MemberList_inv in E1 as (Hu1 & Hv1 & Hb).
  2:{ injection E as <- <-. eexists. split; [done|]. intros Hs. simpl in Hs. done. }
  specialize (Hb _ eq_refl). pose proof (coherent_unchanged _ _ Hco Hu1) as Hco1. rewrite <-Hv1 in Hwf.
  apply catch_inv in E as [(bs & w2 & E2 & E)|(e & w2 & E2 & E)].
  2:{ injection E as <- <-. eexists. split; [done|]. intros Hs. simpl in Hs. done. }
  pose proof (keeps_run view _ _ _ _ (FilterUsers_keeps _ _ _) E2) as Hv2.
  pose proof (λ Hw, FilterUsersPermitted_spec _ _ _ w1 _ w2 Hw Hco1 Hch E2) as Hf.
  destruct (Hf Hwf) as (_ & Hco2 & Hans). clear Hf.
  specialize (Hans _ eq_refl). cbv zeta in E.
  set (rows := rows_after MemberStatusPending cur (view w)) in *.
  assert (Hcol : ∀ ok, sees (view w) ch ok →
    MemberHandler.collect (Z.to_nat limit) (zip batch bs) acc =
    take (Z.to_nat limit) (acc ++ (Member.ToModel <$> filter (λ m, ok (Member.UserID m) = true) batch))).
  { intros ok Hok. apply collect_spec; [|lia]. clear -Hans Hok Hv1. unfold answers in Hans.
    apply Forall2_fmap_l in Hans. eapply Forall2_impl; [exact Hans|]. intros m b (p & Hp & ->). symmetry.
    apply Hok. simpl in Hp. by rewrite Hv1 in Hp. }
  set (n := limit * MemberHandler.batchMultiplier) in *. unfold MemberHandler.batchMultiplier in n.
  destruct (Z.ltb_spec (Z.of_nat (length batch)) n) as [Hshort|Hfull].
  - injection E as <- <-. eexists. split; [done|]. intros _. split; [done|]. intros ok Hok. simpl. f_equal.
    assert (Hall : batch = rows) by (rewrite Hb, take_ge; [done|]; rewrite Hb, length_take in Hshort; lia).
    rewrite (Hcol ok Hok). by rewrite Hall.
  - assert (Hrest : rows = batch ++ drop (Z.to_nat n) rows) by (rewrite Hb; by rewrite take_drop).
    assert (Hlen : length batch = Z.to_nat n) by (pose proof (f_equal length Hb) as Hb'; rewrite length_take in Hb'; lia).
    destruct (last batch) as [m|] eqn:Em; [|apply last_None in Em; rewrite Em in Hlen; rewrite length_nil in Hlen; lia].
    pose proof (rows_after_next _ _ _ _ _ _ Hrest Em) as Hnext. simpl in E.
    assert (Hvw : view w2 = view w) by congruence.
    assert (Hbound : (length (rows_after MemberStatusPending (Some (Member.UserID m)) (view w2)) < fuel)%nat).
    { rewrite Hvw, Hnext, length_drop. rewrite Hrest, length_app in Hfuel. rewrite length_drop in Hfuel. lia. }
    assert (Hsize : Z.of_nat (length (MemberHandler.collect (Z.to_nat limit) (zip batch bs) acc)) ≤ limit).
    { clear -Hlt Hlim. revert acc Hlt. generalize (zip batch bs). intros l. induction l as [|[x b] l IHl]; intros acc Hlt; simpl; [lia|].
      destruct b; [|by apply IHl]. destruct (Nat.leb_spec (Z.to_nat limit) (length (acc ++ [Member.ToModel x]))) as [Hle|Hgt].
      - rewrite length_app. simpl. lia.
      - apply IHl. lia. }
    rewrite <-Hv2 in Hwf. destruct (IH _ _ _ Hwf Hco2 Hch Hlim Hbound Hsize E) as (resp & -> & Hresp).
    exists resp. split; [done|]. intros Hs. destruct (Hresp Hs) as [Hst Hok']. split; [done|]. intros ok Hok.
    rewrite (Hok' ok) by (by rewrite Hvw). f_equal. rewrite Hvw, Hnext, (Hcol ok Hok), take_take_app.
    rewrite Hrest at 2. by rewrite filter_app, fmap_app, (assoc_L (++)).
Qed.

Lemma length_rows_after hidden cur d : (length (rows_after hidden cur d) ≤ size (g_members d))%nat.
Proof.
  destruct (rows_after_suffix hidden cur d) as [l1 Hl]. apply (f_equal length) in Hl.
  rewrite length_app, (listed_perm hidden d) in Hl. unfold visible_rows in Hl.
  rewrite <-length_map_to_list.
  assert (Ho : ∀ (f : U * member_row → option (Member.WithProfile U)) l, (length (omap f l) ≤ length l)%nat).
  { intros f l. induction l as [|x l IH]; [done|]. change (omap f (x :: l)) with (match f x with Some y => y :: omap f l | None => omap f l end). destruct (f x); simpl; lia. }
  eapply Nat.le_trans; [|apply (Ho (λ p, if bool_decide (m_status p.2 = hidden) then None else profile p.1 p.2 d))].
  rewrite Hl. apply Nat.le_add_l.
Qed.

(** The request [c] asks for at most [limit] members of channel [ch] after the cursor. *)
Definition asks c ch (after : option U) (limit : Z) : Prop :=
  uuid_Parse (Params c "channelID") = Ok ch ∧
  match after with
  | None => Query c "after" = ""%string
  | Some a => Query c "after" ≠ ""%string ∧ uuid_Parse (Query c "after") = Ok a
  end ∧
  ∃ raw, limit = Validate.Member.ClampLimit raw ∧
         (Query c "limit" = ""%string ∧ raw = 0 ∨ Query c "limit" ≠ ""%string ∧ ParseInt (Query c "limit") = Ok raw).

(** C24: listing a channel's members always answers (the batches run out before the fuel does),
    changes nothing in the database, and a successful answer is the reference answer: of all
    listed members after the cursor, in the order of joining, those who may view the channel by
    the tables, cut to the limit.  This is so when the permission cache agrees with the tables as
    the request arrives and the channel is not the nil identifier, under which the cache keeps the
    permissions on the server. *)
Theorem ListChannelMembers_correct c ch after limit w r w' :
  db_wf (guild_perms (view w)) → coherent (U := U) w → ch ≠ serverPermKey → asks c ch after limit →
  MemberHandler.ListChannelMembers c w = (r, w') →
  view w' = view w ∧ ∃ resp, r = Ok resp ∧ (succeeded r → ∀ ok, sees (view w) ch ok →
    content resp = Data (page_of ok limit (rows_after MemberStatusPending after (view w)))).
Proof.
  intros Hwf Hco Hch (Hp & Ha & raw & -> & Hl) E.
  split; [exact (keeps_run view _ _ _ _ (ListChannelMembers_keeps c) E)|].
  unfold MemberHandler.ListChannelMembers, ParseUUIDParam, ParseAfter, ParseIntQuery in E. rewrite Hp in E.
  assert (Hr : 1 ≤ Validate.Member.ClampLimit raw ≤ Validate.Member.MaxLimit) by (by apply clamp_range).
  assert (E' : MemberHandler.channel_page (S (S (size (g_members (view w))))) (Validate.Member.ClampLimit raw) ch
                 after [] w = (r, w')).
  { destruct after as [a|]; [destruct Ha as [Ha Hpa]; rewrite bool_decide_false in E by done; rewrite Hpa in E
      |rewrite Ha in E; simpl in E]; destruct Hl as [[Hl ->]|[Hl Hpl]];
      first [rewrite Hl in E; exact E|rewrite (bool_decide_false (Query c "limit" = _)) in E by done; by rewrite Hpl in E]. }
  pose proof (length_rows_after MemberStatusPending after (view w)) as Hn.
  eapply channel_page_spec in E' as (resp & Hok & Hresp); [|done|done|done|lia|lia|simpl; lia].
  exists resp. split; [done|]. intros Hs. by apply Hresp.
Qed.
End page.
