(* ===== verification/GuildWitness.v ===== *)
(** * A concrete server for the properties of the endpoints

    The tables of GuildTables.v behind a server that never fails, an in-memory Valkey, tokens in
    the clear, and a small guild: an owner, a moderator with a role, two members with a lower
    one. *)
From S2P Require Import Prelude GoStd Platform Permission PermCache PermInvalidate PermWitness.
From S2P Require Import Validate Config AuthCrypto Jwt Postgres Frames Domain GuildTables GuildRepo Http.
From S2P Require Import MemberApi UserDB JoinApi GuildSpec JoinSpec ApiLogic MemberProofs JoinProofs.
From S2P Require Import GuildStore Routes Bootstrap GuildHistory FirstRun MemberList.
Open Scope Z_scope.

(** ** The world *)
Record world := mkWorld {
  w_ks : keyspace; w_db : guild cuuid; w_tx : option (guild cuuid); w_now : Z;
  w_events : list (string * Events.payload); w_audit : list (Audit.Entry cuuid) }.
#[local] Instance world_ks : HasKeyspace world := {|
  ks_of := w_ks;
  ks_put := λ k w, mkWorld k (w_db w) (w_tx w) (w_now w) (w_events w) (w_audit w);
  ks_of_put := λ _ _, eq_refl |}.
#[local] Existing Instance mem_Valkey.
#[local] Existing Instance mem_ValkeyLaws.
Definition gen_id (n : nat) : cuuid :=
  match n with
  | 0%nat => "00000000-0000-4000-8000-0000000000e0"%string ↾ eq_refl
  | 1%nat => "00000000-0000-4000-8000-0000000000e1"%string ↾ eq_refl
  | 2%nat => "00000000-0000-4000-8000-0000000000e2"%string ↾ eq_refl
  | 3%nat => "00000000-0000-4000-8000-0000000000e3"%string ↾ eq_refl
  | 4%nat => "00000000-0000-4000-8000-0000000000e4"%string ↾ eq_refl
  | _ => "00000000-0000-4000-8000-0000000000e5"%string ↾ eq_refl
  end.
#[local] Instance world_random : RandomUUID cuuid := {| gen_random_uuid := gen_id |}.
#[local] Instance world_tables : HasTables (guild cuuid) world := {|
  db_of := w_db; tx_of := w_tx;
  db_put := λ d w, mkWorld (w_ks w) d (w_tx w) (w_now w) (w_events w) (w_audit w);
  tx_put := λ t w, mkWorld (w_ks w) (w_db w) t (w_now w) (w_events w) (w_audit w);
  db_of_put := λ _ _, eq_refl; tx_of_put := λ _ _, eq_refl; db_of_tx_put := λ _ _, eq_refl |}.
#[local] Existing Instance mem_Postgres.
#[local] Existing Instance mem_PostgresLaws.
#[local] Instance world_clock : Clock world := {| time_Now := w_now |}.
#[local] Instance world_queue : GatewayQueue world := {| gateway_Enqueue := λ ev p w,
  mkWorld (w_ks w) (w_db w) (w_tx w) (w_now w) (w_events w ++ [(ev, p)]) (w_audit w) |}.
#[local] Instance world_audit : AuditLog cuuid world := {| audit_Record := λ e w,
  mkWorld (w_ks w) (w_db w) (w_tx w) (w_now w) (w_events w) (w_audit w ++ [e]) |}.
#[local] Instance world_dice : CryptoRand world := {| rand_Int := λ n w, (Ok (n - 1), w) |}.
#[local] Instance world_vk_frame : ValkeyFrame (pg_view (DB := guild cuuid) (W := world)).
Proof.
  constructor; intros x w; simpl.
  - by destruct (run_cmds x (w_ks w)).
  - by destruct (x (w_ks w)).
Qed.
#[local] Instance world_pg_frame : PgFrame (guild cuuid) (vk_view (W := world)).
Proof.
  constructor; try done.
  - intros A f w. simpl. by destruct (f (w_db w)) as [[] ?].
  - intros A f w. simpl. destruct (w_tx w); [|done]. by destruct (f _) as [[] ?].
  - intros w. simpl. by destruct (w_tx w).
Qed.
#[local] Instance world_side_frame : SideFrame (U := cuuid) (pg_view (DB := guild cuuid) (W := world)).
Proof. by constructor. Qed.
#[local] Instance world_rand_frame : RandFrame (pg_view (DB := guild cuuid) (W := world)).
Proof. by constructor. Qed.

(** ** The libraries *)
Definition code (u : cuuid) : positive := encode (`u).
Definition code_le (u v : cuuid) : Prop := (code u ≤ code v)%positive.
#[local] Instance code_le_dec : RelDecision code_le.
Proof. intros u v. unfold code_le. apply _. Defined.
#[local] Instance order_by_code : UUIDOrder cuuid.
Proof.
  refine {| uuid_le := code_le |}.
  - split; [split|]; unfold code_le.
    + intros u. apply Pos.le_refl.
    + intros u v x. apply Pos.le_trans.
    + intros u v Huv Hvu. apply (sig_eq_pi _), (inj encode). by apply Pos.le_antisym.
  - intros u v. unfold code_le. destruct (Pos.le_total (code u) (code v)); auto.
Defined.
#[local] Instance words_Statuses : MemberStatuses := {|
  MemberStatusPending := "pending"; MemberStatusActive := "active"; MemberStatusTimedOut := "timed_out" |}.
#[local] Instance words_StatusLaws : MemberStatusLaws.
Proof. by constructor. Qed.
#[local] Instance words_Events : EventNames := {|
  MemberAdd := "MEMBER_ADD"; MemberUpdate := "MEMBER_UPDATE"; MemberRemove := "MEMBER_REMOVE";
  RoleCreated := "ROLE_CREATE"; RoleUpdated := "ROLE_UPDATE"; RoleDeleted := "ROLE_DELETE";
  InviteCreated := "INVITE_CREATE"; InviteDeleted := "INVITE_DELETE" |}.
#[local] Instance words_Errors : ApiErrors := {|
  ValidationError := "VALIDATION_ERROR"; InvalidBody := "INVALID_BODY"; InternalError := "INTERNAL_ERROR";
  Unauthorised := "UNAUTHORISED"; TokenExpired := "TOKEN_EXPIRED"; EmailNotVerified := "EMAIL_NOT_VERIFIED";
  CSRFTokenMissing := "CSRF_TOKEN_MISSING"; CSRFTokenInvalid := "CSRF_TOKEN_INVALID";
  MembershipRequired := "MEMBERSHIP_REQUIRED"; MissingPermissions := "MISSING_PERMISSIONS";
  MissingChannelID := "MISSING_CHANNEL_ID"; InvalidChannelID := "INVALID_CHANNEL_ID";
  UnknownMember := "UNKNOWN_MEMBER"; UnknownBan := "UNKNOWN_BAN"; UnknownRole := "UNKNOWN_ROLE";
  AlreadyMember := "ALREADY_MEMBER"; AlreadyExists := "ALREADY_EXISTS"; RoleHierarchy := "ROLE_HIERARCHY";
  ServerOwner := "SERVER_OWNER"; MaxRolesReached := "MAX_ROLES"; UnknownOverride := "UNKNOWN_OVERRIDE";
  UnknownInvite := "UNKNOWN_INVITE"; UnknownChannel := "UNKNOWN_CHANNEL"; Banned := "BANNED";
  OwnerOnly := "OWNER_ONLY"; OpenJoinDisabled := "OPEN_JOIN_DISABLED"; NotFound := "NOT_FOUND" |}.
#[local] Instance some_RoutePermissions : RoutePermissions := {|
  ChangeNicknames := 2^10; ManageNicknames := 2^11; KickMembers := 2^12; TimeoutMembers := 2^13;
  AssignRoles := 2^14; BanMembers := 2^15; ManageRoles := 2^16; CreateInvites := 2^17; ManageInvites := 2^18 |}.
#[local] Instance some_DefaultPermissions : DefaultPermissions := {|
  SendMessages := 2; ReadMessageHistory := 4; AddReactions := 8; VoiceConnect := 16; VoiceSpeak := 64;
  VoicePTT := 128 |}.
#[local] Instance words_Steps : OnboardingSteps := {|
  OnboardingStepVerifyEmail := "verify_email"; OnboardingStepJoinServer := "join_server";
  OnboardingStepAcceptDocuments := "accept_documents"; OnboardingStepComplete := "complete" |}.
#[local] Instance digits_TimeFormat : TimeFormat := {| time_Format := FormatInt |}.
#[local] Instance digits_TimeParse : TimeParse := {| time_Parse := ParseInt |}.
#[local] Existing Instance Jwt.Witness.plain_JwtLib.
#[local] Existing Instance Validate.Witness.plain_mail.
#[local] Instance strings_codec : Codec (gmap string string) := countable_Codec.
#[local] Instance scalar_codec : Codec (gmap string json_scalar) := {|
  json_Marshal := λ _, Ok "{}"%string; json_Unmarshal := λ _, Err (Plain "not used") |}.
#[local] Instance plain_Argon2 : Argon2 world := {|
  argon2id_CreateHash := λ p _ w, (Ok p, w);
  argon2id_ComparePasswordAndHash := λ p h, Ok (bool_decide (p = h));
  argon2id_DecodeHash := λ _, Err (Plain "not used") |}.
#[local] Instance plain_HashFrame : HashFrame (pg_view (DB := guild cuuid) (W := world)).
Proof. by constructor. Qed.

(** The user repository reads the table of the guild; the endpoints use nothing else of it. *)
Definition not_used {A} : M world A := fail (Plain "not used").
#[local] Instance users_of_guild : UserRepo cuuid world := {|
  users_Create := λ _, not_used;
  users_GetByID := λ id, map_err (λ _, UserDB.ErrNotFound)
    (pg_query (λ d, row_or_none (User.cred_User <$> g_users d !! id) d));
  users_GetByEmail := λ _, not_used; users_GetCredentialsByID := λ _, not_used;
  users_VerifyEmail := λ _, not_used; users_ReplaceVerificationToken := λ _ _ _ _, not_used;
  users_RecordLoginAttempt := λ _ _ _, not_used; users_UpdatePasswordHash := λ _ _, not_used;
  users_Update := λ _ _, not_used;
  users_EnableMFA := λ _ _ _, not_used; users_DisableMFA := λ _, not_used;
  users_GetUnusedRecoveryCodes := λ _, not_used; users_UseRecoveryCode := λ _, not_used;
  users_ReplaceRecoveryCodes := λ _ _, not_used; users_DeleteWithTombstones := λ _ _, not_used;
  users_CheckTombstone := λ _ _, not_used |}.
#[local] Instance users_table : UsersTable cuuid world.
Proof.
  constructor. intros id. apply reads_map_err, reads_query. intros d.
  by destruct (g_users d !! id) as [c|] eqn:E; unfold row_or_none; simpl; rewrite ?E; split.
Qed.

(** ** The guild *)
Definition olga : cuuid := "00000000-0000-4000-8000-0000000000a1"%string ↾ eq_refl.
Definition mona : cuuid := "00000000-0000-4000-8000-0000000000a2"%string ↾ eq_refl.
Definition tony : cuuid := "00000000-0000-4000-8000-0000000000a3"%string ↾ eq_refl.
Definition rita : cuuid := "00000000-0000-4000-8000-0000000000a4"%string ↾ eq_refl.
Definition everyone : cuuid := "00000000-0000-4000-8000-0000000000b0"%string ↾ eq_refl.
Definition mods : cuuid := "00000000-0000-4000-8000-0000000000b1"%string ↾ eq_refl.
Definition regulars : cuuid := "00000000-0000-4000-8000-0000000000b2"%string ↾ eq_refl.
Definition hall : cuuid := "00000000-0000-4000-8000-0000000000c1"%string ↾ eq_refl.

Definition account (u : cuuid) (name : string) : User.Credentials cuuid :=
  User.mkCredentials (User.mkUser u (name +:+ "@b.c") name None None None None None None None false true 0)
    "hash" None.
Definition plain_role (id : cuuid) (name : string) (pos perms : Z) (everyone : bool) : Role.Role cuuid :=
  Role.mkRole id name 0 pos false perms everyone 0 0.
Definition joined (t : Z) : member_row := mkMemberRow None "active" None t None.
Definition town : guild cuuid := mkGuild 100 0
  (<[olga := account olga "olga"]> (<[mona := account mona "mona"]> (<[tony := account tony "tony"]>
   {[rita := account rita "rita"]})))
  {[hall := None]}
  (Some (Server.mkConfig everyone "town" "" None None olga 0 0))
  (<[everyone := plain_role everyone "@everyone" 0 1 true]>
   (<[mods := plain_role mods "mods" 1 (2^12 + 2^15) false]>
    {[regulars := plain_role regulars "regulars" 2 0 false]}))
  (<[olga := joined 1]> (<[mona := joined 2]> {[tony := joined 3]}))
  {[(olga, everyone); (mona, everyone); (tony, everyone); (mona, mods); (tony, regulars)]}
  ∅ ∅ ∅ None ∅.
Definition w0 : world := mkWorld (Keyspace 0 ∅ []) town None (100 * Second) [] [].

Definition cfg : Config := Config.Witness.cfg_ok.
Definition h : handler := mkHandler true true true 250.
Definition no_docs : Onboarding.DocumentStore := Documents.EmptyDocumentStore.
(** A request with a bearer token of [u] and one path parameter. *)
Definition token (u : cuuid) : string :=
  match (NewAccessToken (W := world) u (Expose (JWTSecret cfg)) (900 * Second) (ServerURL cfg) true w0).1 with
  | Ok t => t | Err _ => ""%string
  end.
Definition from (u : cuuid) (method param value : string) : request cuuid :=
  mkRequest method (λ k, if bool_decide (k = "Authorization"%string) then "Bearer " +:+ token u else ""%string)
    (λ _, ""%string) (λ k, if bool_decide (k = param) then value else ""%string) (λ _, ""%string) None None None.
Definition kick : request cuuid := from mona "DELETE" "userID" (uuid_String tony).
Definition w1 : world := (api_routes no_docs cfg h KickMember kick w0).2.

Lemma kick_done : api_routes no_docs cfg h KickMember kick w0 = (Ok (mkResponse StatusNoContent NoBody), w1).
Proof. unfold w1. apply run_eq. vm_compute. reflexivity. Qed.

Lemma tony_member : is_member (pg_view w0) tony.
Proof. exists (joined 3). vm_compute. reflexivity. Qed.
Lemma town_wf : db_wf (guild_perms (pg_view w0)).
Proof.
  change (pg_view w0) with town.
  apply guild_perms_wf; [|apply map_Forall_empty]. unfold in_int64.
  apply (bool_decide_unpack _). vm_compute. exact I.
Qed.
Lemma nothing_stored k : ks_lookup (Keyspace 0 ∅ []) k = None.
Proof. done. Qed.
Lemma cold_cache d t es l : coherent (U := cuuid) (mkWorld (Keyspace 0 ∅ []) d None t es l).
Proof.
  intros u c p Hp. change (decode_entry (ks_lookup (Keyspace 0 ∅ []) (cacheKey u c)) = Some p) in Hp.
  by rewrite nothing_stored in Hp.
Qed.

Lemma api_routes_authorised_witness :
  is_member (pg_view w0) tony ∧ ¬ is_member (w_db w1) tony ∧
  ∃ caller, authorised cfg KickMember kick w0 caller ∧
    request_steps KickMember caller (pg_view w0) (pg_view w1).
Proof.
  split; [exact tony_member|]. split; [vm_compute; by intros [? ?]|].
  apply (api_routes_authorised no_docs cfg h KickMember kick w0 _ w1 town_wf kick_done).
  left. reflexivity.
Defined.

Ltac by_computing := apply (bool_decide_unpack _); vm_compute; exact I.
Lemma town_inv : guild_inv (pg_view w0) ∧ invites_inv (pg_view w0).
Proof.
  change (pg_view w0) with town. split; [split|split].
  - by_computing.
  - assert (Hu : map_Forall (λ i r, map_Forall (λ j r', i ≠ j →
      Role.Name r ≠ Role.Name r' ∧ Role.Position r ≠ Role.Position r') (g_roles town)) (g_roles town)) by by_computing.
    intros i j r r' Hi Hj. by apply (Hu i r Hi j r').
  - exists everyone, (plain_role everyone "@everyone" 0 1 true). split_and!; [reflexivity..|].
    assert (He : map_Forall (λ i r', Role.IsEveryone r' = true → i = everyone) (g_roles town)) by by_computing.
    exact He.
  - intros o [= <-]. by eexists.
  - assert (Hm : set_Forall (λ p, is_Some (g_users town !! p.1) ∧ is_Some (g_roles town !! p.2))
                   (g_member_roles town)) by by_computing.
    intros u i Hin. exact (Hm _ Hin).
  - by_computing.
  - apply map_Forall_empty.
  - done.
  - assert (Hh : map_Forall (λ u _, map_Forall (λ i r, Role.IsEveryone r = true → (u, i) ∈ g_member_roles town)
                   (g_roles town)) (g_members town)) by by_computing.
    intros u i r [m Hm]. by apply (Hh u m Hm).
  - apply map_Forall_empty.
  - done.
Qed.
Lemma kick_served : served no_docs cfg h (λ _ _, True) w0 w1.
Proof. eapply served_request; [exact I|exact kick_done|apply served_done]. Qed.

Lemma tables_stay_sound_witness :
  is_member (pg_view w0) tony ∧ ¬ is_member (pg_view w1) tony ∧
  guild_inv (pg_view w1) ∧ invites_inv (pg_view w1).
Proof.
  split; [exact tony_member|]. split; [vm_compute; by intros [? ?]|]. destruct town_inv as [Hg Hi].
  exact (tables_stay_sound no_docs cfg h (λ _ _, True) w0 w1 Hg Hi kick_served).
Defined.

Lemma kick_changes : pg_view (DB := guild cuuid) w1 ≠ pg_view w0.
Proof.
  intros Heq. assert (Hn : bool_decide (is_Some (g_members (pg_view (DB := guild cuuid) w1) !! tony)) = false)
    by (vm_compute; reflexivity).
  rewrite Heq in Hn. vm_compute in Hn. discriminate.
Qed.
Lemma hierarchy_respected_witness :
  rank mona (pg_view w0) = 1 ∧
  ∃ caller, authenticated cfg kick w0 caller ∧
    frozen (may_grant caller (pg_view w0)) (rank caller (pg_view w0)) (pg_view w0) (pg_view w1).
Proof.
  split; [vm_compute; reflexivity|].
  exact (hierarchy_respected no_docs cfg h KickMember kick w0 _ w1 kick_done kick_changes).
Defined.
Lemma kick_moderates : moderated (pg_view w0) (pg_view w1) tony.
Proof. left. split; [exact tony_member|]. vm_compute. by intros [? ?]. Qed.
Lemma moderation_outranked_witness :
  moderated (pg_view w0) (pg_view w1) tony ∧ owner (pg_view w0) ≠ Some tony ∧
  ∃ caller, authenticated cfg kick w0 caller ∧ (tony = caller ∨ outranks (pg_view w0) caller tony).
Proof.
  split; [exact kick_moderates|].
  exact (moderation_outranked no_docs cfg h KickMember kick w0 _ w1 tony kick_done kick_moderates).
Defined.
Lemma leaving_is_final_witness :
  is_member (pg_view w0) tony ∧ (is_member (pg_view w1) tony ∨ former (pg_view w1) tony).
Proof.
  split; [exact tony_member|].
  apply (proj1 (leaving_is_final no_docs cfg h KickMember kick w0 _ w1 tony (proj1 town_inv) kick_done)).
  exact tony_member.
Defined.

(** ** The first start *)
Definition init_env (k : string) : string :=
  if bool_decide (k = "INIT_OWNER_EMAIL"%string) then "olga@b.c"
  else if bool_decide (k = "INIT_OWNER_PASSWORD"%string) then "correct horse"
  else if bool_decide (k = "INIT_OWNER_USERNAME"%string) then "olga" else Config.Witness.env_ok k.
#[local] Existing Instance Config.Witness.plain_durations.
Definition cfg1 : Config :=
  Eval vm_compute in
    match (parse_env init_env []).1 as r return match r with Ok _ => Config | Err _ => unit end with
    | Ok c => c
    | Err _ => tt
    end.
Definition blank : guild cuuid := mkGuild 100 0 ∅ ∅ None ∅ ∅ ∅ ∅ ∅ ∅ None ∅.
Definition w2 : world := mkWorld (Keyspace 0 ∅ []) blank None (100 * Second) [] [].
Definition w3 : world := (RunFirstInit (U := cuuid) cfg1 w2).2.
Lemma started : RunFirstInit (U := cuuid) cfg1 w2 = (Ok tt, w3).
Proof. unfold w3. apply run_eq. vm_compute. reflexivity. Qed.
Lemma blank_no_server : no_server (pg_view w2).
Proof. split_and!; reflexivity. Qed.
Lemma fresh_seeded : seeded (wrap64 DefaultEveryonePermissions) (pg_view w3).
Proof.
  destruct (RunFirstInit_writes (U := cuuid) cfg1 w2 (Ok tt) w3 started) as [Hs|[_ [e [=]]]].
  exact (Hs blank_no_server).
Qed.

Lemma first_run_seeds_witness :
  no_server (pg_view w2) ∧ seeded (wrap64 DefaultEveryonePermissions) (pg_view w3).
Proof.
  split; [exact blank_no_server|].
  exact (proj1 (first_run_seeds (U := cuuid) cfg1 w2 (Ok tt) w3 blank_no_server started)).
Defined.

(** The owner tries to ban the account that registered meanwhile. *)
Definition owner_id : cuuid := gen_id 0.
Definition ban : request cuuid := from owner_id "PUT" "userID" (uuid_String rita).
Definition w4 : world :=
  mkWorld (w_ks w3) (put_account rita (account rita "rita") (w_db w3)) None (w_now w3) (w_events w3) (w_audit w3).
(** ... after opening the server to everybody, with an empty list of automatic roles. *)
Definition open_doors : server_route :=
  UpdateOnboarding (Ok (mkUpdateOnboarding None None (Some true) None (Some []))).
Definition opening : request cuuid := from owner_id "PATCH" "" "".
Definition opened_answer : res (response answer) := Eval vm_compute in (api_routes no_docs cfg h open_doors opening w4).1.
Definition w5 : world := (api_routes no_docs cfg h open_doors opening w4).2.
Lemma doors_opened : api_routes no_docs cfg h open_doors opening w4 = (opened_answer, w5).
Proof. unfold w5. apply run_eq. vm_compute. reflexivity. Qed.
Definition no_reason : server_route := BanMember (Ok (mkBanMember None None)).
Definition w6 : world := (api_routes no_docs cfg h no_reason ban w5).2.
Lemma ban_refused : api_routes no_docs cfg h no_reason ban w5 =
  (Ok (mkResponse StatusForbidden (ErrorBody "ROLE_HIERARCHY"
         "Cannot perform this action on a member with an equal or higher role")), w6).
Proof. unfold w6. apply run_eq. vm_compute. reflexivity. Qed.
Lemma served_fresh : served no_docs cfg h no_auto_roles w3 w6.
Proof.
  eapply (served_meanwhile _ _ _ _ w3 w4); [right; exact (world_account (w_db w3) rita _)|].
  eapply served_request; [|exact doors_opened|]; [vm_compute; reflexivity|].
  eapply served_request; [|exact ban_refused|apply served_done]. vm_compute. reflexivity.
Qed.
Lemma fresh_server_deadlock_witness :
  owner (pg_view w6) = Some owner_id ∧ Onboarding.OpenJoin <$> g_onboarding (pg_view w6) = Some true ∧
  g_bans (pg_view w6) = ∅.
Proof.
  split; [vm_compute; reflexivity|]. split; [vm_compute; reflexivity|].
  exact (proj1 (proj2 (fresh_server_deadlock no_docs cfg h _ w3 w6 fresh_seeded served_fresh))).
Defined.

(** ** The member list *)
Definition list_hall : request cuuid :=
  mkRequest "GET" (λ _, ""%string) (λ _, ""%string)
    (λ k, if bool_decide (k = "channelID"%string) then uuid_String hall else ""%string)
    (λ k, if bool_decide (k = "limit"%string) then "2" else ""%string) (Some mona) (Some true) None.
Definition w7 : world := (MemberHandler.ListChannelMembers list_hall w0).2.
Definition first_page : response (list Models.Member) :=
  Eval vm_compute in
    match (MemberHandler.ListChannelMembers list_hall w0).1 with Ok r => r | Err _ => mkResponse 0 NoBody end.
Lemma listed_hall : MemberHandler.ListChannelMembers list_hall w0 = (Ok first_page, w7).
Proof. unfold w7. apply run_eq. vm_compute. reflexivity. Qed.
Lemma asks_hall : asks list_hall hall None 2.
Proof.
  split; [vm_compute; reflexivity|]. split; [reflexivity|]. exists 2. split; [reflexivity|].
  right. split; [discriminate|vm_compute; reflexivity].
Qed.
Lemma ListChannelMembers_correct_witness :
  status first_page = StatusOK ∧
  ∃ resp, Ok first_page = Ok resp ∧ (succeeded (Ok first_page) → ∀ ok, sees (pg_view w0) hall ok →
    content resp = Data (page_of ok 2 (rows_after MemberStatusPending None (pg_view w0)))).
Proof.
  split; [reflexivity|].
  refine (proj2 (ListChannelMembers_correct list_hall hall None 2 w0 _ w7 town_wf (cold_cache _ _ _ _) _ asks_hall listed_hall)).
  uuid_ne.
Defined.
