(* ===== verification/ChatTables.v ===== *)
(** * The tables of the conversations and the SQL on them: posts

    messages, threads, message_attachments, reactions, custom_emoji and channel_read_states of
    postgres/migrations/001_initial_schema.sql, and the statements of the message, thread,
    attachment, reaction, emoji and readstate repositories as programs on them, under the
    constraints of the schema.  The tables of direct messages and of the end-to-end encryption
    are fields of the same database; DmTables.v has their statements.  users and channels are
    referenced or joined here and written elsewhere. *)
From stdpp Require Import sorting.
From S2P Require Import Prelude GoStd Platform Permission Validate Postgres Domain GuildTables.
Open Scope Z_scope.

(** ** Rows *)

(** message.Message *)
Module Message.
Record Message (U : Type) := mkMessage {
  ID : U; ChannelID : U; AuthorID : U; Content : string; EditedAt : option Z;
  ReplyToID : option U; ThreadID : option U; Pinned : bool; DeletedAt : option Z;
  DeletedBy : option U; Encrypted : bool; CreatedAt : Z; UpdatedAt : Z;
  AuthorUsername : string; AuthorDisplayName : option string; AuthorAvatarKey : option string }.
Arguments mkMessage {U}. Arguments ID {U}. Arguments ChannelID {U}. Arguments AuthorID {U}.
Arguments Content {U}. Arguments EditedAt {U}. Arguments ReplyToID {U}. Arguments ThreadID {U}.
Arguments Pinned {U}. Arguments DeletedAt {U}. Arguments DeletedBy {U}. Arguments Encrypted {U}.
Arguments CreatedAt {U}. Arguments UpdatedAt {U}. Arguments AuthorUsername {U}.
Arguments AuthorDisplayName {U}. Arguments AuthorAvatarKey {U}.

Record CreateParams (U : Type) := mkCreateParams {
  cp_ChannelID : U; cp_AuthorID : U; cp_Content : string; cp_ReplyToID : option U;
  cp_ThreadID : option U; cp_Encrypted : bool }.
Arguments mkCreateParams {U}. Arguments cp_ChannelID {U}. Arguments cp_AuthorID {U}.
Arguments cp_Content {U}. Arguments cp_ReplyToID {U}. Arguments cp_ThreadID {U}.
Arguments cp_Encrypted {U}.
End Message.

(** The columns of messages but the key. *)
Record message_row (U : Type) := mkMessageRow {
  r_channel : U; r_author : U; r_content : string; r_edited : option Z; r_reply : option U;
  r_thread : option U; r_pinned : bool; r_deleted : option Z; r_deleted_by : option U;
  r_encrypted : bool; r_created : Z; r_updated : Z }.
Arguments mkMessageRow {U}. Arguments r_channel {U}. Arguments r_author {U}.
Arguments r_content {U}. Arguments r_edited {U}. Arguments r_reply {U}. Arguments r_thread {U}.
Arguments r_pinned {U}. Arguments r_deleted {U}. Arguments r_deleted_by {U}.
Arguments r_encrypted {U}. Arguments r_created {U}. Arguments r_updated {U}.

(** thread.Thread *)
Module Thread.
Record Thread (U : Type) := mkThread {
  ID : U; ChannelID : U; ParentMessageID : U; Name : string; Archived : bool; Locked : bool;
  CreatedAt : Z; UpdatedAt : Z }.
Arguments mkThread {U}. Arguments ID {U}. Arguments ChannelID {U}. Arguments ParentMessageID {U}.
Arguments Name {U}. Arguments Archived {U}. Arguments Locked {U}. Arguments CreatedAt {U}.
Arguments UpdatedAt {U}.

Record CreateParams (U : Type) := mkCreateParams {
  cp_ChannelID : U; cp_ParentMessageID : U; cp_Name : string }.
Arguments mkCreateParams {U}. Arguments cp_ChannelID {U}. Arguments cp_ParentMessageID {U}.
Arguments cp_Name {U}.
Record UpdateParams := mkUpdateParams {
  up_Name : option string; up_Archived : option bool; up_Locked : option bool }.
End Thread.

(** attachment.Attachment *)
Module Attachment.
Record Attachment (U : Type) := mkAttachment {
  ID : U; MessageID : option U; ChannelID : U; UploaderID : U; Filename : string;
  ContentType : string; SizeBytes : Z; StorageKey : string; Width : option Z; Height : option Z;
  ThumbnailKey : option string; CreatedAt : Z }.
Arguments mkAttachment {U}. Arguments ID {U}. Arguments MessageID {U}. Arguments ChannelID {U}.
Arguments UploaderID {U}. Arguments Filename {U}. Arguments ContentType {U}.
Arguments SizeBytes {U}. Arguments StorageKey {U}. Arguments Width {U}. Arguments Height {U}.
Arguments ThumbnailKey {U}. Arguments CreatedAt {U}.

Record CreateParams (U : Type) := mkCreateParams {
  cp_ChannelID : U; cp_UploaderID : U; cp_Filename : string; cp_ContentType : string;
  cp_SizeBytes : Z; cp_StorageKey : string; cp_Width : option Z; cp_Height : option Z }.
Arguments mkCreateParams {U}. Arguments cp_ChannelID {U}. Arguments cp_UploaderID {U}.
Arguments cp_Filename {U}. Arguments cp_ContentType {U}. Arguments cp_SizeBytes {U}.
Arguments cp_StorageKey {U}. Arguments cp_Width {U}. Arguments cp_Height {U}.
End Attachment.

(** reaction.Reaction and reaction.Summary *)
Module Reaction.
Record Reaction (U : Type) := mkReaction {
  ID : U; MessageID : U; UserID : U; EmojiID : option U; EmojiUnicode : option string;
  CreatedAt : Z; Username : string }.
Arguments mkReaction {U}. Arguments ID {U}. Arguments MessageID {U}. Arguments UserID {U}.
Arguments EmojiID {U}. Arguments EmojiUnicode {U}. Arguments CreatedAt {U}. Arguments Username {U}.
Record Summary (U : Type) := mkSummary {
  s_EmojiID : option U; s_EmojiUnicode : option string; s_Count : Z }.
Arguments mkSummary {U}. Arguments s_EmojiID {U}. Arguments s_EmojiUnicode {U}. Arguments s_Count {U}.
End Reaction.
Record reaction_row (U : Type) := mkReactionRow {
  x_message : U; x_user : U; x_emoji : option U; x_unicode : option string; x_created : Z }.
Arguments mkReactionRow {U}. Arguments x_message {U}. Arguments x_user {U}. Arguments x_emoji {U}.
Arguments x_unicode {U}. Arguments x_created {U}.

(** emoji.Emoji *)
Module Emoji.
Record Emoji (U : Type) := mkEmoji {
  ID : U; Name : string; Animated : bool; StorageKey : string; UploaderID : U; CreatedAt : Z;
  UpdatedAt : Z }.
Arguments mkEmoji {U}. Arguments ID {U}. Arguments Name {U}. Arguments Animated {U}.
Arguments StorageKey {U}. Arguments UploaderID {U}. Arguments CreatedAt {U}. Arguments UpdatedAt {U}.
Record CreateParams (U : Type) := mkCreateParams {
  cp_Name : string; cp_Animated : bool; cp_StorageKey : string; cp_UploaderID : U }.
Arguments mkCreateParams {U}. Arguments cp_Name {U}. Arguments cp_Animated {U}.
Arguments cp_StorageKey {U}. Arguments cp_UploaderID {U}.
End Emoji.

(** dm.Channel, dm.Participant, and the rows of the keys. *)
Module Dm.
Record Channel (U : Type) := mkChannel {
  ID : U; Type_ : string; Name : option string; OwnerID : option U; CreatedAt : Z; UpdatedAt : Z }.
Arguments mkChannel {U}. Arguments ID {U}. Arguments Type_ {U}. Arguments Name {U}.
Arguments OwnerID {U}. Arguments CreatedAt {U}. Arguments UpdatedAt {U}.
Record Participant (U : Type) := mkParticipant { DMChannelID : U; UserID : U; JoinedAt : Z }.
Arguments mkParticipant {U}. Arguments DMChannelID {U}. Arguments UserID {U}. Arguments JoinedAt {U}.
End Dm.

(** e2ee.Device, SignedPreKey and OneTimePreKey. *)
Module Key.
Record Device (U : Type) := mkDevice {
  ID : U; UserID : U; DeviceID : U; Label : option string; IdentityKey : string; CreatedAt : Z;
  UpdatedAt : Z }.
Arguments mkDevice {U}. Arguments ID {U}. Arguments UserID {U}. Arguments DeviceID {U}.
Arguments Label {U}. Arguments IdentityKey {U}. Arguments CreatedAt {U}. Arguments UpdatedAt {U}.
Record SignedPreKey (U : Type) := mkSignedPreKey {
  spk_ID : U; spk_DeviceID : U; spk_KeyID : Z; spk_PublicKey : string; spk_Signature : string;
  spk_Active : bool; spk_CreatedAt : Z }.
Arguments mkSignedPreKey {U}. Arguments spk_ID {U}. Arguments spk_DeviceID {U}.
Arguments spk_KeyID {U}. Arguments spk_PublicKey {U}. Arguments spk_Signature {U}.
Arguments spk_Active {U}. Arguments spk_CreatedAt {U}.
Record OneTimePreKey (U : Type) := mkOneTimePreKey {
  opk_ID : U; opk_DeviceID : U; opk_KeyID : Z; opk_PublicKey : string; opk_CreatedAt : Z }.
Arguments mkOneTimePreKey {U}. Arguments opk_ID {U}. Arguments opk_DeviceID {U}.
Arguments opk_KeyID {U}. Arguments opk_PublicKey {U}. Arguments opk_CreatedAt {U}.
End Key.

(** ** The database *)
Section database.
Context {U : Type} `{UUIDLib U}.

Record posts := mkPosts {
  p_messages : gmap U (message_row U);
  p_threads : gmap U (Thread.Thread U);
  p_attachments : gmap U (Attachment.Attachment U);
  p_reactions : gmap U (reaction_row U);
  p_emoji : gmap U (Emoji.Emoji U);
  p_read : gmap (U * U) (ReadState.ReadState U) }.
Record dms := mkDms {
  d_channels : gmap U (Dm.Channel U);
  d_participants : gmap (U * U) Z }.
Record keys := mkKeys {
  k_devices : gmap U (Key.Device U);
  k_spks : gmap U (Key.SignedPreKey U);
  k_opks : gmap U (Key.OneTimePreKey U);
  k_message_keys : gmap (U * U) string }.
Record chat := mkChat {
  c_now : Z; c_seq : nat; c_users : gmap U (User.User U); c_channels : gset U;
  c_posts : posts; c_dms : dms; c_keys : keys }.

Definition set_next n (d : chat) : chat :=
  mkChat (c_now d) n (c_users d) (c_channels d) (c_posts d) (c_dms d) (c_keys d).
Definition set_posts f (d : chat) : chat :=
  mkChat (c_now d) (c_seq d) (c_users d) (c_channels d) (f (c_posts d)) (c_dms d) (c_keys d).
Definition set_dms f (d : chat) : chat :=
  mkChat (c_now d) (c_seq d) (c_users d) (c_channels d) (c_posts d) (f (c_dms d)) (c_keys d).
Definition set_keys f (d : chat) : chat :=
  mkChat (c_now d) (c_seq d) (c_users d) (c_channels d) (c_posts d) (c_dms d) (f (c_keys d)).

Definition on_messages f (p : posts) : posts :=
  mkPosts (f (p_messages p)) (p_threads p) (p_attachments p) (p_reactions p) (p_emoji p) (p_read p).
Definition on_threads f (p : posts) : posts :=
  mkPosts (p_messages p) (f (p_threads p)) (p_attachments p) (p_reactions p) (p_emoji p) (p_read p).
Definition on_attachments f (p : posts) : posts :=
  mkPosts (p_messages p) (p_threads p) (f (p_attachments p)) (p_reactions p) (p_emoji p) (p_read p).
Definition on_reactions f (p : posts) : posts :=
  mkPosts (p_messages p) (p_threads p) (p_attachments p) (f (p_reactions p)) (p_emoji p) (p_read p).
Definition on_emoji f (p : posts) : posts :=
  mkPosts (p_messages p) (p_threads p) (p_attachments p) (p_reactions p) (f (p_emoji p)) (p_read p).
Definition on_read f (p : posts) : posts :=
  mkPosts (p_messages p) (p_threads p) (p_attachments p) (p_reactions p) (p_emoji p) (f (p_read p)).

Definition messages (d : chat) := p_messages (c_posts d).
Definition threads (d : chat) := p_threads (c_posts d).
Definition attachments (d : chat) := p_attachments (c_posts d).
Definition reactions (d : chat) := p_reactions (c_posts d).
Definition emoji (d : chat) := p_emoji (c_posts d).
Definition read_states (d : chat) := p_read (c_posts d).
End database.
Arguments posts U {_}. Arguments dms U {_}. Arguments keys U {_}. Arguments chat U {_}.

Section statements.
Context {U : Type} `{UUIDLib U} `{RandomUUID U} `{UUIDOrder U}.
Implicit Types (d : chat U) (id u ch : U).

Definition fresh_id : M (chat U) U := λ d, (Ok (gen_random_uuid (c_seq d)), set_next (S (c_seq d)) d).
Definition found {A} (o : option A) : M (chat U) A :=
  match o with Some a => mret a | None => fail ErrNoRows end.
(** The driver refuses a value the INTEGER column cannot hold. *)
Definition send_int4 (v : option Z) : M (chat U) unit :=
  if match v with Some n => in_int4 n | None => true end then mret tt
  else fail (Plain "unable to encode into int4").
Definition user_missing u d : Prop := c_users d !! u = None.
#[global] Instance user_missing_dec u d : Decision (user_missing u d).
Proof. unfold user_missing. apply _. Defined.

(** ** messages *)
Definition is_live (r : message_row U) : bool := bool_decide (r_deleted r = None).
(** FROM messages m JOIN users u ON u.id = m.author_id *)
Definition joined id (r : message_row U) d : option (Message.Message U) :=
  (λ x, Message.mkMessage id (r_channel r) (r_author r) (r_content r) (r_edited r) (r_reply r)
          (r_thread r) (r_pinned r) (r_deleted r) (r_deleted_by r) (r_encrypted r) (r_created r)
          (r_updated r) (User.Username x) (User.DisplayName x) (User.AvatarKey x))
  <$> c_users d !! r_author r.

(** SELECT EXISTS(... WHERE id = $1 AND channel_id = $2 AND deleted_at IS NULL) *)
Definition live_in id ch d : bool :=
  match messages d !! id with
  | Some r => bool_decide (r_channel r = ch) && is_live r
  | None => false
  end.
Definition missing {A} (o : option U) (t : gmap U A) : bool :=
  match o with Some id => bool_decide (t !! id = None) | None => false end.
Definition insert_message (p : Message.CreateParams U) : M (chat U) (U * Z * Z) :=
  id ← fresh_id;
  d ← gets (λ d, d);
  if bool_decide (is_Some (messages d !! id)) then fail (PgError codeUniqueViolation)
  else if bool_decide (user_missing (Message.cp_AuthorID p) d)
          || missing (Message.cp_ReplyToID p) (messages d) || missing (Message.cp_ThreadID p) (threads d)
  then fail (PgError codeForeignKeyViolation)
  else
    modify (set_posts (on_messages <[id :=
      mkMessageRow (Message.cp_ChannelID p) (Message.cp_AuthorID p) (Message.cp_Content p) None
        (Message.cp_ReplyToID p) (Message.cp_ThreadID p) false None None (Message.cp_Encrypted p)
        (c_now d) (c_now d)]>)) ;;
    mret (id, c_now d, c_now d).
Definition select_author u : M (chat U) (string * option string * option string) := λ d,
  found ((λ x, (User.Username x, User.DisplayName x, User.AvatarKey x)) <$> c_users d !! u) d.
Definition find_message id d : option (Message.Message U) :=
  r ← messages d !! id; if is_live r then joined id r d else None.
Definition select_message id : M (chat U) (Message.Message U) := λ d, found (find_message id d) d.

(** ORDER BY created_at DESC, id DESC *)
Definition message_key (m : Message.Message U) : Z * U := (Message.CreatedAt m, Message.ID m).
Definition newest (a b : Message.Message U) : Prop := key_le (message_key b) (message_key a).
#[global] Instance newest_dec : RelDecision newest.
Proof. intros a b. unfold newest. apply _. Defined.
Definition history (p : message_row U → bool) d : list (Message.Message U) :=
  merge_sort newest
    (omap (λ x, if p x.2 && is_live x.2 then joined x.1 x.2 d else None) (map_to_list (messages d))).
(** (m.created_at, m.id) < the row of the cursor; NULL without one. *)
Definition older (before : U) d (k : Z * U) : bool :=
  match messages d !! before with
  | Some r => bool_decide (key_le k (r_created r, before) ∧ k ≠ (r_created r, before))
  | None => false
  end.
Definition select_messages (p : message_row U → bool) (before : option U) (limit : Z) :
    M (chat U) (list (Message.Message U)) :=
  gets (λ d, take (Z.to_nat limit)
    match before with
    | None => history p d
    | Some b => filter (λ m, older b d (message_key m) = true) (history p d)
    end).
Definition in_channel ch (r : message_row U) : bool := bool_decide (r_channel r = ch).
Definition in_thread t (r : message_row U) : bool := bool_decide (r_thread r = Some t).
(** ORDER BY m.created_at DESC LIMIT 50: ties are open; here the newer key comes first. *)
Definition select_pinned ch : M (chat U) (list (Message.Message U)) :=
  gets (λ d, take 50 (history (λ r, in_channel ch r && r_pinned r) d)).

(** UPDATE messages SET ... WHERE id = $1 AND p: the number of rows; a trigger sets updated_at. *)
Definition update_message (p : message_row U → bool) (f : Z → message_row U → message_row U) id :
    M (chat U) Z :=
  d ← gets (λ d, d);
  match messages d !! id with
  | Some r => if p r then modify (set_posts (on_messages <[id := f (c_now d) r]>)) ;; mret 1 else mret 0
  | None => mret 0
  end.
Definition set_content (content : string) (now : Z) (r : message_row U) : message_row U :=
  mkMessageRow (r_channel r) (r_author r) content (Some now) (r_reply r) (r_thread r) (r_pinned r)
    (r_deleted r) (r_deleted_by r) (r_encrypted r) (r_created r) now.
Definition set_deleted (actor : U) (now : Z) (r : message_row U) : message_row U :=
  mkMessageRow (r_channel r) (r_author r) (r_content r) (r_edited r) (r_reply r) (r_thread r)
    (r_pinned r) (Some now) (Some actor) (r_encrypted r) (r_created r) now.
Definition set_pinned (b : bool) (now : Z) (r : message_row U) : message_row U :=
  mkMessageRow (r_channel r) (r_author r) (r_content r) (r_edited r) (r_reply r) (r_thread r)
    b (r_deleted r) (r_deleted_by r) (r_encrypted r) (r_created r) now.

(** ** threads: parent_message_id is unique *)
Definition has_thread id d : Prop := map_Exists (λ _ t, Thread.ParentMessageID t = id) (threads d).
#[global] Instance has_thread_dec id d : Decision (has_thread id d).
Proof. unfold has_thread. apply _. Defined.
Definition insert_thread (p : Thread.CreateParams U) : M (chat U) (Thread.Thread U) :=
  id ← fresh_id;
  d ← gets (λ d, d);
  if bool_decide (is_Some (threads d !! id)) || bool_decide (has_thread (Thread.cp_ParentMessageID p) d)
  then fail (PgError codeUniqueViolation)
  else if bool_decide (Thread.cp_ChannelID p ∉ c_channels d)
          || bool_decide (messages d !! Thread.cp_ParentMessageID p = None)
  then fail (PgError codeForeignKeyViolation)
  else
    let t := Thread.mkThread id (Thread.cp_ChannelID p) (Thread.cp_ParentMessageID p)
               (Thread.cp_Name p) false false (c_now d) (c_now d) in
    modify (set_posts (on_threads <[id := t]>)) ;; mret t.
Definition select_thread id : M (chat U) (Thread.Thread U) := λ d, found (threads d !! id) d.
Definition thread_key (t : Thread.Thread U) : Z * U := (Thread.CreatedAt t, Thread.ID t).
Definition newer_thread (a b : Thread.Thread U) : Prop := key_le (thread_key b) (thread_key a).
#[global] Instance newer_thread_dec : RelDecision newer_thread.
Proof. intros a b. unfold newer_thread. apply _. Defined.
Definition older_thread (before : U) d (k : Z * U) : bool :=
  match threads d !! before with
  | Some t => bool_decide (key_le k (Thread.CreatedAt t, before) ∧ k ≠ (Thread.CreatedAt t, before))
  | None => false
  end.
Definition select_threads ch (before : option U) (limit : Z) : M (chat U) (list (Thread.Thread U)) :=
  gets (λ d,
    let all := merge_sort newer_thread
                 (filter (λ t, Thread.ChannelID t = ch) (map_to_list (threads d)).*2) in
    take (Z.to_nat limit)
      match before with
      | None => all
      | Some b => filter (λ t, older_thread b d (thread_key t) = true) all
      end).
Definition set_thread (p : Thread.UpdateParams) (now : Z) (t : Thread.Thread U) : Thread.Thread U :=
  Thread.mkThread (Thread.ID t) (Thread.ChannelID t) (Thread.ParentMessageID t)
    (coalesce (Thread.up_Name p) (Thread.Name t)) (coalesce (Thread.up_Archived p) (Thread.Archived t))
    (coalesce (Thread.up_Locked p) (Thread.Locked t)) (Thread.CreatedAt t) now.
Definition update_thread (p : Thread.UpdateParams) id : M (chat U) (Thread.Thread U) :=
  d ← gets (λ d, d);
  t ← found (threads d !! id);
  modify (set_posts (on_threads <[id := set_thread p (c_now d) t]>)) ;;
  mret (set_thread p (c_now d) t).

(** ** message_attachments *)
Definition insert_attachment (p : Attachment.CreateParams U) : M (chat U) (Attachment.Attachment U) :=
  send_int4 (Attachment.cp_Width p) ;; send_int4 (Attachment.cp_Height p) ;;
  id ← fresh_id;
  d ← gets (λ d, d);
  if bool_decide (is_Some (attachments d !! id)) then fail (PgError codeUniqueViolation)
  else if bool_decide (Attachment.cp_ChannelID p ∉ c_channels d)
          || bool_decide (user_missing (Attachment.cp_UploaderID p) d)
  then fail (PgError codeForeignKeyViolation)
  else
    let a := Attachment.mkAttachment id None (Attachment.cp_ChannelID p) (Attachment.cp_UploaderID p)
               (Attachment.cp_Filename p) (Attachment.cp_ContentType p) (Attachment.cp_SizeBytes p)
               (Attachment.cp_StorageKey p) (Attachment.cp_Width p) (Attachment.cp_Height p) None
               (c_now d) in
    modify (set_posts (on_attachments <[id := a]>)) ;; mret a.
Definition select_attachment id : M (chat U) (Attachment.Attachment U) := λ d,
  found (attachments d !! id) d.
Definition link (m : U) (a : Attachment.Attachment U) : Attachment.Attachment U :=
  Attachment.mkAttachment (Attachment.ID a) (Some m) (Attachment.ChannelID a)
    (Attachment.UploaderID a) (Attachment.Filename a) (Attachment.ContentType a)
    (Attachment.SizeBytes a) (Attachment.StorageKey a) (Attachment.Width a) (Attachment.Height a)
    (Attachment.ThumbnailKey a) (Attachment.CreatedAt a).
(** WHERE id = ANY($2) AND uploader_id = $3 AND message_id IS NULL *)
Definition linkable (ids : list U) u (a : Attachment.Attachment U) : bool :=
  bool_decide (Attachment.ID a ∈ ids) && bool_decide (Attachment.UploaderID a = u)
  && bool_decide (Attachment.MessageID a = None).
Definition link_attachments (ids : list U) (m u : U) : M (chat U) (list (Attachment.Attachment U)) :=
  d ← gets (λ d, d);
  let chosen := filter (λ a, linkable ids u a = true) (map_to_list (attachments d)).*2 in
  if negb (bool_decide (chosen = [])) && bool_decide (messages d !! m = None)
  then fail (PgError codeForeignKeyViolation)
  else
    modify (set_posts (on_attachments (fmap (λ a, if linkable ids u a then link m a else a)))) ;;
    mret (link m <$> chosen).
Definition by_creation (a b : Attachment.Attachment U) : Prop := Attachment.CreatedAt a ≤ Attachment.CreatedAt b.
#[global] Instance by_creation_dec : RelDecision by_creation.
Proof. intros a b. unfold by_creation. apply _. Defined.
(** WHERE message_id = $1 ORDER BY created_at *)
Definition attached (m : U) d : list (Attachment.Attachment U) :=
  merge_sort by_creation
    (filter (λ a, Attachment.MessageID a = Some m) (map_to_list (attachments d)).*2).
Definition select_attachments (m : U) : M (chat U) (list (Attachment.Attachment U)) := gets (attached m).
(** One entry per message of [ids] that has rows. *)
Definition per_message {A} (ids : list U) (f : U → list A) : gmap U (list A) :=
  foldr (λ id acc, match f id with [] => acc | l => <[id := l]> acc end) ∅ ids.
Definition select_attachments_of (ids : list U) : M (chat U) (gmap U (list (Attachment.Attachment U))) :=
  gets (λ d, per_message ids (λ m, attached m d)).
Definition set_thumbnail (key : string) (a : Attachment.Attachment U) : Attachment.Attachment U :=
  Attachment.mkAttachment (Attachment.ID a) (Attachment.MessageID a) (Attachment.ChannelID a)
    (Attachment.UploaderID a) (Attachment.Filename a) (Attachment.ContentType a)
    (Attachment.SizeBytes a) (Attachment.StorageKey a) (Attachment.Width a) (Attachment.Height a)
    (Some key) (Attachment.CreatedAt a).
Definition update_thumbnail id (key : string) : M (chat U) Z :=
  d ← gets (λ d, d);
  match attachments d !! id with
  | Some a => modify (set_posts (on_attachments <[id := set_thumbnail key a]>)) ;; mret 1
  | None => mret 0
  end.
(** DELETE ... WHERE message_id IS NULL AND created_at < $1 RETURNING storage_key, thumbnail_key *)
Definition orphan (olderThan : Z) (a : Attachment.Attachment U) : bool :=
  bool_decide (Attachment.MessageID a = None) && (Attachment.CreatedAt a <? olderThan).
Definition delete_orphans (olderThan : Z) : M (chat U) (list (string * option string)) :=
  d ← gets (λ d, d);
  modify (set_posts (on_attachments (filter (λ p, orphan olderThan p.2 = false)))) ;;
  mret ((λ a, (Attachment.StorageKey a, Attachment.ThumbnailKey a)) <$>
        filter (λ a, orphan olderThan a = true) (map_to_list (attachments d)).*2).

(** ** reactions *)
Definition emoji_key : Type := option U * option string.
Definition reaction_emoji (x : reaction_row U) : emoji_key := (x_emoji x, x_unicode x).
(** The unique index compares COALESCE(emoji_id, nil uuid) and COALESCE(emoji_unicode, ''). *)
Definition index_key (k : emoji_key) : U * string := (coalesce k.1 uuid_Nil, coalesce k.2 ""%string).
Definition reacted (m u : U) (k : emoji_key) d : Prop :=
  map_Exists (λ _ x, x_message x = m ∧ x_user x = u ∧ index_key (reaction_emoji x) = index_key k)
    (reactions d).
#[global] Instance reacted_dec m u k d : Decision (reacted m u k d).
Proof. unfold reacted. apply _. Defined.
Definition insert_reaction (m u : U) (k : emoji_key) : M (chat U) (Reaction.Reaction U) :=
  id ← fresh_id;
  d ← gets (λ d, d);
  if bool_decide (is_Some (reactions d !! id)) || bool_decide (reacted m u k d)
  then fail (PgError codeUniqueViolation)
  else if bool_decide (messages d !! m = None) || bool_decide (user_missing u d) || missing k.1 (emoji d)
  then fail (PgError codeForeignKeyViolation)
  else
    modify (set_posts (on_reactions <[id := mkReactionRow m u k.1 k.2 (c_now d)]>)) ;;
    mret (Reaction.mkReaction id m u k.1 k.2 (c_now d) "").
(** ... AND emoji_id = $3, or else AND emoji_unicode = $3 (never true of NULL) *)
Definition has_emoji (k : emoji_key) (x : reaction_row U) : bool :=
  match k.1 with
  | Some e => bool_decide (x_emoji x = Some e)
  | None => match k.2 with Some s => bool_decide (x_unicode x = Some s) | None => false end
  end.
Definition is_reaction (m u : U) (k : emoji_key) (x : reaction_row U) : bool :=
  bool_decide (x_message x = m) && bool_decide (x_user x = u) && has_emoji k x.
Definition delete_reactions (m u : U) (k : emoji_key) : M (chat U) Z :=
  d ← gets (λ d, d);
  modify (set_posts (on_reactions (filter (λ p, is_reaction m u k p.2 = false)))) ;;
  mret (Z.of_nat (size (filter (λ p, is_reaction m u k p.2 = true) (reactions d)))).
Definition by_reaction_time (a b : U * reaction_row U) : Prop := x_created a.2 ≤ x_created b.2.
#[global] Instance by_reaction_time_dec : RelDecision by_reaction_time.
Proof. intros a b. unfold by_reaction_time. apply _. Defined.
Definition reaction_rows (p : reaction_row U → bool) d : list (U * reaction_row U) :=
  merge_sort by_reaction_time (filter (λ x, p x.2 = true) (map_to_list (reactions d))).
Definition reaction_of d (x : U * reaction_row U) : option (Reaction.Reaction U) :=
  (λ v, Reaction.mkReaction x.1 (x_message x.2) (x_user x.2) (x_emoji x.2) (x_unicode x.2)
          (x_created x.2) (User.Username v)) <$> c_users d !! x_user x.2.
Definition select_reactions (p : reaction_row U → bool) : M (chat U) (list (Reaction.Reaction U)) :=
  gets (λ d, omap (reaction_of d) (reaction_rows p d)).
Definition on_message (m : U) (x : reaction_row U) : bool := bool_decide (x_message x = m).

(** GROUP BY message_id, emoji_id, emoji_unicode ORDER BY message_id, MIN(created_at): the
    groups of a message in the order in which they begin. *)
Fixpoint distinct {A} `{EqDecision A} (l : list A) : list A :=
  match l with
  | [] => []
  | x :: l' => x :: filter (λ y, y ≠ x) (distinct l')
  end.
Definition summaries (m : U) d : list (Reaction.Summary U) :=
  let rows := (λ x, reaction_emoji x.2) <$> reaction_rows (on_message m) d in
  (λ k, Reaction.mkSummary k.1 k.2 (Z.of_nat (length (filter (λ y, y = k) rows)))) <$> distinct rows.
Definition select_summaries (ids : list U) : M (chat U) (gmap U (list (Reaction.Summary U))) :=
  gets (λ d, per_message ids (λ m, summaries m d)).
(** SELECT message_id, emoji_id, emoji_unicode ... WHERE message_id = ANY($1) AND user_id = $2 *)
Definition select_user_reactions (ids : list U) u : M (chat U) (list (U * emoji_key)) :=
  gets (λ d, omap (λ p, if bool_decide (x_message p.2 ∈ ids) && bool_decide (x_user p.2 = u)
                        then Some (x_message p.2, reaction_emoji p.2) else None)
               (map_to_list (reactions d))).

(** ** custom_emoji: the name is unique; reactions follow their emoji *)
Definition emoji_named (name : string) d : option (Emoji.Emoji U) :=
  snd <$> head (map_to_list (filter (λ p, Emoji.Name p.2 = name) (emoji d))).
Definition insert_emoji (p : Emoji.CreateParams U) : M (chat U) (Emoji.Emoji U) :=
  id ← fresh_id;
  d ← gets (λ d, d);
  if bool_decide (is_Some (emoji d !! id)) || bool_decide (is_Some (emoji_named (Emoji.cp_Name p) d))
  then fail (PgError codeUniqueViolation)
  else if bool_decide (user_missing (Emoji.cp_UploaderID p) d) then fail (PgError codeForeignKeyViolation)
  else
    let e := Emoji.mkEmoji id (Emoji.cp_Name p) (Emoji.cp_Animated p) (Emoji.cp_StorageKey p)
               (Emoji.cp_UploaderID p) (c_now d) (c_now d) in
    modify (set_posts (on_emoji <[id := e]>)) ;; mret e.
Definition select_emoji id : M (chat U) (Emoji.Emoji U) := λ d, found (emoji d !! id) d.
Definition select_emoji_named (name : string) : M (chat U) (Emoji.Emoji U) := λ d,
  found (emoji_named name d) d.
Definition rename (name : string) (now : Z) (e : Emoji.Emoji U) : Emoji.Emoji U :=
  Emoji.mkEmoji (Emoji.ID e) name (Emoji.Animated e) (Emoji.StorageKey e) (Emoji.UploaderID e)
    (Emoji.CreatedAt e) now.
Definition update_emoji id (name : string) : M (chat U) (Emoji.Emoji U) :=
  d ← gets (λ d, d);
  e ← found (emoji d !! id);
  if bool_decide (map_Exists (λ i x, i ≠ id ∧ Emoji.Name x = name) (emoji d))
  then fail (PgError codeUniqueViolation)
  else modify (set_posts (on_emoji <[id := rename name (c_now d) e]>)) ;; mret (rename name (c_now d) e).
Definition delete_emoji id : M (chat U) Z :=
  d ← gets (λ d, d);
  match emoji d !! id with
  | Some _ =>
      modify (set_posts (λ p, on_emoji (delete id)
        (on_reactions (filter (λ x, x_emoji x.2 ≠ Some id)) p))) ;; mret 1
  | None => mret 0
  end.
Definition count_emoji : M (chat U) Z := gets (λ d, Z.of_nat (size (emoji d))).

(** ** channel_read_states *)
Definition created_of (m : U) d : option Z := r_created <$> messages d !! m.
(** The position after an acknowledgement: it moves to a message created later only. *)
Definition advance (old : option U) (new : U) d : option U :=
  match old with
  | None => Some new
  | Some o =>
      match created_of o d, created_of new d with
      | Some a, Some b => if a <? b then Some new else Some o
      | None, Some _ => Some new
      | _, None => Some o
      end
  end.
Definition upsert_read_state u ch (m : U) : M (chat U) (ReadState.ReadState U) :=
  d ← gets (λ d, d);
  if negb (live_in m ch d) then fail ErrNoRows
  else
    let last := match read_states d !! (u, ch) with
                | Some rs => advance (ReadState.LastMessageID rs) m d
                | None => Some m
                end in
    if bool_decide (user_missing u d) || bool_decide (ch ∉ c_channels d)
    then fail (PgError codeForeignKeyViolation)
    else
      let rs := ReadState.mkReadState u ch last 0 (c_now d) in
      modify (set_posts (on_read <[(u, ch) := rs]>)) ;; mret rs.
Definition select_read_states u : M (chat U) (list (ReadState.ReadState U)) :=
  gets (λ d, (map_to_list (filter (λ p, p.1.1 = u) (read_states d))).*2).
Definition delete_read_states ch : M (chat U) unit :=
  modify (set_posts (on_read (filter (λ p, p.1.2 ≠ ch)))).
End statements.
Arguments emoji_key U : clear implicits.
