(* ===== verification/DmTables.v ===== *)
(** * The tables of the conversations and the SQL on them: direct messages and keys

    dm_channels, dm_participants, user_devices, e2ee_signed_pre_keys, e2ee_one_time_pre_keys and
    dm_message_keys of postgres/migrations/001_initial_schema.sql, and the statements of
    internal/dm and internal/e2ee on them.  PostgreSQL's answer to a count with a locking
    clause is a parameter. *)
From stdpp Require Import sorting.
From S2P Require Import Prelude GoStd Platform Permission Validate Postgres Domain GuildTables ChatTables.
Open Scope Z_scope.

(** SELECT COUNT( * ) ... FOR UPDATE, by the number of rows. *)
Class LockedAggregates : Type := { count_for_update : Z → res Z }.
(** What the program relies on: an answer is the count. *)
Class LockedAggregatesCount `{LockedAggregates} : Prop := {
  locked_count : ∀ n m, count_for_update n = Ok m → m = n }.
(** What PostgreSQL documents: locking clauses cannot be used with aggregation
    (feature_not_supported). *)
Class LockedAggregatesRefused `{LockedAggregates} : Prop := {
  locked_refused : ∀ n, count_for_update n = Err (PgError "0A000") }.
#[export] Instance refused_count `{LockedAggregatesRefused} : LockedAggregatesCount.
Proof. constructor. intros n m. by rewrite locked_refused. Qed.

Section statements.
Context {U : Type} `{UUIDLib U} `{RandomUUID U} `{LockedAggregates}.
Implicit Types (d : chat U) (id u ch dev : U).

Definition on_dm_channels f (x : dms U) : dms U := mkDms (f (d_channels x)) (d_participants x).
Definition on_participants f (x : dms U) : dms U := mkDms (d_channels x) (f (d_participants x)).
Definition dm_channels (d : chat U) := d_channels (c_dms d).
Definition participants (d : chat U) := d_participants (c_dms d).
Definition on_devices f (x : keys U) : keys U :=
  mkKeys (f (k_devices x)) (k_spks x) (k_opks x) (k_message_keys x).
Definition on_spks f (x : keys U) : keys U :=
  mkKeys (k_devices x) (f (k_spks x)) (k_opks x) (k_message_keys x).
Definition on_opks f (x : keys U) : keys U :=
  mkKeys (k_devices x) (k_spks x) (f (k_opks x)) (k_message_keys x).
Definition on_message_keys f (x : keys U) : keys U :=
  mkKeys (k_devices x) (k_spks x) (k_opks x) (f (k_message_keys x)).
Definition devices (d : chat U) := k_devices (c_keys d).
Definition spks (d : chat U) := k_spks (c_keys d).
Definition opks (d : chat U) := k_opks (c_keys d).
Definition message_keys (d : chat U) := k_message_keys (c_keys d).

(** ** dm_channels and dm_participants *)
Definition TypeDM : string := "dm".
Definition TypeGroupDM : string := "group_dm".
Definition is_participant ch u d : bool := bool_decide (is_Some (participants d !! (ch, u))).

(** WHERE type = 'dm' AND both take part LIMIT 1 *)
Definition between (u v : U) d (p : U * Dm.Channel U) : Prop :=
  Dm.Type_ p.2 = TypeDM ∧ is_participant p.1 u d = true ∧ is_participant p.1 v d = true.
#[global] Instance between_dec u v d p : Decision (between u v d p).
Proof. unfold between. apply _. Defined.
Definition find_dm (u v : U) d : option (Dm.Channel U) :=
  snd <$> head (filter (between u v d) (map_to_list (dm_channels d))).
(** A query without rows is no error of the server: a transaction goes on after it. *)
Definition select_dm (u v : U) : M (chat U) (option (Dm.Channel U)) := gets (find_dm u v).
Definition insert_dm (type : string) (name : option string) (owner : option U) :
    M (chat U) (Dm.Channel U) :=
  id ← fresh_id;
  d ← gets (λ d, d);
  if negb (bool_decide (type ∈ [TypeDM; TypeGroupDM]))
     || (negb (bool_decide (type = TypeDM)) && bool_decide (name = None))
  then fail (PgError "23514")
  else if bool_decide (is_Some (dm_channels d !! id)) then fail (PgError codeUniqueViolation)
  else if missing owner (c_users d) then fail (PgError codeForeignKeyViolation)
  else
    let c := Dm.mkChannel id type name owner (c_now d) (c_now d) in
    modify (set_dms (on_dm_channels <[id := c]>)) ;; mret c.
Definition insert_participant ch u : M (chat U) unit :=
  d ← gets (λ d, d);
  if is_participant ch u d then fail (PgError codeUniqueViolation)
  else if bool_decide (dm_channels d !! ch = None) || bool_decide (user_missing u d)
  then fail (PgError codeForeignKeyViolation)
  else modify (set_dms (on_participants <[(ch, u) := c_now d]>)).
Definition delete_participant ch u : M (chat U) Z :=
  d ← gets (λ d, d);
  if is_participant ch u d then modify (set_dms (on_participants (delete (ch, u)))) ;; mret 1
  else mret 0.
Definition select_dm_channel id : M (chat U) (Dm.Channel U) := λ d, found (dm_channels d !! id) d.
Definition by_activity (a b : Dm.Channel U) : Prop := Dm.UpdatedAt b ≤ Dm.UpdatedAt a.
#[global] Instance by_activity_dec : RelDecision by_activity.
Proof. intros a b. unfold by_activity. apply _. Defined.
(** JOIN dm_participants ... WHERE dp.user_id = $1 ORDER BY dc.updated_at DESC *)
Definition select_dms u : M (chat U) (list (Dm.Channel U)) :=
  gets (λ d, merge_sort by_activity
    (filter (λ p, is_participant p.1 u d = true) (map_to_list (dm_channels d))).*2).
Definition members_of ch d : list (U * Z) :=
  omap (λ p, if bool_decide (p.1.1 = ch) then Some (p.1.2, p.2) else None)
    (map_to_list (participants d)).
Definition count_participants ch : M (chat U) Z := λ d,
  (count_for_update (Z.of_nat (length (members_of ch d))), d).
Definition joined_first (a b : Dm.Participant U) : Prop := Dm.JoinedAt a ≤ Dm.JoinedAt b.
#[global] Instance joined_first_dec : RelDecision joined_first.
Proof. intros a b. unfold joined_first. apply _. Defined.
Definition select_participants ch : M (chat U) (list (Dm.Participant U)) :=
  gets (λ d, merge_sort joined_first
    ((λ p, Dm.mkParticipant ch p.1 p.2) <$> members_of ch d)).
Definition participant_exists ch u : M (chat U) bool := gets (is_participant ch u).
(** SELECT DISTINCT user_id ... in a channel of $1, AND user_id != $1 *)
Definition peers u d : gset U :=
  list_to_set (omap (λ p, if is_participant p.1.1 u d && negb (bool_decide (p.1.2 = u))
                          then Some p.1.2 else None) (map_to_list (participants d))).
Definition select_peers u : M (chat U) (list U) := gets (λ d, elements (peers u d)).

(** ** user_devices: (user_id, device_id) is unique, the identity key has 32 bytes *)
Definition device_of u dev d : option (Key.Device U) :=
  snd <$> head (map_to_list (filter (λ p, Key.UserID p.2 = u ∧ Key.DeviceID p.2 = dev) (devices d))).
Definition oldest_device (a b : Key.Device U) : Prop := Key.CreatedAt a ≤ Key.CreatedAt b.
#[global] Instance oldest_device_dec : RelDecision oldest_device.
Proof. intros a b. unfold oldest_device. apply _. Defined.
Definition devices_of u d : list (Key.Device U) :=
  merge_sort oldest_device (filter (λ x, Key.UserID x = u) (map_to_list (devices d)).*2).
Definition count_devices u : M (chat U) Z := λ d,
  (count_for_update (Z.of_nat (length (devices_of u d))), d).
Definition insert_device u dev (label : option string) (key : string) : M (chat U) (Key.Device U) :=
  id ← fresh_id;
  d ← gets (λ d, d);
  if negb (len key =? 32) then fail (PgError "23514")
  else if bool_decide (is_Some (devices d !! id)) || bool_decide (is_Some (device_of u dev d))
  then fail (PgError codeUniqueViolation)
  else if bool_decide (user_missing u d) then fail (PgError codeForeignKeyViolation)
  else
    let x := Key.mkDevice id u dev label key (c_now d) (c_now d) in
    modify (set_keys (on_devices <[id := x]>)) ;; mret x.
Definition select_devices u : M (chat U) (list (Key.Device U)) := gets (devices_of u).
Definition select_device u dev : M (chat U) (Key.Device U) := λ d, found (device_of u dev d) d.
(** The keys of a device, and the message keys encrypted to it, follow it. *)
Definition drop_device id (k : keys U) : keys U :=
  mkKeys (delete id (k_devices k)) (filter (λ p, Key.spk_DeviceID p.2 ≠ id) (k_spks k))
    (filter (λ p, Key.opk_DeviceID p.2 ≠ id) (k_opks k))
    (filter (λ p, p.1.2 ≠ id) (k_message_keys k)).
Definition delete_device id : M (chat U) Z :=
  d ← gets (λ d, d);
  match devices d !! id with
  | Some _ => modify (set_keys (drop_device id)) ;; mret 1
  | None => mret 0
  end.
Definition set_identity (key : string) (now : Z) (x : Key.Device U) : Key.Device U :=
  Key.mkDevice (Key.ID x) (Key.UserID x) (Key.DeviceID x) (Key.Label x) key (Key.CreatedAt x) now.
Definition update_identity id (key : string) : M (chat U) (Key.Device U) :=
  d ← gets (λ d, d);
  x ← found (devices d !! id);
  if negb (len key =? 32) then fail (PgError "23514")
  else modify (set_keys (on_devices <[id := set_identity key (c_now d) x]>)) ;;
       mret (set_identity key (c_now d) x).

(** ** e2ee_signed_pre_keys and e2ee_one_time_pre_keys: (device_id, key_id) is unique *)
Definition deactivate dev (k : Key.SignedPreKey U) : Key.SignedPreKey U :=
  if bool_decide (Key.spk_DeviceID k = dev) && Key.spk_Active k
  then Key.mkSignedPreKey (Key.spk_ID k) (Key.spk_DeviceID k) (Key.spk_KeyID k)
         (Key.spk_PublicKey k) (Key.spk_Signature k) false (Key.spk_CreatedAt k)
  else k.
Definition deactivate_spks dev : M (chat U) unit :=
  modify (set_keys (on_spks (fmap (deactivate dev)))).
Definition insert_spk dev (keyID : Z) (key signature : string) : M (chat U) unit :=
  send_int4 (Some keyID) ;;
  id ← fresh_id;
  d ← gets (λ d, d);
  if negb (len key =? 32) || negb (len signature =? 64) then fail (PgError "23514")
  else if bool_decide (is_Some (spks d !! id))
          || bool_decide (map_Exists (λ _ k, Key.spk_DeviceID k = dev ∧ Key.spk_KeyID k = keyID) (spks d))
  then fail (PgError codeUniqueViolation)
  else if bool_decide (devices d !! dev = None) then fail (PgError codeForeignKeyViolation)
  else modify (set_keys (on_spks
         <[id := Key.mkSignedPreKey id dev keyID key signature true (c_now d)]>)).
Definition active_spk dev d : option (Key.SignedPreKey U) :=
  snd <$> head (map_to_list
    (filter (λ p, Key.spk_DeviceID p.2 = dev ∧ Key.spk_Active p.2 = true) (spks d))).
Definition select_spk dev : M (chat U) (option (Key.SignedPreKey U)) := gets (active_spk dev).

Definition insert_opk dev (k : E2ee.UploadOPKParams) : M (chat U) unit :=
  send_int4 (Some (E2ee.KeyID k)) ;;
  id ← fresh_id;
  d ← gets (λ d, d);
  if negb (len (E2ee.PublicKey k) =? 32) then fail (PgError "23514")
  else if bool_decide (is_Some (opks d !! id))
          || bool_decide (map_Exists (λ _ x, Key.opk_DeviceID x = dev ∧
                                             Key.opk_KeyID x = E2ee.KeyID k) (opks d))
  then fail (PgError codeUniqueViolation)
  else if bool_decide (devices d !! dev = None) then fail (PgError codeForeignKeyViolation)
  else modify (set_keys (on_opks
         <[id := Key.mkOneTimePreKey id dev (E2ee.KeyID k) (E2ee.PublicKey k) (c_now d)]>)).
Definition opks_of dev d : list (Key.OneTimePreKey U) :=
  filter (λ k, Key.opk_DeviceID k = dev) (map_to_list (opks d)).*2.
Definition count_opks dev : M (chat U) Z := gets (λ d, Z.of_nat (length (opks_of dev d))).
Definition by_key_id (a b : Key.OneTimePreKey U) : Prop := Key.opk_KeyID a ≤ Key.opk_KeyID b.
#[global] Instance by_key_id_dec : RelDecision by_key_id.
Proof. intros a b. unfold by_key_id. apply _. Defined.
(** DELETE ... WHERE id = (SELECT ... ORDER BY key_id LIMIT 1 FOR UPDATE SKIP LOCKED)
    RETURNING: with no other transaction holding a row, the least key. *)
Definition next_opk dev d : option (Key.OneTimePreKey U) := head (merge_sort by_key_id (opks_of dev d)).
Definition take_opk dev : M (chat U) (option (Key.OneTimePreKey U)) :=
  d ← gets (λ d, d);
  match next_opk dev d with
  | Some k => modify (set_keys (on_opks (delete (Key.opk_ID k)))) ;; mret (Some k)
  | None => mret None
  end.

(** ** dm_message_keys *)
Definition insert_message_key (m dev : U) (key : string) : M (chat U) unit :=
  d ← gets (λ d, d);
  if bool_decide (is_Some (message_keys d !! (m, dev))) then fail (PgError codeUniqueViolation)
  else if bool_decide (messages d !! m = None) || bool_decide (devices d !! dev = None)
  then fail (PgError codeForeignKeyViolation)
  else modify (set_keys (on_message_keys <[(m, dev) := key]>)).
Definition select_message_key (m dev : U) : M (chat U) string := λ d,
  found (message_keys d !! (m, dev)) d.
Definition select_message_keys (ids : list U) dev : M (chat U) (gmap U string) :=
  gets (λ d, foldr (λ m acc, match message_keys d !! (m, dev) with
                             | Some k => <[m := k]> acc | None => acc end) ∅ ids).
End statements.
