(* ===== verification/ChatRepo.v ===== *)
(** * The repositories of the conversations: internal/message, thread, attachment, reaction,
    emoji, readstate, dm and e2ee, repository.go of each

    One Module per package, one definition per method, over the statements of ChatTables.v and
    DmTables.v. *)
From S2P Require Import Prelude GoStd Platform Permission Validate Postgres Domain GuildTables.
From S2P Require Import ChatTables DmTables.
Open Scope Z_scope.

(** [if errors.Is(err, ErrNoRows) { return ErrNotFound }] over a scanned row. *)
Definition scan_error (target : error) (scan ctx : string) (e : error) : error :=
  on_err ErrNoRows target ctx (Wrap scan e).
(** [if tag.RowsAffected() == 0 { return err }] *)
Definition rows_affected {W} (err : error) (n : Z) : M W unit :=
  if n =? 0 then fail err else mret tt.

(** ** internal/message/repository.go *)
Module MessageRepo.
Definition ErrNotFound : error := Sentinel "message.ErrNotFound".
Definition ErrReplyNotFound : error := Sentinel "message.ErrReplyNotFound".
Definition ErrNotAuthor : error := Sentinel "message.ErrNotAuthor".
Definition ErrAlreadyPinned : error := Sentinel "message.ErrAlreadyPinned".
Definition ErrNotPinned : error := Sentinel "message.ErrNotPinned".

Section repository.
Context {U W : Type} `{UUIDLib U} `{RandomUUID U} `{UUIDOrder U} `{Postgres (chat U) W}.
Implicit Types (id channelID threadID : U) (before : option U).

Definition check_reply (replyTo : option U) (channelID : U) : M W unit :=
  match replyTo with
  | None => mret tt
  | Some target =>
      exists_ ← wrap "check reply target" (tx_query (gets (live_in target channelID)));
      if exists_ : bool then mret tt else fail ErrReplyNotFound
  end.
Definition Create (params : Message.CreateParams U) : M W (Message.Message U) :=
  WithTx (chat U) (
    check_reply (Message.cp_ReplyToID params) (Message.cp_ChannelID params) ;;
    ids ← wrap "insert message" (tx_query (insert_message params));
    author ← wrap "fetch author info" (tx_query (select_author (Message.cp_AuthorID params)));
    mret (let '(id, created, updated) := ids in
          let '(username, displayName, avatarKey) := author in
          Message.mkMessage id (Message.cp_ChannelID params) (Message.cp_AuthorID params)
            (Message.cp_Content params) None (Message.cp_ReplyToID params)
            (Message.cp_ThreadID params) false None None (Message.cp_Encrypted params)
            created updated username displayName avatarKey)).

Definition GetByID id : M W (Message.Message U) :=
  map_err (scan_error ErrNotFound "scan message" "query message by id") (pg_query (select_message id)).
Definition List channelID before (limit : Z) : M W (list (Message.Message U)) :=
  wrap "query messages" (pg_query (select_messages (in_channel channelID) before limit)).
Definition ListByThread threadID before (limit : Z) : M W (list (Message.Message U)) :=
  wrap "query thread messages" (pg_query (select_messages (in_thread threadID) before limit)).
Definition ListPinned channelID : M W (list (Message.Message U)) :=
  wrap "query pinned messages" (pg_query (select_pinned channelID)).

(** UPDATE ... RETURNING id, and ErrNoRows when no row matched. *)
Definition update_returning (content : string) id : M (chat U) U :=
  n ← update_message is_live (set_content content) id;
  if n =? 0 then fail ErrNoRows else mret id.
Definition Update id (content : string) : M W (Message.Message U) :=
  updated ← map_err (on_err ErrNoRows ErrNotFound "update message")
              (pg_query (update_returning content id));
  GetByID updated.
Definition SoftDelete id (deletedBy : U) : M W unit :=
  n ← wrap "soft delete message" (pg_query (update_message is_live (set_deleted deletedBy) id));
  rows_affected ErrNotFound n.

(** No row changed: what the message's row says. *)
Definition diagnose (wanted : bool) (err : error) id : M W (Message.Message U) :=
  r ← try (GetByID id);
  match r with
  | Err _ => fail ErrNotFound
  | Ok msg => if bool_decide (Message.Pinned msg = wanted) then fail err else fail ErrNotFound
  end.
Definition Pin id : M W (Message.Message U) :=
  n ← wrap "pin message"
        (pg_query (update_message (λ r, is_live r && negb (r_pinned r)) (set_pinned true) id));
  if n =? 0 then diagnose true ErrAlreadyPinned id else GetByID id.
Definition Unpin id : M W (Message.Message U) :=
  n ← wrap "unpin message"
        (pg_query (update_message (λ r, is_live r && r_pinned r) (set_pinned false) id));
  if n =? 0 then diagnose false ErrNotPinned id else GetByID id.
End repository.
End MessageRepo.

(** ** internal/thread/repository.go *)
Module ThreadRepo.
Definition ErrNotFound : error := Sentinel "thread.ErrNotFound".
Definition ErrAlreadyExists : error := Sentinel "thread.ErrAlreadyExists".
Definition ErrArchived : error := Sentinel "thread.ErrArchived".
Definition ErrLocked : error := Sentinel "thread.ErrLocked".
Definition ErrMessageNotFound : error := Sentinel "thread.ErrMessageNotFound".

Section repository.
Context {U W : Type} `{UUIDLib U} `{RandomUUID U} `{UUIDOrder U} `{Postgres (chat U) W}.
Implicit Types (id channelID : U).

Definition insert_error (e : error) : error :=
  let err := Wrap "scan thread" e in
  if IsUniqueViolation err then ErrAlreadyExists else Wrap "insert thread" err.
Definition Create (params : Thread.CreateParams U) : M W (Thread.Thread U) :=
  WithTx (chat U) (
    exists_ ← wrap "check parent message"
      (tx_query (gets (live_in (Thread.cp_ParentMessageID params) (Thread.cp_ChannelID params))));
    if negb exists_ then fail ErrMessageNotFound
    else map_err insert_error (tx_query (insert_thread params))).
Definition GetByID id : M W (Thread.Thread U) :=
  map_err (scan_error ErrNotFound "scan thread" "query thread by id") (pg_query (select_thread id)).
Definition ListByChannel channelID (before : option U) (limit : Z) : M W (list (Thread.Thread U)) :=
  wrap "query threads" (pg_query (select_threads channelID before limit)).

Definition no_update (p : Thread.UpdateParams) : bool :=
  match p with Thread.mkUpdateParams None None None => true | _ => false end.
Definition Update id (params : Thread.UpdateParams) : M W (Thread.Thread U) :=
  if no_update params then GetByID id
  else
    WithTx (chat U) (
      current ← map_err (scan_error ErrNotFound "scan thread" "fetch thread for update")
                  (tx_query (select_thread id));
      let unlocking := bool_decide (Thread.up_Locked params = Some false) in
      if Thread.Locked current && negb unlocking then fail ErrLocked
      else map_err (λ e, Wrap "update thread" (Wrap "scan thread" e))
             (tx_query (update_thread params id))).
End repository.
End ThreadRepo.

(** ** internal/attachment/repository.go *)
Module AttachmentRepo.
Definition ErrNotFound : error := Sentinel "attachment.ErrNotFound".

Section repository.
Context {U W : Type} `{UUIDLib U} `{RandomUUID U} `{Postgres (chat U) W}.
Implicit Types (id messageID uploaderID : U) (ids : list U).

Definition Create (params : Attachment.CreateParams U) : M W (Attachment.Attachment U) :=
  wrap "scan attachment" (pg_query (insert_attachment params)).
Definition GetByID id : M W (Attachment.Attachment U) :=
  map_err (scan_error ErrNotFound "scan attachment" "query attachment by id")
    (pg_query (select_attachment id)).
Definition LinkToMessage ids messageID uploaderID : M W (list (Attachment.Attachment U)) :=
  result ← wrap "link attachments to message" (pg_query (link_attachments ids messageID uploaderID));
  if bool_decide (length result = length ids) then mret result else fail ErrNotFound.
Definition ListByMessage messageID : M W (list (Attachment.Attachment U)) :=
  wrap "query attachments by message" (pg_query (select_attachments messageID)).
Definition ListByMessages ids : M W (gmap U (list (Attachment.Attachment U))) :=
  match ids with
  | [] => mret ∅
  | _ => wrap "query attachments by messages" (pg_query (select_attachments_of ids))
  end.
Definition SetThumbnailKey id (thumbnailKey : string) : M W unit :=
  n ← wrap "set thumbnail key" (pg_query (update_thumbnail id thumbnailKey));
  rows_affected ErrNotFound n.
(** The storage key of each row, then its thumbnail's. *)
Definition row_keys (row : string * option string) : list string :=
  row.1 :: match row.2 with Some k => [k] | None => [] end.
Definition PurgeOrphans (olderThan : Z) : M W (list string) :=
  rows ← wrap "purge orphan attachments" (pg_query (delete_orphans (U := U) olderThan));
  mret (rows ≫= row_keys).
End repository.
End AttachmentRepo.

(** ** internal/reaction/repository.go *)
Module ReactionRepo.
Definition ErrNotFound : error := Sentinel "reaction.ErrNotFound".
Definition ErrAlreadyReacted : error := Sentinel "reaction.ErrAlreadyReacted".

Section repository.
Context {U W : Type} `{UUIDLib U} `{RandomUUID U} `{Postgres (chat U) W}.
Implicit Types (messageID userID : U) (ids : list U) (k : emoji_key U).

Definition Add messageID userID k : M W (Reaction.Reaction U) :=
  map_err (λ e, if IsUniqueViolation e then ErrAlreadyReacted else Wrap "add reaction" e)
    (pg_query (insert_reaction messageID userID k)).
Definition Remove messageID userID k : M W unit :=
  n ← wrap "remove reaction" (pg_query (delete_reactions messageID userID k));
  rows_affected ErrNotFound n.
Definition ListByMessage messageID : M W (list (Reaction.Reaction U)) :=
  wrap "list reactions by message" (pg_query (select_reactions (on_message messageID))).
Definition ListByEmoji messageID k : M W (list (Reaction.Reaction U)) :=
  wrap "list reactions by emoji"
    (pg_query (select_reactions (λ x, on_message messageID x && has_emoji k x))).
Definition SummariesByMessages ids : M W (gmap U (list (Reaction.Summary U))) :=
  match ids with
  | [] => mret ∅
  | _ => wrap "summarise reactions" (pg_query (select_summaries ids))
  end.
(** The key of a reaction in the set of the user's own. *)
Definition custom_key (e : U) : string := "custom:" +:+ uuid_String e.
Definition own_key (k : emoji_key U) : option string :=
  match k with (Some e, _) => Some (custom_key e) | (None, u) => u end.
Definition own_reactions (rows : list (U * emoji_key U)) : gmap U (gset string) :=
  foldl (λ acc row, <[row.1 := list_to_set (option_list (own_key row.2)) ∪ default ∅ (acc !! row.1)]> acc)
    ∅ rows.
Definition UserReactionsByMessages ids userID : M W (gmap U (gset string)) :=
  match ids with
  | [] => mret ∅
  | _ => rows ← wrap "query user reactions" (pg_query (select_user_reactions ids userID));
         mret (own_reactions rows)
  end.
End repository.
End ReactionRepo.

(** ** internal/emoji/repository.go: List, ordered by the collation of the database, is left out *)
Module EmojiRepo.
Definition ErrNotFound : error := Sentinel "emoji.ErrNotFound".
Definition ErrNameTaken : error := Sentinel "emoji.ErrNameTaken".

Section repository.
Context {U W : Type} `{UUIDLib U} `{RandomUUID U} `{Postgres (chat U) W}.
Implicit Types (id : U).

Definition Create (params : Emoji.CreateParams U) : M W (Emoji.Emoji U) :=
  map_err (λ e, let err := Wrap "scan emoji" e in
                if IsUniqueViolation err then ErrNameTaken else Wrap "create emoji" err)
    (pg_query (insert_emoji params)).
Definition GetByID id : M W (Emoji.Emoji U) :=
  map_err (scan_error ErrNotFound "scan emoji" "query emoji by id") (pg_query (select_emoji id)).
Definition GetByName (name : string) : M W (Emoji.Emoji U) :=
  map_err (scan_error ErrNotFound "scan emoji" "query emoji by name") (pg_query (select_emoji_named name)).
Definition update_error (e : error) : error :=
  let err := Wrap "scan emoji" e in
  if errors_Is err ErrNoRows then ErrNotFound
  else if IsUniqueViolation err then ErrNameTaken
  else Wrap "update emoji name" err.
Definition UpdateName id (name : string) : M W (Emoji.Emoji U) :=
  map_err update_error (pg_query (update_emoji id name)).
Definition Delete id : M W unit :=
  n ← wrap "delete emoji" (pg_query (delete_emoji id)); rows_affected ErrNotFound n.
Definition Count : M W Z := wrap "count emoji" (pg_query (count_emoji (U := U))).
End repository.
End EmojiRepo.

(** ** internal/readstate/repository.go *)
Module ReadStateRepo.
Definition ErrMessageNotInChannel : error := Sentinel "readstate.ErrMessageNotInChannel".

Section repository.
Context {U W : Type} `{UUIDLib U} `{RandomUUID U} `{Postgres (chat U) W}.
Implicit Types (userID channelID messageID : U).

Definition ListByUser userID : M W (list (ReadState.ReadState U)) :=
  wrap "query read states" (pg_query (select_read_states userID)).
Definition Ack userID channelID messageID : M W (ReadState.ReadState U) :=
  map_err (on_err ErrNoRows ErrMessageNotInChannel "ack read state")
    (pg_query (upsert_read_state userID channelID messageID)).
Definition DeleteByChannel channelID : M W unit :=
  wrap "delete read states by channel" (pg_query (delete_read_states channelID)).
End repository.
End ReadStateRepo.

(** ** internal/dm/repository.go *)
Module DmRepo.
Definition ErrDMNotFound : error := Sentinel "dm.ErrDMNotFound".
Definition ErrAlreadyParticipant : error := Sentinel "dm.ErrAlreadyParticipant".
Definition ErrNotParticipant : error := Sentinel "dm.ErrNotParticipant".
Definition ErrGroupDMFull : error := Sentinel "dm.ErrGroupDMFull".
Definition ErrNotOwner : error := Sentinel "dm.ErrNotOwner".
Definition MaxGroupDMParticipants : Z := 10.

Section repository.
Context {U W : Type} `{UUIDLib U} `{RandomUUID U} `{LockedAggregates} `{Postgres (chat U) W}.
Implicit Types (id channelID userID creatorID recipientID ownerID : U).

(** uniqueUUIDs: the first of equal identifiers stays. *)
Fixpoint unique_from (seen : gset U) (ids : list U) : list U :=
  match ids with
  | [] => []
  | id :: ids' => if bool_decide (id ∈ seen) then unique_from seen ids'
                  else id :: unique_from ({[id]} ∪ seen) ids'
  end.
Definition uniqueUUIDs (ids : list U) : list U := unique_from ∅ ids.

Definition add_all (ch : Dm.Channel U) (users : list U) : M W unit :=
  for_each users (λ uid, wrap "insert participant" (tx_query (insert_participant (Dm.ID ch) uid))).
Definition CreateDM creatorID recipientID : M W (Dm.Channel U) :=
  WithTx (chat U) (
    r ← wrap "check existing dm" (tx_query (select_dm creatorID recipientID));
    match r with
    | Some ch => mret ch
    | None =>
        ch ← wrap "insert dm channel" (tx_query (insert_dm TypeDM None None));
        add_all ch [creatorID; recipientID] ;; mret ch
    end).
Definition CreateGroupDM ownerID (name : string) (participantIDs : list U) : M W (Dm.Channel U) :=
  let allParticipants := uniqueUUIDs (participantIDs ++ [ownerID]) in
  if MaxGroupDMParticipants <? Z.of_nat (length allParticipants) then fail ErrGroupDMFull
  else
    WithTx (chat U) (
      ch ← wrap "insert group dm channel" (tx_query (insert_dm TypeGroupDM (Some name) (Some ownerID)));
      add_all ch allParticipants ;; mret ch).
Definition GetByID id : M W (Dm.Channel U) :=
  map_err (on_err ErrNoRows ErrDMNotFound "get dm channel") (pg_query (select_dm_channel id)).
Definition ListForUser userID : M W (list (Dm.Channel U)) :=
  wrap "list dm channels" (pg_query (select_dms userID)).
Definition add_error (e : error) : error :=
  if IsUniqueViolation e then ErrAlreadyParticipant else Wrap "insert participant" e.
Definition AddParticipant channelID userID : M W unit :=
  WithTx (chat U) (
    count ← wrap "count participants" (tx_query (count_participants channelID));
    if MaxGroupDMParticipants <=? count then fail ErrGroupDMFull
    else map_err add_error (tx_query (insert_participant channelID userID))).
Definition RemoveParticipant channelID userID : M W unit :=
  n ← wrap "delete participant" (pg_query (delete_participant channelID userID));
  rows_affected ErrNotParticipant n.
Definition ListParticipants channelID : M W (list (Dm.Participant U)) :=
  wrap "list participants" (pg_query (select_participants channelID)).
Definition IsParticipant channelID userID : M W bool :=
  wrap "check participant" (pg_query (participant_exists channelID userID)).
Definition ListDMPeers userID : M W (list U) :=
  wrap "list dm peers" (pg_query (select_peers userID)).
End repository.
End DmRepo.

(** ** internal/e2ee/repository.go *)
Module E2eeRepo.
Definition ErrDeviceNotFound : error := Sentinel "e2ee.ErrDeviceNotFound".
Definition ErrKeyBundleIncomplete : error := Sentinel "e2ee.ErrKeyBundleIncomplete".
Definition ErrNoDevices : error := Sentinel "e2ee.ErrNoDevices".
Definition ErrDuplicateKeyID : error := Sentinel "e2ee.ErrDuplicateKeyID".
Definition ErrDuplicateDevice : error := Sentinel "e2ee.ErrDuplicateDevice".
Definition ErrMaxDevicesReached : error := Sentinel "e2ee.ErrMaxDevicesReached".

Record RegisterDeviceParams (U : Type) := mkRegisterDevice {
  rd_UserID : U; rd_DeviceID : U; rd_Label : option string; rd_IdentityKey : string }.
Arguments mkRegisterDevice {U}. Arguments rd_UserID {U}. Arguments rd_DeviceID {U}.
Arguments rd_Label {U}. Arguments rd_IdentityKey {U}.
Record UploadSignedPreKeyParams (U : Type) := mkUploadSignedPreKey {
  us_DeviceRowID : U; us_KeyID : Z; us_PublicKey : string; us_Signature : string }.
Arguments mkUploadSignedPreKey {U}. Arguments us_DeviceRowID {U}. Arguments us_KeyID {U}.
Arguments us_PublicKey {U}. Arguments us_Signature {U}.
Record DeviceKeyBundle (U : Type) := mkDeviceKeyBundle {
  b_Device : Key.Device U; b_SignedPreKey : Key.SignedPreKey U;
  b_OneTimePreKey : option (Key.OneTimePreKey U) }.
Arguments mkDeviceKeyBundle {U}. Arguments b_Device {U}. Arguments b_SignedPreKey {U}.
Arguments b_OneTimePreKey {U}.
Record UserKeyBundle (U : Type) := mkUserKeyBundle {
  ub_UserID : U; ub_Devices : list (DeviceKeyBundle U) }.
Arguments mkUserKeyBundle {U}. Arguments ub_UserID {U}. Arguments ub_Devices {U}.

Section repository.
Context {U W : Type} `{UUIDLib U} `{RandomUUID U} `{LockedAggregates} `{Postgres (chat U) W}.
Context (maxDevices : Z).
Implicit Types (userID deviceID deviceRowID messageID : U).

Definition unique_error (err' : error) (ctx : string) (e : error) : error :=
  if IsUniqueViolation e then err' else Wrap ctx e.
Definition RegisterDevice (params : RegisterDeviceParams U) : M W (Key.Device U) :=
  WithTx (chat U) (
    count ← wrap "count devices" (tx_query (count_devices (rd_UserID params)));
    if maxDevices <=? count then fail ErrMaxDevicesReached
    else map_err (unique_error ErrDuplicateDevice "insert device")
           (tx_query (insert_device (rd_UserID params) (rd_DeviceID params) (rd_Label params)
                        (rd_IdentityKey params)))).
Definition ListDevices userID : M W (list (Key.Device U)) :=
  wrap "list devices" (pg_query (select_devices userID)).
Definition GetDeviceByDeviceID userID deviceID : M W (Key.Device U) :=
  map_err (on_err ErrNoRows ErrDeviceNotFound "get device") (pg_query (select_device userID deviceID)).
Definition RemoveDevice deviceRowID : M W unit :=
  n ← wrap "delete device" (pg_query (delete_device deviceRowID)); rows_affected ErrDeviceNotFound n.
Definition UpdateIdentityKey deviceRowID (identityKey : string) : M W (Key.Device U) :=
  map_err (on_err ErrNoRows ErrDeviceNotFound "update identity key")
    (pg_query (update_identity deviceRowID identityKey)).
Definition UploadSignedPreKey (params : UploadSignedPreKeyParams U) : M W unit :=
  WithTx (chat U) (
    wrap "deactivate old spk" (tx_query (deactivate_spks (us_DeviceRowID params))) ;;
    map_err (unique_error ErrDuplicateKeyID "insert spk")
      (tx_query (insert_spk (us_DeviceRowID params) (us_KeyID params) (us_PublicKey params)
                   (us_Signature params)))).
(** COPY is one statement: all of its rows or none. *)
Definition UploadOneTimePreKeys deviceRowID (batch : list E2ee.UploadOPKParams) : M W unit :=
  map_err (unique_error ErrDuplicateKeyID "copy one-time pre-keys")
    (pg_query (for_each batch (insert_opk deviceRowID))).
Definition CountOneTimePreKeys deviceRowID : M W Z :=
  wrap "count one-time pre-keys" (pg_query (count_opks deviceRowID)).

(** The loop over the devices; one without an active signed pre-key is passed over. *)
Fixpoint bundle_devices (devs : list (Key.Device U)) : M W (list (DeviceKeyBundle U)) :=
  match devs with
  | [] => mret []
  | dev :: devs' =>
      let name := uuid_String (Key.ID dev) in
      spk ← wrap ("fetch spk for device " +:+ name) (tx_query (select_spk (Key.ID dev)));
      match spk with
      | None => bundle_devices devs'
      | Some spk =>
          opk ← wrap ("consume opk for device " +:+ name) (tx_query (take_opk (Key.ID dev)));
          rest ← bundle_devices devs';
          mret (mkDeviceKeyBundle dev spk opk :: rest)
      end
  end.
Definition FetchUserKeyBundle targetUserID : M W (UserKeyBundle U) :=
  WithTx (chat U) (
    devs ← wrap "list devices" (tx_query (select_devices targetUserID));
    match devs with
    | [] => fail ErrNoDevices
    | _ => bundles ← bundle_devices devs; mret (mkUserKeyBundle targetUserID bundles)
    end).

Definition StoreMessageKeys messageID (ks : gmap U string) : M W unit :=
  if bool_decide (ks = ∅) then mret tt
  else wrap "copy message keys"
         (pg_query (for_each (map_to_list ks) (λ p, insert_message_key messageID p.1 p.2))).
Definition GetMessageKeyForDevice messageID deviceRowID : M W (option string) :=
  r ← try (pg_query (select_message_key messageID deviceRowID));
  match r with
  | Ok key => mret (Some key)
  | Err err => if errors_Is err ErrNoRows then mret None else fail (Wrap "get message key" err)
  end.
Definition GetMessageKeysBatch (messageIDs : list U) deviceRowID : M W (gmap U string) :=
  match messageIDs with
  | [] => mret ∅
  | _ => wrap "batch get message keys" (pg_query (select_message_keys messageIDs deviceRowID))
  end.
End repository.
End E2eeRepo.
