(* ===== verification/ChatModel.v ===== *)
(** * The protocol form of conversations, and the collaborators of their handlers

    The response types, the conversions of internal/api (dmChannelToModel, dmMessageToModel,
    buildMessageModel, toThreadModel, toAttachmentModel, deviceToModel, bundleToModel,
    groupReactions), the events they enqueue, and the error codes.  A storage provider is an
    interface; the search index and the gateway's queue take a message and answer nothing the
    handlers look at. *)
From S2P Require Import Prelude GoStd Platform Permission Validate Base64 Postgres Domain Http.
From S2P Require Import MemberApi GuildTables ChatTables DmTables ChatRepo.
Open Scope Z_scope.

(** ** Response types *)
Module ChatModels.
Record Attachment := mkAttachment {
  att_ID : string; att_Filename : string; att_URL : string; att_ThumbnailURL : option string;
  att_Size : Z; att_ContentType : string; att_Width : option Z; att_Height : option Z }.
Record ReactionSummary := mkReactionSummary {
  rs_EmojiID : option string; rs_EmojiUnicode : option string; rs_Count : Z; rs_Me : bool }.
Record ReactionUser := mkReactionUser { ru_UserID : string; ru_Username : string }.
Record EncryptedMessageKey := mkEncryptedMessageKey { mk_DeviceID : string; mk_EncryptedKey : string }.
Record Message := mkMessage {
  m_ID : string; m_ChannelID : string; m_Author : Models.MemberUser; m_Content : string;
  m_Attachments : list Attachment; m_Reactions : list ReactionSummary; m_ReplyToID : option string;
  m_ThreadID : option string; m_Pinned : bool; m_Encrypted : bool; m_EditedAt : option string;
  m_CreatedAt : string; m_MessageKeys : list EncryptedMessageKey }.
(** The zero value of the struct. *)
Definition zero_message : Message :=
  mkMessage "" "" (Models.mkMemberUser "" "" None None) "" [] [] None None false false None "" [].
Record Thread := mkThread {
  t_ID : string; t_ChannelID : string; t_ParentMessageID : string; t_Name : string;
  t_Archived : bool; t_Locked : bool; t_CreatedAt : string; t_UpdatedAt : string }.
Record DmChannel := mkDmChannel {
  dc_ID : string; dc_Type : string; dc_Name : option string; dc_OwnerID : option string;
  dc_CreatedAt : string; dc_UpdatedAt : string }.
Record Device := mkDevice {
  dev_ID : string; dev_DeviceID : string; dev_Label : string; dev_IdentityKey : string;
  dev_CreatedAt : string }.
Record DeviceKeyBundle := mkDeviceKeyBundle {
  kb_DeviceID : string; kb_IdentityKey : string; kb_SignedPreKeyID : Z; kb_SignedPreKey : string;
  kb_Signature : string; kb_OneTimeKeyID : option Z; kb_OneTimeKey : option string }.
Record UserKeyBundle := mkUserKeyBundle { ukb_UserID : string; ukb_Devices : list DeviceKeyBundle }.
End ChatModels.
Import ChatModels.

(** What the events carry. *)
Module ChatEvents.
Inductive payload (U : Type) :=
| PMessage (m : ChatModels.Message) | PMessageDelete (id channelID : string)
| PThread (t : ChatModels.Thread)
| PReaction (messageID channelID userID : string) (emojiID emojiUnicode : option string)
| PTypingStart (channelID userID timestamp : string) | PTypingStop (channelID userID : string)
| PMessageAck (channelID messageID : string)
| PDmChannel (c : ChatModels.DmChannel)
| PIdentityKeyChanged (userID deviceID identityKey : string)
| PKeyBundleLow (deviceID : string) (remaining : Z).
Arguments PMessage {U}. Arguments PMessageDelete {U}. Arguments PThread {U}.
Arguments PReaction {U}. Arguments PTypingStart {U}. Arguments PTypingStop {U}.
Arguments PMessageAck {U}. Arguments PDmChannel {U}. Arguments PIdentityKeyChanged {U}.
Arguments PKeyBundleLow {U}.
End ChatEvents.

(** The protocol's event names. *)
Class ChatEventNames : Type := {
  MessageCreate : string; MessageUpdate : string; MessageDelete : string; ThreadCreate : string;
  ThreadUpdate : string; ReactionAdd : string; ReactionRemove : string; TypingStart : string;
  TypingStop : string; MessageAck : string; DMChannelCreate : string; DMMessageCreate : string;
  IdentityKeyChanged : string; KeyBundleLow : string }.
(** The error codes. *)
Class ChatErrors : Type := {
  InvalidMessageID : string; InvalidThreadID : string; UnknownMessage : string;
  UnknownThread : string; ThreadExists : string; ThreadArchived : string; ThreadLocked : string;
  UnknownAttachment : string; UnsupportedContentType : string; PayloadTooLarge : string;
  AlreadyPinned : string; NotPinned : string; UnknownEmoji : string; AlreadyReacted : string;
  ReactionNotFound : string; NotParticipant : string; NotDMOwner : string; UnknownDMChannel : string;
  AlreadyParticipant : string; GroupDMFull : string; InvalidKeyMaterial : string;
  OPKBatchTooLarge : string; DuplicateKeyID : string; MaxDevicesReached : string;
  KeyBundleIncomplete : string; UnknownDevice : string }.
(** The permission bits the handlers name. *)
Class ChatPermissions : Type := {
  SendMessages : Z; AddReactions : Z; ManageMessages : Z; CreateThreads : Z; ManageChannels : Z; ReadMessageHistory : Z;
  SendMessagesThreads : Z }.

(** Publisher.Enqueue and EnqueueTargeted (Publisher.v) as the handlers see them. *)
Class ChatGateway (U W : Type) : Type := {
  chat_Enqueue : string → ChatEvents.payload U → W → W;
  chat_EnqueueTargeted : string → ChatEvents.payload U → list U → W → W }.
(** typesense.Indexer: best effort. *)
Class SearchIndex (W : Type) : Type := {
  IndexMessage : string → string → string → string → Z → W → W;
  IndexUpdate : string → string → W → W;
  IndexDelete : string → W → W }.
(** media.StorageProvider *)
Class StorageProvider : Type := { storage_URL : string → string }.

(** ** Conversions *)
Section conversions.
Context {U : Type} `{UUIDLib U} `{TimeFormat} `{StorageProvider}.

Definition toAttachmentModel (a : Attachment.Attachment U) : ChatModels.Attachment :=
  ChatModels.mkAttachment (uuid_String (Attachment.ID a)) (Attachment.Filename a)
    (storage_URL (Attachment.StorageKey a)) (storage_URL <$> Attachment.ThumbnailKey a)
    (Attachment.SizeBytes a) (Attachment.ContentType a) (Attachment.Width a) (Attachment.Height a).
Definition author_model (m : Message.Message U) : Models.MemberUser :=
  Models.mkMemberUser (uuid_String (Message.AuthorID m)) (Message.AuthorUsername m)
    (Message.AuthorDisplayName m) (Message.AuthorAvatarKey m).

(** messageEnrichment *)
Record messageEnrichment := mkEnrichment {
  e_Attachments : list (Attachment.Attachment U); e_Summaries : list (Reaction.Summary U);
  e_MyReactions : gset string }.
Definition reaction_model (mine : gset string) (s : Reaction.Summary U) : ReactionSummary :=
  let reactionKey := match Reaction.s_EmojiID s with
                     | Some e => "custom:" +:+ uuid_String e
                     | None => coalesce (Reaction.s_EmojiUnicode s) ""%string
                     end in
  mkReactionSummary (uuid_String <$> Reaction.s_EmojiID s) (Reaction.s_EmojiUnicode s)
    (Reaction.s_Count s) (bool_decide (reactionKey ∈ mine)).
Definition buildMessageModel (m : Message.Message U) (e : messageEnrichment) : ChatModels.Message :=
  ChatModels.mkMessage (uuid_String (Message.ID m)) (uuid_String (Message.ChannelID m)) (author_model m)
    (Message.Content m) (toAttachmentModel <$> e_Attachments e)
    (reaction_model (e_MyReactions e) <$> e_Summaries e) (uuid_String <$> Message.ReplyToID m)
    (uuid_String <$> Message.ThreadID m) (Message.Pinned m) (Message.Encrypted m)
    (time_Format <$> Message.EditedAt m) (time_Format (Message.CreatedAt m)) [].

(** The requesting device's key, when there is one. *)
Definition dmMessageToModel (m : Message.Message U) (keyMap : gmap U string) : ChatModels.Message :=
  ChatModels.mkMessage (uuid_String (Message.ID m)) (uuid_String (Message.ChannelID m)) (author_model m)
    (Message.Content m) [] [] (uuid_String <$> Message.ReplyToID m) None (Message.Pinned m)
    (Message.Encrypted m) (time_Format <$> Message.EditedAt m) (time_Format (Message.CreatedAt m))
    (match keyMap !! Message.ID m with
     | Some key => [mkEncryptedMessageKey "" (base64_RawEncodeToString key)]
     | None => []
     end).
Definition dmChannelToModel (ch : Dm.Channel U) : DmChannel :=
  mkDmChannel (uuid_String (Dm.ID ch)) (Dm.Type_ ch) (Dm.Name ch) (uuid_String <$> Dm.OwnerID ch)
    (time_Format (Dm.CreatedAt ch)) (time_Format (Dm.UpdatedAt ch)).
Definition participantUserIDs (l : list (Dm.Participant U)) : list U := Dm.UserID <$> l.

Definition toThreadModel (t : Thread.Thread U) : ChatModels.Thread :=
  ChatModels.mkThread (uuid_String (Thread.ID t)) (uuid_String (Thread.ChannelID t))
    (uuid_String (Thread.ParentMessageID t)) (Thread.Name t) (Thread.Archived t) (Thread.Locked t)
    (time_Format (Thread.CreatedAt t)) (time_Format (Thread.UpdatedAt t)).

Definition deviceToModel (x : Key.Device U) : ChatModels.Device :=
  ChatModels.mkDevice (uuid_String (Key.ID x)) (uuid_String (Key.DeviceID x))
    (coalesce (Key.Label x) ""%string) (base64_RawEncodeToString (Key.IdentityKey x))
    (time_Format (Key.CreatedAt x)).
Definition device_bundle_model (b : E2eeRepo.DeviceKeyBundle U) : ChatModels.DeviceKeyBundle :=
  ChatModels.mkDeviceKeyBundle (uuid_String (Key.DeviceID (E2eeRepo.b_Device b)))
    (base64_RawEncodeToString (Key.IdentityKey (E2eeRepo.b_Device b)))
    (Key.spk_KeyID (E2eeRepo.b_SignedPreKey b))
    (base64_RawEncodeToString (Key.spk_PublicKey (E2eeRepo.b_SignedPreKey b)))
    (base64_RawEncodeToString (Key.spk_Signature (E2eeRepo.b_SignedPreKey b)))
    (Key.opk_KeyID <$> E2eeRepo.b_OneTimePreKey b)
    ((λ k, base64_RawEncodeToString (Key.opk_PublicKey k)) <$> E2eeRepo.b_OneTimePreKey b).
Definition bundleToModel (b : E2eeRepo.UserKeyBundle U) : ChatModels.UserKeyBundle :=
  ChatModels.mkUserKeyBundle (uuid_String (E2eeRepo.ub_UserID b))
    (device_bundle_model <$> E2eeRepo.ub_Devices b).

(** groupReactions: the summaries by key, and the keys in the order they were first seen. *)
Definition reaction_key (r : Reaction.Reaction U) : string * string :=
  (match Reaction.EmojiID r with Some e => uuid_String e | None => ""%string end,
   coalesce (Reaction.EmojiUnicode r) ""%string).
Definition new_summary (r : Reaction.Reaction U) : ReactionSummary :=
  mkReactionSummary (uuid_String <$> Reaction.EmojiID r) (Reaction.EmojiUnicode r) 0 false.
Definition group_step (currentUser : U)
    (acc : list (string * string) * gmap (string * string) ReactionSummary)
    (r : Reaction.Reaction U) : list (string * string) * gmap (string * string) ReactionSummary :=
  let '(order, counts) := acc in
  let k := reaction_key r in
  let '(order, summary) := match counts !! k with
                           | Some s => (order, s)
                           | None => (order ++ [k], new_summary r)
                           end in
  (order, <[k := mkReactionSummary (rs_EmojiID summary) (rs_EmojiUnicode summary)
                   (rs_Count summary + 1)
                   (rs_Me summary || bool_decide (Reaction.UserID r = currentUser))]> counts).
Definition groupReactions (l : list (Reaction.Reaction U)) (currentUser : U) : list ReactionSummary :=
  let '(order, counts) := foldl (group_step currentUser) ([], ∅) l in
  omap (λ k, counts !! k) order.

(** parseEmojiParam *)
Definition custom_prefix : string := "custom:".
Definition parseEmojiParam (param : string) : res (emoji_key U) :=
  if bool_decide (param = ""%string) then Err (Plain "emoji parameter is required")
  else if bool_decide (take 7 (bytes_of param) = bytes_of custom_prefix) then
    match uuid_Parse (string_of (drop 7 (bytes_of param))) with
    | Ok id => Ok (Some id, None)
    | Err _ => Err (Plain "invalid custom emoji ID format")
    end
  else Ok (None, Some param).
End conversions.
Arguments messageEnrichment U : clear implicits.
