(* ===== verification/MessageApi.v ===== *)
(** * Message, pin, thread, reaction, read-state and typing endpoints: internal/api

    Every handler of message.go, pin.go, thread.go, reaction.go, readstate.go and typing.go,
    over the repositories of ChatRepo.v, the permission resolver, the presence store, the
    gateway's queue, the search index and the audit log.  Log lines are left out; what runs in
    a goroutine of its own is one step of the world.  A nil collaborator is a flag of the
    handler. *)
From S2P Require Import Prelude GoStd Platform Permission Presence Validate Base64 Postgres Domain Http.
From S2P Require Import MemberApi GuildTables ChatTables DmTables ChatRepo ChatModel.
Open Scope Z_scope.

(** Bodies of the requests. *)
Record CreateMessageRequest := mkCreateMessage {
  cm_Content : string; cm_ReplyToID : option string; cm_AttachmentIDs : list string }.
Record UpdateMessageRequest := mkUpdateMessage { um_Content : string }.
Record CreateThreadRequest := mkCreateThread { ct_Name : string }.
Record UpdateThreadRequest := mkUpdateThread {
  ut_Name : option string; ut_Archived : option bool; ut_Locked : option bool }.
Record AckRequest := mkAck { ack_MessageID : string }.

(** The collaborators that may be nil, and the limits. *)
Record chat_handler := mkChatHandler {
  ch_gateway : bool; ch_presence : bool; ch_indexer : bool; ch_audit : bool; maxContent : Z;
  maxAttachments : Z }.

(** ** Parsing shared by the handlers *)
Section parsing.
Context {U W : Type} `{UUIDLib U} `{ApiErrors}.

(** The optional [before] cursor. *)
Definition ParseBefore {A} (c : request U) (k : option U → M W (response A)) : M W (response A) :=
  if bool_decide (Query c "before" = ""%string) then k None
  else match uuid_Parse (Query c "before") with
       | Ok id => k (Some id)
       | Err _ => Fail_ StatusBadRequest ValidationError "Invalid before parameter"
       end.
Fixpoint parse_all (raw : list string) : option (list U) :=
  match raw with
  | [] => Some []
  | s :: raw' => match uuid_Parse s with Ok id => cons id <$> parse_all raw' | Err _ => None end
  end.
Definition parse_reply {A} (raw : option string) (k : option U → M W (response A)) : M W (response A) :=
  match raw with
  | None => k None
  | Some s => match uuid_Parse s with
              | Ok id => k (Some id)
              | Err _ => Fail_ StatusBadRequest ValidationError "Invalid reply_to_id format"
              end
  end.
End parsing.

(** errors.go *)
Definition mapMessageError {W A} `{ApiErrors} `{ChatErrors} (err : error) : M W (response A) :=
  if errors_Is err MessageRepo.ErrNotFound then Fail_ StatusNotFound UnknownMessage "Message not found"
  else if errors_Is err Validate.Message.ErrContentTooLong then
    Fail_ StatusBadRequest ValidationError (Error err)
  else if errors_Is err Validate.Message.ErrEmptyContent then
    Fail_ StatusBadRequest ValidationError (Error err)
  else if errors_Is err MessageRepo.ErrReplyNotFound then
    Fail_ StatusBadRequest UnknownMessage (Error err)
  else if errors_Is err MessageRepo.ErrNotAuthor then
    Fail_ StatusForbidden MissingPermissions "You can only edit your own messages"
  else internal_error.
(** attachment.go *)
Definition ErrUnsupportedContentType : error := Sentinel "media.ErrUnsupportedContentType".
Definition ErrFileTooLarge : error := Sentinel "media.ErrFileTooLarge".
Definition mapAttachmentError {W A} `{ApiErrors} `{ChatErrors} (err : error) : M W (response A) :=
  if errors_Is err AttachmentRepo.ErrNotFound then
    Fail_ StatusBadRequest UnknownAttachment "One or more attachment IDs are invalid or unavailable"
  else if errors_Is err ErrUnsupportedContentType then
    Fail_ StatusBadRequest UnsupportedContentType "This file type is not allowed"
  else if errors_Is err ErrFileTooLarge then
    Fail_ StatusBadRequest PayloadTooLarge "File exceeds the maximum upload size"
  else internal_error.

Section handlers.
Context {U W : Type} `{UUIDLib U} `{!RandomUUID U} `{!UUIDOrder U} `{Postgres (chat U) W} `{Clock W}.
Context `{PermissionLib} `{!ChatPermissions} `{Store U W} `{!Cache U W} `{Valkey W}.
Context `{!ChatGateway U W} `{!SearchIndex W} `{GatewayQueue W} `{AuditLog U W} `{!ChatEventNames}.
Context `{ApiErrors} `{!ChatErrors} `{TimeFormat} `{!StorageProvider}.
Context (h : chat_handler).
Implicit Types (c : request U) (userID channelID messageID : U).

Definition enqueue (ev : string) (p : ChatEvents.payload U) : M W unit :=
  when (ch_gateway h) (modify (chat_Enqueue ev p)).
Definition enqueue_targeted (ev : string) (p : ChatEvents.payload U) (targets : list U) : M W unit :=
  when (ch_gateway h) (modify (chat_EnqueueTargeted ev p targets)).
Definition index (f : W → W) : M W unit := when (ch_indexer h) (modify f).
Definition audit (e : Audit.Entry U) : M W unit := when (ch_audit h) (modify (audit_Record e)).
Definition message_entry (actor : U) (action : string) (target : U) : Audit.Entry U :=
  Audit.mkEntry (Some actor) action (Some "message"%string) (Some target) None None.

(** The attachments and reactions of a list of messages. *)
Definition lookup_list {A} (m : gmap U (list A)) (id : U) : list A := default [] (m !! id).
Definition lookup_set (m : gmap U (gset string)) (id : U) : gset string := default ∅ (m !! id).
Definition with_enrichment {A} (ids : list U) userID
    (k : (U → messageEnrichment U) → M W (response A)) : M W (response A) :=
  catch (AttachmentRepo.ListByMessages ids) (λ _, internal_error) (λ attachmentMap,
  catch (ReactionRepo.SummariesByMessages ids) (λ _, internal_error) (λ reactionMap,
  catch (ReactionRepo.UserReactionsByMessages ids userID) (λ _, internal_error) (λ userReactions,
  k (λ id, mkEnrichment (lookup_list attachmentMap id) (lookup_list reactionMap id)
             (lookup_set userReactions id))))).
Definition list_models (messages : list (Message.Message U)) (e : U → messageEnrichment U) :
    list ChatModels.Message :=
  (λ m, buildMessageModel m (e (Message.ID m))) <$> messages.

(** ** message.go *)
Definition ListMessages c : M W (response (list ChatModels.Message)) :=
  ParseUUIDParam c "channelID" InvalidChannelID (λ channelID,
  ParseBefore c (λ before,
  ParseIntQuery c "limit" (λ rawLimit,
  let limit := Validate.Message.ClampLimit rawLimit in
  catch (MessageRepo.List channelID before limit) (λ _, internal_error) (λ messages,
  userID ← UserID c;
  with_enrichment (Message.ID <$> messages) userID (λ e, Success (list_models messages e)))))).

(** Goroutine: the typing indicator goes, and a stop is dispatched if there was one. *)
Definition clear_typing channelID userID : M W unit :=
  when (ch_presence h && ch_gateway h) (best_effort (
    existed ← ClearTyping channelID userID;
    if existed : bool
    then enqueue TypingStop (ChatEvents.PTypingStop (uuid_String channelID) (uuid_String userID))
    else mret tt)).
(** What CreateMessage and CreateThreadMessage check of the body. *)
Definition with_body {A} (body : CreateMessageRequest)
    (k : string → list U → option U → M W (response A)) : M W (response A) :=
  if maxAttachments h <? Z.of_nat (length (cm_AttachmentIDs body)) then
    Fail_ StatusBadRequest ValidationError
      ("Too many attachments (maximum " +:+ FormatInt (maxAttachments h) +:+ ")")
  else match parse_all (cm_AttachmentIDs body) with
  | None => Fail_ StatusBadRequest ValidationError "Invalid attachment_ids format"
  | Some attachmentIDs =>
      let content := Validate.Message.ValidateContent (cm_Content body) (maxContent h) in
      let content := match content with
                     | Err err => if errors_Is err Validate.Message.ErrEmptyContent &&
                                     negb (bool_decide (cm_AttachmentIDs body = []))
                                  then Ok ""%string else Err err
                     | ok => ok
                     end in
      catch (of_res content) mapMessageError (λ content,
      parse_reply (cm_ReplyToID body) (λ replyToID, k content attachmentIDs replyToID))
  end.
Definition link_all (ids : list U) messageID userID : M W (list (Attachment.Attachment U)) :=
  match ids with [] => mret [] | _ => AttachmentRepo.LinkToMessage ids messageID userID end.
Definition CreateMessage c (decoded : res CreateMessageRequest) : M W (response ChatModels.Message) :=
  ParseUUIDParam c "channelID" InvalidChannelID (λ channelID,
  userID ← UserID c;
  Bind decoded (λ body,
  with_body body (λ content attachmentIDs replyToID,
  catch (MessageRepo.Create (Message.mkCreateParams channelID userID content replyToID None false))
    mapMessageError (λ msg,
  catch (link_all attachmentIDs (Message.ID msg) userID) mapAttachmentError (λ linked,
  let result := buildMessageModel msg (mkEnrichment linked [] ∅) in
  index (IndexMessage (uuid_String (Message.ID msg)) (Message.Content msg)
           (uuid_String (Message.AuthorID msg)) (uuid_String (Message.ChannelID msg))
           (Message.CreatedAt msg / Second)) ;;
  enqueue MessageCreate (ChatEvents.PMessage result) ;;
  clear_typing channelID userID ;;
  SuccessStatus StatusCreated result))))).

Definition EditMessage c (decoded : res UpdateMessageRequest) : M W (response ChatModels.Message) :=
  ParseUUIDParam c "messageID" InvalidMessageID (λ messageID,
  userID ← UserID c;
  Bind decoded (λ body,
  catch (of_res (Validate.Message.ValidateContent (um_Content body) (maxContent h))) mapMessageError
    (λ content,
  catch (MessageRepo.GetByID messageID) mapMessageError (λ existing,
  if negb (bool_decide (Message.AuthorID existing = userID))
  then Fail_ StatusForbidden MissingPermissions "You can only edit your own messages"
  else
    catch (MessageRepo.Update messageID content) mapMessageError (λ msg,
    catch (AttachmentRepo.ListByMessage (Message.ID msg)) (λ _, internal_error) (λ attachments,
    catch (ReactionRepo.SummariesByMessages [Message.ID msg]) (λ _, internal_error) (λ reactionMap,
    catch (ReactionRepo.UserReactionsByMessages [Message.ID msg] userID) (λ _, internal_error)
      (λ userReactions,
    let result := buildMessageModel msg
                    (mkEnrichment attachments (lookup_list reactionMap (Message.ID msg))
                       (lookup_set userReactions (Message.ID msg))) in
    index (IndexUpdate (uuid_String (Message.ID msg)) (Message.Content msg)) ;;
    enqueue MessageUpdate (ChatEvents.PMessage result) ;;
    Success result)))))))).

(** The permission in a channel; [message] is what the client is told without it. *)
Definition require_in {A} userID channelID (perm : Z) (message : string) (k : M W (response A)) :
    M W (response A) :=
  catch (HasPermission userID channelID perm) (λ _, internal_error) (λ allowed,
  if negb allowed then Fail_ StatusForbidden MissingPermissions message else k).
Definition DeleteMessage c : M W (response unit) :=
  ParseUUIDParam c "messageID" InvalidMessageID (λ messageID,
  userID ← UserID c;
  catch (MessageRepo.GetByID messageID) mapMessageError (λ existing,
  let own := bool_decide (Message.AuthorID existing = userID) in
  let delete_ : M W (response unit) :=
    catch (MessageRepo.SoftDelete messageID userID) mapMessageError (λ _,
    (if own then mret tt else audit (message_entry userID Audit.MessageDelete messageID)) ;;
    index (IndexDelete (uuid_String messageID)) ;;
    enqueue MessageDelete
      (ChatEvents.PMessageDelete (uuid_String messageID) (uuid_String (Message.ChannelID existing))) ;;
    SendStatus StatusNoContent) in
  if own then delete_
  else require_in userID (Message.ChannelID existing) ManageMessages
         "You do not have permission to delete this message" delete_)).

(** ** pin.go *)
Definition mapPinError {A} (err : error) : M W (response A) :=
  if errors_Is err MessageRepo.ErrNotFound then Fail_ StatusNotFound UnknownMessage "Message not found"
  else if errors_Is err MessageRepo.ErrAlreadyPinned then
    Fail_ StatusConflict AlreadyPinned "Message is already pinned"
  else if errors_Is err MessageRepo.ErrNotPinned then
    Fail_ StatusConflict NotPinned "Message is not pinned"
  else internal_error.
(** fullMessageModel: when a lookup fails it writes the error response and returns
    [httputil.Fail]'s own error, which is nil, and the zero message.  The result is the message
    and the status of the response so far. *)
Definition or_zero {A} (m : M W A) (k : A → M W (ChatModels.Message * Z)) :
    M W (ChatModels.Message * Z) :=
  r ← try m;
  match r with
  | Ok a => k a
  | Err _ => mret (ChatModels.zero_message, StatusInternalServerError)
  end.
Definition fullMessageModel (msg : Message.Message U) userID : M W (ChatModels.Message * Z) :=
  or_zero (AttachmentRepo.ListByMessage (Message.ID msg)) (λ attachments,
  or_zero (ReactionRepo.SummariesByMessages [Message.ID msg]) (λ reactionMap,
  or_zero (ReactionRepo.UserReactionsByMessages [Message.ID msg] userID) (λ userReactions,
  mret (buildMessageModel msg
          (mkEnrichment attachments (lookup_list reactionMap (Message.ID msg))
             (lookup_set userReactions (Message.ID msg))), StatusOK)))).
(** The part PinMessage and UnpinMessage have in common.  [httputil.Success] sets the body and
    leaves the status as it is. *)
Definition set_pin c (update : U → M W (Message.Message U)) (action message : string) :
    M W (response ChatModels.Message) :=
  ParseUUIDParam c "messageID" InvalidMessageID (λ messageID,
  userID ← UserID c;
  catch (MessageRepo.GetByID messageID) mapPinError (λ existing,
  require_in userID (Message.ChannelID existing) ManageMessages message (
  catch (update messageID) mapPinError (λ msg,
  audit (message_entry userID action messageID) ;;
  '(result, st) ← fullMessageModel msg userID;
  enqueue MessageUpdate (ChatEvents.PMessage result) ;;
  SuccessStatus st result)))).
Definition PinMessage c : M W (response ChatModels.Message) :=
  set_pin c MessageRepo.Pin Audit.MessagePin "You do not have permission to pin messages in this channel".
Definition UnpinMessage c : M W (response ChatModels.Message) :=
  set_pin c MessageRepo.Unpin Audit.MessageUnpin
    "You do not have permission to unpin messages in this channel".
Definition ListPins c : M W (response (list ChatModels.Message)) :=
  ParseUUIDParam c "channelID" InvalidChannelID (λ channelID,
  userID ← UserID c;
  catch (MessageRepo.ListPinned channelID) (λ _, internal_error) (λ messages,
  with_enrichment (Message.ID <$> messages) userID (λ e, Success (list_models messages e)))).

(** ** thread.go *)
Definition mapThreadError {A} (err : error) : M W (response A) :=
  if errors_Is err ThreadRepo.ErrNotFound then Fail_ StatusNotFound UnknownThread "Thread not found"
  else if errors_Is err ThreadRepo.ErrAlreadyExists then
    Fail_ StatusConflict ThreadExists "A thread already exists for this message"
  else if errors_Is err ThreadRepo.ErrArchived then
    Fail_ StatusForbidden ThreadArchived "This thread is archived"
  else if errors_Is err ThreadRepo.ErrLocked then
    Fail_ StatusForbidden ThreadLocked "This thread is locked"
  else if errors_Is err Validate.Thread.ErrNameLength then
    Fail_ StatusBadRequest ValidationError (Error err)
  else if errors_Is err ThreadRepo.ErrMessageNotFound then
    Fail_ StatusNotFound UnknownMessage "Parent message not found"
  else internal_error.
Definition CreateThread c (decoded : res CreateThreadRequest) : M W (response ChatModels.Thread) :=
  ParseUUIDParam c "messageID" InvalidMessageID (λ messageID,
  userID ← UserID c;
  Bind decoded (λ body,
  catch (of_res (Validate.Thread.ValidateNameRequired (ct_Name body))) mapThreadError (λ name,
  catch (MessageRepo.GetByID messageID)
    (λ err, if errors_Is err MessageRepo.ErrNotFound
            then Fail_ StatusNotFound UnknownMessage "Message not found" else internal_error)
    (λ parentMsg,
  require_in userID (Message.ChannelID parentMsg) CreateThreads
    "You do not have permission to create threads in this channel" (
  catch (ThreadRepo.Create (Thread.mkCreateParams (Message.ChannelID parentMsg) messageID name))
    mapThreadError (λ t,
  enqueue ThreadCreate (ChatEvents.PThread (toThreadModel t)) ;;
  SuccessStatus StatusCreated (toThreadModel t))))))).
Definition ListThreads c : M W (response (list ChatModels.Thread)) :=
  ParseUUIDParam c "channelID" InvalidChannelID (λ channelID,
  ParseBefore c (λ before,
  ParseIntQuery c "limit" (λ rawLimit,
  catch (ThreadRepo.ListByChannel channelID before (Validate.Thread.ClampLimit rawLimit))
    (λ _, internal_error) (λ threads, Success (toThreadModel <$> threads))))).
Definition GetThread c : M W (response ChatModels.Thread) :=
  ParseUUIDParam c "threadID" InvalidThreadID (λ threadID,
  userID ← UserID c;
  catch (ThreadRepo.GetByID threadID) mapThreadError (λ t,
  require_in userID (Thread.ChannelID t) ViewChannels "You do not have permission to view this channel"
    (Success (toThreadModel t)))).
Definition UpdateThread c (decoded : res UpdateThreadRequest) : M W (response ChatModels.Thread) :=
  ParseUUIDParam c "threadID" InvalidThreadID (λ threadID,
  userID ← UserID c;
  catch (ThreadRepo.GetByID threadID) mapThreadError (λ t,
  require_in userID (Thread.ChannelID t) ManageChannels
    "You do not have permission to manage threads in this channel" (
  Bind decoded (λ body,
  catch (of_res (Validate.Thread.ValidateName (ut_Name body))) mapThreadError (λ name,
  catch (ThreadRepo.Update threadID (Thread.mkUpdateParams name (ut_Archived body) (ut_Locked body)))
    mapThreadError (λ updated,
  enqueue ThreadUpdate (ChatEvents.PThread (toThreadModel updated)) ;;
  Success (toThreadModel updated))))))).
Definition ListThreadMessages c : M W (response (list ChatModels.Message)) :=
  ParseUUIDParam c "threadID" InvalidThreadID (λ threadID,
  userID ← UserID c;
  catch (ThreadRepo.GetByID threadID) mapThreadError (λ t,
  require_in userID (Thread.ChannelID t) (Z.lor ViewChannels ReadMessageHistory)
    "You do not have permission to read messages in this channel" (
  ParseBefore c (λ before,
  ParseIntQuery c "limit" (λ rawLimit,
  let limit := Validate.Message.ClampLimit rawLimit in
  catch (MessageRepo.ListByThread threadID before limit) (λ _, internal_error) (λ messages,
  with_enrichment (Message.ID <$> messages) userID (λ e, Success (list_models messages e)))))))).
Definition CreateThreadMessage c (decoded : res CreateMessageRequest) :
    M W (response ChatModels.Message) :=
  ParseUUIDParam c "threadID" InvalidThreadID (λ threadID,
  userID ← UserID c;
  catch (ThreadRepo.GetByID threadID) mapThreadError (λ t,
  if Thread.Archived t then Fail_ StatusForbidden ThreadArchived "This thread is archived"
  else if Thread.Locked t then Fail_ StatusForbidden ThreadLocked "This thread is locked"
  else
    require_in userID (Thread.ChannelID t) SendMessagesThreads
      "You do not have permission to send messages in threads" (
    Bind decoded (λ body,
    with_body body (λ content attachmentIDs replyToID,
    catch (MessageRepo.Create (Message.mkCreateParams (Thread.ChannelID t) userID content replyToID
                                 (Some threadID) false)) mapMessageError (λ msg,
    catch (link_all attachmentIDs (Message.ID msg) userID) mapAttachmentError (λ linked,
    let result := buildMessageModel msg (mkEnrichment linked [] ∅) in
    enqueue MessageCreate (ChatEvents.PMessage result) ;;
    clear_typing (Thread.ChannelID t) userID ;;
    SuccessStatus StatusCreated result))))))).

(** ** reaction.go *)
Definition mapReactionError {A} (err : error) : M W (response A) :=
  if errors_Is err ReactionRepo.ErrAlreadyReacted then
    Fail_ StatusConflict AlreadyReacted "You have already reacted with this emoji"
  else if errors_Is err ReactionRepo.ErrNotFound then
    Fail_ StatusNotFound ReactionNotFound "Reaction not found"
  else if errors_Is err MessageRepo.ErrNotFound then
    Fail_ StatusNotFound UnknownMessage "Message not found"
  else internal_error.
Definition with_emoji {A} c (k : emoji_key U → M W (response A)) : M W (response A) :=
  match parseEmojiParam (Params c "emoji") with
  | Ok e => k e
  | Err err => Fail_ StatusBadRequest ValidationError (Error err)
  end.
Definition reaction_event messageID channelID userID (e : emoji_key U) : ChatEvents.payload U :=
  ChatEvents.PReaction (uuid_String messageID) (uuid_String channelID) (uuid_String userID)
    (uuid_String <$> e.1) e.2.
Definition check_emoji {A} (e : option U) (k : M W (response A)) : M W (response A) :=
  match e with
  | None => k
  | Some id =>
      catch (EmojiRepo.GetByID id)
        (λ err, if errors_Is err EmojiRepo.ErrNotFound
                then Fail_ StatusNotFound UnknownEmoji "Custom emoji not found" else internal_error)
        (λ _, k)
  end.
Definition AddReaction c : M W (response unit) :=
  ParseUUIDParam c "channelID" InvalidChannelID (λ channelID,
  ParseUUIDParam c "messageID" InvalidMessageID (λ messageID,
  userID ← UserID c;
  with_emoji c (λ e,
  catch (MessageRepo.GetByID messageID) mapReactionError (λ msg,
  if negb (bool_decide (Message.ChannelID msg = channelID))
  then Fail_ StatusNotFound UnknownMessage "Message not found in this channel"
  else check_emoji e.1 (
    catch (ReactionRepo.Add messageID userID e) mapReactionError (λ _,
    enqueue ReactionAdd (reaction_event messageID channelID userID e) ;;
    SendStatus StatusNoContent)))))).
Definition RemoveReaction c : M W (response unit) :=
  ParseUUIDParam c "channelID" InvalidChannelID (λ channelID,
  ParseUUIDParam c "messageID" InvalidMessageID (λ messageID,
  userID ← UserID c;
  with_emoji c (λ e,
  catch (ReactionRepo.Remove messageID userID e) mapReactionError (λ _,
  enqueue ReactionRemove (reaction_event messageID channelID userID e) ;;
  SendStatus StatusNoContent)))).
Definition ListReactions c : M W (response (list ChatModels.ReactionSummary)) :=
  ParseUUIDParam c "channelID" InvalidChannelID (λ _,
  ParseUUIDParam c "messageID" InvalidMessageID (λ messageID,
  userID ← UserID c;
  catch (ReactionRepo.ListByMessage messageID) (λ _, internal_error) (λ reactions,
  Success (groupReactions reactions userID)))).
Definition ListReactionUsers c : M W (response (list ChatModels.ReactionUser)) :=
  ParseUUIDParam c "channelID" InvalidChannelID (λ _,
  ParseUUIDParam c "messageID" InvalidMessageID (λ messageID,
  with_emoji c (λ e,
  catch (ReactionRepo.ListByEmoji messageID e) (λ _, internal_error) (λ reactions,
  Success ((λ r, ChatModels.mkReactionUser (uuid_String (Reaction.UserID r)) (Reaction.Username r))
           <$> reactions))))).

(** ** readstate.go *)
Definition mapReadStateError {A} (err : error) : M W (response A) :=
  if errors_Is err ReadStateRepo.ErrMessageNotInChannel then
    Fail_ StatusBadRequest InvalidMessageID "Message does not exist in this channel"
  else internal_error.
Definition Ack c (decoded : res AckRequest) : M W (response Models.ReadState) :=
  userID ← UserID c;
  ParseUUIDParam c "channelID" InvalidChannelID (λ channelID,
  Bind decoded (λ body,
  match uuid_Parse (ack_MessageID body) with
  | Err _ => Fail_ StatusBadRequest InvalidMessageID "Invalid message ID format"
  | Ok messageID =>
      catch (ReadStateRepo.Ack userID channelID messageID) mapReadStateError (λ rs,
      enqueue_targeted MessageAck
        (ChatEvents.PMessageAck (uuid_String channelID) (uuid_String messageID)) [userID] ;;
      Success (ReadState.ToModel rs))
  end)).

(** ** typing.go *)
Definition StartTyping c : M W (response unit) :=
  userID ← UserID c;
  ParseUUIDParam c "channelID" InvalidChannelID (λ channelID,
  catch (SetTyping channelID userID) (λ _, internal_error) (λ created,
  (if created : bool
   then now ← gets time_Now;
        enqueue TypingStart (ChatEvents.PTypingStart (uuid_String channelID) (uuid_String userID)
                               (time_Format now))
   else mret tt) ;;
  SendStatus StatusNoContent)).
Definition StopTyping c : M W (response unit) :=
  userID ← UserID c;
  ParseUUIDParam c "channelID" InvalidChannelID (λ channelID,
  catch (ClearTyping channelID userID) (λ _, internal_error) (λ existed,
  (if existed : bool
   then enqueue TypingStop (ChatEvents.PTypingStop (uuid_String channelID) (uuid_String userID))
   else mret tt) ;;
  SendStatus StatusNoContent)).
End handlers.
