(* ===== verification/DmApi.v ===== *)
(** * Direct messages and device keys: internal/api/dm.go and e2ee.go

    Every handler of DMHandler and E2EEHandler, with the middleware RequireParticipant, over the
    repositories of ChatRepo.v and the gateway's queue. *)
From S2P Require Import Prelude GoStd Platform Permission Validate Base64 Postgres Domain Http.
From S2P Require Import MemberApi GuildTables ChatTables DmTables ChatRepo ChatModel MessageApi.
Open Scope Z_scope.

(** Bodies of the requests. *)
Record CreateDMRequest := mkCreateDM {
  cd_RecipientID : string; cd_Name : string; cd_Recipients : list string }.
Record AddParticipantRequest := mkAddParticipant { ap_UserID : string }.
Record CreateDMMessageRequest := mkCreateDMMessage {
  dm_Content : string; dm_ReplyToID : option string;
  dm_MessageKeys : list ChatModels.EncryptedMessageKey }.
Record RegisterDeviceRequest := mkRegisterDeviceRequest {
  rdr_DeviceID : string; rdr_Label : string; rdr_IdentityKey : string }.
Record UpdateIdentityKeyRequest := mkUpdateIdentityKey { uik_IdentityKey : string }.
Record UploadSignedPreKeyRequest := mkUploadSPK {
  spr_KeyID : Z; spr_PublicKey : string; spr_Signature : string }.
Record UploadedPreKey := mkUploadedPreKey { upk_KeyID : Z; upk_PublicKey : string }.
Record UploadOneTimePreKeysRequest := mkUploadOPKs { uor_PreKeys : list UploadedPreKey }.
Record KeyCountResponse := mkKeyCount { kc_Count : Z }.

(** Errors of e2ee.go put the sentinel first: [fmt.Errorf("%w: got %d bytes", ErrX, n)]. *)
Fixpoint e2ee_Error (e : error) : string :=
  match e with
  | Wrap ctx (Sentinel n) => MemberApi.Error (Sentinel n) +:+ ": " +:+ ctx
  | Wrap ctx cause => ctx +:+ ": " +:+ e2ee_Error cause
  | e => MemberApi.Error e
  end.

(** ** dm.go *)
Module DMHandler.
Section handlers.
Context {U W : Type} `{UUIDLib U} `{!RandomUUID U} `{!UUIDOrder U} `{LockedAggregates} `{Postgres (chat U) W}.
Context `{!ChatGateway U W} `{!ChatEventNames} `{ApiErrors} `{!ChatErrors} `{TimeFormat}.
Context (h : chat_handler).
Implicit Types (c : request U) (userID channelID : U).

Definition mapDMError {A} (err : error) : M W (response A) :=
  if errors_Is err DmRepo.ErrDMNotFound then Fail_ StatusNotFound UnknownDMChannel "DM channel not found"
  else if errors_Is err DmRepo.ErrAlreadyParticipant then
    Fail_ StatusConflict AlreadyParticipant "User is already a participant"
  else if errors_Is err DmRepo.ErrNotParticipant then
    Fail_ StatusNotFound NotParticipant "User is not a participant"
  else if errors_Is err DmRepo.ErrGroupDMFull then Fail_ StatusConflict GroupDMFull "Group DM is full"
  else if errors_Is err DmRepo.ErrNotOwner then
    Fail_ StatusForbidden NotDMOwner "Only the group DM owner can perform this action"
  else internal_error.

Definition RequireParticipant {A} (next : request U → M W (response A)) c : M W (response A) :=
  userID ← UserID c;
  ParseUUIDParam c "channelID" InvalidChannelID (λ channelID,
  catch (DmRepo.IsParticipant channelID userID) (λ _, internal_error) (λ ok,
  if negb ok then Fail_ StatusForbidden NotParticipant "You are not a participant of this DM channel"
  else next c)).

(** The participants an event goes to; none when they cannot be listed. *)
Definition targets channelID : M W (list U) :=
  r ← try (DmRepo.ListParticipants channelID);
  mret (match r with Ok l => participantUserIDs l | Err _ => [] end).
Definition CreateDMChannel c (decoded : res CreateDMRequest) : M W (response ChatModels.DmChannel) :=
  userID ← UserID c;
  Bind decoded (λ body,
  if negb (bool_decide (cd_Name body = ""%string)) || negb (bool_decide (cd_Recipients body = [])) then
    if bool_decide (cd_Name body = ""%string)
    then Fail_ StatusBadRequest ValidationError "Group DM requires a name"
    else match parse_all (cd_Recipients body) with
    | None => Fail_ StatusBadRequest ValidationError "Invalid recipient ID format"
    | Some participantIDs =>
        catch (DmRepo.CreateGroupDM userID (cd_Name body) participantIDs) mapDMError (λ ch,
        users ← targets (Dm.ID ch);
        enqueue_targeted h DMChannelCreate (ChatEvents.PDmChannel (dmChannelToModel ch)) users ;;
        SuccessStatus StatusCreated (dmChannelToModel ch))
    end
  else match uuid_Parse (cd_RecipientID body) with
  | Err _ => Fail_ StatusBadRequest ValidationError "Invalid recipient_id format"
  | Ok recipientID =>
      catch (DmRepo.CreateDM userID recipientID) mapDMError (λ ch,
      enqueue_targeted h DMChannelCreate (ChatEvents.PDmChannel (dmChannelToModel ch))
        [userID; recipientID] ;;
      SuccessStatus StatusCreated (dmChannelToModel ch))
  end).
Definition ListDMChannels c : M W (response (list ChatModels.DmChannel)) :=
  userID ← UserID c;
  catch (DmRepo.ListForUser userID) (λ _, internal_error) (λ channels,
  Success (dmChannelToModel <$> channels)).
Definition GetDMChannel c : M W (response ChatModels.DmChannel) :=
  ParseUUIDParam c "channelID" InvalidChannelID (λ channelID,
  catch (DmRepo.GetByID channelID) mapDMError (λ ch, Success (dmChannelToModel ch))).

Definition AddParticipant c (decoded : res AddParticipantRequest) : M W (response unit) :=
  userID ← UserID c;
  ParseUUIDParam c "channelID" InvalidChannelID (λ channelID,
  catch (DmRepo.GetByID channelID) mapDMError (λ ch,
  if negb (bool_decide (Dm.Type_ ch = TypeGroupDM))
  then Fail_ StatusBadRequest ValidationError "Cannot add participants to a 1:1 DM"
  else if negb (bool_decide (Dm.OwnerID ch = Some userID))
  then Fail_ StatusForbidden NotDMOwner "Only the group DM owner can add participants"
  else
    Bind decoded (λ body,
    match uuid_Parse (ap_UserID body) with
    | Err _ => Fail_ StatusBadRequest ValidationError "Invalid user_id format"
    | Ok targetID =>
        catch (DmRepo.AddParticipant channelID targetID) mapDMError (λ _, SendStatus StatusNoContent)
    end))).
Definition RemoveParticipant c : M W (response unit) :=
  userID ← UserID c;
  ParseUUIDParam c "channelID" InvalidChannelID (λ channelID,
  catch (DmRepo.GetByID channelID) mapDMError (λ ch,
  if negb (bool_decide (Dm.Type_ ch = TypeGroupDM))
  then Fail_ StatusBadRequest ValidationError "Cannot remove participants from a 1:1 DM"
  else
    ParseUUIDParam c "userID" ValidationError (λ targetID,
    if negb (bool_decide (targetID = userID)) && negb (bool_decide (Dm.OwnerID ch = Some userID))
    then Fail_ StatusForbidden NotDMOwner "Only the group DM owner can remove participants"
    else catch (DmRepo.RemoveParticipant channelID targetID) mapDMError
           (λ _, SendStatus StatusNoContent)))).

(** The row of the device named by the X-Device-ID header, when it is the caller's. *)
Definition resolveDeviceRowID c : M W (option U) :=
  let raw := Header c "X-Device-ID" in
  if bool_decide (raw = ""%string) then mret None
  else match uuid_Parse raw, Locals_userID c with
       | Ok deviceID, Some userID =>
           r ← try (E2eeRepo.GetDeviceByDeviceID userID deviceID);
           mret (match r with Ok dev => Some (Key.ID dev) | Err _ => None end)
       | _, _ => mret None
       end.
Definition device_keys (deviceRowID : option U) (ids : list U) : M W (gmap U string) :=
  match deviceRowID with
  | None => mret ∅
  | Some row => r ← try (E2eeRepo.GetMessageKeysBatch ids row);
                mret (match r with Ok m => m | Err _ => ∅ end)
  end.
Definition ListMessages c : M W (response (list ChatModels.Message)) :=
  ParseUUIDParam c "channelID" InvalidChannelID (λ channelID,
  ParseBefore c (λ before,
  ParseIntQuery c "limit" (λ rawLimit,
  let limit := Validate.Message.ClampLimit rawLimit in
  catch (MessageRepo.List channelID before limit) (λ _, internal_error) (λ messages,
  deviceRowID ← resolveDeviceRowID c;
  keyMap ← device_keys deviceRowID (Message.ID <$> messages);
  Success ((λ m, dmMessageToModel m keyMap) <$> messages))))).

(** The well-formed keys of the body; a later entry for the same device replaces the earlier. *)
Definition parse_keys (l : list ChatModels.EncryptedMessageKey) : gmap U string :=
  foldl (λ acc mk,
    match uuid_Parse (ChatModels.mk_DeviceID mk),
          base64_RawDecodeString (ChatModels.mk_EncryptedKey mk) with
    | Ok devID, Ok encKey => <[devID := encKey]> acc
    | _, _ => acc
    end) ∅ l.
Definition SendMessage c (decoded : res CreateDMMessageRequest) : M W (response ChatModels.Message) :=
  userID ← UserID c;
  ParseUUIDParam c "channelID" InvalidChannelID (λ channelID,
  Bind decoded (λ body,
  catch (of_res (Validate.Message.ValidateContent (dm_Content body) (maxContent h))) mapMessageError
    (λ content,
  parse_reply (dm_ReplyToID body) (λ replyToID,
  catch (MessageRepo.Create (Message.mkCreateParams channelID userID content replyToID None true))
    mapMessageError (λ msg,
  best_effort (E2eeRepo.StoreMessageKeys (Message.ID msg) (parse_keys (dm_MessageKeys body))) ;;
  when (ch_gateway h) (
    users ← targets channelID;
    enqueue_targeted h DMMessageCreate (ChatEvents.PMessage (dmMessageToModel msg ∅)) users) ;;
  SuccessStatus StatusCreated (dmMessageToModel msg ∅)))))).
End handlers.
End DMHandler.

(** ** e2ee.go *)
Module E2EEHandler.
Section handlers.
Context {U W : Type} `{UUIDLib U} `{!RandomUUID U} `{LockedAggregates} `{Postgres (chat U) W}.
Context `{!ChatGateway U W} `{!ChatEventNames} `{ApiErrors} `{!ChatErrors} `{TimeFormat}.
Context (h : chat_handler) (maxDevices opkThreshold : Z).
Implicit Types (c : request U) (userID deviceID : U).

Definition mapE2EEError {A} (err : error) : M W (response A) :=
  if errors_Is err E2ee.ErrInvalidKeyLength || errors_Is err E2ee.ErrInvalidSignature then
    Fail_ StatusBadRequest InvalidKeyMaterial (e2ee_Error err)
  else if errors_Is err E2ee.ErrBatchTooLarge then
    Fail_ StatusBadRequest OPKBatchTooLarge (e2ee_Error err)
  else if errors_Is err E2eeRepo.ErrDuplicateKeyID || errors_Is err E2eeRepo.ErrDuplicateDevice then
    Fail_ StatusConflict DuplicateKeyID (e2ee_Error err)
  else if errors_Is err E2eeRepo.ErrMaxDevicesReached then
    Fail_ StatusConflict MaxDevicesReached (e2ee_Error err)
  else if errors_Is err E2eeRepo.ErrKeyBundleIncomplete || errors_Is err E2eeRepo.ErrNoDevices then
    Fail_ StatusNotFound KeyBundleIncomplete "No complete key bundles available"
  else if errors_Is err E2eeRepo.ErrDeviceNotFound then
    Fail_ StatusNotFound UnknownDevice "Device not found"
  else internal_error.

(** The peers of the user hear of the new key; without peers, or without knowing them, nobody. *)
Definition notifyIdentityKeyChanged userID deviceID (identityKey : string) : M W unit :=
  when (ch_gateway h) (
    r ← try (DmRepo.ListDMPeers userID);
    match r with
    | Err _ | Ok [] => mret tt
    | Ok peers =>
        enqueue_targeted h IdentityKeyChanged
          (ChatEvents.PIdentityKeyChanged (uuid_String userID) (uuid_String deviceID)
             (base64_RawEncodeToString identityKey)) peers
    end).
(** A key sent in base64, of the length a public key has. *)
Definition decode {A} (s field : string) (check : string → res unit) (k : string → M W (response A)) :
    M W (response A) :=
  match base64_RawDecodeString s with
  | Err _ => Fail_ StatusBadRequest InvalidKeyMaterial ("Invalid base64 encoding for " +:+ field)
  | Ok key => catch (of_res (check key)) mapE2EEError (λ _, k key)
  end.
Definition own_device {A} userID deviceID (k : Key.Device U → M W (response A)) : M W (response A) :=
  catch (E2eeRepo.GetDeviceByDeviceID userID deviceID) mapE2EEError k.

Definition RegisterDevice c (decoded : res RegisterDeviceRequest) : M W (response ChatModels.Device) :=
  userID ← UserID c;
  Bind decoded (λ body,
  match uuid_Parse (rdr_DeviceID body) with
  | Err _ => Fail_ StatusBadRequest ValidationError "Invalid device_id format"
  | Ok deviceID =>
      decode (rdr_IdentityKey body) "identity_key" E2ee.ValidatePublicKey (λ identityKey,
      let label := if bool_decide (rdr_Label body = ""%string) then None else Some (rdr_Label body) in
      catch (E2eeRepo.RegisterDevice maxDevices
               (E2eeRepo.mkRegisterDevice userID deviceID label identityKey)) mapE2EEError (λ dev,
      notifyIdentityKeyChanged userID deviceID identityKey ;;
      SuccessStatus StatusCreated (deviceToModel dev)))
  end).
Definition ListDevices c : M W (response (list ChatModels.Device)) :=
  userID ← UserID c;
  catch (E2eeRepo.ListDevices userID) (λ _, internal_error) (λ devs, Success (deviceToModel <$> devs)).
Definition RemoveDevice c : M W (response unit) :=
  userID ← UserID c;
  ParseUUIDParam c "deviceID" ValidationError (λ deviceID,
  own_device userID deviceID (λ dev,
  catch (E2eeRepo.RemoveDevice (Key.ID dev)) mapE2EEError (λ _, SendStatus StatusNoContent))).
Definition UpdateIdentityKey c (decoded : res UpdateIdentityKeyRequest) : M W (response unit) :=
  userID ← UserID c;
  ParseUUIDParam c "deviceID" ValidationError (λ deviceID,
  Bind decoded (λ body,
  decode (uik_IdentityKey body) "identity_key" E2ee.ValidatePublicKey (λ identityKey,
  own_device userID deviceID (λ dev,
  catch (E2eeRepo.UpdateIdentityKey (Key.ID dev) identityKey) mapE2EEError (λ _,
  notifyIdentityKeyChanged userID deviceID identityKey ;;
  SendStatus StatusNoContent))))).
Definition UploadSignedPreKey c (decoded : res UploadSignedPreKeyRequest) : M W (response unit) :=
  userID ← UserID c;
  ParseUUIDParam c "deviceID" ValidationError (λ deviceID,
  Bind decoded (λ body,
  decode (spr_PublicKey body) "public_key" E2ee.ValidatePublicKey (λ publicKey,
  decode (spr_Signature body) "signature" E2ee.ValidateSignature (λ signature,
  own_device userID deviceID (λ dev,
  catch (E2eeRepo.UploadSignedPreKey
           (E2eeRepo.mkUploadSignedPreKey (Key.ID dev) (spr_KeyID body) publicKey signature))
    mapE2EEError (λ _, SendStatus StatusNoContent)))))).
Fixpoint decode_all (l : list UploadedPreKey) : option (list E2ee.UploadOPKParams) :=
  match l with
  | [] => Some []
  | pk :: l' =>
      match base64_RawDecodeString (upk_PublicKey pk) with
      | Err _ => None
      | Ok key => cons (E2ee.mkUploadOPKParams (upk_KeyID pk) key) <$> decode_all l'
      end
  end.
Definition UploadOneTimePreKeys c (decoded : res UploadOneTimePreKeysRequest) : M W (response unit) :=
  userID ← UserID c;
  ParseUUIDParam c "deviceID" ValidationError (λ deviceID,
  Bind decoded (λ body,
  match decode_all (uor_PreKeys body) with
  | None => Fail_ StatusBadRequest InvalidKeyMaterial "Invalid base64 encoding for pre_key public_key"
  | Some batch =>
      catch (of_res (E2ee.ValidateOPKBatch batch E2ee.MaxOPKBatch)) mapE2EEError (λ _,
      own_device userID deviceID (λ dev,
      catch (E2eeRepo.UploadOneTimePreKeys (Key.ID dev) batch) mapE2EEError (λ _,
      SendStatus StatusNoContent)))
  end)).
Definition GetKeyCount c : M W (response KeyCountResponse) :=
  userID ← UserID c;
  ParseUUIDParam c "deviceID" ValidationError (λ deviceID,
  own_device userID deviceID (λ dev,
  catch (E2eeRepo.CountOneTimePreKeys (Key.ID dev)) (λ _, internal_error) (λ count,
  Success (mkKeyCount count)))).

(** A device whose keys run low is told; a count that fails is passed over. *)
Definition notify_low (targetUserID : U) (b : E2eeRepo.DeviceKeyBundle U) : M W unit :=
  r ← try (E2eeRepo.CountOneTimePreKeys (Key.ID (E2eeRepo.b_Device b)));
  match r with
  | Err _ => mret tt
  | Ok count =>
      if count <=? opkThreshold then
        enqueue_targeted h KeyBundleLow
          (ChatEvents.PKeyBundleLow (uuid_String (Key.DeviceID (E2eeRepo.b_Device b))) count)
          [targetUserID]
      else mret tt
  end.
Definition FetchKeyBundle c : M W (response ChatModels.UserKeyBundle) :=
  ParseUUIDParam c "userID" ValidationError (λ targetUserID,
  catch (E2eeRepo.FetchUserKeyBundle targetUserID) mapE2EEError (λ bundle,
  when (ch_gateway h) (for_each (E2eeRepo.ub_Devices bundle) (notify_low targetUserID)) ;;
  Success (bundleToModel bundle))).
End handlers.
End E2EEHandler.
