(* ===== verification/ChatLogic.v ===== *)
(** * A logic for handlers over the tables, under an invariant of the world

    As ApiLogic.v, with an invariant [I] of the world that the calls keep: here that the
    permissions do not change under the handler and that the permission cache is coherent.
    [asks]: leaves the tables alone and answers as it should.  [does]: a write with its result,
    done or not done.  [runs]: whatever it answers, the tables changed so.  [serves]: a handler
    that changed the tables so, or left them alone and refused.  [declines]: one that refuses. *)
From S2P Require Import Prelude GoStd Platform Permission Postgres Http ApiLogic.
Open Scope Z_scope.

(** Calls of the database keep the invariant. *)
Class Stable (DB : Type) {W : Type} `{Postgres DB W} (I : W → Prop) : Prop := {
  stable_query : ∀ {A} (f : M DB A) w r w', I w → pg_query f w = (r, w') → I w';
  stable_tx_query : ∀ {A} (f : M DB A) w r w', I w → tx_query f w = (r, w') → I w';
  stable_Begin : ∀ w r w', I w → tx_Begin (DB := DB) w = (r, w') → I w';
  stable_Commit : ∀ w r w', I w → tx_Commit (DB := DB) w = (r, w') → I w';
  stable_Rollback : ∀ w r w', I w → tx_Rollback (DB := DB) w = (r, w') → I w' }.

(** Asking nothing of the world. *)
Lemma free_Stable {DB W} `{Postgres DB W} : Stable DB (λ _ : W, True).
Proof. by split. Qed.

Section logic.
Context {DB W : Type} `{PostgresLaws DB W} (I : W → Prop) `{!Stable DB I}.
Implicit Types (w : W) (d : DB).
Abbreviation view := (pg_view (DB := DB)).

(** ** Calls that keep the invariant *)
Definition calm {A} (m : M W A) : Prop := ∀ w r w', I w → m w = (r, w') → I w'.
Lemma calm_ret {A} (a : A) : calm (mret a).
Proof. by intros w r w' Hi [= <- <-]. Qed.
Lemma calm_fail {A} e : calm (fail (A := A) e).
Proof. by intros w r w' Hi [= <- <-]. Qed.
Lemma calm_bind {A B} (m : M W A) (k : A → M W B) : calm m → (∀ a, calm (k a)) → calm (m ≫= k).
Proof.
  intros Hm Hk w r w' Hi E. apply bind_inv in E as [(a & w1 & E1 & E)|(e & E1 & ->)]; [|by eapply Hm].
  eapply Hk; [|exact E]. by eapply Hm.
Qed.
Lemma calm_map_err {A} f (m : M W A) : calm m → calm (map_err f m).
Proof. intros Hm w r w' Hi (r0 & E & _)%map_err_inv. by eapply Hm. Qed.
Lemma calm_wrap {A} c (m : M W A) : calm m → calm (wrap c m).
Proof. apply calm_map_err. Qed.
Lemma calm_try {A} (m : M W A) : calm m → calm (try m).
Proof. intros Hm w r w' Hi (r0 & _ & E)%try_inv. by eapply Hm. Qed.
Lemma calm_best_effort {A} (m : M W A) : calm m → calm (best_effort m).
Proof. intros Hm w r w' Hi (_ & r0 & E)%best_effort_inv. by eapply Hm. Qed.
Lemma calm_of_res {A} (r : res A) : calm (of_res r).
Proof. by intros w r' w' Hi [= <- <-]. Qed.
Lemma calm_for_each {A} (l : list A) (body : A → M W unit) : (∀ x, calm (body x)) → calm (for_each l body).
Proof. intros Hb. induction l; [apply calm_ret|]. by apply calm_bind. Qed.
Lemma calm_query {A} (f : M DB A) : calm (pg_query f).
Proof. intros w r w'. apply stable_query. Qed.
Lemma calm_tx_query {A} (f : M DB A) : calm (tx_query f).
Proof. intros w r w'. apply stable_tx_query. Qed.
Lemma calm_WithTx {A} (fn : M W A) : calm fn → calm (WithTx DB fn).
Proof.
  intros Hf. apply calm_bind; [apply calm_wrap; intros w r w'; apply stable_Begin|]. intros _.
  apply calm_bind; [apply calm_try, calm_bind; [done|]|].
  - intros a. apply calm_bind; [apply calm_wrap; intros w r w'; apply stable_Commit|]. intros _. apply calm_ret.
  - intros r0. apply calm_bind; [apply calm_best_effort; intros w r w'; apply stable_Rollback|].
    intros _. apply calm_of_res.
Qed.

(** ** The judgements *)
Definition asks {A} (m : M W A) (P : DB → A → Prop) : Prop := ∀ w r w', I w → m w = (r, w') →
  I w' ∧ view w' = view w ∧ match r with Ok a => P (view w) a | Err _ => True end.
Definition does {A} (m : M W A) (S : DB → A → DB → Prop) : Prop := ∀ w r w', I w → m w = (r, w') →
  I w' ∧ match r with
         | Ok a => S (view w) a (view w')
         | Err _ => view w' = view w ∨ ∃ a, S (view w) a (view w')
         end.
Definition runs {A} (m : M W A) (T : DB → DB → Prop) : Prop := ∀ w r w', I w → m w = (r, w') →
  I w' ∧ T (view w) (view w').
Definition declines {A} (m : M W (response A)) : Prop := ∀ w r w', I w → m w = (r, w') →
  I w' ∧ view w' = view w ∧ ¬ succeeded r.
Definition serves {A} (m : M W (response A)) (Q : DB → DB → Prop) : Prop := ∀ w r w', I w → m w = (r, w') →
  I w' ∧ (Q (view w) (view w') ∨ (view w' = view w ∧ ¬ succeeded r)).
(** Leaves the tables alone. *)
Abbreviation idle m := (asks m (λ _ _, True)).

(** ** Reads *)
Lemma asks_ret {A} (a : A) (P : DB → A → Prop) : (∀ d, P d a) → asks (mret a) P.
Proof. intros HP w r w' Hi [= <- <-]. auto. Qed.
Lemma asks_fail {A} e (P : DB → A → Prop) : asks (fail e) P.
Proof. by intros w r w' Hi [= <- <-]. Qed.
Lemma asks_weaken {A} (m : M W A) P Q : asks m P → (∀ d a, P d a → Q d a) → asks m Q.
Proof. intros Hm HQ w r w' Hi E. apply Hm in E as (Hj & Hv & Hr); [|done]. split_and!; [done..|]. destruct r; auto. Qed.
Lemma asks_bind {A B} (m : M W A) (k : A → M W B) P Q :
  asks m P → (∀ a, asks (k a) (λ d b, P d a → Q d b)) → asks (m ≫= k) Q.
Proof.
  intros Hm Hk w r w' Hi E. apply bind_inv in E as [(a & w1 & E1 & E)|(e & E1 & ->)];
    apply Hm in E1 as (Hj & Hv & HP); [|done..].
  apply Hk in E as (Hj' & Hv' & Hr); [|done]. rewrite Hv in *. split_and!; [done..|]. destruct r; auto.
Qed.
Lemma asks_fact {A B} (m : M W A) (k : A → M W B) (P : A → Prop) Q :
  asks m (λ _, P) → (∀ a, P a → asks (k a) Q) → asks (m ≫= k) Q.
Proof.
  intros Hm Hk w r w' Hi E. apply bind_inv in E as [(a & w1 & E1 & E)|(e & E1 & ->)];
    apply Hm in E1 as (Hj & Hv & HP); [|done..].
  apply (Hk a HP) in E as (Hj' & Hv' & Hr); [|done]. by rewrite Hv in *.
Qed.
Lemma asks_map_err {A} f (m : M W A) P : asks m P → asks (map_err f m) P.
Proof.
  intros Hm w r w' Hi E. apply map_err_inv in E as (r0 & E & ->). apply Hm in E as (? & ? & ?); [|done].
  split_and!; [done..|]. by destruct r0.
Qed.
Lemma asks_wrap {A} c (m : M W A) P : asks m P → asks (wrap c m) P.
Proof. apply (asks_map_err (Wrap c)). Qed.
Lemma asks_try {A} (m : M W A) P :
  asks m P → asks (try m) (λ d r, match r with Ok a => P d a | Err _ => True end).
Proof.
  intros Hm w r w' Hi E. apply try_inv in E as (r0 & -> & E). apply Hm in E as (? & ? & ?); [|done].
  split_and!; [done..|]. by destruct r0.
Qed.
Lemma asks_best_effort {A} (m : M W A) P : asks m P → idle (best_effort m).
Proof.
  intros Hm w r w' Hi E. apply best_effort_inv in E as (-> & r0 & E). apply Hm in E as (? & ? & ?); done.
Qed.
Lemma asks_of_res {A} (x : res A) (P : DB → A → Prop) :
  (∀ d a, x = Ok a → P d a) → asks (of_res x) P.
Proof. intros HP w r w' Hi [= <- <-]. split_and!; [done..|]. destruct x; auto. Qed.
Lemma asks_world {A} (f : W → A) : idle (gets f).
Proof. by intros w r w' Hi [= <- <-]. Qed.
Lemma asks_for_each {A} (l : list A) (body : A → M W unit) :
  (∀ x, idle (body x)) → idle (for_each l body).
Proof.
  intros Hb. induction l; [by apply asks_ret|]. eapply asks_bind; [apply Hb|]. intros [].
  by eapply asks_weaken; [exact IHl|].
Qed.
Lemma asks_query {A} (q : M DB A) P :
  (∀ d, (q d).2 = d ∧ match (q d).1 with Ok a => P d a | Err _ => True end) → asks (pg_query q) P.
Proof.
  intros Hq w r w' Hi E. split; [by eapply stable_query|]. specialize (Hq (view w)).
  apply pg_query_atomic in E as [(d & Hd & Hv)|(e & -> & _ & Hv)].
  - rewrite Hd in Hq. simpl in Hq. destruct Hq as [-> HP]. split; [by destruct r|done].
  - split; [|done]. destruct Hv as [?|(a & d & Hd & ->)]; [done|]. rewrite Hd in Hq. by destruct Hq.
Qed.
Lemma asks_gets {A} (f : DB → A) (P : DB → A → Prop) : (∀ d, P d (f d)) → asks (pg_query (gets f)) P.
Proof. intros HP. apply asks_query. intros d. split; [done|apply HP]. Qed.
Lemma asks_idle {A} (m : M W A) P : asks m P → idle m.
Proof. intros Hm. by eapply asks_weaken. Qed.

(** ** Writes *)
Lemma does_atomic {A} (m : M W A) (g : M DB A) (S : DB → A → DB → Prop) :
  calm m → (∀ w r w', m w = (r, w') → atomic g w r w') →
  (∀ d a d', g d = (Ok a, d') → S d a d') → does m S.
Proof.
  intros Hc Hm HS w r w' Hi E. split; [by eapply Hc|].
  apply Hm in E as [(d & Hd & Hv)|(e & -> & _ & [Hv|(a & d & Hd & Hv)])].
  - destruct r as [a|e]; rewrite Hv; [eauto|by left].
  - by left.
  - right. exists a. rewrite Hv. eauto.
Qed.
Lemma does_query {A} f (g : M DB A) (S : DB → A → DB → Prop) :
  (∀ e, from_driver e → from_driver (f e)) → (∀ d a d', g d = (Ok a, d') → S d a d') →
  does (map_err f (pg_query g)) S.
Proof.
  intros Hf HS. eapply does_atomic; [apply calm_map_err, calm_query| |].
  - intros w r w' E. eapply atomic_query; [exact Hf|exact E].
  - intros d a d' E. unfold map_err in E. destruct (g d) as [[b|e] d1] eqn:Eg; simplify_eq. eauto.
Qed.
Lemma does_wrap {A} c (g : M DB A) (S : DB → A → DB → Prop) :
  (∀ d a d', g d = (Ok a, d') → S d a d') → does (wrap c (pg_query g)) S.
Proof. apply (does_query (Wrap c)). intros e. apply from_driver_wrap. Qed.
Lemma does_tx {A} (fn : M W A) (g : M DB A) (S : DB → A → DB → Prop) :
  calm fn → tx_body fn g → (∀ d a d', g d = (Ok a, d') → S d a d') → does (WithTx DB fn) S.
Proof.
  intros Hc Hb HS. eapply does_atomic; [by apply calm_WithTx| |exact HS].
  intros w r w' E. by eapply WithTx_atomic.
Qed.
Lemma does_asks {A} (m : M W A) P : asks m P → does m (λ d a d', d' = d ∧ P d a).
Proof. intros Hm w r w' Hi E. apply Hm in E as (? & ? & ?); [|done]. split; [done|]. destruct r; auto. Qed.
Lemma does_weaken {A} (m : M W A) (S S' : DB → A → DB → Prop) :
  does m S → (∀ d a d', S d a d' → S' d a d') → does m S'.
Proof.
  intros Hm HS w r w' Hi E. apply Hm in E as [? Hr]; [|done]. split; [done|].
  destruct r; [auto|]. destruct Hr as [?|(a & ?)]; eauto.
Qed.
(** A write, then a read that may report an error though the write was done. *)
Lemma does_then {A B} (m : M W A) (k : A → M W B) (S : DB → A → DB → Prop) (S' : DB → B → DB → Prop) (dflt : DB → A → B) :
  does m S → (∀ a, asks (k a) (λ d1 b, ∀ d, S d a d1 → S' d b d1)) →
  (∀ d a d1, S d a d1 → S' d (dflt d1 a) d1) → does (m ≫= k) S'.
Proof.
  intros Hm Hk Hd w r w' Hi E. apply bind_inv in E as [(a & w1 & E1 & E)|(e & E1 & ->)];
    apply Hm in E1 as [Hj HS]; try done.
  - apply Hk in E as (Hj' & Hv & Hr); [|done]. split; [done|]. rewrite Hv. destruct r as [b|e]; [by apply Hr|].
    right. eexists. by apply Hd.
  - split; [done|]. destruct HS as [?|(a & ?)]; [by left|right; eauto].
Qed.

(** A statement that counts its rows, and what follows. *)
Lemma does_rows {B} `{!Inhabited B} (m : M W Z) (k : Z → M W B) (S : DB → DB → Prop) :
  does m (λ d n d', (n = 0 ∧ d' = d) ∨ (n ≠ 0 ∧ S d d')) →
  asks (k 0) (λ _ _, False) → (∀ n, n ≠ 0 → asks (k n) (λ _ _, True)) →
  does (m ≫= k) (λ d _ d', S d d').
Proof.
  intros Hm Hz Hk w r w' Hi E. apply bind_inv in E as [(n & w1 & E1 & E)|(e & E1 & ->)];
    apply Hm in E1 as [Hj HS]; try done.
  - destruct HS as [[-> Hv]|[Hn HS]].
    + apply Hz in E as (Hj' & Hv' & Hr); [|done]. split; [done|]. destruct r; [done|]. left. congruence.
    + apply (Hk n Hn) in E as (Hj' & Hv' & _); [|done]. split; [done|]. rewrite Hv'.
      destruct r; [done|]. right. by exists inhabitant.
  - split; [done|]. destruct HS as [?|(n & [[_ ?]|[_ ?]])]; [by left..|]. right. by exists inhabitant.
Qed.

(** ** Steps of unknown answer *)
Lemma runs_asks {A} (m : M W A) P (T : DB → DB → Prop) : asks m P → (∀ d, T d d) → runs m T.
Proof. intros Hm HT w r w' Hi E. apply Hm in E as (? & -> & _); [|done]. auto. Qed.
Lemma runs_weaken {A} (m : M W A) (T T' : DB → DB → Prop) :
  runs m T → (∀ d d', T d d' → T' d d') → runs m T'.
Proof. intros Hm HT w r w' Hi E. apply Hm in E as [? ?]; [|done]. auto. Qed.
Lemma runs_does {A} (m : M W A) S (T : DB → DB → Prop) :
  does m S → (∀ d, T d d) → (∀ d a d', S d a d' → T d d') → runs m T.
Proof.
  intros Hm HT HS w r w' Hi E. apply Hm in E as [? Hr]; [|done]. split; [done|].
  destruct r; [eauto|]. destruct Hr as [->|(a & ?)]; eauto.
Qed.
Lemma runs_best_effort {A} (m : M W A) T : runs m T → runs (best_effort m) T.
Proof. intros Hm w r w' Hi (_ & r0 & E)%best_effort_inv. by eapply Hm. Qed.
Lemma runs_bind {A B} (m : M W A) (k : A → M W B) (T : DB → DB → Prop) `{!PreOrder T} :
  runs m T → (∀ a, runs (k a) T) → runs (m ≫= k) T.
Proof.
  intros Hm Hk w r w' Hi E. apply bind_inv in E as [(a & w1 & E1 & E)|(e & E1 & ->)]; [|by eapply Hm].
  apply Hm in E1 as [Hj HT]; [|done]. apply Hk in E as [Hj' HT']; [|done]. split; [done|]. by etrans.
Qed.
Lemma runs_serves {A} (m : M W (response A)) T : runs m T → serves m T.
Proof. intros Hm w r w' Hi E. apply Hm in E as [? ?]; [|done]. auto. Qed.

(** ** Handlers *)
Lemma serves_decline {A} (m : M W (response A)) Q : declines m → serves m Q.
Proof. intros Hm w r w' Hi E. apply Hm in E as (? & ? & ?); [|done]. auto. Qed.
Lemma serves_weaken {A} (m : M W (response A)) (Q Q' : DB → DB → Prop) :
  serves m Q → (∀ d d', Q d d' → Q' d d') → serves m Q'.
Proof. intros Hm HQ w r w' Hi E. apply Hm in E as [? [?|?]]; [| |done]; auto. Qed.
Lemma serves_ask {A B} (m : M W A) (f : error → M W (response B)) k P Q :
  asks m P → (∀ e, declines (f e)) → (∀ a, serves (k a) (λ d d', P d a → Q d d')) →
  serves (catch m f k) Q.
Proof.
  intros Hm Hf Hk w r w' Hi E. apply catch_inv in E as [(a & w1 & E1 & E)|(e & w1 & E1 & E)];
    apply Hm in E1 as (Hj & Hv & HP); try done.
  - apply Hk in E as [Hj' [HQ|[Hv' Hr]]]; [| |done]; rewrite Hv in *; (split; [done|]); [by left; apply HQ|].
    right. split; [congruence|done].
  - apply Hf in E as (Hj' & Hv' & Hr); [|done]. split; [done|]. right. split; [congruence|done].
Qed.
Lemma serves_bind {A B} (m : M W A) (k : A → M W (response B)) P Q :
  asks m P → (∀ a, serves (k a) (λ d d', P d a → Q d d')) → serves (m ≫= k) Q.
Proof.
  intros Hm Hk w r w' Hi E. apply bind_inv in E as [(a & w1 & E1 & E)|(e & E1 & ->)];
    apply Hm in E1 as (Hj & Hv & HP); try done.
  - apply Hk in E as [Hj' [HQ|[Hv' Hr]]]; [| |done]; rewrite Hv in *; (split; [done|]); [by left; apply HQ|].
    right. split; [congruence|done].
  - split; [done|]. right. split; [done|]. by intros [].
Qed.
(** An answer that says something of more than the tables. *)
Lemma serves_fact {A B} (m : M W A) (f : error → M W (response B)) k (P : A → Prop) Q :
  asks m (λ _, P) → (∀ e, declines (f e)) → (∀ a, P a → serves (k a) Q) → serves (catch m f k) Q.
Proof.
  intros Hm Hf Hk w r w' Hi E. apply catch_inv in E as [(a & w1 & E1 & E)|(e & w1 & E1 & E)];
    apply Hm in E1 as (Hj & Hv & HP); try done.
  - apply (Hk a HP) in E as [Hj' [HQ|[Hv' Hr]]]; [| |done]; rewrite Hv in *; (split; [done|]); [by left|by right].
  - apply Hf in E as (Hj' & Hv' & Hr); [|done]. split; [done|]. right. split; [congruence|done].
Qed.
Lemma serves_of_res {A B} (x : res A) (f : error → M W (response B)) k Q :
  (∀ e, declines (f e)) → (∀ a, x = Ok a → serves (k a) Q) → serves (catch (of_res x) f k) Q.
Proof. intros Hf Hk. destruct x; [by apply Hk|]. by apply serves_decline, Hf. Qed.
(** A write and what follows it. *)
Lemma serves_do {A B} (m : M W A) (f : error → M W (response B)) k S Q :
  does m S → (∀ e, declines (f e)) →
  (∀ a, runs (k a) (λ d1 d2, ∀ d, S d a d1 → Q d d2)) → (∀ d a d1, S d a d1 → Q d d1) →
  serves (catch m f k) Q.
Proof.
  intros Hm Hf Hk HQ w r w' Hi E. apply catch_inv in E as [(a & w1 & E1 & E)|(e & w1 & E1 & E)];
    apply Hm in E1 as [Hj HS]; try done.
  - apply Hk in E as [Hj' HT]; [|done]. split; [done|]. left. by apply HT.
  - apply Hf in E as (Hj' & Hv & Hr); [|done]. split; [done|]. rewrite Hv.
    destruct HS as [Hv'|(a & HS)]; [right; by rewrite Hv'|left; eauto].
Qed.
(** The common case: nothing after the write touches the tables. *)
Lemma serves_done {A B} (m : M W A) (f : error → M W (response B)) k S Q :
  does m S → (∀ e, declines (f e)) → (∀ a, idle (k a)) → (∀ d a d1, S d a d1 → Q d d1) →
  serves (catch m f k) Q.
Proof. intros Hm Hf Hk HQ. eapply serves_do; [done..| |done]. intros a. eapply runs_asks; [apply Hk|]. eauto. Qed.
Lemma runs_catch {A B} (m : M W A) (f : error → M W (response B)) k S (T : DB → DB → Prop) :
  does m S → (∀ e, declines (f e)) → (∀ a, idle (k a)) → (∀ d, T d d) → (∀ d a d', S d a d' → T d d') →
  runs (catch m f k) T.
Proof.
  intros Hm Hf Hk HT HS w r w' Hi E. apply catch_inv in E as [(a & w1 & E1 & E)|(e & w1 & E1 & E)];
    apply Hm in E1 as [Hj H1]; try done.
  - apply Hk in E as (Hj' & -> & _); [|done]. split; [done|]. by eapply HS.
  - apply Hf in E as (Hj' & -> & _); [|done]. split; [done|]. destruct H1 as [->|(a & ?)]; eauto.
Qed.

(** ** Calls that leave the tables alone *)
Lemma idle_catch {A B} (m : M W A) (f : error → M W B) k :
  idle m → (∀ e, idle (f e)) → (∀ a, idle (k a)) → idle (catch m f k).
Proof.
  intros Hm Hf Hk w r w' Hi E. apply catch_inv in E as [(a & w1 & E1 & E)|(e & w1 & E1 & E)];
    apply Hm in E1 as (Hj & Hv & _); try done; [apply Hk in E|apply Hf in E]; try done;
    destruct E as (Hj' & Hv' & _); (split; [done|]); split; [congruence|by destruct r|congruence|by destruct r].
Qed.
Lemma idle_bind {A B} (m : M W A) (k : A → M W B) : idle m → (∀ a, idle (k a)) → idle (m ≫= k).
Proof.
  intros Hm Hk. eapply asks_bind; [exact Hm|]. intros a. eapply asks_weaken; [apply Hk|]. done.
Qed.
Lemma idle_try {A} (m : M W A) : idle m → idle (try m).
Proof. intros Hm. eapply asks_idle, asks_try, Hm. Qed.
Lemma idle_ret {A} (a : A) : idle (mret a).
Proof. by apply asks_ret. Qed.
Lemma idle_map_err {A} f (m : M W A) : idle m → idle (map_err f m).
Proof. apply asks_map_err. Qed.
Lemma idle_wrap {A} c (m : M W A) : idle m → idle (wrap c m).
Proof. apply asks_wrap. Qed.
Lemma idle_fail {A} e : idle (fail (A := A) e).
Proof. apply asks_fail. Qed.
Lemma idle_of_res {A} (x : res A) : idle (of_res x).
Proof. by apply asks_of_res. Qed.
Lemma idle_best_effort {A} (m : M W A) : idle m → idle (best_effort m).
Proof. apply asks_best_effort. Qed.
Lemma idle_select {A} (f : DB → A) : idle (pg_query (gets f)).
Proof. by apply asks_gets. Qed.
Lemma idle_modify (f : W → W) : (∀ w, I w → I (f w) ∧ view (f w) = view w) → idle (modify f).
Proof. intros Hf w r w' Hi [= <- <-]. destruct (Hf w Hi). by split_and!. Qed.
Lemma idle_declines {A} (m : M W (response A)) : declines m → idle m.
Proof. intros Hm w r w' Hi E. apply Hm in E as (? & ? & _); [|done]. split_and!; [done..|by destruct r]. Qed.
Lemma serves_idle {A} (m : M W (response A)) (Q : DB → DB → Prop) : idle m → (∀ d, Q d d) → serves m Q.
Proof. intros Hm HQ w r w' Hi E. apply Hm in E as (? & -> & _); [|done]. auto. Qed.

(** ** Answers that the tables determine *)
Definition shows {A} (R : DB → Prop) (m : M W (response A)) (X : DB → A) : Prop :=
  asks m (λ d b, R d → status b < 400 → content b = Data (X d)).
Lemma shows_catch {A B} R (m : M W A) (f : error → M W (response B)) k P (X : DB → B) :
  asks m P → (∀ e, declines (f e)) → (∀ a, shows (λ d, R d ∧ P d a) (k a) X) → shows R (catch m f k) X.
Proof.
  intros Hm Hf Hk w r w' Hi E. apply catch_inv in E as [(a & w1 & E1 & E)|(e & w1 & E1 & E)];
    apply Hm in E1 as (Hj & Hv & HP); try done.
  - apply Hk in E as (Hj' & Hv' & Hr); [|done]. rewrite Hv in *. split_and!; [done..|]. destruct r; auto.
  - apply Hf in E as (Hj' & Hv' & Hr); [|done].
    split_and!; [done|congruence|]. destruct r; [|done]. intros _ Hs. by destruct Hr.
Qed.
(** An answer that says something of more than the tables. *)
Lemma shows_fact {A B} R (m : M W A) (f : error → M W (response B)) k (P : A → Prop) (X : DB → B) :
  asks m (λ _, P) → (∀ e, declines (f e)) → (∀ a, P a → shows R (k a) X) → shows R (catch m f k) X.
Proof.
  intros Hm Hf Hk w r w' Hi E. apply catch_inv in E as [(a & w1 & E1 & E)|(e & w1 & E1 & E)];
    apply Hm in E1 as (Hj & Hv & HP); try done.
  - apply (Hk a HP) in E as (Hj' & Hv' & Hr); [|done]. rewrite Hv in *. split_and!; [done..|]. destruct r; auto.
  - apply Hf in E as (Hj' & Hv' & Hr); [|done].
    split_and!; [done|congruence|]. destruct r; [|done]. intros _ Hs. by destruct Hr.
Qed.
Lemma shows_success {A} (R : DB → Prop) (a : A) X : (∀ d, R d → X d = a) → shows R (Success a) X.
Proof. intros HX. apply asks_ret. intros d Hd _. simpl. by rewrite HX. Qed.

(** A row looked for, and the error that says there is none. *)
Definition finds {A} (m : M W A) (gone : error) (f : DB → option A) : Prop := ∀ w r w', I w → m w = (r, w') →
  I w' ∧ view w' = view w ∧
  match r with Ok a => f (view w) = Some a | Err e => errors_Is e gone = true → f (view w) = None end.
Lemma shows_row {A B} R (m : M W A) gone f (absent other : M W (response B)) k (X : DB → B) :
  finds m gone f → shows (λ d, R d ∧ f d = None) absent X → declines other →
  (∀ a, shows (λ d, R d ∧ f d = Some a) (k a) X) →
  shows R (catch m (λ e, if errors_Is e gone then absent else other) k) X.
Proof.
  intros Hm Ha Ho Hk w r w' Hi E. apply catch_inv in E as [(a & w1 & E1 & E)|(e & w1 & E1 & E)];
    apply Hm in E1 as (Hj & Hv & Hf); try done.
  - apply Hk in E as (Hj' & Hv' & Hr); [|done]. rewrite Hv in *. split_and!; [done..|]. destruct r; auto.
  - destruct (errors_Is e gone).
    + apply Ha in E as (Hj' & Hv' & Hr); [|done]. rewrite Hv in *. split_and!; [done..|]. destruct r; auto.
    + apply Ho in E as (Hj' & Hv' & Hr); [|done].
      split_and!; [done|congruence|]. destruct r; [|done]. intros _ Hs. by destruct Hr.
Qed.

(** ** Answers and parameters *)
Lemma Fail_declines {A} st code msg : 400 ≤ st → declines (Fail_ (A := A) st code msg).
Proof. intros Hs w r w' Hi [= <- <-]. simpl. split_and!; [done..|lia]. Qed.
Lemma internal_declines `{ApiErrors} {A} : declines (internal_error (A := A)).
Proof. by apply Fail_declines. Qed.
Lemma fail_declines {A} e : declines (fail (A := response A) e).
Proof. intros w r w' Hi [= <- <-]. split_and!; [done..|]. by intros []. Qed.

Context {U : Type} `{UUIDLib U} `{ApiErrors}.
Lemma UserID_asks (c : request U) : asks (UserID c) (λ _ u, Locals_userID c = Some u).
Proof. unfold UserID. destruct (Locals_userID c); [by apply asks_ret|apply asks_fail]. Qed.
Lemma serves_param {A} (c : request U) p code (k : U → M W (response A)) Q :
  (∀ id, uuid_Parse (Params c p) = Ok id → serves (k id) Q) → serves (ParseUUIDParam c p code k) Q.
Proof.
  intros Hk. unfold ParseUUIDParam. destruct (uuid_Parse (Params c p)) eqn:E; [by apply Hk|].
  by apply serves_decline, Fail_declines.
Qed.
Lemma serves_Bind {A B} (x : res B) (k : B → M W (response A)) Q :
  (∀ b, x = Ok b → serves (k b) Q) → serves (Bind x k) Q.
Proof. intros Hk. unfold Bind. destruct x; [by apply Hk|]. by apply serves_decline, Fail_declines. Qed.
Lemma serves_int {A} (c : request U) p (k : Z → M W (response A)) Q :
  (∀ v, serves (k v) Q) → serves (ParseIntQuery c p k) Q.
Proof.
  intros Hk. unfold ParseIntQuery. destruct (bool_decide _); [done|].
  destruct (ParseInt _); [done|]. by apply serves_decline, Fail_declines.
Qed.
Lemma serves_UserID {A} (c : request U) u (k : U → M W (response A)) Q :
  Locals_userID c = Some u → serves (k u) Q → serves (u ← UserID c; k u) Q.
Proof. intros Hu Hk. unfold UserID. rewrite Hu. exact Hk. Qed.
Lemma shows_param {A} R (c : request U) p code (k : U → M W (response A)) id X :
  uuid_Parse (Params c p) = Ok id → shows R (k id) X → shows R (ParseUUIDParam c p code k) X.
Proof. intros Hp Hk. unfold ParseUUIDParam. by rewrite Hp. Qed.
Lemma shows_UserID {A} R (c : request U) u (k : U → M W (response A)) X :
  Locals_userID c = Some u → shows R (k u) X → shows R (UserID c ≫= k) X.
Proof. intros Hu Hk. unfold UserID. by rewrite Hu. Qed.
Lemma idle_param {A} (c : request U) p code (k : U → M W (response A)) :
  (∀ id, idle (k id)) → idle (ParseUUIDParam c p code k).
Proof.
  intros Hk. unfold ParseUUIDParam. destruct (uuid_Parse _); [apply Hk|]. by apply idle_declines, Fail_declines.
Qed.
Lemma idle_int {A} (c : request U) p (k : Z → M W (response A)) :
  (∀ n, idle (k n)) → idle (ParseIntQuery c p k).
Proof.
  intros Hk. unfold ParseIntQuery. destruct (bool_decide _); [apply Hk|]. destruct (ParseInt _); [apply Hk|].
  by apply idle_declines, Fail_declines.
Qed.
End logic.
(** Reads of the tables keep the invariant. *)
Class Reading (DB : Type) {W : Type} `{Postgres DB W} (I : W → Prop) : Prop := {
  reading_query : ∀ {A} (q : M DB A) w r w', (∀ d, (q d).2 = d) → I w → pg_query q w = (r, w') → I w' }.
Section reading.
Context {DB W : Type} `{PostgresLaws DB W} (I : W → Prop) `{!Reading DB I}.
Abbreviation any := (λ _ : W, True).
Lemma asks_reading {A} (q : M DB A) (P : DB → A → Prop) :
  (∀ d, (q d).2 = d ∧ match (q d).1 with Ok a => P d a | Err _ => True end) → asks I (pg_query q) P.
Proof.
  intros Hq w r w' Hi E. split; [eapply reading_query; [|exact Hi|exact E]; intros d; apply Hq|].
  by edestruct (asks_query any (Stable0 := free_Stable) q P Hq w r w').
Qed.
(** A statement that answers with the row, or with the error of no rows. *)
Lemma finds_row {A} (q : M DB A) g gone (f : DB → option A) :
  (∀ d, q d = (match f d with Some a => Ok a | None => Err ErrNoRows end, d)) →
  (∀ e, from_driver e → errors_Is (g e) gone = false) → finds I (map_err g (pg_query q)) gone f.
Proof.
  intros Hq Hg w r w' Hi E. apply map_err_inv in E as (r0 & E & ->).
  split; [eapply reading_query; [|exact Hi|exact E]; intros d; by rewrite Hq|].
  apply pg_query_atomic in E as [(d & Hd & Hv)|(e & -> & He & Hv)].
  - rewrite Hq in Hd. destruct (f (pg_view w)) as [a|]; injection Hd as <- <-; by split.
  - split; [|by rewrite Hg]. destruct Hv as [?|(a & d & Hd & ->)]; [done|].
    rewrite Hq in Hd. by injection Hd as _ <-.
Qed.
End reading.
Abbreviation idle I m := (asks I m (λ _ _, True)).
Create HintDb idle.
#[export] Hint Resolve idle_ret idle_fail idle_of_res idle_select asks_world : idle.
Ltac idle_step :=
  match goal with
  | |- asks _ (_ ≫= _) _ => apply idle_bind; [|intros ?]
  | |- asks _ (map_err _ _) _ => apply idle_map_err
  | |- asks _ (wrap _ _) _ => apply idle_wrap
  | |- asks _ (catch _ _ _) _ => apply idle_catch; [|intros ?|intros ?]
  | |- asks _ (try _) _ => apply idle_try
  | |- asks _ (best_effort _) _ => apply idle_best_effort
  | |- asks _ (for_each _ _) _ => apply asks_for_each; intros ?
  | |- asks _ (match ?x with _ => _ end) _ => destruct x
  end.
(** A program that only reads the tables. *)
Ltac idle := repeat idle_step; eauto with idle.
Create HintDb calm.
#[export] Hint Resolve calm_ret calm_fail calm_bind calm_map_err calm_wrap calm_try calm_best_effort
  calm_of_res calm_for_each calm_query calm_tx_query calm_WithTx : calm.
Ltac calm_step :=
  match goal with
  | |- calm _ (_ ≫= _) => apply calm_bind; [|intros ?]
  | |- calm _ (map_err _ _) => apply calm_map_err
  | |- calm _ (wrap _ _) => apply calm_wrap
  | |- calm _ (try _) => apply calm_try
  | |- calm _ (best_effort _) => apply calm_best_effort
  | |- calm _ (for_each _ _) => apply calm_for_each; intros ?
  | |- calm _ (WithTx _ _) => apply calm_WithTx
  | |- calm _ (pg_query _) => apply calm_query
  | |- calm _ (tx_query _) => apply calm_tx_query
  | |- calm _ (match ?x with _ => _ end) => destruct x
  end.
Ltac calm := repeat calm_step; eauto with calm.
Create HintDb declines.
#[export] Hint Resolve internal_declines fail_declines : declines.
#[export] Hint Extern 1 (declines _ (Fail_ _ _ _)) => (apply Fail_declines; done) : declines.
#[export] Hint Extern 3 (asks _ (Fail_ _ _ _) _) => (apply idle_declines, Fail_declines; done) : idle.
#[export] Hint Extern 3 (asks _ internal_error _) => (apply idle_declines, internal_declines) : idle.
#[export] Hint Extern 2 (declines _ (if ?b then _ else _)) => destruct b : declines.
