(* ===== verification/RouteGate.v ===== *)
(** * The middleware of the routes, once for all tables

    [protect] (Routes.v) before any handler: a request either is refused, with the tables as
    they were, or reaches the handler of a caller who has what the route asks for, again with
    the tables as they were.  What the checks may answer is taken as judgements of ChatLogic.v
    about the three calls they make. *)
From S2P Require Import Prelude GoStd Platform Permission PermCache Config Jwt Postgres Frames Domain GuildTables GuildRepo Http.
From S2P Require Import MemberApi JoinApi ApiLogic GuildStore ResolverFrame Routes ChatLogic.
Open Scope Z_scope.

Section gate.
Context {DB U W : Type} `{UUIDLib U} `{!RandomUUID U} `{!MemberStatuses} `{Postgres (guild U) W}.
Context `{PermissionLib} `{!Store U W} `{!Cache U W} `{ApiErrors} `{PostgresLaws DB W}.
Context (I : W → Prop) (standing : U → string → Prop) (granted : U → U → Z → Prop).
Context (server_granted : U → Z → Prop).
Implicit Types (c : request U) (u : U) (w : W).
Abbreviation view := (pg_view (DB := DB) (W := W)).

Record entitled (a : access) c u : Prop := {
  ent_verified : a ≠ Authenticated → Locals_emailVerified c = Some true;
  ent_active : a ≠ Authenticated → a ≠ Verified → ∃ s, standing u s ∧ s ≠ MemberStatusPending;
  ent_server : ∀ p, a = WithPermission p → server_granted u p;
  ent_channel : ∀ p, a = InChannel p → ∃ ch, uuid_Parse (Params c "channelID") = Ok ch ∧ granted u ch p }.

(** The handler is reached with the same tables and [P], or the request is refused. *)
Definition reaches {A} (P : Prop) (next : request U → M W (response A)) c (m : M W (response A)) : Prop :=
  ∀ w r w', I w → m w = (r, w') →
  (∃ w1, I w1 ∧ view w1 = view w ∧ P ∧ next c w1 = (r, w')) ∨ (I w' ∧ view w' = view w ∧ ¬ succeeded r).

Lemma reaches_refuse {A} P (next : request U → M W (response A)) c st code msg :
  400 ≤ st → reaches P next c (Fail_ st code msg).
Proof. intros Hs w r w' Hi E. right. apply Fail_inv in E as [-> ?]; done. Qed.
Lemma reaches_weaken {A} (P P' : Prop) (next next' : request U → M W (response A)) c m :
  reaches P next c m → (P → reaches P' next' c (next c)) → reaches P' next' c m.
Proof.
  intros Hm Hn w r w' Hi E. destruct (Hm _ _ _ Hi E) as [(w1 & Hi1 & Hv & HP & E1)|?]; [|by right].
  destruct (Hn HP _ _ _ Hi1 E1) as [(w2 & Hi2 & Hv2 & HP' & E2)|(? & ? & ?)]; [left|right].
  - exists w2. split_and!; [done|congruence|done..].
  - split_and!; [done|congruence|done].
Qed.
Lemma reaches_ask {A B} (m : M W B) f (P : B → Prop) (Q : Prop) (next : request U → M W (response A)) c k :
  asks (DB := DB) I m (λ _, P) → (∀ e, reaches Q next c (f e)) → (∀ b, P b → reaches Q next c (k b)) →
  reaches Q next c (catch m f k).
Proof.
  intros Hm Hf Hk w r w' Hi E.
  apply catch_inv in E as [(b & w1 & E1 & E)|(e & w1 & E1 & E)]; apply Hm in E1 as (Hi1 & Hv & HP); try done.
  - destruct (Hk b HP _ _ _ Hi1 E) as [(w2 & Hi2 & Hv2 & HQ & E2)|(? & ? & ?)]; [left; exists w2|right];
      split_and!; try done; congruence.
  - destruct (Hf e _ _ _ Hi1 E) as [(w2 & Hi2 & Hv2 & HQ & E2)|(? & ? & ?)]; [left; exists w2|right];
      split_and!; try done; congruence.
Qed.
Lemma reaches_next {A} (P : Prop) (next : request U → M W (response A)) c : P → reaches P next c (next c).
Proof. intros HP w r w' Hi E. left. by exists w. Qed.

Hypothesis Hstatus : ∀ u, asks (DB := DB) I (MemberRepo.GetStatus u) (λ _ s, standing u s).
Lemma reaches_active {A} (next : request U → M W (response A)) c u :
  Locals_userID c = Some u →
  reaches (∃ s, standing u s ∧ s ≠ MemberStatusPending) next c (RequireActiveMember next c).
Proof.
  intros Hu. unfold RequireActiveMember, UserID. rewrite Hu.
  refine (reaches_ask _ _ (standing u) _ _ _ _ (Hstatus u) _ _).
  - intros e. destruct (errors_Is e _); by apply reaches_refuse.
  - intros s Hs. destruct (bool_decide_reflect (s = MemberStatusPending)); [by apply reaches_refuse|].
    apply reaches_next. by exists s.
Qed.

Hypothesis Hperm : ∀ u ch p, asks (DB := DB) I (HasPermission u ch p) (λ _ b, b = true → granted u ch p).
Lemma reaches_permission {A} p (next : request U → M W (response A)) c u :
  Locals_userID c = Some u →
  reaches (∃ ch, uuid_Parse (Params c "channelID") = Ok ch ∧ granted u ch p) next c (RequirePermission p next c).
Proof.
  intros Hu. unfold RequirePermission, UserID. rewrite Hu.
  change (reaches (∃ ch, uuid_Parse (Params c "channelID") = Ok ch ∧ granted u ch p) next c
    (if bool_decide (Params c "channelID" = ""%string)
     then Fail_ StatusBadRequest MissingChannelID "Channel ID is required"
     else match uuid_Parse (Params c "channelID") with
          | Err _ => Fail_ StatusBadRequest InvalidChannelID "Invalid channel ID format"
          | Ok channelID => catch (HasPermission u channelID p)
             (λ _, Fail_ StatusInternalServerError InternalError "Failed to check permissions")
             (λ allowed, if allowed : bool then next c
                         else Fail_ StatusForbidden MissingPermissions "You do not have the required permissions")
          end)).
  destruct (bool_decide _); [by apply reaches_refuse|].
  destruct (uuid_Parse _) as [ch|] eqn:Ech; [|by apply reaches_refuse].
  refine (reaches_ask _ _ (λ b, b = true → granted u ch p) _ _ _ _ (Hperm u ch p) _ _).
  - intros e. by apply reaches_refuse.
  - intros [] Hb; [|by apply reaches_refuse]. apply reaches_next. exists ch. auto.
Qed.
Lemma reaches_server {A} p (next : request U → M W (response A)) c u :
  asks (DB := DB) I (HasServerPermission u p) (λ _ b, b = true → server_granted u p) →
  Locals_userID c = Some u →
  reaches (server_granted u p) next c (RequireServerPermission p next c).
Proof.
  intros Hs Hu. unfold RequireServerPermission, UserID. rewrite Hu.
  refine (reaches_ask _ _ (λ b, b = true → server_granted u p) _ _ _ _ Hs _ _).
  - intros e. by apply reaches_refuse.
  - intros [] Hb; [|by apply reaches_refuse]. apply reaches_next. auto.
Qed.
Lemma reaches_verified {A} (next : request U → M W (response A)) c :
  reaches (Locals_emailVerified c = Some true) next c (RequireVerifiedEmail next c).
Proof.
  unfold RequireVerifiedEmail. destruct (Locals_emailVerified c) as [[]|]; [by apply reaches_next|by apply reaches_refuse..].
Qed.

Lemma protect_reaches {A} a (next : request U → M W (response A)) c u :
  Locals_userID c = Some u →
  (∀ p, a = WithPermission p → asks (DB := DB) I (HasServerPermission u p) (λ _ b, b = true → server_granted u p)) →
  reaches (entitled a c u) next c (protect a next c).
Proof.
  intros Hu Hs. destruct a as [| | |p|p]; simpl; [by apply reaches_next|..];
    (eapply reaches_weaken; [apply reaches_verified|]; intros Hv); [by apply reaches_next|..];
    (eapply reaches_weaken; [by apply (reaches_active _ _ u)|]; intros Ha); [by apply reaches_next|..].
  - eapply reaches_weaken; [apply (reaches_server _ _ _ u); [by apply Hs|done]|]. intros Hp.
    apply reaches_next. split; [done..| |done]. by intros ? [= <-].
  - eapply reaches_weaken; [by apply (reaches_permission _ _ _ u)|]. intros Hp.
    apply reaches_next. split; [done..|]. by intros ? [= <-].
Qed.

Lemma serves_respond {A B} (f : A → B) (m : M W (response A)) (Q : DB → DB → Prop) :
  serves I m Q → serves I (respond f m) Q.
Proof.
  intros Hm w r w' Hi E. apply bind_inv in E as [(a & w1 & E1 & E)|(e & E1 & ->)].
  - injection E as <- <-. by apply Hm in E1.
  - apply Hm in E1 as [? [?|[? ?]]]; [by split; [|left]| |done]. split; [done|right]. by split; [|intros []].
Qed.
(** A handler that serves what it should, behind the middleware. *)
Lemma serves_protect {A} a (next : request U → M W (response A)) c u (Q : DB → DB → Prop) :
  Locals_userID c = Some u →
  (∀ p, a = WithPermission p → asks (DB := DB) I (HasServerPermission u p) (λ _ b, b = true → server_granted u p)) →
  (entitled a c u → serves I (next c) Q) → serves I (protect a next c) Q.
Proof.
  intros Hu Hs Hn w r w' Hi E. destruct (protect_reaches a next c u Hu Hs _ _ _ Hi E) as [(w1 & Hi1 & Hv & He & E1)|?].
  - rewrite <-Hv. by apply (Hn He).
  - tauto.
Qed.
End gate.

(** The token of a request, before its access is looked at. *)
Definition presents {U W} `{UUIDLib U} `{!JwtLib} `{Clock W} (cfg : Config) (c c' : request U) (w : W) (u : U) : Prop :=
  ∃ tok src claims,
    credential cfg c = Some (Some (tok, src)) ∧
    (ValidateAccessToken tok (Expose (JWTSecret cfg)) (ServerURL cfg) w).1 = Ok claims ∧
    uuid_Parse (Subject claims) = Ok u ∧ c' = with_identity c u (EmailVerified claims) src ∧
    (src = AuthSourceCookie → safe_method (Method c) = false →
     Header c "X-CSRF-Token" = Cookies c (CSRFCookieName cfg) ∧ Header c "X-CSRF-Token" ≠ ""%string).
Lemma identified {U W A} `{UUIDLib U} `{!JwtLib} `{Clock W} `{ApiErrors} cfg
    (next : request U → M W (response A)) c w r w' :
  RequireAuth (Expose (JWTSecret cfg)) (ServerURL cfg) cfg (RequireCSRF cfg next) c w = (r, w') →
  (∃ u c', presents cfg c c' w u ∧ Locals_userID c' = Some u ∧ next c' w = (r, w')) ∨ (w' = w ∧ ¬ succeeded r).
Proof.
  intros E. apply RequireAuth_inv in E as [(tok & src & claims & u & Hcred & Htok & Hu & E)|?]; [|by right].
  apply RequireCSRF_inv in E as [[E Hcsrf]|?]; [|by right].
  left. eexists u, _. split; [|split; [|exact E]]; [|done]. exists tok, src, claims. split_and!; try done.
  intros ->. by apply Hcsrf.
Qed.

(** ** The permission check over the server's store and cache *)
Section resolver.
Context {U W : Type} `{UUIDLaws U} `{!RandomUUID U} `{PostgresLaws (guild U) W}.
Context `{!PermissionLib} `{!PermissionLaws} `{ValkeyLaws W}.
Abbreviation guild_view := (pg_view (DB := guild U) (W := W)).
Context `{!ValkeyFrame guild_view} `{!PgFrame (guild U) (vk_view (W := W))}.
Implicit Types (w : W) (u ch : U).

(** A granted check is right by what the resolver knew in the world [w0] in which the request
    arrived, whatever it has added to the cache since. *)
Lemma HasPermission_trusts w0 u ch p w r w' :
  db_wf (guild_perms (guild_view w0)) → trusts (U := U) w0 w → HasPermission u ch p w = (r, w') →
  guild_view w' = guild_view w ∧ trusts (U := U) w0 w' ∧ (r = Ok true → allowed_at (U := U) w0 u ch p).
Proof.
  intros Hwf Ht E.
  assert (Hv : guild_view w' = guild_view w)
    by exact (keeps_run guild_view _ _ _ _ (frame_HasPermission guild_view (ReadFrame0 := ReadFrame_view) u ch p) E).
  split; [done|].
  apply bind_inv in E as [(eff & w1 & E1 & E)|(e & E1 & ->)];
    (edestruct (Resolve_trusts w0 u ch w) as [Ht' Hr]; [exact Hwf|exact Ht|exact E1|]); [|done].
  injection E as <- <-. split; [done|]. intros [= Hp]. by eapply answer_allowed; [apply Hr|].
Qed.
Lemma HasServerPermission_trusts w0 u p w r w' :
  db_wf (guild_perms (guild_view w0)) → g_channels (guild_view w0) !! uuid_Nil = None →
  trusts (U := U) w0 w → HasServerPermission u p w = (r, w') →
  guild_view w' = guild_view w ∧ trusts (U := U) w0 w' ∧ (r = Ok true → allowed_on (U := U) w0 u p).
Proof.
  intros Hwf Hn Ht E.
  assert (Hv : guild_view w' = guild_view w)
    by exact (keeps_run guild_view _ _ _ _ (frame_HasServerPermission guild_view (ReadFrame0 := ReadFrame_view) u p) E).
  split; [done|].
  apply bind_inv in E as [(eff & w1 & E1 & E)|(e & E1 & ->)];
    (edestruct (ResolveServer_trusts w0 u w) as [Ht' Hr]; [exact Hwf|exact Ht|exact E1|]); [|done].
  injection E as <- <-. split; [done|]. intros [= Hp]. eapply server_answer_allowed; [|done].
  destruct (Hr _ eq_refl) as [?|[[?|(_ & cat & Hc & _)]|[_ ?]]]; [by left|by right; left| |by right].
  simpl in Hc. unfold serverPermKey in Hc. by rewrite Hn in Hc.
Qed.
End resolver.
