(* ===== verification/ChatSpec.v ===== *)
(** * What the conversations allow

    The steps a caller may take on the tables of ChatTables.v and DmTables.v, each with the
    rule it is under, and the invariant of the tables that every step keeps.  [granted u ch p]:
    user [u] has permission [p] in channel [ch].  The handlers take these steps only
    (ChatProofs.v, DmProofs.v). *)
From stdpp Require Import sorting.
From S2P Require Import Prelude GoStd Platform Permission Validate Postgres Domain GuildTables.
From S2P Require Import ChatTables DmTables ChatRepo ChatModel.
Open Scope Z_scope.

Section steps.
Context {U : Type} `{UUIDLib U} `{RandomUUID U} `{!ChatPermissions} `{PermissionLib}.
Context (granted : U → U → Z → Prop) (maxContent maxDevices : Z).
Implicit Types (d : chat U) (u v id ch dev : U).

Definition next_uuid d : U := gen_random_uuid (c_seq d).
Definition tick d : chat U := set_next (S (c_seq d)) d.

(** ** Messages *)
Definition new_row (p : Message.CreateParams U) (now : Z) : message_row U :=
  mkMessageRow (Message.cp_ChannelID p) (Message.cp_AuthorID p) (Message.cp_Content p) None
    (Message.cp_ReplyToID p) (Message.cp_ThreadID p) false None None (Message.cp_Encrypted p) now now.
Definition put_message id (r : message_row U) d : chat U := set_posts (on_messages <[id := r]>) d.
Definition valid_content (s : string) : Prop := s = ""%string ∨ 1 ≤ RuneCountInString s ≤ maxContent.
(** Where a message may be posted: in a channel, in an open thread of it, or by a participant
    in a direct conversation. *)
Definition may_post u (p : Message.CreateParams U) d : Prop :=
  match Message.cp_ThreadID p, Message.cp_Encrypted p with
  | None, false => granted u (Message.cp_ChannelID p) SendMessages
  | Some t, false => ∃ x, threads d !! t = Some x ∧ Thread.ChannelID x = Message.cp_ChannelID p ∧
      Thread.Archived x = false ∧ Thread.Locked x = false ∧
      granted u (Message.cp_ChannelID p) SendMessagesThreads
  | None, true => is_participant (Message.cp_ChannelID p) u d = true
  | Some _, true => False
  end.

(** ** Direct conversations *)
Definition put_dm (ch : Dm.Channel U) d : chat U := set_dms (on_dm_channels <[Dm.ID ch := ch]>) d.
Definition put_participant (ch : U) d u : chat U := set_dms (on_participants <[(ch, u) := c_now d]>) d.
Definition put_participants ch (l : list U) d : chat U := foldl (put_participant ch) d l.
Definition known (l : list U) d : Prop := Forall (λ u, is_Some (c_users d !! u)) l.

Definition in_dm (x : dms U) ch u : Prop := is_Some (d_participants x !! (ch, u)).
Definition group_size (x : dms U) ch : nat := size (filter (λ p, p.1.1 = ch) (d_participants x)).

(** ** Devices *)
Definition device_count (k : keys U) u : nat := size (filter (λ p, Key.UserID p.2 = u) (k_devices k)).
Definition owns u dev d : Prop := ∃ x, devices d !! dev = Some x ∧ Key.UserID x = u.
Definition plain_emoji (s : string) : Prop := s ≠ ""%string ∧ take 7 (bytes_of s) ≠ bytes_of custom_prefix.
Definition add_opk id dev (k : E2ee.UploadOPKParams) d : chat U :=
  set_keys (on_opks <[id := Key.mkOneTimePreKey id dev (E2ee.KeyID k) (E2ee.PublicKey k) (c_now d)]>) d.
Definition opk_free dev (n : Z) d : Prop :=
  map_Forall (λ _ x, ¬ (Key.opk_DeviceID x = dev ∧ Key.opk_KeyID x = n)) (opks d).
Definition spk_free dev (n : Z) d : Prop :=
  map_Forall (λ _ x, ¬ (Key.spk_DeviceID x = dev ∧ Key.spk_KeyID x = n)) (spks d).

Inductive chat_step u : chat U → chat U → Prop :=
| step_tick d : chat_step u d (tick d)
| step_post d (p : Message.CreateParams U) :
    messages d !! next_uuid d = None → Message.cp_AuthorID p = u → is_Some (c_users d !! u) →
    (∀ t, Message.cp_ReplyToID p = Some t → live_in t (Message.cp_ChannelID p) d = true) →
    valid_content (Message.cp_Content p) → may_post u p d →
    chat_step u d (put_message (next_uuid d) (new_row p (c_now d)) (tick d))
| step_edit d id r content :
    messages d !! id = Some r → is_live r = true → r_author r = u → valid_content content →
    chat_step u d (put_message id (set_content content (c_now d) r) d)
| step_delete d id r :
    messages d !! id = Some r → is_live r = true →
    (r_author r = u ∨ granted u (r_channel r) ManageMessages) →
    chat_step u d (put_message id (set_deleted u (c_now d) r) d)
| step_pin d id r b :
    messages d !! id = Some r → is_live r = true → granted u (r_channel r) ManageMessages →
    chat_step u d (put_message id (set_pinned b (c_now d) r) d)
| step_thread d ch parent name :
    threads d !! next_uuid d = None → ¬ has_thread parent d → live_in parent ch d = true →
    granted u ch CreateThreads → 1 ≤ RuneCountInString name ≤ 100 →
    chat_step u d (set_posts (on_threads <[next_uuid d :=
      Thread.mkThread (next_uuid d) ch parent name false false (c_now d) (c_now d)]>) (tick d))
| step_thread_update d id t p :
    threads d !! id = Some t → granted u (Thread.ChannelID t) ManageChannels →
    (Thread.Locked t = true → Thread.up_Locked p = Some false) →
    chat_step u d (set_posts (on_threads <[id := set_thread p (c_now d) t]>) d)
| step_link d ids m r :
    messages d !! m = Some r → r_author r = u →
    chat_step u d (set_posts (on_attachments (fmap (λ a, if linkable ids u a then link m a else a))) d)
| step_react d m r (e : emoji_key U) :
    reactions d !! next_uuid d = None → messages d !! m = Some r → is_live r = true →
    granted u (r_channel r) AddReactions → is_Some (c_users d !! u) → ¬ reacted m u e d →
    (∀ i, e.1 = Some i → is_Some (emoji d !! i)) → (is_Some e.1 ↔ e.2 = None) →
    (∀ s, e.2 = Some s → plain_emoji s) →
    chat_step u d (set_posts (on_reactions <[next_uuid d := mkReactionRow m u e.1 e.2 (c_now d)]>) (tick d))
| step_unreact d m (e : emoji_key U) :
    chat_step u d (set_posts (on_reactions (filter (λ p, is_reaction m u e p.2 = false))) d)
| step_ack d ch m last :
    live_in m ch d = true → granted u ch ViewChannels →
    last = match read_states d !! (u, ch) with
           | Some rs => advance (ReadState.LastMessageID rs) m d | None => Some m end →
    chat_step u d (set_posts (on_read <[(u, ch) := ReadState.mkReadState u ch last 0 (c_now d)]>) d)
| step_dm d v :
    find_dm u v d = None → u ≠ v → known [u; v] d → dm_channels d !! next_uuid d = None →
    chat_step u d (put_participants (next_uuid d) [u; v]
      (put_dm (Dm.mkChannel (next_uuid d) TypeDM None None (c_now d) (c_now d)) (tick d)))
| step_group d name l :
    NoDup l → (length l ≤ 10)%nat → u ∈ l → known l d → dm_channels d !! next_uuid d = None →
    chat_step u d (put_participants (next_uuid d) l
      (put_dm (Dm.mkChannel (next_uuid d) TypeGroupDM (Some name) (Some u) (c_now d) (c_now d)) (tick d)))
| step_add d ch c v :
    dm_channels d !! ch = Some c → Dm.Type_ c = TypeGroupDM → Dm.OwnerID c = Some u →
    is_participant ch u d = true → is_participant ch v d = false → (group_size (c_dms d) ch < 10)%nat →
    is_Some (c_users d !! v) →
    chat_step u d (put_participant ch d v)
| step_remove d ch c v :
    dm_channels d !! ch = Some c → Dm.Type_ c = TypeGroupDM → is_participant ch u d = true →
    (v = u ∨ Dm.OwnerID c = Some u) →
    chat_step u d (set_dms (on_participants (delete (ch, v))) d)
| step_register d dev label key :
    devices d !! next_uuid d = None → device_of u dev d = None → is_Some (c_users d !! u) →
    len key = 32 → Z.of_nat (device_count (c_keys d) u) < maxDevices →
    chat_step u d (set_keys (on_devices <[next_uuid d :=
      Key.mkDevice (next_uuid d) u dev label key (c_now d) (c_now d)]>) (tick d))
| step_unregister d dev :
    owns u dev d → chat_step u d (set_keys (drop_device dev) d)
| step_identity d dev x key :
    devices d !! dev = Some x → Key.UserID x = u → len key = 32 →
    chat_step u d (set_keys (on_devices <[dev := set_identity key (c_now d) x]>) d)
| step_spk d dev n key signature :
    owns u dev d → spks d !! next_uuid d = None → spk_free dev n d → len key = 32 → len signature = 64 →
    chat_step u d (set_keys (λ k, on_spks <[next_uuid d :=
      Key.mkSignedPreKey (next_uuid d) dev n key signature true (c_now d)]>
        (on_spks (fmap (deactivate dev)) k)) (tick d))
| step_opk d dev k :
    owns u dev d → opks d !! next_uuid d = None → opk_free dev (E2ee.KeyID k) d →
    len (E2ee.PublicKey k) = 32 →
    chat_step u d (add_opk (next_uuid d) dev k (tick d))
| step_take d dev x k :
    devices d !! dev = Some x → is_Some (active_spk dev d) → next_opk dev d = Some k →
    chat_step u d (set_keys (on_opks (delete (Key.opk_ID k))) d)
| step_message_key d m r dev key :
    messages d !! m = Some r → r_author r = u → is_Some (devices d !! dev) →
    message_keys d !! (m, dev) = None →
    chat_step u d (set_keys (on_message_keys <[(m, dev) := key]>) d).

(** Requests of any number of callers, as time goes by. *)
Definition set_now (t : Z) d : chat U :=
  mkChat t (c_seq d) (c_users d) (c_channels d) (c_posts d) (c_dms d) (c_keys d).
Definition any_step d d' : Prop := (∃ u, chat_step u d d') ∨ ∃ t, c_now d ≤ t ∧ d' = set_now t d.
Definition chat_history : relation (chat U) := rtc any_step.

(** ** The invariant of the tables *)
Record posts_ok (users : gmap U (User.User U)) (p : posts U) : Prop := mkPostsOk {
  message_author : map_Forall (λ _ r, is_Some (users !! r_author r)) (p_messages p);
  message_reply : map_Forall (λ _ r, ∀ t, r_reply r = Some t →
    ∃ r', p_messages p !! t = Some r' ∧ r_channel r' = r_channel r) (p_messages p);
  message_thread : map_Forall (λ _ r, ∀ t, r_thread r = Some t →
    ∃ x, p_threads p !! t = Some x ∧ Thread.ChannelID x = r_channel r) (p_messages p);
  thread_parent : map_Forall (λ id t, Thread.ID t = id ∧
    ∃ r, p_messages p !! Thread.ParentMessageID t = Some r ∧ r_channel r = Thread.ChannelID t) (p_threads p);
  thread_unique : ∀ i j t t', p_threads p !! i = Some t → p_threads p !! j = Some t' →
    Thread.ParentMessageID t = Thread.ParentMessageID t' → i = j;
  attachment_linked : map_Forall (λ _ a, ∀ m, Attachment.MessageID a = Some m →
    ∃ r, p_messages p !! m = Some r ∧ r_author r = Attachment.UploaderID a) (p_attachments p);
  reaction_refs : map_Forall (λ _ x, is_Some (p_messages p !! x_message x) ∧ is_Some (users !! x_user x) ∧
    (∀ e, x_emoji x = Some e → is_Some (p_emoji p !! e)) ∧ (is_Some (x_emoji x) ↔ x_unicode x = None))
    (p_reactions p);
  reaction_plain : map_Forall (λ _ x, ∀ s, x_unicode x = Some s → plain_emoji s) (p_reactions p);
  reaction_unique : ∀ i j x y, p_reactions p !! i = Some x → p_reactions p !! j = Some y →
    x_message x = x_message y → x_user x = x_user y →
    index_key (reaction_emoji x) = index_key (reaction_emoji y) → i = j;
  read_position : map_Forall (λ k rs, ∀ m, ReadState.LastMessageID rs = Some m →
    ∃ r, p_messages p !! m = Some r ∧ r_channel r = k.2) (p_read p) }.

Record dms_ok (users : gmap U (User.User U)) (x : dms U) : Prop := mkDmsOk {
  dm_refs : ∀ ch u, in_dm x ch u → is_Some (d_channels x !! ch) ∧ is_Some (users !! u);
  dm_kind : map_Forall (λ id c, Dm.ID c = id ∧
    ((Dm.Type_ c = TypeDM ∧ Dm.OwnerID c = None ∧ (group_size x id ≤ 2)%nat) ∨
     (Dm.Type_ c = TypeGroupDM ∧ is_Some (Dm.Name c) ∧ is_Some (Dm.OwnerID c) ∧ (group_size x id ≤ 10)%nat)))
    (d_channels x);
  dm_unique : ∀ i j c c' u v, d_channels x !! i = Some c → d_channels x !! j = Some c' →
    Dm.Type_ c = TypeDM → Dm.Type_ c' = TypeDM → u ≠ v →
    in_dm x i u → in_dm x i v → in_dm x j u → in_dm x j v → i = j }.

Record keys_ok (users : gmap U (User.User U)) (msgs : gmap U (message_row U)) (k : keys U) : Prop := mkKeysOk {
  device_row : map_Forall (λ id x, Key.ID x = id ∧ is_Some (users !! Key.UserID x) ∧
    len (Key.IdentityKey x) = 32) (k_devices k);
  device_unique : ∀ i j x y, k_devices k !! i = Some x → k_devices k !! j = Some y →
    Key.UserID x = Key.UserID y → Key.DeviceID x = Key.DeviceID y → i = j;
  device_limit : ∀ u, Z.of_nat (device_count k u) ≤ Z.max 0 maxDevices;
  spk_row : map_Forall (λ id s, Key.spk_ID s = id ∧ is_Some (k_devices k !! Key.spk_DeviceID s) ∧
    len (Key.spk_PublicKey s) = 32 ∧ len (Key.spk_Signature s) = 64) (k_spks k);
  spk_unique : ∀ i j s t, k_spks k !! i = Some s → k_spks k !! j = Some t →
    Key.spk_DeviceID s = Key.spk_DeviceID t → Key.spk_KeyID s = Key.spk_KeyID t → i = j;
  spk_one_active : ∀ i j s t, k_spks k !! i = Some s → k_spks k !! j = Some t →
    Key.spk_Active s = true → Key.spk_Active t = true → Key.spk_DeviceID s = Key.spk_DeviceID t → i = j;
  opk_row : map_Forall (λ id o, Key.opk_ID o = id ∧ is_Some (k_devices k !! Key.opk_DeviceID o) ∧
    len (Key.opk_PublicKey o) = 32) (k_opks k);
  opk_unique : ∀ i j o p, k_opks k !! i = Some o → k_opks k !! j = Some p →
    Key.opk_DeviceID o = Key.opk_DeviceID p → Key.opk_KeyID o = Key.opk_KeyID p → i = j;
  message_key_refs : ∀ m dev, is_Some (k_message_keys k !! (m, dev)) →
    is_Some (msgs !! m) ∧ is_Some (k_devices k !! dev) }.

Record chat_ok d : Prop := mkChatOk {
  chat_posts : posts_ok (c_users d) (c_posts d);
  chat_dms : dms_ok (c_users d) (c_dms d);
  chat_keys : keys_ok (c_users d) (messages d) (c_keys d) }.
End steps.
