(* ===== verification/ChatInv.v ===== *)
(** * The steps of the conversations keep their invariant, and what it gives

    Posts, direct conversations and keys, table by table; then the invariant over histories:
    messages are edited by their author only and stay deleted, one-time pre-keys that were
    handed out never come back. *)
From stdpp Require Import sorting.
From S2P Require Import Prelude GoStd Platform Permission Validate Postgres Domain GuildTables.
From S2P Require Import ChatTables DmTables ChatRepo ChatModel ChatSpec.
Open Scope Z_scope.

(** ** Posts *)
Section posts.
Context {U : Type} `{UUIDLib U}.
Implicit Types (users : gmap U (User.User U)) (p : posts U) (id m : U) (M : gmap U (message_row U)).

(** Every row stays, with its author and its channel. *)
Definition grows M M' : Prop := ∀ m r, M !! m = Some r →
  ∃ r', M' !! m = Some r' ∧ r_author r' = r_author r ∧ r_channel r' = r_channel r.
Lemma grows_insert M id r : M !! id = None → grows M (<[id := r]> M).
Proof. intros Hn m r0 Hm. exists r0. rewrite lookup_insert_ne by congruence. done. Qed.
Lemma grows_update M id r r' :
  M !! id = Some r → r_author r' = r_author r → r_channel r' = r_channel r → grows M (<[id := r']> M).
Proof.
  intros Hr Ha Hc m r0 Hm. destruct (decide (id = m)) as [->|].
  - exists r'. rewrite lookup_insert_eq. by simplify_eq.
  - exists r0. by rewrite lookup_insert_ne.
Qed.

Lemma posts_grow users p M' :
  posts_ok users p → grows (p_messages p) M' →
  map_Forall (λ _ r, is_Some (users !! r_author r)) M' →
  map_Forall (λ _ r, ∀ t, r_reply r = Some t → ∃ r', M' !! t = Some r' ∧ r_channel r' = r_channel r) M' →
  map_Forall (λ _ r, ∀ t, r_thread r = Some t →
    ∃ x, p_threads p !! t = Some x ∧ Thread.ChannelID x = r_channel r) M' →
  posts_ok users (on_messages (λ _, M') p).
Proof.
  intros Hok Hg Ha Hr Ht. split; simpl; try done; try apply Hok.
  - intros i t Hi. destruct (thread_parent _ _ Hok i t Hi) as (? & r & Hp & Hc). split; [done|].
    apply Hg in Hp as (r' & ? & _ & ?). exists r'. split; [done|congruence].
  - intros i a Hi m Hm. destruct (attachment_linked _ _ Hok i a Hi m Hm) as (r & Hp & Hau).
    apply Hg in Hp as (r' & ? & ? & _). exists r'. split; [done|congruence].
  - intros i x Hi. destruct (reaction_refs _ _ Hok i x Hi) as ((r & Hp) & Hx). split; [|done].
    apply Hg in Hp as (r' & ? & _). by exists r'.
  - intros k rs Hk m Hm. destruct (read_position _ _ Hok k rs Hk m Hm) as (r & Hp & Hc).
    apply Hg in Hp as (r' & ? & _ & ?). exists r'. split; [done|congruence].
Qed.

Lemma posts_insert users p id r :
  posts_ok users p → p_messages p !! id = None → is_Some (users !! r_author r) →
  (∀ t, r_reply r = Some t → ∃ r', p_messages p !! t = Some r' ∧ r_channel r' = r_channel r) →
  (∀ t, r_thread r = Some t → ∃ x, p_threads p !! t = Some x ∧ Thread.ChannelID x = r_channel r) →
  posts_ok users (on_messages <[id := r]> p).
Proof.
  intros Hok Hn Ha Hr Ht. pose proof (grows_insert (p_messages p) id r Hn) as Hg.
  apply (posts_grow users p (<[id := r]> (p_messages p))); [done..| | |].
  - apply map_Forall_insert_2; [done|apply Hok].
  - assert (Hlift : ∀ t ch, (∃ r', p_messages p !! t = Some r' ∧ r_channel r' = ch) →
      ∃ r', <[id := r]> (p_messages p) !! t = Some r' ∧ r_channel r' = ch).
    { intros t ch (r' & Hr' & Hc). apply Hg in Hr' as (r2 & ? & _ & ?). exists r2. split; [done|congruence]. }
    apply map_Forall_insert_2; [auto|]. intros i r0 Hi t Hrt. apply Hlift.
    by apply (message_reply _ _ Hok i r0 Hi).
  - apply map_Forall_insert_2; [done|apply Hok].
Qed.
Lemma posts_update users p id r r' :
  posts_ok users p → p_messages p !! id = Some r → r_author r' = r_author r →
  r_channel r' = r_channel r → r_reply r' = r_reply r → r_thread r' = r_thread r →
  posts_ok users (on_messages <[id := r']> p).
Proof.
  intros Hok Hr Ha Hc Hrep Hth. pose proof (grows_update _ _ _ r' Hr Ha Hc) as Hg.
  apply (posts_grow users p (<[id := r']> (p_messages p))); [done..| | |].
  - apply map_Forall_insert_2; [|apply Hok]. rewrite Ha. by apply (message_author _ _ Hok id).
  - assert (Hlift : ∀ t ch, (∃ r', p_messages p !! t = Some r' ∧ r_channel r' = ch) →
      ∃ r2, <[id := r']> (p_messages p) !! t = Some r2 ∧ r_channel r2 = ch).
    { intros t ch (r0 & Hr0 & Hc0). apply Hg in Hr0 as (r2 & ? & _ & ?). exists r2. split; [done|congruence]. }
    apply map_Forall_insert_2.
    + intros t Ht. rewrite Hc. apply Hlift. apply (message_reply _ _ Hok id r Hr). congruence.
    + intros i r0 Hi t Hrt. apply Hlift. by apply (message_reply _ _ Hok i r0 Hi).
  - apply map_Forall_insert_2; [|apply Hok]. intros t Ht. rewrite Hc.
    apply (message_thread _ _ Hok id r Hr). congruence.
Qed.

Lemma posts_thread users p id t r :
  posts_ok users p → p_threads p !! id = None → Thread.ID t = id →
  p_messages p !! Thread.ParentMessageID t = Some r → r_channel r = Thread.ChannelID t →
  map_Forall (λ _ x, Thread.ParentMessageID x ≠ Thread.ParentMessageID t) (p_threads p) →
  posts_ok users (on_threads <[id := t]> p).
Proof.
  intros Hok Hn Hid Hr Hc Hu. split; simpl; try apply Hok.
  - intros i r0 Hi s Hs. destruct (message_thread _ _ Hok i r0 Hi s Hs) as (x & Hx & ?).
    exists x. rewrite lookup_insert_ne by congruence. done.
  - apply map_Forall_insert_2; [eauto|apply Hok].
  - intros i j t1 t2 H1 H2 He.
    apply lookup_insert_Some in H1 as [[<- <-]|[? H1]]; apply lookup_insert_Some in H2 as [[<- <-]|[? H2]]; try done.
    + by destruct (Hu j t2 H2).
    + by destruct (Hu i t1 H1).
    + by eapply (thread_unique _ _ Hok).
Qed.
Lemma posts_thread_update users p id t q now :
  posts_ok users p → p_threads p !! id = Some t → posts_ok users (on_threads <[id := set_thread q now t]> p).
Proof.
  intros Hok Ht. split; simpl; try apply Hok.
  - intros i r0 Hi s Hs. destruct (message_thread _ _ Hok i r0 Hi s Hs) as (x & Hx & Hc).
    destruct (decide (id = s)) as [->|]; [|exists x; by rewrite lookup_insert_ne].
    eexists. rewrite lookup_insert_eq. split; [done|]. by simplify_eq.
  - apply map_Forall_insert_2; [|apply Hok]. by apply (thread_parent _ _ Hok id t).
  - assert (Hp : ∀ i x, <[id := set_thread q now t]> (p_threads p) !! i = Some x →
      ∃ x', p_threads p !! i = Some x' ∧ Thread.ParentMessageID x' = Thread.ParentMessageID x).
    { intros i x [[<- <-]|[? Hi]]%lookup_insert_Some; [by exists t|by exists x]. }
    intros i j t1 t2 (x1 & ? & ?)%Hp (x2 & ? & ?)%Hp ?. eapply (thread_unique _ _ Hok); [done..|congruence].
Qed.
Lemma posts_link users p ids u m r :
  posts_ok users p → p_messages p !! m = Some r → r_author r = u →
  posts_ok users (on_attachments (fmap (λ a, if linkable ids u a then link m a else a)) p).
Proof.
  intros Hok Hr Hu. split; simpl; try apply Hok.
  intros i a Hi. apply lookup_fmap_Some in Hi as (a0 & <- & Hi).
  destruct (linkable ids u a0) eqn:El; [|by apply (attachment_linked _ _ Hok i)].
  intros m' [= <-]. exists r. split; [done|]. simpl. unfold linkable in El.
  apply andb_true_iff in El as [[_ E]%andb_true_iff _]. by apply bool_decide_eq_true in E as ->.
Qed.
Lemma posts_react users p id x :
  posts_ok users p → p_reactions p !! id = None → is_Some (p_messages p !! x_message x) →
  is_Some (users !! x_user x) → (∀ e, x_emoji x = Some e → is_Some (p_emoji p !! e)) →
  (is_Some (x_emoji x) ↔ x_unicode x = None) → (∀ s, x_unicode x = Some s → plain_emoji s) →
  ¬ map_Exists (λ _ y, x_message y = x_message x ∧ x_user y = x_user x ∧
      index_key (reaction_emoji y) = index_key (reaction_emoji x)) (p_reactions p) →
  posts_ok users (on_reactions <[id := x]> p).
Proof.
  intros Hok Hn Hm Hu He Hex Hpl Huniq. split; simpl; try apply Hok.
  - apply map_Forall_insert_2; [done|apply Hok].
  - apply map_Forall_insert_2; [done|apply Hok].
  - assert (Hno : ∀ j y, p_reactions p !! j = Some y → x_message y = x_message x → x_user y = x_user x →
      index_key (reaction_emoji y) ≠ index_key (reaction_emoji x)).
    { intros j y Hy H1 H2 H3. apply Huniq. by exists j, y. }
    intros i j y z Hi Hj H1 H2 H3.
    apply lookup_insert_Some in Hi as [[<- <-]|[? Hi]]; apply lookup_insert_Some in Hj as [[<- <-]|[? Hj]]; try done.
    + by destruct (Hno j z Hj).
    + by destruct (Hno i y Hi).
    + by eapply (reaction_unique _ _ Hok).
Qed.
Lemma posts_unreact users p (f : U * reaction_row U → Prop) `{!∀ x, Decision (f x)} :
  posts_ok users p → posts_ok users (on_reactions (filter f) p).
Proof.
  intros Hok. split; simpl; try apply Hok.
  - intros i x Hi. apply map_lookup_filter_Some in Hi as [Hi _]. by apply (reaction_refs _ _ Hok i).
  - intros i x Hi. apply map_lookup_filter_Some in Hi as [Hi _]. by apply (reaction_plain _ _ Hok i).
  - intros i j x y Hi Hj. apply map_lookup_filter_Some in Hi as [Hi _], Hj as [Hj _].
    by apply (reaction_unique _ _ Hok).
Qed.
Lemma posts_read users p k rs :
  posts_ok users p →
  (∀ m, ReadState.LastMessageID rs = Some m → ∃ r, p_messages p !! m = Some r ∧ r_channel r = k.2) →
  posts_ok users (on_read <[k := rs]> p).
Proof. intros Hok Hrs. split; simpl; try apply Hok. apply map_Forall_insert_2; [done|apply Hok]. Qed.
End posts.

(** ** Direct conversations *)
Section dms.
Context {U : Type} `{UUIDLib U}.
Implicit Types (users : gmap U (User.User U)) (x : dms U) (ch u v : U).

Lemma in_dm_insert x ch now v ch' u :
  in_dm (on_participants <[(ch, v) := now]> x) ch' u ↔ in_dm x ch' u ∨ (ch' = ch ∧ u = v).
Proof.
  unfold in_dm. simpl. destruct (decide ((ch, v) = (ch', u))) as [[= -> ->]|Hne].
  - rewrite lookup_insert_eq. split; [by right|by eauto].
  - rewrite lookup_insert_ne by done. naive_solver.
Qed.
Lemma group_size_insert x ch now v ch' :
  ¬ in_dm x ch v →
  group_size (on_participants <[(ch, v) := now]> x) ch' =
    if decide (ch = ch') then S (group_size x ch') else group_size x ch'.
Proof.
  intros Hn. unfold group_size. simpl. destruct (decide (ch = ch')) as [->|Hne].
  - rewrite map_filter_insert_True by done. apply map_size_insert_None.
    apply map_lookup_filter_None_2. left. by apply eq_None_not_Some.
  - by rewrite map_filter_insert_not by (intros; simpl; congruence).
Qed.
Lemma group_size_delete x ch v ch' :
  (group_size (on_participants (delete (ch, v)) x) ch' ≤ group_size x ch')%nat.
Proof.
  unfold group_size. simpl. apply map_subseteq_size, map_filter_subseteq_mono, delete_subseteq.
Qed.

Definition put_all ch now (l : list U) x : dms U :=
  foldl (λ x u, on_participants <[(ch, u) := now]> x) x l.
Lemma put_all_spec ch now l x :
  NoDup l → (∀ u, u ∈ l → ¬ in_dm x ch u) →
  d_channels (put_all ch now l x) = d_channels x ∧
  (∀ ch' u, in_dm (put_all ch now l x) ch' u ↔ in_dm x ch' u ∨ (ch' = ch ∧ u ∈ l)) ∧
  ∀ ch', group_size (put_all ch now l x) ch' =
    (group_size x ch' + if decide (ch = ch') then length l else 0)%nat.
Proof.
  revert x. induction l as [|v l IH]; intros x Hnd Hn; simpl.
  { split_and!; [done|set_solver|]. intros ch'. by destruct (decide (ch = ch')). }
  apply NoDup_cons in Hnd as [Hv Hnd].
  destruct (IH (on_participants <[(ch, v) := now]> x)) as (Hc & Hi & Hg); [done| |].
  { intros u Hu. rewrite in_dm_insert. intros [?|[_ ->]]; [|done]. by apply (Hn u); [apply list_elem_of_further|]. }
  split_and!; [done| |].
  - intros ch' u. rewrite Hi, in_dm_insert. set_solver.
  - intros ch'. rewrite Hg, group_size_insert by (apply Hn; apply list_elem_of_here).
    destruct (decide (ch = ch')); lia.
Qed.

Lemma dms_create users x c now l :
  dms_ok users x → d_channels x !! Dm.ID c = None → NoDup l → Forall (λ u, is_Some (users !! u)) l →
  ((Dm.Type_ c = TypeDM ∧ Dm.OwnerID c = None ∧ (length l ≤ 2)%nat) ∨
   (Dm.Type_ c = TypeGroupDM ∧ is_Some (Dm.Name c) ∧ is_Some (Dm.OwnerID c) ∧ (length l ≤ 10)%nat)) →
  (Dm.Type_ c = TypeDM → ∀ j c' u v, d_channels x !! j = Some c' → Dm.Type_ c' = TypeDM → u ≠ v →
     u ∈ l → v ∈ l → ¬ (in_dm x j u ∧ in_dm x j v)) →
  dms_ok users (put_all (Dm.ID c) now l (on_dm_channels <[Dm.ID c := c]> x)).
Proof.
  intros Hok Hn Hnd Hu Hk Huniq. set (id := Dm.ID c) in *. set (x1 := on_dm_channels <[id := c]> x).
  assert (Hno : ∀ u, ¬ in_dm x id u) by (intros u Hi; destruct (dm_refs _ _ Hok _ _ Hi) as [[c0 Hc0] _]; congruence).
  assert (Hg0 : group_size x id = 0%nat).
  { unfold group_size. rewrite map_empty_filter_2; [apply map_size_empty|]. intros [ch u] t Ht Hch.
    simpl in Hch. subst ch. apply (Hno u). by exists t. }
  destruct (put_all_spec id now l x1) as (Hc & Hi & Hg); [done|intros u _; exact (Hno u)|].
  assert (Hi' : ∀ ch u, in_dm (put_all id now l x1) ch u ↔ in_dm x ch u ∨ (ch = id ∧ u ∈ l)) by done.
  clear Hi. split; rewrite ?Hc.
  - intros ch u. rewrite Hi'. intros [Hi|[-> Hin]].
    + destruct (dm_refs _ _ Hok _ _ Hi) as [[c' Hc'] ?]. split; [|done]. unfold x1. simpl.
      rewrite lookup_insert_ne by congruence. by exists c'.
    + unfold x1. simpl. rewrite lookup_insert_eq. split; [done|]. by eapply Forall_forall in Hu.
  - unfold x1. simpl. apply map_Forall_insert_2.
    + split; [done|]. rewrite Hg, decide_True by done. change (group_size x1 id) with (group_size x id).
      rewrite Hg0. exact Hk.
    + intros i c' Hc'. destruct (dm_kind _ _ Hok i c' Hc') as [? Hk']. split; [done|].
      rewrite Hg, decide_False by congruence. change (group_size x1 i) with (group_size x i).
      by rewrite Nat.add_0_r.
  - intros i j c1 c2 u v H1 H2 Ht1 Ht2 Hne. rewrite !Hi'. intros A1 A2 B1 B2.
    unfold x1 in H1, H2. simpl in H1, H2.
    apply lookup_insert_Some in H1 as [[<- <-]|[Hne1 H1]]; apply lookup_insert_Some in H2 as [[<- <-]|[Hne2 H2]];
      [done|exfalso|exfalso|].
    + destruct A1 as [?|[_ A1]]; [by eapply Hno|]. destruct A2 as [?|[_ A2]]; [by eapply Hno|].
      destruct B1 as [B1|[? _]]; [|congruence]. destruct B2 as [B2|[? _]]; [|congruence].
      by eapply (Huniq Ht1 j c2 u v).
    + destruct B1 as [?|[_ B1]]; [by eapply Hno|]. destruct B2 as [?|[_ B2]]; [by eapply Hno|].
      destruct A1 as [A1|[? _]]; [|congruence]. destruct A2 as [A2|[? _]]; [|congruence].
      by eapply (Huniq Ht2 i c1 u v).
    + destruct A1 as [A1|[? _]]; [|congruence]. destruct A2 as [A2|[? _]]; [|congruence].
      destruct B1 as [B1|[? _]]; [|congruence]. destruct B2 as [B2|[? _]]; [|congruence].
      by eapply (dm_unique _ _ Hok).
Qed.
Lemma dms_add users x ch c v now :
  dms_ok users x → d_channels x !! ch = Some c → Dm.Type_ c = TypeGroupDM → ¬ in_dm x ch v →
  is_Some (users !! v) → (group_size x ch < 10)%nat →
  dms_ok users (on_participants <[(ch, v) := now]> x).
Proof.
  intros Hok Hc Ht Hn Hv Hs. assert (Hne : TypeGroupDM ≠ TypeDM) by done. split.
  - intros ch' u [?|[-> ->]]%in_dm_insert; [by apply (dm_refs _ _ Hok)|simpl; eauto].
  - intros i c' Hi. destruct (dm_kind _ _ Hok i c' Hi) as [? Hk]. split; [done|].
    rewrite group_size_insert by done. destruct (decide (ch = i)) as [->|]; [|done]. simpl in Hi.
    destruct Hk as [(? & _)|(? & ? & ? & _)]; [congruence|right]. by split_and!.
  - intros i j c1 c2 a b H1 H2 Ht1 Ht2 Hab. simpl in H1, H2.
    assert (i ≠ ch) by congruence. assert (j ≠ ch) by congruence.
    rewrite !in_dm_insert. intros [?|[? _]]; [|done]. intros [?|[? _]]; [|done].
    intros [?|[? _]]; [|done]. intros [?|[? _]]; [|done].
    by apply (dm_unique _ _ Hok i j c1 c2 a b).
Qed.
Lemma dms_remove users x ch v :
  dms_ok users x → dms_ok users (on_participants (delete (ch, v)) x).
Proof.
  intros Hok. assert (Hi : ∀ ch' u, in_dm (on_participants (delete (ch, v)) x) ch' u → in_dm x ch' u).
  { intros ch' u [t Ht]. simpl in Ht. apply lookup_delete_Some in Ht as [_ Ht]. by exists t. }
  split.
  - intros ch' u ?%Hi. by apply (dm_refs _ _ Hok).
  - intros i c Hc. destruct (dm_kind _ _ Hok i c Hc) as [? Hk]. split; [done|].
    pose proof (group_size_delete x ch v i).
    destruct Hk as [(? & ? & ?)|(? & ? & ? & ?)]; [left|right]; split_and!; try done; lia.
  - intros i j c1 c2 a b H1 H2 Ht1 Ht2 Hab ?%Hi ?%Hi ?%Hi ?%Hi.
    by apply (dm_unique _ _ Hok i j c1 c2 a b).
Qed.
End dms.

(** ** Devices and their keys *)
Section keys.
Context {U : Type} `{UUIDLib U}.
Context (maxDevices : Z) (users : gmap U (User.User U)) (msgs : gmap U (message_row U)).
Implicit Types (k : keys U) (id dev u : U).
Abbreviation keys_ok := (keys_ok maxDevices users msgs).

Lemma keys_device k id x :
  keys_ok k → k_devices k !! id = None → Key.ID x = id → is_Some (users !! Key.UserID x) →
  len (Key.IdentityKey x) = 32 →
  map_Forall (λ _ y, ¬ (Key.UserID y = Key.UserID x ∧ Key.DeviceID y = Key.DeviceID x)) (k_devices k) →
  Z.of_nat (device_count k (Key.UserID x)) < maxDevices →
  keys_ok (on_devices <[id := x]> k).
Proof.
  intros Hok Hn Hid Hu Hlen Huniq Hmax.
  assert (Hup : ∀ dev, is_Some (k_devices k !! dev) → is_Some (<[id := x]> (k_devices k) !! dev)).
  { intros dev Hd. rewrite lookup_insert_is_Some. destruct (decide (id = dev)); auto. }
  split; simpl; try apply Hok.
  - apply map_Forall_insert_2; [done|apply Hok].
  - intros i j y z Hi Hj H1 H2.
    apply lookup_insert_Some in Hi as [[<- <-]|[? Hi]]; apply lookup_insert_Some in Hj as [[<- <-]|[? Hj]]; try done.
    + by destruct (Huniq j z Hj).
    + by destruct (Huniq i y Hi).
    + by apply (device_unique _ _ _ _ Hok i j y z).
  - intros u. unfold device_count. simpl. destruct (decide (Key.UserID x = u)) as [<-|Hne].
    + rewrite map_filter_insert_True by done.
      rewrite map_size_insert_None by (apply map_lookup_filter_None_2; by left).
      change (size (filter (λ p, Key.UserID p.2 = Key.UserID x) (k_devices k)))
        with (device_count k (Key.UserID x)). lia.
    + rewrite map_filter_insert_not' by naive_solver. apply (device_limit _ _ _ _ Hok u).
  - intros i s Hi. destruct (spk_row _ _ _ _ Hok i s Hi) as (? & ? & ?). auto.
  - intros i o Hi. destruct (opk_row _ _ _ _ Hok i o Hi) as (? & ? & ?). auto.
  - intros m dev Hm. destruct (message_key_refs _ _ _ _ Hok m dev Hm). auto.
Qed.
Lemma keys_identity k id x key now :
  keys_ok k → k_devices k !! id = Some x → len key = 32 →
  keys_ok (on_devices <[id := set_identity key now x]> k).
Proof.
  intros Hok Hx Hlen.
  assert (Hup : ∀ dev, is_Some (k_devices k !! dev) → is_Some (<[id := set_identity key now x]> (k_devices k) !! dev)).
  { intros dev Hd. rewrite lookup_insert_is_Some. destruct (decide (id = dev)); auto. }
  assert (Hsame : ∀ i y, <[id := set_identity key now x]> (k_devices k) !! i = Some y →
    ∃ y', k_devices k !! i = Some y' ∧ Key.UserID y' = Key.UserID y ∧ Key.DeviceID y' = Key.DeviceID y).
  { intros i y [[<- <-]|[? Hi]]%lookup_insert_Some; [by exists x|by exists y]. }
  split; simpl; try apply Hok.
  - apply map_Forall_insert_2; [|apply Hok]. by destruct (device_row _ _ _ _ Hok id x Hx) as (? & ? & _).
  - intros i j y z (y' & ? & ? & ?)%Hsame (z' & ? & ? & ?)%Hsame ? ?.
    apply (device_unique _ _ _ _ Hok i j y' z'); congruence.
  - intros u. etrans; [|apply (device_limit _ _ _ _ Hok u)]. apply inj_le. unfold device_count. simpl.
    destruct (decide (Key.UserID x = u)) as [<-|Hne].
    + rewrite map_filter_insert_True by done.
      erewrite map_size_insert_Some; [done|]. exists x. by apply map_lookup_filter_Some.
    + rewrite map_filter_insert_not'; [done|done|]. naive_solver.
  - intros i s Hi. destruct (spk_row _ _ _ _ Hok i s Hi) as (? & ? & ?). auto.
  - intros i o Hi. destruct (opk_row _ _ _ _ Hok i o Hi) as (? & ? & ?). auto.
  - intros m dev Hm. destruct (message_key_refs _ _ _ _ Hok m dev Hm). auto.
Qed.
Lemma keys_drop k id : keys_ok k → keys_ok (drop_device id k).
Proof.
  intros Hok. unfold drop_device.
  assert (Hup : ∀ dev, is_Some (k_devices k !! dev) → dev ≠ id → is_Some (delete id (k_devices k) !! dev)).
  { intros dev Hd Hne. by rewrite lookup_delete_ne. }
  split; simpl.
  - intros i x Hi. apply lookup_delete_Some in Hi as [_ Hi]. by apply (device_row _ _ _ _ Hok i).
  - intros i j x y Hi Hj. apply lookup_delete_Some in Hi as [_ Hi], Hj as [_ Hj].
    by apply (device_unique _ _ _ _ Hok).
  - intros u. etrans; [|apply (device_limit _ _ _ _ Hok u)]. apply inj_le.
    apply map_subseteq_size, map_filter_subseteq_mono, delete_subseteq.
  - intros i s Hi. apply map_lookup_filter_Some in Hi as [Hi Hne].
    destruct (spk_row _ _ _ _ Hok i s Hi) as (? & ? & ?). auto.
  - intros i j s t Hi Hj. apply map_lookup_filter_Some in Hi as [Hi _], Hj as [Hj _].
    by apply (spk_unique _ _ _ _ Hok).
  - intros i j s t Hi Hj. apply map_lookup_filter_Some in Hi as [Hi _], Hj as [Hj _].
    by apply (spk_one_active _ _ _ _ Hok).
  - intros i o Hi. apply map_lookup_filter_Some in Hi as [Hi Hne].
    destruct (opk_row _ _ _ _ Hok i o Hi) as (? & ? & ?). auto.
  - intros i j o p Hi Hj. apply map_lookup_filter_Some in Hi as [Hi _], Hj as [Hj _].
    by apply (opk_unique _ _ _ _ Hok).
  - intros m dev [t Ht]. apply map_lookup_filter_Some in Ht as [Ht Hne].
    destruct (message_key_refs _ _ _ _ Hok m dev); eauto.
Qed.
Lemma deactivate_same dev (s : Key.SignedPreKey U) :
  Key.spk_ID (deactivate dev s) = Key.spk_ID s ∧ Key.spk_DeviceID (deactivate dev s) = Key.spk_DeviceID s ∧
  Key.spk_KeyID (deactivate dev s) = Key.spk_KeyID s ∧
  Key.spk_PublicKey (deactivate dev s) = Key.spk_PublicKey s ∧
  Key.spk_Signature (deactivate dev s) = Key.spk_Signature s ∧
  (Key.spk_Active (deactivate dev s) = true → Key.spk_Active s = true ∧ Key.spk_DeviceID s ≠ dev).
Proof.
  unfold deactivate. destruct (bool_decide_reflect (Key.spk_DeviceID s = dev)), (Key.spk_Active s) eqn:E;
    simpl; split_and!; try done; by rewrite E.
Qed.
Lemma keys_spk k id s dev :
  keys_ok k → k_spks k !! id = None → Key.spk_ID s = id → Key.spk_DeviceID s = dev →
  is_Some (k_devices k !! dev) → len (Key.spk_PublicKey s) = 32 → len (Key.spk_Signature s) = 64 →
  map_Forall (λ _ x, ¬ (Key.spk_DeviceID x = dev ∧ Key.spk_KeyID x = Key.spk_KeyID s)) (k_spks k) →
  keys_ok (on_spks <[id := s]> (on_spks (fmap (deactivate dev)) k)).
Proof.
  intros Hok Hn Hid Hdev Hd H32 H64 Huniq.
  assert (Hold : ∀ i x, (<[id := s]> (deactivate dev <$> k_spks k)) !! i = Some x →
    (i = id ∧ x = s) ∨ (i ≠ id ∧ ∃ x0, k_spks k !! i = Some x0 ∧ x = deactivate dev x0)).
  { intros i x [[<- <-]|[? Hi]]%lookup_insert_Some; [by left|right]. split; [done|].
    apply lookup_fmap_Some in Hi as (x0 & <- & ?). by exists x0. }
  split; simpl; try apply Hok.
  - intros i x [[-> ->]|(? & x0 & Hi & ->)]%Hold; [by rewrite Hdev|].
    destruct (deactivate_same dev x0) as (-> & -> & _ & -> & -> & _). by apply (spk_row _ _ _ _ Hok i).
  - intros i j x y [[-> ->]|(? & x0 & Hi & ->)]%Hold [[-> ->]|(? & y0 & Hj & ->)]%Hold; try done;
      repeat match goal with |- context [deactivate dev ?z] =>
        let E := fresh in destruct (deactivate_same dev z) as (_ & E & E' & _); rewrite E, E'; clear E E' end.
    + rewrite Hdev. intros H1 H2. by destruct (Huniq j y0 Hj).
    + rewrite Hdev. intros H1 H2. by destruct (Huniq i x0 Hi).
    + by apply (spk_unique _ _ _ _ Hok).
  - intros i j x y [[-> ->]|(? & x0 & Hi & ->)]%Hold [[-> ->]|(? & y0 & Hj & ->)]%Hold; try done.
    + destruct (deactivate_same dev y0) as (_ & E & _ & _ & _ & Ha). rewrite E. intros _ Hy ?. apply Ha in Hy as [_ ?]. congruence.
    + destruct (deactivate_same dev x0) as (_ & E & _ & _ & _ & Ha). rewrite E. intros Hx _ ?. apply Ha in Hx as [_ ?]. congruence.
    + destruct (deactivate_same dev x0) as (_ & E & _ & _ & _ & Ha).
      destruct (deactivate_same dev y0) as (_ & E' & _ & _ & _ & Ha'). rewrite E, E'.
      intros [? _]%Ha [? _]%Ha'. by apply (spk_one_active _ _ _ _ Hok).
Qed.
Lemma keys_opk k id o :
  keys_ok k → k_opks k !! id = None → Key.opk_ID o = id → is_Some (k_devices k !! Key.opk_DeviceID o) →
  len (Key.opk_PublicKey o) = 32 →
  map_Forall (λ _ x, ¬ (Key.opk_DeviceID x = Key.opk_DeviceID o ∧ Key.opk_KeyID x = Key.opk_KeyID o)) (k_opks k) →
  keys_ok (on_opks <[id := o]> k).
Proof.
  intros Hok Hn Hid Hd H32 Huniq. split; simpl; try apply Hok.
  - apply map_Forall_insert_2; [done|apply Hok].
  - intros i j x y Hi Hj H1 H2.
    apply lookup_insert_Some in Hi as [[<- <-]|[? Hi]]; apply lookup_insert_Some in Hj as [[<- <-]|[? Hj]]; try done.
    + by destruct (Huniq j y Hj).
    + by destruct (Huniq i x Hi).
    + by apply (opk_unique _ _ _ _ Hok i j x y).
Qed.
Lemma keys_take k id : keys_ok k → keys_ok (on_opks (delete id) k).
Proof.
  intros Hok. split; simpl; try apply Hok.
  - intros i o Hi. apply lookup_delete_Some in Hi as [_ Hi]. by apply (opk_row _ _ _ _ Hok i).
  - intros i j o p Hi Hj. apply lookup_delete_Some in Hi as [_ Hi], Hj as [_ Hj].
    by apply (opk_unique _ _ _ _ Hok).
Qed.
Lemma keys_message_key k m dev key :
  keys_ok k → is_Some (msgs !! m) → is_Some (k_devices k !! dev) →
  keys_ok (on_message_keys <[(m, dev) := key]> k).
Proof.
  intros Hok Hm Hd. split; simpl; try apply Hok.
  intros m' dev'. rewrite lookup_insert_is_Some. intros [[= <- <-]|[_ ?]]; [done|by apply (message_key_refs _ _ _ _ Hok)].
Qed.
End keys.
