(* ===== verification/ChatHistory.v ===== *)
(** * Histories of the conversations

    Every step keeps the invariant, so every history does.  What a history never does: change
    the author or the channel of a message, change its text by anyone but its author, bring a
    deleted message back, or hand out a one-time pre-key twice. *)
From stdpp Require Import sorting.
From S2P Require Import Prelude GoStd Platform Permission Validate Postgres Domain GuildTables.
From S2P Require Import ChatTables DmTables ChatRepo ChatModel ChatSpec ChatInv.
Open Scope Z_scope.

(** Documented: the identifiers the database draws are distinct; here the first [n] of them. *)
Definition distinct_ids (U : Type) `{RandomUUID U} (n : nat) : Prop :=
  ∀ i j, (i < n)%nat → (j < n)%nat → gen_random_uuid (U := U) i = gen_random_uuid j → i = j.

Section history.
Context {U : Type} `{UUIDLib U} `{RandomUUID U} `{!ChatPermissions} `{PermissionLib}.
Context (granted : U → U → Z → Prop) (maxContent maxDevices : Z).
Implicit Types (d : chat U) (u v id ch dev : U).
Abbreviation step := (chat_step granted maxContent maxDevices).
Abbreviation ok := (chat_ok maxDevices).

Lemma put_participants_eq ch l d : put_participants ch l d = set_dms (put_all ch (c_now d) l) d.
Proof.
  revert d. induction l as [|u l IH]; intros d; simpl; [by destruct d|].
  rewrite IH. by destruct d.
Qed.
Lemma find_dm_None u v d id c :
  find_dm u v d = None → dm_channels d !! id = Some c → Dm.Type_ c = TypeDM →
  ¬ (in_dm (c_dms d) id u ∧ in_dm (c_dms d) id v).
Proof.
  unfold find_dm. intros Hf Hc Ht [Hu Hv].
  assert (Hin : (id, c) ∈ filter (between u v d) (map_to_list (dm_channels d))).
  { apply list_elem_of_filter. split; [|by apply elem_of_map_to_list].
    split_and!; [done|by apply bool_decide_eq_true|by apply bool_decide_eq_true]. }
  destruct (filter _ _); [by apply elem_of_nil in Hin|done].
Qed.
Lemma live_in_row id ch d : live_in id ch d = true → ∃ r, messages d !! id = Some r ∧ r_channel r = ch ∧ is_live r = true.
Proof.
  unfold live_in. destruct (messages d !! id) as [r|]; [|done].
  intros [Hc Hl]%andb_true_iff. apply bool_decide_eq_true in Hc. by exists r.
Qed.
Lemma keys_msgs users (M M' : gmap U (message_row U)) (k : keys U) :
  keys_ok maxDevices users M k → (∀ m, is_Some (M !! m) → is_Some (M' !! m)) → keys_ok maxDevices users M' k.
Proof.
  intros Hok Hm. split; try apply Hok. intros m dev Hk.
  destruct (message_key_refs _ _ _ _ Hok m dev Hk). auto.
Qed.
Lemma insert_some {A} (t : gmap U A) i x m : is_Some (t !! m) → is_Some (<[i := x]> t !! m).
Proof. intros Hm. rewrite lookup_insert_is_Some. destruct (decide (i = m)); auto. Qed.
Lemma active_spk_inv dev d s : active_spk dev d = Some s →
  ∃ id, spks d !! id = Some s ∧ Key.spk_DeviceID s = dev ∧ Key.spk_Active s = true.
Proof.
  unfold active_spk. intros E.
  destruct (map_to_list _) as [|[id x] l] eqn:El; [done|]. injection E as <-.
  assert (Hin : (id, x) ∈ map_to_list (filter (λ p, Key.spk_DeviceID p.2 = dev ∧ Key.spk_Active p.2 = true) (spks d)))
    by (rewrite El; apply list_elem_of_here).
  apply elem_of_map_to_list, map_lookup_filter_Some in Hin as [? [? ?]]. by exists id.
Qed.

(** The three parts, for a step on one of them. *)
Lemma ok_posts d f : ok d → posts_ok (c_users d) (f (c_posts d)) →
  (∀ m, is_Some (messages d !! m) → is_Some (p_messages (f (c_posts d)) !! m)) → ok (set_posts f d).
Proof. intros [Hp Hd Hk] Hf Hm. split; [done|done|]. by eapply keys_msgs. Qed.
Lemma ok_dms d f : ok d → dms_ok (c_users d) (f (c_dms d)) → ok (set_dms f d).
Proof. by intros [Hp Hd Hk] Hf. Qed.
Lemma ok_keys d f : ok d → keys_ok maxDevices (c_users d) (messages d) (f (c_keys d)) → ok (set_keys f d).
Proof. by intros [Hp Hd Hk] Hf. Qed.
Lemma ok_tick d : ok d → ok (tick d).
Proof. by intros [Hp Hd Hk]. Qed.

Lemma post_ok d (p : Message.CreateParams U) u :
  ok d → messages d !! next_uuid d = None → Message.cp_AuthorID p = u → is_Some (c_users d !! u) →
  (∀ t, Message.cp_ReplyToID p = Some t → live_in t (Message.cp_ChannelID p) d = true) →
  may_post granted u p d → ok (put_message (next_uuid d) (new_row p (c_now d)) (tick d)).
Proof.
  intros Hok Hn Ha Hu Hr Hp. apply (ok_posts (tick d)); [by apply ok_tick| |intros m; apply insert_some].
  apply posts_insert; [apply Hok|done|simpl; by rewrite Ha| |].
  - intros t Ht. destruct (live_in_row _ _ _ (Hr t Ht)) as (r & ? & ? & _). by exists r.
  - intros t Ht. simpl in Ht. unfold may_post in Hp. rewrite Ht in Hp.
    destruct (Message.cp_Encrypted p); [done|]. destruct Hp as (x & ? & ? & _). by exists x.
Qed.
Lemma row_ok d id r r' :
  ok d → messages d !! id = Some r → r_author r' = r_author r → r_channel r' = r_channel r →
  r_reply r' = r_reply r → r_thread r' = r_thread r → ok (put_message id r' d).
Proof.
  intros Hok Hr Ha Hc Hrep Ht. apply ok_posts; [done| |intros m; apply insert_some].
  by apply (posts_update _ _ _ r); [apply Hok|..].
Qed.
Lemma dm_ok d c l :
  ok d → dm_channels d !! Dm.ID c = None → NoDup l → known l d →
  ((Dm.Type_ c = TypeDM ∧ Dm.OwnerID c = None ∧ (length l ≤ 2)%nat) ∨
   (Dm.Type_ c = TypeGroupDM ∧ is_Some (Dm.Name c) ∧ is_Some (Dm.OwnerID c) ∧ (length l ≤ 10)%nat)) →
  (Dm.Type_ c = TypeDM → ∀ j c' u v, dm_channels d !! j = Some c' → Dm.Type_ c' = TypeDM → u ≠ v →
     u ∈ l → v ∈ l → ¬ (in_dm (c_dms d) j u ∧ in_dm (c_dms d) j v)) →
  ok (put_participants (Dm.ID c) l (put_dm c (tick d))).
Proof.
  intros Hok Hn Hnd Hk Hkind Huniq. rewrite put_participants_eq.
  apply (ok_dms (put_dm c (tick d))); [|by apply dms_create; [apply Hok|..]].
  apply (ok_dms (tick d)); [by apply ok_tick|].
  apply (dms_create _ _ c 0 []); [apply Hok|done|apply NoDup_nil_2|done| |].
  - destruct Hkind as [(? & ? & _)|(? & ? & ? & _)]; [left|right]; split_and!; simpl; try done; lia.
  - intros _ j c' u v _ _ _ Hu. by apply elem_of_nil in Hu.
Qed.

(** Each step a caller may take keeps the invariant of the tables: every reference points to
    a row, replies and threads stay in their channel, a message has at most one thread and a
    user reacts at most once with an emoji, an attachment belongs to a message of its uploader,
    two users share at most one direct conversation, a group has at most ten members, and a
    user has at most the configured number of devices, each with at most one active signed
    pre-key and with distinct key numbers. *)
Lemma chat_step_keeps_invariant u d d' : step u d d' → ok d → ok d'.
Proof.
  intros Hs Hok. destruct Hs as
    [d|d p Hn Ha Hu Hr Hc Hp|d id r content Hr Hl Ha Hc|d id r Hr Hl Hg|d id r b Hr Hl Hg
    |d ch parent name Hn Hnt Hl Hg Hlen|d id t p Ht Hg Hlock|d ids m r Hr Ha
    |d m r e Hn Hr Hl Hg Hu Hre He Hex Hpl|d m e|d ch m last Hl Hg Hlast
    |d v Hf Hne Hk Hn|d name l Hnd Hlen Hin Hk Hn|d ch c v Hc Ht Ho Hu Hv Hs Hk|d ch c v Hc Ht Hu Hv
    |d dev label key Hn Hd Hu Hlen Hmax|d dev Ho|d dev x key Hx Hu Hlen|d dev n key sg (x & Hx & Hu) Hn Hf H32 H64
    |d dev k (x & Hx & Hu) Hn Hf H32|d dev x k Hx Hs Hk|d m r dev key Hr Ha Hd Hn].
  - by apply ok_tick.
  - by eapply post_ok.
  - by apply (row_ok d id r).
  - by apply (row_ok d id r).
  - by apply (row_ok d id r).
  - destruct (live_in_row _ _ _ Hl) as (r & Hr & Hch & _). apply (ok_posts (tick d)); [by apply ok_tick| |done].
    apply (posts_thread _ _ _ _ r); [apply Hok|done..|].
    intros i x Hi Heq. apply Hnt. by exists i, x.
  - apply ok_posts; [done| |done]. by apply posts_thread_update; [apply Hok|].
  - apply ok_posts; [done| |done]. by apply (posts_link _ _ _ _ _ r); [apply Hok|..].
  - apply (ok_posts (tick d)); [by apply ok_tick| |done].
    apply posts_react; [apply Hok|done|by exists r|done..].
  - apply ok_posts; [done| |done]. apply posts_unreact, Hok.
  - apply ok_posts; [done| |done]. apply posts_read; [apply Hok|]. simpl. intros m' Hm'. subst last.
    destruct (live_in_row _ _ _ Hl) as (r & Hr & Hch & _).
    destruct (read_states d !! (u, ch)) as [rs|] eqn:Ers; [|injection Hm' as <-; by exists r].
    assert (m' = m ∨ ReadState.LastMessageID rs = Some m') as [->|Hlast]; [|by exists r|].
    { unfold advance in Hm'. destruct (ReadState.LastMessageID rs); [|left; congruence].
      repeat case_match; naive_solver. }
    by apply (read_position _ _ (chat_posts _ _ Hok) (u, ch) rs).
  - apply (dm_ok d (Dm.mkChannel (next_uuid d) TypeDM None None (c_now d) (c_now d)));
      [done|done|by apply NoDup_cons; split; [rewrite list_elem_of_singleton|apply NoDup_singleton]|done|by left|].
    intros _ j c' a b Hj Ht Hab Ha Hb Hin. apply (find_dm_None _ _ _ _ _ Hf Hj Ht).
    assert ((a = u ∧ b = v) ∨ (a = v ∧ b = u)) as [[-> ->]|[-> ->]] by set_solver; tauto.
  - apply (dm_ok d (Dm.mkChannel (next_uuid d) TypeGroupDM (Some name) (Some u) (c_now d) (c_now d)));
      [done|done|done|done|by right|by intros].
  - apply ok_dms; [done|]. apply (dms_add _ _ _ c); [apply Hok|done..| | |done]; [|done].
    intros Hi. unfold is_participant in Hv. by apply bool_decide_eq_false in Hv.
  - apply ok_dms; [done|]. apply dms_remove, Hok.
  - apply (ok_keys (tick d)); [by apply ok_tick|]. apply keys_device; try done; [apply Hok|].
    intros i y Hi [Hy1 Hy2]. unfold device_of in Hd.
    assert (Hin : (i, y) ∈ map_to_list (filter (λ p, Key.UserID p.2 = u ∧ Key.DeviceID p.2 = dev) (devices d)))
      by (by apply elem_of_map_to_list, map_lookup_filter_Some).
    destruct (map_to_list _); [by apply elem_of_nil in Hin|done].
  - apply ok_keys; [done|]. apply keys_drop, Hok.
  - apply ok_keys; [done|]. apply keys_identity; try done. apply Hok.
  - apply (ok_keys (tick d)); [by apply ok_tick|]. apply keys_spk; try done; apply Hok.
  - apply (ok_keys (tick d)); [by apply ok_tick|]. apply keys_opk; try done; apply Hok.
  - apply ok_keys; [done|]. apply keys_take, Hok.
  - apply ok_keys; [done|]. apply keys_message_key; [apply Hok|by exists r|done].
Qed.
(** ** Histories *)
Abbreviation history := (chat_history granted maxContent maxDevices).

Lemma steps_history u d d' : rtc (step u) d d' → history d d'.
Proof.
  induction 1 as [|d d1 d2 Hs _ IH]; [constructor|]. eapply rtc_l; [left; by exists u|exact IH].
Qed.
Lemma history_keeps_invariant d d' : history d d' → ok d → ok d'.
Proof.
  intros Hh Hok. induction Hh as [|d d1 d2 [[u Hs]|(t & _ & ->)] _ IH]; [done|..]; apply IH.
  - by eapply chat_step_keeps_invariant.
  - by destruct Hok.
Qed.

(** What a step leaves of a message, and who may change the rest. *)
Definition same_post (r r' : message_row U) : Prop :=
  r_author r' = r_author r ∧ r_channel r' = r_channel r ∧ r_reply r' = r_reply r ∧
  r_thread r' = r_thread r ∧ r_encrypted r' = r_encrypted r ∧ r_created r' = r_created r.
Definition changed_by u (r r' : message_row U) : Prop :=
  (r_content r' ≠ r_content r → u = r_author r) ∧
  (is_live r' ≠ is_live r → u = r_author r ∨ granted u (r_channel r) ManageMessages) ∧
  (r_pinned r' ≠ r_pinned r → granted u (r_channel r) ManageMessages) ∧
  (is_live r = false → r' = r).
Lemma unchanged u r : same_post r r ∧ changed_by u r r.
Proof. by repeat split. Qed.
Lemma step_messages u d d' : step u d d' →
  messages d' = messages d ∨
  (∃ id r, messages d !! id = None ∧ messages d' = <[id := r]> (messages d)) ∨
  (∃ id r r', messages d !! id = Some r ∧ messages d' = <[id := r']> (messages d) ∧
     same_post r r' ∧ changed_by u r r').
Proof.
  destruct 1; try (by left); try (by left; rewrite put_participants_eq);
    [by right; left; eexists _, _|..]; right; right; eexists _, _, _; (split; [done|]); (split; [done|]);
    (split; [done|]); repeat split; simpl; try done; try (unfold is_live in *; simpl in *; congruence); naive_solver.
Qed.

(** A message is never removed and never changes its author, its channel, what it answers, its
    thread or when it was written; its text is changed by its author only, it is deleted by its
    author or with ManageMessages, pinned with ManageMessages, and once it is deleted nothing of
    it changes any more. *)
Lemma step_message u d d' id r : step u d d' → messages d !! id = Some r →
  ∃ r', messages d' !! id = Some r' ∧ same_post r r' ∧ changed_by u r r'.
Proof.
  intros Hs Hr. pose proof (unchanged u r) as Hsame.
  destruct (step_messages u d d' Hs) as [->|[(m & r0 & Hm & ->)|(m & r0 & r1 & Hm & -> & Hk)]]; [eauto|..];
    destruct (decide (m = id)) as [->|]; rewrite ?lookup_insert_ne, ?lookup_insert_eq by done; simplify_eq; eauto.
Qed.
Lemma same_post_trans r1 r2 r3 : same_post r1 r2 → same_post r2 r3 → same_post r1 r3.
Proof. intros (?&?&?&?&?&?) (?&?&?&?&?&?). repeat split; congruence. Qed.
Lemma changed_by_trans u r1 r2 r3 :
  same_post r1 r2 → changed_by u r1 r2 → changed_by u r2 r3 → changed_by u r1 r3.
Proof.
  intros (Ha & Hc & _) (C1 & L1 & P1 & D1) (C2 & L2 & P2 & D2). rewrite Ha, ?Hc in *. split_and!.
  - intros Hne. destruct (decide (r_content r2 = r_content r1)) as [E|]; [apply C2; congruence|auto].
  - intros Hne. destruct (decide (is_live r2 = is_live r1)) as [E|]; [apply L2; congruence|auto].
  - intros Hne. destruct (decide (r_pinned r2 = r_pinned r1)) as [E|]; [apply P2; congruence|auto].
  - intros Hl. specialize (D1 Hl) as ->. auto.
Qed.
Lemma steps_message u d d' id r : rtc (step u) d d' → messages d !! id = Some r →
  ∃ r', messages d' !! id = Some r' ∧ same_post r r' ∧ changed_by u r r'.
Proof.
  intros Hs. revert r. induction Hs as [|d d1 d2 Hs _ IH]; intros r Hr.
  - destruct (unchanged u r). eauto.
  - destruct (step_message _ _ _ _ _ Hs Hr) as (r1 & Hr1 & Hk1 & Hc1).
    destruct (IH r1 Hr1) as (r2 & Hr2 & Hk2 & Hc2). exists r2. split; [done|].
    split; [by eapply same_post_trans|by eapply changed_by_trans].
Qed.
Lemma history_message d d' id r : history d d' → messages d !! id = Some r →
  ∃ r', messages d' !! id = Some r' ∧ same_post r r' ∧ (is_live r = false → r' = r).
Proof.
  intros Hh. revert r. induction Hh as [|d d1 d2 [[u Hs]|(t & _ & ->)] _ IH]; intros r Hr; [by exists r|..].
  - destruct (step_messages _ _ _ Hs) as [Hm|[(m & r0 & Hn & Hm)|(m & r0 & r1 & H0' & Hm & Hk & Hc)]].
    + apply IH. by rewrite Hm.
    + apply IH. rewrite Hm, lookup_insert_ne by congruence. done.
    + destruct (decide (m = id)) as [->|].
      * simplify_eq. destruct (IH r1) as (r2 & Hr2 & Hk2 & Hd2); [by rewrite Hm, lookup_insert_eq|].
        exists r2. split; [done|]. split; [by eapply same_post_trans|]. intros Hl.
        destruct Hc as (_ & _ & _ & Hd). specialize (Hd Hl) as ->. auto.
      * apply IH. by rewrite Hm, lookup_insert_ne.
  - by apply IH.
Qed.

(** ** One-time pre-keys *)
Definition generated d id : Prop := ∃ n, (n < c_seq d)%nat ∧ id = gen_random_uuid n.
Definition numbered d : Prop := ∀ id, is_Some (opks d !! id) → generated d id.
Definition spent id d : Prop := opks d !! id = None ∧ generated d id.

Lemma generated_mono d d' id : (c_seq d ≤ c_seq d')%nat → generated d id → generated d' id.
Proof. intros Hle (n & ? & ->). exists n. split; [lia|done]. Qed.
(** A step draws at most one identifier, and a new one-time pre-key has it. *)
Lemma step_opks u d d' : step u d d' → (c_seq d ≤ c_seq d')%nat ∧
  ((∀ id, is_Some (opks d' !! id) → is_Some (opks d !! id)) ∨
   ∃ k, c_seq d' = S (c_seq d) ∧ opks d' = <[next_uuid d := k]> (opks d)).
Proof.
  destruct 1; rewrite ?put_participants_eq; simpl; (split; [lia|]); try (by left);
    try (by right; eexists); left; intros i; unfold opks; simpl.
  - intros [y Hx]. apply map_lookup_filter_Some in Hx as [? _]. eauto.
  - intros [y [_ Hx]%lookup_delete_Some]. eauto.
Qed.
Lemma step_numbered u d d' : step u d d' → numbered d → numbered d'.
Proof.
  intros Hs Hn. destruct (step_opks _ _ _ Hs) as [Hle [Hi|(k & Hseq & Hi)]]; intros id Hid.
  - by eapply generated_mono; [|apply Hn, Hi].
  - rewrite Hi, lookup_insert_is_Some in Hid. destruct Hid as [<-|[_ Hid]].
    + exists (c_seq d). split; [lia|done].
    + by eapply generated_mono; [|apply Hn].
Qed.
Lemma step_spent u d d' id : distinct_ids U (c_seq d') → step u d d' → spent id d → spent id d'.
Proof.
  intros Hfr Hs [Ho (n & Hn & ->)]. destruct (step_opks _ _ _ Hs) as [Hle [Hi|(k & Hseq & Hi)]];
    (split; [|exists n; split; [lia|done]]).
  - apply eq_None_not_Some. intros Hid%Hi. by apply eq_None_not_Some in Ho.
  - rewrite Hi, lookup_insert_ne; [done|]. intros E%Hfr; lia.
Qed.
Lemma history_numbered d d' : history d d' → numbered d → numbered d'.
Proof.
  intros Hh Hn. induction Hh as [|d d1 d2 [[u Hs]|(t & _ & ->)] _ IH]; [done|..]; apply IH; [|done].
  by eapply step_numbered.
Qed.
Lemma history_seq d d' : history d d' → (c_seq d ≤ c_seq d')%nat.
Proof.
  induction 1 as [|d d1 d2 [[u Hs]|(t & _ & ->)] _ IH]; [done|..|done].
  destruct (step_opks _ _ _ Hs). lia.
Qed.
Lemma history_spent d d' id : distinct_ids U (c_seq d') → history d d' → spent id d → spent id d'.
Proof.
  intros Hfr Hh Hn. induction Hh as [|d d1 d2 [[u Hs]|(t & _ & ->)] Hh IH]; [done|..]; apply IH; try done.
  eapply step_spent; [|done..]. apply history_seq in Hh. intros i j Hi Hj. apply Hfr; lia.
Qed.
End history.
