(* ===== verification/ChatWrites.v ===== *)
(** * What the repositories of the conversations write and read

    Each method of ChatRepo.v in the logic of ChatLogic.v: a write is done whole, under the
    conditions its statements check, or not at all; a read answers from the tables. *)
From stdpp Require Import sorting.
From S2P Require Import Prelude GoStd Platform Permission Validate Postgres Domain GuildTables Http.
From S2P Require Import ApiLogic MemberProofs ChatTables DmTables ChatRepo ChatModel ChatLogic ChatSpec ChatHistory.
Open Scope Z_scope.

(** Unfold a statement that succeeded and take its conditions. *)
Ltac take_conditions :=
  repeat match goal with
  | E : (if ?b then _ else _) _ = (_, _) |- _ => destruct b eqn:?; simpl in E; try discriminate E
  | E : (if ?b then _ else _) = (_, _) |- _ => destruct b eqn:?; simpl in E; try discriminate E
  | E : match ?o with Some _ => _ | None => _ end _ = (_, _) |- _ => destruct o eqn:?; simpl in E; try discriminate E
  end;
  repeat match goal with
  | H : _ || _ = false |- _ => apply orb_false_iff in H as [? ?]
  | H : _ && _ = true |- _ => apply andb_true_iff in H as [? ?]
  | H : bool_decide _ = false |- _ => apply bool_decide_eq_false in H
  | H : bool_decide _ = true |- _ => apply bool_decide_eq_true in H
  | H : negb _ = false |- _ => apply negb_false_iff in H
  | H : negb _ = true |- _ => apply negb_true_iff in H
  | H : ¬ (_ = None) |- _ => apply not_eq_None_Some in H
  | H : ¬ is_Some _ |- _ => apply eq_None_not_Some in H
  | H : ¬ user_missing _ _ |- _ => apply not_eq_None_Some in H
  end.
Ltac run_statement := unfold fresh_id, found, gets, modify, mbind, M_bind, mret, M_ret, fail in *; simpl in *.

Lemma body_option {DB W} `{Postgres DB W} {A B} (o : option B) (f : B → M W A) m g h :
  tx_body (DB := DB) m h → (∀ x, tx_body (f x) (g x)) →
  tx_body (match o with Some x => f x | None => m end) (match o with Some x => g x | None => h end).
Proof. by destruct o. Qed.
Lemma body_list {DB W} `{Postgres DB W} {A B} (l : list B) (f : B → list B → M W A) m g h :
  tx_body (DB := DB) m h → (∀ x l', tx_body (f x l') (g x l')) →
  tx_body (match l with x :: l' => f x l' | [] => m end) (match l with x :: l' => g x l' | [] => h end).
Proof. by destruct l. Qed.
(** The transactions of the repositories. *)
Ltac tx_match :=
  match goal with
  | |- tx_body (match ?o with None => _ | _ => _ end) _ => eapply body_option; [|intros ?]
  | |- tx_body (match ?o with [] => _ | _ => _ end) _ => eapply body_list; [|intros ? ?]
  end.
Ltac tx_steps := repeat first [tx_step | tx_match].

Section repositories.
Context {U W : Type} `{UUIDLaws U} `{!RandomUUID U} `{!UUIDOrder U} `{PostgresLaws (chat U) W}.
Context (I : W → Prop) `{!Stable (chat U) I}.
Implicit Types (d : chat U) (id u ch m : U).
Ltac tx_error ::= first [apply unique_error_driver | apply on_err_driver
  | (intros ?; cbv zeta; by apply unique_error_driver, from_driver_wrap)
  | (intros ?; by apply on_err_driver, from_driver_wrap)
  | (intros ?; by do 2 apply from_driver_wrap)].

Lemma missing_Some {A} (o : option U) (t : gmap U A) : missing o t = false →
  ∀ i, o = Some i → is_Some (t !! i).
Proof. intros Hm i ->. simpl in Hm. apply bool_decide_eq_false in Hm. by apply not_eq_None_Some. Qed.

(** ** internal/message *)
Definition replies_live (p : Message.CreateParams U) d : Prop :=
  ∀ t, Message.cp_ReplyToID p = Some t → live_in t (Message.cp_ChannelID p) d = true.
Lemma insert_message_Ok (p : Message.CreateParams U) d a d' :
  insert_message p d = (Ok a, d') →
  messages d !! next_uuid d = None ∧ is_Some (c_users d !! Message.cp_AuthorID p) ∧
  a = (next_uuid d, c_now d, c_now d) ∧
  d' = put_message (next_uuid d) (new_row p (c_now d)) (tick d).
Proof.
  unfold insert_message. intros E. run_statement. take_conditions. injection E as <- <-. by split_and!.
Qed.
Definition created (p : Message.CreateParams U) d (msg : Message.Message U) d' : Prop :=
  messages d !! next_uuid d = None ∧ is_Some (c_users d !! Message.cp_AuthorID p) ∧ replies_live p d ∧
  Message.ID msg = next_uuid d ∧ d' = put_message (next_uuid d) (new_row p (c_now d)) (tick d).
Lemma Message_Create_does (p : Message.CreateParams U) :
  does I (MessageRepo.Create (W := W) p) (created p).
Proof.
  eapply does_tx; [exact _|unfold MessageRepo.check_reply; calm|unfold MessageRepo.check_reply; tx_steps|].
  intros d a d' E. apply bind_Ok_inv in E as (x & d1 & E1 & E). apply bind_Ok_inv in E as (ids & d2 & E2 & E).
  apply wrap_Ok_inv, insert_message_Ok in E2 as (Hn & Hu & -> & ->).
  assert (d1 = d ∧ replies_live p d) as [-> Hr].
  { unfold replies_live. destruct (Message.cp_ReplyToID p) as [t|]; [|by injection E1 as _ <-].
    apply bind_Ok_inv in E1 as (b & d0 & E1 & E3). apply wrap_Ok_inv in E1. injection E1 as <- <-.
    destruct (live_in _ _ _) eqn:El; [|done]. injection E3 as _ <-. split; [done|]. by intros ? [= <-]. }
  apply bind_Ok_inv in E as (au & d2 & E3 & E). apply wrap_Ok_inv in E3.
  unfold select_author, found in E3. destruct (_ <$> _) as [[[??]?]|]; [|done]. injection E3 as <- <-.
  injection E as <- <-. by split_and!.
Qed.

Lemma asks_found {A} (f : chat U → option A) :
  asks I (pg_query (W := W) (λ d, found (f d) d)) (λ d a, f d = Some a).
Proof. apply asks_query; [exact _|]. intros d. unfold found. by destruct (f d). Qed.
#[local] Instance message_inhabited : Inhabited (Message.Message U) := populate
  (Message.mkMessage uuid_Nil uuid_Nil uuid_Nil "" None None None false None None false 0 0 "" None None).
Lemma find_message_row id d msg : find_message id d = Some msg → ∃ r,
  messages d !! id = Some r ∧ is_live r = true ∧ Message.ID msg = id ∧ Message.ChannelID msg = r_channel r ∧
  Message.AuthorID msg = r_author r.
Proof.
  unfold find_message, joined. destruct (messages d !! id) as [r|]; [|done]. simpl.
  destruct (is_live r) eqn:El; [|done]. destruct (c_users d !! r_author r); [|done]. intros [= <-]. by exists r.
Qed.
Lemma Message_GetByID_asks id :
  asks I (MessageRepo.GetByID (W := W) id) (λ d msg, find_message id d = Some msg).
Proof. apply asks_map_err, asks_found. Qed.

Definition edited (p : message_row U → bool) (f : Z → message_row U → message_row U) id d d' : Prop :=
  ∃ r, messages d !! id = Some r ∧ p r = true ∧ d' = put_message id (f (c_now d) r) d.
Lemma update_message_Ok p f id d n d' : update_message p f id d = (Ok n, d') →
  (n = 0 ∧ d' = d) ∨ (n ≠ 0 ∧ edited p f id d d').
Proof.
  unfold update_message. intros E. run_statement. destruct (messages d !! id) as [r|] eqn:Er; [|by left; simplify_eq].
  destruct (p r) eqn:Ep; simplify_eq; [right|by left]. split; [done|]. by exists r.
Qed.
Lemma update_message_does p f c id : does I (wrap c (pg_query (W := W) (update_message p f id)))
  (λ d n d', (n = 0 ∧ d' = d) ∨ (n ≠ 0 ∧ edited p f id d d')).
Proof. apply does_wrap; [exact _|]. apply update_message_Ok. Qed.
Lemma Update_does id content :
  does I (MessageRepo.Update (W := W) id content) (λ d _ d', edited is_live (set_content content) id d d').
Proof.
  eapply (does_then _ _ _ (λ d _ d', edited is_live (set_content content) id d d') _ (λ _ _, inhabitant)).
  - apply does_query; [exact _|intros e; apply on_err_driver|]. intros d a d' E.
    apply bind_Ok_inv in E as (n & d1 & E1 & E). apply update_message_Ok in E1 as [[-> ->]|[Hn He]]; [done|].
    destruct (Z.eqb_spec n 0); [done|]. by injection E as _ <-.
  - intros a. eapply asks_weaken; [apply Message_GetByID_asks|]. auto.
  - auto.
Qed.
Lemma rows_affected_asks err n : asks (DB := chat U) I (rows_affected (W := W) err n) (λ _ _, n ≠ 0).
Proof. unfold rows_affected. destruct (Z.eqb_spec n 0); [apply asks_fail|by apply asks_ret]. Qed.
Lemma SoftDelete_does id u :
  does I (MessageRepo.SoftDelete (W := W) id u) (λ d _ d', edited is_live (set_deleted u) id d d').
Proof.
  eapply does_rows; [exact _|apply update_message_does|eapply asks_weaken; [apply rows_affected_asks|done]|].
  intros n _. eapply asks_idle, rows_affected_asks.
Qed.
Lemma diagnose_asks b err id (P : chat U → Message.Message U → Prop) :
  asks I (MessageRepo.diagnose (W := W) b err id) P.
Proof.
  eapply asks_bind; [apply asks_try, Message_GetByID_asks|]. intros [msg|e]; [|apply asks_fail].
  destruct (bool_decide _); apply asks_fail.
Qed.
Lemma Pin_does id : does I (MessageRepo.Pin (W := W) id)
  (λ d _ d', edited (λ r, is_live r && negb (r_pinned r)) (set_pinned true) id d d').
Proof.
  eapply does_rows; [exact _|apply update_message_does|apply diagnose_asks|].
  intros n Hn. destruct (Z.eqb_spec n 0); [done|]. eapply asks_idle, Message_GetByID_asks.
Qed.
Lemma Unpin_does id : does I (MessageRepo.Unpin (W := W) id)
  (λ d _ d', edited (λ r, is_live r && r_pinned r) (set_pinned false) id d d').
Proof.
  eapply does_rows; [exact _|apply update_message_does|apply diagnose_asks|].
  intros n Hn. destruct (Z.eqb_spec n 0); [done|]. eapply asks_idle, Message_GetByID_asks.
Qed.

(** ** internal/thread *)
Lemma insert_thread_Ok (p : Thread.CreateParams U) d a d' : insert_thread p d = (Ok a, d') →
  threads d !! next_uuid d = None ∧ ¬ has_thread (Thread.cp_ParentMessageID p) d ∧
  d' = set_posts (on_threads <[next_uuid d := Thread.mkThread (next_uuid d) (Thread.cp_ChannelID p)
         (Thread.cp_ParentMessageID p) (Thread.cp_Name p) false false (c_now d) (c_now d)]>) (tick d).
Proof.
  unfold insert_thread. intros E. run_statement. take_conditions. injection E as _ <-. by split_and!.
Qed.
Lemma Thread_Create_does (p : Thread.CreateParams U) : does I (ThreadRepo.Create (W := W) p) (λ d _ d',
  threads d !! next_uuid d = None ∧ ¬ has_thread (Thread.cp_ParentMessageID p) d ∧
  live_in (Thread.cp_ParentMessageID p) (Thread.cp_ChannelID p) d = true ∧
  d' = set_posts (on_threads <[next_uuid d := Thread.mkThread (next_uuid d) (Thread.cp_ChannelID p)
         (Thread.cp_ParentMessageID p) (Thread.cp_Name p) false false (c_now d) (c_now d)]>) (tick d)).
Proof.
  eapply does_tx; [exact _|calm|tx_steps|]. intros d a d' E.
  apply bind_Ok_inv in E as (b & d1 & E1 & E). apply wrap_Ok_inv in E1. injection E1 as <- <-.
  destruct (live_in _ _ _) eqn:El; [|done]. apply map_err_inv in E as ([] & E & [=]).
  apply insert_thread_Ok in E as (? & ? & ?). by split_and!.
Qed.
Lemma Thread_GetByID_asks id :
  asks I (ThreadRepo.GetByID (W := W) id) (λ d t, threads d !! id = Some t).
Proof. apply asks_map_err, asks_found. Qed.
Definition thread_updated id (p : Thread.UpdateParams) d d' : Prop := ∃ t,
  threads d !! id = Some t ∧ (Thread.Locked t = true → Thread.up_Locked p = Some false) ∧
  d' = set_posts (on_threads <[id := set_thread p (c_now d) t]>) d.
Lemma Thread_Update_does id (p : Thread.UpdateParams) :
  does I (ThreadRepo.Update (W := W) id p) (λ d _ d', d' = d ∨ thread_updated id p d d').
Proof.
  unfold ThreadRepo.Update. destruct (ThreadRepo.no_update p).
  { eapply does_weaken; [apply does_asks, Thread_GetByID_asks|]. intros d a d' [-> _]. by left. }
  eapply does_tx; [exact _|calm|tx_steps|]. intros d a d' E. right.
  apply bind_Ok_inv in E as (t & d1 & E1 & E). apply map_err_inv in E1 as ([t'|] & E1 & [= ->]).
  unfold select_thread, found in E1. destruct (threads d !! id) as [t0|] eqn:Et; [|done]. injection E1 as -> <-.
  destruct (Thread.Locked t' && _) eqn:Eg; [done|]. apply map_err_inv in E as ([] & E & [=]).
  unfold update_thread in E. run_statement. rewrite Et in E. injection E as _ <-. exists t'. split_and!; [done| |done].
  intros Hl. rewrite Hl in Eg. simpl in Eg. apply negb_false_iff in Eg. by apply bool_decide_eq_true in Eg.
Qed.

(** ** internal/attachment *)
Definition linked (ids : list U) m u d d' : Prop :=
  d' = set_posts (on_attachments (fmap (λ a, if linkable ids u a then link m a else a))) d.
Lemma LinkToMessage_does ids m u :
  does I (AttachmentRepo.LinkToMessage (W := W) ids m u) (λ d _ d', linked ids m u d d').
Proof.
  eapply (does_then _ _ _ (λ d _ d', linked ids m u d d') _ (λ _ _, [])).
  - apply does_wrap; [exact _|]. intros d a d' E. unfold link_attachments in E. run_statement. cbv zeta in E.
    take_conditions. by injection E as _ <-.
  - intros a. destruct (bool_decide _); [apply asks_ret; auto|apply asks_fail].
  - auto.
Qed.

(** ** internal/reaction and internal/emoji *)
Lemma insert_reaction_Ok m u (k : emoji_key U) d a d' : insert_reaction m u k d = (Ok a, d') →
  reactions d !! next_uuid d = None ∧ ¬ reacted m u k d ∧ is_Some (messages d !! m) ∧
  is_Some (c_users d !! u) ∧ (∀ e, k.1 = Some e → is_Some (emoji d !! e)) ∧
  d' = set_posts (on_reactions <[next_uuid d := mkReactionRow m u k.1 k.2 (c_now d)]>) (tick d).
Proof.
  unfold insert_reaction. intros E. run_statement. take_conditions. injection E as _ <-.
  split_and!; try done. by apply missing_Some.
Qed.
Lemma Add_does m u (k : emoji_key U) : does I (ReactionRepo.Add (W := W) m u k) (λ d _ d',
  reactions d !! next_uuid d = None ∧ ¬ reacted m u k d ∧ is_Some (messages d !! m) ∧
  is_Some (c_users d !! u) ∧ (∀ e, k.1 = Some e → is_Some (emoji d !! e)) ∧
  d' = set_posts (on_reactions <[next_uuid d := mkReactionRow m u k.1 k.2 (c_now d)]>) (tick d)).
Proof.
  apply does_query; [exact _|intros e; apply unique_error_driver|]. intros d a d'. apply insert_reaction_Ok.
Qed.
Lemma Remove_does m u (k : emoji_key U) : does I (ReactionRepo.Remove (W := W) m u k) (λ d _ d',
  d' = set_posts (on_reactions (filter (λ p, is_reaction m u k p.2 = false))) d).
Proof.
  eapply (does_then _ _ _ (λ d _ d', d' = set_posts (on_reactions (filter (λ p, is_reaction m u k p.2 = false))) d)
    _ (λ _ _, tt)).
  - apply does_wrap; [exact _|]. intros d a d' E. unfold delete_reactions in E. run_statement. by injection E as _ <-.
  - intros n. eapply asks_weaken; [apply rows_affected_asks|]. auto.
  - auto.
Qed.
Lemma Emoji_GetByID_asks id :
  asks I (EmojiRepo.GetByID (W := W) id) (λ d e, emoji d !! id = Some e).
Proof. apply asks_map_err, asks_found. Qed.

(** ** internal/readstate *)
Lemma Ack_does u ch m : does I (ReadStateRepo.Ack (W := W) u ch m) (λ d _ d', ∃ last,
  live_in m ch d = true ∧
  last = match read_states d !! (u, ch) with
         | Some rs => advance (ReadState.LastMessageID rs) m d | None => Some m end ∧
  d' = set_posts (on_read <[(u, ch) := ReadState.mkReadState u ch last 0 (c_now d)]>) d).
Proof.
  apply does_query; [exact _|intros e; apply on_err_driver|]. intros d a d' E.
  unfold upsert_read_state in E. run_statement. cbv zeta in E. take_conditions. injection E as _ <-.
  eexists. by split_and!.
Qed.
End repositories.
