(* ===== verification/ChatProofs.v ===== *)
(** * The message endpoints keep the rules of the conversations

    Every handler of MessageApi.v changes the tables by steps of [chat_step] of its caller, or
    refuses and leaves them alone.  The rest of the world is behind the interface [Gatekeeper]:
    the resolver's answers are true, and what the handlers tell the gateway, the search index,
    the presence store and the audit log does not touch the tables. *)
From stdpp Require Import sorting.
From S2P Require Import Prelude GoStd Platform Permission Presence Validate Base64 Postgres Domain GuildTables Http.
From S2P Require Import MemberApi ApiLogic ChatTables DmTables ChatRepo ChatModel MessageApi ChatLogic ChatSpec ChatWrites.
Open Scope Z_scope.

Class Gatekeeper {U W : Type} `{UUIDLib U} `{Postgres (chat U) W} `{PermissionLib} `{!Store U W} `{!Cache U W}
    `{!Valkey W} `{!ChatGateway U W} `{!SearchIndex W} `{!AuditLog U W}
    (I : W → Prop) (granted : U → U → Z → Prop) : Prop := {
  gate_permission : ∀ u ch p,
    asks (DB := chat U) I (HasPermission u ch p) (λ _ b, b = true → granted u ch p);
  gate_SetTyping : ∀ ch u, asks (DB := chat U) I (SetTyping ch u) (λ _ _, True);
  gate_ClearTyping : ∀ ch u, asks (DB := chat U) I (ClearTyping ch u) (λ _ _, True);
  gate_Enqueue : ∀ ev p w, I w → I (chat_Enqueue ev p w) ∧ pg_view (DB := chat U) (chat_Enqueue ev p w) = pg_view w;
  gate_EnqueueTargeted : ∀ ev p l w, I w →
    I (chat_EnqueueTargeted ev p l w) ∧ pg_view (DB := chat U) (chat_EnqueueTargeted ev p l w) = pg_view w;
  gate_IndexMessage : ∀ a b c d t w, I w →
    I (IndexMessage a b c d t w) ∧ pg_view (DB := chat U) (IndexMessage a b c d t w) = pg_view w;
  gate_IndexUpdate : ∀ a b w, I w →
    I (IndexUpdate a b w) ∧ pg_view (DB := chat U) (IndexUpdate a b w) = pg_view w;
  gate_IndexDelete : ∀ a w, I w → I (IndexDelete a w) ∧ pg_view (DB := chat U) (IndexDelete a w) = pg_view w;
  gate_audit : ∀ e w, I w → I (audit_Record e w) ∧ pg_view (DB := chat U) (audit_Record e w) = pg_view w }.

Tactic Notation "use" uconstr(lem) := eapply lem; try exact _.

Section handlers.
Context {U W : Type} `{UUIDLaws U} `{!RandomUUID U} `{!UUIDOrder U} `{PostgresLaws (chat U) W} `{Clock W}.
Context `{PermissionLib} `{!ChatPermissions} `{!Store U W} `{!Cache U W} `{!Valkey W}.
Context `{!ChatGateway U W} `{!SearchIndex W} `{GatewayQueue W} `{!AuditLog U W} `{!ChatEventNames}.
Context `{ApiErrors} `{!ChatErrors} `{TimeFormat} `{!StorageProvider}.
Context (I : W → Prop) `{!Stable (chat U) I} (granted : U → U → Z → Prop) `{!Gatekeeper I granted}.
Context (h : chat_handler) (maxDevices : Z).
Implicit Types (d : chat U) (c : request U) (u id ch m : U).
Abbreviation steps := (λ u, rtc (chat_step granted (maxContent h) maxDevices u)).

(** ** What leaves the tables alone *)
Lemma idle_enqueue ev p : idle I (enqueue (U := U) h ev p).
Proof. unfold enqueue, when. destruct (ch_gateway h); [|idle]. apply idle_modify, gate_Enqueue. Qed.
Lemma idle_enqueue_targeted ev p l : idle I (enqueue_targeted (U := U) h ev p l).
Proof. unfold enqueue_targeted, when. destruct (ch_gateway h); [|idle]. apply idle_modify, gate_EnqueueTargeted. Qed.
Lemma idle_audit e : idle I (audit (U := U) h e).
Proof. unfold audit, when. destruct (ch_audit h); [|idle]. apply idle_modify, gate_audit. Qed.
Lemma idle_index_message a1 a2 a3 a4 t : idle I (index h (IndexMessage (W := W) a1 a2 a3 a4 t)).
Proof. unfold index, when. destruct (ch_indexer h); [|idle]. apply idle_modify, gate_IndexMessage. Qed.
Lemma idle_index_update a b : idle I (index h (IndexUpdate (W := W) a b)).
Proof. unfold index, when. destruct (ch_indexer h); [|idle]. apply idle_modify, gate_IndexUpdate. Qed.
Lemma idle_index_delete a : idle I (index h (IndexDelete (W := W) a)).
Proof. unfold index, when. destruct (ch_indexer h); [|idle]. apply idle_modify, gate_IndexDelete. Qed.
#[local] Hint Resolve idle_enqueue idle_enqueue_targeted idle_audit idle_index_message idle_index_update
  idle_index_delete : idle.
Lemma idle_UserID c : idle I (UserID (W := W) c).
Proof. eapply asks_idle, UserID_asks. Qed.
Lemma idle_SetTyping ch u : idle I (SetTyping (W := W) ch u).
Proof. apply gate_SetTyping. Qed.
Lemma idle_ClearTyping ch u : idle I (ClearTyping (W := W) ch u).
Proof. apply gate_ClearTyping. Qed.
#[local] Hint Resolve idle_UserID idle_SetTyping idle_ClearTyping : idle.
Lemma idle_clear_typing ch u : idle I (clear_typing (W := W) h ch u).
Proof. unfold clear_typing, when. idle. Qed.
Lemma idle_Attachment_List id : idle I (AttachmentRepo.ListByMessage (W := W) id).
Proof. unfold AttachmentRepo.ListByMessage. idle. Qed.
Lemma idle_Attachment_Lists (ids : list U) : idle I (AttachmentRepo.ListByMessages (W := W) ids).
Proof. unfold AttachmentRepo.ListByMessages. idle. Qed.
Lemma idle_Summaries (ids : list U) : idle I (ReactionRepo.SummariesByMessages (W := W) ids).
Proof. unfold ReactionRepo.SummariesByMessages. idle. Qed.
Lemma idle_UserReactions (ids : list U) u : idle I (ReactionRepo.UserReactionsByMessages (W := W) ids u).
Proof. unfold ReactionRepo.UserReactionsByMessages. idle. Qed.
#[local] Hint Resolve idle_clear_typing idle_Attachment_List idle_Attachment_Lists idle_Summaries
  idle_UserReactions : idle.
Lemma idle_with_enrichment {A} (ids : list U) u (k : (U → messageEnrichment U) → M W (response A)) :
  (∀ e, idle I (k e)) → idle I (with_enrichment ids u k).
Proof. intros Hk. unfold with_enrichment. idle. Qed.

(** ** Refusals *)
Ltac refuses := intros; repeat match goal with
  | |- declines _ (if ?b then _ else _) => destruct b
  end; auto with declines.
Lemma mapMessageError_declines {A} e : declines I (mapMessageError (W := W) (A := A) e).
Proof. unfold mapMessageError. refuses. Qed.
Lemma mapAttachmentError_declines {A} e : declines I (mapAttachmentError (W := W) (A := A) e).
Proof. unfold mapAttachmentError. refuses. Qed.
Lemma mapPinError_declines {A} e : declines I (mapPinError (W := W) (A := A) e).
Proof. unfold mapPinError. refuses. Qed.
Lemma mapThreadError_declines {A} e : declines I (mapThreadError (W := W) (A := A) e).
Proof. unfold mapThreadError. refuses. Qed.
Lemma mapReactionError_declines {A} e : declines I (mapReactionError (W := W) (A := A) e).
Proof. unfold mapReactionError. refuses. Qed.
Lemma mapReadStateError_declines {A} e : declines I (mapReadStateError (W := W) (A := A) e).
Proof. unfold mapReadStateError. refuses. Qed.
#[local] Hint Resolve mapMessageError_declines mapAttachmentError_declines mapPinError_declines
  mapThreadError_declines mapReactionError_declines mapReadStateError_declines : declines.

(** ** Checks *)
Lemma content_valid s max t : Validate.Message.ValidateContent s max = Ok t → valid_content max t.
Proof.
  unfold Validate.Message.ValidateContent, valid_content. case_bool_decide as Hne; [done|].
  destruct (Z.ltb_spec max (RuneCountInString (TrimSpace s))); [done|]. intros [= <-].
  pose proof (RuneCount_pos _ Hne). right. lia.
Qed.
Lemma serves_reply {A} raw (k : option U → M W (response A)) (Q : chat U → chat U → Prop) :
  (∀ o, serves I (k o) Q) → serves I (parse_reply raw k) Q.
Proof.
  intros Hk. destruct raw as [s|]; simpl; [|auto]. destruct (uuid_Parse s); [auto|].
  apply serves_decline. auto with declines.
Qed.
Lemma serves_body {A} body (k : string → list U → option U → M W (response A)) (Q : chat U → chat U → Prop) :
  (∀ s ids o, valid_content (maxContent h) s → serves I (k s ids o) Q) → serves I (with_body h body k) Q.
Proof.
  intros Hk. unfold with_body. destruct (_ <? _); [apply serves_decline; auto with declines|].
  destruct (parse_all _) as [ids|]; [|apply serves_decline; auto with declines]. cbv zeta.
  apply serves_of_res; [auto with declines|]. intros s E. apply serves_reply. intros o. apply Hk.
  destruct (Validate.Message.ValidateContent _ _) as [t|e] eqn:Ev.
  - injection E as <-. by eapply content_valid.
  - destruct (_ && _); [|done]. injection E as <-. by left.
Qed.
Lemma serves_require {A} u ch p msg (k : M W (response A)) (Q : chat U → chat U → Prop) :
  serves I k (λ d d', granted u ch p → Q d d') → serves I (require_in u ch p msg k) Q.
Proof.
  intros Hk. unfold require_in. apply (serves_ask _ _ _ _ _ _ (gate_permission u ch p)); [auto with declines|].
  intros []; simpl; [|apply serves_decline; auto with declines].
  eapply serves_weaken; [exact Hk|]. auto.
Qed.

(** ** message.go *)
Lemma steps_one u d d' : chat_step granted (maxContent h) maxDevices u d d' → steps u d d'.
Proof. apply rtc_once. Qed.
Lemma live_row id d r : messages d !! id = Some r → is_live r = true → live_in id (r_channel r) d = true.
Proof. intros Hr Hl. unfold live_in. rewrite Hr, Hl, bool_decide_eq_true_2; done. Qed.
Lemma posted u (p : Message.CreateParams U) d msg d1 :
  created p d msg d1 → Message.cp_AuthorID p = u → valid_content (maxContent h) (Message.cp_Content p) →
  may_post granted u p d → chat_step granted (maxContent h) maxDevices u d d1.
Proof.
  intros (Hn & Hu & Hr & Hid & ->) Ha Hc Hp. apply step_post; try done. by rewrite <-Ha.
Qed.
Lemma linked_step u (p : Message.CreateParams U) ids d msg d1 d2 :
  created p d msg d1 → Message.cp_AuthorID p = u → linked ids (Message.ID msg) u d1 d2 →
  chat_step granted (maxContent h) maxDevices u d1 d2.
Proof.
  intros (Hn & Hu & Hr & Hid & ->) Ha ->. eapply (step_link _ _ _ u _ ids _ (new_row p (c_now d))); [|exact Ha]. rewrite Hid.
  unfold put_message, messages. simpl. apply lookup_insert_eq.
Qed.
(** Creating a message, linking its attachments, and telling the world. *)
Lemma serves_create {B} u (p : Message.CreateParams U) ids
    (k : Message.Message U → list (Attachment.Attachment U) → M W (response B)) (Q : chat U → chat U → Prop) :
  Message.cp_AuthorID p = u → valid_content (maxContent h) (Message.cp_Content p) →
  (∀ msg l, idle I (k msg l)) →
  (∀ d d', (may_post granted u p d → steps u d d') → Q d d') →
  serves I (catch (MessageRepo.Create p) mapMessageError (λ msg,
    catch (link_all ids (Message.ID msg) u) mapAttachmentError (k msg))) Q.
Proof.
  intros Ha Hc Hk HQ.
  eapply serves_do; [use Message_Create_does|auto with declines|..].
  - intros msg. eapply (runs_weaken _ _ (λ d1 d2, ∀ d, created p d msg d1 → steps u d1 d2)).
    + eapply (runs_catch _ _ _ _ (λ d _ d', d' = d ∨ linked ids (Message.ID msg) u d d'));
        [|auto with declines|auto|by constructor|].
      * destruct ids as [|i ids]; simpl; [eapply does_weaken; [apply does_asks, idle_ret|]; intros d a d' [-> _]; by left|].
        eapply does_weaken; [use LinkToMessage_does|]. intros d a d' Hl. by right.
      * intros d _ d' [->|Hl] d0 Hd; [by constructor|]. apply steps_one. by eapply linked_step.
    + intros d1 d2 Hs d Hd. apply HQ. intros Hp. eapply rtc_l; [by eapply posted|]. by eapply Hs.
  - intros d msg d1 Hd. apply HQ. intros Hp. apply steps_one. by eapply posted.
Qed.
Lemma CreateMessage_serves c body u :
  Locals_userID c = Some u →
  (∀ ch, uuid_Parse (Params c "channelID") = Ok ch → granted u ch SendMessages) →
  serves I (CreateMessage h c body) (steps u).
Proof.
  intros Hu Hg. unfold CreateMessage. apply serves_param. intros ch Hch. apply (serves_UserID I c u); [done|].
  apply serves_Bind. intros b _. apply serves_body. intros s ids o Hc.
  apply (serves_create u); [done|done| |].
  - intros msg l. cbv zeta. idle.
  - intros d d' Hs. apply Hs. by apply Hg.
Qed.
Lemma EditMessage_serves c body u :
  Locals_userID c = Some u → serves I (EditMessage h c body) (steps u).
Proof.
  intros Hu. unfold EditMessage. apply serves_param. intros id _. apply (serves_UserID I c u); [done|].
  apply serves_Bind. intros b _. apply serves_of_res; [auto with declines|]. intros s Hs.
  eapply serves_ask; [use Message_GetByID_asks|auto with declines|]. intros msg.
  destruct (bool_decide_reflect (Message.AuthorID msg = u)) as [Ha|]; simpl;
    [|apply serves_decline; auto with declines].
  eapply serves_done; [use Update_does|auto with declines|intros a; cbv zeta; idle|].
  intros d a d1 (r & Hr & Hl & ->) Hm. apply steps_one.
  apply find_message_row in Hm as (r' & Hr' & _ & _ & _ & Hau). simplify_eq.
  apply step_edit; try done. by eapply content_valid.
Qed.
Lemma DeleteMessage_serves c u :
  Locals_userID c = Some u → serves I (DeleteMessage h c) (steps u).
Proof.
  intros Hu. unfold DeleteMessage. apply serves_param. intros id _. apply (serves_UserID I c u); [done|].
  eapply serves_ask; [use Message_GetByID_asks|auto with declines|]. intros msg. cbv zeta.
  match goal with |- serves _ (if _ then ?m else _) _ => assert (Hdel : serves I m (λ d d',
    find_message id d = Some msg → Message.AuthorID msg = u ∨ granted u (Message.ChannelID msg) ManageMessages →
    steps u d d')) end.
  { eapply serves_done; [use SoftDelete_does|auto with declines|intros a; idle|].
    intros d a d1 (r & Hr & Hl & ->) Hm Hok. apply steps_one.
    apply find_message_row in Hm as (r' & Hr' & _ & _ & Hch & Hau). simplify_eq.
    apply step_delete; [done..|]. rewrite <-Hch, <-Hau. naive_solver. }
  destruct (bool_decide_reflect (Message.AuthorID msg = u)) as [Ha|Ha].
  - eapply serves_weaken; [exact Hdel|]. auto.
  - apply serves_require. eapply serves_weaken; [exact Hdel|]. auto.
Qed.

(** ** pin.go *)
Lemma idle_fullMessageModel msg u : idle I (fullMessageModel (W := W) msg u).
Proof. unfold fullMessageModel, or_zero. idle. Qed.
Lemma set_pin_serves c u update b action msg :
  Locals_userID c = Some u →
  (∀ id, does I (update id) (λ d _ d', ∃ p, edited (λ r, is_live r && p r) (set_pinned b) id d d')) →
  serves I (set_pin h c update action msg) (steps u).
Proof.
  intros Hu Hup. unfold set_pin. apply serves_param. intros id _. apply (serves_UserID I c u); [done|].
  eapply serves_ask; [use Message_GetByID_asks|auto with declines|]. intros m. apply serves_require.
  eapply serves_done; [use Hup|auto with declines|intros a|].
  - apply idle_bind; [idle|intros _]. apply idle_bind; [apply idle_fullMessageModel|]. intros []. idle.
  - intros d a d1 (p & r & Hr & [Hl _]%andb_true_iff & ->) Hg Hm. apply steps_one.
    apply find_message_row in Hm as (r' & Hr' & _ & _ & Hch & _). simplify_eq.
    apply step_pin; [done..|]. by rewrite <-Hch.
Qed.
Lemma PinMessage_serves c u : Locals_userID c = Some u → serves I (PinMessage h c) (steps u).
Proof.
  intros Hu. apply (set_pin_serves _ _ _ true); [done|]. intros id. eapply does_weaken; [use Pin_does|].
  intros d a d' He. by exists (λ r, negb (r_pinned r)).
Qed.
Lemma UnpinMessage_serves c u : Locals_userID c = Some u → serves I (UnpinMessage h c) (steps u).
Proof.
  intros Hu. apply (set_pin_serves _ _ _ false); [done|]. intros id. eapply does_weaken; [use Unpin_does|].
  intros d a d' He. by exists r_pinned.
Qed.

(** ** thread.go *)
Lemma required_name name t :
  Validate.Thread.ValidateNameRequired name = Ok t → 1 ≤ RuneCountInString t ≤ 100.
Proof. intros [_ ?]%trimmed_between_Ok. done. Qed.
Lemma CreateThread_serves c body u :
  Locals_userID c = Some u → serves I (CreateThread h c body) (steps u).
Proof.
  intros Hu. unfold CreateThread. apply serves_param. intros id _. apply (serves_UserID I c u); [done|].
  apply serves_Bind. intros b _. apply serves_of_res; [auto with declines|]. intros name Hname.
  eapply serves_ask; [use Message_GetByID_asks|auto with declines|]. intros msg. apply serves_require.
  eapply serves_done; [use Thread_Create_does|auto with declines|intros a; idle|].
  intros d a d1 (Hn & Hnt & Hl & ->) Hg Hm. apply steps_one.
  apply step_thread; try done. by eapply required_name.
Qed.
Lemma UpdateThread_serves c body u :
  Locals_userID c = Some u → serves I (UpdateThread h c body) (steps u).
Proof.
  intros Hu. unfold UpdateThread. apply serves_param. intros id _. apply (serves_UserID I c u); [done|].
  eapply serves_ask; [use Thread_GetByID_asks|auto with declines|]. intros t. apply serves_require.
  apply serves_Bind. intros b _. apply serves_of_res; [auto with declines|]. intros name _.
  eapply serves_done; [use Thread_Update_does|auto with declines|intros a; idle|].
  intros d a d1 [->|(t' & Ht' & Hlock & ->)] Hg Ht; [done|]. apply steps_one. simplify_eq.
  by apply step_thread_update.
Qed.
Lemma CreateThreadMessage_serves c body u :
  Locals_userID c = Some u → serves I (CreateThreadMessage h c body) (steps u).
Proof.
  intros Hu. unfold CreateThreadMessage. apply serves_param. intros id _. apply (serves_UserID I c u); [done|].
  eapply serves_ask; [use Thread_GetByID_asks|auto with declines|]. intros t.
  destruct (Thread.Archived t) eqn:Ea; [apply serves_decline; auto with declines|].
  destruct (Thread.Locked t) eqn:El; [apply serves_decline; auto with declines|]. apply serves_require.
  apply serves_Bind. intros b _. apply serves_body. intros s ids o Hc.
  apply (serves_create u); [done|done| |].
  - intros msg l. cbv zeta. pose proof idle_clear_typing. idle.
  - intros d d' Hs Hg Ht. apply Hs. unfold may_post. simpl. by exists t.
Qed.

(** ** reaction.go *)
Lemma serves_emoji {A} c (k : emoji_key U → M W (response A)) (Q : chat U → chat U → Prop) :
  (∀ e, (is_Some e.1 ↔ e.2 = None) → (∀ s, e.2 = Some s → plain_emoji s) → serves I (k e) Q) → serves I (with_emoji c k) Q.
Proof.
  intros Hk. unfold with_emoji, parseEmojiParam.
  destruct (bool_decide_reflect (Params c "emoji" = ""%string)) as [|Hne]; [apply serves_decline; auto with declines|].
  destruct (bool_decide_reflect (take 7 (bytes_of (Params c "emoji")) = bytes_of custom_prefix)) as [|Hcu];
    [destruct (uuid_Parse _); [|apply serves_decline; auto with declines]|];
    apply Hk; simpl; try (by split; [|intros [? [=]]]); try done; [split; [done|by intros ?]..|].
  by intros ? [= <-].
Qed.
Lemma AddReaction_serves c u :
  Locals_userID c = Some u →
  (∀ ch, uuid_Parse (Params c "channelID") = Ok ch → granted u ch AddReactions) →
  serves I (AddReaction h c) (steps u).
Proof.
  intros Hu Hg. unfold AddReaction. apply serves_param. intros ch Hch. apply serves_param. intros id _.
  apply (serves_UserID I c u); [done|]. apply serves_emoji. intros e He Hpl.
  eapply serves_ask; [use Message_GetByID_asks|auto with declines|]. intros msg.
  destruct (bool_decide_reflect (Message.ChannelID msg = ch)) as [Hm|]; simpl;
    [|apply serves_decline; auto with declines].
  assert (Hadd : serves (A := unit) I (catch (ReactionRepo.Add id u e) mapReactionError (λ _,
      enqueue h ReactionAdd (reaction_event id ch u e) ;; SendStatus StatusNoContent))
    (λ d d', find_message id d = Some msg → steps u d d')).
  { eapply serves_done; [use Add_does|auto with declines|intros a; idle|].
    intros d a d1 (Hn & Hre & _ & Hus & Hem & ->) Hf. apply steps_one.
    apply find_message_row in Hf as (r & Hr & Hl & _ & Hc & _).
    eapply step_react; try done. rewrite <-Hc, Hm. by apply Hg. }
  unfold check_emoji. destruct (e.1) as [i|]; [|exact Hadd].
  eapply serves_ask; [use Emoji_GetByID_asks|auto with declines|]. intros em.
  eapply serves_weaken; [exact Hadd|]. auto.
Qed.
Lemma RemoveReaction_serves c u :
  Locals_userID c = Some u → serves I (RemoveReaction h c) (steps u).
Proof.
  intros Hu. unfold RemoveReaction. apply serves_param. intros ch _. apply serves_param. intros id _.
  apply (serves_UserID I c u); [done|]. apply serves_emoji. intros e _ _.
  eapply serves_done; [use Remove_does|auto with declines|intros a; idle|].
  intros d a d1 ->. apply steps_one, step_unreact.
Qed.

(** ** readstate.go *)
Lemma Ack_serves c body u :
  Locals_userID c = Some u →
  (∀ ch, uuid_Parse (Params c "channelID") = Ok ch → granted u ch ViewChannels) →
  serves I (Ack h c body) (steps u).
Proof.
  intros Hu Hg. unfold Ack. apply (serves_UserID I c u); [done|]. apply serves_param. intros ch Hch.
  apply serves_Bind. intros b _. destruct (uuid_Parse (ack_MessageID b)) as [m|]; [|apply serves_decline; auto with declines].
  eapply serves_done; [use Ack_does|auto with declines|intros a; idle|].
  intros d a d1 (last & Hl & Hlast & ->). apply steps_one. apply (step_ack _ _ _ _ _ _ m); [done|by apply Hg|done].
Qed.

(** ** Endpoints that only read *)
Lemma idle_before {A} c (k : option U → M W (response A)) : (∀ o, idle I (k o)) → idle I (ParseBefore c k).
Proof. intros Hk. unfold ParseBefore. idle. Qed.
Lemma idle_require {A} u ch p msg (k : M W (response A)) : idle I k → idle I (require_in u ch p msg k).
Proof.
  intros Hk. unfold require_in. apply idle_catch; [eapply asks_idle, gate_permission|idle|]. intros []; simpl; [done|idle].
Qed.
Lemma idle_thread id : idle I (ThreadRepo.GetByID (U := U) (W := W) id).
Proof. eapply asks_idle. use Thread_GetByID_asks. Qed.
Lemma idle_mapThreadError {A} e : idle I (mapThreadError (W := W) (A := A) e).
Proof. apply idle_declines, mapThreadError_declines. Qed.
Ltac reads := repeat first
  [ apply idle_param; intros ? | apply idle_int; intros ? | apply idle_before; intros ?
  | apply idle_require | apply idle_with_enrichment; intros ? | idle_step ];
  unfold select_messages, select_pinned, select_threads, select_reactions; eauto using idle_thread, idle_mapThreadError with idle.
Lemma ListMessages_idle c : idle I (ListMessages (W := W) c).
Proof. unfold ListMessages, MessageRepo.List. reads. Qed.
Lemma ListPins_idle c : idle I (ListPins (W := W) c).
Proof. unfold ListPins, MessageRepo.ListPinned. reads. Qed.
Lemma ListThreads_idle c : idle I (ListThreads (W := W) c).
Proof. unfold ListThreads, ThreadRepo.ListByChannel. reads. Qed.
Lemma GetThread_idle c : idle I (GetThread (W := W) c).
Proof. unfold GetThread. reads. Qed.
Lemma ListThreadMessages_idle c : idle I (ListThreadMessages (W := W) c).
Proof. unfold ListThreadMessages, MessageRepo.ListByThread. reads. Qed.
Lemma ListReactions_idle c : idle I (ListReactions (W := W) c).
Proof. unfold ListReactions, ReactionRepo.ListByMessage. reads. Qed.
Lemma ListReactionUsers_idle c : idle I (ListReactionUsers (W := W) c).
Proof. unfold ListReactionUsers, with_emoji, ReactionRepo.ListByEmoji. reads. Qed.
Lemma StartTyping_idle c : idle I (StartTyping (W := W) h c).
Proof. unfold StartTyping. reads. Qed.
Lemma StopTyping_idle c : idle I (StopTyping (W := W) h c).
Proof. unfold StopTyping. reads. Qed.
End handlers.
