(* ===== verification/DmWrites.v ===== *)
(** * What the repositories of direct messages and keys write

    internal/dm and internal/e2ee in the logic of ChatLogic.v: conversations and their
    participants, devices, signed and one-time pre-keys, message keys. *)
From stdpp Require Import sorting.
From S2P Require Import Prelude GoStd Platform Permission Validate Postgres Domain GuildTables Http.
From S2P Require Import ApiLogic MemberProofs ChatTables DmTables ChatRepo ChatModel ChatLogic ChatSpec ChatInv.
From S2P Require Import ChatHistory ChatWrites.
Open Scope Z_scope.

Lemma size_filter_list `{Countable K} {A} (P : K * A → Prop) `{∀ x, Decision (P x)} (M : gmap K A) :
  size (filter P M) = length (filter P (map_to_list M)).
Proof.
  induction M as [|k x M Hk IH] using map_ind; [done|].
  rewrite (Permutation_length (filter_Permutation P _ _ (map_to_list_insert M k x Hk))), filter_cons.
  assert (Hf : filter P M !! k = None) by (apply map_lookup_filter_None; by left).
  destruct (decide (P (k, x))) as [Hp|Hp].
  - rewrite map_filter_insert_True, map_size_insert_None by done. simpl. by f_equal.
  - by rewrite map_filter_insert_not' by naive_solver.
Qed.

Section repositories.
Context {U W : Type} `{UUIDLaws U} `{!RandomUUID U} `{!UUIDOrder U} `{PostgresLaws (chat U) W}.
Context `{!LockedAggregates}.
Context (I : W → Prop) `{!Stable (chat U) I}.
Implicit Types (d : chat U) (id u v ch m dev : U).
Ltac tx_error ::= first [apply unique_error_driver | apply on_err_driver
  | (intros ?; cbv zeta; by apply unique_error_driver, from_driver_wrap)
  | (intros ?; by apply on_err_driver, from_driver_wrap)].

(** ** internal/dm *)
Lemma insert_participant_Ok ch u d a d' : insert_participant ch u d = (Ok a, d') →
  is_participant ch u d = false ∧ is_Some (c_users d !! u) ∧ d' = put_participant ch d u.
Proof.
  unfold insert_participant. intros E. run_statement. destruct (is_participant ch u d); [done|].
  take_conditions. injection E as _ <-. by split_and!.
Qed.
Lemma is_participant_put ch u v d :
  is_participant ch u (put_participant ch d v) = bool_decide (v = u) || is_participant ch u d.
Proof.
  unfold is_participant, put_participant, participants. simpl. destruct (bool_decide_reflect (v = u)) as [->|].
  - rewrite lookup_insert_eq. done.
  - by rewrite lookup_insert_ne by congruence.
Qed.
Lemma insert_participants_Ok ch l c d a d' :
  for_each l (λ u, wrap c (insert_participant ch u)) d = (Ok a, d') →
  NoDup l ∧ known l d ∧ (∀ u, u ∈ l → is_participant ch u d = false) ∧ d' = put_participants ch l d.
Proof.
  revert d. induction l as [|u l IH]; intros d E.
  - injection E as _ <-. split_and!; [apply NoDup_nil_2|apply Forall_nil_2|by intros u ?%elem_of_nil|done].
  - apply bind_Ok_inv in E as (x & d1 & E1 & E). apply wrap_Ok_inv, insert_participant_Ok in E1 as (Hn & Hu & ->).
    apply IH in E as (Hnd & Hk & Hno & ->). split_and!; [| | |done].
    + apply NoDup_cons. split; [|done]. intros Hin. specialize (Hno u Hin).
      rewrite is_participant_put, bool_decide_eq_true_2 in Hno; done.
    + by apply Forall_cons.
    + intros v [->|Hv]%elem_of_cons; [done|]. specialize (Hno v Hv). rewrite is_participant_put in Hno.
      by apply orb_false_iff in Hno as [_ ?].
Qed.
Lemma insert_dm_Ok type name owner d c d' : insert_dm type name owner d = (Ok c, d') →
  dm_channels d !! next_uuid d = None ∧ c = Dm.mkChannel (next_uuid d) type name owner (c_now d) (c_now d) ∧
  d' = put_dm c (tick d).
Proof.
  unfold insert_dm. intros E. run_statement. cbv zeta in E. simpl in E.
  destruct (_ || _); [done|]. take_conditions. injection E as <- <-. by split_and!.
Qed.
Definition conversation (c : Dm.Channel U) (l : list U) d : chat U :=
  put_participants (Dm.ID c) l (put_dm c (tick d)).
Definition new_dm (type : string) name owner d : Dm.Channel U :=
  Dm.mkChannel (next_uuid d) type name owner (c_now d) (c_now d).
Lemma CreateDM_does u v : does I (DmRepo.CreateDM (W := W) u v) (λ d c d',
  (find_dm u v d = Some c ∧ d' = d) ∨
  (find_dm u v d = None ∧ u ≠ v ∧ known [u; v] d ∧ dm_channels d !! next_uuid d = None ∧
   c = new_dm TypeDM None None d ∧ d' = conversation c [u; v] d)).
Proof.
  eapply does_tx; [exact _|unfold DmRepo.add_all; calm|unfold DmRepo.add_all; tx_steps|].
  intros d c d' E. apply bind_Ok_inv in E as (o & d1 & E1 & E). apply wrap_Ok_inv in E1. injection E1 as <- <-.
  destruct (find_dm u v d) as [c0|]; [left; by injection E as <- <-|right].
  apply bind_Ok_inv in E as (c1 & d2 & E2 & E). apply wrap_Ok_inv, insert_dm_Ok in E2 as (Hn & -> & ->).
  apply bind_Ok_inv in E as (x & d3 & E3 & E). apply insert_participants_Ok in E3 as (Hnd & Hk & _ & ->).
  injection E as <- <-. apply NoDup_cons in Hnd as [Huv _]. split_and!; try done.
  intros ->. apply Huv. by left.
Qed.

Lemma unique_from_spec seen (l : list U) u :
  u ∈ DmRepo.unique_from seen l ↔ u ∈ l ∧ u ∉ seen.
Proof.
  revert seen. induction l as [|v l IH]; intros seen; simpl; [set_solver|].
  destruct (bool_decide_reflect (v ∈ seen)).
  - rewrite IH, elem_of_cons. set_solver.
  - rewrite elem_of_cons, IH, elem_of_cons. destruct (decide (u = v)); set_solver.
Qed.
Lemma uniqueUUIDs_spec (l : list U) u : u ∈ DmRepo.uniqueUUIDs l ↔ u ∈ l.
Proof. unfold DmRepo.uniqueUUIDs. rewrite unique_from_spec. set_solver. Qed.
Lemma CreateGroupDM_does u name l : does I (DmRepo.CreateGroupDM (W := W) u name l) (λ d c d', ∃ l',
  NoDup l' ∧ (length l' ≤ 10)%nat ∧ (∀ v, v ∈ l' ↔ v = u ∨ v ∈ l) ∧ known l' d ∧
  dm_channels d !! next_uuid d = None ∧
  c = new_dm TypeGroupDM (Some name) (Some u) d ∧ d' = conversation c l' d).
Proof.
  unfold DmRepo.CreateGroupDM. cbv zeta. set (l' := DmRepo.uniqueUUIDs _).
  unfold DmRepo.MaxGroupDMParticipants. destruct (Z.ltb_spec 10 (Z.of_nat (length l'))) as [|Hlen].
  { eapply does_weaken; [eapply does_asks, (asks_fail _ _ (λ _ _, False))|]. by intros d a d' [_ ?]. }
  eapply does_tx; [exact _|unfold DmRepo.add_all; calm|unfold DmRepo.add_all; tx_steps|].
  intros d c d' E. apply bind_Ok_inv in E as (c1 & d2 & E2 & E). apply wrap_Ok_inv, insert_dm_Ok in E2 as (Hn & -> & ->).
  apply bind_Ok_inv in E as (x & d3 & E3 & E). apply insert_participants_Ok in E3 as (Hnd & Hk & _ & ->).
  injection E as <- <-. exists l'. split_and!; try done; [lia|]. intros v. unfold l'.
  rewrite uniqueUUIDs_spec, elem_of_app, list_elem_of_singleton. tauto.
Qed.
Lemma DM_GetByID_asks id : asks I (DmRepo.GetByID (W := W) id) (λ d c, dm_channels d !! id = Some c).
Proof. apply asks_map_err. apply asks_found; exact _. Qed.
Lemma IsParticipant_asks ch u :
  asks I (DmRepo.IsParticipant (W := W) ch u) (λ d b, b = is_participant ch u d).
Proof. apply asks_wrap. apply asks_gets; [exact _|]. done. Qed.

Lemma members_count ch d : length (members_of ch d) = group_size (c_dms d) ch.
Proof.
  unfold members_of, group_size. rewrite size_filter_list. unfold participants.
  induction (map_to_list (d_participants (c_dms d))) as [|[[a b] t] l IH]; [done|]. simpl.
  rewrite filter_cons. simpl. destruct (bool_decide_reflect (a = ch)), (decide (a = ch)); simpl; try done;
    first [f_equal; exact IH|exact IH].
Qed.
Context `{!LockedAggregatesCount}.
Lemma count_participants_Ok ch d n d' : count_participants ch d = (Ok n, d') →
  n = Z.of_nat (group_size (c_dms d) ch) ∧ d' = d.
Proof. intros [= Hn <-]. apply locked_count in Hn as ->. by rewrite members_count. Qed.
Lemma AddParticipant_does ch u : does I (DmRepo.AddParticipant (W := W) ch u) (λ d _ d',
  (group_size (c_dms d) ch < 10)%nat ∧ is_participant ch u d = false ∧ is_Some (c_users d !! u) ∧
  d' = put_participant ch d u).
Proof.
  eapply does_tx; [exact _|calm|unfold DmRepo.add_error; tx_steps|]. intros d a d' E.
  apply bind_Ok_inv in E as (n & d1 & E1 & E). apply wrap_Ok_inv, count_participants_Ok in E1 as [-> ->].
  unfold DmRepo.MaxGroupDMParticipants in E. destruct (Z.leb_spec 10 (Z.of_nat (group_size (c_dms d) ch))); [done|].
  apply map_err_inv in E as ([] & E & [=]). apply insert_participant_Ok in E as (? & ? & ->). split_and!; try done. lia.
Qed.
Lemma RemoveParticipant_does ch u : does I (DmRepo.RemoveParticipant (W := W) ch u) (λ d _ d',
  is_participant ch u d = true ∧ d' = set_dms (on_participants (delete (ch, u))) d).
Proof.
  eapply (does_rows _ _ _ (λ d d', is_participant ch u d = true ∧ d' = set_dms (on_participants (delete (ch, u))) d)).
  - apply does_wrap; [exact _|]. intros d n d' E. unfold delete_participant in E. run_statement.
    destruct (is_participant ch u d); simplify_eq; [by right|by left].
  - eapply asks_weaken; [apply rows_affected_asks|done].
  - intros n _. eapply asks_idle, rows_affected_asks.
Qed.
Lemma idle_ListParticipants ch : idle I (DmRepo.ListParticipants (W := W) ch).
Proof. unfold DmRepo.ListParticipants, select_participants. idle. Qed.
Lemma idle_ListDMPeers u : idle I (DmRepo.ListDMPeers (W := W) u).
Proof. unfold DmRepo.ListDMPeers, select_peers. idle. Qed.

(** ** internal/e2ee: devices *)
Lemma device_of_Some u dev d x : device_of u dev d = Some x →
  ∃ id, devices d !! id = Some x ∧ Key.UserID x = u ∧ Key.DeviceID x = dev.
Proof.
  unfold device_of. intros E. destruct (map_to_list _) as [|[id y] l] eqn:El; [done|]. injection E as <-.
  assert (Hin : (id, y) ∈ map_to_list (filter (λ p, Key.UserID p.2 = u ∧ Key.DeviceID p.2 = dev) (devices d)))
    by (rewrite El; apply list_elem_of_here).
  apply elem_of_map_to_list, map_lookup_filter_Some in Hin as [? [? ?]]. by exists id.
Qed.
Lemma length_filter_fmap {A B} (f : A → B) (P : B → Prop) `{∀ y, Decision (P y)} (l : list A) :
  length (filter P (f <$> l)) = length (filter (λ x, P (f x)) l).
Proof.
  induction l as [|x l IH]; [done|]. rewrite fmap_cons, !filter_cons. destruct (decide (P (f x))); simpl; lia.
Qed.
Lemma devices_count u d : length (devices_of u d) = device_count (c_keys d) u.
Proof.
  unfold devices_of, device_count. rewrite (Permutation_length (merge_sort_Permutation _ _)).
  by rewrite length_filter_fmap, size_filter_list.
Qed.
Lemma count_devices_Ok u d n d' : count_devices u d = (Ok n, d') →
  n = Z.of_nat (device_count (c_keys d) u) ∧ d' = d.
Proof. intros [= Hn <-]. apply locked_count in Hn as ->. by rewrite devices_count. Qed.
Definition new_device u dev label key d : Key.Device U :=
  Key.mkDevice (next_uuid d) u dev label key (c_now d) (c_now d).
Lemma insert_device_Ok u dev label key d x d' : insert_device u dev label key d = (Ok x, d') →
  len key = 32 ∧ devices d !! next_uuid d = None ∧ device_of u dev d = None ∧ is_Some (c_users d !! u) ∧
  x = new_device u dev label key d ∧ d' = set_keys (on_devices <[next_uuid d := x]>) (tick d).
Proof.
  unfold insert_device. intros E. run_statement. cbv zeta in E. destruct (Z.eqb_spec (len key) 32); [|done].
  simpl in E. take_conditions. injection E as <- <-. by split_and!.
Qed.
Lemma RegisterDevice_does maxDevices (p : E2eeRepo.RegisterDeviceParams U) :
  does I (E2eeRepo.RegisterDevice (W := W) maxDevices p) (λ d x d',
    Z.of_nat (device_count (c_keys d) (E2eeRepo.rd_UserID p)) < maxDevices ∧
    len (E2eeRepo.rd_IdentityKey p) = 32 ∧ devices d !! next_uuid d = None ∧
    device_of (E2eeRepo.rd_UserID p) (E2eeRepo.rd_DeviceID p) d = None ∧
    is_Some (c_users d !! E2eeRepo.rd_UserID p) ∧
    x = new_device (E2eeRepo.rd_UserID p) (E2eeRepo.rd_DeviceID p) (E2eeRepo.rd_Label p) (E2eeRepo.rd_IdentityKey p) d ∧
    d' = set_keys (on_devices <[next_uuid d := x]>) (tick d)).
Proof.
  eapply does_tx; [exact _|calm|unfold E2eeRepo.unique_error; tx_steps|]. intros d x d' E.
  apply bind_Ok_inv in E as (n & d1 & E1 & E). apply wrap_Ok_inv, count_devices_Ok in E1 as [-> ->].
  destruct (Z.leb_spec maxDevices (Z.of_nat (device_count (c_keys d) (E2eeRepo.rd_UserID p)))); [done|].
  apply map_err_inv in E as ([y|] & E & [= ->]). apply insert_device_Ok in E as (? & ? & ? & ? & ? & ?). by split_and!.
Qed.
Lemma GetDevice_asks u dev :
  asks I (E2eeRepo.GetDeviceByDeviceID (W := W) u dev) (λ d x, device_of u dev d = Some x).
Proof. apply asks_map_err. apply asks_found; exact _. Qed.
Lemma RemoveDevice_does id : does I (E2eeRepo.RemoveDevice (W := W) id) (λ d _ d',
  is_Some (devices d !! id) ∧ d' = set_keys (drop_device id) d).
Proof.
  eapply (does_rows _ _ _ (λ d d', is_Some (devices d !! id) ∧ d' = set_keys (drop_device id) d)).
  - apply does_wrap; [exact _|]. intros d n d' E. unfold delete_device in E. run_statement.
    destruct (devices d !! id) as [x|]; simplify_eq; [right|by left]. split_and!; [done|eauto|done].
  - eapply asks_weaken; [apply rows_affected_asks|done].
  - intros n _. eapply asks_idle, rows_affected_asks.
Qed.
Lemma UpdateIdentityKey_does id key : does I (E2eeRepo.UpdateIdentityKey (W := W) id key) (λ d _ d', ∃ x,
  devices d !! id = Some x ∧ len key = 32 ∧ d' = set_keys (on_devices <[id := set_identity key (c_now d) x]>) d).
Proof.
  apply does_query; [exact _|intros e; apply on_err_driver|]. intros d a d' E. unfold update_identity in E.
  run_statement. destruct (devices d !! id) as [x|]; [|done]. destruct (Z.eqb_spec (len key) 32); [|done].
  injection E as _ <-. by exists x.
Qed.

(** ** Pre-keys *)
Definition activated dev (n : Z) key sig d : chat U :=
  set_keys (λ k, on_spks <[next_uuid d := Key.mkSignedPreKey (next_uuid d) dev n key sig true (c_now d)]>
    (on_spks (fmap (deactivate dev)) k)) (tick d).
Lemma in_int4_send (n : Z) d a d' : send_int4 (U := U) (Some n) d = (Ok a, d') → d' = d.
Proof. unfold send_int4. destruct (in_int4 n); [|done]. by intros [= _ <-]. Qed.
Lemma UploadSignedPreKey_does (p : E2eeRepo.UploadSignedPreKeyParams U) :
  let dev := E2eeRepo.us_DeviceRowID p in
  does I (E2eeRepo.UploadSignedPreKey (W := W) p) (λ d _ d',
    is_Some (devices d !! dev) ∧ spks d !! next_uuid d = None ∧ spk_free dev (E2eeRepo.us_KeyID p) d ∧
    len (E2eeRepo.us_PublicKey p) = 32 ∧ len (E2eeRepo.us_Signature p) = 64 ∧
    d' = activated dev (E2eeRepo.us_KeyID p) (E2eeRepo.us_PublicKey p) (E2eeRepo.us_Signature p) d).
Proof.
  intros dev. eapply does_tx; [exact _|calm|unfold E2eeRepo.unique_error; tx_steps|]. intros d a d' E.
  apply bind_Ok_inv in E as (x & d1 & E1 & E). apply wrap_Ok_inv in E1. injection E1 as _ <-.
  apply map_err_inv in E as ([] & E & [=]). unfold insert_spk in E.
  apply bind_Ok_inv in E as (y & d2 & E2 & E). apply in_int4_send in E2 as ->.
  run_statement. destruct (Z.eqb_spec (len (E2eeRepo.us_PublicKey p)) 32); [|done].
  destruct (Z.eqb_spec (len (E2eeRepo.us_Signature p)) 64); [|done]. simpl in E. take_conditions. injection E as _ <-.
  unfold spks, devices in *. simpl in *. split_and!; try done.
  - match goal with H : (_ <$> _) !! _ = None |- _ => rewrite lookup_fmap, fmap_None in H; exact H end.
  - intros i s Hs [Hd Hn]. match goal with H : ¬ map_Exists _ _ |- _ => apply H end.
    exists i, (deactivate dev s). unfold spks in Hs. rewrite lookup_fmap, Hs. split; [done|].
    unfold deactivate. destruct (_ && _); done.
Qed.
Lemma UploadOneTimePreKeys_does dev (batch : list E2ee.UploadOPKParams) :
  does I (E2eeRepo.UploadOneTimePreKeys (W := W) dev batch)
    (λ d _ d', for_each batch (insert_opk dev) d = (Ok tt, d')).
Proof. apply does_query; [exact _|intros e; apply unique_error_driver|]. by intros d [] d'. Qed.
Lemma insert_opk_Ok dev k d a d' : insert_opk dev k d = (Ok a, d') →
  is_Some (devices d !! dev) ∧ opks d !! next_uuid d = None ∧ opk_free dev (E2ee.KeyID k) d ∧
  len (E2ee.PublicKey k) = 32 ∧ d' = add_opk (next_uuid d) dev k (tick d).
Proof.
  unfold insert_opk. intros E. apply bind_Ok_inv in E as (y & d2 & E2 & E). apply in_int4_send in E2 as ->.
  run_statement. destruct (Z.eqb_spec (len (E2ee.PublicKey k)) 32); [|done]. simpl in E. take_conditions.
  injection E as _ <-. split_and!; try done. intros i s Hs [Hd Hn].
  match goal with H : ¬ map_Exists _ _ |- _ => apply H end. by exists i, s.
Qed.
Lemma insert_message_key_Ok m dev key d a d' : insert_message_key m dev key d = (Ok a, d') →
  message_keys d !! (m, dev) = None ∧ is_Some (messages d !! m) ∧ is_Some (devices d !! dev) ∧
  d' = set_keys (on_message_keys <[(m, dev) := key]>) d.
Proof.
  unfold insert_message_key. intros E. run_statement. take_conditions. injection E as _ <-. by split_and!.
Qed.
Lemma StoreMessageKeys_does m (ks : gmap U string) :
  does I (E2eeRepo.StoreMessageKeys (W := W) m ks)
    (λ d _ d', for_each (map_to_list ks) (λ p, insert_message_key m p.1 p.2) d = (Ok tt, d')).
Proof.
  unfold E2eeRepo.StoreMessageKeys. destruct (bool_decide_reflect (ks = ∅)) as [->|].
  - eapply does_weaken; [apply does_asks, idle_ret|]. intros d [] d' [-> _]. by rewrite map_to_list_empty.
  - apply does_wrap; [exact _|]. by intros d [] d'.
Qed.

(** The bundle of a user: of each device with an active signed pre-key, that key and the
    one-time pre-key with the least number, which is deleted. *)
Inductive bundled : chat U → list (Key.Device U) → list (E2eeRepo.DeviceKeyBundle U) → chat U → Prop :=
| bundled_nil d : bundled d [] [] d
| bundled_skip d x l bs d' :
    active_spk (Key.ID x) d = None → bundled d l bs d' → bundled d (x :: l) bs d'
| bundled_bare d x l s bs d' :
    active_spk (Key.ID x) d = Some s → next_opk (Key.ID x) d = None → bundled d l bs d' →
    bundled d (x :: l) (E2eeRepo.mkDeviceKeyBundle x s None :: bs) d'
| bundled_take d x l s k bs d' :
    active_spk (Key.ID x) d = Some s → next_opk (Key.ID x) d = Some k →
    bundled (set_keys (on_opks (delete (Key.opk_ID k))) d) l bs d' →
    bundled d (x :: l) (E2eeRepo.mkDeviceKeyBundle x s (Some k) :: bs) d'.
Definition bundle_pure_step (x : Key.Device U) (rest : M (chat U) (list (E2eeRepo.DeviceKeyBundle U))) :
    M (chat U) (list (E2eeRepo.DeviceKeyBundle U)) :=
  spk ← wrap ("fetch spk for device " +:+ uuid_String (Key.ID x)) (select_spk (Key.ID x));
  match spk with
  | None => rest
  | Some spk =>
      opk ← wrap ("consume opk for device " +:+ uuid_String (Key.ID x)) (take_opk (Key.ID x));
      l ← rest; mret (E2eeRepo.mkDeviceKeyBundle x spk opk :: l)
  end.
Definition bundle_pure (l : list (Key.Device U)) : M (chat U) (list (E2eeRepo.DeviceKeyBundle U)) :=
  foldr bundle_pure_step (mret []) l.
Lemma bundle_devices_body l : tx_body (E2eeRepo.bundle_devices (W := W) l) (bundle_pure l).
Proof.
  induction l as [|x l IH]; [apply body_ret|]. simpl. unfold bundle_pure_step. tx_step; [tx_steps|].
  apply body_option; [exact IH|]. intros s. tx_step; [tx_steps|]. tx_step; [exact IH|]. tx_steps.
Qed.
Lemma bundle_pure_Ok l d bs d' : bundle_pure l d = (Ok bs, d') → bundled d l bs d'.
Proof.
  revert d bs. induction l as [|x l IH]; intros d bs E; [injection E as <- <-; constructor|].
  apply bind_Ok_inv in E as (spk & d1 & E1 & E). apply wrap_Ok_inv in E1. injection E1 as Hs <-.
  destruct spk as [s|]; [|apply bundled_skip; [done|by apply IH]].
  apply bind_Ok_inv in E as (opk & d2 & E2 & E). apply wrap_Ok_inv in E2.
  apply bind_Ok_inv in E as (bs' & d3 & E3 & E). injection E as <- <-. apply IH in E3.
  unfold take_opk in E2. run_statement. destruct (next_opk (Key.ID x) d) as [k|] eqn:Ek; injection E2 as <- <-.
  - by eapply bundled_take.
  - by eapply bundled_bare.
Qed.
Lemma calm_bundle_devices l : calm I (E2eeRepo.bundle_devices (W := W) l).
Proof. induction l as [|x l IH]; simpl; [calm|]. calm; exact IH. Qed.
Lemma FetchUserKeyBundle_does u : does I (E2eeRepo.FetchUserKeyBundle (W := W) u) (λ d b d',
  devices_of u d ≠ [] ∧ E2eeRepo.ub_UserID b = u ∧ bundled d (devices_of u d) (E2eeRepo.ub_Devices b) d').
Proof.
  eapply does_tx; [exact _|calm; apply calm_bundle_devices| |].
  - tx_steps. apply bundle_devices_body.
  - intros d b d' E. apply bind_Ok_inv in E as (l & d1 & E1 & E). apply wrap_Ok_inv in E1. injection E1 as <- <-.
    destruct (devices_of u d) as [|x l] eqn:El; [done|].
    apply bind_Ok_inv in E as (bs & d2 & E2 & E). apply bundle_pure_Ok in E2. injection E as <- <-. by split_and!.
Qed.
End repositories.
