(* ===== verification/DmProofs.v ===== *)
(** * The endpoints of direct messages and device keys keep the rules

    Every handler of DmApi.v changes the tables by steps of [chat_step] of its caller, or refuses
    and leaves them alone.  The handlers of the keys name a device by the key of its row as the
    row itself tells it, so their theorems are under the invariant of the tables. *)
From stdpp Require Import sorting.
From S2P Require Import Prelude GoStd Platform Permission Presence Validate Base64 Postgres Domain GuildTables Http.
From S2P Require Import MemberApi ApiLogic ChatTables DmTables ChatRepo ChatModel MessageApi DmApi ChatLogic.
From S2P Require Import ChatSpec ChatInv ChatHistory ChatWrites ChatProofs DmWrites.
Open Scope Z_scope.

Section handlers.
Context {U W : Type} `{UUIDLaws U} `{!RandomUUID U} `{!UUIDOrder U} `{PostgresLaws (chat U) W} `{Clock W}.
Context `{!LockedAggregates} `{!LockedAggregatesCount}.
Context `{PermissionLib} `{!ChatPermissions} `{!Store U W} `{!Cache U W} `{!Valkey W}.
Context `{!ChatGateway U W} `{!SearchIndex W} `{GatewayQueue W} `{!AuditLog U W} `{!ChatEventNames}.
Context `{ApiErrors} `{!ChatErrors} `{TimeFormat} `{!StorageProvider}.
Context (I : W → Prop) `{!Stable (chat U) I} (granted : U → U → Z → Prop) `{!Gatekeeper I granted}.
Context (h : chat_handler) (maxDevices opkThreshold : Z).
Implicit Types (d : chat U) (c : request U) (u v id ch m dev : U).
Abbreviation step := (chat_step granted (maxContent h) maxDevices).
Abbreviation steps := (λ u, rtc (step u)).

Lemma mapDMError_declines {A} e : declines I (DMHandler.mapDMError (W := W) (A := A) e).
Proof. unfold DMHandler.mapDMError. repeat case_match; auto with declines. Qed.
Lemma mapE2EEError_declines {A} e : declines I (E2EEHandler.mapE2EEError (W := W) (A := A) e).
Proof. unfold E2EEHandler.mapE2EEError. repeat case_match; auto with declines. Qed.
#[local] Hint Resolve mapDMError_declines mapE2EEError_declines mapMessageError_declines : declines.
Lemma idle_targeted ev p l : idle I (enqueue_targeted (U := U) h ev p l).
Proof. exact (idle_enqueue_targeted I granted h ev p l). Qed.
Lemma idle_targets ch : idle I (DMHandler.targets (W := W) ch).
Proof. unfold DMHandler.targets. apply idle_bind; [apply idle_try; use idle_ListParticipants|]. intros r. idle. Qed.
#[local] Hint Resolve idle_targeted idle_targets : idle.

(** ** dm.go *)
Lemma serves_participant {A} (next : request U → M W (response A)) c u (Q : chat U → chat U → Prop) :
  Locals_userID c = Some u →
  serves I (next c) (λ d d', (∀ ch, uuid_Parse (Params c "channelID") = Ok ch → is_participant ch u d = true) → Q d d') →
  serves I (DMHandler.RequireParticipant next c) Q.
Proof.
  intros Hu Hn. unfold DMHandler.RequireParticipant. apply (serves_UserID I c u); [done|].
  apply serves_param. intros ch Hch. eapply serves_ask; [use IsParticipant_asks|auto with declines|].
  intros []; simpl; [|apply serves_decline; auto with declines].
  eapply serves_weaken; [exact Hn|]. intros d d' HQ Hp. apply HQ. intros ch' Hch'. rewrite Hch in Hch'. by injection Hch' as <-.
Qed.
Lemma CreateDMChannel_serves c body u :
  Locals_userID c = Some u → serves I (DMHandler.CreateDMChannel h c body) (steps u).
Proof.
  intros Hu. unfold DMHandler.CreateDMChannel. apply (serves_UserID I c u); [done|].
  apply serves_Bind. intros b _. destruct (_ || _).
  - destruct (bool_decide _); [apply serves_decline; auto with declines|].
    destruct (parse_all _) as [ids|]; [|apply serves_decline; auto with declines].
    eapply serves_done; [use CreateGroupDM_does|auto with declines|intros a; idle|].
    intros d a d1 (l & Hnd & Hlen & Hin & Hk & Hn & -> & ->). apply rtc_once.
    apply (step_group _ _ _ u d (cd_Name b) l); try done. by apply Hin; left.
  - destruct (uuid_Parse _) as [v|]; [|apply serves_decline; auto with declines].
    eapply serves_done; [use CreateDM_does|auto with declines|intros a; idle|].
    intros d a d1 [[_ ->]|(Hf & Hne & Hk & Hn & -> & ->)]; [done|]. apply rtc_once. by apply step_dm.
Qed.
Lemma AddParticipant_serves c body u :
  Locals_userID c = Some u →
  serves I (DMHandler.RequireParticipant (λ c, DMHandler.AddParticipant c body) c) (steps u).
Proof.
  intros Hu. apply (serves_participant _ _ u); [done|]. unfold DMHandler.AddParticipant.
  apply (serves_UserID I c u); [done|]. apply serves_param. intros ch Hch.
  eapply serves_ask; [use DM_GetByID_asks|auto with declines|]. intros x.
  destruct (bool_decide_reflect (Dm.Type_ x = TypeGroupDM)); simpl; [|apply serves_decline; auto with declines].
  destruct (bool_decide_reflect (Dm.OwnerID x = Some u)); simpl; [|apply serves_decline; auto with declines].
  apply serves_Bind. intros b _. destruct (uuid_Parse (ap_UserID b)) as [v|]; [|apply serves_decline; auto with declines].
  eapply serves_done; [use AddParticipant_does|auto with declines|intros a; idle|].
  intros d a d1 (Hs & Hv & Hus & ->) Hx Hp. apply rtc_once. by eapply step_add; auto.
Qed.
Lemma RemoveParticipant_serves c u :
  Locals_userID c = Some u →
  serves I (DMHandler.RequireParticipant DMHandler.RemoveParticipant c) (steps u).
Proof.
  intros Hu. apply (serves_participant _ _ u); [done|]. unfold DMHandler.RemoveParticipant.
  apply (serves_UserID I c u); [done|]. apply serves_param. intros ch Hch.
  eapply serves_ask; [use DM_GetByID_asks|auto with declines|]. intros x.
  destruct (bool_decide_reflect (Dm.Type_ x = TypeGroupDM)); simpl; [|apply serves_decline; auto with declines].
  apply serves_param. intros v _. destruct (_ && _) eqn:Ec; [apply serves_decline; auto with declines|].
  eapply serves_done; [use RemoveParticipant_does|auto with declines|intros a; idle|].
  intros d a d1 (Hv & ->) Hx Hp. apply rtc_once. eapply step_remove; [done|done|by apply Hp|].
  apply andb_false_iff in Ec as [Ec|Ec]; apply negb_false_iff, bool_decide_eq_true in Ec; auto.
Qed.
Lemma message_keys_steps u id (l : list (U * string)) d d' :
  (∃ r, messages d !! id = Some r ∧ r_author r = u) →
  for_each l (λ p, insert_message_key id p.1 p.2) d = (Ok tt, d') → steps u d d'.
Proof.
  revert d. induction l as [|[dev key] l IH]; intros d (r & Hr & Ha) E; [by injection E as <-|].
  apply bind_Ok_inv in E as (x & d1 & E1 & E). apply insert_message_key_Ok in E1 as (Hn & _ & Hd & ->).
  eapply rtc_l; [by apply (step_message_key _ _ _ u d id r dev key)|]. apply IH; [|done]. by exists r.
Qed.
Lemma SendMessage_serves c body u :
  Locals_userID c = Some u →
  serves I (DMHandler.RequireParticipant (λ c, DMHandler.SendMessage h c body) c) (steps u).
Proof.
  intros Hu. apply (serves_participant _ _ u); [done|]. unfold DMHandler.SendMessage.
  apply (serves_UserID I c u); [done|]. apply serves_param. intros ch Hch. apply serves_Bind. intros b _.
  apply serves_of_res; [auto with declines|]. intros s Hs%content_valid. apply serves_reply. intros o.
  set (p := Message.mkCreateParams ch u s o None true).
  assert (Hp : ∀ d msg d1, created p d msg d1 →
    (∀ ch, uuid_Parse (Params c "channelID") = Ok ch → is_participant ch u d = true) → step u d d1).
  { intros d msg d1 Hd Hp. apply (posted granted h maxDevices u p d msg d1); try done. by apply Hp. }
  eapply serves_do; [use Message_Create_does|auto with declines| |].
  - intros msg. eapply (runs_weaken _ _ (λ d1 d2, (∃ r, messages d1 !! Message.ID msg = Some r ∧ r_author r = u) → steps u d1 d2)).
    2: { intros d1 d2 Hs' d Hd Hin. eapply rtc_l; [by eapply Hp|]. apply Hs'.
         destruct Hd as (_ & _ & _ & -> & ->). exists (new_row p (c_now d)). split; [apply lookup_insert_eq|done]. }
    intros w r w' Hi E. apply bind_inv in E as [(x & w1 & E1 & E)|(e & E1 & ->)].
    + assert (Hk : idle I (when (ch_gateway h) (users ← DMHandler.targets ch;
          enqueue_targeted h DMMessageCreate (ChatEvents.PMessage (dmMessageToModel msg ∅)) users) ;;
          SuccessStatus StatusCreated (dmMessageToModel msg ∅))) by (unfold when; idle).
      apply best_effort_inv in E1 as (_ & r0 & E1). apply (StoreMessageKeys_does I _ _ _ _ _ Hi) in E1 as [Hj E1].
      apply Hk in E as (Hj' & -> & _); [|done]. split; [done|]. intros Hm.
      destruct r0 as [[]|e]; [by eapply message_keys_steps|]. destruct E1 as [->|([] & E1)]; [done|by eapply message_keys_steps].
    + by apply best_effort_inv in E1 as ([=] & _).
  - intros d msg d1 Hd Hin. apply rtc_once. by eapply Hp.
Qed.

(** ** e2ee.go *)
Lemma own_row u dev d x : keys_ok maxDevices (c_users d) (messages d) (c_keys d) →
  device_of u dev d = Some x → devices d !! Key.ID x = Some x ∧ Key.UserID x = u.
Proof.
  intros Hok (id & Hx & Hu & _)%device_of_Some. by destruct (device_row _ _ _ _ Hok id x Hx) as [-> _].
Qed.
Lemma own_owns u dev d x : keys_ok maxDevices (c_users d) (messages d) (c_keys d) →
  device_of u dev d = Some x → owns u (Key.ID x) d.
Proof. intros Hok Hx. exists x. by eapply own_row. Qed.
Abbreviation under_ok := (λ u d d', chat_ok maxDevices d → steps u d d').
Lemma idle_notify u dev key : idle I (E2EEHandler.notifyIdentityKeyChanged (W := W) h u dev key).
Proof.
  unfold E2EEHandler.notifyIdentityKeyChanged, when. destruct (ch_gateway h); [|idle].
  apply idle_bind; [apply idle_try; use idle_ListDMPeers|]. intros r. idle.
Qed.
#[local] Hint Resolve idle_notify : idle.
Lemma serves_decode {A} s field check (k : string → M W (response A)) (Q : chat U → chat U → Prop) :
  (∀ key, check key = Ok tt → serves I (k key) Q) → serves I (E2EEHandler.decode s field check k) Q.
Proof.
  intros Hk. unfold E2EEHandler.decode. destruct (base64_RawDecodeString s) as [key|]; [|apply serves_decline; auto with declines].
  apply serves_of_res; [auto with declines|]. intros []. apply Hk.
Qed.
Lemma public_key_length key : E2ee.ValidatePublicKey key = Ok tt → len key = 32.
Proof. unfold E2ee.ValidatePublicKey, E2ee.KeyLength. by destruct (Z.eqb_spec (len key) 32). Qed.
Lemma RegisterDevice_serves c body u :
  Locals_userID c = Some u → serves I (E2EEHandler.RegisterDevice h maxDevices c body) (steps u).
Proof.
  intros Hu. unfold E2EEHandler.RegisterDevice. apply (serves_UserID I c u); [done|].
  apply serves_Bind. intros b _. destruct (uuid_Parse _) as [dev|]; [|apply serves_decline; auto with declines].
  apply serves_decode. intros key _. cbv zeta.
  eapply serves_done; [use RegisterDevice_does|auto with declines|intros a; idle|].
  intros d a d1 (Hmax & Hlen & Hn & Hd & Hus & -> & ->). apply rtc_once. by apply step_register.
Qed.
Lemma RemoveDevice_serves c u :
  Locals_userID c = Some u → serves I (E2EEHandler.RemoveDevice c) (under_ok u).
Proof.
  intros Hu. unfold E2EEHandler.RemoveDevice, E2EEHandler.own_device. apply (serves_UserID I c u); [done|].
  apply serves_param. intros dev _. eapply serves_ask; [use GetDevice_asks|auto with declines|]. intros x.
  eapply serves_done; [use RemoveDevice_does|auto with declines|intros a; idle|].
  intros d a d1 [_ ->] Hx Hok. apply rtc_once, step_unregister. eapply own_owns; [apply Hok|exact Hx].
Qed.
Lemma UpdateIdentityKey_serves c body u :
  Locals_userID c = Some u → serves I (E2EEHandler.UpdateIdentityKey h c body) (under_ok u).
Proof.
  intros Hu. unfold E2EEHandler.UpdateIdentityKey, E2EEHandler.own_device. apply (serves_UserID I c u); [done|].
  apply serves_param. intros dev _. apply serves_Bind. intros b _. apply serves_decode. intros key _.
  eapply serves_ask; [use GetDevice_asks|auto with declines|]. intros x.
  eapply serves_done; [use UpdateIdentityKey_does|auto with declines|intros a; idle|].
  intros d a d1 (y & Hy & Hlen & ->) Hx Hok. apply rtc_once.
  destruct (own_row u dev d x (chat_keys _ _ Hok) Hx) as [Hx' Hus]. simplify_eq. by apply step_identity.
Qed.
Lemma UploadSignedPreKey_serves c body u :
  Locals_userID c = Some u → serves I (E2EEHandler.UploadSignedPreKey c body) (under_ok u).
Proof.
  intros Hu. unfold E2EEHandler.UploadSignedPreKey, E2EEHandler.own_device. apply (serves_UserID I c u); [done|].
  apply serves_param. intros dev _. apply serves_Bind. intros b _. apply serves_decode. intros key _.
  apply serves_decode. intros sig _. eapply serves_ask; [use GetDevice_asks|auto with declines|]. intros x.
  eapply serves_done; [use UploadSignedPreKey_does|auto with declines|intros a; idle|].
  intros d a d1 (_ & Hn & Hf & Hk & Hs & ->) Hx Hok. apply rtc_once. apply step_spk; try done.
  eapply own_owns; [apply Hok|exact Hx].
Qed.
Lemma opk_steps u dev l d d' :
  owns u dev d → for_each l (insert_opk dev) d = (Ok tt, d') → steps u d d'.
Proof.
  revert d. induction l as [|k l IH]; intros d Ho E; [by injection E as <-|].
  apply bind_Ok_inv in E as (x & d1 & E1 & E). apply insert_opk_Ok in E1 as (_ & Hn & Hf & Hlen & ->).
  eapply rtc_l; [by apply (step_opk _ _ _ u d dev k)|]. by apply IH.
Qed.
Lemma UploadOneTimePreKeys_serves c body u :
  Locals_userID c = Some u → serves I (E2EEHandler.UploadOneTimePreKeys c body) (under_ok u).
Proof.
  intros Hu. unfold E2EEHandler.UploadOneTimePreKeys, E2EEHandler.own_device. apply (serves_UserID I c u); [done|].
  apply serves_param. intros dev _. apply serves_Bind. intros b _.
  destruct (E2EEHandler.decode_all _) as [l|]; [|apply serves_decline; auto with declines].
  apply serves_of_res; [auto with declines|]. intros _ _.
  eapply serves_ask; [use GetDevice_asks|auto with declines|]. intros x.
  eapply serves_done; [use UploadOneTimePreKeys_does|auto with declines|intros a; idle|].
  intros d a d1 E Hx Hok. eapply opk_steps; [|exact E]. eapply own_owns; [apply Hok|exact Hx].
Qed.
Lemma bundled_steps u d l bs d' :
  bundled d l bs d' → Forall (λ x, is_Some (devices d !! Key.ID x)) l → steps u d d'.
Proof.
  induction 1 as [|d x l bs d' Hs _ IH|d x l s bs d' Hs Hn _ IH|d x l s k bs d' Hs Hk _ IH];
    [done|intros [[y Hy] Hl]%Forall_cons..]; [by apply IH..|].
  eapply rtc_l; [by eapply (step_take _ _ _ u d (Key.ID x) y k)|]. by apply IH.
Qed.
Lemma devices_of_rows u d : keys_ok maxDevices (c_users d) (messages d) (c_keys d) →
  Forall (λ x, is_Some (devices d !! Key.ID x)) (devices_of u d).
Proof.
  intros Hok. apply Forall_forall. intros x Hx. unfold devices_of in Hx. rewrite merge_sort_Permutation in Hx.
  apply list_elem_of_filter in Hx as [_ ([id y] & -> & Hy%elem_of_map_to_list)%list_elem_of_fmap].
  simpl. destruct (device_row _ _ _ _ Hok id y Hy) as [-> _]. eauto.
Qed.
Lemma FetchKeyBundle_serves c u : serves I (E2EEHandler.FetchKeyBundle h opkThreshold c) (under_ok u).
Proof.
  unfold E2EEHandler.FetchKeyBundle. apply serves_param. intros v _.
  eapply serves_done; [use FetchUserKeyBundle_does|auto with declines| |].
  - intros b. apply idle_bind; [|intros []; idle]. unfold when. destruct (ch_gateway h); [|idle].
    apply asks_for_each. intros x. unfold E2EEHandler.notify_low, E2eeRepo.CountOneTimePreKeys. idle.
  - intros d b d1 (_ & _ & Hb) Hok. eapply bundled_steps; [exact Hb|]. apply devices_of_rows, Hok.
Qed.

(** ** Endpoints that only read *)
Lemma ListDMChannels_idle c : idle I (DMHandler.ListDMChannels (W := W) c).
Proof.
  unfold DMHandler.ListDMChannels, DmRepo.ListForUser, select_dms. apply idle_bind; [use idle_UserID|]. intros u. idle.
Qed.
Lemma GetDMChannel_idle c : idle I (DMHandler.GetDMChannel (W := W) c).
Proof.
  apply idle_param. intros id. apply idle_catch; [eapply asks_idle; use DM_GetByID_asks| |idle].
  intros e. apply idle_declines, mapDMError_declines.
Qed.
Lemma idle_device_keys o (ids : list U) : idle I (DMHandler.device_keys (W := W) o ids).
Proof. unfold DMHandler.device_keys, E2eeRepo.GetMessageKeysBatch, select_message_keys. idle. Qed.
Lemma idle_resolve c : idle I (DMHandler.resolveDeviceRowID (W := W) c).
Proof.
  unfold DMHandler.resolveDeviceRowID. cbv zeta. destruct (bool_decide _); [idle|].
  destruct (uuid_Parse _); [|idle]. destruct (Locals_userID c); [|idle].
  apply idle_bind; [apply idle_try; eapply asks_idle; use GetDevice_asks|]. intros r. idle.
Qed.
Lemma DM_ListMessages_idle c : idle I (DMHandler.ListMessages (W := W) c).
Proof.
  apply idle_param. intros ch. apply idle_before. intros o. apply idle_int. intros n. cbv zeta.
  apply idle_catch; [|idle|].
  - unfold MessageRepo.List, select_messages. idle.
  - intros l. apply idle_bind; [apply idle_resolve|]. intros r. apply idle_bind; [apply idle_device_keys|]. idle.
Qed.
Lemma ListDevices_idle c : idle I (E2EEHandler.ListDevices (W := W) c).
Proof.
  unfold E2EEHandler.ListDevices, E2eeRepo.ListDevices, select_devices. apply idle_bind; [use idle_UserID|]. intros u. idle.
Qed.
Lemma GetKeyCount_idle c : idle I (E2EEHandler.GetKeyCount (W := W) c).
Proof.
  unfold E2EEHandler.GetKeyCount, E2EEHandler.own_device, E2eeRepo.CountOneTimePreKeys, count_opks.
  apply idle_bind; [use idle_UserID|]. intros u. apply idle_param. intros dev.
  apply idle_catch; [eapply asks_idle; use GetDevice_asks| |].
  - intros e. apply idle_declines, mapE2EEError_declines.
  - intros x. apply idle_catch; [apply idle_wrap; use (@idle_select (chat U) W)|idle..].
Qed.
End handlers.

(** ** One-time pre-keys *)
Section bundles.
Context {U : Type} `{UUIDLaws U} `{!RandomUUID U}.
Implicit Types (d : chat U) (u dev : U) (x : Key.Device U).

(** What the primary keys give. *)
Definition keyed d : Prop := ∀ id k, opks d !! id = Some k → Key.opk_ID k = id.
Definition taken dev d : chat U :=
  match next_opk dev d with Some k => set_keys (on_opks (delete (Key.opk_ID k))) d | None => d end.

Lemma elem_opks_of dev d k : keyed d →
  k ∈ opks_of dev d ↔ opks d !! Key.opk_ID k = Some k ∧ Key.opk_DeviceID k = dev.
Proof.
  intros Hk. unfold opks_of. rewrite list_elem_of_filter, list_elem_of_fmap. split.
  - intros [Hd ([id y] & -> & Hy%elem_of_map_to_list)]. simpl in *. by rewrite (Hk id y Hy).
  - intros [Hi Hd]. split; [done|]. exists (Key.opk_ID k, k). by rewrite elem_of_map_to_list.
Qed.
#[local] Instance by_key_id_total : Total (by_key_id (U := U)).
Proof. intros a b. unfold by_key_id. lia. Qed.
#[local] Instance by_key_id_trans : Transitive (by_key_id (U := U)).
Proof. intros a b c. unfold by_key_id. lia. Qed.
(** The next key of a device: one of its keys, none has a smaller number. *)
Lemma next_opk_spec dev d k : keyed d → next_opk dev d = Some k →
  opks d !! Key.opk_ID k = Some k ∧ Key.opk_DeviceID k = dev ∧
  ∀ k', opks d !! Key.opk_ID k' = Some k' → Key.opk_DeviceID k' = dev → Key.opk_KeyID k ≤ Key.opk_KeyID k'.
Proof.
  intros Hk Hn. unfold next_opk in Hn. destruct (merge_sort _ _) as [|k0 l] eqn:El; [done|]. injection Hn as ->.
  assert (Hp : ∀ k', k' ∈ k :: l ↔ k' ∈ opks_of dev d) by (intros k'; rewrite <-El; by rewrite merge_sort_Permutation).
  pose proof (StronglySorted_merge_sort by_key_id (opks_of dev d)) as Hs. rewrite El in Hs.
  apply StronglySorted_inv in Hs as [_ Hall].
  destruct (proj1 (elem_opks_of dev d k Hk) (proj1 (Hp k) (list_elem_of_here k l))) as [Hi Hd]. split_and!; [done..|].
  intros k' Hi' Hd'. assert (Hin : k' ∈ k :: l) by (apply Hp, elem_opks_of; done).
  apply elem_of_cons in Hin as [->|Hin]; [lia|]. exact (proj1 (Forall_forall _ _) Hall k' Hin).
Qed.
Lemma next_opk_None dev d : keyed d → next_opk dev d = None →
  ∀ k, opks d !! Key.opk_ID k = Some k → Key.opk_DeviceID k ≠ dev.
Proof.
  intros Hk Hn k Hi Hd. unfold next_opk in Hn.
  assert (Hin : k ∈ merge_sort by_key_id (opks_of dev d)).
  { rewrite merge_sort_Permutation. by apply elem_opks_of. }
  destruct (merge_sort _ _); [by apply elem_of_nil in Hin|done].
Qed.
Definition handed (bs : list (E2eeRepo.DeviceKeyBundle U)) : list U :=
  omap (λ b, Key.opk_ID <$> E2eeRepo.b_OneTimePreKey b) bs.
Lemma set_keys_id d : set_keys (on_opks (λ m, m)) d = d.
Proof. by destruct d as [? ? ? ? ? ? []]. Qed.
Lemma bundled_opks d l bs d' :
  bundled d l bs d' → d' = set_keys (on_opks (filter (λ p, p.1 ∉ handed bs))) d.
Proof.
  assert (Hext : ∀ f g d, (∀ M, f M = g M) → set_keys (on_opks f) d = set_keys (on_opks g) d).
  { intros f g d0 Hfg. unfold set_keys, on_opks. by rewrite Hfg. }
  induction 1 as [d|d x l bs d' Hs _ IH|d x l s bs d' Hs Hn _ IH|d x l s k bs d' Hs Hk _ IH]; [|done|done|].
  - rewrite <-(set_keys_id d) at 1. apply Hext. intros M. symmetry. apply map_filter_id. intros i y _. simpl. set_solver.
  - rewrite IH. change (set_keys (on_opks (filter (λ p, p.1 ∉ handed bs))) (set_keys (on_opks (delete (Key.opk_ID k))) d))
      with (set_keys (on_opks (λ M, filter (λ p, p.1 ∉ handed bs) (delete (Key.opk_ID k) M))) d).
    apply Hext. intros M. apply map_eq. intros i. apply option_eq. intros y.
    rewrite !map_lookup_filter_Some, lookup_delete_Some. simpl. set_solver.
Qed.

(** What a bundle holds of a device. *)
Definition entry_ok d (b : E2eeRepo.DeviceKeyBundle U) : Prop :=
  let dev := Key.ID (E2eeRepo.b_Device b) in
  active_spk dev d = Some (E2eeRepo.b_SignedPreKey b) ∧
  match E2eeRepo.b_OneTimePreKey b with
  | Some k => opks d !! Key.opk_ID k = Some k ∧ Key.opk_DeviceID k = dev ∧
      ∀ k', opks d !! Key.opk_ID k' = Some k' → Key.opk_DeviceID k' = dev → Key.opk_KeyID k ≤ Key.opk_KeyID k'
  | None => ∀ k, opks d !! Key.opk_ID k = Some k → Key.opk_DeviceID k ≠ dev
  end.
Definition has_spk d x : Prop := is_Some (active_spk (Key.ID x) d).
#[local] Instance has_spk_dec d x : Decision (has_spk d x).
Proof. unfold has_spk. apply _. Defined.
Lemma keyed_delete i d : keyed d → keyed (set_keys (on_opks (delete i)) d).
Proof. intros Hk id k Hi. apply Hk. by destruct (proj1 (lookup_delete_Some (opks d) i id k) Hi). Qed.
Lemma entry_other d k b : keyed d → opks d !! Key.opk_ID k = Some k →
  Key.opk_DeviceID k ≠ Key.ID (E2eeRepo.b_Device b) →
  entry_ok (set_keys (on_opks (delete (Key.opk_ID k))) d) b → entry_ok d b.
Proof.
  intros Hk Hi Hne [Hs Ho]. split; [exact Hs|].
  assert (Hkeep : ∀ k', opks d !! Key.opk_ID k' = Some k' → Key.opk_DeviceID k' = Key.ID (E2eeRepo.b_Device b) →
    opks (set_keys (on_opks (delete (Key.opk_ID k))) d) !! Key.opk_ID k' = Some k').
  { intros k' Hi' Hd'. apply (lookup_delete_Some (opks d)). split; [|done]. intros E. rewrite E in Hi. congruence. }
  destruct (E2eeRepo.b_OneTimePreKey b) as [k0|].
  - destruct Ho as (H0i & Hd & Hl). apply (proj1 (lookup_delete_Some (opks d) _ _ _)) in H0i as [_ H0i]. split_and!; [done..|]. auto.
  - intros k' Hi' Hd'. by apply (Ho k'); [apply Hkeep|].
Qed.
Lemma bundled_entries d l bs d' : bundled d l bs d' → keyed d → NoDup (Key.ID <$> l) →
  (E2eeRepo.b_Device <$> bs = filter (has_spk d) l) ∧ Forall (entry_ok d) bs.
Proof.
  intros Hb. induction Hb as [d|d x l bs d' Hs _ IH|d x l s bs d' Hs Hn _ IH|d x l s k bs d' Hs Hk _ IH]; intros Hkd Hnd;
    [done|rewrite fmap_cons in Hnd; apply NoDup_cons in Hnd as [Hx Hnd]; rewrite filter_cons..].
  - rewrite decide_False by (unfold has_spk; rewrite Hs; by intros []). auto.
  - rewrite decide_True by (unfold has_spk; eauto). destruct (IH Hkd Hnd) as [Hd He]. split; [by rewrite fmap_cons, Hd|].
    constructor; [|done]. split; [done|]. simpl. by apply next_opk_None.
  - rewrite decide_True by (unfold has_spk; eauto). destruct (next_opk_spec _ _ _ Hkd Hk) as (Hi & Hdev & Hl).
    destruct (IH (keyed_delete _ _ Hkd) Hnd) as [Hd He]. split; [rewrite fmap_cons, Hd; done|].
    constructor; [by split|]. apply Forall_forall. intros b Hin. pose proof (proj1 (Forall_forall _ _) He b Hin) as Hbe.
    apply (entry_other _ k); try done. rewrite Hdev. intros Heq. apply Hx. rewrite Heq.
    apply list_elem_of_fmap. exists (E2eeRepo.b_Device b). split; [done|].
    assert (Hin' : E2eeRepo.b_Device b ∈ E2eeRepo.b_Device <$> bs) by (apply list_elem_of_fmap; eauto).
    rewrite Hd in Hin'. by apply list_elem_of_filter in Hin' as [_ ?].
Qed.

Context {W : Type} `{!UUIDOrder U} `{PostgresLaws (chat U) W} `{!LockedAggregates} (maxDevices : Z).
Implicit Types (w : W).
Abbreviation view := (pg_view (DB := chat U) (W := W)).
#[local] Instance any_stable : Stable (chat U) (λ _ : W, True).
Proof. by split. Qed.
Lemma keyed_ok d : chat_ok maxDevices d → keyed d.
Proof. intros Hok id k Hk. by apply (opk_row _ _ _ _ (chat_keys _ _ Hok) id k). Qed.
Lemma devices_of_NoDup u d : chat_ok maxDevices d → NoDup (Key.ID <$> devices_of u d).
Proof.
  intros Hok. unfold devices_of. rewrite merge_sort_Permutation.
  assert (Hid : ∀ p, p ∈ map_to_list (devices d) → Key.ID p.2 = p.1).
  { intros [id x] Hx%elem_of_map_to_list. by destruct (device_row _ _ _ _ (chat_keys _ _ Hok) id x Hx). }
  pose proof (NoDup_fst_map_to_list (devices d)) as Hnd.
  induction (map_to_list (devices d)) as [|p l IH]; [constructor|]. rewrite !fmap_cons in *.
  apply NoDup_cons in Hnd as [Hp Hnd]. rewrite filter_cons.
  assert (IH' : NoDup (Key.ID <$> filter (λ x, Key.UserID x = u) l.*2)) by (apply IH; [set_solver|done]).
  destruct (decide _); [|done]. rewrite fmap_cons. apply NoDup_cons. split; [|done].
  intros (x & Hx & [_ (q & -> & Hq)%list_elem_of_fmap]%list_elem_of_filter)%list_elem_of_fmap.
  apply Hp. apply list_elem_of_fmap. exists q. split; [|done].
  rewrite <-(Hid p), <-(Hid q) by set_solver. done.
Qed.
Lemma Fetch_inv u w r w' : E2eeRepo.FetchUserKeyBundle u w = (r, w') →
  match r with
  | Ok b => devices_of u (view w) ≠ [] ∧ E2eeRepo.ub_UserID b = u ∧
      bundled (view w) (devices_of u (view w)) (E2eeRepo.ub_Devices b) (view w')
  | Err _ => True
  end.
Proof.
  intros E. destruct (FetchUserKeyBundle_does (λ _, True) u w r w' Logic.I E) as [_ Hr]. by destruct r.
Qed.

(** C15: A key bundle holds exactly the devices of the user that have an active signed pre-key,
    oldest first, each with that key; with a one-time pre-key of the device that no other of its
    keys has a smaller number than, or with none when the device has none left; and of the
    tables exactly the handed out one-time pre-keys are deleted. *)
Theorem FetchUserKeyBundle_spec u w b w' :
  chat_ok maxDevices (view w) → E2eeRepo.FetchUserKeyBundle u w = (Ok b, w') →
  E2eeRepo.ub_UserID b = u ∧
  E2eeRepo.b_Device <$> E2eeRepo.ub_Devices b = filter (has_spk (view w)) (devices_of u (view w)) ∧
  Forall (entry_ok (view w)) (E2eeRepo.ub_Devices b) ∧
  view w' = set_keys (on_opks (filter (λ p, p.1 ∉ handed (E2eeRepo.ub_Devices b)))) (view w).
Proof.
  intros Hok E. apply Fetch_inv in E as (_ & Hu & Hb).
  destruct (bundled_entries _ _ _ _ Hb (keyed_ok _ Hok) (devices_of_NoDup u _ Hok)) as [Hd He].
  split_and!; [done..|]. by eapply bundled_opks.
Qed.

Context `{!ChatPermissions} `{PermissionLib}.
Context (granted : U → U → Z → Prop) (maxContent : Z).
Lemma handed_spent u w b w' id :
  chat_ok maxDevices (view w) → numbered (view w) → E2eeRepo.FetchUserKeyBundle u w = (Ok b, w') →
  id ∈ handed (E2eeRepo.ub_Devices b) → is_Some (opks (view w) !! id) ∧ spent id (view w').
Proof.
  intros Hok Hnum E Hin. apply Fetch_inv in E as (_ & _ & Hb).
  destruct (bundled_entries _ _ _ _ Hb (keyed_ok _ Hok) (devices_of_NoDup u _ Hok)) as [_ He].
  assert (Hi : is_Some (opks (view w) !! id)).
  { unfold handed in Hin. apply list_elem_of_omap in Hin as (e & Hin & Hk).
    destruct (proj1 (Forall_forall _ _) He e Hin) as [_ Ho]. destruct (E2eeRepo.b_OneTimePreKey e); [|done].
    injection Hk as <-. destruct Ho as [Ho _]. eauto. }
  split; [done|]. rewrite (bundled_opks _ _ _ _ Hb). split; [|by apply Hnum].
  unfold opks. simpl. apply map_lookup_filter_None. right. intros k _ Hn. by apply Hn.
Qed.

(** C14: A one-time pre-key is handed out at most once: between two bundles, whatever requests of
    whatever users come between, no key is in both, as long as the database draws distinct
    identifiers. *)
Theorem one_time_keys_once u v w1 b1 w2 w3 b2 w4 :
  chat_ok maxDevices (view w1) → numbered (view w1) → distinct_ids U (c_seq (view w3)) →
  E2eeRepo.FetchUserKeyBundle u w1 = (Ok b1, w2) →
  chat_history granted maxContent maxDevices (view w2) (view w3) →
  E2eeRepo.FetchUserKeyBundle v w3 = (Ok b2, w4) →
  ∀ id, id ∈ handed (E2eeRepo.ub_Devices b1) → id ∉ handed (E2eeRepo.ub_Devices b2).
Proof.
  intros Hok Hnum Hfr E1 Hh E2 id Hi1 Hi2.
  destruct (handed_spent _ _ _ _ _ Hok Hnum E1 Hi1) as [_ Hsp].
  assert (Hst : chat_history granted maxContent maxDevices (view w1) (view w2)).
  { apply Fetch_inv in E1 as (_ & _ & Hb). apply (steps_history _ _ _ u).
    apply (bundled_steps granted (mkChatHandler true true true true maxContent 0) maxDevices u _ _ _ _ Hb).
    apply (devices_of_rows maxDevices), Hok. }
  pose proof (history_keeps_invariant _ _ _ _ _ Hh (history_keeps_invariant _ _ _ _ _ Hst Hok)) as Hok3.
  pose proof (history_numbered _ _ _ _ _ Hh (history_numbered _ _ _ _ _ Hst Hnum)) as Hnum3.
  destruct (handed_spent _ _ _ _ _ Hok3 Hnum3 E2 Hi2) as [Hi _].
  destruct (history_spent _ _ _ _ _ _ Hfr Hh Hsp) as [Hn _]. rewrite Hn in Hi. by destruct Hi.
Qed.
End bundles.

(** ** Counting with a lock
    What becomes of the two operations that count the rows they lock, as PostgreSQL refuses it. *)
Section refused.
Context {U W : Type} `{UUIDLaws U} `{!RandomUUID U} `{!UUIDOrder U} `{PostgresLaws (chat U) W}.
Context `{!LockedAggregates} `{!LockedAggregatesRefused} `{!ChatPermissions} `{!Store U W} `{!ChatGateway U W}.
Context `{!ChatEventNames} `{ApiErrors} `{!ChatErrors} `{TimeFormat} `{!StorageProvider}.
Context (h : chat_handler) (maxDevices : Z).
#[local] Existing Instance free_Stable.
Abbreviation free := (λ _ : W, True).
Abbreviation view := (pg_view (DB := chat U) (W := W)).

Lemma never_does {A} (m : M W A) : does (DB := chat U) free m (λ _ _ _, False) → asks (DB := chat U) free m (λ _ _, False).
Proof. intros Hm w r w' Hi E. apply Hm in E as [_ Hr]; [|done]. destruct r; [done|]. by destruct Hr as [?|[? []]]. Qed.
Lemma RegisterDevice_never p : asks (DB := chat U) free (E2eeRepo.RegisterDevice (U := U) maxDevices p) (λ _ _, False).
Proof.
  apply never_does. eapply does_tx; [exact _|by intros ? ? ?|tx_steps|]. intros d a d' E.
  apply bind_Ok_inv in E as (n & d1 & E1 & _). apply wrap_Ok_inv in E1. unfold count_devices in E1.
  by rewrite locked_refused in E1.
Qed.
Lemma AddParticipant_never ch u : asks (DB := chat U) free (DmRepo.AddParticipant (U := U) ch u) (λ _ _, False).
Proof.
  apply never_does. eapply does_tx; [exact _|by intros ? ? ?|unfold DmRepo.add_error; tx_steps|]. intros d a d' E.
  apply bind_Ok_inv in E as (n & d1 & E1 & _). apply wrap_Ok_inv in E1. unfold count_participants in E1.
  by rewrite locked_refused in E1.
Qed.
Lemma serves_never {A B} (m : M W A) (f : error → M W (response B)) k Q :
  asks (DB := chat U) free m (λ _ _, False) → (∀ e, declines (DB := chat U) free (f e)) → serves (DB := chat U) free (catch m f k) Q.
Proof.
  intros Hm Hf w r w' Hi E. split; [done|]. right. apply catch_inv in E as [(a & w1 & E1 & E)|(e & w1 & E1 & E)];
    apply Hm in E1 as (_ & Hv & HP); try done. apply Hf in E as (_ & Hv' & Hr); [|done]. split; [congruence|done].
Qed.
Lemma serves_anyone {A} c (k : U → M W (response A)) Q :
  (∀ u, serves (DB := chat U) free (k u) Q) → serves (DB := chat U) free (UserID c ≫= k) Q.
Proof.
  intros Hk. unfold UserID. destruct (Locals_userID c); [apply Hk|].
  intros w r w' Hi [= <- <-]. split; [done|]. right. split; [done|]. by intros [].
Qed.
Lemma dm_error_declines {A} e : declines (DB := chat U) free (DMHandler.mapDMError (W := W) (A := A) e).
Proof. unfold DMHandler.mapDMError. repeat case_match; auto with declines. Qed.
Lemma key_error_declines {A} e : declines (DB := chat U) free (E2EEHandler.mapE2EEError (W := W) (A := A) e).
Proof. unfold E2EEHandler.mapE2EEError. repeat case_match; auto with declines. Qed.
#[local] Hint Resolve dm_error_declines key_error_declines : declines.

(** C38: PostgreSQL does not take a locking clause with an aggregate; as the two operations count
    the rows they lock, no request registers a device and no request adds a participant to a
    group: such a request never succeeds and changes nothing. *)
Theorem locked_counts_refused (c : request U) :
  (∀ body w r w', E2EEHandler.RegisterDevice h maxDevices c body w = (r, w') → view w' = view w ∧ ¬ succeeded r) ∧
  (∀ body w r w', DMHandler.AddParticipant c body w = (r, w') → view w' = view w ∧ ¬ succeeded r).
Proof.
  assert (Hs : ∀ A (m : M W (response A)) w r w', serves (DB := chat U) free m (λ _ _, False) → m w = (r, w') →
    view w' = view w ∧ ¬ succeeded r) by (intros A m w r w' Hm E; by apply Hm in E as [_ [[]|?]]).
  split; intros body w r w'; apply Hs.
  - unfold E2EEHandler.RegisterDevice. apply serves_anyone. intros u. apply serves_Bind. intros b _.
    destruct (uuid_Parse (rdr_DeviceID b)); [|apply serves_decline; auto with declines].
    unfold E2EEHandler.decode. destruct (base64_RawDecodeString (rdr_IdentityKey b)); [|apply serves_decline; auto with declines].
    apply serves_of_res; [auto with declines|]. intros _ _. apply serves_never; [apply RegisterDevice_never|auto with declines].
  - unfold DMHandler.AddParticipant. apply serves_anyone. intros u. apply serves_param. intros ch _.
    eapply serves_ask; [use DM_GetByID_asks|auto with declines|]. intros x.
    apply (serves_weaken _ _ (λ _ _, False)); [|done].
    destruct (negb _); [apply serves_decline; auto with declines|].
    destruct (negb _); [apply serves_decline; auto with declines|].
    apply serves_Bind. intros b _. destruct (uuid_Parse (ap_UserID b)); [|apply serves_decline; auto with declines].
    apply serves_never; [apply AddParticipant_never|auto with declines].
Qed.
End refused.
