(* ===== verification/ChatRoutes.v ===== *)
(** * The routes of the conversations: cmd/uncord/routes.go

    The middleware chains and the handlers of messages, pins, threads, reactions, read states,
    typing, direct conversations and device keys; the rate limiters are left out.  The theorem:
    a request that succeeds or changes the tables carried a valid token of its caller, who has
    what the route asks for, and the tables changed by steps the rules allow that caller. *)
From S2P Require Import Prelude GoStd Platform Permission Presence Validate Config Base64 Jwt Postgres Domain.
From S2P Require Import GuildTables GuildRepo Http MemberApi ApiLogic Routes.
From S2P Require Import ChatTables DmTables ChatRepo ChatModel MessageApi DmApi ChatLogic RouteGate ChatSpec ChatInv.
From S2P Require Import ChatHistory ChatWrites ChatProofs DmWrites DmProofs.
Open Scope Z_scope.

Inductive chat_route :=
| RListMessages | RCreateMessage (b : res CreateMessageRequest) | REditMessage (b : res UpdateMessageRequest)
| RDeleteMessage | RPin | RUnpin | RListPins
| RCreateThread (b : res CreateThreadRequest) | RListThreads | RGetThread
| RUpdateThread (b : res UpdateThreadRequest) | RListThreadMessages
| RCreateThreadMessage (b : res CreateMessageRequest)
| RAddReaction | RRemoveReaction | RListReactions | RListReactionUsers
| RAck (b : res AckRequest) | RStartTyping | RStopTyping
| RCreateDM (b : res CreateDMRequest) | RListDMs | RGetDM | RAddParticipant (b : res AddParticipantRequest)
| RRemoveParticipant | RListDMMessages | RSendDM (b : res CreateDMMessageRequest)
| RRegisterDevice (b : res RegisterDeviceRequest) | RListDevices | RRemoveDevice
| RUpdateIdentityKey (b : res UpdateIdentityKeyRequest) | RUploadSPK (b : res UploadSignedPreKeyRequest)
| RUploadOPKs (b : res UploadOneTimePreKeysRequest) | RKeyCount | RFetchKeys.

Inductive chat_answer :=
| CNone | CMessage (m : ChatModels.Message) | CMessages (l : list ChatModels.Message)
| CThread (t : ChatModels.Thread) | CThreads (l : list ChatModels.Thread)
| CReactions (l : list ChatModels.ReactionSummary) | CReactionUsers (l : list ChatModels.ReactionUser)
| CReadState (r : Models.ReadState) | CDm (c : ChatModels.DmChannel) | CDms (l : list ChatModels.DmChannel)
| CDevice (d : ChatModels.Device) | CDevices (l : list ChatModels.Device) | CKeyCount (n : KeyCountResponse)
| CBundle (b : ChatModels.UserKeyBundle).

Section routes.
Context {U W : Type} `{UUIDLib U} `{!RandomUUID U} `{!UUIDOrder U} `{!MemberStatuses} `{!LockedAggregates}.
Context `{Postgres (chat U) W} `{Postgres (guild U) W} `{Clock W} `{PermissionLib} `{!ChatPermissions} `{JwtLib}.
Context `{!Store U W} `{!Cache U W} `{!Valkey W}.
Context `{!ChatGateway U W} `{!SearchIndex W} `{GatewayQueue W} `{!AuditLog U W} `{!ChatEventNames}.
Context `{ApiErrors} `{!ChatErrors} `{TimeFormat} `{!StorageProvider}.
Context (h : chat_handler) (maxDevices opkThreshold : Z).
Implicit Types (c : request U) (x : chat_route).

Definition chat_access x : access :=
  match x with
  | RListMessages => InChannel (Z.lor ViewChannels ReadMessageHistory)
  | RCreateMessage _ | RStartTyping | RStopTyping => InChannel SendMessages
  | RAddReaction => InChannel AddReactions
  | RAck _ | RListReactions | RListReactionUsers | RListThreads | RListPins => InChannel ViewChannels
  | REditMessage _ | RDeleteMessage | RPin | RUnpin | RCreateThread _ | RGetThread | RUpdateThread _
  | RListThreadMessages | RCreateThreadMessage _ | RRemoveReaction => ActiveMember
  | RCreateDM _ | RListDMs | RGetDM | RAddParticipant _ | RRemoveParticipant | RListDMMessages | RSendDM _
  | RRegisterDevice _ | RListDevices | RRemoveDevice | RUpdateIdentityKey _ | RUploadSPK _ | RUploadOPKs _
  | RKeyCount | RFetchKeys => Verified
  end.
Definition serve_chat x c : M W (response chat_answer) :=
  match x with
  | RListMessages => respond CMessages (ListMessages c)
  | RCreateMessage b => respond CMessage (CreateMessage h c b)
  | REditMessage b => respond CMessage (EditMessage h c b)
  | RDeleteMessage => respond (λ _, CNone) (DeleteMessage h c)
  | RPin => respond CMessage (PinMessage h c)
  | RUnpin => respond CMessage (UnpinMessage h c)
  | RListPins => respond CMessages (ListPins c)
  | RCreateThread b => respond CThread (CreateThread h c b)
  | RListThreads => respond CThreads (ListThreads c)
  | RGetThread => respond CThread (GetThread c)
  | RUpdateThread b => respond CThread (UpdateThread h c b)
  | RListThreadMessages => respond CMessages (ListThreadMessages c)
  | RCreateThreadMessage b => respond CMessage (CreateThreadMessage h c b)
  | RAddReaction => respond (λ _, CNone) (AddReaction h c)
  | RRemoveReaction => respond (λ _, CNone) (RemoveReaction h c)
  | RListReactions => respond CReactions (ListReactions c)
  | RListReactionUsers => respond CReactionUsers (ListReactionUsers c)
  | RAck b => respond CReadState (Ack h c b)
  | RStartTyping => respond (λ _, CNone) (StartTyping h c)
  | RStopTyping => respond (λ _, CNone) (StopTyping h c)
  | RCreateDM b => respond CDm (DMHandler.CreateDMChannel h c b)
  | RListDMs => respond CDms (DMHandler.ListDMChannels c)
  | RGetDM => respond CDm (DMHandler.RequireParticipant DMHandler.GetDMChannel c)
  | RAddParticipant b =>
      respond (λ _, CNone) (DMHandler.RequireParticipant (λ c, DMHandler.AddParticipant c b) c)
  | RRemoveParticipant => respond (λ _, CNone) (DMHandler.RequireParticipant DMHandler.RemoveParticipant c)
  | RListDMMessages => respond CMessages (DMHandler.RequireParticipant DMHandler.ListMessages c)
  | RSendDM b => respond CMessage (DMHandler.RequireParticipant (λ c, DMHandler.SendMessage h c b) c)
  | RRegisterDevice b => respond CDevice (E2EEHandler.RegisterDevice h maxDevices c b)
  | RListDevices => respond CDevices (E2EEHandler.ListDevices c)
  | RRemoveDevice => respond (λ _, CNone) (E2EEHandler.RemoveDevice c)
  | RUpdateIdentityKey b => respond (λ _, CNone) (E2EEHandler.UpdateIdentityKey h c b)
  | RUploadSPK b => respond (λ _, CNone) (E2EEHandler.UploadSignedPreKey c b)
  | RUploadOPKs b => respond (λ _, CNone) (E2EEHandler.UploadOneTimePreKeys c b)
  | RKeyCount => respond CKeyCount (E2EEHandler.GetKeyCount c)
  | RFetchKeys => respond CBundle (E2EEHandler.FetchKeyBundle h opkThreshold c)
  end.
Definition chat_routes (cfg : Config) x : request U → M W (response chat_answer) :=
  RequireAuth (Expose (JWTSecret cfg)) (ServerURL cfg) cfg
    (RequireCSRF cfg (protect (chat_access x) (serve_chat x))).
End routes.

(** ** What a route lets through *)

(** The membership the guild records, which asking does not change. *)
Class Membership {U W : Type} `{UUIDLib U} `{!RandomUUID U} `{!MemberStatuses} `{Postgres (chat U) W}
    `{Postgres (guild U) W} (I : W → Prop) (standing : U → string → Prop) : Prop := {
  gate_status : ∀ u, asks (DB := chat U) I (MemberRepo.GetStatus u) (λ _ s, standing u s) }.

Section theorems.
Context {U W : Type} `{UUIDLaws U} `{!RandomUUID U} `{!UUIDOrder U} `{!MemberStatuses} `{!LockedAggregates} `{!LockedAggregatesCount}.
Context `{PostgresLaws (chat U) W} `{Postgres (guild U) W} `{Clock W} `{PermissionLib} `{!ChatPermissions} `{!JwtLib}.
Context `{!Store U W} `{!Cache U W} `{!Valkey W}.
Context `{!ChatGateway U W} `{!SearchIndex W} `{GatewayQueue W} `{!AuditLog U W} `{!ChatEventNames}.
Context `{ApiErrors} `{!ChatErrors} `{TimeFormat} `{!StorageProvider}.
Context (I : W → Prop) `{!Stable (chat U) I} (granted : U → U → Z → Prop) (standing : U → string → Prop).
Context `{!Gatekeeper I granted} `{!Membership I standing}.
Context (h : chat_handler) (maxDevices opkThreshold : Z).
Implicit Types (c : request U) (x : chat_route) (u : U) (d : chat U) (w : W).
Abbreviation view := (pg_view (DB := chat U) (W := W)).
Abbreviation steps := (λ u, rtc (chat_step granted (maxContent h) maxDevices u)).
Abbreviation under_ok := (λ u d d', chat_ok maxDevices d → steps u d d').

(** In the channel the path names. *)
Definition passed (a : access) c u : Prop :=
  ∀ p, a = InChannel p → ∀ ch, uuid_Parse (Params c "channelID") = Ok ch → granted u ch p.
Abbreviation quiet m := (asks (DB := chat U) I m (λ _ _, True)).
Lemma reads_ok {A} (m : M W (response A)) u : quiet m → serves I m (under_ok u).
Proof. intros Hm. apply serves_idle; [done|]. intros d _. apply rtc_refl. Qed.
Lemma steps_ok {A} (m : M W (response A)) u : serves I m (steps u) → serves I m (under_ok u).
Proof. intros Hm. eapply serves_weaken; [exact Hm|]. auto. Qed.
Lemma idle_participant {A} (next : request U → M W (response A)) c :
  quiet (next c) → quiet (DMHandler.RequireParticipant next c).
Proof.
  intros Hn. unfold DMHandler.RequireParticipant. apply idle_bind; [eapply asks_idle, UserID_asks|]. intros u.
  apply idle_param. intros ch. apply idle_catch; [eapply asks_idle; use IsParticipant_asks|idle|].
  intros []; simpl; [done|idle].
Qed.
Lemma serve_chat_steps x c u :
  Locals_userID c = Some u → passed (chat_access x) c u →
  serves I (serve_chat h maxDevices opkThreshold x c) (under_ok u).
Proof.
  intros Hu Hp. destruct x; simpl; apply serves_respond; [..|by use FetchKeyBundle_serves].
  - apply reads_ok. use (ListMessages_idle I).
  - apply steps_ok. use CreateMessage_serves; eauto.
  - apply steps_ok. by use EditMessage_serves.
  - apply steps_ok. by use DeleteMessage_serves.
  - apply steps_ok. by use PinMessage_serves.
  - apply steps_ok. by use UnpinMessage_serves.
  - apply reads_ok. use (ListPins_idle I).
  - apply steps_ok. by use CreateThread_serves.
  - apply reads_ok. use (ListThreads_idle I).
  - apply reads_ok. use GetThread_idle.
  - apply steps_ok. by use UpdateThread_serves.
  - apply reads_ok. use ListThreadMessages_idle.
  - apply steps_ok. by use CreateThreadMessage_serves.
  - apply steps_ok. use AddReaction_serves; eauto.
  - apply steps_ok. by use RemoveReaction_serves.
  - apply reads_ok. use (ListReactions_idle I).
  - apply reads_ok. use (ListReactionUsers_idle I).
  - apply steps_ok. use Ack_serves; eauto.
  - apply reads_ok. use StartTyping_idle.
  - apply reads_ok. use StopTyping_idle.
  - apply steps_ok. by use CreateDMChannel_serves.
  - apply reads_ok. use (ListDMChannels_idle I).
  - apply reads_ok, idle_participant. use (GetDMChannel_idle I).
  - apply steps_ok. by use AddParticipant_serves.
  - apply steps_ok. by use RemoveParticipant_serves.
  - apply reads_ok, idle_participant. use (DM_ListMessages_idle I).
  - apply steps_ok. by use SendMessage_serves.
  - apply steps_ok. by use RegisterDevice_serves.
  - apply reads_ok. use (ListDevices_idle I).
  - by use RemoveDevice_serves.
  - by use UpdateIdentityKey_serves.
  - by use UploadSignedPreKey_serves.
  - by use UploadOneTimePreKeys_serves.
  - apply reads_ok. use (GetKeyCount_idle I).
Qed.

(** No route of the conversations asks for a permission on the server. *)
Abbreviation entitled := (entitled standing granted (λ _ _, False)).
Lemma serves_protected x c u (Q : chat U → chat U → Prop) :
  Locals_userID c = Some u →
  (entitled (chat_access x) c u → serves I (serve_chat h maxDevices opkThreshold x c) Q) →
  serves I (protect (chat_access x) (serve_chat h maxDevices opkThreshold x) c) Q.
Proof.
  intros Hu Hn. apply (serves_protect I standing granted (λ _ _, False) gate_status gate_permission _ _ _ u);
    [done|by destruct x|done].
Qed.

(** What the caller of a route must have. *)
Definition in_path u (p : Z) c : Prop := ∃ ch, uuid_Parse (Params c "channelID") = Ok ch ∧ granted u ch p.
Definition on_server u : Prop := ∃ s, standing u s ∧ s ≠ MemberStatusPending.
Definition rights x c u : Prop :=
  match x with
  | RListMessages => on_server u ∧ in_path u (Z.lor ViewChannels ReadMessageHistory) c
  | RCreateMessage _ | RStartTyping | RStopTyping => on_server u ∧ in_path u SendMessages c
  | RAddReaction => on_server u ∧ in_path u AddReactions c
  | RAck _ | RListReactions | RListReactionUsers | RListThreads | RListPins =>
      on_server u ∧ in_path u ViewChannels c
  | REditMessage _ | RDeleteMessage | RPin | RUnpin | RCreateThread _ | RGetThread | RUpdateThread _
  | RListThreadMessages | RCreateThreadMessage _ | RRemoveReaction => on_server u
  | RCreateDM _ | RListDMs | RGetDM | RAddParticipant _ | RRemoveParticipant | RListDMMessages | RSendDM _
  | RRegisterDevice _ | RListDevices | RRemoveDevice | RUpdateIdentityKey _ | RUploadSPK _ | RUploadOPKs _
  | RKeyCount | RFetchKeys => True
  end.
(** What a request showed of its caller. *)
Record authenticated (cfg : Config) x c w (u : U) : Prop := {
  chat_token : ∃ tok src claims,
    credential cfg c = Some (Some (tok, src)) ∧
    (ValidateAccessToken tok (Expose (JWTSecret cfg)) (ServerURL cfg) w).1 = Ok claims ∧
    uuid_Parse (Subject claims) = Ok u ∧ EmailVerified claims = true ∧
    (src = AuthSourceCookie → safe_method (Method c) = false →
     Header c "X-CSRF-Token" = Cookies c (CSRFCookieName cfg) ∧ Header c "X-CSRF-Token" ≠ ""%string);
  chat_rights : rights x c u }.

(** A request to one of the conversation routes is refused and changes nothing, or it carried a
    valid access token of its caller, whose address is verified, and with a cookie the CSRF
    token; the caller is an active member where the route asks for one and has the permission
    the route asks for in the channel of its path; and the tables changed by steps the rules
    allow that caller. *)
Lemma chat_routes_authorised cfg x c w r w' :
  I w → chat_ok maxDevices (view w) →
  chat_routes h maxDevices opkThreshold cfg x c w = (r, w') →
  (view w' = view w ∧ ¬ succeeded r) ∨ ∃ u, authenticated cfg x c w u ∧ steps u (view w) (view w').
Proof.
  intros Hi Hok E. unfold chat_routes in E.
  apply identified in E as [(u & c' & (tok & src & claims & Hcred & Htok & Hs & -> & Hcsrf) & Hu & E)|[-> ?]]; [|by left].
  assert (Hserve : serves I (protect (chat_access x) (serve_chat h maxDevices opkThreshold x)
    (with_identity c u (EmailVerified claims) src))
    (λ d d', entitled (chat_access x) (with_identity c u (EmailVerified claims) src) u ∧ under_ok u d d')).
  { apply (serves_protected _ _ u); [done|]. intros He.
    eapply serves_weaken; [apply (serve_chat_steps x _ u); [done|]|by intros].
    intros p Hp ch Hch. destruct (ent_channel _ _ _ _ _ _ He p Hp) as (ch' & Hch' & ?).
    rewrite Hch in Hch'. by injection Hch' as <-. }
  apply Hserve in E as [_ [[He Hsteps]|?]]; [|by left|done]. right. exists u. split; [|by apply Hsteps].
  pose proof (ent_verified _ _ _ _ _ _ He) as Hv. pose proof (ent_active _ _ _ _ _ _ He) as Ha. split.
  - exists tok, src, claims. split_and!; try done.
    assert (Hx : chat_access x ≠ Authenticated) by by destruct x. specialize (Hv Hx). simpl in Hv. congruence.
  - pose proof (ent_channel _ _ _ _ _ _ He) as Hch.
    destruct x; simpl; first [done|by apply Ha|split; [by apply Ha|by apply (Hch _ eq_refl)]].
Qed.
End theorems.
