(* ===== verification/ChatGate.v ===== *)
(** * The server as it is assembled keeps the promises to the conversations

    The resolver over PGStore and the Valkey cache, the presence store, the member repository:
    they are the [Gatekeeper] and the [Membership] of ChatProofs.v and ChatRoutes.v, with what
    the resolver and the tables of the guild say when the request arrives.  The invariant of the
    world: these tables do not change under the request, and what the permission cache has gained
    since is right by them ([trusts] of Permission.v). *)
From S2P Require Import Prelude GoStd Platform Permission PermCache Presence Validate Config Base64 Jwt Postgres.
From S2P Require Import Frames Domain GuildTables GuildRepo Http MemberApi ApiLogic MemberProofs GuildStore ResolverFrame.
From S2P Require Import Routes.
From S2P Require Import ChatTables DmTables ChatRepo ChatModel MessageApi DmApi ChatLogic RouteGate ChatSpec ChatInv.
From S2P Require Import ChatHistory ChatWrites ChatProofs ChatRoutes.
Open Scope Z_scope.

(** What the handlers tell other systems changes neither tables nor Valkey. *)
Class ChatFrame {U W V : Type} `{UUIDLib U} `{!ChatGateway U W} `{!SearchIndex W} `{!AuditLog U W} (obs : W → V) : Prop := {
  frame_Enqueue : ∀ ev p w, obs (chat_Enqueue ev p w) = obs w;
  frame_EnqueueTargeted : ∀ ev p l w, obs (chat_EnqueueTargeted ev p l w) = obs w;
  frame_IndexMessage : ∀ a1 a2 a3 a4 t w, obs (IndexMessage a1 a2 a3 a4 t w) = obs w;
  frame_IndexUpdate : ∀ a b w, obs (IndexUpdate a b w) = obs w;
  frame_IndexDelete : ∀ a w, obs (IndexDelete a w) = obs w;
  frame_audit : ∀ e w, obs (audit_Record (U := U) e w) = obs w }.

Section gate.
Context {U W : Type} `{UUIDLaws U} `{!RandomUUID U} `{!UUIDOrder U} `{!MemberStatuses}.
Context `{PostgresLaws (guild U) W} `{!Postgres (chat U) W} `{!PostgresLaws (chat U) W}.
Context `{!PermissionLib} `{!PermissionLaws} `{!ChatPermissions} `{ValkeyLaws W}.
Context `{!ChatGateway U W} `{!SearchIndex W} `{!AuditLog U W}.
Abbreviation guild_view := (pg_view (DB := guild U) (W := W)).
Abbreviation chat_view := (pg_view (DB := chat U) (W := W)).
Context `{!ValkeyFrame guild_view} `{!ValkeyFrame chat_view}.
Context `{!PgFrame (guild U) (vk_view (W := W))} `{!PgFrame (guild U) chat_view}.
Context `{!PgFrame (chat U) (vk_view (W := W))} `{!PgFrame (chat U) guild_view}.
Context `{!ChatFrame (U := U) guild_view} `{!ChatFrame (U := U) chat_view} `{!ChatFrame (U := U) (vk_view (W := W))}.
Context (w0 : W).
Implicit Types (w : W) (u ch : U).

Definition calm_world w : Prop := guild_view w = guild_view w0 ∧ trusts (U := U) w0 w.
Definition standing u (s : string) : Prop := m_status <$> g_members (guild_view w0) !! u = Some s.

Lemma calm_same w w' : calm_world w → guild_view w' = guild_view w → vk_view w' = vk_view w → calm_world w'.
Proof.
  intros [Hg Hc] Hv Hk. split; [congruence|]. eapply trusts_unchanged; [exact Hc|].
  split; simpl; [by rewrite Hv|]. intros k. unfold cached_perm. by rewrite Hk.
Qed.
#[export] Instance calm_stable : Stable (chat U) calm_world.
Proof.
  split; [intros A f|intros A f|..]; intros w r w' Hi E; eapply calm_same; try exact Hi;
    [apply (keeps_run guild_view _ _ _ _ (pg_query_keeps f) E)|apply (keeps_run vk_view _ _ _ _ (pg_query_keeps f) E)
    |apply (keeps_run guild_view _ _ _ _ (tx_query_keeps f) E)|apply (keeps_run vk_view _ _ _ _ (tx_query_keeps f) E)
    |apply (keeps_run guild_view _ _ _ _ tx_Begin_keeps E)|apply (keeps_run vk_view _ _ _ _ tx_Begin_keeps E)
    |apply (keeps_run guild_view _ _ _ _ tx_Commit_keeps E)|apply (keeps_run vk_view _ _ _ _ tx_Commit_keeps E)
    |apply (keeps_run guild_view _ _ _ _ tx_Rollback_keeps E)|apply (keeps_run vk_view _ _ _ _ tx_Rollback_keeps E)].
Qed.

(** The resolver leaves the conversations alone. *)
#[local] Instance chat_reads : ReadFrame (guild U) chat_view := ReadFrame_other chat_view.
Lemma Resolve_keeps_chat u ch : keeps chat_view (Resolve (U := U) (W := W) u ch).
Proof. apply frame_Resolve; exact _. Qed.
Lemma HasPermission_gate u ch p :
  db_wf (guild_perms (guild_view w0)) →
  asks (DB := chat U) calm_world (HasPermission u ch p) (λ _ b, b = true → allowed_at (U := U) w0 u ch p).
Proof.
  intros Hwf w r w' [Hg Hc] E.
  pose proof (HasPermission_trusts _ _ _ _ _ _ _ Hwf Hc E) as (Hv & Hc' & Hp).
  split_and!; [split; [congruence|done]| |by destruct r as [[]|]; auto].
  apply bind_inv in E as [(eff & w1 & E1 & [= _ <-])|(e & E1 & _)]; exact (keeps_run chat_view _ _ _ _ (Resolve_keeps_chat u ch) E1).
Qed.

(** The other calls. *)
Lemma call_other {A} cmd (dec : reply → M W A) key w r w' :
  (∀ rep w1, (dec rep w1).2 = w1) → key ∉ cmd_keys cmd → (one cmd ≫= dec) w = (r, w') →
  ks_map (vk_view w') !! key = ks_map (vk_view w) !! key.
Proof.
  intros Hdec Hk E. apply call_inv in E as [(rep & E & _)|(e & _ & _ & [->|E])]; [|done| |done].
  - rewrite <-(run_cmd_other cmd (vk_view w) key Hk). by rewrite E.
  - rewrite E. by apply run_cmd_other.
Qed.
Lemma typing_cache c u v ch : cacheKey v ch ≠ typingKey (U := U) c u.
Proof. unfold cacheKey, CachePrefix, typingKey. intros E. by apply (f_equal (String.get 0)) in E. Qed.
Lemma calm_typing {A} (m : M W A) c u :
  keeps guild_view m → keeps chat_view m →
  (∀ w r w' key, m w = (r, w') → key ≠ typingKey c u → ks_map (vk_view w') !! key = ks_map (vk_view w) !! key) →
  asks (DB := chat U) calm_world m (λ _ _, True).
Proof.
  intros Hg Hc Hk w r w' [Hw Hco] E. split_and!; [|exact (keeps_run chat_view _ _ _ _ Hc E)|by destruct r].
  pose proof (keeps_run guild_view _ _ _ _ Hg E) as Hv. split; [congruence|].
  eapply trusts_unchanged; [exact Hco|]. split; simpl; [by rewrite Hv|]. intros [v ch].
  unfold cached_perm, ks_lookup. simpl. by rewrite (Hk _ _ _ _ E (typing_cache c u v ch)).
Qed.
Lemma SetTyping_gate ch u : asks (DB := chat U) calm_world (SetTyping ch u) (λ _ _, True).
Proof.
  apply (calm_typing _ ch u); [unfold SetTyping, rdb_SetNX; keeps; apply expect_keeps..|].
  intros w r w' key E Hne. apply wrap_inv in E as (r0 & E & _).
  apply bind_inv in E as [(n & w1 & E1 & E)|(e & E1 & _)]; [injection E as _ <-|];
    (eapply call_other; [|..|exact E1]; [by intros [] ?|set_solver]).
Qed.
Lemma ClearTyping_gate ch u : asks (DB := chat U) calm_world (ClearTyping ch u) (λ _ _, True).
Proof.
  apply (calm_typing _ ch u); [unfold ClearTyping, rdb_Del; keeps; apply expect_keeps..|].
  intros w r w' key E Hne. apply wrap_inv in E as (r0 & E & _).
  apply bind_inv in E as [(n & w1 & E1 & E)|(e & E1 & _)]; [injection E as _ <-|];
    (eapply call_other; [|..|exact E1]; [by intros [] ?|set_solver]).
Qed.

Context (Hwf : db_wf (guild_perms (guild_view w0))).
#[local] Definition granted u ch p : Prop := allowed_at (U := U) w0 u ch p.
Lemma calm_told w (f : W → W) :
  guild_view (f w) = guild_view w → vk_view (f w) = vk_view w → chat_view (f w) = chat_view w →
  calm_world w → calm_world (f w) ∧ chat_view (f w) = chat_view w.
Proof. intros Hg Hk Hc Hi. split; [|done]. by eapply calm_same. Qed.
Lemma server_gatekeeper : Gatekeeper calm_world granted.
Proof.
  split; [intros; by apply HasPermission_gate|intros; apply SetTyping_gate|intros; apply ClearTyping_gate|..];
    intros; (apply (calm_told _ _); [..|done]).
  all: first [apply frame_Enqueue|apply frame_EnqueueTargeted|apply frame_IndexMessage|apply frame_IndexUpdate
             |apply frame_IndexDelete|apply (frame_audit (U := U))].
Qed.
Lemma server_membership : Membership calm_world standing.
Proof.
  split. intros u w r w' Hi E.
  assert (Hk : keeps chat_view (MemberRepo.GetStatus (U := U) (W := W) u) ∧
               keeps (vk_view (W := W)) (MemberRepo.GetStatus (U := U) (W := W) u))
    by (unfold MemberRepo.GetStatus; split; keeps).
  destruct Hk as [Hc Hv]. destruct (GetStatus_reads _ _ _ _ E) as [Hg Hr]. split_and!.
  - eapply calm_same; [exact Hi|exact Hg|exact (keeps_run vk_view _ _ _ _ Hv E)].
  - exact (keeps_run chat_view _ _ _ _ Hc E).
  - destruct r as [s|]; [|done]. unfold standing. by rewrite <-(proj1 Hi).
Qed.
End gate.

Section server.
Context {U W : Type} `{UUIDLaws U} `{!RandomUUID U} `{!UUIDOrder U} `{!MemberStatuses}.
Context `{!LockedAggregates} `{!LockedAggregatesCount}.
Context `{PostgresLaws (guild U) W} `{!Postgres (chat U) W} `{!PostgresLaws (chat U) W} `{Clock W}.
Context `{!PermissionLib} `{!PermissionLaws} `{!ChatPermissions} `{ValkeyLaws W} `{!JwtLib}.
Context `{!ChatGateway U W} `{!SearchIndex W} `{GatewayQueue W} `{!AuditLog U W} `{!ChatEventNames}.
Context `{ApiErrors} `{!ChatErrors} `{TimeFormat} `{!StorageProvider}.
Abbreviation guild_view := (pg_view (DB := guild U) (W := W)).
Abbreviation chat_view := (pg_view (DB := chat U) (W := W)).
Context `{!ValkeyFrame guild_view} `{!ValkeyFrame chat_view}.
Context `{!PgFrame (guild U) (vk_view (W := W))} `{!PgFrame (guild U) chat_view}.
Context `{!PgFrame (chat U) (vk_view (W := W))} `{!PgFrame (chat U) guild_view}.
Context `{!ChatFrame (U := U) guild_view} `{!ChatFrame (U := U) chat_view} `{!ChatFrame (U := U) (vk_view (W := W))}.
Context (h : chat_handler) (maxDevices opkThreshold : Z).
Implicit Types (w : W) (x : chat_route) (c : request U).

(** By what the resolver knows when the request arrives, and by the tables. *)
Abbreviation allowed w := (λ u ch p, allowed_at (U := U) w u ch p).
Abbreviation stands w := (λ u s, m_status <$> g_members (U := U) (guild_view w) !! u = Some s).

Lemma served_changes cfg x c w r w' :
  db_wf (guild_perms (guild_view w)) → chat_ok maxDevices (chat_view w) →
  chat_routes h maxDevices opkThreshold cfg x c w = (r, w') →
  (chat_view w' = chat_view w ∧ ¬ succeeded r) ∨
  ∃ u, authenticated (allowed w) (stands w) cfg x c w u ∧
    rtc (chat_step (allowed w) (maxContent h) maxDevices u) (chat_view w) (chat_view w').
Proof.
  intros Hwf Hok E.
  pose proof (server_gatekeeper w Hwf) as Hgate. pose proof (server_membership w) as Hmem.
  exact (chat_routes_authorised (calm_world w) (allowed w) _ h maxDevices opkThreshold
    cfg x c w r w' (conj eq_refl (trusts_refl w)) Hok E).
Qed.

(** C3: A request to one of the 35 conversation routes of the server that succeeds or changes the
    tables carried a valid access token of its caller, whose address is verified, and with a
    cookie the CSRF token; by the tables the caller is an active member where the route asks for
    one; it has the permission the route asks for in the channel of its path; and the tables
    changed by steps the rules allow that caller.  Permissions are those the permission cache
    holds for the caller in that channel when the request arrives, or else those of the tables; if
    the cache agrees with the tables then, they are those of the tables.  At the nil identifier,
    which is no channel's, the permissions on the server count as the channel's. *)
Theorem chat_requests_authorised cfg x c w r w' :
  db_wf (guild_perms (guild_view w)) → chat_ok maxDevices (chat_view w) →
  chat_routes h maxDevices opkThreshold cfg x c w = (r, w') →
  succeeded r ∨ chat_view w' ≠ chat_view w →
  ∃ u, authenticated (allowed w) (stands w) cfg x c w u ∧
    rtc (chat_step (allowed w) (maxContent h) maxDevices u) (chat_view w) (chat_view w').
Proof.
  intros Hwf Hok E Hs. destruct (served_changes _ _ _ _ _ _ Hwf Hok E) as [[? ?]|?]; [|done].
  by destruct Hs.
Qed.

(** C7: Whatever the request and however it ends, and whatever the permission cache holds, the
    conversation tables keep their invariant: every reference points to a row, replies and threads
    stay in their channel, a message has at most one thread and a user reacts at most once with an
    emoji, an attachment belongs to a message of its uploader, two users share at most one direct
    conversation, a group has at most ten members, and a user has at most the configured number of
    devices, each with at most one active signed pre-key and with distinct key numbers. *)
Theorem chat_requests_keep_invariant cfg x c w r w' :
  db_wf (guild_perms (guild_view w)) → chat_ok maxDevices (chat_view w) →
  chat_routes h maxDevices opkThreshold cfg x c w = (r, w') →
  chat_ok maxDevices (chat_view w').
Proof.
  intros Hwf Hok E.
  destruct (served_changes _ _ _ _ _ _ Hwf Hok E) as [[-> _]|(u & _ & Hs)]; [done|].
  refine (history_keeps_invariant _ _ _ _ _ _ Hok). by eapply steps_history.
Qed.

(** C13: Who may change a message: no request removes one or changes its author, its channel, what
    it answers, its thread or when it was written; its text is changed by its author only, it is
    deleted by its author or by a caller with ManageMessages in its channel, pinned and unpinned
    with ManageMessages, and once it is deleted nothing of it changes any more.  The permission is
    in what the permission cache holds for the caller there when the request arrives, or else in
    what the tables give; if the cache agrees with the tables then, it is what the tables give.
    For a message at the nil identifier, which is no channel's, it is the one on the server. *)
Theorem message_rights cfg x c w r w' id m :
  db_wf (guild_perms (guild_view w)) → chat_ok maxDevices (chat_view w) →
  chat_routes h maxDevices opkThreshold cfg x c w = (r, w') →
  messages (chat_view w) !! id = Some m →
  ∃ m', messages (chat_view w') !! id = Some m' ∧ same_post m m' ∧
    (m' = m ∨ ∃ u, authenticated (allowed w) (stands w) cfg x c w u ∧ changed_by (allowed w) u m m').
Proof.
  intros Hwf Hok E Hm.
  destruct (served_changes _ _ _ _ _ _ Hwf Hok E) as [[-> _]|(u & Ha & Hs)].
  - exists m. split_and!; [done|by repeat split|by left].
  - destruct (steps_message _ _ _ _ _ _ _ _ Hs Hm) as (m' & Hm' & Hk & Hc). exists m'. eauto 6.
Qed.
End server.
