(* ===== verification/ChatReads.v ===== *)
(** * What the reading endpoints of the conversations answer

    The message list: every page is the next newest live messages of the channel, and walking
    the pages by the cursor gives all of them, once each, newest first.  With each message its
    attachments, the summaries of its reactions and whether the caller is among them; and the
    summaries the reaction endpoint computes are the ones the list shows. *)
From stdpp Require Import sorting.
From S2P Require Import Prelude GoStd Platform Permission Presence Validate Base64 Postgres Domain GuildTables Http.
From S2P Require Import MemberApi ApiLogic MemberList ChatTables DmTables ChatRepo ChatModel MessageApi.
From S2P Require Import ChatLogic ChatSpec ChatWrites.
Open Scope Z_scope.

(** ** The history of a channel or a thread *)
Section pages.
Context {U : Type} `{UUIDLaws U} `{!RandomUUID U} `{!UUIDOrder U}.
Implicit Types (d : chat U) (p : message_row U → bool) (m : Message.Message U) (id : U).

#[local] Instance newest_trans : Transitive (newest (U := U)).
Proof. intros a b c Hab Hbc. unfold newest in *. destruct (message_key a), (message_key b), (message_key c).
  unfold key_le in *. simpl in *. destruct Hab as [?|[-> ?]], Hbc as [?|[-> ?]]; [left; lia|by left|by left|].
  right. split; [done|by etrans].
Qed.
#[local] Instance newest_total : Total (newest (U := U)).
Proof.
  intros a b. unfold newest, key_le. destruct (message_key a) as [t x], (message_key b) as [s y]. simpl.
  destruct (Z.lt_trichotomy t s) as [?|[->|?]]; [by right; left| |by left; left].
  destruct (total uuid_le x y); [right|left]; by right.
Qed.
Lemma joined_key id r d m : joined id r d = Some m →
  Message.ID m = id ∧ message_key m = (r_created r, id) ∧ Message.ChannelID m = r_channel r.
Proof. unfold joined. destruct (c_users d !! r_author r); [|done]. intros [= <-]. done. Qed.
Definition shown p d m : Prop := ∃ r,
  messages d !! Message.ID m = Some r ∧ p r = true ∧ is_live r = true ∧ joined (Message.ID m) r d = Some m.
Lemma elem_history p d m : m ∈ history p d ↔ shown p d m.
Proof.
  unfold history, shown. rewrite merge_sort_Permutation, list_elem_of_omap. split.
  - intros ([id r] & Hin%elem_of_map_to_list & Hm). simpl in Hm. destruct (p r && is_live r) eqn:Ep; [|done].
    apply andb_true_iff in Ep as [Hp Hl]. destruct (joined_key _ _ _ _ Hm) as [-> _]. by exists r.
  - intros (r & Hr & Hp & Hl & Hj). exists (Message.ID m, r). rewrite elem_of_map_to_list. simpl. by rewrite Hp, Hl.
Qed.
Lemma history_sorted p d : StronglySorted newest (history p d).
Proof. apply (StronglySorted_merge_sort newest). Qed.
Lemma history_NoDup p d : NoDup (Message.ID <$> history p d).
Proof.
  unfold history. rewrite merge_sort_Permutation. pose proof (NoDup_fst_map_to_list (messages d)) as Hn.
  induction (map_to_list (messages d)) as [|[id r] l IH]; [constructor|].
  rewrite fmap_cons in Hn. apply NoDup_cons in Hn as [Hi Hn]. simpl.
  destruct (p r && is_live r); [|by apply IH].
  destruct (joined id r d) as [m|] eqn:Em; [|by apply IH]. rewrite fmap_cons. constructor; [|by apply IH].
  intros (m' & Hm & ([id' r'] & Hin & Hj)%list_elem_of_omap)%list_elem_of_fmap. simpl in Hj.
  destruct (p r' && is_live r'); [|done]. apply joined_key in Em as [Em _]. apply joined_key in Hj as [Hj _].
  apply Hi. apply list_elem_of_fmap. exists (id', r'). split; [simpl; congruence|done].
Qed.
(** Below a message of the history are exactly the older ones. *)
Lemma older_suffix p d l1 m l2 : history p d = l1 ++ m :: l2 →
  filter (λ x, older (Message.ID m) d (message_key x) = true) (history p d) = l2.
Proof.
  intros E. assert (Hm : shown p d m) by (apply elem_history; rewrite E; set_solver).
  destruct Hm as (r & Hr & _ & _ & Hj). destruct (joined_key _ _ _ _ Hj) as (_ & Hk & _).
  assert (Hold : ∀ x, older (Message.ID m) d (message_key x) = true ↔ newest m x ∧ message_key x ≠ message_key m).
  { intros x. unfold older. rewrite Hr, bool_decide_eq_true, <-Hk. done. }
  pose proof (history_sorted p d) as Hs. pose proof (history_NoDup p d) as Hn.
  rewrite E in *. clear E. rewrite filter_app. rewrite fmap_app, fmap_cons in Hn.
  apply NoDup_app in Hn as (_ & _ & [Hnm _]%NoDup_cons).
  apply StronglySorted_app in Hs as (Hs12 & _ & [_ Hms]%StronglySorted_inv).
  rewrite (filter_refused _ l1), filter_cons_False, (filter_kept _ l2); [done|..].
  - apply Forall_forall. intros x Hx. apply Hold. split; [exact (proj1 (Forall_forall _ _) Hms x Hx)|].
    intros Hkey. apply Hnm. apply list_elem_of_fmap. exists x. split; [|done]. unfold message_key in Hkey. congruence.
  - rewrite Hold. by intros [_ ?].
  - apply Forall_forall. intros x Hx [Hmx Hne]%Hold. apply Hne. apply (key_le_antisym (U := U)); [exact Hmx|].
    apply (Hs12 x m Hx). by left.
Qed.

(** One page, and the walk by the cursor: the next page is asked for before the last message of
    the one before. *)
Definition page p (before : option U) (limit : Z) d : list (Message.Message U) :=
  match (select_messages p before limit d).1 with Ok l => l | Err _ => [] end.
Fixpoint walk p (limit : Z) (fuel : nat) (before : option U) d : list (Message.Message U) :=
  match fuel with
  | O => []
  | S fuel' =>
      match last (page p before limit d) with
      | None => []
      | Some m => page p before limit d ++ walk p limit fuel' (Some (Message.ID m)) d
      end
  end.
Lemma walk_rest p limit d : 0 < limit → ∀ fuel before l1 l2,
  history p d = l1 ++ l2 → (length l2 < fuel)%nat →
  match before with None => l1 = [] | Some b => filter (λ m, older b d (message_key m) = true) (history p d) = l2 end →
  walk p limit fuel before d = l2.
Proof.
  intros Hl fuel. induction fuel as [|fuel IH]; intros before l1 l2 E Hf Hb; [lia|]. simpl.
  assert (Hpage : page p before limit d = take (Z.to_nat limit) l2).
  { unfold page, select_messages. simpl. destruct before; [by rewrite Hb|]. by rewrite E, Hb. }
  rewrite Hpage. destruct l2 as [|x l2]; [by rewrite take_nil|].
  destruct (Z.to_nat limit) as [|n] eqn:En; [lia|].
  destruct (exists_last (l := take (S n) (x :: l2))) as (l & m & Ht); [done|].
  rewrite Ht, last_snoc. set (rest := drop (S n) (x :: l2)).
  assert (Hsplit : x :: l2 = l ++ m :: rest)
    by (rewrite <-(take_drop (S n) (x :: l2)), Ht, <-app_assoc; done).
  rewrite (IH (Some (Message.ID m)) (l1 ++ l ++ [m]) rest).
  - by rewrite Hsplit, <-app_assoc.
  - by rewrite E, Hsplit, <-!app_assoc.
  - rewrite Hsplit, length_app in Hf. simpl in Hf. lia.
  - apply (older_suffix _ _ (l1 ++ l)). by rewrite E, Hsplit, <-!app_assoc.
Qed.

(** C28: Walking the pages of a channel or a thread by the cursor, with any page size, gives the
    whole history: every live message of it whose author exists, once, newest first, and no
    deleted one; one call per page and one more is enough. *)
Theorem walk_complete p limit fuel d :
  0 < limit → (length (history p d) < fuel)%nat →
  walk p limit fuel None d = history p d ∧ StronglySorted newest (history p d) ∧
  NoDup (Message.ID <$> history p d) ∧ ∀ m, m ∈ history p d ↔ shown p d m.
Proof.
  intros Hl Hf. split; [by apply (walk_rest p limit d Hl fuel None [])|].
  split_and!; [apply history_sorted|apply history_NoDup|apply elem_history].
Qed.
End pages.

(** ** Grouping *)
Section distinct.
Context {A B : Type} `{EqDecision A} `{EqDecision B}.
Implicit Types (l : list A).
Lemma elem_distinct x l : x ∈ distinct l ↔ x ∈ l.
Proof.
  induction l as [|y l IH]; [done|]. simpl. rewrite !elem_of_cons, list_elem_of_filter, IH.
  destruct (decide (x = y)); tauto.
Qed.
Lemma distinct_snoc l x : distinct (l ++ [x]) = if decide (x ∈ l) then distinct l else distinct l ++ [x].
Proof.
  induction l as [|y l IH]; [done|]. simpl. rewrite IH. destruct (decide (x ∈ l)) as [Hx|Hx].
  - by rewrite decide_True by (by right).
  - rewrite filter_app. destruct (decide (x = y)) as [->|Hne].
    + rewrite (decide_True (P := y ∈ y :: l)) by left. rewrite filter_cons_False by (intros ?; done). simpl.
      by rewrite app_nil_r.
    + rewrite decide_False by (intros [->|?]%elem_of_cons; done). by rewrite filter_cons_True.
Qed.
Lemma distinct_fmap (f : A → B) l :
  (∀ x y, x ∈ l → y ∈ l → f x = f y → x = y) → distinct (f <$> l) = f <$> distinct l.
Proof.
  intros Hf. induction l as [|x l IH]; [done|]. rewrite fmap_cons. cbn [distinct]. rewrite fmap_cons, IH by (intros y z Hy Hz; apply Hf; by right). f_equal.
  assert (Hin : ∀ y, y ∈ distinct l → y ∈ l) by (intros y; apply elem_distinct).
  clear IH. induction (distinct l) as [|y l' IH']; [done|]. rewrite !fmap_cons, !filter_cons.
  assert (Hl : filter (λ z, z ≠ f x) (f <$> l') = f <$> filter (λ z, z ≠ x) l')
    by (apply IH'; intros z Hz; apply Hin; by right).
  assert (f y ≠ f x ↔ y ≠ x) as Hiff.
  { split; [by intros Hne ->|]. intros Hne Heq. apply Hne, Hf; [right; apply Hin; left|left|done]. }
  destruct (decide (f y ≠ f x)), (decide (y ≠ x)); try tauto; rewrite Hl; done.
Qed.
End distinct.

Section reactions.
Context {U : Type} `{UUIDLaws U} `{!RandomUUID U}.
Implicit Types (d : chat U) (m u : U) (r : Reaction.Reaction U) (k : emoji_key U).

(** The fold of groupReactions: the keys in the order they are first seen, and for each what its
    first reaction names, how many there are, and whether the user's is among them. *)
Definition with_key (k : string * string) (l : list (Reaction.Reaction U)) : list (Reaction.Reaction U) :=
  filter (λ r, reaction_key r = k) l.
Definition summary_of u (k : string * string) (l : list (Reaction.Reaction U)) : option ChatModels.ReactionSummary :=
  (λ r, ChatModels.mkReactionSummary (uuid_String <$> Reaction.EmojiID r) (Reaction.EmojiUnicode r)
          (Z.of_nat (length (with_key k l))) (existsb (λ r, bool_decide (Reaction.UserID r = u)) (with_key k l)))
  <$> head (with_key k l).
Lemma with_key_snoc q l r : with_key q (l ++ [r]) = with_key q l ++ (if decide (reaction_key r = q) then [r] else []).
Proof. unfold with_key. rewrite filter_app, filter_cons. by destruct (decide _). Qed.
Lemma group_fold u l :
  let acc := foldl (group_step u) ([], ∅) l in
  acc.1 = distinct (reaction_key <$> l) ∧ ∀ q, acc.2 !! q = summary_of u q l.
Proof.
  induction l as [|r l [IHo IHc]] using rev_ind; [by split|]. rewrite foldl_snoc. cbv zeta in *.
  destruct (foldl (group_step u) ([], ∅) l) as [order counts] eqn:Ef. simpl in *. subst order.
  unfold group_step. rewrite IHc. set (q0 := reaction_key r).
  assert (Hsum : ∀ q, q ≠ q0 → summary_of u q (l ++ [r]) = summary_of u q l).
  { intros q Hq. unfold summary_of. rewrite with_key_snoc, decide_False by (intros Heq; by apply Hq).
    by rewrite app_nil_r. }
  assert (Hin : q0 ∈ reaction_key <$> l ↔ with_key q0 l ≠ []).
  { rewrite list_elem_of_fmap. split.
    - intros (x & Hx & Hl) Hn. assert (x ∈ with_key q0 l) as Hi by (by apply list_elem_of_filter).
      rewrite Hn in Hi. by apply elem_of_nil in Hi.
    - intros Hn. destruct (with_key q0 l) as [|x l'] eqn:E; [done|].
      assert (x ∈ with_key q0 l) as Hi by (rewrite E; left). apply list_elem_of_filter in Hi as [? ?]. by exists x. }
  rewrite fmap_app. change (reaction_key <$> [r]) with [q0]. rewrite distinct_snoc.
  destruct (with_key q0 l) as [|x l'] eqn:E.
  - assert (summary_of u q0 l = None) as -> by (unfold summary_of; by rewrite E).
    rewrite decide_False by (rewrite Hin; by intros []). split; [done|]. intros q. simpl.
    destruct (decide (q = q0)) as [->|Hq]; [|by rewrite lookup_insert_ne, Hsum by done].
    rewrite lookup_insert_eq. unfold summary_of. rewrite with_key_snoc, E, decide_True by done. simpl.
    by rewrite orb_false_r.
  - assert (summary_of u q0 l = Some (ChatModels.mkReactionSummary (uuid_String <$> Reaction.EmojiID x)
      (Reaction.EmojiUnicode x) (Z.of_nat (length (x :: l')))
      (existsb (λ r, bool_decide (Reaction.UserID r = u)) (x :: l')))) as -> by (unfold summary_of; by rewrite E).
    rewrite decide_True by (by rewrite Hin). split; [done|]. intros q. simpl.
    destruct (decide (q = q0)) as [->|Hq]; [|by rewrite lookup_insert_ne, Hsum by done].
    rewrite lookup_insert_eq. unfold summary_of. rewrite with_key_snoc, E, decide_True by done. simpl.
    rewrite length_app, existsb_app. simpl. rewrite orb_false_r, orb_assoc. do 2 f_equal. lia.
Qed.

(** The reactions of a user on a message, as the set the models look into. *)
Lemma own_reactions_spec (rows : list (U * emoji_key U)) m s :
  s ∈ lookup_set (ReactionRepo.own_reactions rows) m ↔ ∃ k, (m, k) ∈ rows ∧ ReactionRepo.own_key k = Some s.
Proof.
  unfold lookup_set, ReactionRepo.own_reactions.
  induction rows as [|[m' k'] rows IH] using rev_ind; [simpl; rewrite lookup_empty; set_solver|].
  rewrite foldl_snoc. simpl. destruct (decide (m' = m)) as [->|Hm].
  - rewrite lookup_insert_eq. simpl. rewrite elem_of_union, IH, elem_of_list_to_set.
    destruct (ReactionRepo.own_key k') as [s'|] eqn:E; simpl; set_solver.
  - rewrite lookup_insert_ne by done. rewrite IH. set_solver.
Qed.
Definition key_string k : string :=
  match k.1 with Some e => ReactionRepo.custom_key e | None => coalesce k.2 ""%string end.
Definition proper k : Prop := (is_Some k.1 ↔ k.2 = None) ∧ ∀ s, k.2 = Some s → plain_emoji s.
Lemma custom_key_prefix (e : U) : take 7 (bytes_of (ReactionRepo.custom_key e)) = bytes_of custom_prefix.
Proof.
  unfold ReactionRepo.custom_key. rewrite bytes_of_app. by rewrite (take_app_length' (bytes_of "custom:")).
Qed.
Lemma custom_key_inj (e f : U) : ReactionRepo.custom_key e = ReactionRepo.custom_key f → e = f.
Proof.
  intros E%(f_equal bytes_of). unfold ReactionRepo.custom_key in E. rewrite !bytes_of_app in E.
  by apply app_inv_head, bytes_of_inj, uuid_String_inj in E.
Qed.
Lemma proper_cases k : proper k →
  (∃ e, k = (Some e, None)) ∨ ∃ s, k = (None, Some s) ∧ plain_emoji s.
Proof.
  intros [Hex Hp]. destruct k as [[e|] [v|]]; simpl in *; [|by left; eauto|right; eauto|].
  - discriminate (proj1 Hex (ex_intro _ _ eq_refl)).
  - destruct (proj2 Hex eq_refl) as [? [=]].
Qed.
Lemma own_key_string k s : proper k → ReactionRepo.own_key k = Some s ↔ s = key_string k.
Proof. intros [(e & ->)|(v & -> & _)]%proper_cases; unfold key_string; simpl; naive_solver. Qed.
Lemma key_string_inj k k' : proper k → proper k' → key_string k = key_string k' → k = k'.
Proof.
  intros [(e & ->)|(v & -> & _ & Hv)]%proper_cases [(f & ->)|(v' & -> & _ & Hv')]%proper_cases;
    unfold key_string; simpl; intros E.
  - by apply custom_key_inj in E as ->.
  - destruct Hv'. by rewrite <-E, custom_key_prefix.
  - destruct Hv. by rewrite E, custom_key_prefix.
  - by subst.
Qed.
Definition row_key k : string * string :=
  (match k.1 with Some e => uuid_String e | None => ""%string end, coalesce k.2 ""%string).
Lemma row_key_inj k k' : proper k → proper k' → row_key k = row_key k' → k = k'.
Proof.
  intros [(e & ->)|(v & -> & Hv & _)]%proper_cases [(f & ->)|(v' & -> & Hv' & _)]%proper_cases;
    unfold row_key; simpl; intros [=]; subst; [|done..|done].
  by match goal with E : uuid_String _ = uuid_String _ |- _ => apply uuid_String_inj in E as -> end.
Qed.

(** *** The tally of the reactions on a message: what both endpoints are to show *)
Definition tally u (rows : list (reaction_row U)) : list ChatModels.ReactionSummary :=
  (λ k, ChatModels.mkReactionSummary (uuid_String <$> k.1) k.2
          (Z.of_nat (length (filter (λ y, y = k) (reaction_emoji <$> rows))))
          (existsb (λ x, bool_decide (reaction_emoji x = k) && bool_decide (x_user x = u)) rows))
  <$> distinct (reaction_emoji <$> rows).
Definition reactions_on m d : list (reaction_row U) := (reaction_rows (on_message m) d).*2.
Lemma elem_reactions_on m d x : x ∈ reactions_on m d ↔ ∃ i, reactions d !! i = Some x ∧ x_message x = m.
Proof.
  unfold reactions_on, reaction_rows. rewrite list_elem_of_fmap. setoid_rewrite merge_sort_Permutation.
  setoid_rewrite list_elem_of_filter. unfold on_message. setoid_rewrite bool_decide_eq_true. split.
  - intros ([i y] & -> & Hm & Hi%elem_of_map_to_list). by exists i.
  - intros (i & Hi & Hm). exists (i, x). by rewrite elem_of_map_to_list.
Qed.
Abbreviation sound d := (posts_ok (c_users d) (c_posts d)).
Lemma reactions_proper m d : sound d →
  Forall (λ x, is_Some (c_users d !! x_user x) ∧ proper (reaction_emoji x)) (reactions_on m d).
Proof.
  intros Hok. apply Forall_forall. intros x (i & Hi & _)%elem_reactions_on.
  destruct (reaction_refs _ _ Hok i x Hi) as (_ & Hu & _ & He).
  split; [done|]. split; [exact He|]. exact (reaction_plain _ _ Hok i x Hi).
Qed.

(** The reaction endpoint. *)
Definition stands_for (r : Reaction.Reaction U) (x : reaction_row U) : Prop :=
  reaction_key r = row_key (reaction_emoji x) ∧ Reaction.EmojiID r = x_emoji x ∧
  Reaction.EmojiUnicode r = x_unicode x ∧ Reaction.UserID r = x_user x.
Lemma reactions_shown d rows :
  Forall (λ x, is_Some (c_users d !! x_user x)) rows.*2 → Forall2 stands_for (omap (reaction_of d) rows) rows.*2.
Proof.
  induction rows as [|[i x] rows IH]; [constructor|]. rewrite fmap_cons. intros [[v Hv] Hl]%Forall_cons.
  simpl in *. unfold reaction_of at 1. simpl. rewrite Hv. simpl. constructor; [done|by apply IH].
Qed.
Lemma with_key_rows k (l : list (Reaction.Reaction U)) rows :
  proper k → Forall (λ x, proper (reaction_emoji x)) rows →
  Forall2 stands_for l rows →
  ∀ u, length (with_key (row_key k) l) = length (filter (λ y, y = k) (reaction_emoji <$> rows)) ∧
  existsb (λ r, bool_decide (Reaction.UserID r = u)) (with_key (row_key k) l) =
  existsb (λ x, bool_decide (reaction_emoji x = k) && bool_decide (x_user x = u)) rows ∧
  (k ∈ reaction_emoji <$> rows → ∃ r, head (with_key (row_key k) l) = Some r ∧
     Reaction.EmojiID r = k.1 ∧ Reaction.EmojiUnicode r = k.2).
Proof.
  intros Hk Hp Hl u. induction Hl as [|r x l rows (Hrk & He & Hun & Hus) Hl IH]; [set_solver|].
  apply Forall_cons in Hp as [Hx Hp]. destruct (IH Hp) as (IHn & IHe & IHh). clear IH.
  assert (Hiff : reaction_key r = row_key k ↔ reaction_emoji x = k).
  { rewrite Hrk. split; [by apply row_key_inj|by intros ->]. }
  unfold with_key in *. rewrite fmap_cons, !filter_cons. simpl.
  destruct (decide (reaction_emoji x = k)) as [Hq|Hq].
  - rewrite decide_True, bool_decide_true by tauto. simpl. rewrite IHn, IHe, Hus.
    split_and!; [done..|]. intros _. exists r. split; [done|]. by rewrite <-Hq.
  - rewrite decide_False, bool_decide_false by tauto. simpl. rewrite IHn, IHe. split_and!; [done..|].
    intros [->|Hi]%elem_of_cons; [done|]. by apply IHh.
Qed.
Lemma group_tally u d rows :
  Forall (λ x, is_Some (c_users d !! x_user x) ∧ proper (reaction_emoji x)) rows.*2 →
  groupReactions (omap (reaction_of d) rows) u = tally u rows.*2.
Proof.
  intros Hok. apply Forall_and in Hok as [Hu Hp]. apply reactions_shown in Hu.
  assert (Hkeys : reaction_key <$> omap (reaction_of d) rows = row_key <$> (reaction_emoji <$> rows.*2)).
  { clear Hp. induction Hu as [|r x l k (Hr & _) Hl IH]; [done|].
    rewrite !fmap_cons, IH. by rewrite Hr. }
  set (l := omap (reaction_of d) rows) in *.
  pose proof (group_fold u l) as Hf. unfold groupReactions. destruct (foldl _ _ l) as [order counts].
  simpl in Hf. destruct Hf as [-> Hc]. rewrite Hkeys, distinct_fmap.
  2:{ assert (Hpr : ∀ k, k ∈ reaction_emoji <$> rows.*2 → proper k).
      { intros k (x & -> & Hx)%list_elem_of_fmap. exact (proj1 (Forall_forall _ _) Hp x Hx). }
      intros k k' Hk Hk'. apply row_key_inj; by apply Hpr. }
  unfold tally. assert (Hin : ∀ k, k ∈ distinct (reaction_emoji <$> rows.*2) → k ∈ reaction_emoji <$> rows.*2)
    by (intros k; apply elem_distinct).
  induction (distinct (reaction_emoji <$> rows.*2)) as [|k ks IH]; [done|].
  rewrite !fmap_cons. assert (Hk : k ∈ reaction_emoji <$> rows.*2) by (apply Hin; left).
  assert (Hpk : proper k).
  { apply list_elem_of_fmap in Hk as (x & -> & Hx). exact (proj1 (Forall_forall _ _) Hp x Hx). }
  destruct (with_key_rows k l rows.*2 Hpk Hp Hu u) as (Hn & He & Hh). destruct (Hh Hk) as (r & Hr & E1 & E2).
  assert (Hq : counts !! row_key k = Some (ChatModels.mkReactionSummary (uuid_String <$> k.1) k.2
     (Z.of_nat (length (filter (λ y, y = k) (reaction_emoji <$> rows.*2))))
     (existsb (λ x, bool_decide (reaction_emoji x = k) && bool_decide (x_user x = u)) rows.*2))).
  { rewrite Hc. unfold summary_of. rewrite Hr. simpl. by rewrite Hn, He, E1, E2. }
  simpl. rewrite Hq. f_equal. apply IH. intros k' Hk'. apply Hin. by right.
Qed.

(** The message list. *)
Lemma summaries_tally u m d :
  Forall (λ x, proper (reaction_emoji x)) (reactions_on m d) →
  ∀ rows, (∀ k, (m, k) ∈ rows ↔ ∃ x, x ∈ reactions_on m d ∧ x_user x = u ∧ reaction_emoji x = k) →
  reaction_model (lookup_set (ReactionRepo.own_reactions rows) m) <$> summaries m d = tally u (reactions_on m d).
Proof.
  intros Hp rows Hrows. unfold summaries, tally. rewrite <-list_fmap_compose.
  assert (E : (λ x, reaction_emoji x.2) <$> reaction_rows (on_message m) d = reaction_emoji <$> reactions_on m d)
    by (unfold reactions_on; by rewrite <-list_fmap_compose).
  cbv zeta. rewrite E. apply list_fmap_ext. intros i k Hk.
  assert (Hin : k ∈ reaction_emoji <$> reactions_on m d).
  { apply elem_distinct. by eapply list_elem_of_lookup_2. }
  assert (Hpk : proper k).
  { apply list_elem_of_fmap in Hin as (x & -> & Hx). exact (proj1 (Forall_forall _ _) Hp x Hx). }
  simpl. unfold reaction_model. simpl. f_equal.
  transitivity (bool_decide (key_string k ∈ lookup_set (ReactionRepo.own_reactions rows) m)).
  { apply bool_decide_ext. unfold key_string, ReactionRepo.custom_key. by destruct (k.1). }
  apply eq_true_iff_eq. rewrite bool_decide_eq_true, own_reactions_spec, existsb_exists.
  setoid_rewrite <-list_elem_of_In. setoid_rewrite andb_true_iff. setoid_rewrite bool_decide_eq_true. split.
  - intros (k' & Hk' & Hs). apply Hrows in Hk' as (x & Hx & Hu & <-). exists x.
    assert (Hpx : proper (reaction_emoji x)) by exact (proj1 (Forall_forall _ _) Hp x Hx).
    apply own_key_string in Hs; [|done]. apply key_string_inj in Hs; [by subst|done..].
  - intros (x & Hx & Hxk & Hu). exists k. split; [apply Hrows; eauto|]. by apply own_key_string.
Qed.
End reactions.

(** ** The endpoints *)
#[local] Existing Instance free_Stable.

Section endpoints.
Context {U W : Type} `{UUIDLaws U} `{!RandomUUID U} `{!UUIDOrder U} `{PostgresLaws (chat U) W}.
Context `{ApiErrors} `{!ChatErrors} `{TimeFormat} `{!StorageProvider}.
Implicit Types (d : chat U) (c : request U) (w : W) (u m ch : U).
Abbreviation view := (pg_view (DB := chat U)).
Abbreviation free := (λ _ : W, True).
Abbreviation sound := (λ d, posts_ok (c_users d) (c_posts d)).

Abbreviation answers := (shows (DB := chat U) free).
(** The request asks for the page before [b], with the limit [limit]. *)
Definition asks_page c (b : option U) (limit : Z) : Prop :=
  match b with
  | None => Query c "before" = ""%string
  | Some b => Query c "before" ≠ ""%string ∧ uuid_Parse (Query c "before") = Ok b
  end ∧
  ∃ raw, limit = Validate.Message.ClampLimit raw ∧
         (Query c "limit" = ""%string ∧ raw = 0 ∨ Query c "limit" ≠ ""%string ∧ ParseInt (Query c "limit") = Ok raw).
Lemma answers_page {A} R c b limit (k : option U → Z → M W (response A)) X :
  asks_page c b limit → answers R (k b limit) X →
  answers R (ParseBefore c (λ before, ParseIntQuery c "limit" (λ raw, k before (Validate.Message.ClampLimit raw)))) X.
Proof.
  intros (Hb & raw & -> & Hl) Hk. unfold ParseBefore, ParseIntQuery.
  destruct b as [b|]; [destruct Hb as [Hb Hp]; rewrite (bool_decide_false (_ = _)) by done; rewrite Hp
    |rewrite (bool_decide_true _ Hb)];
    (destruct Hl as [[Hl ->]|[Hl Hpl]]; [by rewrite (bool_decide_true _ Hl)
      |rewrite (bool_decide_false _ Hl); by rewrite Hpl]).
Qed.

Lemma lookup_per_message {A} (ids : list U) (f : U → list A) m : m ∈ ids → lookup_list (per_message ids f) m = f m.
Proof.
  unfold lookup_list. induction ids as [|id ids IH]; [by intros ?%elem_of_nil|]. simpl.
  destruct (decide (id = m)) as [->|Hne].
  - intros _. destruct (f m) as [|x l] eqn:E; [|by rewrite lookup_insert_eq].
    destruct (decide (m ∈ ids)) as [Hi|Hi]; [by apply IH|].
    assert (Hn : per_message ids f !! m = None); [|by rewrite Hn].
    clear IH. induction ids as [|j ids IH]; [apply lookup_empty|]. simpl. apply not_elem_of_cons in Hi as [Hj Hi].
    destruct (f j); [by apply IH|]. rewrite lookup_insert_ne by done. by apply IH.
  - intros [?|Hi]%elem_of_cons; [done|]. destruct (f id); [by apply IH|]. rewrite lookup_insert_ne by done. by apply IH.
Qed.
Lemma user_reactions_rows (ids : list U) u d m k : m ∈ ids →
  (m, k) ∈ omap (λ p : U * reaction_row U, if bool_decide (x_message p.2 ∈ ids) && bool_decide (x_user p.2 = u)
                   then Some (x_message p.2, reaction_emoji p.2) else None) (map_to_list (reactions d)) ↔
  ∃ x, x ∈ reactions_on m d ∧ x_user x = u ∧ reaction_emoji x = k.
Proof.
  intros Hm. rewrite list_elem_of_omap. setoid_rewrite elem_reactions_on. split.
  - intros ([i x] & Hi%elem_of_map_to_list & Hx). simpl in Hx.
    destruct (bool_decide_reflect (x_message x ∈ ids)), (bool_decide_reflect (x_user x = u)); try done.
    injection Hx as <- <-. exists x. eauto.
  - intros (x & (i & Hi & <-) & <- & <-). exists (i, x). rewrite elem_of_map_to_list. simpl.
    by rewrite !bool_decide_true by done.
Qed.

(** What the list is to show of a message. *)
Definition message_view u d (m : Message.Message U) : ChatModels.Message :=
  ChatModels.mkMessage (uuid_String (Message.ID m)) (uuid_String (Message.ChannelID m)) (author_model m)
    (Message.Content m) (toAttachmentModel <$> attached (Message.ID m) d)
    (tally u (reactions_on (Message.ID m) d)) (uuid_String <$> Message.ReplyToID m)
    (uuid_String <$> Message.ThreadID m) (Message.Pinned m) (Message.Encrypted m)
    (time_Format <$> Message.EditedAt m) (time_Format (Message.CreatedAt m)) [].
Lemma ListByMessages_asks (ids : list U) :
  asks free (AttachmentRepo.ListByMessages (W := W) ids) (λ d r, r = per_message ids (λ m, attached m d)).
Proof. destruct ids; [by apply asks_ret|]. apply asks_wrap. by apply asks_gets. Qed.
Lemma Summaries_asks (ids : list U) :
  asks free (ReactionRepo.SummariesByMessages (W := W) ids) (λ d r, r = per_message ids (λ m, summaries m d)).
Proof. destruct ids; [by apply asks_ret|]. apply asks_wrap. by apply asks_gets. Qed.
Lemma UserReactions_asks (ids : list U) u :
  asks free (ReactionRepo.UserReactionsByMessages (W := W) ids u) (λ d r, ∃ rows, r = ReactionRepo.own_reactions rows ∧
    ∀ m k, m ∈ ids → (m, k) ∈ rows ↔ ∃ x, x ∈ reactions_on m d ∧ x_user x = u ∧ reaction_emoji x = k).
Proof.
  destruct ids as [|id ids].
  { apply asks_ret. intros d. exists []. split; [done|]. by intros m k ?%elem_of_nil. }
  eapply asks_bind; [apply asks_wrap, (asks_gets _ _ (λ d rows, ∀ m k, m ∈ id :: ids →
    (m, k) ∈ rows ↔ ∃ x, x ∈ reactions_on m d ∧ x_user x = u ∧ reaction_emoji x = k))|].
  - intros d m k. apply user_reactions_rows.
  - intros rows. apply asks_ret. intros d Hr. by exists rows.
Qed.
Lemma enriched_answers (R : chat U → Prop) (messages : list (Message.Message U)) u X :
  (∀ d, R d → sound d ∧ X d = messages) →
  answers R (with_enrichment (Message.ID <$> messages) u (λ e, Success (list_models messages e)))
          (λ d, message_view u d <$> X d).
Proof.
  intros HR. unfold with_enrichment. set (ids := Message.ID <$> messages).
  eapply shows_catch; [apply ListByMessages_asks|auto with declines|]. intros am.
  eapply shows_catch; [apply Summaries_asks|auto with declines|]. intros sm.
  eapply shows_catch; [apply UserReactions_asks|auto with declines|]. intros um.
  apply shows_success. intros d (((Hd & ->) & ->) & rows & -> & Hrows).
  apply HR in Hd as [Hs ->]. apply list_fmap_ext. intros i m Hm.
  assert (Hin : Message.ID m ∈ ids) by (by eapply list_elem_of_fmap_2, list_elem_of_lookup_2).
  unfold message_view, buildMessageModel. simpl. rewrite !lookup_per_message by done. f_equal. symmetry.
  apply summaries_tally; [|intros k; by apply Hrows].
  eapply Forall_impl; [by apply reactions_proper|]. by intros x [].
Qed.

(** C27: Listing the messages of a channel changes nothing, and a successful answer is the page
    asked for, each message with its attachments and the tally of its reactions. *)
Theorem ListMessages_correct c u ch b limit w r w' :
  Locals_userID c = Some u → uuid_Parse (Params c "channelID") = Ok ch → asks_page c b limit →
  ListMessages c w = (r, w') →
  view w' = view w ∧ ∀ resp, r = Ok resp → sound (view w) → status resp < 400 →
    content resp = Data (message_view u (view w) <$> page (in_channel ch) b limit (view w)).
Proof.
  intros Hu Hch Hp E.
  assert (Ha : answers sound (ListMessages c) (λ d, message_view u d <$> page (in_channel ch) b limit d)).
  { unfold ListMessages. apply (shows_param _ _ _ _ _ _ ch); [done|].
    refine (answers_page _ _ b limit (λ before limit, catch (MessageRepo.List ch before limit) (λ _, internal_error)
      (λ messages, userID ← UserID c; with_enrichment (Message.ID <$> messages) userID
        (λ e, Success (list_models messages e)))) _ Hp _).
    eapply shows_catch; [apply asks_wrap, (asks_gets _ _ (λ d l, page (in_channel ch) b limit d = l))|auto with declines|];
      [done|]. intros messages. apply (shows_UserID _ _ _ u); [done|]. by apply enriched_answers. }
  apply Ha in E as (_ & Hv & Hr); [|done]. split; [done|]. by intros resp ->.
Qed.

(** C29: The reactions endpoint changes nothing, and a successful answer is the tally of the
    reactions on the message: the same the message list shows. *)
Theorem ListReactions_correct c u ch m w r w' :
  Locals_userID c = Some u → uuid_Parse (Params c "channelID") = Ok ch → uuid_Parse (Params c "messageID") = Ok m →
  ListReactions c w = (r, w') →
  view w' = view w ∧ ∀ resp, r = Ok resp → sound (view w) → status resp < 400 →
    content resp = Data (tally u (reactions_on m (view w))).
Proof.
  intros Hu Hch Hm E.
  assert (Ha : answers sound (ListReactions c) (λ d, tally u (reactions_on m d))).
  { unfold ListReactions. apply (shows_param _ _ _ _ _ _ ch); [done|]. apply (shows_param _ _ _ _ _ _ m); [done|].
    apply (shows_UserID _ _ _ u); [done|].
    eapply shows_catch; [apply asks_wrap, (asks_gets _ _ (λ d l, l = omap (reaction_of d) (reaction_rows (on_message m) d)))
      |auto with declines|]; [done|].
    intros l. apply shows_success. intros d [Hs ->]. symmetry. apply group_tally. by apply reactions_proper. }
  apply Ha in E as (_ & Hv & Hr); [|done]. split; [done|]. by intros resp ->.
Qed.
End endpoints.
