(* ===== verification/ChatWitness.v ===== *)
(** * A concrete server with conversations

    The guild of GuildWitness.v with members who may post, the conversation tables beside it, a
    server that never fails and an in-memory Valkey.  Tony and Mona write in the hall and react,
    Tony has a device with two one-time pre-keys. *)
From stdpp Require Import sorting.
From S2P Require Import Prelude GoStd Platform Permission PermCache PermWitness.
From S2P Require Import Validate Config AuthCrypto Base64 Jwt Postgres Frames Domain GuildTables GuildRepo Http.
From S2P Require Import MemberApi ApiLogic MemberProofs GuildStore Routes.
From S2P Require Import ChatTables DmTables ChatRepo ChatModel MessageApi DmApi ChatLogic ChatSpec ChatInv.
From S2P Require Import ChatHistory ChatWrites ChatProofs DmWrites DmProofs ChatRoutes ChatGate ChatReads.
From S2P Require GuildWitness.
Open Scope Z_scope.
Import GuildWitness (olga, mona, tony, everyone, hall).

(** ** The world *)
Record world := mkWorld {
  w_ks : keyspace; w_guild : guild cuuid; w_gtx : option (guild cuuid);
  w_chat : chat cuuid; w_ctx : option (chat cuuid); w_now : Z;
  w_events : list (string * ChatEvents.payload cuuid) }.
#[local] Instance world_ks : HasKeyspace world := {|
  ks_of := w_ks;
  ks_put := λ k w, mkWorld k (w_guild w) (w_gtx w) (w_chat w) (w_ctx w) (w_now w) (w_events w);
  ks_of_put := λ _ _, eq_refl |}.
#[local] Existing Instance mem_Valkey.
#[local] Existing Instance mem_ValkeyLaws.
#[local] Instance guild_tables : HasTables (guild cuuid) world := {|
  db_of := w_guild; tx_of := w_gtx;
  db_put := λ d w, mkWorld (w_ks w) d (w_gtx w) (w_chat w) (w_ctx w) (w_now w) (w_events w);
  tx_put := λ t w, mkWorld (w_ks w) (w_guild w) t (w_chat w) (w_ctx w) (w_now w) (w_events w);
  db_of_put := λ _ _, eq_refl; tx_of_put := λ _ _, eq_refl; db_of_tx_put := λ _ _, eq_refl |}.
#[local] Instance chat_tables : HasTables (chat cuuid) world := {|
  db_of := w_chat; tx_of := w_ctx;
  db_put := λ d w, mkWorld (w_ks w) (w_guild w) (w_gtx w) d (w_ctx w) (w_now w) (w_events w);
  tx_put := λ t w, mkWorld (w_ks w) (w_guild w) (w_gtx w) (w_chat w) t (w_now w) (w_events w);
  db_of_put := λ _ _, eq_refl; tx_of_put := λ _ _, eq_refl; db_of_tx_put := λ _ _, eq_refl |}.
#[local] Existing Instance mem_Postgres.
#[local] Existing Instance mem_PostgresLaws.
#[local] Instance world_clock : Clock world := {| time_Now := w_now |}.
Definition told (ev : string) (p : ChatEvents.payload cuuid) (w : world) : world :=
  mkWorld (w_ks w) (w_guild w) (w_gtx w) (w_chat w) (w_ctx w) (w_now w) (w_events w ++ [(ev, p)]).
#[local] Instance world_gateway : ChatGateway cuuid world := {|
  chat_Enqueue := told; chat_EnqueueTargeted := λ ev p _, told ev p |}.
#[local] Instance world_queue : GatewayQueue world := {| gateway_Enqueue := λ _ _ w, w |}.
#[local] Instance world_index : SearchIndex world := {|
  IndexMessage := λ _ _ _ _ _ w, w; IndexUpdate := λ _ _ w, w; IndexDelete := λ _ w, w |}.
#[local] Instance world_audit : AuditLog cuuid world := {| audit_Record := λ _ w, w |}.
Abbreviation guild_view := (pg_view (DB := guild cuuid) (W := world)).
Abbreviation chat_view := (pg_view (DB := chat cuuid) (W := world)).
#[local] Instance guild_of_vk : ValkeyFrame guild_view.
Proof.
  constructor; intros x w; simpl; [by destruct (run_cmds x (w_ks w))|by destruct (x (w_ks w))].
Qed.
#[local] Instance chat_of_vk : ValkeyFrame chat_view.
Proof.
  constructor; intros x w; simpl; [by destruct (run_cmds x (w_ks w))|by destruct (x (w_ks w))].
Qed.
Ltac own_tables := constructor; try done;
  [intros A f w; simpl; by destruct (f _) as [[] ?]
  |intros A f w; simpl; match goal with |- context [match ?t with Some _ => _ | None => _ end] =>
     destruct t; [|done]; by destruct (f _) as [[] ?] end
  |intros w; simpl; match goal with |- context [match ?t with Some _ => _ | None => _ end] => by destruct t end].
#[local] Instance vk_of_guild : PgFrame (guild cuuid) (vk_view (W := world)).
Proof. own_tables. Qed.
#[local] Instance vk_of_chat : PgFrame (chat cuuid) (vk_view (W := world)).
Proof. own_tables. Qed.
#[local] Instance chat_of_guild : PgFrame (guild cuuid) chat_view.
Proof. own_tables. Qed.
#[local] Instance guild_of_chat : PgFrame (chat cuuid) guild_view.
Proof. own_tables. Qed.
#[local] Instance guild_untold : ChatFrame (U := cuuid) guild_view.
Proof. by constructor. Qed.
#[local] Instance chat_untold : ChatFrame (U := cuuid) chat_view.
Proof. by constructor. Qed.
#[local] Instance vk_untold : ChatFrame (U := cuuid) (vk_view (W := world)).
Proof. by constructor. Qed.

(** ** The libraries *)
#[local] Existing Instance GuildWitness.world_random.
#[local] Existing Instance GuildWitness.order_by_code.
#[local] Existing Instance GuildWitness.words_Statuses.
#[local] Existing Instance GuildWitness.words_Errors.
#[local] Existing Instance GuildWitness.digits_TimeFormat.
#[local] Existing Instance Jwt.Witness.plain_JwtLib.
#[local] Instance words_ChatErrors : ChatErrors := {|
  InvalidMessageID := "INVALID_MESSAGE_ID"; InvalidThreadID := "INVALID_THREAD_ID";
  UnknownMessage := "UNKNOWN_MESSAGE"; UnknownThread := "UNKNOWN_THREAD"; ThreadExists := "THREAD_EXISTS";
  ThreadArchived := "THREAD_ARCHIVED"; ThreadLocked := "THREAD_LOCKED"; UnknownAttachment := "UNKNOWN_ATTACHMENT";
  UnsupportedContentType := "UNSUPPORTED_CONTENT_TYPE"; PayloadTooLarge := "PAYLOAD_TOO_LARGE";
  AlreadyPinned := "ALREADY_PINNED"; NotPinned := "NOT_PINNED"; UnknownEmoji := "UNKNOWN_EMOJI";
  AlreadyReacted := "ALREADY_REACTED"; ReactionNotFound := "REACTION_NOT_FOUND"; NotParticipant := "NOT_PARTICIPANT";
  NotDMOwner := "NOT_DM_OWNER"; UnknownDMChannel := "UNKNOWN_DM_CHANNEL";
  AlreadyParticipant := "ALREADY_PARTICIPANT"; GroupDMFull := "GROUP_DM_FULL";
  InvalidKeyMaterial := "INVALID_KEY_MATERIAL"; OPKBatchTooLarge := "OPK_BATCH_TOO_LARGE";
  DuplicateKeyID := "DUPLICATE_KEY_ID"; MaxDevicesReached := "MAX_DEVICES";
  KeyBundleIncomplete := "KEY_BUNDLE_INCOMPLETE"; UnknownDevice := "UNKNOWN_DEVICE" |}.
#[local] Instance words_ChatEvents : ChatEventNames := {|
  MessageCreate := "MESSAGE_CREATE"; MessageUpdate := "MESSAGE_UPDATE"; MessageDelete := "MESSAGE_DELETE";
  ThreadCreate := "THREAD_CREATE"; ThreadUpdate := "THREAD_UPDATE"; ReactionAdd := "REACTION_ADD";
  ReactionRemove := "REACTION_REMOVE"; TypingStart := "TYPING_START"; TypingStop := "TYPING_STOP";
  MessageAck := "MESSAGE_ACK"; DMChannelCreate := "DM_CHANNEL_CREATE"; DMMessageCreate := "DM_MESSAGE_CREATE";
  IdentityKeyChanged := "IDENTITY_KEY_CHANGED"; KeyBundleLow := "KEY_BUNDLE_LOW" |}.
#[local] Instance bits_Chat : ChatPermissions := {|
  SendMessages := 2; ReadMessageHistory := 4; AddReactions := 8; ManageMessages := 256; CreateThreads := 512;
  ManageChannels := 128; SendMessagesThreads := 64 |}.
#[local] Instance plain_Storage : StorageProvider := {| storage_URL := λ k, "https://cdn/" +:+ k |}.
(** A count with a lock that answers, and PostgreSQL's, which does not. *)
#[local] Instance counting : LockedAggregates := {| count_for_update := Ok |}.
#[local] Instance counts : LockedAggregatesCount.
Proof. by constructor; intros n m [= ->]. Qed.
Definition refusing : LockedAggregates := {| count_for_update := λ _, Err (PgError "0A000") |}.
Lemma refusing_refuses : LockedAggregatesRefused (H := refusing).
Proof. by constructor. Qed.

(** ** The guild and what was written in it *)
Definition square : guild cuuid := mkGuild 100 0
  (g_users GuildWitness.town) (g_channels GuildWitness.town) (g_server GuildWitness.town)
  {[everyone := GuildWitness.plain_role everyone "@everyone" 0 15 true]} (g_members GuildWitness.town)
  {[(olga, everyone); (mona, everyone); (tony, everyone)]} ∅ ∅ ∅ None ∅.
Definition greeting : cuuid := "00000000-0000-4000-8000-0000000000d1"%string ↾ eq_refl.
Definition answer : cuuid := "00000000-0000-4000-8000-0000000000d2"%string ↾ eq_refl.
Definition removed : cuuid := "00000000-0000-4000-8000-0000000000d3"%string ↾ eq_refl.
Definition phone : cuuid := "00000000-0000-4000-8000-0000000000d4"%string ↾ eq_refl.
Definition phone_id : cuuid := "00000000-0000-4000-8000-0000000000d5"%string ↾ eq_refl.
Definition wave : cuuid := "00000000-0000-4000-8000-0000000000d6"%string ↾ eq_refl.
Definition photo : cuuid := "00000000-0000-4000-8000-0000000000d7"%string ↾ eq_refl.
Definition signed : cuuid := "00000000-0000-4000-8000-0000000000d8"%string ↾ eq_refl.
Definition react (n : nat) : cuuid := match n with
  | 0%nat => "00000000-0000-4000-8000-0000000000f0"%string ↾ eq_refl
  | 1%nat => "00000000-0000-4000-8000-0000000000f1"%string ↾ eq_refl
  | _ => "00000000-0000-4000-8000-0000000000f2"%string ↾ eq_refl end.
Definition posted (u : cuuid) (text : string) (reply : option cuuid) (deleted : option Z) (t : Z) : message_row cuuid :=
  mkMessageRow hall u text None reply None false deleted None false t t.
Definition thirty_two : string := "0123456789abcdef0123456789abcdef".
Definition talk : chat cuuid := mkChat 1000 2 (User.cred_User <$> g_users square) {[hall]}
  (mkPosts (<[greeting := posted tony "hello" None None 1]> (<[answer := posted mona "hi" (Some greeting) None 2]>
              {[removed := posted tony "oops" None (Some 4) 3]}))
     ∅ {[photo := Attachment.mkAttachment photo (Some greeting) hall tony "a.png" "image/png" 10 "k" None None None 1]}
     (<[react 0 := mkReactionRow greeting tony None (Some "+1"%string) 10]>
       (<[react 1 := mkReactionRow greeting mona (Some wave) None 11]>
          {[react 2 := mkReactionRow greeting mona None (Some "+1"%string) 12]}))
     {[wave := Emoji.mkEmoji wave "wave" false "w" mona 1 1]} ∅)
  (mkDms ∅ ∅)
  (mkKeys {[phone := Key.mkDevice phone tony phone_id None thirty_two 5 5]}
     {[signed := Key.mkSignedPreKey signed phone 1 thirty_two (thirty_two +:+ thirty_two) true 6]}
     (<[GuildWitness.gen_id 0 := Key.mkOneTimePreKey (GuildWitness.gen_id 0) phone 7 thirty_two 7]>
        {[GuildWitness.gen_id 1 := Key.mkOneTimePreKey (GuildWitness.gen_id 1) phone 3 thirty_two 7]}) ∅).
Definition w0 : world := mkWorld (Keyspace 0 ∅ []) square None talk None (100 * Second) [].
Definition cfg : Config := Config.Witness.cfg_ok.
Definition h : chat_handler := mkChatHandler true false true true 2000 4.

Lemma square_wf : db_wf (guild_perms (guild_view w0)).
Proof.
  change (guild_view w0) with square.
  apply guild_perms_wf; [|apply map_Forall_empty]. unfold in_int64. apply (bool_decide_unpack _). vm_compute. exact I.
Qed.
Ltac by_computing := apply (bool_decide_unpack _); vm_compute; exact I.
(** Where a row refers to another, by looking it up. *)
Definition refers {B K} `{Countable K} (M : gmap K B) (P : B → bool) (o : option K) : bool :=
  match o with None => true | Some t => match M !! t with Some r => P r | None => false end end.
Lemma by_reference {A B K} `{Countable K} (M : gmap K B) (f : A → option K) (P : A → B → bool) (Q : A → B → Prop)
    (m : gmap cuuid A) :
  (∀ a b, P a b = true → Q a b) → map_Forall (λ _ a, refers M (P a) (f a) = true) m →
  map_Forall (λ _ a, ∀ t, f a = Some t → ∃ b, M !! t = Some b ∧ Q a b) m.
Proof.
  intros HP Hm. eapply map_Forall_impl; [exact Hm|]. simpl. intros i a Ha t Ht. unfold refers in Ha.
  rewrite Ht in Ha. destruct (M !! t) as [b|]; [|done]. eauto.
Qed.
Lemma talk_posts : posts_ok (c_users talk) (c_posts talk).
Proof.
  apply mkPostsOk.
  - by_computing.
  - apply (by_reference _ _ (λ a b, bool_decide (r_channel b = r_channel a))); [by intros a b ?%bool_decide_eq_true|].
    by_computing.
  - apply (by_reference _ _ (λ a b, bool_decide (Thread.ChannelID b = r_channel a))); [by intros a b ?%bool_decide_eq_true|].
    by_computing.
  - apply map_Forall_empty.
  - intros i j t t' Hi. destruct (lookup_empty_Some i t Hi).
  - apply (by_reference _ _ (λ a b, bool_decide (r_author b = Attachment.UploaderID a))); [by intros a b ?%bool_decide_eq_true|].
    by_computing.
  - assert (Hd : map_Forall (λ _ x, is_Some (p_messages (c_posts talk) !! x_message x) ∧ is_Some (c_users talk !! x_user x) ∧
      refers (p_emoji (c_posts talk)) (λ _, true) (x_emoji x) = true ∧ (is_Some (x_emoji x) ↔ x_unicode x = None))
      (p_reactions (c_posts talk))) by by_computing.
    eapply map_Forall_impl; [exact Hd|]. intros i x (? & ? & Hr & ?). split_and!; [assumption..| |assumption].
    intros e He. unfold refers in Hr. rewrite He in Hr. destruct (_ !! e); [by eexists|discriminate Hr].
  - assert (Hd : map_Forall (λ _ x, match x_unicode x with
        | Some s => bool_decide (s ≠ ""%string ∧ take 7 (bytes_of s) ≠ bytes_of custom_prefix) | None => true end = true)
        (p_reactions (c_posts talk))) by by_computing.
    eapply map_Forall_impl; [exact Hd|]. simpl. intros i x Hx s Hs. rewrite Hs in Hx. by apply bool_decide_eq_true in Hx.
  - assert (Hd : map_Forall (λ i a, map_Forall (λ j b, (x_message a = x_message b ∧ x_user a = x_user b ∧
      index_key (reaction_emoji a) = index_key (reaction_emoji b)) → i = j)
      (p_reactions (c_posts talk))) (p_reactions (c_posts talk))) by by_computing.
    intros i j x y Hi Hj H1 H2 H3. exact (Hd i x Hi j y Hj (conj H1 (conj H2 H3))).
  - apply map_Forall_empty.
Qed.
Lemma talk_dms : dms_ok (c_users talk) (c_dms talk).
Proof.
  apply mkDmsOk.
  - intros ch u [t Ht]. destruct (lookup_empty_Some (ch, u) t Ht).
  - apply map_Forall_empty.
  - intros i j c c' u v Hi. destruct (lookup_empty_Some i c Hi).
Qed.
Lemma talk_keys : keys_ok 5 (c_users talk) (messages talk) (c_keys talk).
Proof.
  apply mkKeysOk.
  - by_computing.
  - assert (Hd : map_Forall (λ i a, map_Forall (λ j b, (Key.UserID a = Key.UserID b ∧ Key.DeviceID a = Key.DeviceID b) → i = j)
      (k_devices (c_keys talk))) (k_devices (c_keys talk))) by by_computing.
    intros i j x y Hi Hj H1 H2. exact (Hd i x Hi j y Hj (conj H1 H2)).
  - intros u. unfold device_count. pose proof (map_size_filter (λ p, Key.UserID p.2 = u) (k_devices (c_keys talk))) as Hs.
    assert (Hn : size (k_devices (c_keys talk)) = 1%nat) by (vm_compute; reflexivity). rewrite Hn in Hs. lia.
  - by_computing.
  - assert (Hd : map_Forall (λ i a, map_Forall (λ j b, (Key.spk_DeviceID a = Key.spk_DeviceID b ∧
      Key.spk_KeyID a = Key.spk_KeyID b) → i = j) (k_spks (c_keys talk))) (k_spks (c_keys talk))) by by_computing.
    intros i j x y Hi Hj H1 H2. exact (Hd i x Hi j y Hj (conj H1 H2)).
  - assert (Hd : map_Forall (λ i a, map_Forall (λ j b, (Key.spk_DeviceID a = Key.spk_DeviceID b) → i = j)
      (k_spks (c_keys talk))) (k_spks (c_keys talk))) by by_computing.
    intros i j x y Hi Hj _ _ H1. exact (Hd i x Hi j y Hj H1).
  - by_computing.
  - assert (Hd : map_Forall (λ i a, map_Forall (λ j b, (Key.opk_DeviceID a = Key.opk_DeviceID b ∧
      Key.opk_KeyID a = Key.opk_KeyID b) → i = j) (k_opks (c_keys talk))) (k_opks (c_keys talk))) by by_computing.
    intros i j x y Hi Hj H1 H2. exact (Hd i x Hi j y Hj (conj H1 H2)).
  - intros m dev [k Hk]. destruct (lookup_empty_Some (m, dev) k Hk).
Qed.
Lemma talk_ok : chat_ok 5 (chat_view w0).
Proof. change (chat_view w0) with talk. exact (mkChatOk 5 talk talk_posts talk_dms talk_keys). Qed.

(** ** Requests *)
Definition token (u : cuuid) : string :=
  match (NewAccessToken (W := world) u (Expose (JWTSecret cfg)) (900 * Second) (ServerURL cfg) true w0).1 with
  | Ok t => t | Err _ => ""%string
  end.
Definition from (u : cuuid) (method : string) (params : list (string * string)) (query : string → string) : request cuuid :=
  mkRequest method (λ k, if bool_decide (k = "Authorization"%string) then "Bearer " +:+ token u else ""%string)
    (λ _, ""%string)
    (λ k, default ""%string (snd <$> head (filter (λ p, p.1 = k) params))) query None None None.
Definition no_query : string → string := λ _, ""%string.
Definition in_hall (u m : cuuid) (method : string) : request cuuid :=
  from u method [("channelID", uuid_String hall); ("messageID", uuid_String m)]%string no_query.
Definition post : chat_route := RCreateMessage (Ok (mkCreateMessage "good evening" None [])).
Definition post_request : request cuuid := in_hall mona greeting "POST".
Definition serve (x : chat_route) (c : request cuuid) (w : world) := chat_routes h 5 10 cfg x c w.
Definition w1 : world := (serve post post_request w0).2.
Definition posted_answer : res (response chat_answer) := Eval vm_compute in (serve post post_request w0).1.
Lemma post_done : serve post post_request w0 = (posted_answer, w1).
Proof. unfold w1. apply run_eq. vm_compute. reflexivity. Qed.

(** The nil channel does not exist, but its identifier is the one under which the cache keeps the
    permissions on the server: once a check has cached these, they count there as the permissions
    of a channel, and the message is posted. *)
Definition to_nil : request cuuid :=
  from mona "POST" [("channelID", uuid_String (U := cuuid) uuid_Nil)]%string no_query.
Definition warm : world := (ResolveServer (U := cuuid) mona w0).2.
Definition answered (r : res (response chat_answer)) : Z := match r with Ok x => status x | Err _ => 0 end.
Lemma nil_channel_post :
  g_channels (guild_view warm) !! uuid_Nil = None ∧
  answered (serve post to_nil w0).1 = StatusInternalServerError ∧
  answered (serve post to_nil warm).1 = StatusCreated ∧
  size (messages (chat_view (serve post to_nil warm).2)) = S (size (messages (chat_view warm))).
Proof. split_and!; vm_compute; reflexivity. Qed.

Abbreviation allowed w := (λ u ch p, allowed_at (U := cuuid) w u ch p).
Abbreviation stands w := (λ u s, m_status <$> g_members (U := cuuid) (guild_view w) !! u = Some s).
Lemma chat_requests_authorised_witness :
  (∃ resp, posted_answer = Ok resp ∧ status resp = StatusCreated) ∧
  ∃ u, authenticated (allowed w0) (stands w0) cfg post post_request w0 u ∧
    rtc (chat_step (allowed w0) (maxContent h) 5 u) (chat_view w0) (chat_view w1).
Proof.
  split; [eexists; split; reflexivity|].
  apply (chat_requests_authorised h 5 10 cfg post post_request w0 _ w1 square_wf talk_ok post_done).
  left. reflexivity.
Defined.

(** Tony edits his message. *)
Definition edit : chat_route := REditMessage (Ok (mkUpdateMessage "hello there")).
Definition edit_request : request cuuid := in_hall tony greeting "PATCH".
Definition w2 : world := (serve edit edit_request w0).2.
Definition edit_answer : res (response chat_answer) := Eval vm_compute in (serve edit edit_request w0).1.
Lemma edit_done : serve edit edit_request w0 = (edit_answer, w2).
Proof. unfold w2. apply run_eq. vm_compute. reflexivity. Qed.
Lemma chat_requests_keep_invariant_witness :
  chat_ok 5 (chat_view w0) ∧ r_content <$> messages (chat_view w2) !! greeting = Some "hello there"%string ∧
  chat_ok 5 (chat_view w2).
Proof.
  split; [exact talk_ok|]. split; [vm_compute; reflexivity|].
  exact (chat_requests_keep_invariant h 5 10 cfg edit edit_request w0 _ w2 square_wf
    talk_ok edit_done).
Defined.
Lemma greeting_there : messages (chat_view w0) !! greeting = Some (posted tony "hello" None None 1).
Proof. vm_compute. reflexivity. Qed.
Lemma message_rights_witness :
  ∃ m', messages (chat_view w2) !! greeting = Some m' ∧ same_post (posted tony "hello" None None 1) m' ∧
    (m' = posted tony "hello" None None 1 ∨
     ∃ u, authenticated (allowed w0) (stands w0) cfg edit edit_request w0 u ∧
       changed_by (allowed w0) u (posted tony "hello" None None 1) m').
Proof.
  exact (message_rights h 5 10 cfg edit edit_request w0 _ w2 greeting _ square_wf
    talk_ok edit_done greeting_there).
Defined.

(** ** Reading *)
Definition as_mona : request cuuid :=
  let c := from mona "GET" [("channelID", uuid_String hall); ("messageID", uuid_String greeting)]%string
             (λ k, if bool_decide (k = "limit"%string) then "1" else ""%string) in
  mkRequest (Method c) (Header c) (Cookies c) (Params c) (Query c) (Some mona) (Some true) None.
Definition w3 : world := (ListMessages (W := world) as_mona w0).2.
Definition listed_answer : res (response (list ChatModels.Message)) := Eval vm_compute in (ListMessages as_mona w0).1.
Lemma listed_done : ListMessages as_mona w0 = (listed_answer, w3).
Proof. unfold w3. apply run_eq. vm_compute. reflexivity. Qed.
Lemma one_asked : asks_page as_mona None 1.
Proof.
  split; [vm_compute; reflexivity|]. exists 1. split; [vm_compute; reflexivity|]. right.
  split; [|vm_compute; reflexivity]. vm_compute. discriminate.
Qed.
Lemma ListMessages_correct_witness :
  Message.ID <$> page (in_channel hall) None 1 talk = [answer] ∧
  match listed_answer with
  | Ok resp => content resp = Data (message_view mona talk <$> page (in_channel hall) None 1 talk)
  | Err _ => False
  end.
Proof.
  split; [vm_compute; reflexivity|].
  exact (proj2 (ListMessages_correct as_mona mona hall None 1 w0 listed_answer w3 eq_refl eq_refl one_asked listed_done)
    _ eq_refl talk_posts eq_refl).
Defined.
Definition w4 : world := (ListReactions (W := world) as_mona w0).2.
Definition reactions_answer : res (response (list ChatModels.ReactionSummary)) := Eval vm_compute in (ListReactions as_mona w0).1.
Lemma reactions_done : ListReactions as_mona w0 = (reactions_answer, w4).
Proof. unfold w4. apply run_eq. vm_compute. reflexivity. Qed.
Lemma ListReactions_correct_witness :
  tally mona (reactions_on greeting talk) =
    [ChatModels.mkReactionSummary None (Some "+1"%string) 2 true;
     ChatModels.mkReactionSummary (Some (uuid_String wave)) None 1 true] ∧
  match reactions_answer with
  | Ok resp => content resp = Data (tally mona (reactions_on greeting talk))
  | Err _ => False
  end.
Proof.
  split; [vm_compute; reflexivity|].
  exact (proj2 (ListReactions_correct as_mona mona hall greeting w0 reactions_answer w4 eq_refl eq_refl eq_refl reactions_done)
    _ eq_refl talk_posts eq_refl).
Defined.
Lemma walk_complete_witness :
  Message.ID <$> history (in_channel hall) talk = [answer; greeting] ∧
  walk (in_channel hall) 1 3 None talk = history (in_channel hall) talk.
Proof.
  assert (Hlen : (length (history (in_channel hall) talk) < 3)%nat) by (vm_compute; lia).
  split; [vm_compute; reflexivity|]. exact (proj1 (walk_complete (in_channel hall) 1 3 talk eq_refl Hlen)).
Defined.

(** ** Keys *)
Definition w5 : world := (E2eeRepo.FetchUserKeyBundle (U := cuuid) tony w0).2.
Definition bundle : E2eeRepo.UserKeyBundle cuuid := Eval vm_compute in
  match (E2eeRepo.FetchUserKeyBundle tony w0).1 as r return match r with Ok _ => E2eeRepo.UserKeyBundle cuuid | Err _ => unit end with
  | Ok b => b | Err _ => tt end.
Lemma bundle_fetched : E2eeRepo.FetchUserKeyBundle (U := cuuid) tony w0 = (Ok bundle, w5).
Proof. unfold w5. apply run_eq. vm_compute. reflexivity. Qed.
Lemma FetchUserKeyBundle_spec_witness :
  handed (E2eeRepo.ub_Devices bundle) = [GuildWitness.gen_id 1] ∧
  Forall (entry_ok (chat_view w0)) (E2eeRepo.ub_Devices bundle) ∧
  chat_view w5 = set_keys (on_opks (filter (λ p, p.1 ∉ handed (E2eeRepo.ub_Devices bundle)))) (chat_view w0).
Proof.
  split; [vm_compute; reflexivity|].
  exact (proj2 (proj2 (FetchUserKeyBundle_spec 5 tony w0 bundle w5 talk_ok bundle_fetched))).
Defined.

(** An hour later there is the other key. *)
Definition w6 : world := mkWorld (w_ks w5) (w_guild w5) None (set_now 4600 (w_chat w5)) None (w_now w5) (w_events w5).
Definition w7 : world := (E2eeRepo.FetchUserKeyBundle (U := cuuid) tony w6).2.
Definition bundle2 : E2eeRepo.UserKeyBundle cuuid := Eval vm_compute in
  match (E2eeRepo.FetchUserKeyBundle tony w6).1 as r return match r with Ok _ => E2eeRepo.UserKeyBundle cuuid | Err _ => unit end with
  | Ok b => b | Err _ => tt end.
Lemma bundle2_fetched : E2eeRepo.FetchUserKeyBundle (U := cuuid) tony w6 = (Ok bundle2, w7).
Proof. unfold w7. apply run_eq. vm_compute. reflexivity. Qed.
Lemma talk_numbered : numbered (chat_view w0).
Proof.
  change (chat_view w0) with talk.
  assert (Hd : map_Forall (λ id _, id ∈ gen_random_uuid (U := cuuid) <$> seq 0 (c_seq talk)) (opks talk)) by by_computing.
  intros id [k Hk]. specialize (Hd id k Hk). apply list_elem_of_fmap in Hd as (n & -> & Hn).
  exists n. split; [|done]. apply elem_of_seq in Hn. lia.
Qed.
Lemma two_drawn : distinct_ids cuuid 2.
Proof.
  intros i j Hi Hj E.
  destruct i as [|[|i]], j as [|[|j]]; try lia; apply (f_equal uuid_String) in E; vm_compute in E; discriminate E.
Qed.
Lemma an_hour (g : cuuid → cuuid → Z → Prop) : chat_history g 2000 5 (chat_view w5) (chat_view w6).
Proof.
  apply rtc_once. right. exists 4600. split; [|reflexivity]. vm_compute. discriminate.
Qed.
Lemma one_time_keys_once_witness :
  handed (E2eeRepo.ub_Devices bundle) = [GuildWitness.gen_id 1] ∧ handed (E2eeRepo.ub_Devices bundle2) = [GuildWitness.gen_id 0] ∧
  ∀ id, id ∈ handed (E2eeRepo.ub_Devices bundle) → id ∉ handed (E2eeRepo.ub_Devices bundle2).
Proof.
  split; [vm_compute; reflexivity|]. split; [vm_compute; reflexivity|].
  exact (one_time_keys_once 5 (λ _ _ _, True) 2000 tony tony w0 bundle w5 w6 bundle2 w7 talk_ok talk_numbered two_drawn
    bundle_fetched (an_hour _) bundle2_fetched).
Defined.
(** With PostgreSQL's answer to a locked count. *)
#[local] Existing Instance refusing.
#[local] Existing Instance refusing_refuses.
Definition new_device : res RegisterDeviceRequest :=
  Ok (mkRegisterDeviceRequest (uuid_String phone) "" (base64_RawEncodeToString thirty_two)).
Definition refused : res (response ChatModels.Device) * world :=
  E2EEHandler.RegisterDevice (W := world) h 5 as_mona new_device w0.
Lemma locked_counts_refused_witness :
  status <$> (match refused.1 with Ok r => Some r | Err _ => None end) = Some StatusInternalServerError ∧
  chat_view refused.2 = chat_view w0 ∧ ¬ succeeded refused.1.
Proof.
  split; [vm_compute; reflexivity|].
  exact (proj1 (locked_counts_refused h 5 as_mona) new_device w0 refused.1 refused.2 (surjective_pairing refused)).
Defined.
