(* ===== verification/Database.v ===== *)
(** * One database behind the repositories

    The tables of GuildTables.v and ChatTables.v are parts of the same database, which also has
    channels and categories (ChannelTables.v).  A [lens] says where a part lies; through it the
    connection to the whole is a connection to the part, with the same laws, so what is proved
    of the repositories over their own tables holds over the whole database. *)
From S2P Require Import Prelude GoStd Platform Postgres Frames Domain GuildTables ResolverFrame ChatTables.
Open Scope Z_scope.

Record lens (D A : Type) := mkLens {
  look : D → A; put : A → D → D;
  look_put : ∀ a d, look (put a d) = a;
  put_look : ∀ d, put (look d) d = d }.
Arguments look {D A}. Arguments put {D A}. Arguments look_put {D A}. Arguments put_look {D A}.

(** A statement on the part, as one on the whole. *)
Definition within {D A X} (l : lens D A) (f : M A X) : M D X := λ d,
  let '(r, a) := f (look l d) in (r, put l a d).

Section part.
Context {D A W : Type} (l : lens D A) `{Postgres D W}.

Definition part : Postgres A W := {|
  pg_view := λ w, look l (pg_view w);
  pg_tx := λ w, look l <$> pg_tx w;
  pg_query := λ _ f, pg_query (within l f);
  tx_Begin := tx_Begin (DB := D);
  tx_query := λ _ f, tx_query (within l f);
  tx_Commit := tx_Commit (DB := D);
  tx_Rollback := tx_Rollback (DB := D) |}.

Lemma within_inv {X} (f : M A X) d r d' :
  within l f d = (r, d') → ∃ a, f (look l d) = (r, a) ∧ d' = put l a d.
Proof. unfold within. destruct (f (look l d)) as [r0 a]. intros [= <- <-]. by exists a. Qed.
(** A statement that only reads the part leaves the whole as it is. *)
Lemma within_read {X} (f : M A X) d : (f (look l d)).2 = look l d → (within l f d).2 = d.
Proof. unfold within. destruct (f (look l d)) as [r a]. simpl. intros ->. apply put_look. Qed.

Lemma part_atomic {X} (f : M A X) w r w' :
  atomic (within l f) w r w' → atomic (H := part) f w r w'.
Proof.
  intros [(d & (a & Hf & ->)%within_inv & Hv)|(e & -> & He & Hv)].
  - left. exists a. split; [done|]. simpl. rewrite Hv. destruct r; [apply look_put|done].
  - right. exists e. split_and!; [done..|]. destruct Hv as [Hv|(x & d & (a & Hf & ->)%within_inv & Hv)].
    + left. simpl. by rewrite Hv.
    + right. exists x, a. split; [done|]. simpl. by rewrite Hv, look_put.
Qed.
Lemma part_PostgresLaws : PostgresLaws D W → PostgresLaws (H := part) A W.
Proof.
  intros HL. split; simpl.
  - intros X f w r w' E. by apply part_atomic, pg_query_atomic.
  - intros w w' [-> ->]%tx_Begin_ok. done.
  - intros w e w' [? ->]%tx_Begin_err. done.
  - intros X f w r w' [-> E]%tx_query_run. split; [done|].
    destruct (pg_tx w) as [d|]; simpl; [|by destruct E as (e & -> & ->); exists e].
    destruct E as [(d' & (a & Hf & ->)%within_inv & Ht)|(e & -> & He & Ht)]; rewrite Ht.
    + left. exists a. split; [done|]. destruct r; simpl; [by rewrite look_put|done].
    + right. exists e. done.
  - intros w w' ->%tx_Commit_ok. done.
  - intros w e w' [? [->| ->]]%tx_Commit_err; auto.
  - intros w r w' ->%tx_Rollback_view. done.
Qed.
Lemma part_PgFrame {V} (obs : W → V) : PgFrame D obs → PgFrame (H := part) A obs.
Proof.
  intros HF. split; simpl; intros; [apply pg_query_keeps|apply tx_query_keeps|apply tx_Begin_keeps
    |apply tx_Commit_keeps|apply tx_Rollback_keeps].
Qed.
Lemma part_ValkeyFrame `{!Valkey W} :
  ValkeyFrame (pg_view (DB := D) (W := W)) → ValkeyFrame (pg_view (Postgres := part) (DB := A) (W := W)).
Proof.
  intros HF. split; simpl; intros x w; f_equal; [apply vk_exec_keeps|apply vk_eval_keeps].
Qed.
End part.

(** Reading through a part leaves the whole alone. *)
Lemma part_ReadFrame {D A W} (l : lens D A) `{PostgresLaws D W} :
  ReadFrame (H := part l) A (pg_view (DB := D) (W := W)).
Proof.
  split. intros X q Hq. simpl. apply (read_query_keeps (ReadFrame := ReadFrame_view)).
  intros d. by apply within_read.
Qed.

(** ** internal/category/category.go *)
Module Category.
Record Category (U : Type) := mkCategory {
  ID : U; Name : string; Position : Z; CreatedAt : Z; UpdatedAt : Z }.
Arguments mkCategory {U}. Arguments ID {U}. Arguments Name {U}. Arguments Position {U}.
Arguments CreatedAt {U}. Arguments UpdatedAt {U}.
End Category.

(** ** The database and its parts *)
Section database.
Context {U : Type} `{UUIDLib U}.

Record database := mkDatabase {
  db_guild : guild U;
  db_chat : chat U;
  db_channels : gmap U (Channel.Channel U);
  db_categories : gmap U (Category.Category U) }.

Definition guild_part : lens database (guild U) := {|
  look := db_guild; put := λ g d, mkDatabase g (db_chat d) (db_channels d) (db_categories d);
  look_put := λ _ _, eq_refl; put_look := λ d, match d with mkDatabase _ _ _ _ => eq_refl end |}.
Definition chat_part : lens database (chat U) := {|
  look := db_chat; put := λ x d, mkDatabase (db_guild d) x (db_channels d) (db_categories d);
  look_put := λ _ _, eq_refl; put_look := λ d, match d with mkDatabase _ _ _ _ => eq_refl end |}.
End database.
Arguments database U {_}.
