(* ===== verification/ChannelTables.v ===== *)
(** * Channels and categories: the tables and the SQL on them

    The statements of internal/channel and internal/category on the whole database of
    Database.v, under the constraints of postgres/migrations/001_initial_schema.sql.  Other
    tables see the channels through columns of their own model (the category of a channel for
    the permissions, the identifiers for the conversations): [synced] recomputes them, and a
    deletion carries out the ON DELETE actions and the triggers on them. *)
From stdpp Require Import sorting.
From S2P Require Import Prelude GoStd Platform Permission Validate Postgres Domain GuildTables ChatTables Database.
Open Scope Z_scope.

(** channel.CreateParams and UpdateParams *)
Record channel_params (U : Type) := mkChannelParams {
  cp_Name : string; cp_Type : string; cp_CategoryID : option U; cp_CreatedBy : option U;
  cp_Topic : string; cp_SlowmodeSeconds : Z; cp_NSFW : bool }.
Arguments mkChannelParams {U}. Arguments cp_Name {U}. Arguments cp_Type {U}.
Arguments cp_CategoryID {U}. Arguments cp_CreatedBy {U}. Arguments cp_Topic {U}.
Arguments cp_SlowmodeSeconds {U}. Arguments cp_NSFW {U}.
Record channel_changes (U : Type) := mkChannelChanges {
  cu_Name : option string; cu_CategoryID : option U; cu_SetCategoryNull : bool;
  cu_Topic : option string; cu_Position : option Z; cu_SlowmodeSeconds : option Z;
  cu_NSFW : option bool }.
Arguments mkChannelChanges {U}. Arguments cu_Name {U}. Arguments cu_CategoryID {U}.
Arguments cu_SetCategoryNull {U}. Arguments cu_Topic {U}. Arguments cu_Position {U}.
Arguments cu_SlowmodeSeconds {U}. Arguments cu_NSFW {U}.
Record category_changes := mkCategoryChanges { ku_Name : option string; ku_Position : option Z }.

Section statements.
Context {U : Type} `{UUIDLib U} `{RandomUUID U}.
Implicit Types (d : database U) (id : U).

(** ** The columns other tables have of the channels *)
Definition set_channels (m : gmap U (option U)) (g : guild U) : guild U :=
  mkGuild (g_now g) (g_seq g) (g_users g) m (g_server g) (g_roles g) (g_members g)
    (g_member_roles g) (g_bans g) (g_overrides g) (g_invites g) (g_onboarding g) (g_acceptances g).
Definition set_known_channels (s : gset U) (x : chat U) : chat U :=
  mkChat (c_now x) (c_seq x) (c_users x) s (c_posts x) (c_dms x) (c_keys x).
Definition synced d : database U :=
  mkDatabase (set_channels (Channel.CategoryID <$> db_channels d) (db_guild d))
    (set_known_channels (dom (db_channels d)) (db_chat d)) (db_channels d) (db_categories d).
Definition on_channels (f : gmap U (Channel.Channel U) → gmap U (Channel.Channel U)) d : database U :=
  synced (mkDatabase (db_guild d) (db_chat d) (f (db_channels d)) (db_categories d)).
Definition on_categories (f : gmap U (Category.Category U) → gmap U (Category.Category U)) d : database U :=
  mkDatabase (db_guild d) (db_chat d) (db_channels d) (f (db_categories d)).
Definition on_guild (f : guild U → guild U) d : database U :=
  mkDatabase (f (db_guild d)) (db_chat d) (db_channels d) (db_categories d).
Definition on_chat (f : chat U → chat U) d : database U :=
  mkDatabase (db_guild d) (f (db_chat d)) (db_channels d) (db_categories d).

Definition db_now d : Z := g_now (db_guild d).
Definition new_id : M (database U) U := within guild_part next_id.
(** The driver refuses a value the INTEGER column cannot hold. *)
Definition int4_arg (v : option Z) : M (database U) unit :=
  if match v with Some n => in_int4 n | None => true end then mret tt
  else fail (Plain "unable to encode into int4").
Definition the_row {A} (o : option A) : M (database U) A :=
  match o with Some a => mret a | None => fail ErrNoRows end.
(** A reference to no row. *)
Definition dangling {A} (o : option U) (t : gmap U A) : bool :=
  match o with Some id => bool_decide (t !! id = None) | None => false end.
(** COALESCE((SELECT MAX(position) FROM t), -1) *)
Definition top_position {A} (pos : A → Z) (t : gmap U A) : Z :=
  foldr (λ p acc, Z.max (pos p.2) acc) (-1) (map_to_list t).

(** ** channels *)
Definition channel_types : list string := ["text"; "voice"; "announcement"; "forum"; "stage"].
(** ORDER BY position, created_at *)
Definition by_place (a b : Channel.Channel U) : Prop :=
  Channel.Position a < Channel.Position b ∨
  (Channel.Position a = Channel.Position b ∧ Channel.CreatedAt a ≤ Channel.CreatedAt b).
#[global] Instance by_place_dec : RelDecision by_place.
Proof. intros a b. unfold by_place. apply _. Defined.
Definition channels_listed d : list (Channel.Channel U) :=
  merge_sort by_place (map_to_list (db_channels d)).*2.
Definition select_channels : M (database U) (list (Channel.Channel U)) := gets channels_listed.
Definition select_channel_row id : M (database U) (Channel.Channel U) := λ d,
  the_row (db_channels d !! id) d.
Definition count_channels : M (database U) Z := gets (λ d, Z.of_nat (size (db_channels d))).

Definition new_channel (p : channel_params U) id (position now : Z) : Channel.Channel U :=
  Channel.mkChannel id (cp_CategoryID p) (cp_CreatedBy p) (cp_Name p) (cp_Type p) (cp_Topic p)
    position (cp_SlowmodeSeconds p) (cp_NSFW p) now now.
Definition insert_channel (p : channel_params U) : M (database U) (Channel.Channel U) :=
  int4_arg (Some (cp_SlowmodeSeconds p)) ;;
  id ← new_id;
  d ← gets (λ d, d);
  let position := top_position Channel.Position (db_channels d) + 1 in
  if negb (in_int4 position) then fail (PgError "22003")
  else if bool_decide (cp_Type p ∉ channel_types) then fail (PgError "23514")
  else if bool_decide (is_Some (db_channels d !! id)) then fail (PgError codeUniqueViolation)
  else if dangling (cp_CategoryID p) (db_categories d) || dangling (cp_CreatedBy p) (g_users (db_guild d))
  then fail (PgError codeForeignKeyViolation)
  else
    let ch := new_channel p id position (db_now d) in
    modify (on_channels <[id := ch]>) ;; mret ch.

(** The SET clause; a trigger sets updated_at. *)
Definition set_channel (p : channel_changes U) (now : Z) (ch : Channel.Channel U) : Channel.Channel U :=
  Channel.mkChannel (Channel.ID ch)
    (if cu_SetCategoryNull p then None else coalesce (Some <$> cu_CategoryID p) (Channel.CategoryID ch))
    (Channel.CreatedBy ch) (coalesce (cu_Name p) (Channel.Name ch)) (Channel.Type_ ch)
    (coalesce (cu_Topic p) (Channel.Topic ch)) (coalesce (cu_Position p) (Channel.Position ch))
    (coalesce (cu_SlowmodeSeconds p) (Channel.SlowmodeSeconds ch)) (coalesce (cu_NSFW p) (Channel.NSFW ch))
    (Channel.CreatedAt ch) now.
Definition update_channel (p : channel_changes U) id : M (database U) (Channel.Channel U) :=
  int4_arg (cu_Position p) ;; int4_arg (cu_SlowmodeSeconds p) ;;
  d ← gets (λ d, d);
  ch ← the_row (db_channels d !! id);
  let ch' := set_channel p (db_now d) ch in
  if dangling (Channel.CategoryID ch') (db_categories d) then fail (PgError codeForeignKeyViolation)
  else modify (on_channels <[id := ch']>) ;; mret ch'.

(** What follows a deleted channel: its invites, its overrides (a trigger), and the welcome
    channel is set to NULL. *)
Definition unwelcome id (now : Z) (c : Onboarding.Config U) : Onboarding.Config U :=
  if bool_decide (Onboarding.WelcomeChannelID c = Some id)
  then Onboarding.mkConfig (Onboarding.ID c) None (Onboarding.RequireEmailVerification c)
         (Onboarding.OpenJoin c) (Onboarding.MinAccountAgeSeconds c) (Onboarding.RequirePhone c)
         (Onboarding.RequireCaptcha c) (Onboarding.AutoRoles c) (Onboarding.CreatedAt c) now
  else c.
Definition targets (type : string) id (k : override_key U) : Prop := k.1.1.1 = type ∧ k.1.1.2 = id.
#[global] Instance targets_dec type id k : Decision (targets type id k).
Proof. unfold targets. apply _. Defined.
Definition drop_overrides (type : string) id (g : guild U) : guild U :=
  set_overrides (filter (λ p, ¬ targets type id p.1)) g.
Definition leave_guild id (g : guild U) : guild U :=
  drop_overrides TargetChannel id
    (set_invites (filter (λ p, Invite.ChannelID p.2 ≠ id))
       (set_onboarding (unwelcome id (g_now g) <$> g_onboarding g) g)).
(** Its threads, its attachments and the positions read in it; a message of one of the threads
    stays without it. *)
Definition unthread (t : gmap U (Thread.Thread U)) id (now : Z) (r : message_row U) : message_row U :=
  if match r_thread r with
     | Some x => bool_decide (Thread.ChannelID <$> t !! x = Some id) | None => false end
  then mkMessageRow (r_channel r) (r_author r) (r_content r) (r_edited r) (r_reply r) None
         (r_pinned r) (r_deleted r) (r_deleted_by r) (r_encrypted r) (r_created r) now
  else r.
Definition leave_chat id (x : chat U) : chat U :=
  set_posts (λ p,
    on_read (filter (λ k, k.1.2 ≠ id))
      (on_attachments (filter (λ a, Attachment.ChannelID a.2 ≠ id))
         (on_threads (filter (λ t, Thread.ChannelID t.2 ≠ id))
            (on_messages (fmap (unthread (p_threads p) id (c_now x))) p)))) x.
Definition drop_channel id d : database U :=
  on_channels (delete id) (on_guild (leave_guild id) (on_chat (leave_chat id) d)).
Definition delete_channel id : M (database U) Z :=
  d ← gets (λ d, d);
  match db_channels d !! id with
  | Some _ => modify (drop_channel id) ;; mret 1
  | None => mret 0
  end.

(** ** categories *)
Definition category_exists id : M (database U) bool :=
  gets (λ d, bool_decide (is_Some (db_categories d !! id))).
Definition by_category_position (a b : Category.Category U) : Prop :=
  Category.Position a ≤ Category.Position b.
#[global] Instance by_category_position_dec : RelDecision by_category_position.
Proof. intros a b. unfold by_category_position. apply _. Defined.
Definition select_categories : M (database U) (list (Category.Category U)) :=
  gets (λ d, merge_sort by_category_position (map_to_list (db_categories d)).*2).
Definition select_category id : M (database U) (Category.Category U) := λ d,
  the_row (db_categories d !! id) d.
Definition count_categories : M (database U) Z := gets (λ d, Z.of_nat (size (db_categories d))).
(** Positions are unique, checked when the transaction commits. *)
Definition position_taken id (position : Z) d : Prop :=
  map_Exists (λ i c, i ≠ id ∧ Category.Position c = position) (db_categories d).
#[global] Instance position_taken_dec id p d : Decision (position_taken id p d).
Proof. unfold position_taken. apply _. Defined.

(** The new position is above all others, so the deferred constraint holds. *)
Definition insert_category (name : string) : M (database U) (Category.Category U) :=
  id ← new_id;
  d ← gets (λ d, d);
  let position := top_position Category.Position (db_categories d) + 1 in
  if negb (in_int4 position) then fail (PgError "22003")
  else if bool_decide (is_Some (db_categories d !! id)) then fail (PgError codeUniqueViolation)
  else
    let cat := Category.mkCategory id name position (db_now d) (db_now d) in
    modify (on_categories <[id := cat]>) ;; mret cat.
Definition set_category (p : category_changes) (now : Z) (c : Category.Category U) : Category.Category U :=
  Category.mkCategory (Category.ID c) (coalesce (ku_Name p) (Category.Name c))
    (coalesce (ku_Position p) (Category.Position c)) (Category.CreatedAt c) now.
(** A statement outside a transaction commits at its end: the violation is its error. *)
Definition update_category (p : category_changes) id : M (database U) (Category.Category U) :=
  int4_arg (ku_Position p) ;;
  d ← gets (λ d, d);
  c ← the_row (db_categories d !! id);
  let c' := set_category p (db_now d) c in
  if bool_decide (position_taken id (Category.Position c') d) then fail (PgError codeUniqueViolation)
  else modify (on_categories <[id := c']>) ;; mret c'.
(** The channels of a deleted category stay, without it; a trigger removes its overrides. *)
Definition uncategorise id (now : Z) (ch : Channel.Channel U) : Channel.Channel U :=
  if bool_decide (Channel.CategoryID ch = Some id)
  then set_channel (mkChannelChanges None None true None None None None) now ch
  else ch.
Definition drop_category id d : database U :=
  on_channels (fmap (uncategorise id (db_now d)))
    (on_guild (drop_overrides TargetCategory id) (on_categories (delete id) d)).
Definition delete_category id : M (database U) Z :=
  d ← gets (λ d, d);
  match db_categories d !! id with
  | Some _ => modify (drop_category id) ;; mret 1
  | None => mret 0
  end.
End statements.
