(* ===== verification/ChannelRepos.v ===== *)
(** * The repositories of internal/channel and internal/category

    One Module per package, one definition per method of repository.go, over the statements of
    ChannelTables.v. *)
From S2P Require Import Prelude GoStd Platform Permission Validate Postgres Domain GuildTables ChatTables.
From S2P Require Import Database ChannelTables.
Open Scope Z_scope.

(** ** internal/channel/repository.go *)
Module ChannelRepo.
Definition ErrNotFound : error := Sentinel "channel.ErrNotFound".
Definition ErrMaxChannelsReached : error := Sentinel "channel.ErrMaxChannelsReached".
Definition ErrCategoryNotFound : error := Sentinel "channel.ErrCategoryNotFound".

Section repository.
Context {U W : Type} `{UUIDLib U} `{RandomUUID U} `{Postgres (database U) W}.
Abbreviation CreateParams := (channel_params U).
Abbreviation UpdateParams := (channel_changes U).

Definition List : M W (list (Channel.Channel U)) :=
  wrap "query channels" (pg_query (select_channels (U := U))).
Definition GetByID (id : U) : M W (Channel.Channel U) :=
  map_err (λ e, on_err ErrNoRows ErrNotFound "query channel by id" (Wrap "scan channel" e))
    (pg_query (select_channel_row id)).

Definition Create (params : CreateParams) (maxChannels : Z) : M W (Channel.Channel U) :=
  WithTx (database U) (
    count ← wrap "count channels" (tx_query (count_channels (U := U)));
    if maxChannels <=? count then fail ErrMaxChannelsReached
    else
      exists_ ← match cp_CategoryID params with
                | Some id => wrap "check category exists" (tx_query (category_exists id))
                | None => mret true
                end;
      if negb exists_ then fail ErrCategoryNotFound
      else wrap "insert channel" (wrap "scan channel" (tx_query (insert_channel params)))).

Definition no_update (p : UpdateParams) : bool :=
  match p with mkChannelChanges None None false None None None None => true | _ => false end.
Definition update_error (e : error) : error :=
  let err := Wrap "scan channel" e in
  if errors_Is err ErrNoRows then ErrNotFound
  else if IsForeignKeyViolation err then ErrCategoryNotFound
  else Wrap "update channel" err.
Definition Update (id : U) (params : UpdateParams) : M W (Channel.Channel U) :=
  if no_update params then GetByID id
  else map_err update_error (pg_query (update_channel params id)).

Definition Delete (id : U) : M W unit :=
  affected ← wrap "delete channel" (pg_query (delete_channel id));
  if affected =? 0 then fail ErrNotFound else mret tt.
End repository.
End ChannelRepo.

(** ** internal/category/repository.go *)
Module CategoryRepo.
Definition ErrNotFound : error := Sentinel "category.ErrNotFound".
Definition ErrAlreadyExists : error := Sentinel "category.ErrAlreadyExists".
Definition ErrMaxCategoriesReached : error := Sentinel "category.ErrMaxCategoriesReached".

Section repository.
Context {U W : Type} `{UUIDLib U} `{RandomUUID U} `{Postgres (database U) W}.

Definition List : M W (list (Category.Category U)) :=
  wrap "query categories" (pg_query (select_categories (U := U))).
Definition GetByID (id : U) : M W (Category.Category U) :=
  map_err (λ e, on_err ErrNoRows ErrNotFound "query category by id" (Wrap "scan category" e))
    (pg_query (select_category id)).

Definition Create (name : string) (maxCategories : Z) : M W (Category.Category U) :=
  WithTx (database U) (
    count ← wrap "count categories" (tx_query (count_categories (U := U)));
    if maxCategories <=? count then fail ErrMaxCategoriesReached
    else
      map_err (λ e, let err := Wrap "scan category" e in
                    if IsUniqueViolation err then ErrAlreadyExists else Wrap "insert category" err)
        (tx_query (insert_category name))).

Definition no_update (p : category_changes) : bool :=
  match p with mkCategoryChanges None None => true | _ => false end.
Definition update_error (e : error) : error :=
  let err := Wrap "scan category" e in
  if errors_Is err ErrNoRows then ErrNotFound
  else if IsUniqueViolation err then ErrAlreadyExists
  else Wrap "update category" err.
Definition Update (id : U) (params : category_changes) : M W (Category.Category U) :=
  if no_update params then GetByID id
  else map_err update_error (pg_query (update_category params id)).

Definition Delete (id : U) : M W unit :=
  affected ← wrap "delete category" (pg_query (delete_category id));
  if affected =? 0 then fail ErrNotFound else mret tt.
End repository.
End CategoryRepo.
