(* ===== verification/ChannelApi.v ===== *)
(** * Channel and category endpoints: internal/api/channel.go and category.go

    Every handler of ChannelHandler and CategoryHandler, over the repositories of
    ChannelRepos.v, the members and the onboarding settings of the guild (a part of the same
    database), the permission resolver, the gateway's queue and the audit log.  Log lines are
    left out, and the audit entry, written by a goroutine, is one step of the world. *)
From S2P Require Import Prelude GoStd Platform Permission Validate Config Postgres Domain GuildTables GuildRepo Http MemberApi.
From S2P Require Import ChatTables ChatModel Database ChannelTables ChannelRepos.
Open Scope Z_scope.

(** The protocol's names. *)
Class ChannelErrors : Type := {
  UnknownCategory : string; MaxChannelsReached : string; MaxCategoriesReached : string;
  SearchUnavailable : string }.
Class ChannelEventNames : Type := {
  ChannelCreated : string; ChannelUpdated : string; ChannelDeleted : string }.
Module ChannelEvents.
Inductive payload := PChannel (ch : Models.Channel) | PChannelDelete (id : string).
End ChannelEvents.
(** Publisher.Enqueue (Publisher.v) as these handlers see it. *)
Class ChannelGateway (W : Type) : Type := { channel_Enqueue : string → ChannelEvents.payload → W → W }.

(** Bodies of the requests. *)
Record CreateChannelRequest := mkCreateChannel {
  cc_Name : string; cc_Type : option string; cc_CategoryID : option string; cc_Topic : option string;
  cc_SlowmodeSeconds : option Z; cc_NSFW : option bool }.
Record UpdateChannelRequest := mkUpdateChannel {
  uc_Name : option string; uc_CategoryID : option string; uc_Topic : option string;
  uc_Position : option Z; uc_SlowmodeSeconds : option Z; uc_NSFW : option bool }.
Record CreateCategoryRequest := mkCreateCategory { ck_Name : string }.
Record UpdateCategoryRequest := mkUpdateCategory { uk_Name : option string; uk_Position : option Z }.
(** models.Category *)
Record CategoryModel := mkCategoryModel {
  cat_ID : string; cat_Name : string; cat_Position : Z; cat_CreatedAt : string; cat_UpdatedAt : string }.

Record channel_handler := mkChannelHandler {
  log_audit : bool; dispatch : bool; maxChannels : Z; maxCategories : Z }.

Section handlers.
Context {U W : Type} `{UUIDLib U} `{RandomUUID U} `{MemberStatuses} `{!ChannelTypes}.
Context `{Postgres (database U) W} `{Postgres (guild U) W} `{PermissionLib} `{Store U W} `{!Cache U W}.
Context `{ChannelGateway W} `{AuditLog U W} `{ChannelEventNames} `{ApiErrors} `{!ChannelErrors} `{TimeFormat}.
Context (h : channel_handler).
Implicit Types (c : request U) (userID id : U).

Definition announce (ev : string) (p : ChannelEvents.payload) : M W unit :=
  when (dispatch h) (modify (channel_Enqueue ev p)).
Definition audited userID (action type : string) id : M W unit :=
  when (log_audit h) (modify (audit_Record (Audit.mkEntry (Some userID) action (Some type) (Some id) None None))).

(** ** channel.go *)
Definition mapChannelError {A} (err : error) : M W (response A) :=
  if errors_Is err ChannelRepo.ErrNotFound then Fail_ StatusNotFound UnknownChannel "Channel not found"
  else if errors_Is err Validate.Channel.ErrNameLength then Fail_ StatusBadRequest ValidationError (Error err)
  else if errors_Is err Validate.Channel.ErrInvalidType then Fail_ StatusBadRequest ValidationError (Error err)
  else if errors_Is err Validate.Channel.ErrTopicLength then Fail_ StatusBadRequest ValidationError (Error err)
  else if errors_Is err Validate.Channel.ErrInvalidSlowmode then Fail_ StatusBadRequest ValidationError (Error err)
  else if errors_Is err Validate.Channel.ErrInvalidPosition then Fail_ StatusBadRequest ValidationError (Error err)
  else if errors_Is err ChannelRepo.ErrCategoryNotFound then Fail_ StatusBadRequest UnknownCategory (Error err)
  else if errors_Is err ChannelRepo.ErrMaxChannelsReached then Fail_ StatusBadRequest MaxChannelsReached (Error err)
  else internal_error.

(** The rows the bulk check answered with true. *)
Fixpoint permitted_channels (all : list (Channel.Channel U)) (permitted : list bool) :
    list (Channel.Channel U) :=
  match all, permitted with
  | ch :: all', ok :: permitted' =>
      if ok then ch :: permitted_channels all' permitted' else permitted_channels all' permitted'
  | _, _ => []
  end.
Definition listPermittedChannels userID : M W (response (list Models.Channel)) :=
  catch ChannelRepo.List (λ _, internal_error) (λ all,
  catch (FilterPermitted userID (Channel.ID <$> all) ViewChannels) (λ _, internal_error) (λ permitted,
  Success (Channel.ToModel <$> permitted_channels all permitted))).
Definition listWelcomeChannel : M W (response (list Models.Channel)) :=
  catch OnboardingRepo.Get (λ _, internal_error) (λ cfg,
  match Onboarding.WelcomeChannelID cfg with
  | None => Success []
  | Some id =>
      catch (ChannelRepo.GetByID id)
        (λ err, if errors_Is err ChannelRepo.ErrNotFound then Success [] else internal_error)
        (λ ch, Success [Channel.ToModel ch])
  end).
Definition ListChannels c : M W (response (list Models.Channel)) :=
  userID ← UserID c;
  catch (MemberRepo.GetStatus userID)
    (λ err, if errors_Is err MemberRepo.ErrNotFound then Success [] else internal_error)
    (λ status, if bool_decide (status = MemberStatusPending) then listWelcomeChannel
               else listPermittedChannels userID).

(** An optional category of the body. *)
Definition parse_category {A} (s : option string) (k : option U → M W (response A)) : M W (response A) :=
  match s with
  | None => k None
  | Some raw =>
      match uuid_Parse raw with
      | Err _ => Fail_ StatusBadRequest ValidationError "Invalid category ID format"
      | Ok id => k (Some id)
      end
  end.
Definition CreateChannel c (decoded : res CreateChannelRequest) : M W (response Models.Channel) :=
  userID ← UserID c;
  Bind decoded (λ body,
  catch (of_res (Validate.Channel.ValidateNameRequired (cc_Name body))) mapChannelError (λ name,
  let chType := default ChannelTypeText (cc_Type body) in
  catch (of_res (Validate.Channel.ValidateType chType)) mapChannelError (λ _,
  catch (of_res (Validate.Channel.ValidateTopic (cc_Topic body))) mapChannelError (λ _,
  catch (of_res (Validate.Channel.ValidateSlowmode (cc_SlowmodeSeconds body))) mapChannelError (λ _,
  parse_category (cc_CategoryID body) (λ categoryID,
  catch (ChannelRepo.Create
           (mkChannelParams name chType categoryID (Some userID) (default ""%string (cc_Topic body))
              (default 0 (cc_SlowmodeSeconds body)) (default false (cc_NSFW body))) (maxChannels h))
    mapChannelError (λ ch,
  audited userID Audit.ChannelCreate "channel" (Channel.ID ch) ;;
  announce ChannelCreated (ChannelEvents.PChannel (Channel.ToModel ch)) ;;
  SuccessStatus StatusCreated (Channel.ToModel ch)))))))).
Definition GetChannel c : M W (response Models.Channel) :=
  ParseUUIDParam c "channelID" InvalidChannelID (λ id,
  catch (ChannelRepo.GetByID id) mapChannelError (λ ch, Success (Channel.ToModel ch))).
(** No category: no change; the empty string: out of its category; otherwise into one. *)
Definition category_change {A} (s : option string) (k : option U → bool → M W (response A)) :
    M W (response A) :=
  match s with
  | Some raw => if bool_decide (raw = ""%string) then k None true
                else parse_category (Some raw) (λ o, k o false)
  | None => k None false
  end.
Definition UpdateChannel c (decoded : res UpdateChannelRequest) : M W (response Models.Channel) :=
  userID ← UserID c;
  ParseUUIDParam c "channelID" InvalidChannelID (λ id,
  Bind decoded (λ body,
  catch (of_res (Validate.Channel.ValidateName (uc_Name body))) mapChannelError (λ name,
  catch (of_res (Validate.Channel.ValidateTopic (uc_Topic body))) mapChannelError (λ _,
  catch (of_res (Validate.Channel.ValidatePosition (uc_Position body))) mapChannelError (λ _,
  catch (of_res (Validate.Channel.ValidateSlowmode (uc_SlowmodeSeconds body))) mapChannelError (λ _,
  category_change (uc_CategoryID body) (λ categoryID setNull,
  catch (ChannelRepo.Update id
           (mkChannelChanges name categoryID setNull (uc_Topic body) (uc_Position body)
              (uc_SlowmodeSeconds body) (uc_NSFW body))) mapChannelError (λ ch,
  audited userID Audit.ChannelUpdate "channel" id ;;
  announce ChannelUpdated (ChannelEvents.PChannel (Channel.ToModel ch)) ;;
  Success (Channel.ToModel ch))))))))).
Definition DeleteChannel c : M W (response unit) :=
  userID ← UserID c;
  ParseUUIDParam c "channelID" InvalidChannelID (λ id,
  catch (ChannelRepo.Delete id) mapChannelError (λ _,
  audited userID Audit.ChannelDelete "channel" id ;;
  announce ChannelDeleted (ChannelEvents.PChannelDelete (uuid_String id)) ;;
  SendStatus StatusNoContent)).

(** ** category.go *)
Definition toCategoryModel (cat : Category.Category U) : CategoryModel :=
  mkCategoryModel (uuid_String (Category.ID cat)) (Category.Name cat) (Category.Position cat)
    (time_Format (Category.CreatedAt cat)) (time_Format (Category.UpdatedAt cat)).
Definition mapCategoryError {A} (err : error) : M W (response A) :=
  if errors_Is err CategoryRepo.ErrNotFound then Fail_ StatusNotFound UnknownCategory "Category not found"
  else if errors_Is err Validate.Category.ErrNameLength then Fail_ StatusBadRequest ValidationError (Error err)
  else if errors_Is err Validate.Category.ErrInvalidPosition then Fail_ StatusBadRequest ValidationError (Error err)
  else if errors_Is err CategoryRepo.ErrAlreadyExists then Fail_ StatusConflict AlreadyExists (Error err)
  else if errors_Is err CategoryRepo.ErrMaxCategoriesReached then
    Fail_ StatusBadRequest MaxCategoriesReached (Error err)
  else internal_error.
Definition ListCategories (c : request U) : M W (response (list CategoryModel)) :=
  catch CategoryRepo.List (λ _, internal_error) (λ cats, Success (toCategoryModel <$> cats)).
Definition CreateCategory c (decoded : res CreateCategoryRequest) : M W (response CategoryModel) :=
  userID ← UserID c;
  Bind decoded (λ body,
  catch (of_res (Validate.Category.ValidateNameRequired (ck_Name body))) mapCategoryError (λ name,
  catch (CategoryRepo.Create name (maxCategories h)) mapCategoryError (λ cat,
  audited userID Audit.CategoryCreate "category" (Category.ID cat) ;;
  SuccessStatus StatusCreated (toCategoryModel cat)))).
Definition UpdateCategory c (decoded : res UpdateCategoryRequest) : M W (response CategoryModel) :=
  userID ← UserID c;
  ParseUUIDParam c "categoryID" ValidationError (λ id,
  Bind decoded (λ body,
  catch (of_res (Validate.Category.ValidateName (uk_Name body))) mapCategoryError (λ name,
  catch (of_res (Validate.Category.ValidatePosition (uk_Position body))) mapCategoryError (λ _,
  catch (CategoryRepo.Update id (mkCategoryChanges name (uk_Position body))) mapCategoryError (λ cat,
  audited userID Audit.CategoryUpdate "category" id ;;
  Success (toCategoryModel cat)))))).
Definition DeleteCategory c : M W (response unit) :=
  userID ← UserID c;
  ParseUUIDParam c "categoryID" ValidationError (λ id,
  catch (CategoryRepo.Delete id) mapCategoryError (λ _,
  audited userID Audit.CategoryDelete "category" id ;;
  SendStatus StatusNoContent)).
End handlers.
