(* ===== verification/ChannelSpec.v ===== *)
(** * What the channel and category endpoints may do to the database

    The invariant of the channels and categories and of everything that refers to them, and the
    steps a request may take, each with its condition.  Every step keeps the invariant; the
    handlers take these steps only (ChannelProofs.v). *)
From stdpp Require Import sorting.
From S2P Require Import Prelude GoStd Platform Permission Validate Postgres Domain GuildTables GuildRepo ChatTables DmTables ChatRepo.
From S2P Require Import ChatModel ChatSpec Database ChannelTables.
Open Scope Z_scope.

(** ** Positions *)
Section positions.
Context {U A : Type} `{UUIDLib U} (pos : A → Z).
Implicit Types (t : gmap U A).
Lemma top_position_ge t i x : t !! i = Some x → pos x ≤ top_position pos t.
Proof.
  intros Hx%elem_of_map_to_list. unfold top_position. induction (map_to_list t) as [|y l IH]; [set_solver|].
  simpl. apply elem_of_cons in Hx as [<-|Hx]; [simpl; lia|]. specialize (IH Hx). lia.
Qed.
Lemma top_position_lower t : -1 ≤ top_position pos t.
Proof. unfold top_position. induction (map_to_list t) as [|y l IH]; simpl; lia. Qed.
End positions.

Section spec.
Context {U : Type} `{UUIDLaws U} `{!RandomUUID U}.
Context (maxChannels maxCategories : Z).
Implicit Types (d : database U) (u id k : U) (ch : Channel.Channel U).

Definition good_name (s : string) : Prop := 1 ≤ RuneCountInString s ≤ 100.
Definition good_position (p : Z) : Prop := 0 ≤ p ∧ in_int4 p = true.
Definition has_channel id d : Prop := is_Some (db_channels d !! id).
Definition has_category k d : Prop := is_Some (db_categories d !! k).

Record channel_ok d id ch : Prop := mkChannelOk {
  ok_id : Channel.ID ch = id;
  ok_name : good_name (Channel.Name ch);
  ok_type : Channel.Type_ ch ∈ channel_types;
  ok_topic : RuneCountInString (Channel.Topic ch) ≤ 1024;
  ok_position : good_position (Channel.Position ch);
  ok_slowmode : 0 ≤ Channel.SlowmodeSeconds ch ≤ 21600;
  ok_category : ∀ k, Channel.CategoryID ch = Some k → has_category k d;
  ok_creator : ∀ u, Channel.CreatedBy ch = Some u → is_Some (g_users (db_guild d) !! u) }.

Record database_ok d : Prop := mkDatabaseOk {
  ok_synced : synced d = d;
  ok_channels : map_Forall (channel_ok d) (db_channels d);
  ok_categories : map_Forall (λ k c, Category.ID c = k ∧ good_name (Category.Name c) ∧
    good_position (Category.Position c)) (db_categories d);
  ok_unique : ∀ i j c c', db_categories d !! i = Some c → db_categories d !! j = Some c' →
    Category.Position c = Category.Position c' → i = j;
  ok_few_channels : Z.of_nat (size (db_channels d)) ≤ Z.max 0 maxChannels;
  ok_few_categories : Z.of_nat (size (db_categories d)) ≤ Z.max 0 maxCategories;
  ok_invites : map_Forall (λ _ i, has_channel (Invite.ChannelID i) d) (g_invites (db_guild d));
  ok_welcome : ∀ c id, g_onboarding (db_guild d) = Some c → Onboarding.WelcomeChannelID c = Some id →
    has_channel id d;
  ok_threads : map_Forall (λ _ t, has_channel (Thread.ChannelID t) d) (threads (db_chat d));
  ok_attachments : map_Forall (λ _ a, has_channel (Attachment.ChannelID a) d) (attachments (db_chat d));
  ok_read : map_Forall (λ x _, has_channel x.2 d) (read_states (db_chat d));
  ok_posts : posts_ok (c_users (db_chat d)) (c_posts (db_chat d)) }.

(** ** The steps *)
Definition drawn_id d : U := gen_random_uuid (g_seq (db_guild d)).
Definition draw d : database U := on_guild (set_seq (S (g_seq (db_guild d)))) d.
Definition next_place d : Z := top_position Channel.Position (db_channels d) + 1.
Definition next_category_place d : Z := top_position Category.Position (db_categories d) + 1.
Definition if_set {A} (o : option A) (P : A → Prop) : Prop := match o with Some x => P x | None => True end.

Inductive channel_step u d : database U → Prop :=
| step_create_channel p :
    Z.of_nat (size (db_channels d)) < maxChannels →
    good_name (cp_Name p) → cp_Type p ∈ channel_types → RuneCountInString (cp_Topic p) ≤ 1024 →
    0 ≤ cp_SlowmodeSeconds p ≤ 21600 → cp_CreatedBy p = Some u → is_Some (g_users (db_guild d) !! u) →
    (∀ k, cp_CategoryID p = Some k → has_category k d) →
    db_channels d !! drawn_id d = None → in_int4 (next_place d) = true →
    channel_step u d (on_channels <[drawn_id d := new_channel p (drawn_id d) (next_place d) (db_now d)]> (draw d))
| step_update_channel id ch p :
    db_channels d !! id = Some ch → if_set (cu_Name p) good_name →
    if_set (cu_Topic p) (λ t, RuneCountInString t ≤ 1024) → if_set (cu_Position p) good_position →
    if_set (cu_SlowmodeSeconds p) (λ s, 0 ≤ s ≤ 21600) →
    (∀ k, Channel.CategoryID (set_channel p (db_now d) ch) = Some k → has_category k d) →
    channel_step u d (on_channels <[id := set_channel p (db_now d) ch]> d)
| step_delete_channel id :
    has_channel id d → channel_step u d (drop_channel id d)
| step_create_category name :
    Z.of_nat (size (db_categories d)) < maxCategories → good_name name →
    db_categories d !! drawn_id d = None → in_int4 (next_category_place d) = true →
    channel_step u d (on_categories <[drawn_id d :=
      Category.mkCategory (drawn_id d) name (next_category_place d) (db_now d) (db_now d)]> (draw d))
| step_update_category k c p :
    db_categories d !! k = Some c → if_set (ku_Name p) good_name → if_set (ku_Position p) good_position →
    ¬ position_taken k (Category.Position (set_category p (db_now d) c)) d →
    channel_step u d (on_categories <[k := set_category p (db_now d) c]> d)
| step_delete_category k :
    has_category k d → channel_step u d (drop_category k d).

(** ** Every step keeps the invariant *)
Lemma synced_twice d : synced (synced d) = synced d.
Proof. done. Qed.
Lemma synced_on_channels f d : synced (on_channels f d) = on_channels f d.
Proof. done. Qed.
Lemma synced_eq d :
  synced d = d ↔ g_channels (db_guild d) = Channel.CategoryID <$> db_channels d ∧
                 c_channels (db_chat d) = dom (db_channels d).
Proof.
  destruct d as [[] [] chans cats]. unfold synced, set_channels, set_known_channels. simpl. split.
  - intros [=]. by split; congruence.
  - by intros [-> ->].
Qed.
Lemma has_channel_insert id0 ch id d : has_channel id d → has_channel id (on_channels <[id0 := ch]> d).
Proof. unfold has_channel. simpl. intros Hc. apply lookup_insert_is_Some'. by right. Qed.

Lemma channel_ok_weaken d d' id ch :
  (∀ k, has_category k d → has_category k d') → g_users (db_guild d') = g_users (db_guild d) →
  channel_ok d id ch → channel_ok d' id ch.
Proof.
  intros Hk Hu [H1 H2 H3 H4 H5 H6 H7 H8]. split; try done; [by auto|]. intros u Hc. rewrite Hu. by apply H8.
Qed.

(** A row of channels is written. *)
Lemma put_channel_ok d id ch :
  database_ok d → channel_ok d id ch →
  (db_channels d !! id = None → Z.of_nat (size (db_channels d)) < maxChannels) →
  database_ok (on_channels <[id := ch]> d).
Proof.
  intros [I1 I2 I3 I4 I5 I6 I7 I8 I9 I10 I11 I12] Hch Hsize.
  assert (Hw : ∀ i c, channel_ok d i c → channel_ok (on_channels <[id := ch]> d) i c)
    by (intros i c; by apply channel_ok_weaken).
  split; try done.
  - apply map_Forall_insert_2; [by apply Hw|]. eapply map_Forall_impl; [exact I2|]. auto.
  - cbn [db_channels on_channels synced]. destruct (db_channels d !! id) as [c|] eqn:E.
    + rewrite map_size_insert_Some by (by eexists). done.
    + rewrite (map_size_insert_None _ _ _ E). specialize (Hsize eq_refl). lia.
  - eapply map_Forall_impl; [exact I7|]. intros i x. apply has_channel_insert.
  - intros c i Hc Hi. apply has_channel_insert. by eapply I8.
  - eapply map_Forall_impl; [exact I9|]. intros i x. apply has_channel_insert.
  - eapply map_Forall_impl; [exact I10|]. intros i x. apply has_channel_insert.
  - eapply map_Forall_impl; [exact I11|]. intros i x. apply has_channel_insert.
Qed.
Lemma draw_ok d : database_ok d → database_ok (draw d).
Proof.
  intros Hd. destruct Hd as [I1 I2 I3 I4 I5 I6 I7 I8 I9 I10 I11 I12].
  split; try done; [|by eapply map_Forall_impl; [exact I2|]; intros i c; apply channel_ok_weaken].
  apply synced_eq in I1 as [H1 H2]. by apply synced_eq.
Qed.

(** A row of categories is written. *)
Lemma put_category_ok d k c :
  database_ok d → Category.ID c = k → good_name (Category.Name c) → good_position (Category.Position c) →
  ¬ position_taken k (Category.Position c) d →
  (db_categories d !! k = None → Z.of_nat (size (db_categories d)) < maxCategories) →
  database_ok (on_categories <[k := c]> d).
Proof.
  intros [I1 I2 I3 I4 I5 I6 I7 I8 I9 I10 I11 I12] Hid Hn Hp Ht Hsize.
  assert (Hfree : ∀ i x, db_categories d !! i = Some x → i ≠ k → Category.Position x ≠ Category.Position c).
  { intros i x Hx Hne He. apply Ht. by exists i, x. }
  split; try done.
  - apply synced_eq in I1. by apply synced_eq.
  - eapply map_Forall_impl; [exact I2|]. intros i x. apply channel_ok_weaken; [|done].
    intros j Hj. unfold has_category. simpl. apply lookup_insert_is_Some'. by right.
  - by apply map_Forall_insert_2.
  - intros i j x y. simpl. intros [[<- <-]|[Hi Hx]]%lookup_insert_Some [[<- <-]|[Hj Hy]]%lookup_insert_Some He;
      [done| | |by eapply I4].
    + destruct (Hfree _ _ Hy); [done|by rewrite He].
    + by destruct (Hfree _ _ Hx).
  - simpl. destruct (db_categories d !! k) as [x|] eqn:E.
    + rewrite map_size_insert_Some by (by eexists). done.
    + rewrite (map_size_insert_None _ _ _ E). specialize (Hsize eq_refl). lia.
Qed.
Lemma fresh_position_free k d : ¬ position_taken k (next_category_place d) d.
Proof.
  intros (i & c & Hc & _ & Hp). apply (top_position_ge Category.Position) in Hc. unfold next_category_place in Hp. lia.
Qed.

(** ** Deletions *)
Lemma unthread_same t id now (r : message_row U) :
  r_channel (unthread t id now r) = r_channel r ∧ r_author (unthread t id now r) = r_author r ∧
  r_reply (unthread t id now r) = r_reply r.
Proof. unfold unthread. destruct (r_thread r) as [x|]; [|done]. by destruct (bool_decide _). Qed.
Lemma unthread_left t id now (r : message_row U) x :
  r_thread (unthread t id now r) = Some x → r_thread r = Some x ∧ (Thread.ChannelID <$> t !! x ≠ Some id).
Proof.
  unfold unthread. destruct (r_thread r) as [y|] eqn:E; [|by rewrite E].
  destruct (bool_decide_reflect (Thread.ChannelID <$> t !! y = Some id)); [done|].
  rewrite E. by intros [= <-].
Qed.
Lemma fmap_row {A} (f : A → A) (m : gmap U A) i x (P : A → Prop) :
  m !! i = Some x → P (f x) → ∃ y, (f <$> m) !! i = Some y ∧ P y.
Proof. intros Hi HP. exists (f x). by rewrite lookup_fmap, Hi. Qed.
Lemma left_posts_ok users (p : posts U) id (now : Z) :
  posts_ok users p →
  posts_ok users (on_read (filter (λ x, x.1.2 ≠ id))
    (on_attachments (filter (λ a, Attachment.ChannelID a.2 ≠ id))
       (on_threads (filter (λ t, Thread.ChannelID t.2 ≠ id))
          (on_messages (fmap (unthread (p_threads p) id now)) p)))).
Proof.
  intros [I1 I2 I3 I4 I5 I6 I7 I8 I9 I10]. set (f := unthread (p_threads p) id now).
  assert (Hf : ∀ r, r_channel (f r) = r_channel r ∧ r_author (f r) = r_author r ∧ r_reply (f r) = r_reply r)
    by (intros r; apply unthread_same).
  split; cbn [p_messages p_threads p_attachments p_reactions p_emoji p_read on_messages on_threads on_attachments on_read]; try done.
  - apply map_Forall_fmap. intros i r Hr. simpl. destruct (Hf r) as (_ & -> & _). by apply (I1 i).
  - apply map_Forall_fmap. intros i r Hr t. simpl. destruct (Hf r) as (-> & _ & ->). intros Ht.
    destruct (I2 i r Hr t Ht) as (r' & Hr' & Hc). eapply fmap_row; [exact Hr'|]. by destruct (Hf r') as (-> & _ & _).
  - apply map_Forall_fmap. intros i r Hr t. simpl. destruct (Hf r) as (-> & _ & _).
    intros [Ht Hne]%unthread_left. destruct (I3 i r Hr t Ht) as (x & Hx & Hc). exists x. split; [|done].
    rewrite Hx in Hne. apply map_lookup_filter_Some. split; [done|]. simpl. intros He. apply Hne. simpl. by rewrite He.
  - intros i t [Ht Hne]%map_lookup_filter_Some. destruct (I4 i t Ht) as (Hid & r & Hr & Hc). split; [done|].
    eapply fmap_row; [exact Hr|]. by destruct (Hf r) as (-> & _ & _).
  - intros i j t t' [Hi _]%map_lookup_filter_Some [Hj _]%map_lookup_filter_Some. by apply (I5 i j t t').
  - intros i a [Ha _]%map_lookup_filter_Some m Hm. destruct (I6 i a Ha m Hm) as (r & Hr & Hc).
    eapply fmap_row; [exact Hr|]. by destruct (Hf r) as (_ & -> & _).
  - intros i x Hx. destruct (I7 i x Hx) as ([r Hr] & ? & ? & ?). split_and!; try done. rewrite lookup_fmap, Hr. by eexists.
  - intros x rs [Hrs _]%map_lookup_filter_Some m Hm. destruct (I10 x rs Hrs m Hm) as (r & Hr & Hc).
    eapply fmap_row; [exact Hr|]. by destruct (Hf r) as (-> & _ & _).
Qed.
Lemma filter_channel {K A} `{Countable K} (m : gmap K A) (f : K → A → U) id d d' :
  map_Forall (λ i x, has_channel (f i x) d) m →
  (∀ i, i ≠ id → has_channel i d → has_channel i d') →
  map_Forall (λ i x, has_channel (f i x) d') (filter (λ p, f p.1 p.2 ≠ id) m).
Proof. intros Hm Hk i x [Hx Hne]%map_lookup_filter_Some. apply Hk; [done|]. by apply Hm. Qed.
Lemma drop_channel_ok id d : database_ok d → database_ok (drop_channel id d).
Proof.
  intros [I1 I2 I3 I4 I5 I6 I7 I8 I9 I10 I11 I12].
  assert (Hk : ∀ i, i ≠ id → has_channel i d → has_channel i (drop_channel id d)).
  { intros i Hne [c Hc]. exists c. simpl. by rewrite lookup_delete_ne. }
  split; try done.
  - intros i c Hc. simpl in Hc. apply lookup_delete_Some in Hc as [_ Hc]. eapply channel_ok_weaken; [..|by apply I2]; done.
  - simpl. rewrite map_size_delete. destruct (db_channels d !! id); simpl; lia.
  - exact (filter_channel _ (λ _ i, Invite.ChannelID i) id d _ I7 Hk).
  - intros c i Hc Hi. simpl in Hc. destruct (g_onboarding (db_guild d)) as [c0|] eqn:E; [|done].
    injection Hc as <-. unfold unwelcome in Hi.
    destruct (bool_decide_reflect (Onboarding.WelcomeChannelID c0 = Some id)) as [|Hne]; [done|].
    apply Hk; [congruence|]. by eapply I8.
  - exact (filter_channel _ (λ _ t, Thread.ChannelID t) id d _ I9 Hk).
  - exact (filter_channel _ (λ _ a, Attachment.ChannelID a) id d _ I10 Hk).
  - exact (filter_channel _ (λ x _, x.2) id d _ I11 Hk).
  - by apply left_posts_ok.
Qed.

Lemma uncategorised_same k now ch :
  Channel.ID (uncategorise k now ch) = Channel.ID ch ∧
  ∀ j, Channel.CategoryID (uncategorise k now ch) = Some j → Channel.CategoryID ch = Some j ∧ j ≠ k.
Proof.
  unfold uncategorise. destruct (bool_decide_reflect (Channel.CategoryID ch = Some k)) as [|Hne]; [by split|].
  split; [done|]. intros j Hj. split; [done|]. congruence.
Qed.
Lemma drop_category_ok k d : database_ok d → database_ok (drop_category k d).
Proof.
  intros [I1 I2 I3 I4 I5 I6 I7 I8 I9 I10 I11 I12].
  assert (Hk : ∀ i, has_channel i d → has_channel i (drop_category k d)).
  { intros i [c Hc]. unfold has_channel. simpl. rewrite lookup_fmap, Hc. by eexists. }
  split; try done.
  - simpl. apply map_Forall_fmap. intros i c Hc. simpl. destruct (I2 i c Hc) as [H1 H2 H3 H4 H5 H6 H7 H8].
    destruct (uncategorised_same k (db_now d) c) as [_ Hcat].
    split; try (unfold uncategorise; by case_bool_decide).
    intros j [Hj Hne]%Hcat. unfold has_category. simpl. rewrite lookup_delete_ne by done. by apply H7.
  - simpl. intros i c [_ Hc]%lookup_delete_Some. by apply I3.
  - simpl. intros i j c c' [_ Hi]%lookup_delete_Some [_ Hj]%lookup_delete_Some. by apply I4.
  - simpl. by rewrite map_size_fmap.
  - simpl. rewrite map_size_delete. destruct (db_categories d !! k); simpl; lia.
  - eapply map_Forall_impl; [exact I7|]. auto.
  - intros c i Hc Hi. apply Hk. by eapply I8.
  - eapply map_Forall_impl; [exact I9|]. auto.
  - eapply map_Forall_impl; [exact I10|]. auto.
  - eapply map_Forall_impl; [exact I11|]. auto.
Qed.

Lemma set_channel_ok d id ch p now :
  channel_ok d id ch → if_set (cu_Name p) good_name →
  if_set (cu_Topic p) (λ t, RuneCountInString t ≤ 1024) → if_set (cu_Position p) good_position →
  if_set (cu_SlowmodeSeconds p) (λ s, 0 ≤ s ≤ 21600) →
  (∀ k, Channel.CategoryID (set_channel p now ch) = Some k → has_category k d) →
  channel_ok d id (set_channel p now ch).
Proof.
  intros [H1 H2 H3 H4 H5 H6 H7 H8] Hn Ht Hp Hs Hc. split; simpl; try done.
  - by destruct (cu_Name p).
  - by destruct (cu_Topic p).
  - by destruct (cu_Position p).
  - by destruct (cu_SlowmodeSeconds p).
Qed.
Lemma channel_step_ok u d d' : channel_step u d d' → database_ok d → database_ok d'.
Proof.
  intros Hs Hd. destruct Hs as [p Hl Hn Ht Htop Hsl Hu Hus Hc Hf Hp|id ch p Hch Hn Htop Hp Hsl Hc|id Hid
    |name Hl Hn Hf Hp|k c p Hc Hn Hp Hfree|k Hk].
  - apply put_channel_ok; [by apply draw_ok| |done]. split; simpl; try done.
    + split; [|done]. pose proof (top_position_lower Channel.Position (db_channels d)). unfold next_place. lia.
    + rewrite Hu. by intros ? [= <-].
  - apply put_channel_ok; [done| |by rewrite Hch]. apply set_channel_ok; try done. by apply (ok_channels _ Hd).
  - by apply drop_channel_ok.
  - apply put_category_ok; [by apply draw_ok|done|done| |exact (fresh_position_free _ (draw d))|done].
    split; [|done]. simpl. pose proof (top_position_lower Category.Position (db_categories d)). unfold next_category_place. lia.
  - destruct (ok_categories _ Hd k c Hc) as (Hid & Hn0 & Hp0).
    apply put_category_ok; [done|done| | |done|by rewrite Hc]; simpl; [by destruct (ku_Name p)|by destruct (ku_Position p)].
  - by apply drop_category_ok.
Qed.
End spec.
