(* ===== verification/ChannelProofs.v ===== *)
(** * The channel and category endpoints take the steps of ChannelSpec.v

    Each repository method in the logic of ChatLogic.v: a write is done whole, under the
    conditions its statements check, or not at all.  Each handler changes the database by one
    step of its caller, or leaves it alone and refuses. *)
From stdpp Require Import sorting.
From S2P Require Import Prelude GoStd Platform Permission Validate Postgres Domain GuildTables GuildRepo Http MemberApi ApiLogic MemberProofs.
From S2P Require Import ChatTables ChatModel ChatLogic ChatWrites ChatProofs Database ChannelTables ChannelRepos ChannelApi ChannelSpec.
Open Scope Z_scope.

Section repositories.
Context {U W : Type} `{UUIDLaws U} `{!RandomUUID U} `{PostgresLaws (database U) W}.
Context (I : W → Prop) `{!Stable (database U) I}.
Implicit Types (d : database U) (id k : U).
Ltac tx_error ::= first [apply unique_error_driver | apply on_err_driver
  | (intros ?; cbv zeta; by apply unique_error_driver, from_driver_wrap)
  | (intros ?; by apply on_err_driver, from_driver_wrap)].

Lemma dangling_false {A} (o : option U) (t : gmap U A) : dangling o t = false →
  ∀ i, o = Some i → is_Some (t !! i).
Proof. intros Hm i ->. simpl in Hm. apply bool_decide_eq_false in Hm. by apply not_eq_None_Some. Qed.
Lemma int4_arg_Ok v d a d' : int4_arg v d = (Ok a, d') → d' = d ∧ if_set v (λ n, in_int4 n = true).
Proof.
  unfold int4_arg. destruct v as [n|]; simpl; [|by intros [= _ <-]].
  destruct (in_int4 n); [by intros [= _ <-]|done].
Qed.
Lemma new_id_Ok d id d' : new_id d = (Ok id, d') → id = drawn_id d ∧ d' = draw d.
Proof. by intros [= <- <-]. Qed.
Lemma asks_row {A} (f : database U → option A) :
  asks I (pg_query (W := W) (λ d, the_row (f d) d)) (λ d a, f d = Some a).
Proof. apply asks_query; [exact _|]. intros d. unfold the_row. by destruct (f d). Qed.
Lemma Channel_GetByID_asks id :
  asks I (ChannelRepo.GetByID (W := W) id) (λ d ch, db_channels d !! id = Some ch).
Proof. apply asks_map_err, asks_row. Qed.
Lemma Category_GetByID_asks id :
  asks I (CategoryRepo.GetByID (W := W) id) (λ d c, db_categories d !! id = Some c).
Proof. apply asks_map_err, asks_row. Qed.

(** ** internal/channel *)
Definition inserted (p : channel_params U) d ch d' : Prop :=
  db_channels d !! drawn_id d = None ∧ in_int4 (next_place d) = true ∧ cp_Type p ∈ channel_types ∧
  (∀ u, cp_CreatedBy p = Some u → is_Some (g_users (db_guild d) !! u)) ∧
  (∀ k, cp_CategoryID p = Some k → has_category k d) ∧
  ch = new_channel p (drawn_id d) (next_place d) (db_now d) ∧
  d' = on_channels <[drawn_id d := ch]> (draw d).
Lemma insert_channel_Ok p d ch d' : insert_channel p d = (Ok ch, d') → inserted p d ch d'.
Proof.
  unfold insert_channel. intros E. apply bind_Ok_inv in E as (a & d1 & E1 & E). apply int4_arg_Ok in E1 as [-> _].
  apply bind_Ok_inv in E as (id & d2 & E2 & E). apply new_id_Ok in E2 as [-> ->].
  run_statement. cbv zeta in E. take_conditions. injection E as <- <-.
  unfold inserted. split_and!; try done; [by apply dec_stable|by apply dangling_false..].
Qed.
Lemma Channel_Create_does p max : does I (ChannelRepo.Create (W := W) p max)
  (λ d ch d', Z.of_nat (size (db_channels d)) < max ∧ inserted p d ch d').
Proof.
  eapply does_tx; [exact _|calm|tx_steps|].
  intros d ch d' E. apply bind_Ok_inv in E as (n & d1 & E1 & E). apply wrap_Ok_inv in E1. injection E1 as <- <-.
  destruct (Z.leb_spec max (Z.of_nat (size (db_channels d)))); [done|].
  apply bind_Ok_inv in E as (b & d2 & E2 & E).
  assert (d2 = d) as -> by (destruct (cp_CategoryID p); [apply wrap_Ok_inv in E2|]; by injection E2).
  destruct b; simpl in E; [|done]. apply wrap_Ok_inv, wrap_Ok_inv, insert_channel_Ok in E. done.
Qed.
Definition rewritten id (p : channel_changes U) d ch' d' : Prop := ∃ ch,
  db_channels d !! id = Some ch ∧ if_set (cu_Position p) (λ n, in_int4 n = true) ∧
  (∀ k, Channel.CategoryID (set_channel p (db_now d) ch) = Some k → has_category k d) ∧
  ch' = set_channel p (db_now d) ch ∧ d' = on_channels <[id := ch']> d.
Lemma update_error_driver e : from_driver e → from_driver (ChannelRepo.update_error e).
Proof.
  intros He. unfold ChannelRepo.update_error. cbv zeta. unfold ErrNoRows, IsForeignKeyViolation, PgError.
  rewrite !from_driver_Is by (by apply from_driver_wrap). by do 2 apply from_driver_wrap.
Qed.
Lemma Channel_Update_does id p : does I (ChannelRepo.Update (W := W) id p) (λ d ch d',
  (db_channels d !! id = Some ch ∧ d' = d) ∨ rewritten id p d ch d').
Proof.
  unfold ChannelRepo.Update. destruct (ChannelRepo.no_update p).
  { eapply does_weaken; [apply does_asks, Channel_GetByID_asks|]. intros d a d' [-> ?]. by left. }
  apply does_query; [exact _|apply update_error_driver|]. intros d ch d' E. right.
  unfold update_channel in E. apply bind_Ok_inv in E as (a & d1 & E1 & E). apply int4_arg_Ok in E1 as [-> Hp].
  apply bind_Ok_inv in E as (b & d2 & E2 & E). apply int4_arg_Ok in E2 as [-> _].
  apply bind_Ok_inv in E as (d0 & d3 & E3 & E). injection E3 as <- <-.
  apply bind_Ok_inv in E as (c0 & d4 & E4 & E). unfold the_row in E4.
  destruct (db_channels d !! id) as [c|] eqn:Ec; [|done]. injection E4 as -> <-. cbv zeta in E.
  destruct (dangling _ _) eqn:Ed; [done|]. injection E as <- <-. exists c0. split_and!; try done.
  by apply dangling_false.
Qed.
Lemma Channel_Delete_does id : does I (ChannelRepo.Delete (W := W) id) (λ d _ d',
  has_channel id d ∧ d' = drop_channel id d).
Proof.
  eapply (does_rows _ _ _ (λ d d', has_channel id d ∧ d' = drop_channel id d)).
  - apply does_wrap; [exact _|]. intros d n d' E. unfold delete_channel in E. run_statement.
    destruct (db_channels d !! id) eqn:Ec; simplify_eq; [right|by left]. split_and!; [done| |done]. by eexists.
  - simpl. apply asks_fail.
  - intros n Hn. destruct (Z.eqb_spec n 0); [done|]. by apply asks_ret.
Qed.

(** ** internal/category *)
Definition new_category name d : Category.Category U :=
  Category.mkCategory (drawn_id d) name (next_category_place d) (db_now d) (db_now d).
Lemma Category_Create_does name max : does I (CategoryRepo.Create (W := W) name max) (λ d c d',
  Z.of_nat (size (db_categories d)) < max ∧ db_categories d !! drawn_id d = None ∧
  in_int4 (next_category_place d) = true ∧ c = new_category name d ∧
  d' = on_categories <[drawn_id d := c]> (draw d)).
Proof.
  eapply does_tx; [exact _|calm|tx_steps|].
  intros d c d' E. apply bind_Ok_inv in E as (n & d1 & E1 & E). apply wrap_Ok_inv in E1. injection E1 as <- <-.
  destruct (Z.leb_spec max (Z.of_nat (size (db_categories d)))); [done|].
  apply map_err_inv in E as ([c'|] & E & [= ->]). unfold insert_category in E.
  apply bind_Ok_inv in E as (id & d2 & E2 & E). apply new_id_Ok in E2 as [-> ->].
  run_statement. cbv zeta in E. take_conditions. injection E as <- <-. by split_and!.
Qed.
Definition recategorised k (p : category_changes) d c' d' : Prop := ∃ c,
  db_categories d !! k = Some c ∧ if_set (ku_Position p) (λ n, in_int4 n = true) ∧
  ¬ position_taken k (Category.Position (set_category p (db_now d) c)) d ∧
  c' = set_category p (db_now d) c ∧ d' = on_categories <[k := c']> d.
Lemma category_error_driver e : from_driver e → from_driver (CategoryRepo.update_error e).
Proof.
  intros He. unfold CategoryRepo.update_error. cbv zeta. unfold ErrNoRows, IsUniqueViolation, PgError.
  rewrite !from_driver_Is by (by apply from_driver_wrap). by do 2 apply from_driver_wrap.
Qed.
Lemma Category_Update_does k p : does I (CategoryRepo.Update (W := W) k p) (λ d c d',
  (db_categories d !! k = Some c ∧ d' = d) ∨ recategorised k p d c d').
Proof.
  unfold CategoryRepo.Update. destruct (CategoryRepo.no_update p).
  { eapply does_weaken; [apply does_asks, Category_GetByID_asks|]. intros d a d' [-> ?]. by left. }
  apply does_query; [exact _|apply category_error_driver|]. intros d ch d' E. right.
  unfold update_category in E. apply bind_Ok_inv in E as (a & d1 & E1 & E). apply int4_arg_Ok in E1 as [-> Hp].
  apply bind_Ok_inv in E as (d0 & d3 & E3 & E). injection E3 as <- <-.
  apply bind_Ok_inv in E as (c0 & d4 & E4 & E). unfold the_row in E4.
  destruct (db_categories d !! k) as [c|] eqn:Ec; [|done]. injection E4 as -> <-. cbv zeta in E.
  destruct (bool_decide_reflect (position_taken k (Category.Position (set_category p (db_now d) c0)) d)); [done|].
  injection E as <- <-. by exists c0.
Qed.
Lemma Category_Delete_does k : does I (CategoryRepo.Delete (W := W) k) (λ d _ d',
  has_category k d ∧ d' = drop_category k d).
Proof.
  eapply (does_rows _ _ _ (λ d d', has_category k d ∧ d' = drop_category k d)).
  - apply does_wrap; [exact _|]. intros d n d' E. unfold delete_category in E. run_statement.
    destruct (db_categories d !! k) eqn:Ec; simplify_eq; [right|by left]. split_and!; [done| |done]. by eexists.
  - simpl. apply asks_fail.
  - intros n Hn. destruct (Z.eqb_spec n 0); [done|]. by apply asks_ret.
Qed.
End repositories.

(** ** The handlers *)

(** What the handlers tell the gateway and the audit log leaves what [obs] sees alone. *)
Class ChannelFrame {U W V : Type} `{UUIDLib U} `{!ChannelGateway W} `{!AuditLog U W} (obs : W → V) : Prop := {
  frame_announce : ∀ ev p w, obs (channel_Enqueue ev p w) = obs w;
  frame_record : ∀ e w, obs (audit_Record (U := U) e w) = obs w }.

Section handlers.
Context {U W : Type} `{UUIDLaws U} `{!RandomUUID U} `{!MemberStatuses} `{!ChannelTypes}.
Context `{PostgresLaws (database U) W} `{!ChannelGateway W} `{!AuditLog U W} `{!ChannelEventNames}.
Context `{ApiErrors} `{!ChannelErrors} `{TimeFormat}.
Context `{!ChannelFrame (U := U) (pg_view (DB := database U) (W := W))}.
Context (h : channel_handler).
Implicit Types (d : database U) (c : request U) (u id k : U).
Abbreviation any := (λ _ : W, True).
#[local] Instance any_stable : Stable (database U) any := free_Stable.
Abbreviation quiet m := (asks (DB := database U) any m (λ _ _, True)).
Abbreviation step := (channel_step (maxChannels h) (maxCategories h)).
Abbreviation maybe u := (λ d d', d' = d ∨ step u d d').

Lemma idle_announce ev p : quiet (announce (W := W) h ev p).
Proof.
  unfold announce, when. destruct (dispatch h); [|idle]. apply idle_modify. intros w _. split; [done|].
  apply (frame_announce (U := U)).
Qed.
Lemma idle_audited u action type id : quiet (audited (W := W) h u action type id).
Proof.
  unfold audited, when. destruct (log_audit h); [|idle]. apply idle_modify. intros w _. split; [done|].
  apply (frame_record (U := U)).
Qed.
#[local] Hint Resolve idle_announce idle_audited : idle.
Lemma mapChannelError_declines {A} e : declines (DB := database U) any (mapChannelError (W := W) (A := A) e).
Proof. unfold mapChannelError. repeat match goal with |- declines _ (if ?b then _ else _) => destruct b end; auto with declines. Qed.
Lemma mapCategoryError_declines {A} e : declines (DB := database U) any (mapCategoryError (W := W) (A := A) e).
Proof. unfold mapCategoryError. repeat match goal with |- declines _ (if ?b then _ else _) => destruct b end; auto with declines. Qed.
#[local] Hint Resolve mapChannelError_declines mapCategoryError_declines : declines.

(** What the validators let through. *)
Lemma trimmed_good err s t : trimmed_between 1 100 err s = Ok t → good_name t.
Proof.
  unfold trimmed_between, good_name. destruct (_ || _) eqn:E; [done|]. intros [= <-].
  apply orb_false_iff in E as [?%Z.ltb_ge ?%Z.ltb_ge]. lia.
Qed.
Lemma pointee_good err o o' : opt_pointee (trimmed_between 1 100 err) o = Ok o' → if_set o' good_name.
Proof.
  destruct o as [s|]; simpl; [|by intros [= <-]]. destruct (trimmed_between _ _ _ _) eqn:E; [|done].
  intros [= <-]. by eapply trimmed_good.
Qed.
Lemma check_if_set {A} bad err (o : option A) a (P : A → Prop) :
  opt_check bad err o = Ok a → (∀ x, bad x = false → P x) → if_set o P.
Proof. destruct o as [x|]; simpl; [|done]. destruct (bad x) eqn:E; [done|]. intros _ HP. by apply HP. Qed.
Lemma topic_good o a : Validate.Channel.ValidateTopic o = Ok a → if_set o (λ t, RuneCountInString t ≤ 1024).
Proof. intros E. eapply check_if_set; [exact E|]. intros t ?%Z.ltb_ge. lia. Qed.
Lemma slowmode_good o a : Validate.Channel.ValidateSlowmode o = Ok a → if_set o (λ s, 0 ≤ s ≤ 21600).
Proof. intros E. eapply check_if_set; [exact E|]. intros t [?%Z.ltb_ge ?%Z.ltb_ge]%orb_false_iff. lia. Qed.
Lemma position_good err o a : opt_check (λ p, p <? 0) err o = Ok a → if_set o (λ p, 0 ≤ p).
Proof. intros E. eapply check_if_set; [exact E|]. intros t ?%Z.ltb_ge. lia. Qed.
Lemma both_good o : if_set o (λ p, 0 ≤ p) → if_set o (λ n, in_int4 n = true) → if_set o good_position.
Proof. by destruct o. Qed.
Lemma serves_category {A} s (k : option U → M W (response A)) (Q : database U → database U → Prop) :
  (∀ o, serves any (k o) Q) → serves any (parse_category s k) Q.
Proof.
  intros Hk. destruct s as [raw|]; simpl; [|auto]. destruct (uuid_Parse raw); [auto|].
  apply serves_decline. auto with declines.
Qed.

Lemma CreateChannel_serves c body u :
  Locals_userID c = Some u → serves any (CreateChannel h c body) (step u).
Proof.
  intros Hu. apply (serves_UserID any c u); [done|]. apply serves_Bind. intros b _.
  apply serves_of_res; [auto with declines|]. intros name Hn. cbv zeta.
  apply serves_of_res; [auto with declines|]. intros [] _.
  apply serves_of_res; [auto with declines|]. intros t Ht.
  apply serves_of_res; [auto with declines|]. intros s Hs.
  apply serves_category. intros o. apply topic_good in Ht. apply slowmode_good in Hs. apply trimmed_good in Hn.
  eapply serves_done; [apply Channel_Create_does; exact _|auto with declines|intros ch; idle|].
  intros d ch d' (Hl & Hf & Hp & Hty & Hus & Hcat & -> & ->). apply step_create_channel; simpl; try done.
  - destruct (cc_Topic b); simpl; [done|]. by vm_compute.
  - destruct (cc_SlowmodeSeconds b); simpl; [done|lia].
  - by apply Hus.
Qed.
Lemma UpdateChannel_serves c body u :
  Locals_userID c = Some u → serves any (UpdateChannel h c body) (maybe u).
Proof.
  intros Hu. apply (serves_UserID any c u); [done|]. apply serves_param. intros id _. apply serves_Bind. intros b _.
  apply serves_of_res; [auto with declines|]. intros name Hn.
  apply serves_of_res; [auto with declines|]. intros t Ht.
  apply serves_of_res; [auto with declines|]. intros p Hp.
  apply serves_of_res; [auto with declines|]. intros s Hs.
  apply topic_good in Ht. apply slowmode_good in Hs. apply pointee_good in Hn. apply position_good in Hp.
  assert (Hk : ∀ o null, serves any (catch (ChannelRepo.Update id (mkChannelChanges name o null (uc_Topic b)
      (uc_Position b) (uc_SlowmodeSeconds b) (uc_NSFW b))) mapChannelError (λ ch,
    audited h u Audit.ChannelUpdate "channel" id ;;
    announce h ChannelUpdated (ChannelEvents.PChannel (Channel.ToModel ch)) ;; Success (Channel.ToModel ch))) (maybe u)).
  { intros o null. eapply serves_done; [apply Channel_Update_does; exact _|auto with declines|intros ch; idle|].
    intros d ch d' [[_ ->]|(ch0 & Hch & Hi & Hcat & -> & ->)]; [by left|right].
    apply step_update_channel; try done. by apply both_good. }
  unfold category_change. destruct (uc_CategoryID b) as [raw|]; [|apply Hk].
  destruct (bool_decide _); [apply Hk|]. apply serves_category. intros o. apply Hk.
Qed.
Lemma DeleteChannel_serves c u : Locals_userID c = Some u → serves any (DeleteChannel h c) (step u).
Proof.
  intros Hu. apply (serves_UserID any c u); [done|]. apply serves_param. intros id _.
  eapply serves_done; [apply Channel_Delete_does; exact _|auto with declines|intros ch; idle|].
  intros d [] d' [Hid ->]. by apply step_delete_channel.
Qed.
Lemma CreateCategory_serves c body u :
  Locals_userID c = Some u → serves any (CreateCategory h c body) (step u).
Proof.
  intros Hu. apply (serves_UserID any c u); [done|]. apply serves_Bind. intros b _.
  apply serves_of_res; [auto with declines|]. intros name Hn. apply trimmed_good in Hn.
  eapply serves_done; [apply Category_Create_does; exact _|auto with declines|intros ch; idle|].
  intros d k d' (Hl & Hf & Hp & -> & ->). by apply step_create_category.
Qed.
Lemma UpdateCategory_serves c body u :
  Locals_userID c = Some u → serves any (UpdateCategory h c body) (maybe u).
Proof.
  intros Hu. apply (serves_UserID any c u); [done|]. apply serves_param. intros id _. apply serves_Bind. intros b _.
  apply serves_of_res; [auto with declines|]. intros name Hn.
  apply serves_of_res; [auto with declines|]. intros p Hp.
  apply pointee_good in Hn. apply position_good in Hp.
  eapply serves_done; [apply Category_Update_does; exact _|auto with declines|intros ch; idle|].
  intros d k d' [[_ ->]|(k0 & Hk & Hi & Hfree & -> & ->)]; [by left|right].
  apply step_update_category; try done. by apply both_good.
Qed.
Lemma DeleteCategory_serves c u : Locals_userID c = Some u → serves any (DeleteCategory h c) (step u).
Proof.
  intros Hu. apply (serves_UserID any c u); [done|]. apply serves_param. intros id _.
  eapply serves_done; [apply Category_Delete_does; exact _|auto with declines|intros ch; idle|].
  intros d [] d' [Hid ->]. by apply step_delete_category.
Qed.
Lemma GetChannel_idle c : quiet (GetChannel (W := W) c).
Proof.
  apply idle_param. intros id. apply idle_catch; [eapply asks_idle; use Channel_GetByID_asks| |idle].
  intros e. apply idle_declines, mapChannelError_declines.
Qed.
Lemma ListCategories_idle c : quiet (ListCategories (W := W) c).
Proof. unfold ListCategories, CategoryRepo.List, select_categories. idle. use idle_select. Qed.
End handlers.
