(* ===== verification/SearchApi.v ===== *)
(** * Message search: internal/search/search.go and internal/api/search.go

    The service scopes a query to the channels the caller may view and hands it to a [Searcher];
    [TypesenseSearcher] is the one the server uses, over an HTTP client.  What a searcher
    promises the service is a law of the interface; what Typesense documents of its filters is
    a law of the backend, from which the first is proved. *)
From S2P Require Import Prelude GoStd Platform Permission Validate Config Postgres Domain GuildTables GuildRepo Http MemberApi.
From S2P Require Import ChatTables Database ChannelTables ChannelRepos ChannelApi.
Open Scope Z_scope.

Definition ErrSearchUnavailable : error := Sentinel "search.ErrSearchUnavailable".
Definition ErrEmptyQuery : error := Sentinel "search.ErrEmptyQuery".
Definition ErrInvalidFilter : error := Sentinel "search.ErrInvalidFilter".
Definition DefaultPerPage : Z := 25.
Definition MaxPerPage : Z := 100.
Definition DefaultPage : Z := 1.
Definition StatusServiceUnavailable : Z := 503.

Record Options := mkOptions {
  opt_ChannelID : string; opt_AuthorID : string; opt_Before : Z; opt_After : Z; opt_Page : Z; opt_PerPage : Z }.
Record Params := mkParams {
  p_Query : string; p_ChannelIDs : list string; p_AuthorID : string; p_Before : Z; p_After : Z;
  p_Page : Z; p_PerPage : Z }.
Record Highlight := mkHighlight { Field : string; Snippets : list string }.
Record Document := mkDocument {
  doc_ID : string; doc_Content : string; doc_AuthorID : string; doc_ChannelID : string; doc_CreatedAt : Z }.
Record Hit := mkHit { hit_Document : Document; hit_Highlights : list Highlight }.
Record Result := mkResult { Found : Z; Hits : list Hit }.

(** models.SearchMessageHit and SearchResponse *)
Record SearchMessageHit := mkSearchHit {
  sh_ID : string; sh_ChannelID : string; sh_AuthorID : string; sh_Content : string; sh_CreatedAt : Z;
  sh_Highlights : list string }.
Record SearchResponse := mkSearchResponse {
  TotalCount : Z; sr_Page : Z; sr_PerPage : Z; sr_Hits : list SearchMessageHit }.

Definition ClampPagination (page perPage : Z) : Z * Z :=
  let page := if page <? DefaultPage then DefaultPage else page in
  let perPage := if perPage <? 1 then DefaultPerPage else perPage in
  let perPage := if MaxPerPage <? perPage then MaxPerPage else perPage in
  (page, perPage).

(** ** The search backend over HTTP *)

(** A GET request: its path under the base URL, the values [url.Values.Encode] sends, the key. *)
Record search_request := mkSearchRequest {
  rq_path : string; rq_values : list (string * string); rq_key : string }.
(** The client, whether the base URL parses, and the JSON decoder of the answer. *)
Class SearchClient (W : Type) : Type := {
  base_url_ok : bool;
  client_Do : search_request → M W (Z * string);
  decode_Result : string → res Result }.

Fixpoint Join (l : list string) (sep : string) : string :=
  match l with
  | [] => ""
  | [x] => x
  | x :: l' => x +:+ sep +:+ Join l' sep
  end.
Definition filter_parts (params : Params) : list string :=
  [("channel_id:[" +:+ Join (p_ChannelIDs params) "," +:+ "]")%string] ++
  (if bool_decide (p_AuthorID params = ""%string) then [] else [("author_id:=" +:+ p_AuthorID params)%string]) ++
  (if 0 <? p_Before params then [("created_at:<" +:+ FormatInt (p_Before params))%string] else []) ++
  (if 0 <? p_After params then [("created_at:>" +:+ FormatInt (p_After params))%string] else []).
Definition search_values (params : Params) : list (string * string) := [
  ("q", p_Query params); ("query_by", "content"); ("filter_by", Join (filter_parts params) " && ");
  ("sort_by", "created_at:desc"); ("page", FormatInt (p_Page params));
  ("per_page", FormatInt (p_PerPage params)); ("highlight_fields", "content");
  ("highlight_start_tag", "<mark>"); ("highlight_end_tag", "</mark>") ]%string.

Class Searcher (W : Type) : Type := { searcher_Search : Params → M W Result }.

Definition TypesenseSearch {W} `{SearchClient W} (apiKey : string) (params : Params) : M W Result :=
  if negb base_url_ok then fail (Wrap "build search request" (Plain "invalid URL"))
  else
    resp ← map_err (λ _, ErrSearchUnavailable)
             (client_Do (mkSearchRequest "/collections/messages/documents/search" (search_values params) apiKey));
    if 500 <=? resp.1 then fail ErrSearchUnavailable
    else if 400 <=? resp.1
    then fail (Plain ("typesense returned status " +:+ FormatInt resp.1 +:+ " on search: " +:+ resp.2))
    else wrap "decode search response" (of_res (decode_Result resp.2)).
Definition TypesenseSearcher {W} `{SearchClient W} (apiKey : string) : Searcher W :=
  {| searcher_Search := TypesenseSearch apiKey |}.

(** ** The service *)
Definition emptyResponse (page perPage : Z) : SearchResponse := mkSearchResponse 0 page perPage [].
(** The snippets of the first highlight of the content. *)
Definition content_snippets (l : list Highlight) : list string :=
  match list_find (λ x, Field x = "content"%string) l with Some (_, x) => Snippets x | None => [] end.
Definition to_hit (x : Hit) : SearchMessageHit :=
  let d := hit_Document x in
  mkSearchHit (doc_ID d) (doc_ChannelID d) (doc_AuthorID d) (doc_Content d) (doc_CreatedAt d)
    (content_snippets (hit_Highlights x)).

Section service.
Context {U W : Type} `{UUIDLib U} `{RandomUUID U} `{Postgres (database U) W}.
Context `{PermissionLib} `{Store U W} `{!Cache U W} `{!Searcher W}.

(** [if s != "" { if _, err := uuid.Parse(s); err != nil { ... } }] *)
Definition bad_filter (s : string) : bool :=
  negb (bool_decide (s = ""%string)) &&
  match uuid_Parse (U := U) s with Ok _ => false | Err _ => true end.
(** [allowedIDs] *)
Definition allowed_ids (ids : list U) (permitted : list bool) : list string :=
  omap (λ p, if p.2 : bool then Some (uuid_String p.1) else None) (zip ids permitted).
Definition Search (userID : U) (query : string) (opts : Options) : M W SearchResponse :=
  let query := TrimSpace query in
  if bool_decide (query = ""%string) then fail ErrEmptyQuery
  else if bad_filter (opt_ChannelID opts) then fail ErrInvalidFilter
  else if bad_filter (opt_AuthorID opts) then fail ErrInvalidFilter
  else
    all ← wrap "list channels" (ChannelRepo.List (U := U));
    let channelIDs := Channel.ID <$> all in
    permitted ← wrap "filter permitted channels" (FilterPermitted userID channelIDs ViewChannels);
    let allowedIDs := allowed_ids channelIDs permitted in
    let empty := mret (emptyResponse (opt_Page opts) (opt_PerPage opts)) in
    let search (ids : list string) :=
      result ← searcher_Search (mkParams query ids (opt_AuthorID opts) (opt_Before opts) (opt_After opts)
                                  (opt_Page opts) (opt_PerPage opts));
      mret (mkSearchResponse (Found result) (opt_Page opts) (opt_PerPage opts) (to_hit <$> Hits result)) in
    if negb (bool_decide (opt_ChannelID opts = ""%string)) then
      if bool_decide (opt_ChannelID opts ∈ allowedIDs) then search [opt_ChannelID opts] else empty
    else match allowedIDs with [] => empty | _ => search allowedIDs end.

(** ** api/search.go *)
Context `{ApiErrors} `{!ChannelErrors}.
Definition mapSearchError {A} (err : error) : M W (response A) :=
  if errors_Is err ErrEmptyQuery then Fail_ StatusBadRequest ValidationError (Error err)
  else if errors_Is err ErrInvalidFilter then Fail_ StatusBadRequest ValidationError (Error err)
  else if errors_Is err ErrSearchUnavailable then Fail_ StatusServiceUnavailable SearchUnavailable (Error err)
  else internal_error.
(** The [before] and [after] instants; absent is 0. *)
Definition ParseInstant {A} (c : request U) (param message : string) (k : Z → M W (response A)) :
    M W (response A) :=
  if bool_decide (Query c param = ""%string) then k 0
  else match ParseInt (Query c param) with
       | Ok v => k v
       | Err _ => Fail_ StatusBadRequest ValidationError message
       end.
Definition SearchMessages (c : request U) : M W (response SearchResponse) :=
  userID ← UserID c;
  let query := TrimSpace (Query c "q") in
  if bool_decide (query = ""%string)
  then Fail_ StatusBadRequest ValidationError "The q parameter is required"
  else if bad_filter (Query c "channel_id")
  then Fail_ StatusBadRequest InvalidChannelID "Invalid channel_id format"
  else if bad_filter (Query c "author_id")
  then Fail_ StatusBadRequest ValidationError "Invalid author_id format"
  else
    ParseInstant c "before" "Invalid before parameter" (λ before,
    ParseInstant c "after" "Invalid after parameter" (λ after,
    ParseIntQuery c "page" (λ page,
    ParseIntQuery c "limit" (λ perPage,
    let '(page, perPage) := ClampPagination page perPage in
    catch (Search userID query (mkOptions (Query c "channel_id") (Query c "author_id") before after page perPage))
      mapSearchError (λ result, Success result))))).
End service.

(** ** What a searcher promises *)

(** A hit lies in one of the channels asked for. *)
Class SearcherLaws {U : Type} (W : Type) `{UUIDLib U} `{!Searcher W} : Prop := {
  search_scoped : ∀ (params : Params) (w : W) res_ w',
    Forall (λ s, ∃ u : U, s = uuid_String u) (p_ChannelIDs params) →
    p_AuthorID params = ""%string ∨ (∃ u : U, uuid_Parse (p_AuthorID params) = Ok u) →
    searcher_Search params w = (Ok res_, w') →
    Forall (λ x, doc_ChannelID (hit_Document x) ∈ p_ChannelIDs params) (Hits res_) }.
(** Documented of Typesense: the conditions joined with && in filter_by all hold of every
    document returned, and "field:[a,b]" asks for one of the values. *)
Class TypesenseFilters {U : Type} (W : Type) `{UUIDLib U} `{!SearchClient W} : Prop := {
  filters_hold : ∀ ids rest rq (w : W) status body w' res_,
    Forall (λ s, ∃ u : U, s = uuid_String u) ids →
    Forall (λ s, (∃ a, s = ("author_id:=" +:+ a)%string ∧ ∃ u : U, uuid_Parse a = Ok u) ∨
                 (∃ n, s = ("created_at:<" +:+ FormatInt n)%string) ∨
                 (∃ n, s = ("created_at:>" +:+ FormatInt n)%string)) rest →
    In ("filter_by", Join (("channel_id:[" +:+ Join ids "," +:+ "]") :: rest) " && ")%string (rq_values rq) →
    client_Do rq w = (Ok (status, body), w') → status < 400 → decode_Result body = Ok res_ →
    Forall (λ x, doc_ChannelID (hit_Document x) ∈ ids) (Hits res_) }.

Lemma Typesense_scoped {U W} `{UUIDLib U} `{!SearchClient W} `{!TypesenseFilters (U := U) W} (apiKey : string) :
  SearcherLaws (U := U) W (Searcher0 := TypesenseSearcher apiKey).
Proof.
  split. intros params w res_ w' Hids Hauthor E. simpl in E. unfold TypesenseSearch in E.
  destruct base_url_ok; simpl in E; [|done].
  apply bind_Ok_inv in E as ([status body] & w1 & E1 & E). apply map_err_inv in E1 as ([a|] & E1 & [= <-]).
  simpl in E. destruct (Z.leb_spec 500 status); [done|]. destruct (Z.leb_spec 400 status); [done|].
  apply wrap_Ok_inv in E. injection E as Hd _.
  eapply (filters_hold (p_ChannelIDs params) (tail (filter_parts params))); [done| | |exact E1|lia|exact Hd].
  - simpl. rewrite !Forall_app. split_and!.
    + destruct (bool_decide_reflect (p_AuthorID params = ""%string)) as [|Hne]; [constructor|].
      constructor; [|constructor]. left. destruct Hauthor as [?|?]; [done|]. by exists (p_AuthorID params).
    + destruct (0 <? _); [apply Forall_singleton; right; left; by eexists|constructor].
    + destruct (0 <? _); [apply Forall_singleton; right; right; by eexists|constructor].
  - simpl. right; right; left. done.
Qed.
