(* ===== verification/ChannelRoutes.v ===== *)
(** * The routes of channels, categories and search: cmd/uncord/routes.go

    The middleware chains and the handlers behind them, over the one database of Database.v: the
    membership and the permissions the middleware asks for are read from its part that
    GuildTables.v models, through the resolver and its cache.  The theorems: a request that
    succeeds or changes the database was entitled to its route and took one step of
    ChannelSpec.v, and whatever the request, the invariant of the database holds after it. *)
From S2P Require Import Prelude GoStd Platform Permission PermCache Validate Config Jwt Postgres Frames Domain.
From S2P Require Import GuildTables GuildRepo Http MemberApi JoinApi ApiLogic MemberProofs GuildStore ResolverFrame Routes.
From S2P Require Import ChatTables ChatModel ChatLogic RouteGate ChatProofs Database ChannelTables ChannelRepos ChannelApi.
From S2P Require Import ChannelSpec ChannelProofs SearchApi.
Open Scope Z_scope.

Inductive channel_route :=
| RListChannels | RCreateChannel (b : res CreateChannelRequest) | RGetChannel
| RUpdateChannel (b : res UpdateChannelRequest) | RDeleteChannel
| RListCategories | RCreateCategory (b : res CreateCategoryRequest)
| RUpdateCategory (b : res UpdateCategoryRequest) | RDeleteCategory
| RSearch.
Inductive channel_answer :=
| KNone | KChannel (ch : Models.Channel) | KChannels (l : list Models.Channel)
| KCategory (k : CategoryModel) | KCategories (l : list CategoryModel) | KSearch (s : SearchResponse).
(** uncord-protocol/permissions *)
Class ChannelPermissions : Type := { ManageChannels : Z; ManageCategories : Z }.

Section routes.
Context {U W : Type} `{UUIDLib U} `{!RandomUUID U} `{!MemberStatuses} `{!ChannelTypes}.
Context `{Postgres (database U) W} `{Postgres (guild U) W} `{Clock W} `{!PermissionLib} `{!ChannelPermissions}.
Context `{!JwtLib} `{!Store U W} `{!Cache U W} `{!ChannelGateway W} `{!AuditLog U W} `{!ChannelEventNames}.
Context `{!Searcher W} `{ApiErrors} `{!ChannelErrors} `{TimeFormat}.
Context (h : channel_handler).
Implicit Types (c : request U) (x : channel_route).

Definition channel_access x : access :=
  match x with
  | RListChannels => Verified
  | RCreateChannel _ => WithPermission ManageChannels
  | RGetChannel => InChannel ViewChannels
  | RUpdateChannel _ | RDeleteChannel => InChannel ManageChannels
  | RListCategories | RSearch => ActiveMember
  | RCreateCategory _ | RUpdateCategory _ | RDeleteCategory => WithPermission ManageCategories
  end.
Definition serve_channel x c : M W (response channel_answer) :=
  match x with
  | RListChannels => respond KChannels (ListChannels c)
  | RCreateChannel b => respond KChannel (CreateChannel h c b)
  | RGetChannel => respond KChannel (GetChannel c)
  | RUpdateChannel b => respond KChannel (UpdateChannel h c b)
  | RDeleteChannel => respond (λ _, KNone) (DeleteChannel h c)
  | RListCategories => respond KCategories (ListCategories c)
  | RCreateCategory b => respond KCategory (CreateCategory h c b)
  | RUpdateCategory b => respond KCategory (UpdateCategory h c b)
  | RDeleteCategory => respond (λ _, KNone) (DeleteCategory h c)
  | RSearch => respond KSearch (SearchMessages c)
  end.
Definition channel_routes (cfg : Config) x : request U → M W (response channel_answer) :=
  RequireAuth (Expose (JWTSecret cfg)) (ServerURL cfg) cfg
    (RequireCSRF cfg (protect (channel_access x) (serve_channel x))).
End routes.

(** ** The parts of the server *)

(** A searcher leaves what [obs] sees alone; the HTTP client of Typesense does. *)
Class SearcherFrame {W V : Type} `{!Searcher W} (obs : W → V) : Prop := {
  search_keeps : ∀ params, keeps obs (searcher_Search params) }.
Lemma Typesense_keeps {W V} `{!SearchClient W} (obs : W → V) (apiKey : string) :
  (∀ rq, keeps obs (client_Do rq)) → SearcherFrame obs (Searcher0 := TypesenseSearcher apiKey).
Proof.
  intros Hc. split. intros params. unfold searcher_Search, TypesenseSearcher, TypesenseSearch.
  destruct base_url_ok; simpl; [|keeps]. apply keeps_bind; [by apply keeps_map_err|]. intros x.
  destruct (500 <=? _); [keeps|]. destruct (400 <=? _); keeps.
Qed.

Section server.
Context {U W : Type} `{UUIDLaws U} `{!RandomUUID U} `{!MemberStatuses} `{!ChannelTypes}.
Context `{PostgresLaws (database U) W} `{Clock W} `{!PermissionLib} `{!PermissionLaws} `{!ChannelPermissions}.
Context `{ValkeyLaws W} `{!JwtLib} `{!ChannelGateway W} `{!AuditLog U W} `{!ChannelEventNames} `{!Searcher W}.
Context `{ApiErrors} `{!ChannelErrors} `{TimeFormat}.
Abbreviation view := (pg_view (DB := database U) (W := W)).
Context `{!ValkeyFrame view} `{!PgFrame (database U) (vk_view (W := W))} `{!SearcherFrame view}.
Context `{!ChannelFrame (U := U) view}.
Context (h : channel_handler).
Implicit Types (c : request U) (x : channel_route) (u ch : U) (d : database U) (w : W).

(** The tables of the guild, through their part of the database. *)
#[export] Instance guild_pg : Postgres (guild U) W := part guild_part.
#[export] Instance guild_pg_laws : PostgresLaws (guild U) W := part_PostgresLaws guild_part _.
#[export] Instance guild_pg_frame : PgFrame (guild U) (vk_view (W := W)) := part_PgFrame guild_part _ _.
#[export] Instance guild_vk_frame : ValkeyFrame (pg_view (DB := guild U) (W := W)) := part_ValkeyFrame guild_part _.
#[export] Instance guild_reads : ReadFrame (guild U) view := part_ReadFrame guild_part.

(** ** The middleware *)

(** What is asked of the cache survives what leaves the cache and the tables alone. *)
Class CacheProperty (J : W → Prop) : Prop :=
  cache_property : ∀ w w', J w → unchanged (U := U) w w' → J w'.
#[export] Instance coherent_CacheProperty : CacheProperty (coherent (U := U)).
Proof. intros w w'. apply coherent_unchanged. Qed.
#[export] Instance trusts_CacheProperty w0 : CacheProperty (trusts (U := U) w0).
Proof. intros w w'. apply trusts_unchanged. Qed.

Section gate.
Context (d : database U) (J : W → Prop) `{!CacheProperty J}.
(** The database as the request found it, and the cache as it may be. *)
Definition calm_at w : Prop := view w = d ∧ J w.
Definition standing u (s : string) : Prop := m_status <$> g_members (db_guild d) !! u = Some s.

Lemma calm_at_same w w' : calm_at w → view w' = view w → vk_view w' = vk_view w → calm_at w'.
Proof.
  intros [Hd Hc] Hv Hk. split; [congruence|]. eapply cache_property; [exact Hc|].
  split; simpl; [by rewrite Hv|]. intros k. unfold cached_perm. by rewrite Hk.
Qed.
#[export] Instance calm_Reading : Reading (database U) calm_at.
Proof.
  split. intros A q w r w' Hq Hi E. eapply calm_at_same; [exact Hi|..].
  - exact (keeps_run view _ _ _ _ (read_query_keeps (ReadFrame := ReadFrame_view) q Hq) E).
  - exact (keeps_run vk_view _ _ _ _ (pg_query_keeps q) E).
Qed.
Lemma finds_at {A} (m : M W A) gone f : finds calm_at m gone f → asks (DB := database U) calm_at m (λ _ a, f d = Some a).
Proof.
  intros Hm w r w' Hi E. destruct (Hm _ _ _ Hi E) as (Hj & Hv & Hr). split_and!; [done..|].
  destruct r; [|done]. by rewrite (proj1 Hi) in Hr.
Qed.
Lemma GetStatus_finds u : finds calm_at (MemberRepo.GetStatus u) MemberRepo.ErrNotFound
  (λ d, m_status <$> g_members (db_guild d) !! u).
Proof.
  apply (finds_row _ (within guild_part (select_status u))).
  - intros d0. unfold within, select_status, row_or_none. simpl. destruct (m_status <$> _); by destruct d0.
  - intros e He. unfold on_err, ErrNoRows. rewrite from_driver_Is by done. apply from_driver_Is. by apply from_driver_wrap.
Qed.
Lemma GetStatus_at u : asks (DB := database U) calm_at (MemberRepo.GetStatus u) (λ _ s, standing u s).
Proof. exact (finds_at _ _ _ (GetStatus_finds u)). Qed.
End gate.

(** The world of a request that arrived in [w0]. *)
Section arrival.
Context (w0 : W).
Abbreviation arrived := (calm_at (view w0) (trusts (U := U) w0)).
Context (Hwf : db_wf (guild_perms (db_guild (view w0)))).
Lemma HasPermission_at u ch p :
  asks (DB := database U) arrived (HasPermission u ch p) (λ _ b, b = true → allowed_at (U := U) w0 u ch p).
Proof.
  intros w r w' [Hd Ht] E. edestruct (HasPermission_trusts w0 u ch p w) as (_ & Ht' & Hp); [exact Hwf|exact Ht|exact E|].
  pose proof (keeps_run view _ _ _ _ (frame_HasPermission view u ch p) E) as Hv.
  split_and!; [split; [congruence|done]|done|]. destruct r; [|done]. intros ->. by apply Hp.
Qed.
Context (Hnil : g_channels (db_guild (view w0)) !! uuid_Nil = None).
Lemma HasServerPermission_at u p :
  asks (DB := database U) arrived (HasServerPermission u p) (λ _ b, b = true → allowed_on (U := U) w0 u p).
Proof.
  intros w r w' [Hd Ht] E. edestruct (HasServerPermission_trusts w0 u p w) as (_ & Ht' & Hp); [exact Hwf|exact Hnil|exact Ht|exact E|].
  pose proof (keeps_run view _ _ _ _ (frame_HasServerPermission view u p) E) as Hv.
  split_and!; [split; [congruence|done]|done|]. destruct r; [|done]. intros ->. by apply Hp.
Qed.
End arrival.

(** ** The handlers *)
Abbreviation any := (λ _ : W, True).
#[local] Instance any_stable : Stable (database U) any := free_Stable.
Abbreviation quiet m := (asks (DB := database U) any m (λ _ _, True)).
Abbreviation step := (channel_step (maxChannels h) (maxCategories h)).
Abbreviation maybe u := (λ d d', d' = d ∨ step u d d').
Lemma quiet_keeps {A} (m : M W A) : keeps view m → quiet m.
Proof. intros Hm w r w' _ E. split_and!; [done|exact (keeps_run view _ _ _ _ Hm E)|by destruct r]. Qed.
Lemma quiet_UserID c : quiet (UserID c).
Proof. eapply asks_idle, UserID_asks. Qed.
Lemma quiet_GetStatus u : quiet (MemberRepo.GetStatus (W := W) u).
Proof. apply quiet_keeps, keeps_map_err, read_query_keeps. intros d0. unfold select_status. by destruct (_ <$> _). Qed.
Lemma quiet_Filter u chs p : quiet (FilterPermitted u chs p).
Proof. apply quiet_keeps, frame_FilterPermitted; exact _. Qed.
Lemma quiet_Onboarding : quiet (OnboardingRepo.Get (U := U) (W := W)).
Proof. apply quiet_keeps, frame_row; exact _. Qed.
Lemma quiet_List : quiet (ChannelRepo.List (U := U) (W := W)).
Proof. apply idle_wrap. use idle_select. Qed.
Lemma quiet_GetByID id : quiet (ChannelRepo.GetByID (U := U) (W := W) id).
Proof. eapply asks_idle. use Channel_GetByID_asks. Qed.
Lemma quiet_search p : quiet (searcher_Search p).
Proof. apply quiet_keeps, search_keeps. Qed.
#[local] Hint Resolve quiet_search quiet_UserID quiet_GetStatus quiet_Filter quiet_Onboarding quiet_List quiet_GetByID : idle.
Lemma ListChannels_idle c : quiet (ListChannels (W := W) c).
Proof. unfold ListChannels, listWelcomeChannel, listPermittedChannels. idle. Qed.
Lemma idle_instant {A} c p msg (k : Z → M W (response A)) : (∀ n, quiet (k n)) → quiet (ParseInstant c p msg k).
Proof. intros Hk. unfold ParseInstant. idle. Qed.
Lemma Search_idle u q o : quiet (Search (W := W) u q o).
Proof. unfold Search. idle. Qed.
Lemma mapSearchError_declines {A} I e : declines (DB := database U) I (mapSearchError (W := W) (A := A) e).
Proof. unfold mapSearchError. repeat match goal with |- declines _ (if ?b then _ else _) => destruct b end; auto with declines. Qed.
Lemma SearchMessages_idle c : quiet (SearchMessages (W := W) c).
Proof.
  unfold SearchMessages. idle. apply idle_instant. intros before. apply idle_instant. intros after.
  apply idle_int. intros page. apply idle_int. intros perPage. idle; [apply Search_idle|].
  apply idle_declines, mapSearchError_declines.
Qed.

Lemma reads_maybe {A} (m : M W (response A)) u : quiet m → serves any m (maybe u).
Proof. intros Hm. apply serves_idle; [done|]. by left. Qed.
Lemma steps_maybe {A} (m : M W (response A)) u : serves any m (step u) → serves any m (maybe u).
Proof. intros Hm. eapply serves_weaken; [exact Hm|]. by right. Qed.
Lemma serve_channel_steps x c u : Locals_userID c = Some u → serves any (serve_channel h x c) (maybe u).
Proof.
  intros Hu. destruct x; simpl; apply serves_respond.
  - apply reads_maybe, ListChannels_idle.
  - apply steps_maybe. by use CreateChannel_serves.
  - apply reads_maybe. use GetChannel_idle.
  - by use UpdateChannel_serves.
  - apply steps_maybe. by use DeleteChannel_serves.
  - apply reads_maybe. use ListCategories_idle.
  - apply steps_maybe. by use CreateCategory_serves.
  - by use UpdateCategory_serves.
  - apply steps_maybe. by use DeleteCategory_serves.
  - apply reads_maybe, SearchMessages_idle.
Qed.

(** ** The routes *)

(** What the caller of a route must be allowed, by what the resolver knows when the request
    arrives. *)
Definition in_path u (p : Z) c w : Prop :=
  ∃ ch, uuid_Parse (Http.Params c "channelID") = Ok ch ∧ allowed_at (U := U) w u ch p.
Definition rights x c u w : Prop :=
  let member := active u (db_guild (view w)) in
  match x with
  | RListChannels => True
  | RListCategories | RSearch => member
  | RCreateChannel _ => member ∧ allowed_on (U := U) w u ManageChannels
  | RGetChannel => member ∧ in_path u ViewChannels c w
  | RUpdateChannel _ | RDeleteChannel => member ∧ in_path u ManageChannels c w
  | RCreateCategory _ | RUpdateCategory _ | RDeleteCategory => member ∧ allowed_on (U := U) w u ManageCategories
  end.
(** What a request showed of its caller. *)
Record may_request (cfg : Config) x c w (u : U) : Prop := {
  req_token : ∃ tok src claims,
    credential cfg c = Some (Some (tok, src)) ∧
    (ValidateAccessToken tok (Expose (JWTSecret cfg)) (ServerURL cfg) w).1 = Ok claims ∧
    uuid_Parse (Subject claims) = Ok u ∧ EmailVerified claims = true ∧
    (src = AuthSourceCookie → safe_method (Method c) = false →
     Header c "X-CSRF-Token" = Cookies c (CSRFCookieName cfg) ∧ Header c "X-CSRF-Token" ≠ ""%string);
  req_rights : rights x c u w }.

Lemma served_channel cfg x c w r w' :
  db_wf (guild_perms (db_guild (view w))) → db_channels (view w) !! uuid_Nil = None →
  synced (view w) = view w → channel_routes h cfg x c w = (r, w') →
  (view w' = view w ∧ ¬ succeeded r) ∨
  ∃ u, may_request cfg x c w u ∧ (view w' = view w ∨ step u (view w) (view w')).
Proof.
  intros Hwf Hnil Hsync E. unfold channel_routes in E.
  apply identified in E as [(u & c' & (tok & src & claims & Hcred & Htok & Hs & -> & Hcsrf) & Hu & E)|[-> ?]]; [|by left].
  assert (Hn : g_channels (db_guild (view w)) !! uuid_Nil = None)
    by (apply synced_eq in Hsync as [-> _]; by rewrite lookup_fmap, Hnil).
  destruct (protect_reaches (DB := database U) (calm_at (view w) (trusts (U := U) w)) (standing (view w))
    (allowed_at (U := U) w) (allowed_on (U := U) w) (GetStatus_at (view w) _) (HasPermission_at w Hwf)
    (channel_access x) (serve_channel h x) _ u Hu (λ p _, HasServerPermission_at w Hwf Hn u p) _ _ _
    (conj eq_refl (trusts_refl w)) E)
    as [(w1 & _ & Hv & He & E1)|(_ & ? & ?)]; [|by left].
  destruct (serve_channel_steps x _ u Hu _ _ _ I E1) as [_ [Hst|[Hv' ?]]]; rewrite Hv in *; [|by left].
  right. exists u. split; [|done].
  pose proof (ent_verified _ _ _ _ _ _ He) as Hver. pose proof (ent_active _ _ _ _ _ _ He) as Ha. split.
  - exists tok, src, claims. split_and!; try done.
    assert (Hx : channel_access x ≠ Authenticated) by by destruct x. specialize (Hver Hx). simpl in Hver. congruence.
  - assert (Hact : channel_access x ≠ Verified → active u (db_guild (view w))).
    { intros Hx. destruct Ha as (s & Hst' & Hne); [by destruct x|done|]. unfold standing in Hst'.
      destruct (g_members _ !! u) as [m|] eqn:Em; [|done]. injection Hst' as <-. by exists m. }
    pose proof (ent_server _ _ _ _ _ _ He) as Hsrv. pose proof (ent_channel _ _ _ _ _ _ He) as Hch.
    destruct x; simpl; first [done|by apply Hact|split; [by apply Hact|]; first [by apply Hsrv|by apply (Hch _ eq_refl)]].
Qed.

(** C4: A request to one of the channel, category and search routes of the server that succeeds
    or changes the database carried a valid access token of its caller, whose address is verified,
    and with a cookie the CSRF token; by the tables the caller is an active member where the route
    asks for one; it has the permission the route asks for, on the server or in the channel of its
    path; and the database is as it was or took one step the rules allow.  Permissions are those
    the permission cache holds for the caller there when the request arrives, or else those of the
    tables; if the cache agrees with the tables then, they are those of the tables.  At the nil
    identifier, which is no channel's, the permissions on the server count as the channel's.  (The
    parts of the one database agree on its channels, [synced].) *)
Theorem channel_requests_authorised cfg x c w r w' :
  db_wf (guild_perms (db_guild (view w))) → db_channels (view w) !! uuid_Nil = None →
  synced (view w) = view w →
  channel_routes h cfg x c w = (r, w') → succeeded r ∨ view w' ≠ view w →
  ∃ u, may_request cfg x c w u ∧
    (view w' = view w ∨ channel_step (maxChannels h) (maxCategories h) u (view w) (view w')).
Proof.
  intros Hwf Hnil Hsync E Hs.
  destruct (served_channel _ _ _ _ _ _ Hwf Hnil Hsync E) as [[? ?]|?]; [by destruct Hs|done].
Qed.

(** C8: Whatever the channel, category or search request and however it ends, and whatever the
    permission cache holds, the database keeps its invariant: names, topics, positions and slow
    modes are in their bounds, a channel's category and creator exist, category positions are
    unique, the configured numbers of channels and categories are not exceeded, and after a
    deletion no invite, thread, attachment, read position, message or welcome channel refers to
    what is gone. *)
Theorem channel_requests_keep_invariant cfg x c w r w' :
  db_wf (guild_perms (db_guild (view w))) → db_channels (view w) !! uuid_Nil = None →
  database_ok (maxChannels h) (maxCategories h) (view w) →
  channel_routes h cfg x c w = (r, w') →
  database_ok (maxChannels h) (maxCategories h) (view w').
Proof.
  intros Hwf Hnil Hok E.
  destruct (served_channel _ _ _ _ _ _ Hwf Hnil (ok_synced _ _ _ Hok) E) as [[-> _]|(u & _ & [->|Hs])]; [done..|].
  by eapply channel_step_ok.
Qed.
End server.
