(* ===== verification/ChannelReads.v ===== *)
(** * What the channel list and the search let a caller see

    [ListChannels] answers with a reference list computed from the tables; [SearchMessages]
    answers with messages of channels that exist and that the caller may view, whatever the
    backend holds.  Both follow the program at the database of the request, with a cache that
    agrees with it (ChannelRoutes.v). *)
From stdpp Require Import sorting.
From S2P Require Import Prelude GoStd Platform Permission PermCache Validate Config Jwt Postgres Frames Domain.
From S2P Require Import GuildTables GuildRepo Http MemberApi ApiLogic GuildStore ResolverFrame Routes.
From S2P Require Import ChatTables ChatModel ChatLogic RouteGate ChatProofs Database ChannelTables ChannelRepos ChannelApi.
From S2P Require Import ChannelSpec ChannelProofs SearchApi ChannelRoutes.
Open Scope Z_scope.

Section reads.
Context {U W : Type} `{UUIDLaws U} `{!RandomUUID U} `{!MemberStatuses}.
Context `{PostgresLaws (database U) W} `{!PermissionLib} `{!PermissionLaws} `{ValkeyLaws W} `{!Searcher W}.
Context `{ApiErrors} `{!ChannelErrors} `{TimeFormat}.
Abbreviation view := (pg_view (DB := database U) (W := W)).
Context `{!ValkeyFrame view} `{!PgFrame (database U) (vk_view (W := W))}.
Context `{!SearcherLaws (U := U) W} `{!SearcherFrame view} `{!SearcherFrame (vk_view (W := W))}.
Implicit Types (c : request U) (u : U) (d : database U) (w : W).

(** ** What the list is to show *)
Definition welcomed d : list (Channel.Channel U) :=
  match (cfg ← g_onboarding (db_guild d); id ← Onboarding.WelcomeChannelID cfg; db_channels d !! id) with
  | Some ch => [ch] | None => [] end.
(** [ok] says which channels the caller may view. *)
Definition visible_channels u (ok : U → bool) d : list Models.Channel :=
  match m_status <$> g_members (db_guild d) !! u with
  | None => []
  | Some s => Channel.ToModel <$>
      (if bool_decide (s = MemberStatusPending) then welcomed d
       else filter (λ ch, ok (Channel.ID ch) = true) (channels_listed d))
  end.
Definition may_view u (ok : U → bool) d : Prop :=
  ∀ ch p, effective (guild_perms (db_guild d)) u ch p → ok ch = perm_Has p ViewChannels.
(** A channel, by the text of its identifier, that exists and that the caller may view. *)
Definition in_sight u d (s : string) : Prop :=
  ∃ id, s = uuid_String id ∧ has_channel id d ∧
    ∃ p, effective (guild_perms (db_guild d)) u id p ∧ perm_Has p ViewChannels = true.

Lemma elem_channels_listed d ch :
  ch ∈ channels_listed d ↔ ∃ id, db_channels d !! id = Some ch.
Proof.
  unfold channels_listed. rewrite (merge_sort_Permutation by_place), list_elem_of_fmap. split.
  - intros ([id x] & -> & Hx%elem_of_map_to_list). by exists id.
  - intros [id Hx%elem_of_map_to_list]. by exists (id, ch).
Qed.
Lemma permitted_channels_filter (ok : U → bool) (l : list (Channel.Channel U)) bs :
  Forall2 (λ ch b, b = ok (Channel.ID ch)) l bs →
  permitted_channels l bs = filter (λ ch, ok (Channel.ID ch) = true) l.
Proof.
  induction 1 as [|ch b l bs -> _ IH]; simpl; [done|]. destruct (ok (Channel.ID ch)) eqn:Eo.
  - rewrite filter_cons_True by done. by rewrite IH.
  - rewrite filter_cons_False by congruence. done.
Qed.

(** ** At the database of the request *)
Section at_database.
Context (d : database U) (maxChannels maxCategories : Z).
Context (Hwf : db_wf (guild_perms (db_guild d))) (Hok : database_ok maxChannels maxCategories d).
Context (Hnil : db_channels d !! uuid_Nil = None) (Hview : perm_Has AllPermissions ViewChannels = true).
Abbreviation calm := (calm_at d (coherent (U := U))).
Abbreviation sees := (effective (guild_perms (db_guild d))).

Lemma listed_channel ch : ch ∈ channels_listed d → db_channels d !! Channel.ID ch = Some ch.
Proof. intros [id Hid]%elem_channels_listed. by rewrite (ok_id _ _ _ (ok_channels _ _ _ Hok _ _ Hid)). Qed.
Lemma List_at : asks (DB := database U) calm (ChannelRepo.List (U := U) (W := W)) (λ _ l, l = channels_listed d).
Proof.
  intros w r w' Hi E. destruct (asks_wrap calm "query channels" _ (λ d0 l, l = channels_listed d0)
    (asks_reading calm (gets channels_listed) _ (λ d0, conj eq_refl eq_refl)) _ _ _ Hi E) as (? & ? & Hr).
  split_and!; [done..|]. destruct r; [|done]. by rewrite (proj1 Hi) in Hr.
Qed.
Lemma GetByID_finds id : finds calm (ChannelRepo.GetByID (W := W) id) ChannelRepo.ErrNotFound (λ d, db_channels d !! id).
Proof.
  refine (finds_row _ (select_channel_row id) _ _ _ _ _).
  - intros d0. unfold select_channel_row, the_row. by destruct (_ !! id).
  - intros e He. unfold on_err, ErrNoRows. rewrite from_driver_Is by (by apply from_driver_wrap).
    apply from_driver_Is. by do 2 apply from_driver_wrap.
Qed.
Lemma Onboarding_at : asks (DB := database U) calm (OnboardingRepo.Get (U := U) (W := W))
  (λ _ cfg, g_onboarding (db_guild d) = Some cfg).
Proof.
  refine (finds_at d _ _ OnboardingRepo.ErrNotFound (λ d, g_onboarding (db_guild d)) _).
  apply (finds_row _ (within guild_part select_onboarding)).
  - intros d0. unfold within, select_onboarding, row_or_none. simpl. by destruct (g_onboarding _), d0.
  - intros e He. unfold OnboardingRepo.config_not_found, on_err, ErrNoRows.
    rewrite from_driver_Is by (by apply from_driver_wrap). apply from_driver_Is. by do 2 apply from_driver_wrap.
Qed.
Lemma at_guild {w} : calm w → pg_view (DB := guild U) w = db_guild d ∧ coherent (U := U) w.
Proof. intros [Hd ?]. split; [|done]. simpl. by rewrite Hd. Qed.
Lemma Filter_at u l : l = channels_listed d →
  asks (DB := database U) calm (FilterPermitted u (Channel.ID <$> l) ViewChannels)
    (λ _ bs, Forall2 (λ ch b, ∃ p, sees u (Channel.ID ch) p ∧ b = perm_Has p ViewChannels) l bs).
Proof.
  intros -> w r w' Hi E. pose proof (at_guild Hi) as [Hg Hc].
  assert (Hs : serverPermKey ∉ Channel.ID <$> channels_listed d).
  { intros (ch & Hid & Hch%listed_channel)%list_elem_of_fmap. rewrite <-Hid in Hch. unfold serverPermKey in Hch. by rewrite Hch in Hnil. }
  pose proof Hwf as Hwf'. rewrite <-Hg in Hwf'.
  edestruct (FilterPermitted_spec u (Channel.ID <$> channels_listed d) ViewChannels w) as (_ & Hc' & Hans); [done..|exact E|].
  pose proof (keeps_run view _ _ _ _ (frame_FilterPermitted view u _ _) E) as Hv. destruct Hi as [Hd _].
  split_and!; [split; [congruence|done]|done|]. destruct r as [bs|]; [|done].
  specialize (Hans _ eq_refl). simpl in Hans. rewrite Hd in Hans. by apply Forall2_fmap_l in Hans.
Qed.

Abbreviation tells u ok m x := (shows calm (λ d', d' = d ∧ may_view u ok d) m (λ _, x)).
Lemma welcome_shows u ok : tells u ok (listWelcomeChannel (U := U) (W := W)) (Channel.ToModel <$> welcomed d).
Proof.
  refine (shows_fact _ _ _ _ _ _ _ Onboarding_at _ _); [auto with declines|]. intros cfg Hcfg.
  unfold welcomed. rewrite Hcfg. simpl. destruct (Onboarding.WelcomeChannelID cfg) as [id|]; simpl;
    [|by apply shows_success].
  refine (shows_row _ _ _ _ _ _ _ _ _ (GetByID_finds id) _ _ _); [|auto with declines|intros ch];
    apply shows_success; intros d' [[-> _] Hch]; by rewrite Hch.
Qed.
Lemma permitted_shows u ok :
  tells u ok (listPermittedChannels (W := W) u)
    (Channel.ToModel <$> filter (λ ch, ok (Channel.ID ch) = true) (channels_listed d)).
Proof.
  refine (shows_fact _ _ _ _ _ _ _ List_at _ _); [auto with declines|]. intros l Hl.
  refine (shows_fact _ _ _ _ _ _ _ (Filter_at u l Hl) _ _); [auto with declines|]. intros bs Hbs.
  apply shows_success. intros _ [_ Hv]. rewrite (permitted_channels_filter ok); [by subst l|].
  eapply Forall2_impl; [exact Hbs|]. intros ch b (p & Hp & ->). symmetry. by apply Hv.
Qed.
Lemma list_shows c u ok : Locals_userID c = Some u → tells u ok (ListChannels (W := W) c) (visible_channels u ok d).
Proof.
  intros Hu. apply (shows_UserID _ _ _ u); [done|]. unfold visible_channels.
  refine (shows_row _ _ _ _ _ _ _ _ _ (GetStatus_finds d _ u) _ _ _); [|auto with declines|intros s].
  - apply shows_success. intros d' [[-> _] ->]. done.
  - destruct (decide (m_status <$> g_members (db_guild d) !! u = Some s)) as [Hs|Hs].
    + rewrite Hs. destruct (bool_decide_reflect (s = MemberStatusPending)).
      * eapply asks_weaken; [apply (welcome_shows u ok)|]. intros d' b Hb [? _]. by apply Hb.
      * eapply asks_weaken; [apply (permitted_shows u ok)|]. intros d' b Hb [? _]. by apply Hb.
    + destruct (bool_decide_reflect (s = MemberStatusPending));
        (eapply asks_weaken; [first [apply (welcome_shows u ok)|apply (permitted_shows u ok)]|by intros d' b _ [[-> _] ?]]).
Qed.

(** ** Search *)
Lemma allowed_in_sight u (l : list (Channel.Channel U)) bs s : l ⊆ channels_listed d →
  Forall2 (λ ch b, ∃ p, sees u (Channel.ID ch) p ∧ b = perm_Has p ViewChannels) l bs →
  s ∈ allowed_ids (Channel.ID <$> l) bs → in_sight u d s.
Proof.
  intros Hl Hbs. induction Hbs as [|ch b l bs (p & Hp & ->) _ IH]; [by intros ?%elem_of_nil|].
  unfold allowed_ids. simpl. destruct (perm_Has p ViewChannels) eqn:Eb; [intros [->|Hin]%elem_of_cons|].
  - exists (Channel.ID ch). split_and!; [done| |by exists p]. exists ch. apply listed_channel, Hl. by left.
  - apply IH; [|done]. intros x Hx. apply Hl. by right.
  - apply IH. intros x Hx. apply Hl. by right.
Qed.
Lemma searched u params ids : Forall (in_sight u d) ids → p_ChannelIDs params = ids →
  p_AuthorID params = ""%string ∨ (∃ a : U, uuid_Parse (p_AuthorID params) = Ok a) →
  asks (DB := database U) calm (searcher_Search params) (λ _ r, Forall (λ x, in_sight u d (doc_ChannelID (hit_Document x))) (Hits r)).
Proof.
  intros Hids <- Ha w r w' Hi E.
  pose proof (keeps_run view _ _ _ _ (search_keeps params) E) as Hv.
  pose proof (keeps_run (vk_view (W := W)) _ _ _ _ (search_keeps params) E) as Hk.
  split_and!; [refine (calm_at_same _ _ _ _ Hi Hv Hk)|done|]. destruct r as [res_|]; [|done].
  assert (Hc : Forall (λ s, ∃ a : U, s = uuid_String a) (p_ChannelIDs params))
    by (eapply Forall_impl; [exact Hids|]; intros s (a & -> & _); by exists a).
  eapply Forall_impl; [exact (search_scoped params w res_ w' Hc Ha E)|]. intros x Hx.
  exact (proj1 (Forall_forall _ _) Hids _ Hx).
Qed.
Lemma good_filter (s : string) : bad_filter (U := U) s = false → s = ""%string ∨ (∃ a : U, uuid_Parse s = Ok a).
Proof.
  unfold bad_filter. destruct (bool_decide_reflect (s = ""%string)); [by left|right]. simpl in *.
  destruct (uuid_Parse s); [eauto|done].
Qed.
Definition confined u (page perPage : Z) (r : SearchResponse) : Prop :=
  sr_Page r = page ∧ sr_PerPage r = perPage ∧ Forall (λ x, in_sight u d (sh_ChannelID x)) (sr_Hits r).
Lemma empty_confined u page perPage : asks (DB := database U) calm (mret (emptyResponse page perPage)) (λ _, confined u page perPage).
Proof. apply asks_ret. intros _. by split_and!; [..|constructor]. Qed.
Lemma run_confined u params ids : Forall (in_sight u d) ids → p_ChannelIDs params = ids →
  p_AuthorID params = ""%string ∨ (∃ a : U, uuid_Parse (p_AuthorID params) = Ok a) →
  asks (DB := database U) calm (result ← searcher_Search params;
     mret (mkSearchResponse (Found result) (p_Page params) (p_PerPage params) (to_hit <$> Hits result)))
    (λ _, confined u (p_Page params) (p_PerPage params)).
Proof.
  intros Hi He Ha. refine (asks_fact _ _ _ _ _ (searched u params ids Hi He Ha) _). intros res_ Hres.
  apply asks_ret. intros _. split_and!; [done..|]. simpl. by apply Forall_fmap.
Qed.
Lemma Search_at u q o :
  asks (DB := database U) calm (Search u q o) (λ _, confined u (opt_Page o) (opt_PerPage o)).
Proof.
  unfold Search. destruct (bool_decide _); [apply asks_fail|]. destruct (bad_filter (opt_ChannelID o)); [apply asks_fail|].
  destruct (bad_filter (opt_AuthorID o)) eqn:Ha; [apply asks_fail|]. apply good_filter in Ha.
  refine (asks_fact _ _ _ _ _ (asks_wrap _ _ _ _ List_at) _). intros l Hl. cbv zeta.
  refine (asks_fact _ _ _ _ _ (asks_wrap _ _ _ _ (Filter_at u l Hl)) _). intros bs Hbs.
  assert (Hids : Forall (in_sight u d) (allowed_ids (Channel.ID <$> l) bs)).
  { apply Forall_forall. intros s Hs. eapply allowed_in_sight; [|exact Hbs|exact Hs]. by subst l. }
  destruct (negb _).
  - destruct (bool_decide_reflect (opt_ChannelID o ∈ allowed_ids (Channel.ID <$> l) bs)) as [Hin|]; [|apply empty_confined].
    refine (run_confined u (mkParams _ _ _ _ _ _ _) _ _ eq_refl Ha).
    apply Forall_singleton. exact (proj1 (Forall_forall _ _) Hids _ Hin).
  - destruct (allowed_ids _ _); [apply empty_confined|]. by refine (run_confined u (mkParams _ _ _ _ _ _ _) _ _ eq_refl Ha).
Qed.
Abbreviation finds_out u m := (asks (DB := database U) calm m (λ _ b, status b < 400 →
  ∃ r page perPage, content b = Data r ∧ 1 ≤ page ∧ 1 ≤ perPage ≤ MaxPerPage ∧ confined u page perPage r)).
Lemma declined u (m : M W (response SearchResponse)) : declines (DB := database U) calm m → finds_out u m.
Proof.
  intros Hm w r w' Hi E. apply Hm in E as (Hj & Hv & Hr); [|done]. split_and!; [done..|].
  destruct r; [|done]. intros Hs. by destruct Hr.
Qed.
Lemma instant_at u c p msg k : (∀ n, finds_out u (k n)) → finds_out u (ParseInstant c p msg k).
Proof.
  intros Hk. unfold ParseInstant. destruct (bool_decide _); [apply Hk|]. destruct (ParseInt _); [apply Hk|].
  apply declined. auto with declines.
Qed.
Lemma int_at u c p (k : Z → M W (response SearchResponse)) : (∀ n, finds_out u (k n)) → finds_out u (ParseIntQuery c p k).
Proof.
  intros Hk. unfold ParseIntQuery. destruct (bool_decide _); [apply Hk|]. destruct (ParseInt _); [apply Hk|].
  apply declined. auto with declines.
Qed.
Lemma ClampPagination_range page perPage : let '(page, perPage) := ClampPagination page perPage in
  1 ≤ page ∧ 1 ≤ perPage ≤ MaxPerPage.
Proof.
  unfold ClampPagination, DefaultPage, DefaultPerPage, MaxPerPage.
  destruct (Z.ltb_spec page 1), (Z.ltb_spec perPage 1); simpl; try destruct (Z.ltb_spec 100 perPage); lia.
Qed.
Lemma SearchMessages_at c u : Locals_userID c = Some u → finds_out u (SearchMessages c).
Proof.
  intros Hu. unfold SearchMessages, UserID. rewrite Hu.
  refine (asks_fact _ _ _ (λ v, v = u) _ (asks_ret _ u _ (λ _, eq_refl)) _). intros v ->. cbv zeta.
  destruct (bool_decide _); [apply declined; auto with declines|].
  destruct (bad_filter (Query c "channel_id")); [apply declined; auto with declines|].
  destruct (bad_filter (Query c "author_id")); [apply declined; auto with declines|].
  apply instant_at. intros before. apply instant_at. intros after. apply int_at. intros page. apply int_at. intros perPage.
  pose proof (ClampPagination_range page perPage) as Hc. destruct (ClampPagination page perPage) as [pg pp].
  intros w r w' Hi E. apply catch_inv in E as [(a & w1 & E1 & E)|(e & w1 & E1 & E)];
    apply Search_at in E1 as (Hj & Hv & Hr); try done.
  - injection E as <- <-. split_and!; [done..|]. intros _. exists a, pg, pp. split; [done|]. destruct Hc as [? ?]. split; [done|]. split; [done|exact Hr].
  - apply (mapSearchError_declines calm) in E as (Hj' & Hv' & Hn); [|done]. split_and!; [done|congruence|].
    destruct r; [|done]. intros Hs. by destruct Hn.
Qed.
End at_database.

(** C25: Listing the channels changes nothing in the database and keeps the cache coherent, and a
    successful answer is the reference list: nothing for a caller who is no member, the welcome
    channel, if there is one, for a pending member, and for an active one the channels it may
    view, in the order of position and creation. *)
Theorem ListChannels_correct maxChannels maxCategories c u w r w' :
  db_wf (guild_perms (db_guild (view w))) → coherent (U := U) w →
  database_ok maxChannels maxCategories (view w) → db_channels (view w) !! uuid_Nil = None →
  perm_Has AllPermissions ViewChannels = true → Locals_userID c = Some u →
  ListChannels c w = (r, w') →
  view w' = view w ∧ coherent (U := U) w' ∧
  ∀ ok resp, may_view u ok (view w) → r = Ok resp → status resp < 400 →
    content resp = Data (visible_channels u ok (view w)).
Proof.
  intros Hwf Hco Hok Hnil Hview Hu E.
  assert (Hk := λ ok, list_shows (view w) maxChannels maxCategories Hwf Hok Hnil Hview c u ok Hu _ _ _ (conj eq_refl Hco) E).
  destruct (Hk (λ _, true)) as ([_ Hc] & Hv & _). split_and!; [done..|]. intros ok resp Hok' -> Hs.
  destruct (Hk ok) as (_ & _ & Hr). by apply Hr.
Qed.

(** Whatever the searcher, as long as its hits lie in the channels it was asked for. *)
Lemma SearchMessages_scoped maxChannels maxCategories c u w r w' :
  db_wf (guild_perms (db_guild (view w))) → coherent (U := U) w →
  database_ok maxChannels maxCategories (view w) → db_channels (view w) !! uuid_Nil = None →
  perm_Has AllPermissions ViewChannels = true → Locals_userID c = Some u →
  SearchMessages c w = (r, w') →
  view w' = view w ∧ coherent (U := U) w' ∧
  ∀ resp, r = Ok resp → status resp < 400 → ∃ found, content resp = Data found ∧
    1 ≤ sr_Page found ∧ 1 ≤ sr_PerPage found ≤ 100 ∧
    Forall (λ x, in_sight u (view w) (sh_ChannelID x)) (sr_Hits found).
Proof.
  intros Hwf Hco Hok Hnil Hview Hu E.
  destruct (SearchMessages_at (view w) maxChannels maxCategories Hwf Hok Hnil Hview c u Hu _ _ _ (conj eq_refl Hco) E)
    as ([_ Hc] & Hv & Hr). split_and!; [done..|]. intros resp -> Hs.
  destruct (Hr Hs) as (found & pg & pp & Hd & Hpg & Hpp & (<- & <- & Hf)). by exists found.
Qed.
End reads.

(** ** With the searcher of the server: Typesense over HTTP *)
Section typesense.
Context {U W : Type} `{UUIDLaws U} `{!RandomUUID U}.
Context `{PostgresLaws (database U) W} `{!PermissionLib} `{!PermissionLaws} `{ValkeyLaws W}.
Context `{ApiErrors} `{!ChannelErrors}.
Abbreviation view := (pg_view (DB := database U) (W := W)).
Context `{!ValkeyFrame view} `{!PgFrame (database U) (vk_view (W := W))}.
Context `{!SearchClient W} `{!TypesenseFilters (U := U) W} (apiKey : string).
(** The HTTP call to the backend changes neither the database nor the cache. *)
Context (client_view : ∀ rq, keeps view (client_Do rq)) (client_vk : ∀ rq, keeps (vk_view (W := W)) (client_Do rq)).
Implicit Types (c : request U) (u : U) (w : W).

(** C26: Search is confined to what the caller may see.  With the searcher of the server, a
    backend that applies [filter_by] as Typesense documents it (the class [TypesenseFilters]) and a
    permission cache that agrees with the tables when the request arrives, whatever the filters of
    the request and whatever documents the backend holds: the database is unchanged, the cache
    agrees still, and every message in a successful answer lies in a channel that exists and in
    which the caller has ViewChannels by the tables; the page is at least one and its size between
    one and a hundred. *)
Theorem SearchMessages_confined maxChannels maxCategories c u w r w' :
  db_wf (guild_perms (db_guild (view w))) → coherent (U := U) w →
  database_ok maxChannels maxCategories (view w) → db_channels (view w) !! uuid_Nil = None →
  perm_Has AllPermissions ViewChannels = true → Locals_userID c = Some u →
  SearchMessages (Searcher0 := TypesenseSearcher apiKey) c w = (r, w') →
  view w' = view w ∧ coherent (U := U) w' ∧
  ∀ resp, r = Ok resp → status resp < 400 → ∃ found, content resp = Data found ∧
    1 ≤ sr_Page found ∧ 1 ≤ sr_PerPage found ≤ 100 ∧
    Forall (λ x, in_sight u (view w) (sh_ChannelID x)) (sr_Hits found).
Proof.
  refine (SearchMessages_scoped (Searcher0 := TypesenseSearcher apiKey) _ _ _ _ _ _ _).
  - exact (Typesense_scoped apiKey).
  - by apply Typesense_keeps.
  - by apply Typesense_keeps.
Qed.
End typesense.
