(* ===== verification/ChannelWitness.v ===== *)
(** * A concrete server with channels, categories and a search index

    The people of GuildWitness.v and the messages of ChatWitness.v in one database with two
    channels, one of them in a category whose override hides it; a server that never fails, an
    in-memory Valkey, and a search backend that answers with its documents of the channels its
    filter names. *)
From Stdlib Require Import Ascii.
From S2P Require Import Prelude GoStd Platform Permission PermCache PermWitness Validate Config Jwt Postgres Frames Domain.
From S2P Require Import GuildTables GuildRepo Http MemberApi ApiLogic GuildStore ResolverFrame Routes ChatTables ChatModel ChatSpec.
From S2P Require Import ChatLogic RouteGate Database ChannelTables ChannelRepos ChannelApi ChannelSpec ChannelProofs.
From S2P Require Import SearchApi ChannelRoutes ChannelReads.
From S2P Require GuildWitness ChatWitness.
Open Scope Z_scope.
Import GuildWitness (olga, mona, tony, everyone, mods, hall).

(** ** The world *)
Record world := mkWorld {
  w_ks : keyspace; w_db : database cuuid; w_tx : option (database cuuid); w_now : Z;
  w_events : list (string * ChannelEvents.payload); w_audit : list (Audit.Entry cuuid);
  w_index : list Document }.
#[local] Instance world_ks : HasKeyspace world := {|
  ks_of := w_ks;
  ks_put := λ k w, mkWorld k (w_db w) (w_tx w) (w_now w) (w_events w) (w_audit w) (w_index w);
  ks_of_put := λ _ _, eq_refl |}.
#[local] Existing Instance mem_Valkey.
#[local] Existing Instance mem_ValkeyLaws.
#[local] Instance world_tables : HasTables (database cuuid) world := {|
  db_of := w_db; tx_of := w_tx;
  db_put := λ d w, mkWorld (w_ks w) d (w_tx w) (w_now w) (w_events w) (w_audit w) (w_index w);
  tx_put := λ t w, mkWorld (w_ks w) (w_db w) t (w_now w) (w_events w) (w_audit w) (w_index w);
  db_of_put := λ _ _, eq_refl; tx_of_put := λ _ _, eq_refl; db_of_tx_put := λ _ _, eq_refl |}.
#[local] Instance world_pg : Postgres (database cuuid) world := mem_Postgres.
#[local] Instance world_pg_laws : PostgresLaws (database cuuid) world := mem_PostgresLaws.
#[local] Instance world_clock : Clock world := {| time_Now := w_now |}.
#[local] Instance world_gateway : ChannelGateway world := {| channel_Enqueue := λ ev p w,
  mkWorld (w_ks w) (w_db w) (w_tx w) (w_now w) (w_events w ++ [(ev, p)]) (w_audit w) (w_index w) |}.
#[local] Instance world_audit : AuditLog cuuid world := {| audit_Record := λ e w,
  mkWorld (w_ks w) (w_db w) (w_tx w) (w_now w) (w_events w) (w_audit w ++ [e]) (w_index w) |}.
(** ** The search backend *)

(** It reads the identifiers after channel_id: in the filter_by of the request and answers with its
    documents of these channels; the query matches them all. *)
Fixpoint cut (n : nat) (s : string) : string * string :=
  match n, s with
  | S n, String c s => let '(a, b) := cut n s in (String c a, b)
  | _, _ => (""%string, s)
  end.
Lemma cut_app (a b : string) : cut (String.length a) (a +:+ b) = (a, b).
Proof.
  induction a as [|c a IH]; [by destruct b|]. change (String c a +:+ b) with (String c (a +:+ b)). simpl.
  by rewrite IH.
Qed.
Fixpoint read_ids (n : nat) (s : string) : list string :=
  match n with
  | O => []
  | S n =>
      if bool_decide (String.get 0 s = Some "]"%char) then []
      else let '(a, b) := cut 36 s in
           a :: match b with String c b => if bool_decide (c = ","%char) then read_ids n b else [] | _ => [] end
  end.
Definition filter_ids (s : string) : list string := read_ids (String.length s) (cut 12 s).2.
Lemma text_assoc (a b c : string) : ((a +:+ b) +:+ c = a +:+ b +:+ c)%string.
Proof.
  induction a as [|x a IH]; [done|]. change (String x ((a +:+ b) +:+ c) = String x (a +:+ b +:+ c)).
  by rewrite IH.
Qed.
Lemma text_end (a : string) : (a +:+ "" = a)%string.
Proof. induction a as [|x a IH]; [done|]. change (String x (a +:+ "") = String x a)%string. by rewrite IH. Qed.
Lemma text_bytes (s : string) : length (bytes_of s) = String.length s.
Proof. induction s as [|c s IH]; [done|]. simpl. by f_equal. Qed.
Lemma uuid_text (u : cuuid) (tl : string) :
  cut 36 (uuid_String u +:+ tl) = (uuid_String u, tl) ∧ String.get 0 (uuid_String u +:+ tl) ≠ Some "]"%char.
Proof.
  destruct u as [s Hs]. cbn [uuid_String cuuid_UUIDLib proj1_sig]. unfold canonical in Hs. rewrite text_bytes in Hs.
  apply andb_prop in Hs as [Hn%Nat.eqb_eq Hs]. split.
  - by rewrite <-Hn, cut_app.
  - destruct s as [|c s]; [done|]. intros [= ->]. done.
Qed.
Lemma read_ids_Join n ids (tl s : string) :
  Forall (λ s, ∃ u : cuuid, s = uuid_String u) ids → s ∈ read_ids n (Join ids "," +:+ "]" +:+ tl) → s ∈ ids.
Proof.
  revert ids. induction n as [|n IH]; intros ids Hids Hs; [by apply elem_of_nil in Hs|].
  destruct Hids as [|x ids [u ->] Hids]; [by apply elem_of_nil in Hs|].
  assert (∃ rest, Join (uuid_String u :: ids) "," +:+ "]" +:+ tl = uuid_String u +:+ rest ∧
    (rest = "]" +:+ tl ∨ rest = String "," (Join ids "," +:+ "]" +:+ tl)))%string as (rest & Ht & Hrest).
  { destruct ids as [|y ids]; [by eexists; split; [|by left]|].
    exists (String "," (Join (y :: ids) "," +:+ "]" +:+ tl)). split; [|by right].
    change (Join (uuid_String u :: y :: ids) ",") with (uuid_String u +:+ "," +:+ Join (y :: ids) ",")%string.
    by rewrite !text_assoc. }
  rewrite Ht in Hs. destruct (uuid_text u rest) as [Hcut Hget]. cbn [read_ids] in Hs.
  rewrite bool_decide_eq_false_2, Hcut in Hs by done. apply elem_of_cons in Hs as [->|Hs]; [by left|right].
  destruct Hrest as [->| ->]; simpl in Hs; [by apply elem_of_nil in Hs|]. by apply IH.
Qed.
#[local] Instance Document_eq : EqDecision Document.
Proof. solve_decision. Defined.
#[local] Instance Highlight_eq : EqDecision Highlight.
Proof. solve_decision. Defined.
#[local] Instance Hit_eq : EqDecision Hit.
Proof. solve_decision. Defined.
#[local] Instance Result_eq : EqDecision Result.
Proof. solve_decision. Defined.
Lemma fmap_back {A B} (f : A → B) (g : B → A) (l : list A) : (∀ x, g (f x) = x) → g <$> (f <$> l) = l.
Proof. intros Hf. induction l as [|x l IH]; [done|]. cbn. by rewrite Hf, IH. Qed.
#[local] Instance Result_countable : Countable Result.
Proof.
  apply (inj_countable'
    (λ r, (Found r, (λ x, let d := hit_Document x in
       (doc_ID d, doc_Content d, doc_AuthorID d, doc_ChannelID d, doc_CreatedAt d,
        (λ l, (Field l, Snippets l)) <$> hit_Highlights x)) <$> Hits r))
    (λ p, mkResult p.1 ((λ '(i, t, a, c, n, l), mkHit (mkDocument i t a c n) ((λ y, mkHighlight y.1 y.2) <$> l)) <$> p.2))).
  intros [n l]. cbn. f_equal. apply fmap_back. intros [[] hl]. cbn. f_equal. apply fmap_back. by intros [].
Defined.
Definition write_result (r : Result) : string := bits (encode r).
Definition read_result (s : string) : res Result :=
  match decode (unbits s) with Some r => Ok r | None => Err (Plain "invalid JSON") end.
Lemma read_written r : read_result (write_result r) = Ok r.
Proof. unfold read_result, write_result. by rewrite unbits_bits, decode_encode. Qed.
Definition wanted (rq : search_request) (x : Document) : bool :=
  forallb (λ v, negb (bool_decide (v.1 = "filter_by"%string)) || bool_decide (doc_ChannelID x ∈ filter_ids v.2))
    (rq_values rq).
#[local] Instance world_search : SearchClient world := {|
  base_url_ok := true;
  client_Do := λ rq w,
    let hits := (λ x, mkHit x []) <$> filter (λ x, wanted rq x = true) (w_index w) in
    (Ok (200, write_result (mkResult (Z.of_nat (length hits)) hits)), w);
  decode_Result := read_result |}.
#[local] Instance world_filters : TypesenseFilters (U := cuuid) world.
Proof.
  split. intros ids rest rq w st body w' res_ Hids _ Hin [= <- <- _] _ Hd.
  cbn [decode_Result world_search] in Hd. rewrite read_written in Hd. injection Hd as <-. cbn [Hits].
  apply Forall_fmap, Forall_forall.
  intros x [Hx _]%list_elem_of_filter. unfold wanted in Hx. rewrite forallb_forall in Hx. specialize (Hx _ Hin).
  cbn [fst snd] in Hx. rewrite bool_decide_eq_true_2 in Hx by done. cbn [negb orb] in Hx.
  apply bool_decide_eq_true_1 in Hx. revert Hx. unfold filter_ids.
  assert (Ht : ∃ tl, (Join (("channel_id:[" +:+ Join ids "," +:+ "]") :: rest) " && " =
    "channel_id:[" +:+ (Join ids "," +:+ "]" +:+ tl))%string).
  { destruct rest as [|y rest]; [by exists ""%string; rewrite text_end|].
    exists (" && " +:+ Join (y :: rest) " && ")%string.
    change (Join (?x :: y :: rest) ?s) with (x +:+ s +:+ Join (y :: rest) s)%string. by rewrite !text_assoc. }
  destruct Ht as [tl ->]. change 12%nat with (String.length "channel_id:["). rewrite cut_app. apply read_ids_Join, Hids.
Qed.
#[local] Instance world_searcher : Searcher world := TypesenseSearcher "key".
Abbreviation view := (pg_view (DB := database cuuid) (W := world)).
#[local] Instance search_view : SearcherFrame view := Typesense_keeps view "key" (λ _ _, eq_refl).
#[local] Instance view_vk : ValkeyFrame view.
Proof. constructor; intros x w; simpl; [by destruct (run_cmds x (w_ks w))|by destruct (x (w_ks w))]. Qed.
#[local] Instance vk_pg : PgFrame (database cuuid) (vk_view (W := world)).
Proof.
  constructor; try done.
  - intros A f w. simpl. by destruct (f (w_db w)) as [[] ?].
  - intros A f w. simpl. destruct (w_tx w); [|done]. by destruct (f _) as [[] ?].
  - intros w. simpl. by destruct (w_tx w).
Qed.
#[local] Instance view_told : ChannelFrame (U := cuuid) view.
Proof. by split. Qed.

(** ** The libraries *)
#[local] Existing Instance GuildWitness.world_random.
#[local] Existing Instance GuildWitness.words_Statuses.
#[local] Existing Instance GuildWitness.words_Errors.
#[local] Existing Instance GuildWitness.digits_TimeFormat.
#[local] Existing Instance Jwt.Witness.plain_JwtLib.
#[local] Instance words_Types : ChannelTypes := {|
  ChannelTypeText := "text"; ChannelTypeVoice := "voice"; ChannelTypeAnnouncement := "announcement";
  ChannelTypeForum := "forum"; ChannelTypeStage := "stage" |}.
#[local] Instance words_ChannelErrors : ChannelErrors := {|
  UnknownCategory := "UNKNOWN_CATEGORY"; MaxChannelsReached := "MAX_CHANNELS";
  MaxCategoriesReached := "MAX_CATEGORIES"; SearchUnavailable := "SEARCH_UNAVAILABLE" |}.
#[local] Instance words_ChannelEvents : ChannelEventNames := {|
  ChannelCreated := "CHANNEL_CREATE"; ChannelUpdated := "CHANNEL_UPDATE"; ChannelDeleted := "CHANNEL_DELETE" |}.
#[local] Instance bits_Channel : ChannelPermissions := {| ManageChannels := 128; ManageCategories := 2048 |}.

(** ** The database *)
Definition attic : cuuid := "00000000-0000-4000-8000-0000000000c2"%string ↾ eq_refl.
Definition upstairs : cuuid := "00000000-0000-4000-8000-0000000000ca"%string ↾ eq_refl.
Definition hidden : cuuid := "00000000-0000-4000-8000-0000000000cb"%string ↾ eq_refl.
Definition room (id : cuuid) (category : option cuuid) (name : string) (position : Z) : Channel.Channel cuuid :=
  Channel.mkChannel id category (Some olga) name "text" "" position 0 false position position.
Definition rooms : gmap cuuid (Channel.Channel cuuid) :=
  <[hall := room hall None "hall" 0]> {[attic := room attic (Some upstairs) "attic" 1]}.
Definition folk : guild cuuid := mkGuild 100 0
  (g_users GuildWitness.town) (Channel.CategoryID <$> rooms) (g_server GuildWitness.town)
  (<[everyone := GuildWitness.plain_role everyone "@everyone" 0 15 true]>
    {[mods := GuildWitness.plain_role mods "mods" 1 (128 + 2048) false]}) (g_members GuildWitness.town)
  {[(olga, everyone); (mona, everyone); (tony, everyone); (mona, mods)]} ∅
  {[ (TargetCategory, upstairs, PrincipalRole, everyone) := mkOverrideRow hidden 0 1 0 0 ]} ∅ None ∅.
Definition floor : gmap cuuid (Category.Category cuuid) := {[upstairs := Category.mkCategory upstairs "upstairs" 0 1 1]}.
Definition home : database cuuid := mkDatabase folk (set_known_channels (dom rooms) ChatWitness.talk) rooms floor.
Definition said (id : cuuid) (where_ : cuuid) (text : string) : Document :=
  mkDocument (uuid_String id) text (uuid_String tony) (uuid_String where_) 1.
Definition w0 : world := mkWorld (Keyspace 0 ∅ []) home None (100 * Second) [] []
  [said ChatWitness.greeting hall "hello"; said ChatWitness.removed attic "hello from above"].
Definition cfg : Config := Config.Witness.cfg_ok.
Definition h : channel_handler := mkChannelHandler true true 500 50.
Ltac by_computing := apply (bool_decide_unpack _); vm_compute; exact I.

Lemma home_wf : db_wf (guild_perms (db_guild (view w0))).
Proof.
  change (db_guild (view w0)) with folk.
  apply guild_perms_wf; unfold in_int64; by_computing.
Qed.
Lemma no_nil_room : db_channels (view w0) !! uuid_Nil = None.
Proof. vm_compute. reflexivity. Qed.
Lemma cold_home : coherent (U := cuuid) w0.
Proof.
  intros u c p Hp. change (decode_entry (ks_lookup (Keyspace 0 ∅ []) (cacheKey u c)) = Some p) in Hp.
  by rewrite (GuildWitness.nothing_stored) in Hp.
Qed.
Lemma home_synced : synced home = home.
Proof. apply synced_eq. split; reflexivity. Qed.
Lemma hall_ok : channel_ok home hall (room hall None "hall" 0).
Proof.
  apply mkChannelOk; [reflexivity|by_computing|by_computing|by_computing|by_computing|by_computing|discriminate|].
  intros u [= <-]. by_computing.
Qed.
Lemma attic_ok : channel_ok home attic (room attic (Some upstairs) "attic" 1).
Proof.
  apply mkChannelOk; [reflexivity|by_computing|by_computing|by_computing|by_computing|by_computing| |].
  - intros k [= <-]. exists (Category.mkCategory upstairs "upstairs" 0 1 1). vm_compute. reflexivity.
  - intros u [= <-]. by_computing.
Qed.
Lemma home_ok : database_ok (maxChannels h) (maxCategories h) (view w0).
Proof.
  change (view w0) with home. apply mkDatabaseOk.
  - exact home_synced.
  - change (map_Forall (channel_ok home) rooms). apply map_Forall_insert_2; [exact hall_ok|].
    apply map_Forall_singleton. exact attic_ok.
  - change (map_Forall (λ k c, Category.ID c = k ∧ good_name (Category.Name c) ∧ good_position (Category.Position c)) floor).
    apply map_Forall_singleton. split; [reflexivity|]. unfold good_name, good_position. by_computing.
  - intros i j c c' Hi Hj _. change (floor !! i = Some c) in Hi. change (floor !! j = Some c') in Hj.
    unfold floor in Hi, Hj.
    apply (proj1 (lookup_singleton_Some _ _ _ _)) in Hi as [<- _].
    by apply (proj1 (lookup_singleton_Some _ _ _ _)) in Hj as [<- _].
  - by_computing.
  - by_computing.
  - apply map_Forall_empty.
  - discriminate.
  - apply map_Forall_empty.
  - change (map_Forall (λ _ a, has_channel (Attachment.ChannelID a) home) (p_attachments (c_posts ChatWitness.talk))).
    unfold has_channel. by_computing.
  - apply map_Forall_empty.
  - exact ChatWitness.talk_posts.
Qed.

(** ** Requests *)
Definition token (u : cuuid) : string :=
  match (NewAccessToken (W := world) u (Expose (JWTSecret cfg)) (900 * Second) (ServerURL cfg) true w0).1 with
  | Ok t => t | Err _ => ""%string
  end.
Definition from (u : cuuid) (method : string) (params query : list (string * string)) : request cuuid :=
  mkRequest method (λ k, if bool_decide (k = "Authorization"%string) then "Bearer " +:+ token u else ""%string)
    (λ _, ""%string)
    (λ k, default ""%string (snd <$> head (filter (λ p, p.1 = k) params)))
    (λ k, default ""%string (snd <$> head (filter (λ p, p.1 = k) query))) None None None.
Definition serve (x : channel_route) (c : request cuuid) (w : world) := channel_routes (U := cuuid) h cfg x c w.

(** Mona opens a channel upstairs. *)
Definition den : channel_route :=
  RCreateChannel (Ok (mkCreateChannel " den " None (Some (uuid_String upstairs)) None (Some 5) None)).
Definition den_request : request cuuid := from mona "POST" [] [].
Definition w1 : world := (serve den den_request w0).2.
Definition den_answer : res (response channel_answer) := Eval vm_compute in (serve den den_request w0).1.
Lemma den_done : serve den den_request w0 = (den_answer, w1).
Proof. unfold w1. apply run_eq. vm_compute. reflexivity. Qed.
Lemma channel_requests_authorised_witness :
  (∃ resp, den_answer = Ok resp ∧ status resp = StatusCreated) ∧
  Channel.Name <$> db_channels (view w1) !! GuildWitness.gen_id 0 = Some "den"%string ∧
  ∃ u, may_request cfg den den_request w0 u ∧
    (view w1 = view w0 ∨ channel_step (maxChannels h) (maxCategories h) u (view w0) (view w1)).
Proof.
  split; [eexists; split; reflexivity|]. split; [vm_compute; reflexivity|].
  apply (channel_requests_authorised h cfg den den_request w0 den_answer w1 home_wf no_nil_room home_synced den_done).
  left. reflexivity.
Defined.

(** She removes the category: the attic stays, outside of it. *)
Definition clear : request cuuid := from mona "DELETE" [("categoryID", uuid_String upstairs)]%string [].
Definition w2 : world := (serve RDeleteCategory clear w0).2.
Definition clear_answer : res (response channel_answer) := Eval vm_compute in (serve RDeleteCategory clear w0).1.
Lemma clear_done : serve RDeleteCategory clear w0 = (clear_answer, w2).
Proof. unfold w2. apply run_eq. vm_compute. reflexivity. Qed.
Lemma channel_requests_keep_invariant_witness :
  Channel.CategoryID <$> db_channels (view w2) !! attic = Some None ∧
  size (g_overrides (db_guild (view w2))) = 0%nat ∧
  database_ok (maxChannels h) (maxCategories h) (view w2).
Proof.
  split; [vm_compute; reflexivity|]. split; [vm_compute; reflexivity|].
  exact (channel_requests_keep_invariant h cfg RDeleteCategory clear w0 clear_answer w2 home_wf no_nil_room
    home_ok clear_done).
Defined.

(** Tony does not see the attic, nor what was said there. *)
Definition as_tony (query : list (string * string)) : request cuuid :=
  let c := from tony "GET" [] query in
  mkRequest (Method c) (Header c) (Cookies c) (Http.Params c) (Query c) (Some tony) (Some true) None.
Definition w3 : world := (ListChannels (U := cuuid) (as_tony []) w0).2.
Definition rooms_answer : res (response (list Models.Channel)) := Eval vm_compute in
  (ListChannels (U := cuuid) (as_tony []) w0).1.
Lemma rooms_listed : ListChannels (U := cuuid) (as_tony []) w0 = (rooms_answer, w3).
Proof. unfold w3. apply run_eq. vm_compute. reflexivity. Qed.
Lemma tony_view : may_view tony (λ ch, bool_decide (ch = hall)) (view w0).
Proof.
  change (view w0) with home.
  assert (Hbit : ∀ p, perm_Has p ViewChannels = Z.testbit p 0).
  { intros p. change (bool_decide (Z.land p (Z.ones 1) = 1) = Z.testbit p 0).
    rewrite Z.land_ones, <-Z.bit0_mod by lia. by destruct (Z.testbit p 0). }
  intros ch p [[[Ho|Ha] _]|(_ & cat & Hc & Hb)].
  - vm_compute in Ho. discriminate Ho.
  - specialize (Ha 5 eq_refl). vm_compute in Ha. discriminate Ha.
  - rewrite Hbit, Hb. change ((Channel.CategoryID <$> rooms) !! ch = Some cat) in Hc.
    apply lookup_fmap_Some in Hc as (c & <- & Hc). unfold rooms in Hc. apply lookup_insert_Some in Hc as [[<- <-]|[Hne Hc]].
    + vm_compute. reflexivity.
    + apply (proj1 (lookup_singleton_Some _ _ _ _)) in Hc as [<- <-]. vm_compute. reflexivity.
Qed.
Lemma ListChannels_correct_witness :
  match rooms_answer with
  | Ok resp => status resp = StatusOK ∧ content resp = Data [Channel.ToModel (room hall None "hall" 0)] ∧
               content resp = Data (visible_channels tony (λ ch, bool_decide (ch = hall)) (view w0))
  | Err _ => False
  end.
Proof.
  split; [reflexivity|]. split; [reflexivity|].
  exact (proj2 (proj2 (ListChannels_correct (maxChannels h) (maxCategories h) (as_tony []) tony w0 rooms_answer w3
    home_wf cold_home home_ok no_nil_room eq_refl eq_refl rooms_listed)) _ _ tony_view eq_refl eq_refl).
Defined.

Definition hello : request cuuid := as_tony [("q", "hello"); ("limit", "500")]%string.
Definition w4 : world := (SearchMessages (U := cuuid) hello w0).2.
Definition found_answer : res (response SearchResponse) := Eval vm_compute in (SearchMessages (U := cuuid) hello w0).1.
Lemma hello_found : SearchMessages (U := cuuid) hello w0 = (found_answer, w4).
Proof. unfold w4. apply run_eq. vm_compute. reflexivity. Qed.
Lemma SearchMessages_confined_witness :
  match found_answer with
  | Ok resp => ∃ found, content resp = Data found ∧ 1 ≤ sr_Page found ∧ 1 ≤ sr_PerPage found ≤ 100 ∧
      Forall (λ x, in_sight tony (view w0) (sh_ChannelID x)) (sr_Hits found)
  | Err _ => False
  end ∧
  match found_answer with
  | Ok (mkResponse _ (Data found)) => sh_Content <$> sr_Hits found = ["hello"%string] ∧ sr_PerPage found = 100
  | _ => False
  end.
Proof.
  split; [|split; reflexivity].
  exact (proj2 (proj2 (SearchMessages_confined "key" (λ _ _, eq_refl) (λ _ _, eq_refl)
    (maxChannels h) (maxCategories h) hello tony w0 found_answer w4
    home_wf cold_home home_ok no_nil_room eq_refl eq_refl hello_found)) _ eq_refl eq_refl).
Defined.
